(* ===== verification/_CoqProject ===== *)
-Q . S2P
Prelude.v
Crypto.v
Text.v
Identity.v
HashChain.v
CanonicalV1.v
Decoder.v
AuthorityV1.v
AccountV1.v
SyncHistoryV2.v
SyncCheckpoint.v
SyncSessionV2.v
SyncResponderV2.v
Postcard.v
Redb.v
Mailbox.v
MailboxStore.v
MailboxStoreFacts.v
OrderedGuard.v
OrderedGuardFacts.v
OrderedDialog.v
OrderedValue.v
OrderedDialogV1.v
Rollout.v
RolloutFacts.v
ReleaseTrust.v
ReleaseTrustFacts.v
TrustedPolicy.v
TrustedPolicyFacts.v
Activation.v
ActivationFacts.v
ActivationChain.v
RolloutApproval.v
ContainmentRecovery.v
RolloutApprovalFacts.v
TrustedHealth.v
TrustedHealthFacts.v
RolloutOperator.v
RolloutOperatorFacts.v
OperatorRecovery.v
OperatorImport.v
OperatorExample.v
FileTree.v
FileTreeFacts.v
StateTransaction.v
StateTransactionFacts.v
StateJournal.v
StateRecovery.v
StateAtomicity.v
StateBegin.v
StateWorkspace.v
StateCompaction.v
StateWorkspaceFacts.v
StateSafety.v
StateExample.v
