(* ===== verification/Prelude.v ===== *)
(** * A verification library for the core of the Kilogram messenger

    Kilogram is a peer-to-peer messenger.  Its devices exchange signed
    messages in a strict subset of CBOR; an account is a root key that
    certifies devices and revokes them; two devices synchronize a conversation
    in a session whose progress each of them signs as a chain of checkpoints,
    and order the events of a dialog by a guard beside the native ratchet;
    messages for a device that is offline wait in a blind mailbox that any
    volunteer can host; a device changes its own state in transactions that
    survive a crash; and the move to a new protocol is rolled out by signed
    policies that every device approves for itself.  This library models those
    parts from the Rust sources and proves what makes them correct.

    ** The program's parts and the files that model them

    Shared by all of them:

    - [Prelude] holds what the Rust sources share: [Result] and [?]
      ([rbind], [map_err]), loops that return early, machine integers with
      their bounds ([u64], [u16]), byte arrays [[u8; n]] ([arr n]), slices,
      [Ord] and [binary_search].  [Text] is Rust's [str]: UTF-8, characters,
      [trim].
    - [Crypto], [Postcard] and [Redb] are the interfaces of the third-party
      code the program calls: [ed25519_dalek], [blake3] (plain, keyed and
      [derive_key]), [sha2], [postcard] and [redb].  Each is a class of
      operations and a class of the laws its documentation promises, with a
      concrete instance that satisfies them.
    - [Identity] is the part of [kilogram-identity/src/lib.rs] that signs and
      verifies for a device.
    - [HashChain] is the interface of records linked by the hash of their
      predecessor, and the uniqueness of histories proved once against it.

    The canonical messages of [kilogram-protocol]:

    - [CanonicalV1] is [canonical_v1.rs]: the encoder of the canonical CBOR
      profile, its validator with the depth, item and size limits, and the
      acknowledgement and inventory messages.  [item] is the abstract syntax
      of the profile.
    - [Decoder] is the decoder state monad and the interface [Reads] (a parser
      reads exactly what an encoder writes) that every message decoder is an
      instance of.
    - [AuthorityV1] is [canonical_authority_v1.rs]: device certificates,
      revocations, authority snapshots and session authorizations, with the
      strict [AuthorityDecoder].
    - [AccountV1] is [canonical_account_v1.rs]: account device lists and
      conversation memberships, with [AccountDecoder].
    - [SyncHistoryV2] is the event keys of [canonical_sync_history_v2.rs].
    - [SyncCheckpoint] has the helpers that [canonical_sync_session_v2.rs] and
      [canonical_sync_responder_session_v2.rs] both define, over the class
      [CheckpointErrors] of their error types; [SyncSessionV2] and
      [SyncResponderV2] are the two checkpoint formats: encoding, strict
      decoding, verification and the successor check, which is the state
      machine of a session.

    The blind mailbox, [kilogram-mailbox]:

    - [Mailbox] is [lib.rs]: addresses, capabilities, write and read
      authorizations, storage offers with their admission work, receipts, and
      the hexadecimal form of keys.
    - [MailboxStore] is [store.rs]: the store's tables, accounting, [open],
      [put], [list_page], [delete] and [cleanup]; [MailboxStoreFacts] has its
      correctness.

    The ordered dialog:

    - [OrderedGuard] is [kilogram-ratchet/src/ordered_v2.rs]: the guard, its
      checkpoint, preflight and [apply], and the import of the previous format.
      [OrderedGuardFacts] has its invariants, and [OrderedDialog] two guards
      that exchange events.
    - [OrderedValue] and [OrderedDialogV1] are
      [kilogram-protocol/src/ordered_dialog_v1.rs]: the value trees with their
      codec, and events, controls and frames.

    The rollout of the canonical protocol, [kilogram-rollout] and
    [kilogram-session]:

    - [Rollout] ([lib.rs]) is the policy chain, the cohort, the health
      counters and the controller; [RolloutFacts] has its correctness.
    - [ReleaseTrust] ([trust.rs]) is the keyrings of release keys,
      [TrustedPolicy] ([trusted_policy.rs], [trusted_policy_store.rs]) the
      bundles of a keyring and a policy and the store of their chain; their
      theorems are in [ReleaseTrustFacts] and [TrustedPolicyFacts].
    - [TrustedHealth] ([trusted_health_store.rs]) is the health store that
      follows the chain of bundles; [TrustedHealthFacts] its refinement.
    - [Activation] ([canonical_sync_v2_activation.rs] of [kilogram-session])
      is a device's own chain of signed activation records with its
      high-water mark; [ActivationFacts] has the codecs, [ActivationChain] the
      state machine and the chains.
    - [RolloutApproval] ([rollout_approval.rs]) and [ContainmentRecovery]
      ([containment_recovery.rs]) are the device's signatures under a proposal
      and under a recovery; [RolloutApprovalFacts] has their correctness.
    - [RolloutOperator] is the operator's commands of
      [apps/kilogram-cli/src/main.rs], which compose all of the above: they
      read the two stores and the activation directory, ask the controller,
      write the artifact, and carry it out in two durable writes.
      [RolloutOperatorFacts], [OperatorRecovery] and [OperatorImport] prove
      what the commands do, and [OperatorExample] runs them on a concrete
      installation.

    The state directory of a device, [kilogram-state]:

    - [FileTree] is the file system as it is seen from there: a tree of files
      and directories, actions that list the operations they perform, the trees
      that a crash may leave, and the calls of [std::fs].  [FileTreeFacts] is a
      crash Hoare logic for actions: [wp I m Q t] says that [m] succeeds with
      [Q] and that every tree a crash leaves on the way satisfies [I];
      [wp_except] names the crashes that are excepted.
    - [StateTransaction] is [lib.rs]: the journal, [begin], [commit],
      [rollback_active] and [recover]; [StateWorkspace] the operations of an
      open transaction: registered writes, the compaction of runtime records,
      the workspaces filled from the vault, and the staged mutations.
    - [StateTransactionFacts] proves the rules of the file helpers
      ([copy_tree], [remove_new_files], ...); [StateJournal] says what a valid
      journal is and what rolling it back is to give every file ([outcome]);
      [StateRecovery] proves the phases of the rollback, [StateAtomicity] the
      rollback, the recovery and the commit, [StateBegin] the snapshot,
      [StateCompaction] the compaction, [StateWorkspaceFacts] the workspaces of
      ratchet, sequence number and trust files; [StateSafety] has the life of a
      transaction as a transition system and the theorems about it, and
      [StateExample] a platform, a profile and a transaction that runs.

    ** How state and errors are modelled

    Fallible functions return [result]; the order of the checks is the
    order of the source, so the error a caller sees is the source's.  Error
    payloads that come from third-party crates are dropped.  A decoder
    ([AuthorityDecoder], [AccountDecoder]) is a buffer and a cursor, threaded
    by the monad of [Decoder].  A store is the record of its tables; an
    operation returns its outcome and the store after it, and an error inside
    a write transaction leaves the store it began with.  A command of the
    operator is a function of the state directory that gives its answer and
    the directory after each durable write, so that a stop at any moment is a
    prefix of its writes.  Time, the files a command is given, and the random
    bytes of [getrandom] are arguments.

    ** What the theorems show

    - The validator accepts exactly the encodings of the items of the profile
      within its limits, and the accepted strings are prefix-free; encoding a
      message succeeds exactly when its fields are canonical and bounded, and
      is injective.
    - For every signed message, strict decoding followed by verification
      accepts a byte string exactly when it is the canonical encoding of a
      message that verifies: encoders and decoders are inverse, and there is
      one accepted encoding of each message.
    - A verified session authorization, device list or membership carries the
      signatures, the coverage of revisions, the order and the absence of
      revocations that the protocol promises.
    - The successor check of a checkpoint chain is exactly the step relation
      of the session state machine; along a chain the identity of the session
      never changes, evidence only grows, active steps make progress, a
      completed session has no successor, and the newest checkpoint determines
      the whole history.
    - The mailbox store refines an abstract map of live items and tombstones:
      every operation on an accepted request returns the outcome the map
      dictates and changes it in no other way; the counters cover what is
      stored and stay within the configured capacity in every reachable store;
      cleanup makes them exact; pages neither skip nor repeat an item; a
      deleted item stays deleted until its expiry.
    - Authorizations, offers and receipts made by the holder of a key verify,
      survive their wire form, and are good for one request only; the
      admission-work search returns the first nonce that meets the target.
    - In every reachable dialog the guards of the two devices agree on the
      lanes up to the events in flight, every honest event is accepted in the
      order it was sent, and no event is accepted twice.
    - The policy and health stores of the rollout refine a policy chain with
      counters; the controller's proposals are characterized exactly, and for a
      selected and healthy installation it reaches the policy's target in at
      most three approved steps from an uncontained state below it, and holds
      in every other; a keyring
      is accepted exactly when the root can issue it, a revoked key signs no
      later bundle, and a containment can always be issued and imported.
    - The activation authority accepts exactly the chains of the device's
      signed records that run the activation state machine, with the mark of
      the newest; evidence once bound stays bound, a selected session can
      always resume, and the mark detects a truncated chain.
    - The operator's commands are restartable: interrupted between their two
      writes the runtime refuses the directory, and the same command writes
      exactly what is missing.  They write only what the controller proposes
      and the device signed, a proposal can always be followed, and an import
      brings both stores to the same chain from any prefix.  On a contained
      device an approval writes nothing and a recovery only what a healthy
      trusted policy allows; a direct activation leaves containment without a
      policy, which a theorem shows.

    - A transaction of the state directory is atomic: wherever a crash comes in
      its life, and however often the recoveries that follow are interrupted,
      every file ends with its old content or, if the commit was under way, all
      of them with the new; recovery always succeeds and can be restarted; an
      open transaction can be rolled back or committed.  Nothing is assumed of
      the order in which [remove_dir_all] removes the journal; the crashes that
      come between the removal of a marker that closes it and that of
      [prepared] ([exposed]) are excepted, and a theorem shows such a crash, on
      a platform that obeys the laws, that loses a committed change.  An
      example shows a sequence number whose change [staged_mutations] does not
      report.

    ** Fuel and bounds

    The CBOR validator recurses at most [VALIDATE_FUEL] = 10 levels, two more
    than the depth it admits, so it never runs out, nor does the reader of
    [OrderedValue], which runs after it.  [skip_smaller] loops at most as often
    as the list is long.  The admission-work search runs the [2^24] attempts of
    the source.  [usize] has 64 bits.  Slices are shorter than [2^64] bytes
    where a decoder needs it ([dec_fits]).  Epochs and counters are [u64] with
    the checked additions of the source.  The recursions over directories
    have the depth of the tree as their fuel ([fueled]), and the theorems about
    them show that it is enough.

    ** What is not modelled

    The carriers of events of [canonical_sync_history_v2.rs], the remaining
    canonical formats (events, sync messages, recovery, runtime IPC, ...), the
    envelope sealing and the wire frames of the mailbox, the encrypted vault and
    the event store (the writes of a command are those of a directory of files;
    what the vault answers about an ordered profile, and the records it gives to
    a workspace, are arguments), the native ratchet of [vodozemac], the
    transport, and the commands of the command line other than the operator's.
    The records that a workspace is filled with are taken to lie in its area and
    none of them on the way to another.  Failures of the storage device and the
    directory checks of [open] are not modelled, nor is the use of one store by several threads: [redb] runs one
    write transaction at a time, and the model is the sequence of them, two
    writers that interleave their plans and commits included.

    ** Where the library goes next

    The other canonical formats on top of [Decoder] and [AccountV1] (events
    and the carriers of [canonical_sync_history_v2.rs], the sync messages of
    [canonical_sync_v2.rs]), the mailbox wire frames and client ledger, the
    second version of the ordered dialog's messages, and the vault beside the
    state directory. *)


From stdpp Require Import base tactics list numbers strings countable.
From Stdlib Require Import Strings.Byte Sorting.Sorted.

Declare Scope kg_scope.
Delimit Scope kg_scope with kg.
Open Scope kg_scope.

(** * Results and errors *)

(** Rust's [Result<A, E>]. *)
Inductive result (E A : Type) : Type :=
| Ok (a : A)
| Err (e : E).
Arguments Ok {E A} a.
Arguments Err {E A} e.

(** The [?] operator on one error type. *)
Definition rbind {E A B} (m : result E A) (k : A → result E B) : result E B :=
  match m with Ok a => k a | Err e => Err e end.

Notation "'let?' x ':=' m 'in' k" := (rbind m (fun x => k))
  (at level 10, x pattern, m at level 100, k at level 200,
   format "'let?'  x  ':='  m  'in' '//' k") : kg_scope.
Notation "m ;? k" := (rbind m (fun _ => k))
  (at level 100, k at level 200, right associativity, format "m  ;? '//' k") : kg_scope.

(** [Result::map_err]; [?] through a [From] conversion is [map_err] followed
    by the bind. *)
Definition map_err {E F A} (f : E → F) (m : result E A) : result F A :=
  match m with Ok a => Ok a | Err e => Err (f e) end.

(** [if condition { return Err(error) }]. *)
Definition fail_if {E} (condition : bool) (error : E) : result E unit :=
  if condition then Err error else Ok tt.

(** [option.ok_or(error)]. *)
Definition ok_or {E A} (o : option A) (error : E) : result E A :=
  match o with Some a => Ok a | None => Err error end.

Definition is_ok {E A} (m : result E A) : bool :=
  match m with Ok _ => true | Err _ => false end.

(** [iter.map(f).collect::<Result<Vec<_>, _>>()] and [for] loops that push. *)
Fixpoint try_map {E A B} (f : A → result E B) (l : list A) : result E (list B) :=
  match l with
  | [] => Ok []
  | a :: l => let? b := f a in let? bs := try_map f l in Ok (b :: bs)
  end.

(** A [for] loop whose body may return an error. *)
Fixpoint try_for {E A} (f : A → result E unit) (l : list A) : result E unit :=
  match l with
  | [] => Ok tt
  | a :: l => f a ;? try_for f l
  end.

(** [for _ in 0..n] over a mutable state. *)
Fixpoint try_repeat {E S} (n : nat) (step : S → result E S) (s : S) : result E S :=
  match n with
  | O => Ok s
  | S n => let? s := step s in try_repeat n step s
  end.

(** A [for] loop that appends to an output buffer and may return an error. *)
Fixpoint try_fold {E A S} (f : A → S → result E S) (l : list A) (s : S) : result E S :=
  match l with
  | [] => Ok s
  | a :: l => let? s := f a s in try_fold f l s
  end.

(** [for _ in 0..n] with an early return: [inl] continues with the new state,
    [inr] returns.  The recursion follows the binary digits of the count, so a
    long loop that returns early is evaluated quickly. *)
Fixpoint for_pos {S R} (n : positive) (step : S → S + R) (s : S) : S + R :=
  match n with
  | xH => step s
  | xO n => match for_pos n step s with inl s => for_pos n step s | inr r => inr r end
  | xI n =>
      match step s with
      | inl s => match for_pos n step s with inl s => for_pos n step s | inr r => inr r end
      | inr r => inr r
      end
  end.

Definition for_range {S R} (n : N) (step : S → S + R) (s : S) : S + R :=
  match n with N0 => inl s | Npos n => for_pos n step s end.

(** Pipelines: [Vec] methods that append to an output buffer. *)
Notation "x |> f" := (f x) (at level 50, left associativity, only parsing) : kg_scope.

(** * Machine integers *)

(** An unsigned integer below [bound]; the bound is carried as a boolean test
    so that equal values are equal terms and closed terms compute. *)
Record uint (bound : N) : Type := mk_uint {
  uint_val :> N;
  uint_ok : (uint_val <? bound)%N = true
}.
Arguments mk_uint {bound} _ _.
Arguments uint_val {bound} _.
Arguments uint_ok {bound} _.

(** [2^64] and [2^16]. *)
Abbreviation U64_BOUND := 18446744073709551616%N.
Abbreviation U16_BOUND := 65536%N.
Abbreviation u64 := (uint U64_BOUND).
Abbreviation u16 := (uint U16_BOUND).

(** The [as u64] cast: reduction modulo [2^64]. *)
Definition as_u64 (n : N) : u64 :=
  match Sumbool.sumbool_of_bool (n mod U64_BOUND <? U64_BOUND)%N with
  | left H => mk_uint (n mod U64_BOUND) H
  | right _ => @mk_uint U64_BOUND 0 eq_refl
  end.

(** [usize] has the width of the 64-bit targets the program ships for. *)
Definition USIZE_MAX : N := U64_BOUND - 1.
Abbreviation usize := N.

(** [usize::checked_add]. *)
Definition usize_checked_add (a b : usize) : option usize :=
  if (a + b <=? USIZE_MAX)%N then Some (a + b)%N else None.

(** [usize::try_from(u64)]. *)
Definition usize_try_from (v : u64) : option usize :=
  if (uint_val v <=? USIZE_MAX)%N then Some (uint_val v) else None.

(** The [u64] arithmetic of the standard library. *)
Definition u64_checked_add (a b : u64) : option u64 :=
  if (uint_val a + uint_val b <? U64_BOUND)%N then Some (as_u64 (uint_val a + uint_val b)) else None.
Definition u64_checked_sub (a b : u64) : option u64 :=
  if (uint_val b <=? uint_val a)%N then Some (as_u64 (uint_val a - uint_val b)) else None.
Definition u64_saturating_add (a b : u64) : u64 :=
  as_u64 (N.min (uint_val a + uint_val b) (U64_BOUND - 1)).
Definition u64_saturating_sub (a b : u64) : u64 := as_u64 (uint_val a - uint_val b).
(** Plain [+] in a release build. *)
Definition u64_wrapping_add (a b : u64) : u64 := as_u64 (uint_val a + uint_val b).

Definition u64_eqb (a b : u64) : bool := (uint_val a =? uint_val b)%N.

(** [u64::from(bool)]. *)
Definition u64_of_bool (b : bool) : u64 := as_u64 (if b then 1 else 0).

(** [slice.len()]. *)
Definition len {A} (l : list A) : usize := N.of_nat (length l).

(** * Bytes *)

Abbreviation bytes := (list byte).

Definition byte_val (b : byte) : N := Byte.to_N b.

(** [as u8]. *)
Definition as_u8 (n : N) : byte :=
  match Byte.of_N (n mod 256) with Some b => b | None => x00 end.

(** [to_be_bytes] on [k] bytes and [from_be_bytes]. *)
Fixpoint to_be_bytes (k : nat) (v : N) : bytes :=
  match k with
  | O => []
  | S k => to_be_bytes k (v / 256)%N ++ [as_u8 v]
  end.

Definition from_be_bytes (l : bytes) : N :=
  fold_left (fun acc b => acc * 256 + byte_val b)%N l 0%N.

(** A byte-string literal [b"..."], with [\0] written as a final [x00]. *)
Definition b_str (s : string) : bytes := String.list_byte_of_string s.

(** [slice.get(i).copied()] and [slice.get(a..b)]. *)
Definition slice_get (bs : bytes) (i : usize) : option byte :=
  if (i <? len bs)%N then bs !! N.to_nat i else None.
Definition slice_range (bs : bytes) (a b : usize) : option bytes :=
  if ((a <=? b) && (b <=? len bs))%N
  then Some (take (N.to_nat (b - a)) (drop (N.to_nat a) bs))
  else None.

(** The cursor [c] of [bs] stands in front of [rest]. *)
Definition at_pos (bs : bytes) (c : usize) (rest : bytes) : Prop :=
  ∃ pre, bs = pre ++ rest ∧ c = len pre.

(** * Fixed-size arrays [[u8; n]] *)

Record arr (n : nat) : Type := mk_arr {
  arr_bytes :> bytes;
  arr_ok : (length arr_bytes =? n)%nat = true
}.
Arguments mk_arr {n} _ _.
Arguments arr_bytes {n} _.
Arguments arr_ok {n} _.

(** [slice.try_into()]. *)
Definition arr_try_from (n : nat) (l : bytes) : option (arr n) :=
  match Sumbool.sumbool_of_bool (length l =? n)%nat with
  | left H => Some (mk_arr l H)
  | right _ => None
  end.

(** [[b; n]]. *)
Definition arr_repeat (n : nat) (b : byte) : arr n :=
  mk_arr (repeat b n) (proj2 (Nat.eqb_eq _ _) (repeat_length b n)).

(** The array of a list of the right length. *)
Definition arr_of (n : nat) (l : bytes) : arr n :=
  match arr_try_from n l with Some a => a | None => arr_repeat n x00 end.

(** * Orders: the trait [Ord] *)

Class Ord (A : Type) := {
  cmp : A → A → comparison;
  cmp_eq : ∀ a b, cmp a b = Eq ↔ a = b;
  cmp_opp : ∀ a b, cmp b a = CompOpp (cmp a b);
  cmp_lt_trans : ∀ a b c, cmp a b = Lt → cmp b c = Lt → cmp a c = Lt
}.

Definition ord_lt `{Ord A} (a b : A) : Prop := cmp a b = Lt.
Definition ord_ltb `{Ord A} (a b : A) : bool :=
  match cmp a b with Lt => true | _ => false end.
(** [a >= b]. *)
Definition ord_geb `{Ord A} (a b : A) : bool := negb (ord_ltb a b).

(** [slice.windows(2).any(|pair| f(pair[0], pair[1]))]. *)
Fixpoint windows2_any {A} (f : A → A → bool) (l : list A) : bool :=
  match l with
  | x :: ((y :: _) as t) => f x y || windows2_any f t
  | _ => false
  end.

(** Unsigned bytewise lexicographic order. *)
Fixpoint bytes_cmp (a b : bytes) : comparison :=
  match a, b with
  | [], [] => Eq
  | [], _ :: _ => Lt
  | _ :: _, [] => Gt
  | x :: a, y :: b =>
      match (byte_val x ?= byte_val y)%N with Eq => bytes_cmp a b | c => c end
  end.

(** [slice::binary_search(x).is_ok()] as the standard library computes it:
    [size] halves at each step and [base] moves right unless the probe is
    greater. *)
Fixpoint binary_search_loop `{Ord A} (fuel : nat) (l : list A) (x : A) (size base : nat) : nat :=
  match fuel with
  | O => base
  | S fuel =>
      if (size <=? 1)%nat then base else
      let half := (size / 2)%nat in
      let mid := (base + half)%nat in
      let base := match l !! mid with
                  | Some y => match cmp y x with Gt => base | _ => mid end
                  | None => base
                  end in
      binary_search_loop fuel l x (size - half) base
  end.

Definition binary_search `{Ord A} (l : list A) (x : A) : bool :=
  match l !! binary_search_loop (length l) l x (length l) 0 with
  | Some y => match cmp y x with Eq => true | _ => false end
  | None => false
  end.

(** * Tactics *)

Lemma Ok_inj {E A} (a b : A) : Ok (E:=E) a = Ok b → a = b.
Proof. by intros [= ->]. Qed.
Lemma Ok_pair_inj {E A B} (a a' : A) (b b' : B) :
  Ok (E:=E) (a, b) = Ok (a', b') → a = a' ∧ b = b'.
Proof. by intros [= -> ->]. Qed.

(** Inverts a successful [?] chain: every bind, guard and conversion of a
    hypothesis [_ = Ok _]. *)
Ltac result_inv :=
  repeat match goal with
  | H : Err _ = Ok _ |- _ => discriminate H
  | H : Ok _ = Err _ |- _ => discriminate H
  | H : rbind (ok_or ?m _) _ = Ok _ |- _ =>
      let E := fresh "E" in destruct m eqn:E; cbn [rbind ok_or] in H; [|discriminate H]
  | H : rbind (fail_if ?b _) _ = Ok _ |- _ =>
      let E := fresh "G" in destruct b eqn:E; cbn [rbind fail_if] in H; [discriminate H|]
  | H : rbind (map_err _ ?m) _ = Ok _ |- _ =>
      let E := fresh "E" in destruct m eqn:E; cbn [rbind map_err] in H; [|discriminate H]
  | H : rbind ?m _ = Ok _ |- _ =>
      let E := fresh "E" in destruct m eqn:E; cbn [rbind] in H; [|discriminate H]
  | H : (match ?p with (_, _) => _ end) = Ok _ |- _ =>
      destruct p; cbv beta iota in H
  | H : Ok (_, _) = Ok (_, _) |- _ =>
      let H1 := fresh in let H2 := fresh in
      apply Ok_pair_inj in H as [H1 H2]; subst
  | H : fail_if ?b _ = Ok _ |- _ =>
      let E := fresh "G" in destruct b eqn:E; cbn [fail_if] in H; [discriminate H|]; clear H
  | H : map_err _ ?m = Ok _ |- _ =>
      let E := fresh "E" in destruct m eqn:E; cbn [map_err] in H; [|discriminate H]
  | H : ok_or ?m _ = Ok _ |- _ =>
      let E := fresh "E" in destruct m eqn:E; cbn [ok_or] in H; [|discriminate H]
  | H : Ok _ = Ok _ |- _ => apply Ok_inj in H; subst
  | u : unit |- _ => destruct u
  end.

Create HintDb kg.

(** * Lemmas on results *)

(** A result that is [Ok b] exactly under [P]. *)
Lemma is_ok_iff {E A} (r : result E A) (P : Prop) b :
  (∀ a, r = Ok a ↔ P ∧ a = b) → is_ok r = true ↔ P.
Proof.
  intros H. destruct r as [a|e]; cbn; split; try done.
  - intros _. by apply (H a).
  - intros HP. discriminate (proj2 (H b) (conj HP eq_refl)).
Qed.

Lemma try_for_ok {E A} (f : A → result E unit) l :
  try_for f l = Ok tt ↔ Forall (fun a => f a = Ok tt) l.
Proof.
  induction l as [|a l IH]; cbn [try_for]; [by split|]. rewrite Forall_cons_iff, <-IH.
  destruct (f a) as [[]|e]; cbn [rbind]; intuition congruence.
Qed.

(** A loop that appends the encoding of each element. *)
Lemma try_fold_append {E A} (f : A → result E (list byte)) (P : A → Prop) (g : A → list byte)
    (step : A → list byte → result E (list byte)) l s r :
  (∀ a b, f a = Ok b ↔ P a ∧ b = g a) →
  (∀ a s, step a s = (let? b := f a in Ok (s ++ b))) →
  try_fold step l s = Ok r ↔ Forall P l ∧ r = s ++ concat (map g l).
Proof.
  intros Hf Hstep. revert s; induction l as [|a l IH]; intros s; cbn [try_fold map concat].
  - rewrite app_nil_r. split; [by intros [= <-]|by intros [_ ->]].
  - rewrite Hstep, Forall_cons_iff. pose proof (Hf a) as Ha. destruct (f a) as [b|e]; cbn [rbind].
    + destruct (proj1 (Ha b) eq_refl) as [HP ->]. rewrite IH, app_assoc. tauto.
    + split; [done|]. intros [[HP _] _]. discriminate (proj2 (Ha _) (conj HP eq_refl)).
Qed.

Lemma try_map_spec {E A B} (f : A → result E B) (P : A → Prop) (g : A → B) l r :
  (∀ a b, f a = Ok b ↔ P a ∧ b = g a) →
  try_map f l = Ok r ↔ Forall P l ∧ r = map g l.
Proof.
  intros Hf. revert r; induction l as [|a l IH]; intros r; cbn [try_map map].
  - split; [by intros [= <-]|by intros [_ ->]].
  - rewrite Forall_cons_iff. split.
    + intros H. destruct (f a) as [b|] eqn:Ea; [|done]. cbn [rbind] in H.
      destruct (try_map f l) as [bs|]; [|done]. cbn [rbind] in H. injection H as <-.
      apply Hf in Ea as [? ->]. destruct (proj1 (IH bs) eq_refl) as [? ->]. done.
    + intros [[HP HF] ->]. rewrite (proj2 (Hf a _)) by eauto. cbn [rbind].
      by rewrite (proj2 (IH (map g l))).
Qed.

Lemma map_err_ok {E F A} (h : E → F) (m : result E A) a : map_err h m = Ok a ↔ m = Ok a.
Proof. destruct m; cbn; split; congruence. Qed.

Lemma fail_if_ok {E} b (e : E) : fail_if b e = Ok tt ↔ b = false.
Proof. by destruct b. Qed.

Lemma if_err_ok {E} (b : bool) (e : E) : (if b then Err e else Ok tt) = Ok tt ↔ b = false.
Proof. by destruct b. Qed.

Lemma if_ok_err {E} (b : bool) (e : E) : (if b then Ok tt else Err e) = Ok tt ↔ b = true.
Proof. by destruct b. Qed.

Lemma rbind_unit_ok {E A} (m : result E unit) (k : result E A) a :
  (m ;? k) = Ok a ↔ m = Ok tt ∧ k = Ok a.
Proof. destruct m as [[]|]; cbn [rbind]; intuition congruence. Qed.

Lemma rbind_ok {E A B} (m : result E A) (k : A → result E B) b :
  rbind m k = Ok b ↔ ∃ a, m = Ok a ∧ k a = Ok b.
Proof.
  destruct m as [a|e]; cbn [rbind]; split; [by eauto| |done|by intros (? & ? & _)].
  by intros (a' & ->%Ok_inj & H).
Qed.

Lemma ok_or_ok {E A} (o : option A) (e : E) a : ok_or o e = Ok a ↔ o = Some a.
Proof. destruct o; cbn; split; congruence. Qed.

(** * Lemmas on loops *)

(** The same loop, one step at a time. *)
Fixpoint for_nat {S R} (n : nat) (step : S → S + R) (s : S) : S + R :=
  match n with
  | O => inl s
  | S n => match step s with inl s => for_nat n step s | inr r => inr r end
  end.

Lemma for_nat_add {S R} (step : S → S + R) n m s :
  for_nat (n + m) step s =
  match for_nat n step s with inl s => for_nat m step s | inr r => inr r end.
Proof. revert s; induction n as [|n IH]; intros s; cbn; [done|]. by destruct (step s). Qed.

Lemma for_pos_nat {S R} (step : S → S + R) n s :
  for_pos n step s = for_nat (Pos.to_nat n) step s.
Proof.
  revert s; induction n as [n IH|n IH|]; intros s; cbn [for_pos].
  - rewrite Pos2Nat.inj_xI. cbn [for_nat]. destruct (step s) as [s'|r]; [|done].
    replace (2 * Pos.to_nat n)%nat with (Pos.to_nat n + Pos.to_nat n)%nat by lia.
    rewrite for_nat_add, IH. by destruct (for_nat _ step s').
  - rewrite Pos2Nat.inj_xO.
    replace (2 * Pos.to_nat n)%nat with (Pos.to_nat n + Pos.to_nat n)%nat by lia.
    rewrite for_nat_add, IH. by destruct (for_nat _ step s).
  - change (Pos.to_nat 1) with 1%nat. cbn. by destruct (step s).
Qed.

Lemma for_range_nat {S R} (step : S → S + R) n s :
  for_range n step s = for_nat (N.to_nat n) step s.
Proof. destruct n; [done|]. apply for_pos_nat. Qed.

(** A loop over a state that advances by [next] until [found] is met. *)
Section search.
Context {S R : Type} (next : S → S) (found : S → bool) (answer : S → R).

Definition search_step (s : S) : S + R := if found s then inr (answer s) else inl (next s).

Lemma for_nat_search_found n s r :
  for_nat n search_step s = inr r ↔
  ∃ i, (i < n)%nat ∧ r = answer (Nat.iter i next s) ∧ found (Nat.iter i next s) = true ∧
       ∀ j, (j < i)%nat → found (Nat.iter j next s) = false.
Proof.
  revert s; induction n as [|n IH]; intros s; cbn [for_nat].
  - split; [done|]. intros (i & ? & _). lia.
  - unfold search_step at 1. destruct (found s) eqn:Ef.
    + split.
      * intros [= <-]. exists O. repeat split; [lia|done|]. intros j ?. lia.
      * intros (i & _ & -> & Hi & Hj). destruct i as [|i]; [done|].
        specialize (Hj O ltac:(lia)). cbn in Hj. congruence.
    + rewrite IH. split.
      * intros (i & Hn & -> & Hi & Hj). exists (Datatypes.S i).
        rewrite <-Nat.iter_succ_r in Hi |- *. repeat split; [lia|done|].
        intros [|j] Hlt; [done|]. rewrite Nat.iter_succ_r. apply Hj. lia.
      * intros (i & Hn & -> & Hi & Hj). destruct i as [|i]; [cbn in Hi; congruence|].
        exists i. rewrite Nat.iter_succ_r in Hi. rewrite Nat.iter_succ_r.
        repeat split; [lia|done|]. intros j Hlt. rewrite <-Nat.iter_succ_r. apply Hj. lia.
Qed.

Lemma for_nat_search_exhausted n s s' :
  for_nat n search_step s = inl s' → ∀ i, (i < n)%nat → found (Nat.iter i next s) = false.
Proof.
  revert s; induction n as [|n IH]; intros s; cbn [for_nat]; [lia|].
  unfold search_step at 1. destruct (found s) eqn:Ef; [done|]. intros H i Hi.
  destruct i as [|i]; [done|]. rewrite Nat.iter_succ_r. apply (IH _ H). lia.
Qed.

End search.

(** * Lemmas on integers *)

Section uint_lemmas.
Context {bound : N}.

Lemma uint_eq (a b : uint bound) : uint_val a = uint_val b → a = b.
Proof.
  destruct a as [a Ha], b as [b Hb]; cbn; intros ->. f_equal.
  apply Eqdep_dec.UIP_dec, bool_dec.
Qed.

Lemma uint_lt (a : uint bound) : (uint_val a < bound)%N.
Proof. destruct a as [a Ha]; cbn. by apply N.ltb_lt. Qed.

End uint_lemmas.

#[export] Instance uint_eq_dec {bound} : EqDecision (uint bound).
Proof.
  intros a b. destruct (decide (uint_val a = uint_val b)) as [E|E].
  - left. by apply uint_eq.
  - right. by intros ->.
Defined.

Lemma as_u64_val n : uint_val (as_u64 n) = (n mod U64_BOUND)%N.
Proof.
  unfold as_u64. destruct (Sumbool.sumbool_of_bool _) as [H|H]; [done|].
  apply N.ltb_ge in H. pose proof (N.mod_lt n U64_BOUND). lia.
Qed.

Lemma as_u64_small n : (n < U64_BOUND)%N → uint_val (as_u64 n) = n.
Proof. intros H. rewrite as_u64_val. by apply N.mod_small. Qed.

Lemma as_u64_id (v : u64) : as_u64 (uint_val v) = v.
Proof. apply uint_eq, as_u64_small, uint_lt. Qed.

Lemma u64_eqb_eq a b : u64_eqb a b = true ↔ a = b.
Proof.
  unfold u64_eqb. rewrite N.eqb_eq. split; [apply uint_eq|by intros ->].
Qed.

Lemma u64_checked_add_Some a b c :
  u64_checked_add a b = Some c ↔ uint_val c = (uint_val a + uint_val b)%N.
Proof.
  unfold u64_checked_add. pose proof (uint_lt c).
  destruct (N.ltb_spec (uint_val a + uint_val b) U64_BOUND).
  - split.
    + intros [= <-]. by apply as_u64_small.
    + intros E. f_equal. apply uint_eq. by rewrite as_u64_small.
  - split; [done|]. lia.
Qed.

Lemma u64_saturating_add_val a b :
  uint_val (u64_saturating_add a b) = N.min (uint_val a + uint_val b) (U64_BOUND - 1).
Proof. unfold u64_saturating_add. apply as_u64_small. lia. Qed.

(** * Lemmas on bytes *)

Lemma byte_val_lt b : (byte_val b < 256)%N.
Proof. pose proof (Byte.to_N_bounded b). unfold byte_val. lia. Qed.

Lemma byte_val_inj a b : byte_val a = byte_val b → a = b.
Proof.
  unfold byte_val. intros E.
  pose proof (Byte.of_to_N a) as Ha. rewrite E, Byte.of_to_N in Ha. congruence.
Qed.

Lemma as_u8_val n : byte_val (as_u8 n) = (n mod 256)%N.
Proof.
  unfold as_u8, byte_val. destruct (Byte.of_N (n mod 256)) as [b|] eqn:E.
  - by apply Byte.to_of_N in E.
  - apply Byte.of_N_None_iff in E. pose proof (N.mod_lt n 256). lia.
Qed.

Lemma as_u8_small n : (n < 256)%N → byte_val (as_u8 n) = n.
Proof. intros H. rewrite as_u8_val. by apply N.mod_small. Qed.

Lemma as_u8_id b : as_u8 (byte_val b) = b.
Proof. apply byte_val_inj, as_u8_small, byte_val_lt. Qed.

#[export] Instance byte_eq_dec : EqDecision byte := Byte.byte_eq_dec.

#[export] Instance byte_countable : Countable byte.
Proof.
  refine (inj_countable Byte.to_N Byte.of_N _). intros b. apply Byte.of_to_N.
Defined.

Lemma length_to_be_bytes k v : length (to_be_bytes k v) = k.
Proof.
  revert v; induction k as [|k IH]; intros v; cbn; [done|].
  rewrite length_app, IH. cbn. lia.
Qed.

Lemma from_be_bytes_snoc l b :
  from_be_bytes (l ++ [b]) = (from_be_bytes l * 256 + byte_val b)%N.
Proof. unfold from_be_bytes. by rewrite fold_left_app. Qed.

Lemma from_to_be_bytes k v : from_be_bytes (to_be_bytes k v) = (v mod 256 ^ N.of_nat k)%N.
Proof.
  revert v; induction k as [|k IH]; intros v; cbn [to_be_bytes].
  - cbn. by rewrite N.mod_1_r.
  - rewrite from_be_bytes_snoc, IH, as_u8_val, Nat2N.inj_succ, N.pow_succ_r'.
    rewrite N.Div0.mod_mul_r. lia.
Qed.

Lemma from_be_bytes_lt l : (from_be_bytes l < 256 ^ N.of_nat (length l))%N.
Proof.
  induction l as [|b l IH] using rev_ind; [done|].
  rewrite from_be_bytes_snoc, length_app, Nat.add_comm. cbn [length Nat.add].
  rewrite Nat2N.inj_succ, N.pow_succ_r'. pose proof (byte_val_lt b). nia.
Qed.

Lemma to_from_be_bytes l k : length l = k → to_be_bytes k (from_be_bytes l) = l.
Proof.
  revert k; induction l as [|b l IH] using rev_ind; intros k <-; [done|].
  rewrite length_app, Nat.add_comm, from_be_bytes_snoc. cbn [length Nat.add to_be_bytes].
  pose proof (byte_val_lt b). f_equal.
  - rewrite N.div_add_l, N.div_small, N.add_0_r by lia. by apply IH.
  - f_equal. apply byte_val_inj. rewrite as_u8_val, N.add_comm, N.Div0.mod_add.
    by apply N.mod_small.
Qed.

(** * Lemmas on arrays *)

Lemma arr_eq {n} (a b : arr n) : arr_bytes a = arr_bytes b → a = b.
Proof.
  destruct a as [a Ha], b as [b Hb]; cbn; intros ->. f_equal.
  apply Eqdep_dec.UIP_dec, bool_dec.
Qed.

Lemma arr_length {n} (a : arr n) : length (arr_bytes a) = n.
Proof. destruct a as [a Ha]; cbn. by apply Nat.eqb_eq. Qed.

Lemma arr_try_from_bytes {n} (a : arr n) : arr_try_from n (arr_bytes a) = Some a.
Proof.
  unfold arr_try_from. destruct (Sumbool.sumbool_of_bool _) as [H|H].
  - f_equal. by apply arr_eq.
  - pose proof (arr_ok a). congruence.
Qed.

Lemma arr_try_from_Some n l a : arr_try_from n l = Some a → arr_bytes a = l.
Proof.
  unfold arr_try_from. destruct (Sumbool.sumbool_of_bool _); [|done]. by intros [= <-].
Qed.

Lemma arr_try_from_length n l : length l = n → ∃ a, arr_try_from n l = Some a.
Proof.
  unfold arr_try_from. intros H%Nat.eqb_eq.
  destruct (Sumbool.sumbool_of_bool _) as [E|E]; [eauto|congruence].
Qed.

Lemma arr_of_bytes n l : length l = n → arr_bytes (arr_of n l) = l.
Proof.
  intros Hl. unfold arr_of. destruct (arr_try_from_length n l Hl) as [a Ha].
  rewrite Ha. by apply arr_try_from_Some in Ha.
Qed.

#[export] Instance arr_eq_dec {n} : EqDecision (arr n).
Proof.
  intros a b. destruct (decide (arr_bytes a = arr_bytes b)) as [E|E].
  - left. by apply arr_eq.
  - right. by intros ->.
Defined.

#[export] Instance arr_countable {n} : Countable (arr n).
Proof.
  refine (inj_countable arr_bytes (arr_try_from n) _). apply arr_try_from_bytes.
Defined.

(** * Lemmas on orders *)

Lemma bytes_cmp_eq a b : bytes_cmp a b = Eq ↔ a = b.
Proof.
  revert b; induction a as [|x a IH]; intros [|y b]; cbn; try done.
  destruct (N.compare_spec (byte_val x) (byte_val y)) as [E|E|E].
  - apply byte_val_inj in E as ->. rewrite IH. split; [by intros ->|by intros [= ->]].
  - split; [done|]. intros [= -> _]. lia.
  - split; [done|]. intros [= -> _]. lia.
Qed.

Lemma bytes_cmp_opp a b : bytes_cmp b a = CompOpp (bytes_cmp a b).
Proof.
  revert b; induction a as [|x a IH]; intros [|y b]; cbn; try done.
  rewrite (N.compare_antisym (byte_val x)).
  by destruct (byte_val x ?= byte_val y)%N; cbn; rewrite <-?IH.
Qed.

Lemma bytes_cmp_lt_trans a b c : bytes_cmp a b = Lt → bytes_cmp b c = Lt → bytes_cmp a c = Lt.
Proof.
  revert b c; induction a as [|x a IH]; intros [|y b] [|z c]; cbn; try done.
  destruct (N.compare_spec (byte_val x) (byte_val y)) as [E1|E1|E1];
  destruct (N.compare_spec (byte_val y) (byte_val z)) as [E2|E2|E2];
  destruct (N.compare_spec (byte_val x) (byte_val z)) as [E3|E3|E3];
    try done; try lia; eauto.
Qed.

#[export] Instance bytes_ord : Ord bytes := {|
  cmp := bytes_cmp;
  cmp_eq := bytes_cmp_eq;
  cmp_opp := bytes_cmp_opp;
  cmp_lt_trans := bytes_cmp_lt_trans
|}.

#[export] Instance arr_ord {n} : Ord (arr n).
Proof.
  refine {| cmp := fun a b => bytes_cmp (arr_bytes a) (arr_bytes b) |}.
  - intros a b. rewrite bytes_cmp_eq. split; [apply arr_eq|by intros ->].
  - intros a b. apply bytes_cmp_opp.
  - intros a b c. apply bytes_cmp_lt_trans.
Defined.

#[export] Instance uint_ord {bound} : Ord (uint bound).
Proof.
  refine {| cmp := fun a b => (uint_val a ?= uint_val b)%N |}.
  - intros a b. rewrite N.compare_eq_iff. split; [apply uint_eq|by intros ->].
  - intros a b. apply N.compare_antisym.
  - intros a b c. rewrite !N.compare_lt_iff. lia.
Defined.

(** [slice.sort_by_key(key)]: the stable sort. *)
Fixpoint insert_by_key {A B} `{Ord B} (key : A → B) (x : A) (l : list A) : list A :=
  match l with
  | [] => [x]
  | y :: t => if ord_ltb (key y) (key x) then y :: insert_by_key key x t else x :: l
  end.

Definition sort_by_key {A B} `{Ord B} (key : A → B) (l : list A) : list A :=
  foldr (insert_by_key key) [] l.

Section ord_lemmas.
Context `{Ord A}.
Implicit Types (a b x y : A) (l : list A).

Lemma cmp_refl a : cmp a a = Eq.
Proof. by apply cmp_eq. Qed.

#[export] Instance ord_lt_strict : StrictOrder (ord_lt (A:=A)).
Proof.
  split.
  - intros a E. unfold ord_lt in E. by rewrite cmp_refl in E.
  - intros a b c. apply cmp_lt_trans.
Qed.

Lemma ord_lt_irrefl a : ¬ ord_lt a a.
Proof. apply (irreflexivity ord_lt). Qed.

Lemma ord_ltb_lt a b : ord_ltb a b = true ↔ ord_lt a b.
Proof. unfold ord_ltb, ord_lt. by destruct (cmp a b). Qed.

Lemma ord_geb_false a b : ord_geb a b = false ↔ ord_lt a b.
Proof. unfold ord_geb. rewrite negb_false_iff. apply ord_ltb_lt. Qed.

Lemma ord_ltb_false a b : ord_ltb a b = false ↔ ord_geb a b = true.
Proof. unfold ord_geb. by destruct (ord_ltb a b). Qed.

Lemma ord_lt_not_gt a b : ord_lt a b → ¬ ord_lt b a.
Proof. intros H1 H2. apply (irreflexivity ord_lt a). by transitivity b. Qed.

(** The adjacent-pair check of the validators is strict sortedness. *)
Lemma windows2_any_sorted l :
  windows2_any ord_geb l = false ↔ StronglySorted ord_lt l.
Proof.
  split.
  - intros Hw. apply Sorted_StronglySorted; [intros ???; apply cmp_lt_trans|].
    induction l as [|x [|y l] IH]; [constructor|by repeat constructor|].
    cbn in Hw. apply orb_false_iff in Hw as [H1%ord_geb_false H2].
    constructor; [by apply IH|by constructor].
  - induction 1 as [|x l Hs IH Hall]; [done|]. destruct l as [|y l]; [done|].
    inversion_clear Hall as [|?? Hxy _]. cbn.
    apply orb_false_iff. split; [by apply ord_geb_false|done].
Qed.

(** The same check through a key. *)
Lemma windows2_any_key {B} (key : B → A) (bs : list B) :
  windows2_any (fun p q : B => ord_geb (key p) (key q)) bs = windows2_any ord_geb (map key bs).
Proof.
  induction bs as [|p [|q bs] IH]; [done|done|]. cbn [windows2_any map] in *. by rewrite IH.
Qed.

Lemma StronglySorted_lookup_lt l i j x y :
  StronglySorted ord_lt l → l !! i = Some x → l !! j = Some y → i < j → ord_lt x y.
Proof.
  intros Hs. revert i j. induction Hs as [|z l Hs IH Hall]; intros [|i] [|j] Hi Hj Hlt;
    cbn in *; simplify_eq; try lia.
  - exact (proj1 (Forall_lookup _ _) Hall _ _ Hj).
  - eapply IH; eauto; lia.
Qed.

(** The loop invariant of [binary_search]: when [x] is in the slice it is in
    the window [base .. base + size). *)
Lemma binary_search_loop_correct fuel l x size base i :
  StronglySorted ord_lt l → l !! i = Some x →
  size <= fuel → 1 <= size → base + size <= length l → base <= i < base + size →
  binary_search_loop fuel l x size base = i.
Proof.
  intros Hs Hi. revert size base; induction fuel as [|fuel IH]; intros size base Hf H1 Hl Hb;
    cbn [binary_search_loop]; [lia|].
  destruct (Nat.leb_spec size 1); [lia|].
  assert (Hhalf : 1 <= size / 2 < size).
  { split; [apply Nat.div_le_lower_bound; lia|apply Nat.div_lt; lia]. }
  pose proof (Nat.Div0.mul_div_le size 2).
  destruct (lookup_lt_is_Some_2 l (base + size / 2)) as [y Hy]; [lia|]. rewrite Hy.
  destruct (cmp y x) eqn:E.
  - apply cmp_eq in E as ->.
    destruct (decide (base + size / 2 = i)) as [<-|Hne]; [apply IH; lia|].
    exfalso. apply (irreflexivity (ord_lt (A:=A)) x).
    destruct (decide (base + size / 2 < i)).
    + eapply (StronglySorted_lookup_lt l (base + size / 2) i); eauto.
    + eapply (StronglySorted_lookup_lt l i (base + size / 2)); eauto with lia.
  - apply IH; try lia. destruct (decide (i < base + size / 2)) as [Hlt|]; [|lia].
    exfalso. eapply ord_lt_not_gt; [apply E|]. eapply StronglySorted_lookup_lt; eauto.
  - apply IH; try lia. destruct (decide (i < base + size / 2)) as [Hlt|]; [lia|].
    exfalso. destruct (decide (i = base + size / 2)) as [->|].
    { rewrite Hi in Hy. simplify_eq. by rewrite cmp_refl in E. }
    assert (Hyx : ord_lt y x) by (eapply StronglySorted_lookup_lt; eauto; lia).
    unfold ord_lt in Hyx. congruence.
Qed.

Lemma binary_search_elem_of l x :
  StronglySorted ord_lt l → binary_search l x = true ↔ x ∈ l.
Proof.
  intros Hs. unfold binary_search. split.
  - destruct (l !! _) as [y|] eqn:E; [|done]. destruct (cmp y x) eqn:Ec; [|done..].
    apply cmp_eq in Ec as ->. intros _. by eapply list_elem_of_lookup_2.
  - intros [i Hi]%list_elem_of_lookup_1. pose proof (lookup_lt_Some _ _ _ Hi).
    rewrite (binary_search_loop_correct _ _ _ _ _ i), Hi, cmp_refl; auto; lia.
Qed.

Lemma ord_ge_cases a b : ord_ltb a b = false → a = b ∨ ord_lt b a.
Proof.
  unfold ord_ltb, ord_lt. rewrite (cmp_opp a b). pose proof (cmp_eq a b) as He.
  destruct (cmp a b) eqn:E; cbn; [left; by apply He|done|by right].
Qed.

(** A strictly sorted list is determined by its elements. *)
Lemma strictly_sorted_unique {B} (key : B → A) (l l' : list B) :
  StronglySorted ord_lt (map key l) → StronglySorted ord_lt (map key l') → l ≡ₚ l' → l = l'.
Proof.
  revert l'. induction l as [|x l IH]; intros [|y l'] Hs Hs' Hp.
  - done.
  - by apply Permutation_nil_cons in Hp.
  - by apply symmetry, Permutation_nil_cons in Hp.
  - cbn [map] in *. inversion_clear Hs as [|? ? Hl Hx]. inversion_clear Hs' as [|? ? Hl' Hy].
    rewrite Forall_map in Hx, Hy. rewrite Forall_forall in Hx, Hy. assert (x = y) as ->.
    { assert (Hin : x ∈ y :: l') by (rewrite <-Hp; by left).
      assert (Hin' : y ∈ x :: l) by (rewrite Hp; by left).
      apply elem_of_cons in Hin as [->|Hin]; [done|]. apply elem_of_cons in Hin' as [->|Hin']; [done|].
      destruct (ord_lt_not_gt _ _ (Hx _ (proj1 (list_elem_of_In _ _) Hin'))). by apply Hy, list_elem_of_In. }
    f_equal. apply IH; [done..|]. by eapply Permutation_cons_inv.
Qed.

Lemma insert_by_key_perm {B} (key : B → A) (x : B) (l : list B) : insert_by_key key x l ≡ₚ x :: l.
Proof.
  induction l as [|y l IH]; [done|]. cbn [insert_by_key]. destruct (ord_ltb _ _); [|done].
  rewrite IH. by constructor.
Qed.

Lemma sort_by_key_perm {B} (key : B → A) (l : list B) : sort_by_key key l ≡ₚ l.
Proof.
  induction l as [|x l IH]; [done|]. cbn [sort_by_key foldr]. rewrite insert_by_key_perm. by constructor.
Qed.

(** Elements with distinct keys are sorted strictly. *)
Lemma sort_by_key_sorted {B} (key : B → A) (l : list B) :
  NoDup (map key l) → StronglySorted ord_lt (map key (sort_by_key key l)).
Proof.
  induction l as [|x l IH]; intros Hn; [constructor|]. cbn [map] in Hn. inversion_clear Hn as [|? ? Hx Hl].
  specialize (IH Hl). cbn [sort_by_key foldr]. fold (sort_by_key key l).
  assert (Hx' : key x ∉ map key (sort_by_key key l)) by by rewrite (sort_by_key_perm key l).
  clear Hx Hl. induction (sort_by_key key l) as [|y t IHt]; [by repeat constructor|].
  cbn [map] in *. inversion_clear IH as [|? ? Ht Hy]. cbn [insert_by_key]. apply not_elem_of_cons in Hx' as [Hne Hx'].
  destruct (ord_ltb (key y) (key x)) eqn:E.
  - apply ord_ltb_lt in E. cbn [map]. constructor; [by apply IHt|].
    rewrite Forall_map, (insert_by_key_perm key x t), <-Forall_map. by constructor.
  - apply ord_ge_cases in E as [E|E]; [done|]. cbn [map]. constructor; [by constructor|].
    constructor; [done|]. eapply Forall_impl; [|exact Hy]. intros z Hz. by transitivity (key y).
Qed.

(** Sorting rearranges a list into the strictly sorted one with its elements. *)
Lemma sort_by_key_unique {B} (key : B → A) (l l' : list B) :
  StronglySorted ord_lt (map key l') → l ≡ₚ l' → sort_by_key key l = l'.
Proof.
  intros Hs Hp. apply (strictly_sorted_unique key); [|done|by rewrite sort_by_key_perm].
  apply sort_by_key_sorted. rewrite (Permutation_map key Hp). clear -Hs.
  induction Hs as [|x l Hs IH Hx]; constructor; [|done]. intros Hin.
  rewrite Forall_forall in Hx. by apply (ord_lt_irrefl x), Hx, list_elem_of_In.
Qed.

End ord_lemmas.

(** * Lemmas on slices *)

Lemma len_app {A} (a b : list A) : len (a ++ b) = (len a + len b)%N.
Proof. unfold len. rewrite length_app. lia. Qed.

Lemma len_map {A B} (f : A → B) l : len (map f l) = len l.
Proof. unfold len. by rewrite length_map. Qed.

Lemma len_cons {A} (a : A) l : len (a :: l) = (1 + len l)%N.
Proof. unfold len. cbn. lia. Qed.

Lemma len_arr {n} (a : arr n) : len (arr_bytes a) = N.of_nat n.
Proof. unfold len. by rewrite arr_length. Qed.

Lemma at_pos_start bs : at_pos bs 0 bs.
Proof. by exists []. Qed.

Lemma at_pos_app bs c a rest : at_pos bs c (a ++ rest) → at_pos bs (c + len a) rest.
Proof. intros (pre & -> & ->). exists (pre ++ a). by rewrite len_app, <-app_assoc. Qed.

Lemma at_pos_end bs c rest : at_pos bs c rest → c = len bs → rest = [].
Proof.
  intros (pre & -> & ->). rewrite len_app. unfold len. intros E.
  apply length_zero_iff_nil. lia.
Qed.

Lemma at_pos_nil bs c : at_pos bs c [] → c = len bs.
Proof. intros (pre & -> & ->). by rewrite app_nil_r. Qed.

Lemma slice_get_at bs c b rest : at_pos bs c (b :: rest) → slice_get bs c = Some b.
Proof.
  intros (pre & -> & ->). unfold slice_get, len. rewrite length_app. cbn [length].
  destruct (N.ltb_spec (N.of_nat (length pre)) (N.of_nat (length pre + S (length rest)))); [|lia].
  rewrite Nat2N.id. by apply list_lookup_middle.
Qed.

Lemma slice_get_inv bs c b rest :
  at_pos bs c rest → slice_get bs c = Some b → ∃ rest', rest = b :: rest'.
Proof.
  intros (pre & -> & ->). unfold slice_get, len. rewrite length_app, Nat2N.id.
  destruct rest as [|x rest].
  - destruct (N.ltb_spec (N.of_nat (length pre)) (N.of_nat (length pre + length (@nil byte)))); cbn in *; [lia|done].
  - destruct (N.ltb _ _); [|done].
    rewrite list_lookup_middle by done. intros [= ->]. eauto.
Qed.

Lemma slice_range_at bs c a rest :
  at_pos bs c (a ++ rest) → slice_range bs c (c + len a) = Some a.
Proof.
  intros (pre & -> & ->). unfold slice_range. rewrite !len_app.
  destruct (N.leb_spec (len pre) (len pre + len a)); [|lia].
  destruct (N.leb_spec (len pre + len a) (len pre + (len a + len rest))); [|lia].
  cbn. f_equal. unfold len. rewrite Nat2N.id, drop_app_length.
  replace (N.to_nat _) with (length a) by lia. apply take_app_length.
Qed.

Lemma slice_range_inv bs c n a rest :
  at_pos bs c rest → slice_range bs c (c + n) = Some a →
  ∃ rest', rest = a ++ rest' ∧ len a = n.
Proof.
  intros (pre & -> & ->). unfold slice_range. rewrite len_app.
  destruct (N.leb_spec (len pre) (len pre + n)); [|done].
  destruct (N.leb_spec (len pre + n) (len pre + len rest)); [|done].
  cbn. intros [= <-]. unfold len in *. rewrite Nat2N.id, drop_app_length.
  exists (drop (N.to_nat (N.of_nat (length pre) + n - N.of_nat (length pre))) rest).
  rewrite take_drop, length_take. split; [done|lia].
Qed.

Lemma usize_checked_add_small a b : (a + b < U64_BOUND)%N → usize_checked_add a b = Some (a + b)%N.
Proof.
  intros H. unfold usize_checked_add, USIZE_MAX.
  destruct (N.leb_spec (a + b) (U64_BOUND - 1)); [done|lia].
Qed.

Lemma usize_checked_add_Some a b c : usize_checked_add a b = Some c → c = (a + b)%N.
Proof. unfold usize_checked_add. destruct (N.leb _ _); congruence. Qed.

Lemma usize_try_from_id (v : u64) : usize_try_from v = Some (uint_val v).
Proof.
  unfold usize_try_from, USIZE_MAX. pose proof (uint_lt v).
  destruct (N.leb_spec (uint_val v) (U64_BOUND - 1)); [done|lia].
Qed.
