(* ===== verification/Crypto.v ===== *)
(** Interfaces of the third-party cryptography the protocol calls:
    [ed25519_dalek] (key and signature parsing, [verify_strict], signing),
    [blake3] and [sha2].  The operations are parameters; what the protocol relies on is
    stated as laws.  [Toy] is a concrete instance that satisfies them. *)

From stdpp Require Import base tactics list numbers.
From Stdlib Require Import Strings.Byte.
From S2P Require Import Prelude.

(** [blake3::Hasher] over the concatenation of its updates. *)
Class Blake3 := {
  blake3 : bytes → arr 32
}.

(** [blake3::keyed_hash]. *)
Class Blake3Keyed := {
  keyed_hash : arr 32 → bytes → arr 32
}.

(** [blake3::derive_key]: a context string and the key material. *)
Class Blake3Derive := {
  derive_key : bytes → bytes → arr 32
}.

(** [sha2::Sha256] over the concatenation of its updates. *)
Class Sha256 := {
  sha256 : bytes → arr 32
}.

(** [ed25519_dalek]. *)
Class Ed25519 := {
  (** [VerifyingKey::from_bytes] succeeds. *)
  verifying_key_ok : arr 32 → bool;
  (** [Signature::try_from] succeeds. *)
  signature_ok : bytes → bool;
  (** [VerifyingKey::verify_strict] succeeds. *)
  verify_strict : arr 32 → bytes → bytes → bool;
  (** [SigningKey::from_bytes(secret).verifying_key()]. *)
  verifying_key_of : arr 32 → arr 32;
  (** [SigningKey::from_bytes(secret).sign(message)]. *)
  sign : arr 32 → bytes → arr 64
}.

(** What the documentation of [ed25519_dalek] promises about keys it made:
    a derived verifying key parses, a produced signature has 64 bytes that
    parse, and it verifies strictly under that key. *)
Class Ed25519Laws (E : Ed25519) : Prop := {
  derived_key_ok : ∀ secret, verifying_key_ok (verifying_key_of secret) = true;
  made_signature_ok : ∀ secret message, signature_ok (sign secret message) = true;
  signed_verifies : ∀ secret message,
    verify_strict (verifying_key_of secret) message (sign secret message) = true
}.

(** [blake3] has no collision between two inputs. *)
Definition no_collision `{Blake3} (a b : bytes) : Prop := blake3 a = blake3 b → a = b.

(** A concrete instance, used to evaluate the definitions on inputs: the hash
    is a base-257 polynomial modulo [2^256]; a key is its secret and a
    signature is the key followed by the hash of the message. *)
Module Toy.

Definition hash (bs : bytes) : arr 32 :=
  arr_of 32 (to_be_bytes 32
    (fold_left (fun acc b => N.land (acc * 257 + byte_val b + 1) (2 ^ 256 - 1))%N bs 0%N)).

Definition blake3_instance : Blake3 := {| blake3 := hash |}.
Definition keyed_instance : Blake3Keyed := {| keyed_hash := fun key bs => hash (arr_bytes key ++ bs) |}.
Definition derive_instance : Blake3Derive := {| derive_key := fun context bs => hash (context ++ bs) |}.
Definition sha256_instance : Sha256 := {| sha256 := hash |}.

Definition make_signature (key : arr 32) (message : bytes) : arr 64 :=
  arr_of 64 (arr_bytes key ++ arr_bytes (hash message)).

Definition ed25519_instance : Ed25519 := {|
  verifying_key_ok := fun _ => true;
  signature_ok := fun s => (len s =? 64)%N;
  verify_strict := fun key message signature =>
    bool_decide (signature = arr_bytes (make_signature key message));
  verifying_key_of := fun secret => secret;
  sign := make_signature
|}.

Lemma ed25519_laws : Ed25519Laws ed25519_instance.
Proof.
  split; cbn; [done| |].
  - intros secret message. by rewrite len_arr.
  - intros secret message. by apply bool_decide_eq_true.
Qed.

(** An instance that accepts every signature, for inputs whose transcripts
    are too long to hash here. *)
Definition accepting_instance : Ed25519 := {|
  verifying_key_ok := fun _ => true;
  signature_ok := fun _ => true;
  verify_strict := fun _ _ _ => true;
  verifying_key_of := fun secret => secret;
  sign := make_signature
|}.

End Toy.
