(* ===== verification/Text.v ===== *)
(** Rust's [str]: UTF-8 as [std::str::from_utf8] decides it, the characters
    of a valid string, [trim] and [char::is_control].

    A [str] carries the proof that its bytes are UTF-8, as the type [String]
    of the source does.  [chars] cuts the bytes of a string into the bytes of
    its characters, so that the concatenation of the pieces is the string
    ([concat_chars]); [plain_text] is the case the program's own reasons are
    made of, for which [trim] and [is_control] have a simple meaning. *)

From stdpp Require Import base tactics list numbers strings.
From Stdlib Require Import Strings.Byte.
From S2P Require Import Prelude.

(** * UTF-8 *)

Definition in_range (lo hi : N) (b : byte) : bool := ((lo <=? byte_val b) && (byte_val b <=? hi))%N.

Definition continuation (b : byte) : bool := in_range 128 191 b.

Fixpoint utf8_valid (l : bytes) : bool :=
  match l with
  | [] => true
  | b0 :: l1 =>
      if (byte_val b0 <? 128)%N then utf8_valid l1
      else if in_range 194 223 b0 then
        match l1 with b1 :: l2 => continuation b1 && utf8_valid l2 | _ => false end
      else if in_range 224 239 b0 then
        match l1 with
        | b1 :: b2 :: l3 =>
            (if (byte_val b0 =? 224)%N then in_range 160 191 b1
             else if (byte_val b0 =? 237)%N then in_range 128 159 b1 else continuation b1)
            && continuation b2 && utf8_valid l3
        | _ => false
        end
      else if in_range 240 244 b0 then
        match l1 with
        | b1 :: b2 :: b3 :: l4 =>
            (if (byte_val b0 =? 240)%N then in_range 144 191 b1
             else if (byte_val b0 =? 244)%N then in_range 128 143 b1 else continuation b1)
            && continuation b2 && continuation b3 && utf8_valid l4
        | _ => false
        end
      else false
  end.

Definition is_ascii (l : bytes) : bool := forallb (fun b => (byte_val b <? 128)%N) l.

(** [String] and [str]. *)
Record str : Type := mk_str {
  as_bytes :> bytes;
  str_ok : utf8_valid as_bytes = true
}.

(** [std::str::from_utf8], without its error. *)
Definition from_utf8 (l : bytes) : option str :=
  match Sumbool.sumbool_of_bool (utf8_valid l) with
  | left H => Some (mk_str l H)
  | right _ => None
  end.

(** * Characters *)

(** [str::chars]: the bytes of each character.  On bytes that are not UTF-8,
    which a [str] never has, a truncated character is cut short. *)
Fixpoint chars (l : bytes) : list bytes :=
  match l with
  | [] => []
  | b0 :: l1 =>
      if (byte_val b0 <? 192)%N then [b0] :: chars l1
      else if (byte_val b0 <? 224)%N then
        match l1 with b1 :: l2 => [b0; b1] :: chars l2 | _ => [l] end
      else if (byte_val b0 <? 240)%N then
        match l1 with b1 :: b2 :: l3 => [b0; b1; b2] :: chars l3 | _ => [l] end
      else
        match l1 with b1 :: b2 :: b3 :: l4 => [b0; b1; b2; b3] :: chars l4 | _ => [l] end
  end.

(** The scalar value of a character: the low bits of its bytes. *)
Definition scalar (c : bytes) : N :=
  let low := fold_left (fun acc b => acc * 64 + byte_val b mod 64)%N in
  match c with
  | [] => 0
  | [b0] => byte_val b0
  | [b0; b1] => low [b1] (byte_val b0 mod 32)%N
  | [b0; b1; b2] => low [b1; b2] (byte_val b0 mod 16)%N
  | b0 :: rest => low rest (byte_val b0 mod 8)%N
  end.

(** [char::is_control]: the general category [Cc]. *)
Definition is_control (c : bytes) : bool :=
  let n := scalar c in ((n <? 32) || ((127 <=? n) && (n <=? 159)))%N.

(** [char::is_whitespace]: the property [White_Space]. *)
Definition is_whitespace (c : bytes) : bool :=
  let n := scalar c in
  (((9 <=? n) && (n <=? 13)) || (n =? 32) || (n =? 133) || (n =? 160) || (n =? 5760)
   || ((8192 <=? n) && (n <=? 8202)) || (n =? 8232) || (n =? 8233) || (n =? 8239)
   || (n =? 8287) || (n =? 12288))%N.

Fixpoint drop_whitespace (cs : list bytes) : list bytes :=
  match cs with
  | [] => []
  | c :: cs' => if is_whitespace c then drop_whitespace cs' else cs
  end.

(** [str::trim]. *)
Definition trim (l : bytes) : bytes :=
  concat (rev (drop_whitespace (rev (drop_whitespace (chars l))))).

(** * Lemmas *)

Lemma str_eq (a b : str) : as_bytes a = as_bytes b → a = b.
Proof.
  destruct a as [a Ha], b as [b Hb]; cbn; intros ->. f_equal. apply Eqdep_dec.UIP_dec, bool_dec.
Qed.

#[export] Instance str_eq_dec : EqDecision str.
Proof.
  intros a b. destruct (decide (as_bytes a = as_bytes b)) as [E|E]; [left; by apply str_eq|right].
  by intros ->.
Defined.

Lemma from_utf8_Some l s : from_utf8 l = Some s ↔ as_bytes s = l.
Proof.
  unfold from_utf8. destruct (Sumbool.sumbool_of_bool _) as [H|H]; split; intros E.
  - by injection E as <-.
  - f_equal. by apply str_eq.
  - done.
  - subst l. destruct s; cbn in *. congruence.
Qed.

Lemma from_utf8_bytes (s : str) : from_utf8 s = Some s.
Proof. by apply from_utf8_Some. Qed.

Lemma from_utf8_valid l : utf8_valid l = true → ∃ s, from_utf8 l = Some s.
Proof.
  intros Hl. unfold from_utf8. destruct (Sumbool.sumbool_of_bool (utf8_valid l)); [by eexists|congruence].
Qed.

Lemma ascii_utf8 t : is_ascii t = true → utf8_valid t = true.
Proof.
  induction t as [|b t IH]; [done|]. cbn [is_ascii forallb utf8_valid]. rewrite andb_true_iff.
  intros [-> Ht]. by apply IH.
Qed.

Lemma concat_chars l : concat (chars l) = l.
Proof.
  induction l as [l IH] using (induction_ltof1 _ (@length byte)); unfold ltof in IH.
  destruct l as [|b0 l1]; [done|]. cbn [chars].
  destruct (byte_val b0 <? 192)%N; [cbn; f_equal; apply IH; cbn; lia|].
  destruct (byte_val b0 <? 224)%N; [|destruct (byte_val b0 <? 240)%N].
  - destruct l1 as [|b1 l2]; [done|]. cbn. do 2 f_equal. apply IH. cbn. lia.
  - destruct l1 as [|b1 [|b2 l3]]; [done..|]. cbn. do 3 f_equal. apply IH. cbn. lia.
  - destruct l1 as [|b1 [|b2 [|b3 l4]]]; [done..|]. cbn. do 4 f_equal. apply IH. cbn. lia.
Qed.

(** Printable ASCII that neither begins nor ends with a space. *)
Definition printable (b : byte) : bool := in_range 32 126 b.
Definition plain_text (l : bytes) : bool :=
  forallb printable l && bool_decide (head l ≠ Some x20) && bool_decide (last l ≠ Some x20).

Lemma printable_ascii l : forallb printable l = true → is_ascii l = true.
Proof.
  induction l as [|b l IH]; [done|]. cbn [forallb is_ascii]. rewrite !andb_true_iff. intros [Hb Hl].
  split; [|by apply IH]. unfold printable, in_range in Hb. apply andb_true_iff in Hb as [_ Hb].
  apply N.leb_le in Hb. apply N.ltb_lt. lia.
Qed.

Lemma ascii_chars l : is_ascii l = true → chars l = map (fun b => [b]) l.
Proof.
  induction l as [|b l IH]; [done|]. cbn [is_ascii forallb chars map]. rewrite andb_true_iff.
  intros [Hb Hl]. apply N.ltb_lt in Hb. destruct (N.ltb_spec (byte_val b) 192); [|lia].
  f_equal. by apply IH.
Qed.

Lemma printable_not_control l :
  forallb printable l = true → existsb is_control (chars l) = false.
Proof.
  intros Hl. rewrite (ascii_chars l) by (by apply printable_ascii).
  induction l as [|b l IH]; [done|]. cbn [forallb] in Hl. apply andb_true_iff in Hl as [Hb Hl].
  cbn [map existsb]. rewrite (IH Hl), orb_false_r. unfold is_control, scalar.
  unfold printable, in_range in Hb. apply andb_true_iff in Hb as [H1%N.leb_le H2%N.leb_le].
  destruct (N.ltb_spec (byte_val b) 32), (N.leb_spec 127 (byte_val b)); [lia..|done].
Qed.

Lemma printable_whitespace b : printable b = true → is_whitespace [b] = true → b = x20.
Proof. by destruct b. Qed.

Lemma drop_whitespace_plain l :
  forallb printable l = true → head l ≠ Some x20 →
  drop_whitespace (map (fun b => [b]) l) = map (fun b => [b]) l.
Proof.
  destruct l as [|b l]; [done|]. cbn [forallb head map drop_whitespace]. rewrite andb_true_iff.
  intros [Hb _] Hh. destruct (is_whitespace [b]) eqn:E; [|done].
  destruct Hh. f_equal. by apply printable_whitespace.
Qed.

Lemma head_rev_last {A} (l : list A) : head (rev l) = last l.
Proof.
  induction l as [|a l IH] using rev_ind; [done|]. by rewrite rev_app_distr, last_snoc.
Qed.

Lemma forallb_rev {A} (f : A → bool) l : forallb f (rev l) = forallb f l.
Proof.
  induction l as [|a l IH]; [done|]. cbn [rev forallb]. rewrite forallb_app, IH. cbn.
  by rewrite andb_true_r, andb_comm.
Qed.

Lemma plain_trim l : plain_text l = true → trim l = l.
Proof.
  unfold plain_text. rewrite !andb_true_iff, !bool_decide_eq_true. intros [[Hp Hh] Hl].
  unfold trim. rewrite (ascii_chars l) by (by apply printable_ascii).
  rewrite drop_whitespace_plain, <-map_rev, drop_whitespace_plain, <-map_rev, rev_involutive by
    (rewrite ?forallb_rev, ?head_rev_last; done).
  clear. induction l as [|b l IH]; [done|]. cbn. by rewrite IH.
Qed.
