(* ===== verification/Identity.v ===== *)
(** Device identities, [crates/kilogram-identity/src/lib.rs]: a device is its
    Ed25519 verifying key, and [DeviceIdentity] the secret it is derived from.
    What a device signs, it verifies ([device_signed_verifies]). *)

From stdpp Require Import base tactics list numbers.
From S2P Require Import Prelude Crypto.

(** The errors of [DeviceId::verify]; the payloads of [ed25519_dalek] are
    dropped. *)
Inductive IdentityError := InvalidDevicePublicKey | InvalidSignatureEncoding | InvalidSignature.

(** [DeviceId] wraps the 32 bytes of a verifying key, [DeviceIdentity] a
    signing key, given by its secret bytes. *)
Abbreviation DeviceId := (arr 32).
Abbreviation DeviceIdentity := (arr 32).

(** [DeviceId::verify]. *)
Definition device_verify `{Ed25519} (device : DeviceId) (message signature : bytes)
  : result IdentityError unit :=
  fail_if (negb (verifying_key_ok device)) InvalidDevicePublicKey ;?
  fail_if (negb (signature_ok signature)) InvalidSignatureEncoding ;?
  fail_if (negb (verify_strict device message signature)) InvalidSignature.

(** [DeviceIdentity::device_id] and [DeviceIdentity::sign]. *)
Definition device_id `{Ed25519} (identity : DeviceIdentity) : DeviceId := verifying_key_of identity.
Definition device_sign `{Ed25519} (identity : DeviceIdentity) (message : bytes) : arr 64 :=
  sign identity message.

Lemma device_signed_verifies `{Ed25519Laws} identity message :
  device_verify (device_id identity) message (device_sign identity message) = Ok tt.
Proof.
  unfold device_verify, device_id, device_sign.
  by rewrite derived_key_ok, made_signature_ok, signed_verifies.
Qed.
