(* ===== verification/HashChain.v ===== *)
(** Chains of records linked by the BLAKE3 hash of the predecessor's encoding.

    [HashChain] states what a checkpoint format promises about its successor
    check; [history_unique] is the tamper-evidence the formats are built for,
    proved once against the interface.  Both checkpoint formats of canonical
    sync v2 are instances. *)

From stdpp Require Import base tactics list numbers.
From S2P Require Import Prelude Crypto.

Class HashChain `{Blake3} (X : Type) := {
  (** The record is accepted on its own. *)
  chain_valid : X → Prop;
  (** The second record is accepted as the successor of the first. *)
  chain_successor : X → X → Prop;
  chain_sequence : X → u64;
  chain_link : X → option (arr 32);
  (** The bytes whose hash identifies the record. *)
  chain_preimage : X → bytes;
  chain_successor_valid p s : chain_successor p s → chain_valid p;
  chain_successor_sequence p s :
    chain_successor p s → uint_val (chain_sequence s) = (uint_val (chain_sequence p) + 1)%N;
  chain_successor_link p s :
    chain_successor p s → chain_link s = Some (blake3 (chain_preimage p));
  chain_valid_sequence x : chain_valid x → (1 <= chain_sequence x)%N;
  chain_preimage_inj x y :
    chain_valid x → chain_valid y → chain_preimage x = chain_preimage y → x = y
}.

Section history.
Context `{HashChain X}.
Implicit Types (x p s : X) (l : list X).

(** The records of a chain, newest first, back to its first one. *)
Inductive history : list X → Prop :=
| history_first x : chain_valid x → uint_val (chain_sequence x) = 1%N → history [x]
| history_next p s l : history (p :: l) → chain_successor p s → history (s :: p :: l).

(** A record with a predecessor is not the first one. *)
Lemma successor_not_first p s :
  chain_successor p s → uint_val (chain_sequence s) ≠ 1%N.
Proof.
  intros Hs. pose proof (chain_successor_sequence _ _ Hs).
  pose proof (chain_valid_sequence _ (chain_successor_valid _ _ Hs)). lia.
Qed.

Lemma history_unique x l l' :
  history (x :: l) → history (x :: l') →
  (∀ p q, p ∈ l → q ∈ l' → no_collision (chain_preimage p) (chain_preimage q)) → l = l'.
Proof.
  revert x l'. induction l as [|p l IH]; intros x l' Hl Hl' Hnc.
  - inversion Hl as [? _ H1|]; subst. inversion Hl' as [|q ? l'' Hq Hs]; subst; [done|].
    by destruct (successor_not_first _ _ Hs).
  - inversion Hl as [|? ? ? Hp Hs]; subst. inversion Hl' as [? ? H1|q ? l'' Hq Hs']; subst.
    { by destruct (successor_not_first _ _ Hs). }
    assert (p = q) as ->.
    { pose proof (chain_successor_link _ _ Hs) as E1.
      pose proof (chain_successor_link _ _ Hs') as E2. rewrite E1 in E2. injection E2 as E2.
      apply chain_preimage_inj; eauto using chain_successor_valid.
      apply (Hnc p q); [by left|by left|done]. }
    f_equal. apply (IH q); [done|done|]. intros a b Ha Hb. apply Hnc; by right.
Qed.

End history.
