(* ===== verification/CanonicalV1.v ===== *)
(** The deterministic-CBOR profile of
    [crates/kilogram-protocol/src/canonical_v1.rs]: the encoder of heads,
    unsigned integers, byte strings and arrays, the profile validator, and the
    acknowledgement-event and sync-inventory transcripts built on them.

    [item] is the abstract syntax of the profile.  The validator is shown to
    accept exactly the encodings of the items within the profile's limits, and
    these encodings are shown to be unique and prefix-free. *)

From stdpp Require Import base tactics list numbers strings.
From Stdlib Require Import Strings.Byte Sorting.Sorted.
From S2P Require Import Prelude Crypto.

(** * Data *)

Definition CANONICAL_PROFILE_VERSION : u64 := as_u64 1.
Definition ACKNOWLEDGEMENT_PAYLOAD_VARIANT : u64 := as_u64 1.
Definition CANONICAL_EVENT_SIGNATURE_DOMAIN : bytes :=
  b_str "kilogram:event-signature:cbor-v1" ++ [x00].
Definition CANONICAL_EVENT_ID_DOMAIN : bytes := b_str "kilogram:event-id:cbor-v1" ++ [x00].
Definition CANONICAL_SYNC_INVENTORY_SIGNATURE_DOMAIN : bytes :=
  b_str "kilogram:sync-inventory-signature:cbor-v1" ++ [x00].

Definition MAX_PARENTS : usize := 64.
Definition MAX_INVENTORY_EVENT_IDS : usize := 4096.
Definition MAX_CANONICAL_DEPTH : usize := 8.
Definition MAX_CANONICAL_ITEMS : usize := 8192.
Definition MAX_CANONICAL_BYTE_STRING_BYTES : usize := 8 * 1024 * 1024.

Record AcknowledgementEventContentV1 := {
  ack_conversation_id : arr 32;
  ack_author_device_id : arr 32;
  ack_author_sequence : u64;
  ack_parents : list (arr 32);
  ack_acknowledged_event_id : arr 32
}.

Record SyncInventoryContentV1 := {
  inv_conversation_id : arr 32;
  inv_requester_device_id : arr 32;
  inv_session_binding : arr 32;
  inv_event_ids : list (arr 32)
}.

Inductive CanonicalWireError :=
| TooManyItems (field : string) (actual maximum : usize)
| NonCanonicalOrder (field : string)
| UnexpectedEnd
| NonMinimalArgument
| IndefiniteLength
| ReservedAdditionalInformation (value : N)
| UnsupportedMajorType (major : N)
| DepthLimit
| ItemLimit
| ByteStringLimit
| LengthOverflow
| TrailingData.

(** * Encoding *)

(** The bytes [push_head] appends. *)
Definition head_bytes (major_type : N) (argument : u64) : bytes :=
  let major := N.shiftl major_type 5 in
  if (argument <=? 23)%N then [as_u8 (N.lor major argument)]
  else if (argument <=? 255)%N then as_u8 (N.lor major 24) :: [as_u8 argument]
  else if (argument <=? 65535)%N then
    as_u8 (N.lor major 25) :: to_be_bytes 2 (argument mod 2 ^ 16)
  else if (argument <=? 4294967295)%N then
    as_u8 (N.lor major 26) :: to_be_bytes 4 (argument mod 2 ^ 32)
  else as_u8 (N.lor major 27) :: to_be_bytes 8 argument.

Definition push_head (major_type : N) (argument : u64) (output : bytes) : bytes :=
  output ++ head_bytes major_type argument.

Definition push_unsigned (value : u64) (output : bytes) : bytes :=
  push_head 0 value output.

Definition push_bytes (value : bytes) (output : bytes) : bytes :=
  push_head 2 (as_u64 (len value)) output ++ value.

Definition push_array_header (length : u64) (output : bytes) : bytes :=
  push_head 4 length output.

(** [output.extend_from_slice]. *)
Definition extend_from_slice (value output : bytes) : bytes := output ++ value.

Definition prefixed (domain encoded : bytes) : bytes := domain ++ encoded.

Definition validate_ordered_ids (field : string) (values : list (arr 32)) (maximum : usize)
  : result CanonicalWireError unit :=
  fail_if (maximum <? len values)%N (TooManyItems field (len values) maximum) ;?
  fail_if (windows2_any ord_geb values) (NonCanonicalOrder field).

(** [for id in ids { push_bytes(&mut output, id) }]. *)
Definition push_ids (ids : list (arr 32)) (output : bytes) : bytes :=
  fold_left (fun output (id : arr 32) => push_bytes id output) ids output.

Definition encode_acknowledgement_event_content_v1 (content : AcknowledgementEventContentV1)
  : result CanonicalWireError bytes :=
  validate_ordered_ids "parents" content.(ack_parents) MAX_PARENTS ;?
  Ok ([]
    |> push_array_header (as_u64 6)
    |> push_unsigned CANONICAL_PROFILE_VERSION
    |> push_bytes content.(ack_conversation_id)
    |> push_bytes content.(ack_author_device_id)
    |> push_unsigned content.(ack_author_sequence)
    |> push_array_header (as_u64 (len content.(ack_parents)))
    |> push_ids content.(ack_parents)
    |> push_array_header (as_u64 2)
    |> push_unsigned ACKNOWLEDGEMENT_PAYLOAD_VARIANT
    |> push_bytes content.(ack_acknowledged_event_id)).

Definition acknowledgement_event_signing_bytes_v1 (content : AcknowledgementEventContentV1)
  : result CanonicalWireError bytes :=
  let? encoded := encode_acknowledgement_event_content_v1 content in
  Ok (prefixed CANONICAL_EVENT_SIGNATURE_DOMAIN encoded).

Definition encode_signed_acknowledgement_event_v1
  (content : AcknowledgementEventContentV1) (signature : arr 64)
  : result CanonicalWireError bytes :=
  let? content := encode_acknowledgement_event_content_v1 content in
  Ok ([]
    |> push_array_header (as_u64 3)
    |> push_unsigned CANONICAL_PROFILE_VERSION
    |> extend_from_slice content
    |> push_bytes signature).

Definition acknowledgement_event_id_v1 `{Blake3}
  (content : AcknowledgementEventContentV1) (signature : arr 64)
  : result CanonicalWireError (arr 32) :=
  let? event := encode_signed_acknowledgement_event_v1 content signature in
  Ok (blake3 (CANONICAL_EVENT_ID_DOMAIN ++ event)).

Definition encode_sync_inventory_content_v1 (content : SyncInventoryContentV1)
  : result CanonicalWireError bytes :=
  validate_ordered_ids "event_ids" content.(inv_event_ids) MAX_INVENTORY_EVENT_IDS ;?
  Ok ([]
    |> push_array_header (as_u64 5)
    |> push_unsigned CANONICAL_PROFILE_VERSION
    |> push_bytes content.(inv_conversation_id)
    |> push_bytes content.(inv_requester_device_id)
    |> push_bytes content.(inv_session_binding)
    |> push_array_header (as_u64 (len content.(inv_event_ids)))
    |> push_ids content.(inv_event_ids)).

Definition sync_inventory_signing_bytes_v1 (content : SyncInventoryContentV1)
  : result CanonicalWireError bytes :=
  let? encoded := encode_sync_inventory_content_v1 content in
  Ok (prefixed CANONICAL_SYNC_INVENTORY_SIGNATURE_DOMAIN encoded).

Definition encode_signed_sync_inventory_v1 (content : SyncInventoryContentV1) (signature : arr 64)
  : result CanonicalWireError bytes :=
  let? content := encode_sync_inventory_content_v1 content in
  Ok ([]
    |> push_array_header (as_u64 3)
    |> push_unsigned CANONICAL_PROFILE_VERSION
    |> extend_from_slice content
    |> push_bytes signature).

(** * The profile validator *)

Definition take_byte (bs : bytes) (cursor : usize) : result CanonicalWireError (byte * usize) :=
  let? b := ok_or (slice_get bs cursor) UnexpectedEnd in
  Ok (b, (cursor + 1)%N).

Definition take_array (n : nat) (bs : bytes) (cursor : usize)
  : result CanonicalWireError (arr n * usize) :=
  let? end_ := ok_or (usize_checked_add cursor (N.of_nat n)) LengthOverflow in
  let? value := ok_or (slice_range bs cursor end_) UnexpectedEnd in
  let? value := ok_or (arr_try_from n value) UnexpectedEnd in
  Ok (value, end_).

Definition argument_as_usize (value : u64) : result CanonicalWireError usize :=
  ok_or (usize_try_from value) LengthOverflow.

Definition read_argument (bs : bytes) (cursor : usize) (additional : N)
  : result CanonicalWireError (u64 * usize) :=
  if (additional <=? 23)%N then Ok (as_u64 additional, cursor)
  else if (additional =? 24)%N then
    let? (b, cursor) := take_byte bs cursor in
    let value := as_u64 (byte_val b) in
    fail_if (value <? 24)%N NonMinimalArgument ;?
    Ok (value, cursor)
  else if (additional =? 25)%N then
    let? (a, cursor) := take_array 2 bs cursor in
    let value := as_u64 (from_be_bytes a) in
    fail_if (value <=? 255)%N NonMinimalArgument ;?
    Ok (value, cursor)
  else if (additional =? 26)%N then
    let? (a, cursor) := take_array 4 bs cursor in
    let value := as_u64 (from_be_bytes a) in
    fail_if (value <=? 65535)%N NonMinimalArgument ;?
    Ok (value, cursor)
  else if (additional =? 27)%N then
    let? (a, cursor) := take_array 8 bs cursor in
    let value := as_u64 (from_be_bytes a) in
    fail_if (value <=? 4294967295)%N NonMinimalArgument ;?
    Ok (value, cursor)
  else if (additional =? 31)%N then Err IndefiniteLength
  else Err (ReservedAdditionalInformation additional).

(** [fuel] bounds the recursion of the source, which stops at depth
    [MAX_CANONICAL_DEPTH + 1]; [VALIDATE_FUEL] steps always suffice. *)
Fixpoint validate_item (fuel : nat) (bs : bytes) (cursor depth item_count : usize)
  : result CanonicalWireError (usize * usize) :=
  match fuel with
  | O => Err DepthLimit
  | S fuel =>
      fail_if (MAX_CANONICAL_DEPTH <? depth)%N DepthLimit ;?
      let? item_count := ok_or (usize_checked_add item_count 1) ItemLimit in
      fail_if (MAX_CANONICAL_ITEMS <? item_count)%N ItemLimit ;?
      let? (initial, cursor) := take_byte bs cursor in
      let major_type := N.shiftr (byte_val initial) 5 in
      let additional := N.land (byte_val initial) 31 in
      match major_type with
      | 0%N =>
          let? (_, cursor) := read_argument bs cursor additional in
          Ok (cursor, item_count)
      | 2%N =>
          let? (argument, cursor) := read_argument bs cursor additional in
          let? length := argument_as_usize argument in
          fail_if (MAX_CANONICAL_BYTE_STRING_BYTES <? length)%N ByteStringLimit ;?
          let? end_ := ok_or (usize_checked_add cursor length) LengthOverflow in
          fail_if (len bs <? end_)%N UnexpectedEnd ;?
          Ok (end_, item_count)
      | 4%N =>
          let? (argument, cursor) := read_argument bs cursor additional in
          let? length := argument_as_usize argument in
          fail_if (MAX_CANONICAL_ITEMS <? length)%N ItemLimit ;?
          try_repeat (N.to_nat length)
            (fun '(cursor, item_count) => validate_item fuel bs cursor (depth + 1) item_count)
            (cursor, item_count)
      | _ => Err (UnsupportedMajorType major_type)
      end
  end.

Definition VALIDATE_FUEL : nat := 10.

Definition validate_canonical_profile_v1 (bs : bytes) : result CanonicalWireError unit :=
  let? (cursor, _) := validate_item VALIDATE_FUEL bs 0 0 0 in
  fail_if (negb (cursor =? len bs)%N) TrailingData.

(** * Abstract syntax of the profile *)

#[warnings="-register-all"]
Inductive item :=
| IUnsigned (v : u64)
| IBytes (b : bytes)
| IArray (l : list item).

Fixpoint enc_item (i : item) : bytes :=
  match i with
  | IUnsigned v => head_bytes 0 v
  | IBytes b => head_bytes 2 (as_u64 (len b)) ++ b
  | IArray l => head_bytes 4 (as_u64 (len l)) ++ concat (map enc_item l)
  end.

Definition enc_items (l : list item) : bytes := concat (map enc_item l).

(** Number of items, counting every array and its elements. *)
Fixpoint item_count (i : item) : nat :=
  match i with
  | IArray l => S (list_sum (map item_count l))
  | _ => 1
  end.

(** Nesting below an item: an array is one level above its elements. *)
Fixpoint item_depth (i : item) : nat :=
  match i with
  | IArray l => list_max (map (fun i => S (item_depth i)) l)
  | _ => 0
  end.

(** Every byte string has at most [m] bytes. *)
Fixpoint item_strings_within (m : usize) (i : item) : bool :=
  match i with
  | IUnsigned _ => true
  | IBytes b => (len b <=? m)%N
  | IArray l => forallb (item_strings_within m) l
  end.

Abbreviation item_strings_ok := (item_strings_within MAX_CANONICAL_BYTE_STRING_BYTES).

(** An item within the limits of the profile. *)
Definition item_in_profile (i : item) : Prop :=
  item_depth i <= 8 ∧ (N.of_nat (item_count i) <= MAX_CANONICAL_ITEMS)%N ∧
  item_strings_ok i = true.

(** The two parts of a head. *)
Definition arg_additional (a : u64) : N :=
  if (a <=? 23)%N then uint_val a
  else if (a <=? 255)%N then 24 else if (a <=? 65535)%N then 25
  else if (a <=? 4294967295)%N then 26 else 27.

Definition arg_tail (a : u64) : bytes :=
  if (a <=? 23)%N then []
  else if (a <=? 255)%N then to_be_bytes 1 a else if (a <=? 65535)%N then to_be_bytes 2 a
  else if (a <=? 4294967295)%N then to_be_bytes 4 a else to_be_bytes 8 a.

Definition initial_byte (major additional : N) : byte :=
  as_u8 (N.lor (N.shiftl major 5) additional).

(** * Lemmas on heads *)

Ltac leb_cases :=
  repeat match goal with
  | |- context [(?a <=? ?b)%N] => destruct (N.leb_spec a b)
  | |- context [(?a <? ?b)%N] => destruct (N.ltb_spec a b)
  | |- context [(?a =? ?b)%N] => destruct (N.eqb_spec a b)
  end.

Lemma head_bytes_split m a :
  head_bytes m a = initial_byte m (arg_additional a) :: arg_tail a.
Proof.
  unfold head_bytes, arg_additional, arg_tail, initial_byte.
  leb_cases; try done.
  - by rewrite N.mod_small by (change (2 ^ 16)%N with 65536%N; lia).
  - by rewrite N.mod_small by (change (2 ^ 32)%N with 4294967296%N; lia).
Qed.

Lemma arg_additional_lt a : (arg_additional a < 32)%N.
Proof. unfold arg_additional. leb_cases; lia. Qed.

Lemma initial_byte_parts m add :
  (m < 8)%N → (add < 32)%N →
  N.shiftr (byte_val (initial_byte m add)) 5 = m ∧
  N.land (byte_val (initial_byte m add)) 31 = add.
Proof.
  intros Hm Ha.
  assert (Hall : forallb (fun m => forallb (fun a =>
    (N.shiftr (byte_val (initial_byte (N.of_nat m) (N.of_nat a))) 5 =? N.of_nat m)%N &&
    (N.land (byte_val (initial_byte (N.of_nat m) (N.of_nat a))) 31 =? N.of_nat a)%N)
    (seq 0 32)) (seq 0 8) = true) by (vm_compute; reflexivity).
  rewrite forallb_forall in Hall. specialize (Hall (N.to_nat m)).
  rewrite forallb_forall in Hall.
  specialize (Hall ltac:(apply in_seq; lia) (N.to_nat add) ltac:(apply in_seq; lia)).
  rewrite !N2Nat.id in Hall. apply andb_true_iff in Hall as [E1 E2].
  by apply N.eqb_eq in E1, E2.
Qed.

Lemma initial_byte_eta b :
  initial_byte (N.shiftr (byte_val b) 5) (N.land (byte_val b) 31) = b.
Proof. destruct b; vm_compute; reflexivity. Qed.

Lemma byte_additional_lt b : (N.land (byte_val b) 31 < 32)%N.
Proof. destruct b; vm_compute; reflexivity. Qed.

(** * Lemmas on the reading primitives *)

Lemma take_byte_at bs c b rest :
  at_pos bs c (b :: rest) → take_byte bs c = Ok (b, (c + 1)%N) ∧ at_pos bs (c + 1) rest.
Proof.
  intros H. unfold take_byte. rewrite (slice_get_at _ _ _ _ H). cbn. split; [done|].
  apply (at_pos_app _ _ [b]) in H. exact H.
Qed.

Lemma take_byte_inv bs c b c' rest :
  at_pos bs c rest → take_byte bs c = Ok (b, c') →
  ∃ rest', rest = b :: rest' ∧ at_pos bs c' rest'.
Proof.
  unfold take_byte. intros Hat H. result_inv.
  destruct (slice_get_inv _ _ _ _ Hat E) as [rest' ->].
  exists rest'. split; [done|]. by apply (at_pos_app _ _ [_]) in Hat.
Qed.

Lemma at_pos_le bs c rest : at_pos bs c rest → (c + len rest = len bs)%N.
Proof. intros (pre & -> & ->). by rewrite len_app. Qed.

Lemma take_array_at n bs c (a : arr n) rest :
  (len bs < U64_BOUND)%N → at_pos bs c (arr_bytes a ++ rest) →
  take_array n bs c = Ok (a, (c + N.of_nat n)%N) ∧ at_pos bs (c + N.of_nat n) rest.
Proof.
  intros Hl Hat. pose proof (at_pos_le _ _ _ Hat) as Hle. rewrite len_app in Hle.
  pose proof (slice_range_at _ _ _ _ Hat) as Hr. pose proof (at_pos_app _ _ _ _ Hat) as Hat'.
  unfold take_array, len in *. rewrite arr_length in *.
  rewrite usize_checked_add_small by lia. cbn. rewrite Hr. cbn.
  by rewrite arr_try_from_bytes.
Qed.

Lemma take_array_inv n bs c (a : arr n) c' rest :
  at_pos bs c rest → take_array n bs c = Ok (a, c') →
  ∃ rest', rest = arr_bytes a ++ rest' ∧ at_pos bs c' rest'.
Proof.
  unfold take_array. intros Hat H. result_inv.
  apply usize_checked_add_Some in E as ->.
  destruct (slice_range_inv _ _ _ _ _ Hat E0) as (rest' & -> & Hlen).
  apply arr_try_from_Some in E1. rewrite E1.
  exists rest'. split; [done|]. apply at_pos_app in Hat. by rewrite Hlen in Hat.
Qed.

Lemma from_be_bytes_u64 n (a : arr n) :
  n <= 8 → uint_val (as_u64 (from_be_bytes a)) = from_be_bytes a.
Proof.
  intros Hn. apply as_u64_small. pose proof (from_be_bytes_lt a) as H. rewrite arr_length in H.
  enough (256 ^ N.of_nat n <= 256 ^ 8)%N by (change (256 ^ 8)%N with U64_BOUND in *; lia).
  apply N.pow_le_mono_r; lia.
Qed.

Lemma as_u64_byte b : uint_val (as_u64 (byte_val b)) = byte_val b.
Proof. apply as_u64_small. pose proof (byte_val_lt b). lia. Qed.

Lemma arr_be_eq n (a : arr n) v :
  from_be_bytes a = v → (v < 256 ^ N.of_nat n)%N → arr_bytes a = to_be_bytes n v.
Proof. intros <- _. symmetry. apply to_from_be_bytes, arr_length. Qed.

(** Big-endian fields read back: the array of [to_be_bytes] and its value. *)
Lemma be_array n v :
  (v < 256 ^ N.of_nat n)%N → ∃ a : arr n, arr_bytes a = to_be_bytes n v ∧ from_be_bytes a = v.
Proof.
  intros Hv. destruct (arr_try_from_length n (to_be_bytes n v) (length_to_be_bytes n v)) as [a Ha].
  exists a. apply arr_try_from_Some in Ha. rewrite Ha, from_to_be_bytes. split; [done|].
  by apply N.mod_small.
Qed.

Lemma take_array_be n bs c v rest :
  (v < 256 ^ N.of_nat n)%N → (len bs < U64_BOUND)%N → at_pos bs c (to_be_bytes n v ++ rest) →
  ∃ a : arr n, take_array n bs c = Ok (a, (c + N.of_nat n)%N) ∧
    from_be_bytes a = v ∧ at_pos bs (c + N.of_nat n) rest.
Proof.
  intros Hv Hl Hat. destruct (be_array n v Hv) as (a & Ha & Hb). rewrite <-Ha in Hat.
  destruct (take_array_at n bs c a rest Hl Hat) as [H1 H2]. eauto.
Qed.

(** [read_argument] reads back every minimal argument. *)
Lemma read_argument_complete bs c a rest :
  (len bs < U64_BOUND)%N → at_pos bs c (arg_tail a ++ rest) →
  read_argument bs c (arg_additional a) = Ok (a, (c + len (arg_tail a))%N) ∧
  at_pos bs (c + len (arg_tail a)) rest.
Proof.
  intros Hl Hat. split; [|by apply at_pos_app]. pose proof (uint_lt a) as Hlt. revert Hat.
  unfold read_argument, arg_additional, arg_tail, len; leb_cases; try lia; intros Hat;
    rewrite ?length_to_be_bytes.
  - cbn. by rewrite as_u64_id, N.add_0_r.
  - cbn [to_be_bytes app] in Hat. destruct (take_byte_at _ _ _ _ Hat) as [-> _]. cbn [rbind].
    rewrite as_u64_byte, as_u8_small by lia.
    destruct (N.ltb_spec a 24); [lia|]. cbn. by rewrite as_u64_id.
  - destruct (take_array_be 2 bs c a rest) as (v & -> & Hv & _); auto; [cbn; lia|]. cbn [rbind].
    rewrite Hv, as_u64_id. by destruct (N.leb_spec a 255); [lia|].
  - destruct (take_array_be 4 bs c a rest) as (v & -> & Hv & _); auto; [cbn; lia|]. cbn [rbind].
    rewrite Hv, as_u64_id. by destruct (N.leb_spec a 65535); [lia|].
  - destruct (take_array_be 8 bs c a rest) as (v & -> & Hv & _); auto. cbn [rbind].
    rewrite Hv, as_u64_id. by destruct (N.leb_spec a 4294967295); [lia|].
Qed.

(** A big-endian argument above the range of the shorter forms is minimal. *)
Lemma take_array_minimal n bs c (a : arr n) c' rest :
  n <= 8 → at_pos bs c rest → take_array n bs c = Ok (a, c') →
  ∃ rest', rest = to_be_bytes n (as_u64 (from_be_bytes a)) ++ rest' ∧ at_pos bs c' rest' ∧
    (as_u64 (from_be_bytes a) < 256 ^ N.of_nat n)%N.
Proof.
  intros Hn Hat E. destruct (take_array_inv _ _ _ _ _ _ Hat E) as (rest' & -> & Hat').
  pose proof (from_be_bytes_lt a) as Hlt. rewrite arr_length in Hlt.
  exists rest'. rewrite from_be_bytes_u64 by done. rewrite (to_from_be_bytes a n) by apply arr_length.
  eauto.
Qed.

(** Every argument [read_argument] accepts was in minimal form. *)
Lemma read_argument_sound bs c add a c' rest :
  (add < 32)%N → at_pos bs c rest → read_argument bs c add = Ok (a, c') →
  ∃ rest', rest = arg_tail a ++ rest' ∧ arg_additional a = add ∧ at_pos bs c' rest'.
Proof.
  intros Hadd Hat. unfold read_argument, arg_tail, arg_additional.
  destruct (N.leb_spec add 23).
  { intros [= <- <-]. exists rest. rewrite as_u64_small by lia.
    destruct (N.leb_spec add 23); [done|lia]. }
  destruct (N.eqb_spec add 24) as [->|].
  { intros Hr; result_inv.
    apply N.ltb_ge in G.
    destruct (take_byte_inv _ _ _ _ _ Hat E) as (rest' & -> & Hat'). exists rest'.
    rewrite as_u64_byte in *. pose proof (byte_val_lt b).
    leb_cases; try lia. cbn [to_be_bytes app]. by rewrite as_u8_id. }
  destruct (N.eqb_spec add 25) as [->|];
    [|destruct (N.eqb_spec add 26) as [->|];
      [|destruct (N.eqb_spec add 27) as [->|]; [|by case_match]]];
    intros Hr; result_inv;
    apply N.leb_gt in G;
    (destruct (fun H => take_array_minimal _ _ _ _ _ _ H Hat E)
      as (rest' & -> & Hat' & Hlt); [lia|]);
    exists rest'; cbn in Hlt; by leb_cases; try lia.
Qed.

(** ** Heads at a cursor *)

Lemma head_bytes_at bs c m a rest :
  (m < 8)%N → (len bs < U64_BOUND)%N → at_pos bs c (head_bytes m a ++ rest) →
  ∃ b, take_byte bs c = Ok (b, (c + 1)%N) ∧ N.shiftr (byte_val b) 5 = m ∧
    N.land (byte_val b) 31 = arg_additional a ∧
    at_pos bs (c + 1) (arg_tail a ++ rest) ∧
    read_argument bs (c + 1) (arg_additional a) = Ok (a, (c + len (head_bytes m a))%N) ∧
    at_pos bs (c + len (head_bytes m a)) rest.
Proof.
  intros Hm Hl Hat. rewrite head_bytes_split in *. cbn [app] in Hat.
  destruct (take_byte_at _ _ _ _ Hat) as [Htb Hat1].
  destruct (initial_byte_parts m (arg_additional a) Hm (arg_additional_lt a)).
  destruct (read_argument_complete _ _ _ _ Hl Hat1).
  exists (initial_byte m (arg_additional a)). rewrite len_cons, N.add_assoc. eauto 10.
Qed.

Lemma head_bytes_inv bs c b c1 a c2 rest :
  at_pos bs c rest → take_byte bs c = Ok (b, c1) →
  read_argument bs c1 (N.land (byte_val b) 31) = Ok (a, c2) →
  ∃ rest', rest = head_bytes (N.shiftr (byte_val b) 5) a ++ rest' ∧ at_pos bs c2 rest'.
Proof.
  intros Hat Hb Ha. destruct (take_byte_inv _ _ _ _ _ Hat Hb) as (r1 & -> & Hat1).
  destruct (read_argument_sound _ _ _ _ _ _ (byte_additional_lt b) Hat1 Ha)
    as (r2 & -> & Hadd & Hat2).
  exists r2. by rewrite head_bytes_split, Hadd, initial_byte_eta.
Qed.

(** * The validator accepts exactly the profile *)

Lemma item_ind' (P : item → Prop) :
  (∀ v, P (IUnsigned v)) → (∀ b, P (IBytes b)) → (∀ l, Forall P l → P (IArray l)) → ∀ i, P i.
Proof.
  intros HU HB HA. fix IH 1. intros [v|b|l]; [apply HU|apply HB|apply HA].
  induction l as [|i l IHl]; constructor; [apply IH|apply IHl].
Qed.

Lemma item_count_pos i : 1 <= item_count i.
Proof. destruct i; cbn; lia. Qed.

Lemma list_sum_count_length l : length l <= list_sum (map item_count l).
Proof.
  induction l as [|i l IH]; [done|]. cbn [map list_sum fold_right length] in *.
  fold (list_sum (map item_count l)) in *. pose proof (item_count_pos i). lia.
Qed.

Lemma item_depth_elem i l : i ∈ l → S (item_depth i) <= item_depth (IArray l).
Proof.
  intros Hi. cbn [item_depth]. pose proof (list_max_le (map (λ i, S (item_depth i)) l)
    (list_max (map (λ i, S (item_depth i)) l))) as [H _].
  specialize (H (le_n _)). rewrite Forall_forall in H. apply H.
  apply list_elem_of_In, (in_map (λ i, S (item_depth i))). by apply list_elem_of_In.
Qed.

Lemma item_depth_array_le l n :
  Forall (fun i => S (item_depth i) <= n) l → item_depth (IArray l) <= n.
Proof. intros H. cbn [item_depth]. by apply list_max_le, Forall_map. Qed.

Lemma item_strings_ok_array m l :
  item_strings_within m (IArray l) = true ↔ Forall (fun i => item_strings_within m i = true) l.
Proof. cbn [item_strings_within]. rewrite forallb_forall, Forall_forall. by setoid_rewrite list_elem_of_In. Qed.

Lemma as_u64_len {A} (l : list A) : (len l < U64_BOUND)%N → uint_val (as_u64 (len l)) = len l.
Proof. apply as_u64_small. Qed.

(** What a successful [validate_item] has read. *)
Definition item_read (bs : bytes) (c c' : usize) (k k' : usize) (l : list item) : Prop :=
  ∀ rest, at_pos bs c rest →
    ∃ rest', rest = enc_items l ++ rest' ∧ at_pos bs c' rest' ∧
      k' = (k + N.of_nat (list_sum (map item_count l)))%N.

Lemma item_read_app bs c c1 c2 k k1 k2 l1 l2 :
  item_read bs c c1 k k1 l1 → item_read bs c1 c2 k1 k2 l2 → item_read bs c c2 k k2 (l1 ++ l2).
Proof.
  intros H1 H2 rest Hat. destruct (H1 _ Hat) as (r1 & -> & Hat1 & ->).
  destruct (H2 _ Hat1) as (r2 & -> & Hat2 & ->). exists r2.
  unfold enc_items. rewrite map_app, concat_app, <-app_assoc, map_app, list_sum_app.
  repeat split; auto. lia.
Qed.

Lemma validate_items_sound bs (step : usize * usize → result CanonicalWireError (usize * usize))
    (P : item → Prop) (m : N) n c k c' k' :
  (∀ c k c' k', step (c, k) = Ok (c', k') →
    ∃ i, P i ∧ (k' <= m)%N ∧ item_read bs c c' k k' [i]) →
  (k <= m)%N → try_repeat n step (c, k) = Ok (c', k') →
  ∃ l, length l = n ∧ Forall P l ∧ (k' <= m)%N ∧ item_read bs c c' k k' l.
Proof.
  intros Hstep. revert c k; induction n as [|n IH]; intros c k Hk H; cbn [try_repeat] in H.
  - injection H as <- <-. exists []. repeat split; auto.
    intros rest Hat. exists rest. cbn. by rewrite N.add_0_r.
  - result_inv. destruct a as [c1 k1].
    destruct (Hstep _ _ _ _ E) as (i & Hi & Hk1 & Hr1).
    destruct (IH _ _ Hk1 H) as (l & Hl & HP & Hk2 & Hr2).
    exists (i :: l). repeat split; [by cbn; rewrite Hl|by constructor|done|].
    exact (item_read_app _ _ _ _ _ _ _ [i] l Hr1 Hr2).
Qed.

(** A leaf item whose encoding is a head followed by its payload. *)
Lemma item_read_leaf bs c c' k i payload m a c2 :
  item_count i = 1 → enc_item i = head_bytes m a ++ payload →
  (∀ rest, at_pos bs c rest → ∃ r1, rest = head_bytes m a ++ r1 ∧ at_pos bs c2 r1) →
  (∀ r1, at_pos bs c2 r1 → ∃ r2, r1 = payload ++ r2 ∧ at_pos bs c' r2) →
  item_read bs c c' k (k + 1) [i].
Proof.
  intros Hc He Hh Hp rest Hat. destruct (Hh _ Hat) as (r1 & -> & Hat1).
  destruct (Hp _ Hat1) as (r2 & -> & Hat2). exists r2.
  unfold enc_items. cbn [map concat list_sum fold_right]. rewrite Hc, He, app_nil_r, <-app_assoc.
  done.
Qed.

Lemma payload_read bs c n :
  (c + n <= len bs)%N → ∃ p, len p = n ∧
    ∀ r1, at_pos bs c r1 → ∃ r2, r1 = p ++ r2 ∧ at_pos bs (c + n) r2.
Proof.
  intros Hle. exists (take (N.to_nat n) (drop (N.to_nat c) bs)). split.
  { unfold len in *. rewrite length_take, length_drop. lia. }
  intros r1 Hat. pose proof (at_pos_le _ _ _ Hat) as Hl. pose proof Hat as (pre & -> & ->).
  unfold len in *. rewrite Nat2N.id, drop_app_length.
  exists (drop (N.to_nat n) r1). rewrite take_drop. split; [done|].
  rewrite length_app in Hle.
  pose proof (at_pos_app (pre ++ r1) (len pre) (take (N.to_nat n) r1) (drop (N.to_nat n) r1)) as H.
  rewrite take_drop in H. specialize (H Hat). unfold len in H. rewrite length_take in H.
  replace (N.of_nat (length pre) + n)%N with
    (N.of_nat (length pre) + N.of_nat (N.to_nat n `min` length r1))%N by lia. exact H.
Qed.

Lemma validate_item_sound fuel bs c d k c' k' :
  validate_item fuel bs c d k = Ok (c', k') →
  ∃ i, (N.of_nat (item_depth i) + d <= 8)%N ∧ item_strings_ok i = true ∧
    (k' <= MAX_CANONICAL_ITEMS)%N ∧ item_read bs c c' k k' [i].
Proof.
  revert c d k c' k'; induction fuel as [|fuel IH]; intros c d k c' k' H; [discriminate|].
  cbn [validate_item] in H. unfold argument_as_usize in H. result_inv.
  apply N.ltb_ge in G, G0. unfold MAX_CANONICAL_DEPTH in G.
  apply usize_checked_add_Some in E as ->.
  pose proof (fun a c2 rest Hat Ha => head_bytes_inv bs c b _ a c2 rest Hat E0 Ha) as Hhead.
  destruct (N.shiftr (byte_val b) 5) as [|[p|[[p|p|]|[p|p|]|]|]] eqn:Em; try discriminate; result_inv.
  - exists (IUnsigned u). repeat split; auto.
    eapply (item_read_leaf _ _ _ _ _ [] 0%N u); [done|by rewrite app_nil_r|eauto|eauto].
  - rewrite usize_try_from_id in E1. injection E1 as <-.
    apply (validate_items_sound bs _ (fun i => (N.of_nat (item_depth i) + (d + 1) <= 8)%N ∧
      item_strings_ok i = true) MAX_CANONICAL_ITEMS) in H as (l & Hl & HP & Hk & Hr);
      [|intros ???? (i&?&?&?&?)%IH; exists i; auto|done].
    apply Forall_and in HP as [HP1 HP2]. exists (IArray l). split; [|split; [|split]].
    + pose proof (item_depth_array_le l (N.to_nat (8 - d))) as Hd.
      enough (item_depth (IArray l) <= N.to_nat (8 - d)) by lia.
      apply Hd. eapply Forall_impl; [exact HP1|]. cbn. lia.
    + by apply item_strings_ok_array.
    + done.
    + intros rest Hat. destruct (Hhead u n rest Hat eq_refl) as (r1 & -> & Hat1).
      destruct (Hr _ Hat1) as (r2 & -> & Hat2 & ->). exists r2.
      unfold enc_items at 2. cbn [map concat enc_item list_sum fold_right item_count].
      fold (enc_items l). unfold len. rewrite app_nil_r, <-app_assoc, Hl, N2Nat.id, as_u64_id.
      repeat split; auto. unfold list_sum. lia.
  - rewrite usize_try_from_id in E1. injection E1 as <-.
    apply N.ltb_ge in G1, G2. apply usize_checked_add_Some in E2 as ->.
    destruct (payload_read bs n u ltac:(lia)) as (p & Hp & Hread).
    exists (IBytes p). cbn [item_depth item_strings_within]. rewrite Hp.
    repeat split; [lia|by apply N.leb_le|done|].
    eapply (item_read_leaf _ _ _ _ _ p 2%N u); [done| |eauto|eauto].
    cbn [enc_item]. by rewrite Hp, as_u64_id.
Qed.

Lemma validate_items_complete bs step l n c k rest :
  (∀ i c k rest, i ∈ l → at_pos bs c (enc_item i ++ rest) →
    (k + N.of_nat (item_count i) <= MAX_CANONICAL_ITEMS)%N →
    step (c, k) = Ok ((c + len (enc_item i))%N, (k + N.of_nat (item_count i))%N)) →
  n = length l → at_pos bs c (enc_items l ++ rest) →
  (k + N.of_nat (list_sum (map item_count l)) <= MAX_CANONICAL_ITEMS)%N →
  try_repeat (E:=CanonicalWireError) n step (c, k) =
    Ok ((c + len (enc_items l))%N, (k + N.of_nat (list_sum (map item_count l)))%N).
Proof.
  intros Hstep ->. revert c k rest; induction l as [|i l IH]; intros c k rest Hat Hk.
  - cbn. by rewrite !N.add_0_r.
  - unfold enc_items in *. cbn [map concat list_sum fold_right length try_repeat] in *.
    fold (list_sum (map item_count l)) in *. rewrite <-app_assoc in Hat.
    rewrite (Hstep i c k _ ltac:(constructor) Hat) by lia. cbn [rbind].
    apply at_pos_app in Hat. rewrite (IH ltac:(intros; eapply Hstep; eauto; by constructor) _ _ _ Hat) by lia.
    rewrite len_app. do 2 f_equal; lia.
Qed.

(** One step of the validator in front of a head. *)
Lemma validate_item_head fuel bs c d k m a rest :
  (m < 8)%N → (len bs < U64_BOUND)%N → (d <= 8)%N → (k + 1 <= MAX_CANONICAL_ITEMS)%N →
  at_pos bs c (head_bytes m a ++ rest) →
  let cursor := (c + len (head_bytes m a))%N in
  validate_item (S fuel) bs c d k =
    match m with
    | 0%N => Ok (cursor, k + 1)%N
    | 2%N =>
        fail_if (MAX_CANONICAL_BYTE_STRING_BYTES <? a)%N ByteStringLimit ;?
        let? end_ := ok_or (usize_checked_add cursor a) LengthOverflow in
        fail_if (len bs <? end_)%N UnexpectedEnd ;?
        Ok (end_, k + 1)%N
    | 4%N =>
        fail_if (MAX_CANONICAL_ITEMS <? a)%N ItemLimit ;?
        try_repeat (N.to_nat a)
          (fun '(cursor, item_count) => validate_item fuel bs cursor (d + 1) item_count)
          (cursor, k + 1)%N
    | _ => Err (UnsupportedMajorType m)
    end.
Proof.
  intros Hm Hl Hd Hk Hat cursor.
  destruct (head_bytes_at bs c m a rest Hm Hl Hat) as (b & Hb & Hbm & Ha & _ & Hr & _).
  cbn [validate_item]. unfold MAX_CANONICAL_ITEMS, argument_as_usize in *.
  rewrite usize_checked_add_small by lia. cbn [rbind ok_or].
  destruct (N.ltb_spec MAX_CANONICAL_DEPTH d) as [Hbad|_]; [unfold MAX_CANONICAL_DEPTH in Hbad; lia|].
  destruct (N.ltb_spec 8192 (k + 1)); [lia|].
  cbn [fail_if rbind]. rewrite Hb; cbn [rbind]. rewrite Hbm, Ha, Hr.
  unfold cursor. cbn [rbind]. by rewrite usize_try_from_id.
Qed.

Lemma validate_item_complete i fuel bs c d k rest :
  (len bs < U64_BOUND)%N → at_pos bs c (enc_item i ++ rest) →
  (N.of_nat (item_depth i) + d <= 8)%N → (k + N.of_nat (item_count i) <= MAX_CANONICAL_ITEMS)%N →
  item_strings_ok i = true → item_depth i < fuel →
  validate_item fuel bs c d k =
    Ok ((c + len (enc_item i))%N, (k + N.of_nat (item_count i))%N).
Proof.
  intros Hl. revert fuel c d k rest.
  induction i as [v|b|l IH] using item_ind'; intros fuel c d k rest Hat Hd Hk Hs Hf;
    (destruct fuel as [|fuel]; [lia|]); cbn [enc_item item_count] in *;
    pose proof (at_pos_le _ _ _ Hat) as Hle; rewrite ?len_app in Hle.
  - by rewrite (validate_item_head fuel bs c d k 0 v rest) by (done || lia).
  - cbn [item_strings_within] in Hs. apply N.leb_le in Hs. rewrite <-app_assoc in Hat.
    rewrite (validate_item_head fuel bs c d k 2 _ _ ltac:(done) Hl ltac:(lia) ltac:(lia) Hat).
    cbv zeta. rewrite as_u64_len by lia.
    destruct (N.ltb_spec MAX_CANONICAL_BYTE_STRING_BYTES (len b)); [lia|].
    cbn [fail_if rbind]. rewrite usize_checked_add_small by lia. cbn [rbind ok_or].
    destruct (N.ltb_spec (len bs) (c + len (head_bytes 2 (as_u64 (len b))) + len b)); [lia|].
    cbn. by rewrite len_app, N.add_assoc.
  - rewrite <-app_assoc in Hat. fold (enc_items l) in *.
    pose proof (list_sum_count_length l) as Hcnt. unfold MAX_CANONICAL_ITEMS in Hk.
    assert (Hll : (len l <= 8191)%N) by (unfold len; lia).
    rewrite (validate_item_head fuel bs c d k 4 _ _ ltac:(done) Hl ltac:(lia)
      ltac:(unfold MAX_CANONICAL_ITEMS; lia) Hat).
    cbv zeta. rewrite as_u64_len by lia.
    destruct (N.ltb_spec MAX_CANONICAL_ITEMS (len l)) as [Hbad|_];
      [unfold MAX_CANONICAL_ITEMS in Hbad; lia|].
    cbn [fail_if rbind]. apply at_pos_app in Hat.
    erewrite (validate_items_complete bs _ l); [| |by unfold len; rewrite Nat2N.id|exact Hat|].
    + rewrite len_app. do 2 f_equal; lia.
    + intros i c1 k1 rest1 Hi Hat' Hk'. apply item_strings_ok_array in Hs.
      rewrite Forall_forall in IH, Hs. pose proof (item_depth_elem i l Hi).
      eapply IH; eauto; lia.
    + unfold MAX_CANONICAL_ITEMS. lia.
Qed.

(** ** Encoded size of an item in the profile *)

Lemma len_head_bytes m a : (1 <= len (head_bytes m a) <= 9)%N.
Proof.
  rewrite head_bytes_split, len_cons. unfold arg_tail, len. leb_cases;
    rewrite ?length_to_be_bytes; cbn; lia.
Qed.

Lemma len_enc_item m i :
  item_strings_within m i = true →
  (len (enc_item i) <= N.of_nat (item_count i) * (m + 9))%N.
Proof.
  induction i as [v|b|l IH] using item_ind'; cbn [enc_item item_count item_strings_within]; intros Hs.
  - pose proof (len_head_bytes 0 v). lia.
  - apply N.leb_le in Hs. rewrite len_app. pose proof (len_head_bytes 2 (as_u64 (len b))). lia.
  - rewrite len_app. pose proof (len_head_bytes 4 (as_u64 (len l))) as Hh.
    enough (len (concat (map enc_item l)) <= N.of_nat (list_sum (map item_count l)) *
      (m + 9))%N by lia.
    clear Hh. induction IH as [|i l Hi _ IHl]; [done|].
    cbn [forallb map concat list_sum fold_right] in *. apply andb_true_iff in Hs as [Hs1 Hs2].
    rewrite len_app. specialize (Hi Hs1). specialize (IHl Hs2).
    fold (list_sum (map item_count l)) in *. lia.
Qed.

Lemma in_profile_fits i : item_in_profile i → (len (enc_item i) < U64_BOUND)%N.
Proof.
  intros (_ & Hc & Hs). pose proof (len_enc_item _ i Hs).
  unfold MAX_CANONICAL_ITEMS, MAX_CANONICAL_BYTE_STRING_BYTES in *. lia.
Qed.

(** ** Uniqueness: encodings are prefix-free *)

Lemma head_bytes_inj m a m' a' r r' :
  (m < 8)%N → (m' < 8)%N → head_bytes m a ++ r = head_bytes m' a' ++ r' →
  m = m' ∧ a = a' ∧ r = r'.
Proof.
  intros Hm Hm' E. rewrite !head_bytes_split in E. cbn [app] in E. injection E as Eb E.
  destruct (initial_byte_parts m _ Hm (arg_additional_lt a)) as [P1 P2].
  destruct (initial_byte_parts m' _ Hm' (arg_additional_lt a')) as [P1' P2'].
  rewrite Eb in P1, P2. split; [congruence|].
  assert (Hadd : arg_additional a = arg_additional a') by congruence.
  assert (Hl : length (arg_tail a) = length (arg_tail a')).
  { revert Hadd. unfold arg_additional, arg_tail. leb_cases; rewrite ?length_to_be_bytes; lia. }
  apply app_inj_1 in E as [Et ->]; [|done]. split; [|done].
  apply uint_eq. pose proof (uint_lt a). pose proof (uint_lt a').
  assert (Hbe : ∀ n v w, (v < 256 ^ N.of_nat n)%N → (w < 256 ^ N.of_nat n)%N →
    to_be_bytes n v = to_be_bytes n w → v = w).
  { intros n v w Hv Hw Ew. apply (f_equal from_be_bytes) in Ew.
    rewrite !from_to_be_bytes, !N.mod_small in Ew; auto. }
  revert Hadd Et. unfold arg_additional, arg_tail. leb_cases; intros; subst; try lia;
    (eapply Hbe; [| |eassumption]; cbn; lia).
Qed.

(** Every length fits its [u64] head: all that injectivity needs. *)
Fixpoint item_fits (i : item) : bool :=
  match i with
  | IUnsigned _ => true
  | IBytes b => (len b <? U64_BOUND)%N
  | IArray l => (len l <? U64_BOUND)%N && forallb item_fits l
  end.

Lemma item_fits_array l :
  item_fits (IArray l) = true ↔ (len l < U64_BOUND)%N ∧ Forall (fun i => item_fits i = true) l.
Proof.
  cbn [item_fits]. rewrite andb_true_iff, N.ltb_lt, forallb_forall, Forall_forall.
  by setoid_rewrite list_elem_of_In.
Qed.

Lemma enc_item_inj i i' r r' :
  item_fits i = true → item_fits i' = true →
  enc_item i ++ r = enc_item i' ++ r' → i = i' ∧ r = r'.
Proof.
  revert i' r r'. induction i as [v|b|l IH] using item_ind'; intros [v'|b'|l'] r r' Hi Hi' E;
    cbn [enc_item] in E; rewrite <-?app_assoc in E;
    apply head_bytes_inj in E as (Em & Ea & E); try done.
  - by subst.
  - apply N.ltb_lt in Hi, Hi'. apply (f_equal uint_val) in Ea.
    rewrite !as_u64_len in Ea by done. unfold len in Ea.
    apply app_inj_1 in E as [-> ->]; [done|lia].
  - apply item_fits_array in Hi as [Hl Hi], Hi' as [Hl' Hi']. apply (f_equal uint_val) in Ea.
    rewrite !as_u64_len in Ea by done. assert (Elen : length l = length l') by (unfold len in Ea; lia).
    clear Em Ea Hl Hl'. enough (l = l' ∧ r = r') as [-> ->] by done.
    revert l' r r' Hi Hi' E Elen.
    induction IH as [|i l IHi _ IHl]; intros [|i' l'] r r' Hi Hi' E Elen; try done.
    cbn [map concat] in E. rewrite <-!app_assoc in E.
    inversion_clear Hi as [|?? Hi1 Hi2]. inversion_clear Hi' as [|?? Hi1' Hi2'].
    apply IHi in E as [-> E]; auto. apply IHl in E as [-> ->]; auto.
Qed.

Lemma item_count_elem i l : i ∈ l → item_count i < item_count (IArray l).
Proof.
  cbn [item_count]. induction l as [|j l IH]; [by intros ?%not_elem_of_nil|].
  cbn [map list_sum fold_right]. fold (list_sum (map item_count l)).
  rewrite elem_of_cons. intros [->|Hi]; [lia|]. specialize (IH Hi). lia.
Qed.

Lemma in_profile_item_fits i : item_in_profile i → item_fits i = true.
Proof.
  intros (_ & Hc & Hs). revert Hc Hs. unfold MAX_CANONICAL_ITEMS.
  induction i as [v|b|l IH] using item_ind'; intros Hc Hs; [done| |].
  - cbn [item_strings_within item_fits] in *. apply N.leb_le in Hs.
    unfold MAX_CANONICAL_BYTE_STRING_BYTES in Hs. apply N.ltb_lt. lia.
  - apply item_strings_ok_array in Hs. rewrite Forall_forall in IH, Hs. apply item_fits_array.
    pose proof (list_sum_count_length l). split; [cbn [item_count] in Hc; unfold len; lia|].
    apply Forall_forall. intros i Hi. apply IH; auto. pose proof (item_count_elem i l Hi). lia.
Qed.

Lemma validate_profile_complete i :
  item_in_profile i → validate_canonical_profile_v1 (enc_item i) = Ok tt.
Proof.
  intros Hi. pose proof (in_profile_fits i Hi) as Hl. destruct Hi as (Hd & Hc & Hs).
  unfold validate_canonical_profile_v1, VALIDATE_FUEL.
  rewrite (validate_item_complete i _ _ _ _ _ []); auto; try lia.
  - cbn [rbind]. by rewrite N.add_0_l, N.eqb_refl.
  - rewrite app_nil_r. apply at_pos_start.
Qed.

Lemma validate_profile_sound bs :
  validate_canonical_profile_v1 bs = Ok tt → ∃ i, item_in_profile i ∧ enc_item i = bs.
Proof.
  unfold validate_canonical_profile_v1. intros H. result_inv.
  apply negb_false_iff, N.eqb_eq in G. subst.
  apply validate_item_sound in E as (i & Hd & Hs & Hk & Hr).
  destruct (Hr bs (at_pos_start bs)) as (rest & Ebs & Hat & ->).
  apply at_pos_end in Hat as ->; [|done]. exists i. unfold item_in_profile.
  cbn [map list_sum fold_right] in Hk.
  repeat split; auto; try lia. unfold enc_items in Ebs. cbn in Ebs.
  by rewrite !app_nil_r in Ebs.
Qed.

(** An encodable item outside the profile is rejected. *)
Lemma validate_profile_reject i :
  item_fits i = true → ¬ item_in_profile i → validate_canonical_profile_v1 (enc_item i) ≠ Ok tt.
Proof.
  intros Hf Hp H. apply validate_profile_sound in H as (i' & Hi' & E).
  destruct (enc_item_inj i' i [] []) as [-> _]; auto using in_profile_item_fits.
  by rewrite !app_nil_r.
Qed.

(** * Normal forms of the push operations *)

Lemma push_unsigned_app v out : push_unsigned v out = out ++ enc_item (IUnsigned v).
Proof. done. Qed.
Lemma push_bytes_app b out : push_bytes b out = out ++ enc_item (IBytes b).
Proof. unfold push_bytes, push_head. cbn [enc_item]. by rewrite app_assoc. Qed.
Lemma push_array_header_app n out : push_array_header n out = out ++ head_bytes 4 n.
Proof. done. Qed.
Lemma extend_from_slice_app b out : extend_from_slice b out = out ++ b.
Proof. done. Qed.
Lemma push_ids_app ids out :
  push_ids ids out = out ++ concat (map (fun id : arr 32 => enc_item (IBytes id)) ids).
Proof.
  unfold push_ids. revert out; induction ids as [|id ids IH]; intros out;
    cbn [fold_left map concat].
  - by rewrite app_nil_r.
  - by rewrite IH, push_bytes_app, app_assoc.
Qed.

Create Rewrite HintDb push.
#[export] Hint Rewrite push_unsigned_app push_bytes_app push_array_header_app
  extend_from_slice_app push_ids_app : push.

Lemma enc_items_cons i l : enc_items (i :: l) = enc_item i ++ enc_items l.
Proof. done. Qed.
Lemma enc_items_nil : enc_items [] = [].
Proof. done. Qed.
Lemma enc_items_app l l' : enc_items (l ++ l') = enc_items l ++ enc_items l'.
Proof. unfold enc_items. by rewrite map_app, concat_app. Qed.
Lemma enc_item_array l : enc_item (IArray l) = head_bytes 4 (as_u64 (len l)) ++ enc_items l.
Proof. done. Qed.

Lemma enc_items_map {A} (f : A → item) l :
  enc_items (map f l) = concat (map (fun a => enc_item (f a)) l).
Proof. unfold enc_items. by rewrite map_map. Qed.

#[export] Hint Rewrite enc_items_cons enc_items_nil enc_items_app enc_item_array @enc_items_map
  @len_map @app_nil_r : push.

(** Brings encoders' outputs into right-nested concatenations of heads and
    leaves. *)
Ltac push_norm :=
  autorewrite with push; rewrite <-?app_assoc; cbn [app].
Ltac push_norm_in H :=
  autorewrite with push in H; rewrite <-?app_assoc in H; cbn [app] in H.

(** * Counting items of positional messages *)

(** [n] leaves of at most [MAX_CANONICAL_BYTE_STRING_BYTES]. *)
Definition leaf_item (i : item) : bool :=
  match i with
  | IUnsigned _ => true
  | IBytes b => (len b <=? MAX_CANONICAL_BYTE_STRING_BYTES)%N
  | IArray _ => false
  end.

(** A list of items has count [c], nesting at most [d] and short strings. *)
Definition items_shape (c d : nat) (l : list item) : Prop :=
  list_sum (map item_count l) = c ∧
  Forall (fun i => item_depth i <= d ∧ item_strings_ok i = true) l.

Lemma items_shape_nil d : items_shape 0 d [].
Proof. by split. Qed.

Lemma items_shape_cons c1 c2 d i l :
  items_shape c1 d [i] → items_shape c2 d l → items_shape (c1 + c2) d (i :: l).
Proof.
  intros [H1 F1] [H2 F2]. inversion_clear F1 as [|?? Hi _]. split; [|by constructor].
  cbn [map list_sum fold_right] in *. fold (list_sum (map item_count l)). lia.
Qed.

Lemma items_shape_leaf d i : leaf_item i = true → items_shape 1 d [i].
Proof.
  intros Hi. split; [by destruct i|]. constructor; [|done].
  destruct i; cbn in *; split; first [done|lia].
Qed.

Lemma items_shape_array c d l : items_shape c d l → items_shape (S c) (S d) [IArray l].
Proof.
  intros [<- HF]. apply Forall_and in HF as [H1 H2]. split; [cbn; lia|].
  constructor; [|done]. split; [|by apply item_strings_ok_array].
  apply item_depth_array_le. eapply Forall_impl; [exact H1|]. cbn. lia.
Qed.

(** A loop over elements of one shape. *)
Lemma items_shape_map {A} (f : A → item) c d l :
  Forall (fun a => items_shape c d [f a]) l → items_shape (length l * c) d (map f l).
Proof.
  induction 1 as [|a l Ha _ IH]; [apply items_shape_nil|].
  cbn [map length]. change (S (length l) * c) with (c + length l * c). by apply items_shape_cons.
Qed.

Lemma items_shape_weaken c c' d d' l :
  c = c' → d <= d' → items_shape c d l → items_shape c' d' l.
Proof.
  intros -> Hd [Hc HF]. split; [done|]. eapply Forall_impl; [exact HF|]. cbn. intuition lia.
Qed.

Lemma items_shape_eq c c' d l : items_shape c d l → c = c' → items_shape c' d l.
Proof. by intros ? <-. Qed.

Lemma items_shape_in_profile c i :
  items_shape c 8 [i] → (N.of_nat c <= MAX_CANONICAL_ITEMS)%N → item_in_profile i.
Proof.
  intros [Hc HF] Hle. inversion_clear HF as [|?? [Hd Hs] _].
  cbn [map list_sum fold_right] in Hc. repeat split; auto. lia.
Qed.

Lemma items_shape_count c d i : items_shape c d [i] → item_count i = c.
Proof. intros [Hc _]. cbn [map list_sum fold_right] in Hc. lia. Qed.

(** An item of a known shape fits, whatever its count, when its arrays do. *)
Lemma leaf_arr {n} (a : arr n) : n <= 64 → leaf_item (IBytes a) = true.
Proof.
  intros Hn. cbn. unfold len, MAX_CANONICAL_BYTE_STRING_BYTES. rewrite arr_length.
  apply N.leb_le. lia.
Qed.

Lemma items_shape_ids d (ids : list (arr 32)) :
  items_shape (length ids) d (map (fun id : arr 32 => IBytes id) ids).
Proof.
  eapply items_shape_weaken; [apply Nat.mul_1_r|done|].
  apply items_shape_map, Forall_true. intros id. apply items_shape_leaf, leaf_arr. lia.
Qed.

(** Computes the shape of a message item, leaving its open parts. *)
Ltac items_shape :=
  repeat lazymatch goal with
  | |- items_shape _ _ [] => apply items_shape_nil
  | |- items_shape _ (S ?d) [IArray _] => apply items_shape_array
  | |- items_shape _ _ [IUnsigned _] => apply items_shape_leaf; reflexivity
  | |- items_shape _ _ [IBytes (arr_bytes _)] => apply items_shape_leaf, leaf_arr; lia
  | |- items_shape _ _ (map _ _) => apply items_shape_ids
  | |- items_shape _ _ (_ :: _ :: _) => eapply items_shape_cons
  end.

Lemma item_fits_bytes b : item_fits (IBytes b) = true ↔ (len b < U64_BOUND)%N.
Proof. apply N.ltb_lt. Qed.
Lemma item_fits_arr {n} (a : arr n) : n <= 64 → item_fits (IBytes a) = true.
Proof. intros Hn. apply item_fits_bytes. unfold len. rewrite arr_length. lia. Qed.

(** * Acknowledgement events and sync inventories *)

Definition ids_item (ids : list (arr 32)) : item := IArray (map (fun id : arr 32 => IBytes id) ids).

(** [[1, content, signature]]. *)
Definition signed_item (content : item) (signature : arr 64) : item :=
  IArray [IUnsigned CANONICAL_PROFILE_VERSION; content; IBytes signature].

Definition ack_item (c : AcknowledgementEventContentV1) : item :=
  IArray [IUnsigned CANONICAL_PROFILE_VERSION; IBytes c.(ack_conversation_id);
          IBytes c.(ack_author_device_id); IUnsigned c.(ack_author_sequence);
          ids_item c.(ack_parents);
          IArray [IUnsigned ACKNOWLEDGEMENT_PAYLOAD_VARIANT; IBytes c.(ack_acknowledged_event_id)]].

Definition inventory_item (c : SyncInventoryContentV1) : item :=
  IArray [IUnsigned CANONICAL_PROFILE_VERSION; IBytes c.(inv_conversation_id);
          IBytes c.(inv_requester_device_id); IBytes c.(inv_session_binding);
          ids_item c.(inv_event_ids)].

(** At most [maximum] identifiers in strictly increasing order. *)
Definition ordered_ids (maximum : usize) (ids : list (arr 32)) : Prop :=
  (len ids <= maximum)%N ∧ StronglySorted ord_lt ids.

Lemma validate_ordered_ids_ok field ids maximum :
  validate_ordered_ids field ids maximum = Ok tt ↔ ordered_ids maximum ids.
Proof.
  unfold validate_ordered_ids, ordered_ids. rewrite <-windows2_any_sorted.
  destruct (N.ltb_spec maximum (len ids)); cbn [fail_if rbind].
  - split; [done|]. lia.
  - destruct (windows2_any ord_geb ids); cbn; intuition congruence.
Qed.

Lemma encode_ack_spec c bs :
  encode_acknowledgement_event_content_v1 c = Ok bs ↔
  ordered_ids MAX_PARENTS c.(ack_parents) ∧ bs = enc_item (ack_item c).
Proof.
  unfold encode_acknowledgement_event_content_v1.
  rewrite <-(validate_ordered_ids_ok "parents").
  destruct (validate_ordered_ids _ _ _) as [[]|e]; cbn [rbind]; [|by intuition congruence].
  enough (enc_item (ack_item c) = _) as <- by (split; [by intros [= <-]|by intros [_ ->]]).
  push_norm. unfold ack_item, ids_item. push_norm. done.
Qed.

Lemma encode_inventory_spec c bs :
  encode_sync_inventory_content_v1 c = Ok bs ↔
  ordered_ids MAX_INVENTORY_EVENT_IDS c.(inv_event_ids) ∧ bs = enc_item (inventory_item c).
Proof.
  unfold encode_sync_inventory_content_v1.
  rewrite <-(validate_ordered_ids_ok "event_ids").
  destruct (validate_ordered_ids _ _ _) as [[]|e]; cbn [rbind]; [|by intuition congruence].
  enough (enc_item (inventory_item c) = _) as <- by (split; [by intros [= <-]|by intros [_ ->]]).
  push_norm. unfold inventory_item, ids_item. push_norm. done.
Qed.

(** The signed envelope every encoder builds around its content. *)
Lemma signed_item_enc i (signature : arr 64) :
  [] |> push_array_header (as_u64 3)
     |> push_unsigned CANONICAL_PROFILE_VERSION
     |> extend_from_slice (enc_item i)
     |> push_bytes signature
  = enc_item (signed_item i signature).
Proof. unfold signed_item. push_norm. done. Qed.

Lemma encode_signed_ack_spec c s bs :
  encode_signed_acknowledgement_event_v1 c s = Ok bs ↔
  ordered_ids MAX_PARENTS c.(ack_parents) ∧ bs = enc_item (signed_item (ack_item c) s).
Proof.
  unfold encode_signed_acknowledgement_event_v1. split.
  - intros H. result_inv. apply encode_ack_spec in E as [Hc ->]. by rewrite signed_item_enc.
  - intros [Hc ->].
    rewrite (proj2 (encode_ack_spec c _)) by (split; [done|reflexivity]).
    cbn [rbind]. by rewrite signed_item_enc.
Qed.

Lemma encode_signed_inventory_spec c s bs :
  encode_signed_sync_inventory_v1 c s = Ok bs ↔
  ordered_ids MAX_INVENTORY_EVENT_IDS c.(inv_event_ids) ∧
  bs = enc_item (signed_item (inventory_item c) s).
Proof.
  unfold encode_signed_sync_inventory_v1. split.
  - intros H. result_inv. apply encode_inventory_spec in E as [Hc ->]. by rewrite signed_item_enc.
  - intros [Hc ->].
    rewrite (proj2 (encode_inventory_spec c _)) by (split; [done|reflexivity]).
    cbn [rbind]. by rewrite signed_item_enc.
Qed.

Lemma items_shape_signed c d i s :
  items_shape c d [i] → items_shape (c + 3) (S d) [signed_item i s].
Proof.
  intros Hi. eapply items_shape_eq; [unfold signed_item; items_shape; eassumption|lia].
Qed.

Lemma ack_item_shape c : items_shape (length c.(ack_parents) + 9) 3 [ack_item c].
Proof.
  eapply items_shape_eq; [unfold ack_item, ids_item; items_shape|lia].
Qed.

Lemma inventory_item_shape c : items_shape (length c.(inv_event_ids) + 6) 3 [inventory_item c].
Proof.
  eapply items_shape_eq; [unfold inventory_item, ids_item; items_shape|lia].
Qed.

Lemma signed_in_profile c d i s :
  items_shape c d [i] → d <= 7 → (N.of_nat c + 3 <= MAX_CANONICAL_ITEMS)%N →
  item_in_profile (signed_item i s).
Proof.
  intros Hi Hd Hc. eapply items_shape_in_profile.
  - eapply (items_shape_weaken _ _ _ 8), (items_shape_signed c d); [done|lia|done].
  - lia.
Qed.

Lemma signed_ack_in_profile c s :
  ordered_ids MAX_PARENTS c.(ack_parents) → item_in_profile (signed_item (ack_item c) s).
Proof.
  intros [Hl _]. eapply signed_in_profile; [apply ack_item_shape|lia|].
  unfold len, MAX_PARENTS, MAX_CANONICAL_ITEMS in *. lia.
Qed.

Lemma signed_inventory_in_profile c s :
  ordered_ids MAX_INVENTORY_EVENT_IDS c.(inv_event_ids) →
  item_in_profile (signed_item (inventory_item c) s).
Proof.
  intros [Hl _]. eapply signed_in_profile; [apply inventory_item_shape|lia|].
  unfold len, MAX_INVENTORY_EVENT_IDS, MAX_CANONICAL_ITEMS in *. lia.
Qed.

(** Two items of the profile with one encoding are one item. *)
Lemma in_profile_enc_inj i i' :
  item_in_profile i → item_in_profile i' → enc_item i = enc_item i' → i = i'.
Proof.
  intros Hi Hi' E. destruct (enc_item_inj i i' [] []); auto using in_profile_item_fits.
  by rewrite !app_nil_r.
Qed.

#[export] Instance arr_bytes_inj {n} : Inj (=) (=) (@arr_bytes n).
Proof. intros a b. apply arr_eq. Qed.

Lemma map_bytes_eq (l l' : list (arr 32)) :
  map (fun id : arr 32 => IBytes id) l = map (fun id : arr 32 => IBytes id) l' → l = l'.
Proof.
  revert l'. induction l as [|a l IH]; intros [|a' l'] E; try done.
  injection E as E1 E2. apply arr_eq in E1 as ->. f_equal. by apply IH.
Qed.

(** Reduces an equality of message items to the equality of their fields. *)
Ltac item_eq_inv E :=
  injection E; clear E; intros;
  repeat match goal with
  | H : arr_bytes _ = arr_bytes _ |- _ => apply arr_eq in H
  | H : map _ _ = map _ _ |- _ => apply map_bytes_eq in H
  end; subst.

#[export] Instance ack_item_inj : Inj (=) (=) ack_item.
Proof. intros [] [] E. unfold ack_item in E. cbn in E. by item_eq_inv E. Qed.

#[export] Instance inventory_item_inj : Inj (=) (=) inventory_item.
Proof. intros [] [] E. unfold inventory_item in E. cbn in E. by item_eq_inv E. Qed.

Lemma signed_item_eq i s i' s' : signed_item i s = signed_item i' s' → i = i' ∧ s = s'.
Proof. intros E. by item_eq_inv E. Qed.

(** A signed message of the profile determines its content and signature. *)
Lemma signed_enc_inj {A} (content : A → item) `{!Inj (=) (=) content} a s a' s' :
  item_in_profile (signed_item (content a) s) → item_in_profile (signed_item (content a') s') →
  enc_item (signed_item (content a) s) = enc_item (signed_item (content a') s') →
  a = a' ∧ s = s'.
Proof.
  intros H H' E. apply in_profile_enc_inj in E; auto.
  apply signed_item_eq in E as [E ->]. split; [by apply (inj content)|done].
Qed.

(** * Properties *)

(** C1: [validate_canonical_profile_v1] accepts a byte string exactly when it
    is the encoding of an item within the profile: nesting at most 8, at most
    8192 items, byte strings of at most 8 MiB, minimal heads, definite lengths
    and no trailing byte. *)
Theorem validator_accepts_exactly_profile bs :
  validate_canonical_profile_v1 bs = Ok tt ↔ ∃ i, item_in_profile i ∧ enc_item i = bs.
Proof.
  split; [apply validate_profile_sound|]. intros (i & Hi & <-). by apply validate_profile_complete.
Qed.

(** the accepted byte strings are prefix-free: two accepted strings at the
    front of one input are equal, and each is the encoding of one item only. *)
Theorem validator_prefix_free a b r r' :
  validate_canonical_profile_v1 a = Ok tt → validate_canonical_profile_v1 b = Ok tt →
  a ++ r = b ++ r' →
  a = b ∧ r = r' ∧ ∃ i, item_in_profile i ∧ enc_item i = a ∧
    ∀ i', item_in_profile i' → enc_item i' = a → i' = i.
Proof.
  intros (i & Hi & <-)%validate_profile_sound (j & Hj & <-)%validate_profile_sound E.
  apply enc_item_inj in E as [-> ->]; auto using in_profile_item_fits.
  do 2 (split; [done|]). exists j. do 2 (split; [done|]). intros i' Hi' E. by apply in_profile_enc_inj.
Qed.

Lemma validator_prefix_free_witness :
  let a := enc_item (IArray [IUnsigned (as_u64 300)]) in
  a = a ∧ [x01] = [x01] ∧ ∃ i, item_in_profile i ∧ enc_item i = a ∧
    ∀ i', item_in_profile i' → enc_item i' = a → i' = i.
Proof.
  apply (validator_prefix_free _ _ [x01] [x01]);
    [vm_compute; reflexivity|vm_compute; reflexivity|reflexivity].
Defined.

(** encoding a signed acknowledgement succeeds exactly when it has at most
    64 parents in strictly increasing order; the output is accepted by the
    profile validator and determines the content and the signature. *)
Theorem acknowledgement_encoding_correct c s :
  (is_ok (encode_signed_acknowledgement_event_v1 c s) = true ↔
    ordered_ids MAX_PARENTS c.(ack_parents)) ∧
  ∀ bs, encode_signed_acknowledgement_event_v1 c s = Ok bs →
    validate_canonical_profile_v1 bs = Ok tt ∧
    ∀ c' s', encode_signed_acknowledgement_event_v1 c' s' = Ok bs → c' = c ∧ s' = s.
Proof.
  split.
  - eapply is_ok_iff, encode_signed_ack_spec.
  - intros bs [Ho ->]%encode_signed_ack_spec. pose proof (signed_ack_in_profile c s Ho) as Hp.
    split; [by apply validate_profile_complete|]. intros c' s' [Ho' E]%encode_signed_ack_spec.
    symmetry in E. apply (signed_enc_inj ack_item) in E; auto using signed_ack_in_profile.
Qed.

(** encoding a signed inventory succeeds exactly when it lists at most
    4096 event identifiers in strictly increasing order; the output is
    accepted by the profile validator and determines content and signature. *)
Theorem sync_inventory_encoding_correct c s :
  (is_ok (encode_signed_sync_inventory_v1 c s) = true ↔
    ordered_ids MAX_INVENTORY_EVENT_IDS c.(inv_event_ids)) ∧
  ∀ bs, encode_signed_sync_inventory_v1 c s = Ok bs →
    validate_canonical_profile_v1 bs = Ok tt ∧
    ∀ c' s', encode_signed_sync_inventory_v1 c' s' = Ok bs → c' = c ∧ s' = s.
Proof.
  split.
  - eapply is_ok_iff, encode_signed_inventory_spec.
  - intros bs [Ho ->]%encode_signed_inventory_spec.
    pose proof (signed_inventory_in_profile c s Ho) as Hp.
    split; [by apply validate_profile_complete|]. intros c' s' [Ho' E]%encode_signed_inventory_spec.
    symmetry in E. apply (signed_enc_inj inventory_item) in E; auto using signed_inventory_in_profile.
Qed.
