(* ===== verification/Decoder.v ===== *)
(** The cursor decoders of the canonical formats.

    [AuthorityDecoder] and [AccountDecoder] of the source are structures of a
    byte slice and a cursor whose methods return a [Result]; [dec E A] is the
    state-and-error monad of such methods.

    [Reads p enc ok] is the interface between a decoding method [p] and its
    clients: on a canonical stream, [p] returns a value [a] with [ok a] exactly
    when the stream continues with [enc a], and leaves the cursor behind it.
    Each decoding function is proved to satisfy it from the instances of the
    functions it calls. *)

From stdpp Require Import base tactics list numbers strings.
From Stdlib Require Import Strings.Byte Sorting.Sorted.
From S2P Require Import Prelude CanonicalV1.

(** * Decoders *)

Record decoder := new_decoder {
  dec_bytes : bytes;
  dec_cursor : usize
}.

Abbreviation dec E A := (decoder → result E (A * decoder)).

Definition dret {E A} (a : A) : dec E A := fun d => Ok (a, d).

Definition dbind {E A B} (p : dec E A) (k : A → dec E B) : dec E B := fun d =>
  match p d with Ok (a, d) => k a d | Err e => Err e end.

(** A computation that does not touch the decoder. *)
Definition dlift {E A} (r : result E A) : dec E A := fun d => let? a := r in Ok (a, d).

(** [?] through a [From] conversion of the error. *)
Definition dmap_err {E F A} (f : E → F) (p : dec E A) : dec F A := fun d => map_err f (p d).

Notation "'let!' x ':=' p 'in' k" := (dbind p (fun x => k))
  (at level 10, x pattern, p at level 100, k at level 200,
   format "'let!'  x  ':='  p  'in' '//' k") : kg_scope.
Notation "p ;! k" := (dbind p (fun _ => k))
  (at level 100, k at level 200, right associativity, format "p  ;! '//' k") : kg_scope.

(** [for _ in 0..n { v.push(p?) }]. *)
Fixpoint dec_repeat {E A} (n : nat) (p : dec E A) : dec E (list A) :=
  match n with
  | O => dret []
  | S n => let! a := p in let! l := dec_repeat n p in dret (a :: l)
  end.

(** * Positions *)

Definition skip (d : decoder) (bs : bytes) : decoder :=
  new_decoder d.(dec_bytes) (d.(dec_cursor) + len bs).

(** The decoder stands in front of [rest]. *)
Definition at_dec (d : decoder) (rest : bytes) : Prop := at_pos d.(dec_bytes) d.(dec_cursor) rest.

(** The slice is no longer than the address space. *)
Definition dec_fits (d : decoder) : Prop := (len d.(dec_bytes) < U64_BOUND)%N.

(** The decoder stands in front of the items [l] and nothing else. *)
Definition at_items (d : decoder) (l : list item) : Prop :=
  dec_fits d ∧ at_dec d (enc_items l) ∧ Forall (fun i => item_fits i = true) l.

Class Reads {E A} (p : dec E A) (enc : A → bytes) (ok : A → Prop) : Prop := {
  reads_complete : ∀ d a rest,
    dec_fits d → ok a → at_dec d (enc a ++ rest) → p d = Ok (a, skip d (enc a));
  reads_sound : ∀ d l a d', at_items d l → p d = Ok (a, d') →
    ∃ l', ok a ∧ enc_items l = enc a ++ enc_items l' ∧ d' = skip d (enc a) ∧ at_items d' l'
}.
#[export] Hint Mode Reads + + + - - : typeclass_instances.

(** What the methods built on [head] need of it: it returns the argument of a
    head of the expected major type and rejects any other head and the end. *)
Class HeadReader {E} (head : N → string → dec E u64) : Prop := {
  head_complete : ∀ m field d a rest,
    (m < 8)%N → dec_fits d → at_dec d (head_bytes m a ++ rest) →
    head m field d = Ok (a, skip d (head_bytes m a));
  head_other : ∀ m m' field d a rest,
    (m' < 8)%N → m ≠ m' → dec_fits d → at_dec d (head_bytes m' a ++ rest) →
    is_ok (head m field d) = false;
  head_end : ∀ m field d, at_dec d [] → is_ok (head m field d) = false
}.

(** * Lemmas *)

Lemma skip_skip d a b : skip (skip d a) b = skip d (a ++ b).
Proof. unfold skip. cbn. by rewrite len_app, N.add_assoc. Qed.

Lemma skip_nil d : skip d [] = d.
Proof. destruct d. unfold skip. cbn. by rewrite N.add_0_r. Qed.

Lemma at_dec_skip d a rest : at_dec d (a ++ rest) → at_dec (skip d a) rest.
Proof. apply at_pos_app. Qed.

Lemma dec_fits_skip d a : dec_fits d → dec_fits (skip d a).
Proof. done. Qed.

Section binds.
Context {E A B : Type}.
Implicit Types (p : dec E A) (k : A → dec E B).

Lemma reads_bind_complete p enc ok `{!Reads p enc ok} k d a rest r :
  dec_fits d → at_dec d (enc a ++ rest) → ok a →
  (at_dec (skip d (enc a)) rest → k a (skip d (enc a)) = r) → dbind p k d = r.
Proof.
  intros Hf Hat Hok Hk. unfold dbind. rewrite (reads_complete d a rest) by done.
  by apply Hk, at_dec_skip.
Qed.

Lemma reads_bind_sound p enc ok `{!Reads p enc ok} k d l b d' :
  at_items d l → dbind p k d = Ok (b, d') →
  ∃ a l', ok a ∧ enc_items l = enc a ++ enc_items l' ∧ at_items (skip d (enc a)) l' ∧
    k a (skip d (enc a)) = Ok (b, d').
Proof.
  intros Hat H. unfold dbind in H. destruct (p d) as [[a d1]|e] eqn:Hp; [|done].
  destruct (reads_sound _ _ _ _ Hat Hp) as (l' & Hok & E1 & -> & Hat'). eauto 10.
Qed.

Lemma dlift_bind (r : result E A) k d :
  dbind (dlift r) k d = (let? a := r in k a d).
Proof. by destruct r. Qed.

End binds.

Lemma dret_inv {E A} (a b : A) d d' : dret (E:=E) a d = Ok (b, d') → b = a ∧ d' = d.
Proof. by intros [= -> ->]. Qed.

(** Runs the next read of a decoding function in front of its encoding. *)
Ltac read_step :=
  lazymatch goal with
  | Hat : at_dec ?d _ |- dbind (dlift _) _ ?d = _ => rewrite dlift_bind
  | Hat : at_dec ?d _ |- @dbind _ ?A _ ?p ?k ?d = _ =>
      lazymatch A with
      | unit => eapply (reads_bind_complete p _ _ k d tt)
      | _ => eapply (reads_bind_complete p _ _ k d)
      end;
        [eauto using dec_fits_skip|exact Hat|try exact I
        |clear Hat; intros Hat; cbv beta in Hat |- *]
  end.

(** Runs a validation that is known to succeed. *)
Ltac guard_ok H :=
  lazymatch goal with
  | |- rbind ?m _ = _ =>
      lazymatch type of H with
      | ?v = Ok _ => change m with v; rewrite H; cbn [rbind]
      end
  end.

(** The cursor behind a whole encoding, [shape] unfolding its item. *)
Ltac read_done shape :=
  unfold dret; rewrite ?skip_skip; do 3 f_equal; shape; push_norm; reflexivity.

(** Inverts the next read of a successful decoding function. *)
Ltac read_inv H :=
  lazymatch type of H with
  | dbind (dlift _) _ _ = Ok _ => rewrite dlift_bind in H
  | rbind _ _ = Ok _ => progress result_inv
  | dbind _ _ ?d = Ok _ =>
      lazymatch goal with
      | Hat : at_items d ?l |- _ =>
          let a := fresh "x" in let l' := fresh "l" in let Hok := fresh "Hok" in
          let He := fresh "He" in let Hat' := fresh "Hat" in
          eapply reads_bind_sound in H; [|typeclasses eauto|exact Hat];
          destruct H as (a & l' & Hok & He & Hat' & H); cbv beta in *; clear Hat
      end
  | dret _ _ = Ok _ => apply dret_inv in H as [-> ->]
  end.

(** Inverts a whole decoding function; the count read before a loop is the
    length of what the loop returned. *)
Ltac read_invs H :=
  repeat read_inv H;
  repeat match goal with
  | Hl : length ?l = N.to_nat ?n ∧ Forall _ ?l |- _ =>
      let HF := fresh "HF" in let E := fresh in
      destruct Hl as [Hl HF];
      assert (E : n = len l) by (unfold len; lia); subst n; clear Hl
  | u : unit |- _ => destruct u
  | Ht : True |- _ => clear Ht
  end.

(** The stream in front of a successful decoding function. *)
Ltac read_end shape :=
  repeat match goal with H : enc_items _ = _ ++ enc_items _ |- _ => rewrite H; clear H end;
  rewrite ?skip_skip in *; eexists; split; [|split; [|split]]; cycle 3;
  [eassumption| |shape; push_norm; reflexivity|shape; f_equal; push_norm; reflexivity].

(** * Instances for the methods of a decoder *)

Lemma at_items_cons d i l : at_items d (i :: l) →
  dec_fits d ∧ item_fits i = true ∧ at_dec d (enc_item i ++ enc_items l) ∧
  at_items (skip d (enc_item i)) l.
Proof.
  intros (Hf & Hat & HF). inversion_clear HF as [|?? Hi HF']. rewrite enc_items_cons in Hat.
  do 3 (split; [done|]). split; [done|]. split; [by apply at_dec_skip|done].
Qed.

(** A primitive of [canonical_v1] as a decoder method. *)
Definition of_cursor {E A} (wire : CanonicalWireError → E)
  (f : bytes → usize → result CanonicalWireError (A * usize)) : dec E A := fun d =>
  match f d.(dec_bytes) d.(dec_cursor) with
  | Ok (a, c) => Ok (a, new_decoder d.(dec_bytes) c)
  | Err e => Err (wire e)
  end.

(** A [head] built from a byte, a check of the major type and an argument
    that agrees with [read_argument] on minimal arguments. *)
Lemma make_head_reader {E} wire (read_byte : dec E byte) (argument : N → dec E u64) head
    (wrong : string → N → N → E) :
  (∀ d, read_byte d = of_cursor wire take_byte d) →
  (∀ additional d a c, read_argument d.(dec_bytes) d.(dec_cursor) additional = Ok (a, c) →
    argument additional d = Ok (a, new_decoder d.(dec_bytes) c)) →
  (∀ m field d, head m field d =
    (let! initial := read_byte in
     dlift (fail_if (negb (N.shiftr (byte_val initial) 5 =? m)%N)
       (wrong field m (N.shiftr (byte_val initial) 5))) ;!
     argument (N.land (byte_val initial) 31)) d) →
  HeadReader head.
Proof.
  intros Hbyte Harg Hhead. split.
  - intros m field d a rest Hm Hf Hat.
    destruct (head_bytes_at _ _ _ _ _ Hm Hf Hat) as (b & Hb & Hbm & Hadd & _ & Hr & _).
    rewrite Hhead. unfold dbind. rewrite Hbyte. unfold of_cursor. rewrite Hb, Hbm, N.eqb_refl.
    cbn [negb fail_if dlift rbind]. rewrite Hadd. by erewrite Harg by exact Hr.
  - intros m m' field d a rest Hm Hne Hf Hat.
    destruct (head_bytes_at _ _ _ _ _ Hm Hf Hat) as (b & Hb & Hbm & _).
    rewrite Hhead. unfold dbind. rewrite Hbyte. unfold of_cursor. rewrite Hb, Hbm.
    by destruct (N.eqb_spec m' m); [congruence|].
  - intros m field d Hat. rewrite Hhead. unfold dbind. rewrite Hbyte.
    unfold of_cursor, take_byte. destruct (slice_get _ _) eqn:E'; [|done].
    destruct (slice_get_inv _ _ _ _ Hat E') as [? ?]. done.
Qed.

Section methods.
Context {E : Type} (head : N → string → dec E u64) `{!HeadReader head}.

(** The major type and the argument at the front of an item. *)
Definition item_major (i : item) : N :=
  match i with IUnsigned _ => 0 | IBytes _ => 2 | IArray _ => 4 end.
Definition item_argument (i : item) : u64 :=
  match i with
  | IUnsigned v => v
  | IBytes b => as_u64 (len b)
  | IArray l => as_u64 (len l)
  end.
Definition item_body (i : item) : bytes :=
  match i with IUnsigned _ => [] | IBytes b => b | IArray l => enc_items l end.

Lemma enc_item_split i : enc_item i = head_bytes (item_major i) (item_argument i) ++ item_body i.
Proof. destruct i; cbn; by rewrite ?app_nil_r. Qed.

(** A head read from a canonical stream is the head of its first item. *)
Lemma head_sound m field d l a d' :
  at_items d l → head m field d = Ok (a, d') →
  ∃ i l', l = i :: l' ∧ item_major i = m ∧ item_argument i = a ∧ d' = skip d (head_bytes m a) ∧
    item_fits i = true ∧ at_dec d' (item_body i ++ enc_items l').
Proof.
  intros (Hf & Hat & HF) H. destruct l as [|i l].
  { pose proof (head_end m field d Hat) as He. by rewrite H in He. }
  inversion_clear HF as [|?? Hi _]. rewrite enc_items_cons, enc_item_split, <-app_assoc in Hat.
  assert (Hm : (item_major i < 8)%N) by (destruct i; cbn; lia).
  destruct (decide (m = item_major i)) as [->|Hne].
  - rewrite (head_complete _ _ _ _ _ Hm Hf Hat) in H. injection H as <- <-.
    exists i, l. repeat split; auto. by apply at_dec_skip.
  - pose proof (head_other _ _ field _ _ _ Hm Hne Hf Hat) as He. by rewrite H in He.
Qed.

Lemma reads_unsigned field :
  Reads (head 0 field) (fun v => enc_item (IUnsigned v)) (fun _ => True).
Proof.
  split.
  - intros d v rest Hf _ Hat. by apply (head_complete _ _ _ _ rest).
  - intros d l v d' Hat H. destruct (head_sound _ _ _ _ _ _ Hat H)
      as ([w|b|es] & l' & -> & Hm & Ha & -> & Hi & Hat'); try done. cbn in Ha. subst w.
    apply at_items_cons in Hat as (Hf & _ & _ & Hat). by exists l'.
Qed.

(** [array]: the count of an array header, whose elements follow in the
    stream. *)
Lemma reads_array (p : dec E usize) field :
  (∀ d, p d = match head 4 field d with Ok (a, d) => Ok (uint_val a, d) | Err e => Err e end) →
  Reads p (fun n => head_bytes 4 (as_u64 n)) (fun n => (n < U64_BOUND)%N).
Proof.
  intros Hp. split.
  - intros d n rest Hf Hn Hat. rewrite Hp, (head_complete _ _ _ _ rest) by done.
    by rewrite as_u64_small.
  - intros d l n d' Hat H. rewrite Hp in H.
    destruct (head 4 field d) as [[a d1]|e] eqn:Hh; [|done]. injection H as <- <-.
    destruct (head_sound _ _ _ _ _ _ Hat Hh)
      as ([w|b|es] & l' & -> & Hm & <- & -> & Hi & Hat'); try done.
    cbn [item_argument item_body] in *. apply item_fits_array in Hi as [Hlen Hes].
    exists (es ++ l'). rewrite as_u64_len by done. split; [done|].
    rewrite enc_items_cons, enc_items_app, enc_item_array, <-app_assoc.
    split; [done|]. split; [done|]. destruct Hat as (Hf & _ & HF). inversion_clear HF.
    split; [done|]. rewrite enc_items_app. split; [done|]. by apply Forall_app.
Qed.

(** [bytes]: a byte string of any length. *)
Lemma reads_bytes (p : dec E bytes) field :
  (∀ d a rest, dec_fits d → at_dec d (head_bytes 2 (as_u64 (len a)) ++ a ++ rest) →
    (len a < U64_BOUND)%N → p d = Ok (a, skip d (enc_item (IBytes a)))) →
  (∀ d, is_ok (p d) = true → is_ok (head 2 field d) = true) →
  Reads p (fun b => enc_item (IBytes b)) (fun b => (len b < U64_BOUND)%N).
Proof.
  intros Hc Hs. split.
  - intros d a rest Hf Ha Hat. apply (Hc d a rest); auto.
    cbn [enc_item] in Hat. by rewrite <-app_assoc in Hat.
  - intros d l a d' Hat H. specialize (Hs d). rewrite H in Hs.
    destruct (head 2 field d) as [[v d1]|e] eqn:Hh; [|by specialize (Hs eq_refl)].
    destruct (head_sound _ _ _ _ _ _ Hat Hh)
      as ([w|b|es] & l' & -> & Hm & <- & -> & Hi & Hat'); try done.
    apply at_items_cons in Hat as (Hf & _ & Hat1 & Hat2). cbn [item_fits] in Hi.
    apply N.ltb_lt in Hi. cbn [enc_item] in Hat1. rewrite <-app_assoc in Hat1.
    rewrite (Hc d b _ Hf Hat1 Hi) in H. injection H as <- <-. by exists l'.
Qed.

(** [fixed_bytes::<n>]: a byte string of exactly [n] bytes. *)
Lemma reads_fixed {n} (p : dec E (arr n)) field :
  n <= 64 →
  (∀ d b rest, dec_fits d → at_dec d (head_bytes 2 (as_u64 (len b)) ++ b ++ rest) →
    (len b < U64_BOUND)%N →
    match arr_try_from n b with
    | Some a => p d = Ok (a, skip d (enc_item (IBytes b)))
    | None => is_ok (p d) = false
    end) →
  (∀ d, is_ok (p d) = true → is_ok (head 2 field d) = true) →
  Reads p (fun b => enc_item (IBytes b)) (fun _ => True).
Proof.
  intros Hn Hc Hs. split.
  - intros d a rest Hf _ Hat. cbn [enc_item] in Hat. rewrite <-app_assoc in Hat.
    specialize (Hc d a rest Hf Hat). rewrite arr_try_from_bytes in Hc. apply Hc.
    unfold len. rewrite arr_length. lia.
  - intros d l a d' Hat H. specialize (Hs d). rewrite H in Hs.
    destruct (head 2 field d) as [[v d1]|e] eqn:Hh; [|by specialize (Hs eq_refl)].
    destruct (head_sound _ _ _ _ _ _ Hat Hh)
      as ([w|b|es] & l' & -> & Hm & <- & -> & Hi & Hat'); try done.
    apply at_items_cons in Hat as (Hf & _ & Hat1 & Hat2). cbn [item_fits] in Hi.
    apply N.ltb_lt in Hi. cbn [enc_item] in Hat1. rewrite <-app_assoc in Hat1.
    specialize (Hc d b _ Hf Hat1 Hi). destruct (arr_try_from n b) as [a'|] eqn:Ha;
      [|by rewrite H in Hc]. rewrite H in Hc. injection Hc as <- ->.
    apply arr_try_from_Some in Ha as <-. by exists l'.
Qed.

End methods.

(** * Combinators *)

(** A read value compared with an expected one. *)
Lemma reads_expect {E A} (p : dec E A) enc ok `{!Reads p enc ok} (q : dec E unit) (x : A)
    (check : A → result E unit) :
  (∀ a, check a = Ok tt ↔ a = x) → ok x → (∀ d, q d = dbind p (fun a => dlift (check a)) d) →
  Reads q (fun _ => enc x) (fun _ => True).
Proof.
  intros Hc Hx Hq. split.
  - intros d [] rest Hf _ Hat. rewrite Hq. read_step; [done|]. unfold dlift.
    by rewrite (proj2 (Hc x) eq_refl).
  - intros d l [] d' Hat H. rewrite Hq in H. read_inv H.
    unfold dlift in H. result_inv. apply Hc in E0 as ->. by exists l0.
Qed.

(** A read value converted by a fallible function with inverse [g]. *)
Lemma reads_map {E A B} (p : dec E A) enc ok `{!Reads p enc ok} (q : dec E B)
    (f : A → result E B) (g : B → A) (okb : B → Prop) :
  (∀ a b, ok a → f a = Ok b ↔ a = g b ∧ okb b) → (∀ b, okb b → ok (g b)) →
  (∀ d, q d = dbind p (fun a => dlift (f a)) d) →
  Reads q (fun b => enc (g b)) okb.
Proof.
  intros Hfg Hok Hq. split.
  - intros d b rest Hf Hb Hat. rewrite Hq. read_step; [by apply Hok|].
    unfold dlift. by rewrite (proj2 (Hfg _ b (Hok _ Hb))).
  - intros d l b d' Hat H. rewrite Hq in H. read_inv H.
    unfold dlift in H. result_inv. apply Hfg in E0 as [-> Hb]; [|done]. by exists l0.
Qed.

#[export] Instance reads_repeat {E A} (p : dec E A) enc ok `{!Reads p enc ok} n :
  Reads (dec_repeat n p) (fun l => concat (map enc l)) (fun l => length l = n ∧ Forall ok l).
Proof.
  induction n as [|n IH]; cbn [dec_repeat].
  - split.
    + intros d l rest Hf [Hl%length_zero_iff_nil _] Hat. subst. cbn. by rewrite skip_nil.
    + intros d l a d' Hat H. read_inv H. exists l. cbn. by rewrite skip_nil.
  - split.
    + intros d [|a l] rest Hf [Hl Hall] Hat; [done|]. inversion_clear Hall as [|?? Ha Hall'].
      cbn [map concat length] in *. rewrite <-app_assoc in Hat. injection Hl as Hl.
      read_step; [done|]. read_step; [done|]. unfold dret. by rewrite skip_skip.
    + intros d l a d' Hat H. do 3 read_inv H.
      destruct Hok0 as [Hl Hall]. exists l1. cbn [map concat length].
      rewrite skip_skip in *. rewrite He, He0, <-app_assoc, Hl. auto 10.
Qed.

#[export] Instance reads_map_err {E F A} (f : E → F) (p : dec E A) enc ok `{!Reads p enc ok} :
  Reads (dmap_err f p) enc ok.
Proof.
  split.
  - intros d a rest Hf Hok Hat. unfold dmap_err. by rewrite (reads_complete d a rest).
  - intros d l a d' Hat H. unfold dmap_err in H. apply map_err_ok in H.
    exact (reads_sound (p:=p) d l a d' Hat H).
Qed.

(** What a decoding function reads determines the value. *)
Lemma reads_inj {E A} (p : dec E A) enc ok `{!Reads p enc ok} a b :
  ok a → ok b → (len (enc a) < U64_BOUND)%N → enc a = enc b → a = b.
Proof.
  intros Ha Hb Hl Eab.
  pose proof (reads_complete (p:=p) (new_decoder (enc a) 0) a [] Hl Ha) as H1.
  pose proof (reads_complete (p:=p) (new_decoder (enc a) 0) b [] Hl Hb) as H2.
  rewrite <-Eab, app_nil_r in H2. rewrite app_nil_r in H1.
  specialize (H1 (at_pos_start _)). specialize (H2 (at_pos_start _)). congruence.
Qed.

(** * Whole messages *)

(** [validate_canonical_profile_v1(bytes)?], a decoding function from the
    start of the slice, and [finish]. *)
Section message.
Context {E A : Type} (wire : CanonicalWireError → E) (p : dec E A).
Context (message : A → item) (ok : A → Prop) `{!Reads p (fun a => enc_item (message a)) ok}.

Definition decode_message (bs : bytes) : result E A :=
  let? _ := map_err wire (validate_canonical_profile_v1 bs) in
  let? (a, d) := p (new_decoder bs 0) in
  (if (d.(dec_cursor) =? len d.(dec_bytes))%N then Ok tt else Err (wire TrailingData)) ;?
  Ok a.

Lemma decode_message_spec bs a :
  decode_message bs = Ok a ↔
  ok a ∧ bs = enc_item (message a) ∧ validate_canonical_profile_v1 bs = Ok tt.
Proof.
  unfold decode_message. split.
  - intros H. result_inv.
    destruct (N.eqb_spec (dec_cursor d) (len (dec_bytes d))) as [G|]; [|done].
    pose proof E0 as (i & Hi & <-)%validate_profile_sound.
    assert (Hat : at_items (new_decoder (enc_item i) 0) [i]).
    { split; [by apply in_profile_fits|].
      split; [|by repeat constructor; apply in_profile_item_fits].
      unfold enc_items. cbn. rewrite app_nil_r. apply at_pos_start. }
    destruct (reads_sound _ _ _ _ Hat E1) as (l' & Hok & He & -> & Hat').
    destruct Hat' as (_ & Hat' & _).
    apply (at_pos_end _ _ _ Hat') in G. rewrite G, app_nil_r in He.
    rewrite enc_items_cons, app_nil_r in He. auto.
  - intros (Hok & -> & Hv). rewrite Hv. cbn [map_err rbind].
    pose proof Hv as (i & Hi & E0)%validate_profile_sound.
    rewrite (reads_complete _ a []); auto.
    + cbn. by rewrite N.eqb_refl.
    + unfold dec_fits. cbn [dec_bytes]. rewrite <-E0. by apply in_profile_fits.
    + rewrite app_nil_r. apply at_pos_start.
Qed.

(** When every decodable value is within the profile, decoding inverts
    encoding. *)
Lemma decode_message_iff bs a :
  (∀ a, ok a → item_in_profile (message a)) →
  decode_message bs = Ok a ↔ ok a ∧ bs = enc_item (message a).
Proof.
  intros Hp. rewrite decode_message_spec. split; [by intuition|].
  intros [Hok ->]. auto using validate_profile_complete.
Qed.

End message.
