(* ===== verification/AuthorityV1.v ===== *)
(** Account authority of
    [crates/kilogram-protocol/src/canonical_authority_v1.rs]: device
    certificates, device revocations, authority snapshots and device session
    authorizations, with their encoders, strict decoders and verifiers.

    Each message has an abstract item ([certificate_item], ...) and a validity
    predicate ([certificate_ok], ...); the decoders are shown to return a
    message exactly on the encoding of its item when the message is valid. *)

From stdpp Require Import base tactics list numbers strings.
From Stdlib Require Import Strings.Byte Sorting.Sorted.
From S2P Require Import Prelude Crypto CanonicalV1 Decoder.

Definition MAX_CANONICAL_DEVICE_CAPABILITIES : usize := 2.
Definition MAX_CANONICAL_AUTHORITY_REVOCATIONS : usize := 32.

Definition CANONICAL_DEVICE_CERTIFICATE_SIGNATURE_DOMAIN : bytes :=
  b_str "kilogram:device-certificate-signature:cbor-v1" ++ [x00].
Definition CANONICAL_DEVICE_REVOCATION_SIGNATURE_DOMAIN : bytes :=
  b_str "kilogram:device-revocation-signature:cbor-v1" ++ [x00].
Definition CANONICAL_AUTHORITY_SNAPSHOT_SIGNATURE_DOMAIN : bytes :=
  b_str "kilogram:account-authority-snapshot-signature:cbor-v1" ++ [x00].
Definition CANONICAL_DEVICE_SESSION_AUTHORIZATION_SIGNATURE_DOMAIN : bytes :=
  b_str "kilogram:device-session-authorization-signature:cbor-v1" ++ [x00].

(** * Data *)

#[local] Set Primitive Projections.

Inductive CanonicalDeviceCapabilityV1 := SignEvents | SyncHistory.

Record CanonicalDeviceCertificateContentV1 := {
  cert_account_id : arr 32;
  cert_device_id : arr 32;
  cert_encryption_public_key : arr 32;
  cert_authority_sequence : u64;
  cert_capabilities : list CanonicalDeviceCapabilityV1
}.

Record CanonicalSignedDeviceCertificateV1 := {
  cert_content : CanonicalDeviceCertificateContentV1;
  cert_signature : arr 64
}.

Record CanonicalDeviceRevocationContentV1 := {
  rev_account_id : arr 32;
  rev_device_id : arr 32;
  rev_authority_sequence : u64
}.

Record CanonicalSignedDeviceRevocationV1 := {
  rev_content : CanonicalDeviceRevocationContentV1;
  rev_signature : arr 64
}.

Record CanonicalAccountAuthoritySnapshotContentV1 := {
  snap_account_id : arr 32;
  snap_revision : u64;
  snap_revocations : list CanonicalSignedDeviceRevocationV1
}.

Record CanonicalSignedAccountAuthoritySnapshotV1 := {
  snap_content : CanonicalAccountAuthoritySnapshotContentV1;
  snap_signature : arr 64
}.

Record CanonicalDeviceSessionAuthorizationContentV1 := {
  auth_session_binding : arr 32;
  auth_certificate : CanonicalSignedDeviceCertificateV1;
  auth_authority_snapshot : CanonicalSignedAccountAuthoritySnapshotV1
}.

Record CanonicalSignedDeviceSessionAuthorizationV1 := {
  auth_content : CanonicalDeviceSessionAuthorizationContentV1;
  auth_signature : arr 64
}.

Inductive CanonicalAuthorityError :=
| AuthorityWire (error : CanonicalWireError)
| AuthorityWrongArrayLength (object : string) (expected actual : usize)
| AuthorityWrongMajorType (field : string) (expected actual : N)
| AuthorityWrongByteStringLength (field : string) (expected actual : usize)
| AuthorityWrongUnsignedValue (field : string) (expected actual : u64)
| UnknownCapability (value : u64)
| EmptyCapabilities
| NonCanonicalCapabilities
| NonCanonicalRevocations
| AuthorityAccountMismatch (context : string)
| AuthorityCertificateOutsideSnapshot (certificate_sequence snapshot_revision : u64)
| RevocationOutsideSnapshot (revocation_sequence snapshot_revision : u64)
| SessionDeviceRevoked
| AuthorityInvalidPublicKey (object : string)
| AuthorityInvalidSignature (object : string).

Definition code (capability : CanonicalDeviceCapabilityV1) : u64 :=
  match capability with SignEvents => as_u64 1 | SyncHistory => as_u64 2 end.

Definition from_code (code : u64) : result CanonicalAuthorityError CanonicalDeviceCapabilityV1 :=
  match uint_val code with
  | 1%N => Ok SignEvents
  | 2%N => Ok SyncHistory
  | _ => Err (UnknownCapability code)
  end.

#[export] Instance capability_eq_dec : EqDecision CanonicalDeviceCapabilityV1.
Proof. solve_decision. Defined.

(** The derived order: by discriminant. *)
#[export] Instance capability_ord : Ord CanonicalDeviceCapabilityV1.
Proof.
  refine {| cmp := fun a b => (code a ?= code b)%N |}.
  - intros [] []; by vm_compute.
  - intros [] []; by vm_compute.
  - intros [] [] []; by vm_compute.
Defined.

(** * The decoder *)

Module AuthorityDecoder.

Definition new (bs : bytes) : decoder := new_decoder bs 0.

Definition finish (self : decoder) : result CanonicalAuthorityError unit :=
  if (self.(dec_cursor) =? len self.(dec_bytes))%N then Ok tt
  else Err (AuthorityWire TrailingData).

Definition byte : dec CanonicalAuthorityError byte := fun self =>
  let? value := ok_or (slice_get self.(dec_bytes) self.(dec_cursor)) (AuthorityWire UnexpectedEnd) in
  Ok (value, new_decoder self.(dec_bytes) (self.(dec_cursor) + 1)).

Definition bytes_array (n : nat) : dec CanonicalAuthorityError (arr n) := fun self =>
  let? end_ := ok_or (usize_checked_add self.(dec_cursor) (N.of_nat n))
                 (AuthorityWire LengthOverflow) in
  let? value := ok_or (slice_range self.(dec_bytes) self.(dec_cursor) end_)
                  (AuthorityWire UnexpectedEnd) in
  let? value := ok_or (arr_try_from n value) (AuthorityWire UnexpectedEnd) in
  Ok (value, new_decoder self.(dec_bytes) end_).

Definition argument (additional : N) : dec CanonicalAuthorityError u64 :=
  if (additional <=? 23)%N then dret (as_u64 additional)
  else if (additional =? 24)%N then
    let! b := byte in
    let value := as_u64 (byte_val b) in
    dlift (fail_if (value <? 24)%N (AuthorityWire NonMinimalArgument)) ;!
    dret value
  else if (additional =? 25)%N then
    let! a := bytes_array 2 in
    let value := as_u64 (from_be_bytes a) in
    dlift (fail_if (value <=? 255)%N (AuthorityWire NonMinimalArgument)) ;!
    dret value
  else if (additional =? 26)%N then
    let! a := bytes_array 4 in
    let value := as_u64 (from_be_bytes a) in
    dlift (fail_if (value <=? 65535)%N (AuthorityWire NonMinimalArgument)) ;!
    dret value
  else if (additional =? 27)%N then
    let! a := bytes_array 8 in
    let value := as_u64 (from_be_bytes a) in
    dlift (fail_if (value <=? 4294967295)%N (AuthorityWire NonMinimalArgument)) ;!
    dret value
  else if (additional =? 31)%N then dlift (Err (AuthorityWire IndefiniteLength))
  else dlift (Err (AuthorityWire (ReservedAdditionalInformation additional))).

Definition head (expected_major : N) (field : string) : dec CanonicalAuthorityError u64 :=
  let! initial := byte in
  let actual_major := N.shiftr (byte_val initial) 5 in
  dlift (fail_if (negb (actual_major =? expected_major)%N)
    (AuthorityWrongMajorType field expected_major actual_major)) ;!
  argument (N.land (byte_val initial) 31).

Definition array (field : string) : dec CanonicalAuthorityError usize :=
  let! length := head 4 field in
  dlift (ok_or (usize_try_from length) (AuthorityWire LengthOverflow)).

Definition unsigned (field : string) : dec CanonicalAuthorityError u64 := head 0 field.

Definition expect_array (object : string) (expected : usize) : dec CanonicalAuthorityError unit :=
  let! actual := array object in
  dlift (fail_if (negb (actual =? expected)%N) (AuthorityWrongArrayLength object expected actual)).

Definition expect_version (field : string) : dec CanonicalAuthorityError unit :=
  let! actual := unsigned field in
  dlift (fail_if (negb (u64_eqb actual CANONICAL_PROFILE_VERSION))
    (AuthorityWrongUnsignedValue field CANONICAL_PROFILE_VERSION actual)).

Definition fixed_bytes (n : nat) (field : string) : dec CanonicalAuthorityError (arr n) :=
  let! length := head 2 field in
  let! length := dlift (ok_or (usize_try_from length) (AuthorityWire LengthOverflow)) in
  dlift (fail_if (negb (length =? N.of_nat n)%N)
    (AuthorityWrongByteStringLength field (N.of_nat n) length)) ;!
  bytes_array n.

End AuthorityDecoder.

(** * Validation *)

Definition validate_certificate_content (content : CanonicalDeviceCertificateContentV1)
  : result CanonicalAuthorityError unit :=
  fail_if (len content.(cert_capabilities) =? 0)%N EmptyCapabilities ;?
  fail_if (MAX_CANONICAL_DEVICE_CAPABILITIES <? len content.(cert_capabilities))%N
    (AuthorityWire (TooManyItems "capabilities" (len content.(cert_capabilities))
      MAX_CANONICAL_DEVICE_CAPABILITIES)) ;?
  fail_if (windows2_any ord_geb content.(cert_capabilities)) NonCanonicalCapabilities.

Definition validate_snapshot_content (content : CanonicalAccountAuthoritySnapshotContentV1)
  : result CanonicalAuthorityError unit :=
  fail_if (MAX_CANONICAL_AUTHORITY_REVOCATIONS <? len content.(snap_revocations))%N
    (AuthorityWire (TooManyItems "revocations" (len content.(snap_revocations))
      MAX_CANONICAL_AUTHORITY_REVOCATIONS)) ;?
  try_for (fun revocation =>
    fail_if (negb (bool_decide (revocation.(rev_content).(rev_account_id)
                                = content.(snap_account_id))))
      (AuthorityAccountMismatch "authority snapshot revocation") ;?
    fail_if (content.(snap_revision) <=? revocation.(rev_content).(rev_authority_sequence))%N
      (RevocationOutsideSnapshot revocation.(rev_content).(rev_authority_sequence)
        content.(snap_revision)))
    content.(snap_revocations) ;?
  fail_if (windows2_any (fun a b =>
      ord_geb a.(rev_content).(rev_device_id) b.(rev_content).(rev_device_id))
    content.(snap_revocations)) NonCanonicalRevocations.

Definition validate_session_content (content : CanonicalDeviceSessionAuthorizationContentV1)
  : result CanonicalAuthorityError unit :=
  let certificate := content.(auth_certificate).(cert_content) in
  let snapshot := content.(auth_authority_snapshot).(snap_content) in
  validate_certificate_content certificate ;?
  validate_snapshot_content snapshot ;?
  fail_if (negb (bool_decide (certificate.(cert_account_id) = snapshot.(snap_account_id))))
    (AuthorityAccountMismatch "session certificate and authority snapshot") ;?
  fail_if (snapshot.(snap_revision) <=? certificate.(cert_authority_sequence))%N
    (AuthorityCertificateOutsideSnapshot certificate.(cert_authority_sequence)
      snapshot.(snap_revision)) ;?
  fail_if (existsb (fun revocation =>
      bool_decide (revocation.(rev_content).(rev_device_id) = certificate.(cert_device_id)))
    snapshot.(snap_revocations)) SessionDeviceRevoked.

(** * Encoding and verification *)

Section messages.
Context `{Ed25519}.

Definition verify_ed25519 (verifying_key : arr 32) (message : bytes) (signature : arr 64)
  (object : string) : result CanonicalAuthorityError unit :=
  fail_if (negb (verifying_key_ok verifying_key)) (AuthorityInvalidPublicKey object) ;?
  fail_if (negb (signature_ok signature)) (AuthorityInvalidSignature object) ;?
  fail_if (negb (verify_strict verifying_key message signature)) (AuthorityInvalidSignature object).

(** [for capability in ... { push_unsigned(&mut encoded, capability.code()) }]. *)
Definition push_codes (capabilities : list CanonicalDeviceCapabilityV1) (output : bytes) : bytes :=
  fold_left (fun output capability => push_unsigned (code capability) output) capabilities output.

Definition encode_device_certificate_content_v1 (content : CanonicalDeviceCertificateContentV1)
  : result CanonicalAuthorityError bytes :=
  validate_certificate_content content ;?
  Ok ([]
    |> push_array_header (as_u64 6)
    |> push_unsigned CANONICAL_PROFILE_VERSION
    |> push_bytes content.(cert_account_id)
    |> push_bytes content.(cert_device_id)
    |> push_bytes content.(cert_encryption_public_key)
    |> push_unsigned content.(cert_authority_sequence)
    |> push_array_header (as_u64 (len content.(cert_capabilities)))
    |> push_codes content.(cert_capabilities)).

Definition device_certificate_signing_bytes_v1 (content : CanonicalDeviceCertificateContentV1)
  : result CanonicalAuthorityError bytes :=
  let? encoded := encode_device_certificate_content_v1 content in
  Ok (prefixed CANONICAL_DEVICE_CERTIFICATE_SIGNATURE_DOMAIN encoded).

Definition verify_signed_device_certificate_v1 (certificate : CanonicalSignedDeviceCertificateV1)
  : result CanonicalAuthorityError unit :=
  let? message := device_certificate_signing_bytes_v1 certificate.(cert_content) in
  verify_ed25519 certificate.(cert_content).(cert_account_id) message
    certificate.(cert_signature) "signed-device-certificate-v1".

Definition encode_signed_device_certificate_unverified
  (certificate : CanonicalSignedDeviceCertificateV1) : result CanonicalAuthorityError bytes :=
  let? content := encode_device_certificate_content_v1 certificate.(cert_content) in
  Ok ([]
    |> push_array_header (as_u64 3)
    |> push_unsigned CANONICAL_PROFILE_VERSION
    |> extend_from_slice content
    |> push_bytes certificate.(cert_signature)).

Definition encode_signed_device_certificate_v1 (certificate : CanonicalSignedDeviceCertificateV1)
  : result CanonicalAuthorityError bytes :=
  verify_signed_device_certificate_v1 certificate ;?
  encode_signed_device_certificate_unverified certificate.

Definition encode_device_revocation_content_v1 (content : CanonicalDeviceRevocationContentV1)
  : bytes :=
  [] |> push_array_header (as_u64 4)
     |> push_unsigned CANONICAL_PROFILE_VERSION
     |> push_bytes content.(rev_account_id)
     |> push_bytes content.(rev_device_id)
     |> push_unsigned content.(rev_authority_sequence).

Definition device_revocation_signing_bytes_v1 (content : CanonicalDeviceRevocationContentV1)
  : bytes :=
  prefixed CANONICAL_DEVICE_REVOCATION_SIGNATURE_DOMAIN
    (encode_device_revocation_content_v1 content).

Definition verify_signed_device_revocation_v1 (revocation : CanonicalSignedDeviceRevocationV1)
  : result CanonicalAuthorityError unit :=
  verify_ed25519 revocation.(rev_content).(rev_account_id)
    (device_revocation_signing_bytes_v1 revocation.(rev_content))
    revocation.(rev_signature) "signed-device-revocation-v1".

Definition encode_signed_device_revocation_unverified
  (revocation : CanonicalSignedDeviceRevocationV1) : bytes :=
  [] |> push_array_header (as_u64 3)
     |> push_unsigned CANONICAL_PROFILE_VERSION
     |> extend_from_slice (encode_device_revocation_content_v1 revocation.(rev_content))
     |> push_bytes revocation.(rev_signature).

Definition encode_signed_device_revocation_v1 (revocation : CanonicalSignedDeviceRevocationV1)
  : result CanonicalAuthorityError bytes :=
  verify_signed_device_revocation_v1 revocation ;?
  Ok (encode_signed_device_revocation_unverified revocation).

Definition encode_account_authority_snapshot_content_v1
  (content : CanonicalAccountAuthoritySnapshotContentV1) : result CanonicalAuthorityError bytes :=
  validate_snapshot_content content ;?
  try_fold (fun revocation encoded =>
      let? revocation := encode_signed_device_revocation_v1 revocation in
      Ok (extend_from_slice revocation encoded))
    content.(snap_revocations)
    ([]
      |> push_array_header (as_u64 4)
      |> push_unsigned CANONICAL_PROFILE_VERSION
      |> push_bytes content.(snap_account_id)
      |> push_unsigned content.(snap_revision)
      |> push_array_header (as_u64 (len content.(snap_revocations)))).

Definition account_authority_snapshot_signing_bytes_v1
  (content : CanonicalAccountAuthoritySnapshotContentV1) : result CanonicalAuthorityError bytes :=
  let? encoded := encode_account_authority_snapshot_content_v1 content in
  Ok (prefixed CANONICAL_AUTHORITY_SNAPSHOT_SIGNATURE_DOMAIN encoded).

Definition verify_signed_account_authority_snapshot_v1
  (snapshot : CanonicalSignedAccountAuthoritySnapshotV1) : result CanonicalAuthorityError unit :=
  validate_snapshot_content snapshot.(snap_content) ;?
  try_for verify_signed_device_revocation_v1 snapshot.(snap_content).(snap_revocations) ;?
  let? message := account_authority_snapshot_signing_bytes_v1 snapshot.(snap_content) in
  verify_ed25519 snapshot.(snap_content).(snap_account_id) message
    snapshot.(snap_signature) "signed-account-authority-snapshot-v1".

Definition encode_signed_account_authority_snapshot_unverified
  (snapshot : CanonicalSignedAccountAuthoritySnapshotV1) : result CanonicalAuthorityError bytes :=
  let? content := encode_account_authority_snapshot_content_v1 snapshot.(snap_content) in
  Ok ([]
    |> push_array_header (as_u64 3)
    |> push_unsigned CANONICAL_PROFILE_VERSION
    |> extend_from_slice content
    |> push_bytes snapshot.(snap_signature)).

Definition encode_signed_account_authority_snapshot_v1
  (snapshot : CanonicalSignedAccountAuthoritySnapshotV1) : result CanonicalAuthorityError bytes :=
  verify_signed_account_authority_snapshot_v1 snapshot ;?
  encode_signed_account_authority_snapshot_unverified snapshot.

Definition encode_device_session_authorization_content_v1
  (content : CanonicalDeviceSessionAuthorizationContentV1) : result CanonicalAuthorityError bytes :=
  validate_session_content content ;?
  let? certificate := encode_signed_device_certificate_v1 content.(auth_certificate) in
  let? snapshot := encode_signed_account_authority_snapshot_v1
                     content.(auth_authority_snapshot) in
  Ok ([]
    |> push_array_header (as_u64 4)
    |> push_unsigned CANONICAL_PROFILE_VERSION
    |> push_bytes content.(auth_session_binding)
    |> extend_from_slice certificate
    |> extend_from_slice snapshot).

Definition device_session_authorization_signing_bytes_v1
  (content : CanonicalDeviceSessionAuthorizationContentV1) : result CanonicalAuthorityError bytes :=
  let? encoded := encode_device_session_authorization_content_v1 content in
  Ok (prefixed CANONICAL_DEVICE_SESSION_AUTHORIZATION_SIGNATURE_DOMAIN encoded).

Definition verify_signed_device_session_authorization_v1
  (authorization : CanonicalSignedDeviceSessionAuthorizationV1)
  : result CanonicalAuthorityError unit :=
  let content := authorization.(auth_content) in
  validate_session_content content ;?
  verify_signed_device_certificate_v1 content.(auth_certificate) ;?
  verify_signed_account_authority_snapshot_v1 content.(auth_authority_snapshot) ;?
  let? message := device_session_authorization_signing_bytes_v1 content in
  verify_ed25519 content.(auth_certificate).(cert_content).(cert_device_id) message
    authorization.(auth_signature) "signed-device-session-authorization-v1".

Definition encode_signed_device_session_authorization_v1
  (authorization : CanonicalSignedDeviceSessionAuthorizationV1)
  : result CanonicalAuthorityError bytes :=
  verify_signed_device_session_authorization_v1 authorization ;?
  let? content := encode_device_session_authorization_content_v1 authorization.(auth_content) in
  Ok ([]
    |> push_array_header (as_u64 3)
    |> push_unsigned CANONICAL_PROFILE_VERSION
    |> extend_from_slice content
    |> push_bytes authorization.(auth_signature)).

(** * Decoding *)

Definition decode_device_certificate_content_from
  : dec CanonicalAuthorityError CanonicalDeviceCertificateContentV1 :=
  AuthorityDecoder.expect_array "device-certificate-content-v1" 6 ;!
  AuthorityDecoder.expect_version "device-certificate-content-v1.schema_version" ;!
  let! account_id := AuthorityDecoder.fixed_bytes 32 "device-certificate-content-v1.account_id" in
  let! device_id := AuthorityDecoder.fixed_bytes 32 "device-certificate-content-v1.device_id" in
  let! encryption_public_key :=
    AuthorityDecoder.fixed_bytes 32 "device-certificate-content-v1.encryption_public_key" in
  let! authority_sequence :=
    AuthorityDecoder.unsigned "device-certificate-content-v1.authority_sequence" in
  let! capability_count := AuthorityDecoder.array "device-certificate-content-v1.capabilities" in
  dlift (fail_if (MAX_CANONICAL_DEVICE_CAPABILITIES <? capability_count)%N
    (AuthorityWire (TooManyItems "capabilities" capability_count
      MAX_CANONICAL_DEVICE_CAPABILITIES))) ;!
  let! capabilities := dec_repeat (N.to_nat capability_count)
    (let! c := AuthorityDecoder.unsigned "device-certificate-content-v1.capability" in
     dlift (from_code c)) in
  let content := {|
    cert_account_id := account_id;
    cert_device_id := device_id;
    cert_encryption_public_key := encryption_public_key;
    cert_authority_sequence := authority_sequence;
    cert_capabilities := capabilities
  |} in
  dlift (validate_certificate_content content) ;!
  dret content.

Definition decode_signed_device_certificate_from
  : dec CanonicalAuthorityError CanonicalSignedDeviceCertificateV1 :=
  AuthorityDecoder.expect_array "signed-device-certificate-v1" 3 ;!
  AuthorityDecoder.expect_version "signed-device-certificate-v1.schema_version" ;!
  let! content := decode_device_certificate_content_from in
  let! signature := AuthorityDecoder.fixed_bytes 64 "signed-device-certificate-v1.signature" in
  let certificate := {| cert_content := content; cert_signature := signature |} in
  dlift (validate_certificate_content certificate.(cert_content)) ;!
  dret certificate.

Definition decode_device_revocation_content_from
  : dec CanonicalAuthorityError CanonicalDeviceRevocationContentV1 :=
  AuthorityDecoder.expect_array "device-revocation-content-v1" 4 ;!
  AuthorityDecoder.expect_version "device-revocation-content-v1.schema_version" ;!
  let! account_id := AuthorityDecoder.fixed_bytes 32 "device-revocation-content-v1.account_id" in
  let! device_id := AuthorityDecoder.fixed_bytes 32 "device-revocation-content-v1.device_id" in
  let! authority_sequence :=
    AuthorityDecoder.unsigned "device-revocation-content-v1.authority_sequence" in
  dret {|
    rev_account_id := account_id;
    rev_device_id := device_id;
    rev_authority_sequence := authority_sequence
  |}.

Definition decode_signed_device_revocation_from
  : dec CanonicalAuthorityError CanonicalSignedDeviceRevocationV1 :=
  AuthorityDecoder.expect_array "signed-device-revocation-v1" 3 ;!
  AuthorityDecoder.expect_version "signed-device-revocation-v1.schema_version" ;!
  let! content := decode_device_revocation_content_from in
  let! signature := AuthorityDecoder.fixed_bytes 64 "signed-device-revocation-v1.signature" in
  dret {| rev_content := content; rev_signature := signature |}.

Definition decode_account_authority_snapshot_content_from
  : dec CanonicalAuthorityError CanonicalAccountAuthoritySnapshotContentV1 :=
  AuthorityDecoder.expect_array "account-authority-snapshot-content-v1" 4 ;!
  AuthorityDecoder.expect_version "account-authority-snapshot-content-v1.schema_version" ;!
  let! account_id :=
    AuthorityDecoder.fixed_bytes 32 "account-authority-snapshot-content-v1.account_id" in
  let! revision := AuthorityDecoder.unsigned "account-authority-snapshot-content-v1.revision" in
  let! revocation_count :=
    AuthorityDecoder.array "account-authority-snapshot-content-v1.revocations" in
  dlift (fail_if (MAX_CANONICAL_AUTHORITY_REVOCATIONS <? revocation_count)%N
    (AuthorityWire (TooManyItems "revocations" revocation_count
      MAX_CANONICAL_AUTHORITY_REVOCATIONS))) ;!
  let! revocations := dec_repeat (N.to_nat revocation_count)
                        decode_signed_device_revocation_from in
  let content := {|
    snap_account_id := account_id;
    snap_revision := revision;
    snap_revocations := revocations
  |} in
  dlift (validate_snapshot_content content) ;!
  dret content.

Definition decode_signed_account_authority_snapshot_from
  : dec CanonicalAuthorityError CanonicalSignedAccountAuthoritySnapshotV1 :=
  AuthorityDecoder.expect_array "signed-account-authority-snapshot-v1" 3 ;!
  AuthorityDecoder.expect_version "signed-account-authority-snapshot-v1.schema_version" ;!
  let! content := decode_account_authority_snapshot_content_from in
  let! signature :=
    AuthorityDecoder.fixed_bytes 64 "signed-account-authority-snapshot-v1.signature" in
  let snapshot := {| snap_content := content; snap_signature := signature |} in
  dlift (validate_snapshot_content snapshot.(snap_content)) ;!
  dret snapshot.

Definition decode_device_session_authorization_content_from
  : dec CanonicalAuthorityError CanonicalDeviceSessionAuthorizationContentV1 :=
  AuthorityDecoder.expect_array "device-session-authorization-content-v1" 4 ;!
  AuthorityDecoder.expect_version "device-session-authorization-content-v1.schema_version" ;!
  let! session_binding :=
    AuthorityDecoder.fixed_bytes 32 "device-session-authorization-content-v1.session_binding" in
  let! certificate := decode_signed_device_certificate_from in
  let! authority_snapshot := decode_signed_account_authority_snapshot_from in
  let content := {|
    auth_session_binding := session_binding;
    auth_certificate := certificate;
    auth_authority_snapshot := authority_snapshot
  |} in
  dlift (validate_session_content content) ;!
  dret content.

Definition decode_signed_device_certificate_v1 (bs : bytes)
  : result CanonicalAuthorityError CanonicalSignedDeviceCertificateV1 :=
  map_err AuthorityWire (validate_canonical_profile_v1 bs) ;?
  let? (certificate, decoder) :=
    decode_signed_device_certificate_from (AuthorityDecoder.new bs) in
  AuthorityDecoder.finish decoder ;?
  Ok certificate.

Definition decode_signed_device_revocation_v1 (bs : bytes)
  : result CanonicalAuthorityError CanonicalSignedDeviceRevocationV1 :=
  map_err AuthorityWire (validate_canonical_profile_v1 bs) ;?
  let? (revocation, decoder) := decode_signed_device_revocation_from (AuthorityDecoder.new bs) in
  AuthorityDecoder.finish decoder ;?
  Ok revocation.

Definition decode_signed_account_authority_snapshot_v1 (bs : bytes)
  : result CanonicalAuthorityError CanonicalSignedAccountAuthoritySnapshotV1 :=
  map_err AuthorityWire (validate_canonical_profile_v1 bs) ;?
  let? (snapshot, decoder) :=
    decode_signed_account_authority_snapshot_from (AuthorityDecoder.new bs) in
  AuthorityDecoder.finish decoder ;?
  Ok snapshot.

(** The three fields of the envelope, read by
    [decode_signed_device_session_authorization_v1] before [finish]. *)
Definition decode_signed_device_session_authorization_fields
  : dec CanonicalAuthorityError CanonicalSignedDeviceSessionAuthorizationV1 :=
  AuthorityDecoder.expect_array "signed-device-session-authorization-v1" 3 ;!
  AuthorityDecoder.expect_version "signed-device-session-authorization-v1.schema_version" ;!
  let! content := decode_device_session_authorization_content_from in
  let! signature :=
    AuthorityDecoder.fixed_bytes 64 "signed-device-session-authorization-v1.signature" in
  dret {| auth_content := content; auth_signature := signature |}.

Definition decode_signed_device_session_authorization_v1 (bs : bytes)
  : result CanonicalAuthorityError CanonicalSignedDeviceSessionAuthorizationV1 :=
  map_err AuthorityWire (validate_canonical_profile_v1 bs) ;?
  let? (authorization, decoder) :=
    decode_signed_device_session_authorization_fields (AuthorityDecoder.new bs) in
  AuthorityDecoder.finish decoder ;?
  validate_session_content authorization.(auth_content) ;?
  Ok authorization.

Definition decode_and_verify_signed_device_certificate_v1 (bs : bytes)
  : result CanonicalAuthorityError CanonicalSignedDeviceCertificateV1 :=
  let? certificate := decode_signed_device_certificate_v1 bs in
  verify_signed_device_certificate_v1 certificate ;?
  Ok certificate.

Definition decode_and_verify_signed_device_revocation_v1 (bs : bytes)
  : result CanonicalAuthorityError CanonicalSignedDeviceRevocationV1 :=
  let? revocation := decode_signed_device_revocation_v1 bs in
  verify_signed_device_revocation_v1 revocation ;?
  Ok revocation.

Definition decode_and_verify_signed_account_authority_snapshot_v1 (bs : bytes)
  : result CanonicalAuthorityError CanonicalSignedAccountAuthoritySnapshotV1 :=
  let? snapshot := decode_signed_account_authority_snapshot_v1 bs in
  verify_signed_account_authority_snapshot_v1 snapshot ;?
  Ok snapshot.

Definition decode_and_verify_signed_device_session_authorization_v1 (bs : bytes)
  : result CanonicalAuthorityError CanonicalSignedDeviceSessionAuthorizationV1 :=
  let? authorization := decode_signed_device_session_authorization_v1 bs in
  verify_signed_device_session_authorization_v1 authorization ;?
  Ok authorization.

End messages.

(** * The decoder reads canonical streams *)

Module AuthorityDecoderFacts.
Import AuthorityDecoder.

#[local] Abbreviation of_cursor := (Decoder.of_cursor AuthorityWire).

Lemma byte_of_cursor d : byte d = of_cursor take_byte d.
Proof. unfold byte, Decoder.of_cursor, take_byte. by destruct (slice_get _ _). Qed.

Lemma bytes_array_of_cursor n d : bytes_array n d = of_cursor (take_array n) d.
Proof.
  unfold bytes_array, Decoder.of_cursor, take_array.
  destruct (usize_checked_add _ _); [|done]. cbn [rbind ok_or].
  destruct (slice_range _ _ _); [|done]. cbn [rbind ok_or].
  by destruct (arr_try_from _ _).
Qed.

(** A checked multi-byte argument. *)
Lemma checked_of_cursor {A} (p : dec CanonicalAuthorityError A) f (value : A → u64)
    (bad : A → bool) d :
  p d = of_cursor f d →
  (let! a := p in
   dlift (fail_if (bad a) (AuthorityWire NonMinimalArgument)) ;! dret (value a)) d =
  of_cursor (fun bs c =>
    let? (a, c) := f bs c in fail_if (bad a) NonMinimalArgument ;? Ok (value a, c)) d.
Proof.
  intros Hp. unfold dbind. rewrite Hp. unfold Decoder.of_cursor.
  destruct (f _ _) as [[a c]|e]; [|done]. cbn [rbind]. by destruct (bad a).
Qed.

Lemma argument_of_cursor additional d :
  argument additional d = of_cursor (fun bs c => read_argument bs c additional) d.
Proof.
  unfold argument, read_argument.
  destruct (additional <=? 23)%N; [by destruct d|].
  destruct (additional =? 24)%N; [apply (checked_of_cursor byte), byte_of_cursor|].
  destruct (additional =? 25)%N;
    [apply (checked_of_cursor (bytes_array 2)), bytes_array_of_cursor|].
  destruct (additional =? 26)%N;
    [apply (checked_of_cursor (bytes_array 4)), bytes_array_of_cursor|].
  destruct (additional =? 27)%N;
    [apply (checked_of_cursor (bytes_array 8)), bytes_array_of_cursor|].
  by destruct (additional =? 31)%N.
Qed.

#[export] Instance head_reader : HeadReader head.
Proof.
  apply (make_head_reader AuthorityWire byte argument head AuthorityWrongMajorType); [| |done].
  - apply byte_of_cursor.
  - intros additional d a c Ha. rewrite argument_of_cursor. unfold Decoder.of_cursor. by rewrite Ha.
Qed.

#[export] Instance reads_unsigned_field field :
  Reads (unsigned field) (fun v => enc_item (IUnsigned v)) (fun _ => True).
Proof. apply reads_unsigned, _. Qed.

#[export] Instance reads_array_field field :
  Reads (array field) (fun n => head_bytes 4 (as_u64 n)) (fun n => (n < U64_BOUND)%N).
Proof.
  apply (reads_array head _ field). intros d. unfold array, dbind.
  destruct (head 4 field d) as [[a d']|e]; [|done]. unfold dlift. by rewrite usize_try_from_id.
Qed.

#[export] Instance reads_expect_array object n :
  TCEq (n <? U64_BOUND)%N true →
  Reads (expect_array object n) (fun _ => head_bytes 4 (as_u64 n)) (fun _ => True).
Proof.
  intros Hn. rewrite TCEq_eq in Hn. apply N.ltb_lt in Hn.
  eapply (reads_expect (array object) (fun n => head_bytes 4 (as_u64 n)) _ _ n);
    [|exact Hn|done].
  intros a. rewrite fail_if_ok, negb_false_iff. apply N.eqb_eq.
Qed.

#[export] Instance reads_expect_version field :
  Reads (expect_version field) (fun _ => enc_item (IUnsigned CANONICAL_PROFILE_VERSION))
    (fun _ => True).
Proof.
  eapply (reads_expect (unsigned field) (fun v => enc_item (IUnsigned v)) (fun _ => True) _
    CANONICAL_PROFILE_VERSION); [|done|done].
  intros a. rewrite fail_if_ok, negb_false_iff. apply u64_eqb_eq.
Qed.

Lemma reads_fixed_bytes n field :
  n <= 64 → Reads (fixed_bytes n field) (fun b => enc_item (IBytes b)) (fun _ => True).
Proof.
  intros Hn. apply (reads_fixed head _ field Hn).
  - intros d b rest Hf Hat Hb. unfold fixed_bytes, dbind.
    rewrite (head_complete 2 _ _ _ _ ltac:(done) Hf Hat). unfold dlift.
    rewrite usize_try_from_id. cbn [ok_or rbind]. rewrite as_u64_len by done.
    destruct (arr_try_from n b) as [a|] eqn:Ha.
    + apply arr_try_from_Some in Ha. subst b. rewrite !len_arr in *. rewrite N.eqb_refl.
      cbn [negb fail_if rbind]. rewrite bytes_array_of_cursor. unfold Decoder.of_cursor.
      apply at_dec_skip in Hat. rewrite (proj1 (take_array_at n (dec_bytes (skip d _)) _ a rest Hf Hat)).
      unfold skip. cbn [dec_bytes dec_cursor enc_item]. by rewrite len_app, !len_arr, N.add_assoc.
    + destruct (N.eqb_spec (len b) (N.of_nat n)) as [E|]; [|done].
      destruct (arr_try_from_length n b) as [? ?]; [unfold len in E; lia|congruence].
  - intros d. unfold fixed_bytes, dbind. by destruct (head 2 field d) as [[]|].
Qed.

#[export] Instance reads_fixed_32 field :
  Reads (fixed_bytes 32 field) (fun b => enc_item (IBytes b)) (fun _ => True).
Proof. apply reads_fixed_bytes. lia. Qed.
#[export] Instance reads_fixed_64 field :
  Reads (fixed_bytes 64 field) (fun b => enc_item (IBytes b)) (fun _ => True).
Proof. apply reads_fixed_bytes. lia. Qed.

End AuthorityDecoderFacts.
Import AuthorityDecoderFacts.

(** * Message items *)

Definition certificate_content_item (c : CanonicalDeviceCertificateContentV1) : item :=
  IArray [IUnsigned CANONICAL_PROFILE_VERSION; IBytes c.(cert_account_id);
          IBytes c.(cert_device_id); IBytes c.(cert_encryption_public_key);
          IUnsigned c.(cert_authority_sequence);
          IArray (map (fun capability => IUnsigned (code capability)) c.(cert_capabilities))].

Definition certificate_item (x : CanonicalSignedDeviceCertificateV1) : item :=
  signed_item (certificate_content_item x.(cert_content)) x.(cert_signature).

Definition revocation_content_item (c : CanonicalDeviceRevocationContentV1) : item :=
  IArray [IUnsigned CANONICAL_PROFILE_VERSION; IBytes c.(rev_account_id);
          IBytes c.(rev_device_id); IUnsigned c.(rev_authority_sequence)].

Definition revocation_item (x : CanonicalSignedDeviceRevocationV1) : item :=
  signed_item (revocation_content_item x.(rev_content)) x.(rev_signature).

Definition snapshot_content_item (c : CanonicalAccountAuthoritySnapshotContentV1) : item :=
  IArray [IUnsigned CANONICAL_PROFILE_VERSION; IBytes c.(snap_account_id);
          IUnsigned c.(snap_revision); IArray (map revocation_item c.(snap_revocations))].

Definition snapshot_item (x : CanonicalSignedAccountAuthoritySnapshotV1) : item :=
  signed_item (snapshot_content_item x.(snap_content)) x.(snap_signature).

Definition authorization_content_item (c : CanonicalDeviceSessionAuthorizationContentV1) : item :=
  IArray [IUnsigned CANONICAL_PROFILE_VERSION; IBytes c.(auth_session_binding);
          certificate_item c.(auth_certificate); snapshot_item c.(auth_authority_snapshot)].

Definition authorization_item (x : CanonicalSignedDeviceSessionAuthorizationV1) : item :=
  signed_item (authorization_content_item x.(auth_content)) x.(auth_signature).

(** * The decoding functions read their items *)

#[export] Instance reads_capability field :
  Reads (let! c := AuthorityDecoder.unsigned field in dlift (from_code c))
    (fun c => enc_item (IUnsigned (code c))) (fun _ => True).
Proof.
  apply (reads_map (AuthorityDecoder.unsigned field) (fun v => enc_item (IUnsigned v))
    (fun _ => True) _ from_code code); [|done|done].
  intros v c _. unfold from_code. split.
  - intros Hc. split; [|done]. apply uint_eq.
    destruct (uint_val v) as [|[[]|[]|]] eqn:E; try discriminate Hc;
      injection Hc as <-; reflexivity.
  - intros [-> _]. by destruct c.
Qed.

Lemma validate_certificate_bound c :
  validate_certificate_content c = Ok tt →
  (len c.(cert_capabilities) <= MAX_CANONICAL_DEVICE_CAPABILITIES)%N.
Proof.
  unfold validate_certificate_content. intros H. result_inv. by apply N.ltb_ge in G0.
Qed.

#[export] Instance reads_certificate_content :
  Reads decode_device_certificate_content_from (fun c => enc_item (certificate_content_item c))
    (fun c => validate_certificate_content c = Ok tt).
Proof.
  unfold decode_device_certificate_content_from. split.
  - intros d c rest Hf Hok Hat. pose proof (validate_certificate_bound c Hok) as Hb.
    unfold certificate_content_item in Hat. push_norm_in Hat.
    do 6 read_step. read_step; [by eapply N.le_lt_trans|]. read_step.
    rewrite (proj2 (N.ltb_ge _ _) Hb). cbn [fail_if rbind].
    read_step; [split; [by unfold len; rewrite Nat2N.id|by apply Forall_true]|].
    read_step. guard_ok Hok.
    read_done ltac:(unfold certificate_content_item).
  - intros d l c d' Hat H. read_invs H.
    read_end ltac:(unfold certificate_content_item). done.
Qed.

#[export] Instance reads_certificate :
  Reads decode_signed_device_certificate_from (fun x => enc_item (certificate_item x))
    (fun x => validate_certificate_content x.(cert_content) = Ok tt).
Proof.
  unfold decode_signed_device_certificate_from. split.
  - intros d x rest Hf Hok Hat. unfold certificate_item, signed_item in Hat. push_norm_in Hat.
    do 2 read_step. read_step; [done|]. do 2 read_step. guard_ok Hok.
    read_done ltac:(unfold certificate_item, signed_item).
  - intros d l x d' Hat H. read_invs H.
    read_end ltac:(unfold certificate_item, signed_item). done.
Qed.

#[export] Instance reads_revocation_content :
  Reads decode_device_revocation_content_from (fun c => enc_item (revocation_content_item c))
    (fun _ => True).
Proof.
  unfold decode_device_revocation_content_from. split.
  - intros d c rest Hf Hok Hat. unfold revocation_content_item in Hat. push_norm_in Hat.
    do 5 read_step. read_done ltac:(unfold revocation_content_item).
  - intros d l c d' Hat H. read_invs H. read_end ltac:(unfold revocation_content_item). done.
Qed.

#[export] Instance reads_revocation :
  Reads decode_signed_device_revocation_from (fun x => enc_item (revocation_item x))
    (fun _ => True).
Proof.
  unfold decode_signed_device_revocation_from. split.
  - intros d x rest Hf Hok Hat. unfold revocation_item, signed_item in Hat. push_norm_in Hat.
    do 4 read_step. read_done ltac:(unfold revocation_item, signed_item).
  - intros d l x d' Hat H. read_invs H.
    read_end ltac:(unfold revocation_item, signed_item). done.
Qed.

Lemma validate_snapshot_bound c :
  validate_snapshot_content c = Ok tt →
  (len c.(snap_revocations) <= MAX_CANONICAL_AUTHORITY_REVOCATIONS)%N.
Proof.
  unfold validate_snapshot_content. intros H. result_inv. by apply N.ltb_ge in G.
Qed.

#[export] Instance reads_snapshot_content :
  Reads decode_account_authority_snapshot_content_from
    (fun c => enc_item (snapshot_content_item c))
    (fun c => validate_snapshot_content c = Ok tt).
Proof.
  unfold decode_account_authority_snapshot_content_from. split.
  - intros d c rest Hf Hok Hat. pose proof (validate_snapshot_bound c Hok) as Hb.
    unfold snapshot_content_item in Hat. push_norm_in Hat.
    do 4 read_step. read_step; [by eapply N.le_lt_trans|]. read_step.
    rewrite (proj2 (N.ltb_ge _ _) Hb). cbn [fail_if rbind].
    read_step; [split; [by unfold len; rewrite Nat2N.id|by apply Forall_true]|].
    read_step. guard_ok Hok. read_done ltac:(unfold snapshot_content_item).
  - intros d l c d' Hat H. read_invs H.
    read_end ltac:(unfold snapshot_content_item). done.
Qed.

#[export] Instance reads_snapshot :
  Reads decode_signed_account_authority_snapshot_from (fun x => enc_item (snapshot_item x))
    (fun x => validate_snapshot_content x.(snap_content) = Ok tt).
Proof.
  unfold decode_signed_account_authority_snapshot_from. split.
  - intros d x rest Hf Hok Hat. unfold snapshot_item, signed_item in Hat. push_norm_in Hat.
    do 2 read_step. read_step; [done|]. do 2 read_step. guard_ok Hok.
    read_done ltac:(unfold snapshot_item, signed_item).
  - intros d l x d' Hat H. read_invs H.
    read_end ltac:(unfold snapshot_item, signed_item). done.
Qed.

Lemma validate_session_parts c :
  validate_session_content c = Ok tt →
  validate_certificate_content c.(auth_certificate).(cert_content) = Ok tt ∧
  validate_snapshot_content c.(auth_authority_snapshot).(snap_content) = Ok tt.
Proof. unfold validate_session_content. intros H. by result_inv. Qed.

#[export] Instance reads_authorization_content :
  Reads decode_device_session_authorization_content_from
    (fun c => enc_item (authorization_content_item c))
    (fun c => validate_session_content c = Ok tt).
Proof.
  unfold decode_device_session_authorization_content_from. split.
  - intros d c rest Hf Hok Hat. pose proof (validate_session_parts c Hok) as [H1 H2].
    unfold authorization_content_item in Hat. push_norm_in Hat.
    do 3 read_step. read_step; [done|]. read_step; [done|]. read_step. guard_ok Hok.
    read_done ltac:(unfold authorization_content_item).
  - intros d l c d' Hat H. read_invs H.
    read_end ltac:(unfold authorization_content_item). done.
Qed.

#[export] Instance reads_authorization :
  Reads decode_signed_device_session_authorization_fields
    (fun x => enc_item (authorization_item x))
    (fun x => validate_session_content x.(auth_content) = Ok tt).
Proof.
  unfold decode_signed_device_session_authorization_fields. split.
  - intros d x rest Hf Hok Hat. unfold authorization_item, signed_item in Hat. push_norm_in Hat.
    do 2 read_step. read_step; [done|]. read_step.
    read_done ltac:(unfold authorization_item, signed_item).
  - intros d l x d' Hat H. read_invs H.
    read_end ltac:(unfold authorization_item, signed_item). done.
Qed.

(** * Items are within the profile *)

Lemma certificate_shape x :
  items_shape (length x.(cert_content).(cert_capabilities) + 10) 3 [certificate_item x].
Proof.
  eapply items_shape_eq.
  - apply items_shape_signed. unfold certificate_content_item. items_shape.
    apply items_shape_map, Forall_true. intros c. by apply items_shape_leaf.
  - lia.
Qed.

Lemma revocation_shape x : items_shape 8 2 [revocation_item x].
Proof.
  eapply items_shape_eq.
  - apply items_shape_signed. unfold revocation_content_item. items_shape.
  - lia.
Qed.

Lemma snapshot_shape x :
  items_shape (length x.(snap_content).(snap_revocations) * 8 + 8) 5 [snapshot_item x].
Proof.
  eapply items_shape_eq.
  - apply items_shape_signed. unfold snapshot_content_item. items_shape.
    apply items_shape_map, Forall_true. intros r. apply revocation_shape.
  - lia.
Qed.

Lemma authorization_shape x :
  items_shape (length x.(auth_content).(auth_certificate).(cert_content).(cert_capabilities) +
    length x.(auth_content).(auth_authority_snapshot).(snap_content).(snap_revocations) * 8 + 24)
    7 [authorization_item x].
Proof.
  eapply items_shape_eq.
  - apply items_shape_signed. unfold authorization_content_item. items_shape.
    + eapply items_shape_weaken, certificate_shape; [done|lia].
    + apply snapshot_shape.
  - lia.
Qed.

Lemma shape_in_profile c d i :
  items_shape c d [i] → d <= 8 → (N.of_nat c <= MAX_CANONICAL_ITEMS)%N → item_in_profile i.
Proof. intros Hi Hd. apply items_shape_in_profile. by eapply items_shape_weaken. Qed.

Lemma certificate_in_profile x :
  validate_certificate_content x.(cert_content) = Ok tt → item_in_profile (certificate_item x).
Proof.
  intros Hb%validate_certificate_bound. eapply shape_in_profile; [apply certificate_shape|lia|].
  unfold len, MAX_CANONICAL_DEVICE_CAPABILITIES, MAX_CANONICAL_ITEMS in *. lia.
Qed.

Lemma revocation_in_profile x : item_in_profile (revocation_item x).
Proof. eapply shape_in_profile; [apply revocation_shape|lia|done]. Qed.

Lemma snapshot_in_profile x :
  validate_snapshot_content x.(snap_content) = Ok tt → item_in_profile (snapshot_item x).
Proof.
  intros Hb%validate_snapshot_bound. eapply shape_in_profile; [apply snapshot_shape|lia|].
  unfold len, MAX_CANONICAL_AUTHORITY_REVOCATIONS, MAX_CANONICAL_ITEMS in *. lia.
Qed.

Lemma authorization_in_profile x :
  validate_session_content x.(auth_content) = Ok tt → item_in_profile (authorization_item x).
Proof.
  intros [H1%validate_certificate_bound H2%validate_snapshot_bound]%validate_session_parts.
  eapply shape_in_profile; [apply authorization_shape|lia|].
  unfold len, MAX_CANONICAL_DEVICE_CAPABILITIES, MAX_CANONICAL_AUTHORITY_REVOCATIONS,
    MAX_CANONICAL_ITEMS in *. lia.
Qed.

(** * Decoders and encoders invert each other *)

Lemma decode_certificate_spec bs x :
  decode_signed_device_certificate_v1 bs = Ok x ↔
  validate_certificate_content x.(cert_content) = Ok tt ∧ bs = enc_item (certificate_item x).
Proof.
  apply (decode_message_iff AuthorityWire decode_signed_device_certificate_from
    certificate_item (fun x => validate_certificate_content x.(cert_content) = Ok tt)).
  apply certificate_in_profile.
Qed.

Lemma decode_revocation_spec bs x :
  decode_signed_device_revocation_v1 bs = Ok x ↔ bs = enc_item (revocation_item x).
Proof.
  transitivity (True ∧ bs = enc_item (revocation_item x)); [|by intuition].
  apply (decode_message_iff AuthorityWire decode_signed_device_revocation_from
    revocation_item (fun _ => True)).
  intros ? _. apply revocation_in_profile.
Qed.

Lemma decode_snapshot_spec bs x :
  decode_signed_account_authority_snapshot_v1 bs = Ok x ↔
  validate_snapshot_content x.(snap_content) = Ok tt ∧ bs = enc_item (snapshot_item x).
Proof.
  apply (decode_message_iff AuthorityWire decode_signed_account_authority_snapshot_from
    snapshot_item (fun x => validate_snapshot_content x.(snap_content) = Ok tt)).
  apply snapshot_in_profile.
Qed.

Lemma decode_authorization_spec bs x :
  decode_signed_device_session_authorization_v1 bs = Ok x ↔
  validate_session_content x.(auth_content) = Ok tt ∧ bs = enc_item (authorization_item x).
Proof.
  rewrite <-(decode_message_iff AuthorityWire decode_signed_device_session_authorization_fields
    authorization_item (fun x => validate_session_content x.(auth_content) = Ok tt) bs x
    authorization_in_profile).
  split.
  - unfold decode_signed_device_session_authorization_v1. intros H. result_inv.
    unfold decode_message. rewrite E. cbn [map_err rbind].
    unfold AuthorityDecoder.new in E0. rewrite E0. cbn [rbind].
    unfold AuthorityDecoder.finish in E1. by destruct (_ =? _)%N.
  - intros H. pose proof H as [Hv _]%(decode_message_iff _ _ _ _ _ _ authorization_in_profile).
    unfold decode_message in H. result_inv.
    unfold decode_signed_device_session_authorization_v1, AuthorityDecoder.finish.
    unfold AuthorityDecoder.new. rewrite E, E0. cbn [map_err rbind].
    destruct (_ =? _)%N; [|done]. cbn [rbind]. by rewrite Hv.
Qed.

Section correctness.
Context `{Ed25519}.

Lemma push_codes_app l out :
  push_codes l out = out ++ concat (map (fun c => enc_item (IUnsigned (code c))) l).
Proof.
  unfold push_codes. revert out; induction l as [|c l IH]; intros out; cbn [fold_left map concat].
  - by rewrite app_nil_r.
  - by rewrite IH, push_unsigned_app, app_assoc.
Qed.

Lemma encode_certificate_content_spec c bs :
  encode_device_certificate_content_v1 c = Ok bs ↔
  validate_certificate_content c = Ok tt ∧ bs = enc_item (certificate_content_item c).
Proof.
  unfold encode_device_certificate_content_v1. rewrite rbind_unit_ok.
  rewrite push_codes_app. push_norm. unfold certificate_content_item. push_norm.
  split; intros [Hv Hb]; (split; [done|]); [by injection Hb as <-|by subst].
Qed.

(** Every verifier checks its transcript first. *)
Lemma verify_certificate_valid x :
  verify_signed_device_certificate_v1 x = Ok tt →
  validate_certificate_content x.(cert_content) = Ok tt.
Proof.
  unfold verify_signed_device_certificate_v1, device_certificate_signing_bytes_v1.
  intros Hx. result_inv. by apply encode_certificate_content_spec in E0 as [? _].
Qed.

Lemma encode_certificate_spec x bs :
  encode_signed_device_certificate_v1 x = Ok bs ↔
  verify_signed_device_certificate_v1 x = Ok tt ∧ bs = enc_item (certificate_item x).
Proof.
  unfold encode_signed_device_certificate_v1, encode_signed_device_certificate_unverified.
  rewrite rbind_unit_ok. split; intros [Hv Hb]; (split; [done|]).
  - result_inv. apply encode_certificate_content_spec in E as [_ ->]. apply signed_item_enc.
  - subst. pose proof (verify_certificate_valid _ Hv) as Hc.
    rewrite (proj2 (encode_certificate_content_spec _ _)) by (split; [done|reflexivity]).
    cbn [rbind]. by rewrite signed_item_enc.
Qed.

Lemma encode_revocation_content_eq c :
  encode_device_revocation_content_v1 c = enc_item (revocation_content_item c).
Proof.
  unfold encode_device_revocation_content_v1, revocation_content_item. by push_norm.
Qed.

Lemma encode_revocation_spec x bs :
  encode_signed_device_revocation_v1 x = Ok bs ↔
  verify_signed_device_revocation_v1 x = Ok tt ∧ bs = enc_item (revocation_item x).
Proof.
  unfold encode_signed_device_revocation_v1, encode_signed_device_revocation_unverified.
  rewrite rbind_unit_ok, encode_revocation_content_eq, signed_item_enc.
  split; intros [Hv Hb]; (split; [done|]); [by injection Hb as <-|by subst].
Qed.

Lemma encode_snapshot_content_spec c bs :
  encode_account_authority_snapshot_content_v1 c = Ok bs ↔
  validate_snapshot_content c = Ok tt ∧
  Forall (fun r => verify_signed_device_revocation_v1 r = Ok tt) c.(snap_revocations) ∧
  bs = enc_item (snapshot_content_item c).
Proof.
  unfold encode_account_authority_snapshot_content_v1. rewrite rbind_unit_ok.
  rewrite (try_fold_append encode_signed_device_revocation_v1 _
    (fun r => enc_item (revocation_item r)) _ _ _ _ encode_revocation_spec (fun _ _ => eq_refl)).
  unfold snapshot_content_item. push_norm. tauto.
Qed.

Lemma verify_snapshot_valid x :
  verify_signed_account_authority_snapshot_v1 x = Ok tt →
  validate_snapshot_content x.(snap_content) = Ok tt ∧
  Forall (fun r => verify_signed_device_revocation_v1 r = Ok tt) x.(snap_content).(snap_revocations).
Proof.
  unfold verify_signed_account_authority_snapshot_v1.
  intros [Hv [Hr _]%rbind_unit_ok]%rbind_unit_ok. by apply try_for_ok in Hr.
Qed.

Lemma encode_snapshot_spec x bs :
  encode_signed_account_authority_snapshot_v1 x = Ok bs ↔
  verify_signed_account_authority_snapshot_v1 x = Ok tt ∧ bs = enc_item (snapshot_item x).
Proof.
  unfold encode_signed_account_authority_snapshot_v1,
    encode_signed_account_authority_snapshot_unverified.
  rewrite rbind_unit_ok. split; intros [Hv Hb]; (split; [done|]).
  - result_inv. apply encode_snapshot_content_spec in E as (_ & _ & ->). apply signed_item_enc.
  - subst. destruct (verify_snapshot_valid _ Hv) as [Hc Hr].
    rewrite (proj2 (encode_snapshot_content_spec _ _)) by (split; [done|split; [done|reflexivity]]).
    cbn [rbind]. by rewrite signed_item_enc.
Qed.

Lemma encode_authorization_content_spec c bs :
  encode_device_session_authorization_content_v1 c = Ok bs ↔
  validate_session_content c = Ok tt ∧
  verify_signed_device_certificate_v1 c.(auth_certificate) = Ok tt ∧
  verify_signed_account_authority_snapshot_v1 c.(auth_authority_snapshot) = Ok tt ∧
  bs = enc_item (authorization_content_item c).
Proof.
  unfold encode_device_session_authorization_content_v1. rewrite rbind_unit_ok. split.
  - intros [Hv Hb]. result_inv.
    apply encode_certificate_spec in E as [? ->]. apply encode_snapshot_spec in E0 as [? ->].
    repeat split; auto. unfold authorization_content_item. by push_norm.
  - intros (Hv & Hc & Hs & ->). split; [done|].
    rewrite (proj2 (encode_certificate_spec _ _)) by (split; [done|reflexivity]). cbn [rbind].
    rewrite (proj2 (encode_snapshot_spec _ _)) by (split; [done|reflexivity]). cbn [rbind].
    unfold authorization_content_item. by push_norm.
Qed.

Lemma verify_authorization_valid x :
  verify_signed_device_session_authorization_v1 x = Ok tt →
  validate_session_content x.(auth_content) = Ok tt ∧
  verify_signed_device_certificate_v1 x.(auth_content).(auth_certificate) = Ok tt ∧
  verify_signed_account_authority_snapshot_v1 x.(auth_content).(auth_authority_snapshot) = Ok tt.
Proof.
  unfold verify_signed_device_session_authorization_v1.
  by intros [Hv [Hc [Hs _]%rbind_unit_ok]%rbind_unit_ok]%rbind_unit_ok.
Qed.

Lemma encode_authorization_spec x bs :
  encode_signed_device_session_authorization_v1 x = Ok bs ↔
  verify_signed_device_session_authorization_v1 x = Ok tt ∧ bs = enc_item (authorization_item x).
Proof.
  unfold encode_signed_device_session_authorization_v1.
  rewrite rbind_unit_ok. split; intros [Hv Hb]; (split; [done|]).
  - result_inv. apply encode_authorization_content_spec in E as (_ & _ & _ & ->).
    apply signed_item_enc.
  - subst. pose proof (verify_authorization_valid _ Hv) as (H1 & H2 & H3).
    rewrite (proj2 (encode_authorization_content_spec _ _)) by eauto 6.
    cbn [rbind]. by rewrite signed_item_enc.
Qed.

(** [decode_and_verify] against [encode_signed], from the two specifications. *)
Lemma decode_verify_iff {E A} (decode : bytes → result E A) (verify : A → result E unit)
    (encode : A → result E bytes) (valid : A → Prop) (message : A → item) bs x :
  (∀ bs x, decode bs = Ok x ↔ valid x ∧ bs = enc_item (message x)) →
  (∀ x bs, encode x = Ok bs ↔ verify x = Ok tt ∧ bs = enc_item (message x)) →
  (∀ x, verify x = Ok tt → valid x) →
  (let? x := decode bs in verify x ;? Ok x) = Ok x ↔ encode x = Ok bs.
Proof.
  intros Hd He Hv. rewrite He. split.
  - intros Hx. result_inv. apply Hd in E0 as [_ ->]. auto.
  - intros [Hx ->]. rewrite (proj2 (Hd _ x)) by auto. cbn [rbind]. by rewrite Hx.
Qed.

(** strict decoding followed by verification accepts a byte string exactly
    when it is the encoding that [encode_signed_device_certificate_v1] makes of
    the returned certificate. *)
Theorem device_certificate_roundtrip bs x :
  decode_and_verify_signed_device_certificate_v1 bs = Ok x ↔
  encode_signed_device_certificate_v1 x = Ok bs.
Proof.
  eapply decode_verify_iff; [apply decode_certificate_spec|apply encode_certificate_spec|].
  apply verify_certificate_valid.
Qed.

(** the same for device revocations. *)
Theorem device_revocation_roundtrip bs x :
  decode_and_verify_signed_device_revocation_v1 bs = Ok x ↔
  encode_signed_device_revocation_v1 x = Ok bs.
Proof.
  eapply (decode_verify_iff _ _ _ (fun _ => True)); [|apply encode_revocation_spec|done].
  intros b y. rewrite decode_revocation_spec. tauto.
Qed.

(** the same for authority snapshots, whose encoding contains the signed
    revocations. *)
Theorem authority_snapshot_roundtrip bs x :
  decode_and_verify_signed_account_authority_snapshot_v1 bs = Ok x ↔
  encode_signed_account_authority_snapshot_v1 x = Ok bs.
Proof.
  eapply decode_verify_iff; [apply decode_snapshot_spec|apply encode_snapshot_spec|].
  by intros y [? _]%verify_snapshot_valid.
Qed.

(** the same for device session authorizations, which nest a certificate
    and a snapshot. *)
Theorem session_authorization_roundtrip bs x :
  decode_and_verify_signed_device_session_authorization_v1 bs = Ok x ↔
  encode_signed_device_session_authorization_v1 x = Ok bs.
Proof.
  eapply decode_verify_iff; [apply decode_authorization_spec|apply encode_authorization_spec|].
  by intros y [? _]%verify_authorization_valid.
Qed.

(** * What a verified session authorization guarantees *)

(** The signature over [domain] and the encoded [content] verifies strictly. *)
Definition signed_by (key : arr 32) (domain : bytes) (content : item) (signature : arr 64) : Prop :=
  verifying_key_ok key = true ∧ signature_ok signature = true ∧
  verify_strict key (domain ++ enc_item content) signature = true.

Lemma verify_ed25519_ok key message signature object :
  verify_ed25519 key message signature object = Ok tt ↔
  verifying_key_ok key = true ∧ signature_ok signature = true ∧
  verify_strict key message signature = true.
Proof.
  unfold verify_ed25519. rewrite !rbind_unit_ok, !fail_if_ok, !negb_false_iff. done.
Qed.

Lemma verify_certificate_signed x :
  verify_signed_device_certificate_v1 x = Ok tt →
  signed_by x.(cert_content).(cert_account_id) CANONICAL_DEVICE_CERTIFICATE_SIGNATURE_DOMAIN
    (certificate_content_item x.(cert_content)) x.(cert_signature).
Proof.
  unfold verify_signed_device_certificate_v1, device_certificate_signing_bytes_v1.
  intros Hx. result_inv. apply encode_certificate_content_spec in E0 as [_ ->].
  by apply verify_ed25519_ok in Hx.
Qed.

Lemma verify_revocation_signed x :
  verify_signed_device_revocation_v1 x = Ok tt →
  signed_by x.(rev_content).(rev_account_id) CANONICAL_DEVICE_REVOCATION_SIGNATURE_DOMAIN
    (revocation_content_item x.(rev_content)) x.(rev_signature).
Proof.
  unfold verify_signed_device_revocation_v1, device_revocation_signing_bytes_v1.
  rewrite encode_revocation_content_eq. apply verify_ed25519_ok.
Qed.

Lemma verify_snapshot_signed x :
  verify_signed_account_authority_snapshot_v1 x = Ok tt →
  signed_by x.(snap_content).(snap_account_id) CANONICAL_AUTHORITY_SNAPSHOT_SIGNATURE_DOMAIN
    (snapshot_content_item x.(snap_content)) x.(snap_signature).
Proof.
  unfold verify_signed_account_authority_snapshot_v1, account_authority_snapshot_signing_bytes_v1.
  intros Hx. result_inv. apply encode_snapshot_content_spec in E2 as (_ & _ & ->).
  by apply verify_ed25519_ok in Hx.
Qed.

Lemma verify_authorization_signed x :
  verify_signed_device_session_authorization_v1 x = Ok tt →
  signed_by x.(auth_content).(auth_certificate).(cert_content).(cert_device_id)
    CANONICAL_DEVICE_SESSION_AUTHORIZATION_SIGNATURE_DOMAIN
    (authorization_content_item x.(auth_content)) x.(auth_signature).
Proof.
  unfold verify_signed_device_session_authorization_v1,
    device_session_authorization_signing_bytes_v1.
  intros Hx. result_inv. apply encode_authorization_content_spec in E3 as (_ & _ & _ & ->).
  by apply verify_ed25519_ok in Hx.
Qed.

(** A revocation list a snapshot may carry: at most 32 revocations of the
    account's own devices, one per device, each issued before the revision. *)
Definition snapshot_valid (c : CanonicalAccountAuthoritySnapshotContentV1) : Prop :=
  (len c.(snap_revocations) <= MAX_CANONICAL_AUTHORITY_REVOCATIONS)%N ∧
  Forall (fun r => r.(rev_content).(rev_account_id) = c.(snap_account_id) ∧
    (r.(rev_content).(rev_authority_sequence) < c.(snap_revision))%N) c.(snap_revocations) ∧
  StronglySorted ord_lt (map (fun r => r.(rev_content).(rev_device_id)) c.(snap_revocations)).

Lemma validate_snapshot_ok c : validate_snapshot_content c = Ok tt ↔ snapshot_valid c.
Proof.
  unfold validate_snapshot_content, snapshot_valid.
  rewrite !rbind_unit_ok, !fail_if_ok, try_for_ok, N.ltb_ge.
  rewrite (windows2_any_key (fun r => r.(rev_content).(rev_device_id))), windows2_any_sorted.
  enough (∀ r : CanonicalSignedDeviceRevocationV1,
    (fail_if (negb (bool_decide (r.(rev_content).(rev_account_id) = c.(snap_account_id))))
      (AuthorityAccountMismatch "authority snapshot revocation") ;?
    fail_if (c.(snap_revision) <=? r.(rev_content).(rev_authority_sequence))%N
      (RevocationOutsideSnapshot r.(rev_content).(rev_authority_sequence) c.(snap_revision)))
    = Ok tt ↔ r.(rev_content).(rev_account_id) = c.(snap_account_id) ∧
    (r.(rev_content).(rev_authority_sequence) < c.(snap_revision))%N) as Hr.
  { by setoid_rewrite Hr. }
  intros r. rewrite rbind_unit_ok, !fail_if_ok, negb_false_iff, bool_decide_eq_true, N.leb_gt.
  done.
Qed.

(** A certificate that an authority snapshot covers: same account, issued
    before the revision, device not revoked. *)
Definition certificate_covered (c : CanonicalDeviceCertificateContentV1)
  (s : CanonicalAccountAuthoritySnapshotContentV1) : Prop :=
  c.(cert_account_id) = s.(snap_account_id) ∧
  (c.(cert_authority_sequence) < s.(snap_revision))%N ∧
  c.(cert_device_id) ∉ map (fun r => r.(rev_content).(rev_device_id)) s.(snap_revocations).

Lemma existsb_revoked (id : arr 32) revocations :
  existsb (fun r => bool_decide (r.(rev_content).(rev_device_id) = id)) revocations = false ↔
  id ∉ map (fun r => r.(rev_content).(rev_device_id)) revocations.
Proof.
  induction revocations as [|r l IH]; cbn [existsb map].
  - split; [|done]. intros _ ?%not_elem_of_nil. done.
  - rewrite orb_false_iff, IH, not_elem_of_cons, bool_decide_eq_false. split; intros []; split; congruence || auto.
Qed.

Lemma validate_session_ok c :
  validate_session_content c = Ok tt ↔
  validate_certificate_content c.(auth_certificate).(cert_content) = Ok tt ∧
  snapshot_valid c.(auth_authority_snapshot).(snap_content) ∧
  certificate_covered c.(auth_certificate).(cert_content)
    c.(auth_authority_snapshot).(snap_content).
Proof.
  unfold validate_session_content, certificate_covered.
  rewrite !rbind_unit_ok, !fail_if_ok, validate_snapshot_ok, negb_false_iff, bool_decide_eq_true,
    N.leb_gt, existsb_revoked. done.
Qed.

(** C13: a session authorization that decodes and verifies is signed by the
    certified device; the device's certificate and the snapshot are signed by
    one account; the snapshot is valid, each of its revocations is signed by
    the account, and it does not revoke the device and is newer than the
    certificate. *)
Theorem session_authorization_sound bs x :
  decode_and_verify_signed_device_session_authorization_v1 bs = Ok x →
  let cert := x.(auth_content).(auth_certificate) in
  let snap := x.(auth_content).(auth_authority_snapshot) in
  let account := cert.(cert_content).(cert_account_id) in
  signed_by cert.(cert_content).(cert_device_id)
    CANONICAL_DEVICE_SESSION_AUTHORIZATION_SIGNATURE_DOMAIN
    (authorization_content_item x.(auth_content)) x.(auth_signature) ∧
  signed_by account CANONICAL_DEVICE_CERTIFICATE_SIGNATURE_DOMAIN
    (certificate_content_item cert.(cert_content)) cert.(cert_signature) ∧
  signed_by account CANONICAL_AUTHORITY_SNAPSHOT_SIGNATURE_DOMAIN
    (snapshot_content_item snap.(snap_content)) snap.(snap_signature) ∧
  snapshot_valid snap.(snap_content) ∧
  certificate_covered cert.(cert_content) snap.(snap_content) ∧
  Forall (fun r => signed_by account CANONICAL_DEVICE_REVOCATION_SIGNATURE_DOMAIN
    (revocation_content_item r.(rev_content)) r.(rev_signature))
    snap.(snap_content).(snap_revocations).
Proof.
  unfold decode_and_verify_signed_device_session_authorization_v1. intros Hx. result_inv.
  destruct (verify_authorization_valid _ E0) as (H1 & H2 & H3). cbv zeta.
  apply validate_session_ok in H1 as (_ & Hs & Hc). pose proof Hc as (Ha & _ & _).
  destruct (verify_snapshot_valid _ H3) as [_ Hr].
  split; [by apply verify_authorization_signed|]. split; [by apply verify_certificate_signed|].
  split; [rewrite Ha; by apply verify_snapshot_signed|]. split; [done|]. split; [done|].
  destruct Hs as (_ & Hrev & _). rewrite Forall_forall in Hr, Hrev |- *. intros r Hin.
  specialize (Hrev r Hin) as [Hra _]. rewrite Ha, <-Hra. by apply verify_revocation_signed, Hr.
Qed.

End correctness.

(** * A concrete account *)

Module AuthorityExample.

#[local] Existing Instance Toy.ed25519_instance.

Definition id (k : N) : arr 32 := arr_of 32 (repeat (as_u8 k) 32).

(** The account [id 1] with the devices [id 2] and [id 4]; [id 3] is revoked. *)
Definition certificate (device : N) : CanonicalSignedDeviceCertificateV1 :=
  let content := {|
    cert_account_id := id 1;
    cert_device_id := id device;
    cert_encryption_public_key := id 9;
    cert_authority_sequence := as_u64 device;
    cert_capabilities := [SignEvents; SyncHistory]
  |} in
  {| cert_content := content;
     cert_signature := sign (id 1)
       (CANONICAL_DEVICE_CERTIFICATE_SIGNATURE_DOMAIN ++ enc_item (certificate_content_item content)) |}.

Definition revocation : CanonicalSignedDeviceRevocationV1 :=
  let content := {|
    rev_account_id := id 1;
    rev_device_id := id 3;
    rev_authority_sequence := as_u64 5
  |} in
  {| rev_content := content;
     rev_signature := sign (id 1)
       (CANONICAL_DEVICE_REVOCATION_SIGNATURE_DOMAIN ++ enc_item (revocation_content_item content)) |}.

Definition snapshot : CanonicalSignedAccountAuthoritySnapshotV1 :=
  let content := {|
    snap_account_id := id 1;
    snap_revision := as_u64 300;
    snap_revocations := [revocation]
  |} in
  {| snap_content := content;
     snap_signature := sign (id 1)
       (CANONICAL_AUTHORITY_SNAPSHOT_SIGNATURE_DOMAIN ++ enc_item (snapshot_content_item content)) |}.

Definition authorization : CanonicalSignedDeviceSessionAuthorizationV1 :=
  let content := {|
    auth_session_binding := id 7;
    auth_certificate := certificate 2;
    auth_authority_snapshot := snapshot
  |} in
  {| auth_content := content;
     auth_signature := sign (id 2)
       (CANONICAL_DEVICE_SESSION_AUTHORIZATION_SIGNATURE_DOMAIN ++
        enc_item (authorization_content_item content)) |}.

Lemma session_authorization_sound_witness :
  certificate_covered (certificate 2).(cert_content) snapshot.(snap_content) ∧
  snapshot_valid snapshot.(snap_content).
Proof.
  destruct (session_authorization_sound (enc_item (authorization_item authorization)) authorization)
    as (_ & _ & _ & H1 & H2 & _); [vm_compute; reflexivity|].
  exact (conj H2 H1).
Defined.

End AuthorityExample.
