(* ===== verification/AccountV1.v ===== *)
(** Account collaboration artifacts of
    [crates/kilogram-protocol/src/canonical_account_v1.rs]: signed account
    device lists, which embed certificates and an authority snapshot as byte
    strings, and signed conversation memberships.

    [AccountDecoder] is the decoder shared by the synchronization formats; it
    does not check minimal heads and relies on the profile validator run before
    it, which the [Reads] interface makes explicit. *)

From stdpp Require Import base tactics list numbers strings.
From Stdlib Require Import Strings.Byte Sorting.Sorted.
From S2P Require Import Prelude Crypto CanonicalV1 Decoder AuthorityV1.

Definition MAX_CANONICAL_ACCOUNT_DEVICES : usize := 32.
Definition MAX_CANONICAL_CONVERSATION_MEMBERS : usize := 4096.
Definition MAX_CANONICAL_NESTED_ACCOUNT_BYTES : usize := 512 * 1024.

Definition CANONICAL_ACCOUNT_DEVICE_LIST_SIGNATURE_DOMAIN : bytes :=
  b_str "kilogram:account-device-list-signature:cbor-v1" ++ [x00].
Definition CANONICAL_CONVERSATION_MEMBERSHIP_SIGNATURE_DOMAIN : bytes :=
  b_str "kilogram:conversation-membership-signature:cbor-v1" ++ [x00].

(** * Data *)

#[local] Set Primitive Projections.

Record CanonicalAccountDeviceListContentV1 := {
  list_authority_snapshot : CanonicalSignedAccountAuthoritySnapshotV1;
  list_devices : list CanonicalSignedDeviceCertificateV1
}.

Record CanonicalSignedAccountDeviceListV1 := {
  list_content : CanonicalAccountDeviceListContentV1;
  list_signature : arr 64
}.

Record CanonicalConversationMembershipContentV1 := {
  mem_conversation_id : arr 32;
  mem_revision : u64;
  mem_owner_account_id : arr 32;
  mem_members : list (arr 32)
}.

Record CanonicalSignedConversationMembershipV1 := {
  mem_content : CanonicalConversationMembershipContentV1;
  mem_signature : arr 64
}.

Inductive CanonicalAccountError :=
| AccountWire (error : CanonicalWireError)
| AccountAuthority (error : CanonicalAuthorityError)
| AccountWrongArrayLength (object : string) (expected actual : usize)
| AccountWrongMajorType (field : string) (expected actual : N)
| AccountWrongByteStringLength (field : string) (expected actual : usize)
| AccountWrongUnsignedValue (field : string) (expected actual : u64)
| EmptyDeviceList
| NonCanonicalDeviceOrder
| InvalidMembershipRevision
| NonCanonicalMemberOrder
| OwnerNotMember
| AccountMismatch (context : string)
| CertificateOutsideSnapshot
| RevokedDevice
| MissingMessagingCapabilities
| NestedObjectTooLarge
| AccountInvalidPublicKey (object : string)
| AccountInvalidSignature (object : string).

(** * The decoder *)

Module AccountDecoder.

Definition new (bs : bytes) : decoder := new_decoder bs 0.

Definition finish (self : decoder) : result CanonicalAccountError unit :=
  if (self.(dec_cursor) =? len self.(dec_bytes))%N then Ok tt
  else Err (AccountWire TrailingData).

Definition byte : dec CanonicalAccountError byte := fun self =>
  let? value := ok_or (slice_get self.(dec_bytes) self.(dec_cursor)) (AccountWire UnexpectedEnd) in
  Ok (value, new_decoder self.(dec_bytes) (self.(dec_cursor) + 1)).

Definition array_bytes (n : nat) : dec CanonicalAccountError (arr n) := fun self =>
  let? end_ := ok_or (usize_checked_add self.(dec_cursor) (N.of_nat n))
                 (AccountWire LengthOverflow) in
  let? value := ok_or (slice_range self.(dec_bytes) self.(dec_cursor) end_)
                  (AccountWire UnexpectedEnd) in
  let? value := ok_or (arr_try_from n value) (AccountWire UnexpectedEnd) in
  Ok (value, new_decoder self.(dec_bytes) end_).

Definition argument (additional : N) : dec CanonicalAccountError u64 :=
  if (additional <=? 23)%N then dret (as_u64 additional)
  else if (additional =? 24)%N then let! b := byte in dret (as_u64 (byte_val b))
  else if (additional =? 25)%N then let! a := array_bytes 2 in dret (as_u64 (from_be_bytes a))
  else if (additional =? 26)%N then let! a := array_bytes 4 in dret (as_u64 (from_be_bytes a))
  else if (additional =? 27)%N then let! a := array_bytes 8 in dret (as_u64 (from_be_bytes a))
  else if (additional =? 31)%N then dlift (Err (AccountWire IndefiniteLength))
  else dlift (Err (AccountWire (ReservedAdditionalInformation additional))).

Definition head (expected_major : N) (field : string) : dec CanonicalAccountError u64 :=
  let! initial := byte in
  let actual_major := N.shiftr (byte_val initial) 5 in
  dlift (fail_if (negb (actual_major =? expected_major)%N)
    (AccountWrongMajorType field expected_major actual_major)) ;!
  argument (N.land (byte_val initial) 31).

Definition array (field : string) : dec CanonicalAccountError usize :=
  let! length := head 4 field in
  dlift (ok_or (usize_try_from length) (AccountWire LengthOverflow)).

Definition unsigned (field : string) : dec CanonicalAccountError u64 := head 0 field.

Definition expect_array (object : string) (expected : usize) : dec CanonicalAccountError unit :=
  let! actual := array object in
  dlift (if (actual =? expected)%N then Ok tt
         else Err (AccountWrongArrayLength object expected actual)).

Definition expect_version (field : string) : dec CanonicalAccountError unit :=
  let! actual := unsigned field in
  dlift (if u64_eqb actual CANONICAL_PROFILE_VERSION then Ok tt
         else Err (AccountWrongUnsignedValue field CANONICAL_PROFILE_VERSION actual)).

(** The slice of the input at the cursor. *)
Definition take_slice (length : usize) : dec CanonicalAccountError bytes := fun self =>
  let? end_ := ok_or (usize_checked_add self.(dec_cursor) length) (AccountWire LengthOverflow) in
  let? value := ok_or (slice_range self.(dec_bytes) self.(dec_cursor) end_)
                  (AccountWire UnexpectedEnd) in
  Ok (value, new_decoder self.(dec_bytes) end_).

Definition bytes_ (field : string) : dec CanonicalAccountError bytes :=
  let! length := head 2 field in
  let! length := dlift (ok_or (usize_try_from length) (AccountWire LengthOverflow)) in
  take_slice length.

Definition fixed_bytes (n : nat) (field : string) : dec CanonicalAccountError (arr n) :=
  let! value := bytes_ field in
  dlift (fail_if (negb (len value =? N.of_nat n)%N)
    (AccountWrongByteStringLength field (N.of_nat n) (len value))) ;!
  dlift (ok_or (arr_try_from n value) (AccountWire UnexpectedEnd)).

End AccountDecoder.

(** * Validation *)

Definition ensure_nested_bound (bs : bytes) : result CanonicalAccountError unit :=
  fail_if (MAX_CANONICAL_NESTED_ACCOUNT_BYTES <? len bs)%N NestedObjectTooLarge.

Definition validate_device_list_content (content : CanonicalAccountDeviceListContentV1)
  : result CanonicalAccountError unit :=
  let snapshot := content.(list_authority_snapshot).(snap_content) in
  fail_if (len content.(list_devices) =? 0)%N EmptyDeviceList ;?
  fail_if (MAX_CANONICAL_ACCOUNT_DEVICES <? len content.(list_devices))%N
    (AccountWire (TooManyItems "devices" (len content.(list_devices))
      MAX_CANONICAL_ACCOUNT_DEVICES)) ;?
  try_for (fun certificate =>
    let c := certificate.(cert_content) in
    fail_if (negb (bool_decide (c.(cert_account_id) = snapshot.(snap_account_id))))
      (AccountMismatch "device-list certificate") ;?
    fail_if (snapshot.(snap_revision) <=? c.(cert_authority_sequence))%N
      CertificateOutsideSnapshot ;?
    fail_if (negb (bool_decide (c.(cert_capabilities) = [SignEvents; SyncHistory])))
      MissingMessagingCapabilities ;?
    fail_if (existsb (fun revocation =>
        bool_decide (revocation.(rev_content).(rev_device_id) = c.(cert_device_id)))
      snapshot.(snap_revocations)) RevokedDevice)
    content.(list_devices) ;?
  fail_if (windows2_any (fun a b =>
      ord_geb a.(cert_content).(cert_device_id) b.(cert_content).(cert_device_id))
    content.(list_devices)) NonCanonicalDeviceOrder.

Definition validate_membership_content (content : CanonicalConversationMembershipContentV1)
  : result CanonicalAccountError unit :=
  fail_if (u64_eqb content.(mem_revision) (as_u64 0)) InvalidMembershipRevision ;?
  fail_if (MAX_CANONICAL_CONVERSATION_MEMBERS <? len content.(mem_members))%N
    (AccountWire (TooManyItems "members" (len content.(mem_members))
      MAX_CANONICAL_CONVERSATION_MEMBERS)) ;?
  fail_if (windows2_any ord_geb content.(mem_members)) NonCanonicalMemberOrder ;?
  fail_if (negb (binary_search content.(mem_members) content.(mem_owner_account_id)))
    OwnerNotMember.

Definition signed_envelope (content : bytes) (signature : arr 64) : bytes :=
  [] |> push_array_header (as_u64 3)
     |> push_unsigned CANONICAL_PROFILE_VERSION
     |> extend_from_slice content
     |> push_bytes signature.

(** * Encoding, verification and decoding *)

Section messages.
Context `{Ed25519}.

Definition account_verify_ed25519 (key : arr 32) (message : bytes) (signature : arr 64)
  (object : string) : result CanonicalAccountError unit :=
  fail_if (negb (verifying_key_ok key)) (AccountInvalidPublicKey object) ;?
  fail_if (negb (signature_ok signature)) (AccountInvalidSignature object) ;?
  fail_if (negb (verify_strict key message signature)) (AccountInvalidSignature object).

(** [for certificate in certificates { push_bytes(&mut output, &certificate) }]. *)
Definition push_all (values : list bytes) (output : bytes) : bytes :=
  fold_left (fun output value => push_bytes value output) values output.

Definition encode_account_device_list_content_v1 (content : CanonicalAccountDeviceListContentV1)
  : result CanonicalAccountError bytes :=
  validate_device_list_content content ;?
  let? snapshot := map_err AccountAuthority
    (encode_signed_account_authority_snapshot_v1 content.(list_authority_snapshot)) in
  ensure_nested_bound snapshot ;?
  let? certificates := try_map (fun certificate =>
      let? encoded := map_err AccountAuthority (encode_signed_device_certificate_v1 certificate) in
      ensure_nested_bound encoded ;?
      Ok encoded)
    content.(list_devices) in
  Ok ([]
    |> push_array_header (as_u64 3)
    |> push_unsigned CANONICAL_PROFILE_VERSION
    |> push_bytes snapshot
    |> push_array_header (as_u64 (len certificates))
    |> push_all certificates).

Definition account_device_list_signing_bytes_v1 (content : CanonicalAccountDeviceListContentV1)
  : result CanonicalAccountError bytes :=
  let? encoded := encode_account_device_list_content_v1 content in
  Ok (prefixed CANONICAL_ACCOUNT_DEVICE_LIST_SIGNATURE_DOMAIN encoded).

Definition verify_signed_account_device_list_v1 (list : CanonicalSignedAccountDeviceListV1)
  : result CanonicalAccountError unit :=
  validate_device_list_content list.(list_content) ;?
  map_err AccountAuthority (verify_signed_account_authority_snapshot_v1
    list.(list_content).(list_authority_snapshot)) ;?
  try_for (fun certificate =>
      map_err AccountAuthority (verify_signed_device_certificate_v1 certificate))
    list.(list_content).(list_devices) ;?
  let? message := account_device_list_signing_bytes_v1 list.(list_content) in
  account_verify_ed25519 list.(list_content).(list_authority_snapshot).(snap_content).(snap_account_id)
    message list.(list_signature) "signed-account-device-list-v1".

Definition encode_signed_account_device_list_v1 (list : CanonicalSignedAccountDeviceListV1)
  : result CanonicalAccountError bytes :=
  verify_signed_account_device_list_v1 list ;?
  let? content := encode_account_device_list_content_v1 list.(list_content) in
  Ok (signed_envelope content list.(list_signature)).

Definition encode_conversation_membership_content_v1
  (content : CanonicalConversationMembershipContentV1) : result CanonicalAccountError bytes :=
  validate_membership_content content ;?
  Ok ([]
    |> push_array_header (as_u64 5)
    |> push_unsigned CANONICAL_PROFILE_VERSION
    |> push_bytes content.(mem_conversation_id)
    |> push_unsigned content.(mem_revision)
    |> push_bytes content.(mem_owner_account_id)
    |> push_array_header (as_u64 (len content.(mem_members)))
    |> push_ids content.(mem_members)).

Definition conversation_membership_signing_bytes_v1
  (content : CanonicalConversationMembershipContentV1) : result CanonicalAccountError bytes :=
  let? encoded := encode_conversation_membership_content_v1 content in
  Ok (prefixed CANONICAL_CONVERSATION_MEMBERSHIP_SIGNATURE_DOMAIN encoded).

Definition verify_signed_conversation_membership_v1
  (membership : CanonicalSignedConversationMembershipV1) : result CanonicalAccountError unit :=
  validate_membership_content membership.(mem_content) ;?
  let? message := conversation_membership_signing_bytes_v1 membership.(mem_content) in
  account_verify_ed25519 membership.(mem_content).(mem_owner_account_id) message
    membership.(mem_signature) "signed-conversation-membership-v1".

Definition encode_signed_conversation_membership_v1
  (membership : CanonicalSignedConversationMembershipV1) : result CanonicalAccountError bytes :=
  verify_signed_conversation_membership_v1 membership ;?
  let? content := encode_conversation_membership_content_v1 membership.(mem_content) in
  Ok (signed_envelope content membership.(mem_signature)).

Definition decode_account_device_list_content_from
  : dec CanonicalAccountError CanonicalAccountDeviceListContentV1 :=
  AccountDecoder.expect_array "account-device-list-content-v1" 3 ;!
  AccountDecoder.expect_version "account-device-list-content-v1.schema_version" ;!
  let! authority_snapshot :=
    (let! snapshot_bytes :=
       AccountDecoder.bytes_ "account-device-list-content-v1.authority_snapshot" in
     dlift (ensure_nested_bound snapshot_bytes ;?
            map_err AccountAuthority
              (decode_signed_account_authority_snapshot_v1 snapshot_bytes))) in
  let! count := AccountDecoder.array "account-device-list-content-v1.devices" in
  dlift (fail_if (MAX_CANONICAL_ACCOUNT_DEVICES <? count)%N
    (AccountWire (TooManyItems "devices" count MAX_CANONICAL_ACCOUNT_DEVICES))) ;!
  let! devices := dec_repeat (N.to_nat count)
    (let! bs := AccountDecoder.bytes_ "account-device-list-content-v1.device" in
     dlift (ensure_nested_bound bs ;?
            map_err AccountAuthority (decode_signed_device_certificate_v1 bs))) in
  let content := {|
    list_authority_snapshot := authority_snapshot;
    list_devices := devices
  |} in
  dlift (validate_device_list_content content) ;!
  dret content.

Definition decode_conversation_membership_content_from
  : dec CanonicalAccountError CanonicalConversationMembershipContentV1 :=
  AccountDecoder.expect_array "conversation-membership-content-v1" 5 ;!
  AccountDecoder.expect_version "conversation-membership-content-v1.schema_version" ;!
  let! conversation_id :=
    AccountDecoder.fixed_bytes 32 "conversation-membership-content-v1.conversation_id" in
  let! revision := AccountDecoder.unsigned "conversation-membership-content-v1.revision" in
  let! owner_account_id :=
    AccountDecoder.fixed_bytes 32 "conversation-membership-content-v1.owner_account_id" in
  let! count := AccountDecoder.array "conversation-membership-content-v1.members" in
  dlift (fail_if (MAX_CANONICAL_CONVERSATION_MEMBERS <? count)%N
    (AccountWire (TooManyItems "members" count MAX_CANONICAL_CONVERSATION_MEMBERS))) ;!
  let! members := dec_repeat (N.to_nat count)
    (AccountDecoder.fixed_bytes 32 "conversation-membership-content-v1.member") in
  let content := {|
    mem_conversation_id := conversation_id;
    mem_revision := revision;
    mem_owner_account_id := owner_account_id;
    mem_members := members
  |} in
  dlift (validate_membership_content content) ;!
  dret content.

(** The fields [decode_signed_account_device_list_v1] reads before [finish]. *)
Definition decode_signed_account_device_list_fields
  : dec CanonicalAccountError CanonicalSignedAccountDeviceListV1 :=
  AccountDecoder.expect_array "signed-account-device-list-v1" 3 ;!
  AccountDecoder.expect_version "signed-account-device-list-v1.schema_version" ;!
  let! content := decode_account_device_list_content_from in
  let! signature := AccountDecoder.fixed_bytes 64 "signed-account-device-list-v1.signature" in
  dret {| list_content := content; list_signature := signature |}.

Definition decode_signed_account_device_list_v1 (bs : bytes)
  : result CanonicalAccountError CanonicalSignedAccountDeviceListV1 :=
  map_err AccountWire (validate_canonical_profile_v1 bs) ;?
  let? (list, decoder) := decode_signed_account_device_list_fields (AccountDecoder.new bs) in
  AccountDecoder.finish decoder ;?
  Ok list.

Definition decode_and_verify_signed_account_device_list_v1 (bs : bytes)
  : result CanonicalAccountError CanonicalSignedAccountDeviceListV1 :=
  let? list := decode_signed_account_device_list_v1 bs in
  verify_signed_account_device_list_v1 list ;?
  Ok list.

(** The fields [decode_signed_conversation_membership_v1] reads before
    [finish]. *)
Definition decode_signed_conversation_membership_fields
  : dec CanonicalAccountError CanonicalSignedConversationMembershipV1 :=
  AccountDecoder.expect_array "signed-conversation-membership-v1" 3 ;!
  AccountDecoder.expect_version "signed-conversation-membership-v1.schema_version" ;!
  let! content := decode_conversation_membership_content_from in
  let! signature := AccountDecoder.fixed_bytes 64 "signed-conversation-membership-v1.signature" in
  dret {| mem_content := content; mem_signature := signature |}.

Definition decode_signed_conversation_membership_v1 (bs : bytes)
  : result CanonicalAccountError CanonicalSignedConversationMembershipV1 :=
  map_err AccountWire (validate_canonical_profile_v1 bs) ;?
  let? (membership, decoder) :=
    decode_signed_conversation_membership_fields (AccountDecoder.new bs) in
  AccountDecoder.finish decoder ;?
  Ok membership.

Definition decode_and_verify_signed_conversation_membership_v1 (bs : bytes)
  : result CanonicalAccountError CanonicalSignedConversationMembershipV1 :=
  let? membership := decode_signed_conversation_membership_v1 bs in
  verify_signed_conversation_membership_v1 membership ;?
  Ok membership.

End messages.

(** * The decoder reads canonical streams *)

Module AccountDecoderFacts.
Import AccountDecoder.

Lemma account_byte_of_cursor d : byte d = of_cursor AccountWire take_byte d.
Proof. unfold byte, of_cursor, take_byte. by destruct (slice_get _ _). Qed.

Lemma array_bytes_of_cursor n d : array_bytes n d = of_cursor AccountWire (take_array n) d.
Proof.
  unfold array_bytes, of_cursor, take_array.
  destruct (usize_checked_add _ _); [|done]. cbn [rbind ok_or].
  destruct (slice_range _ _ _); [|done]. cbn [rbind ok_or].
  by destruct (arr_try_from _ _).
Qed.

(** A multi-byte argument, read without the check of [read_argument]. *)
Lemma unchecked_of_cursor {A} (p : dec CanonicalAccountError A) f (value : A → u64) bad d v c :
  p d = of_cursor AccountWire f d →
  (let? (a, c) := f d.(dec_bytes) d.(dec_cursor) in
   fail_if (bad a) NonMinimalArgument ;? Ok (value a, c)) = Ok (v, c) →
  (let! a := p in dret (value a)) d = Ok (v, new_decoder d.(dec_bytes) c).
Proof.
  intros Hp H. unfold dbind. rewrite Hp. unfold of_cursor. result_inv. done.
Qed.

Lemma argument_minimal additional d v c :
  read_argument d.(dec_bytes) d.(dec_cursor) additional = Ok (v, c) →
  argument additional d = Ok (v, new_decoder d.(dec_bytes) c).
Proof.
  unfold argument, read_argument.
  destruct (additional <=? 23)%N; [intros [= <- <-]; by destruct d|].
  destruct (additional =? 24)%N; [apply (unchecked_of_cursor byte), account_byte_of_cursor|].
  destruct (additional =? 25)%N;
    [apply (unchecked_of_cursor (array_bytes 2)), array_bytes_of_cursor|].
  destruct (additional =? 26)%N;
    [apply (unchecked_of_cursor (array_bytes 4)), array_bytes_of_cursor|].
  destruct (additional =? 27)%N;
    [apply (unchecked_of_cursor (array_bytes 8)), array_bytes_of_cursor|].
  by destruct (additional =? 31)%N.
Qed.

#[export] Instance head_reader : HeadReader head.
Proof.
  apply (make_head_reader AccountWire byte argument head AccountWrongMajorType); [| |done].
  - apply account_byte_of_cursor.
  - apply argument_minimal.
Qed.

#[export] Instance reads_unsigned_field field :
  Reads (unsigned field) (fun v => enc_item (IUnsigned v)) (fun _ => True).
Proof. apply reads_unsigned, _. Qed.

#[export] Instance reads_array_field field :
  Reads (array field) (fun n => head_bytes 4 (as_u64 n)) (fun n => (n < U64_BOUND)%N).
Proof.
  apply (reads_array head _ field). intros d. unfold array, dbind.
  destruct (head 4 field d) as [[a d']|e]; [|done]. unfold dlift. by rewrite usize_try_from_id.
Qed.

#[export] Instance reads_expect_array object n :
  TCEq (n <? U64_BOUND)%N true →
  Reads (expect_array object n) (fun _ => head_bytes 4 (as_u64 n)) (fun _ => True).
Proof.
  intros Hn. rewrite TCEq_eq in Hn. apply N.ltb_lt in Hn.
  eapply (reads_expect (array object) (fun n => head_bytes 4 (as_u64 n)) _ _ n);
    [|exact Hn|done].
  intros a. split; [by destruct (N.eqb_spec a n)|]. intros ->. by rewrite N.eqb_refl.
Qed.

#[export] Instance reads_expect_version field :
  Reads (expect_version field) (fun _ => enc_item (IUnsigned CANONICAL_PROFILE_VERSION))
    (fun _ => True).
Proof.
  eapply (reads_expect (unsigned field) (fun v => enc_item (IUnsigned v)) (fun _ => True) _
    CANONICAL_PROFILE_VERSION); [|done|done].
  intros a. rewrite <-u64_eqb_eq. by destruct (u64_eqb _ _).
Qed.

Lemma bytes_at field d b rest :
  dec_fits d → at_dec d (head_bytes 2 (as_u64 (len b)) ++ b ++ rest) → (len b < U64_BOUND)%N →
  bytes_ field d = Ok (b, skip d (enc_item (IBytes b))).
Proof.
  intros Hf Hat Hb. unfold bytes_, dbind.
  rewrite (head_complete 2 _ _ _ _ ltac:(done) Hf Hat). unfold dlift.
  rewrite usize_try_from_id. cbn [ok_or rbind]. rewrite as_u64_len by done.
  apply at_dec_skip in Hat. unfold take_slice.
  pose proof (at_pos_le _ _ _ Hat) as Hle. rewrite len_app in Hle.
  unfold dec_fits in Hf. cbn [skip dec_bytes] in Hle.
  rewrite usize_checked_add_small by lia. cbn [ok_or rbind].
  rewrite (slice_range_at _ _ b rest Hat). cbn [ok_or rbind].
  unfold skip. cbn [dec_bytes dec_cursor enc_item]. by rewrite len_app, N.add_assoc.
Qed.

#[export] Instance reads_bytes_field field :
  Reads (bytes_ field) (fun b => enc_item (IBytes b)) (fun b => (len b < U64_BOUND)%N).
Proof.
  apply (reads_bytes head _ field).
  - intros d a rest. apply bytes_at.
  - intros d. unfold bytes_, dbind. by destruct (head 2 field d) as [[]|].
Qed.

Lemma reads_account_fixed_bytes n field :
  n <= 64 → Reads (fixed_bytes n field) (fun b => enc_item (IBytes b)) (fun _ => True).
Proof.
  intros Hn. apply (reads_fixed head _ field Hn).
  - intros d b rest Hf Hat Hb. unfold fixed_bytes, dbind. rewrite (bytes_at _ d b rest) by done.
    unfold dlift. destruct (arr_try_from n b) as [a|] eqn:Ha.
    + pose proof Ha as <-%arr_try_from_Some. by rewrite len_arr, N.eqb_refl.
    + destruct (N.eqb_spec (len b) (N.of_nat n)) as [E|]; done.
  - intros d. unfold fixed_bytes, bytes_, dbind. by destruct (head 2 field d) as [[]|].
Qed.

#[export] Instance reads_fixed_23 field :
  Reads (fixed_bytes 23 field) (fun b => enc_item (IBytes b)) (fun _ => True).
Proof. apply reads_account_fixed_bytes. lia. Qed.
#[export] Instance reads_fixed_32 field :
  Reads (fixed_bytes 32 field) (fun b => enc_item (IBytes b)) (fun _ => True).
Proof. apply reads_account_fixed_bytes. lia. Qed.
#[export] Instance reads_fixed_64 field :
  Reads (fixed_bytes 64 field) (fun b => enc_item (IBytes b)) (fun _ => True).
Proof. apply reads_account_fixed_bytes. lia. Qed.

End AccountDecoderFacts.
Export AccountDecoderFacts.

(** * Message items *)

(** A nested object travels as a byte string. *)
Definition nested (i : item) : item := IBytes (enc_item i).

Definition device_list_content_item (c : CanonicalAccountDeviceListContentV1) : item :=
  IArray [IUnsigned CANONICAL_PROFILE_VERSION; nested (snapshot_item c.(list_authority_snapshot));
          IArray (map (fun x => nested (certificate_item x)) c.(list_devices))].

Definition device_list_item (x : CanonicalSignedAccountDeviceListV1) : item :=
  signed_item (device_list_content_item x.(list_content)) x.(list_signature).

Definition membership_content_item (c : CanonicalConversationMembershipContentV1) : item :=
  IArray [IUnsigned CANONICAL_PROFILE_VERSION; IBytes c.(mem_conversation_id);
          IUnsigned c.(mem_revision); IBytes c.(mem_owner_account_id); ids_item c.(mem_members)].

Definition membership_item (x : CanonicalSignedConversationMembershipV1) : item :=
  signed_item (membership_content_item x.(mem_content)) x.(mem_signature).

(** * The nested bound always holds *)

Lemma forallb_map_true {A} (f : item → bool) (g : A → item) l :
  (∀ a, f (g a) = true) → forallb f (map g l) = true.
Proof. intros Hf. induction l as [|a l IH]; [done|]. cbn. by rewrite Hf, IH. Qed.

Lemma certificate_strings x : item_strings_within 64 (certificate_item x) = true.
Proof.
  unfold certificate_item, signed_item, certificate_content_item.
  cbn [item_strings_within forallb]. rewrite !len_arr, forallb_map_true; done.
Qed.

Lemma revocation_strings x : item_strings_within 64 (revocation_item x) = true.
Proof.
  unfold revocation_item, signed_item, revocation_content_item.
  cbn [item_strings_within forallb]. by rewrite !len_arr.
Qed.

Lemma snapshot_strings x : item_strings_within 64 (snapshot_item x) = true.
Proof.
  unfold snapshot_item, signed_item, snapshot_content_item.
  cbn [item_strings_within forallb]. rewrite !len_arr, forallb_map_true; [done|].
  apply revocation_strings.
Qed.

Lemma nested_bound i :
  item_strings_within 64 i = true → (N.of_nat (item_count i) <= 1000)%N →
  (len (enc_item i) <= MAX_CANONICAL_NESTED_ACCOUNT_BYTES)%N.
Proof.
  intros Hs Hc. pose proof (len_enc_item 64 i Hs). unfold MAX_CANONICAL_NESTED_ACCOUNT_BYTES. lia.
Qed.

Lemma certificate_nested_bound x :
  validate_certificate_content x.(cert_content) = Ok tt →
  (len (enc_item (certificate_item x)) <= MAX_CANONICAL_NESTED_ACCOUNT_BYTES)%N.
Proof.
  intros Hb%validate_certificate_bound. apply nested_bound; [apply certificate_strings|].
  rewrite (items_shape_count _ _ _ (certificate_shape x)).
  unfold len, MAX_CANONICAL_DEVICE_CAPABILITIES in Hb. lia.
Qed.

Lemma snapshot_nested_bound x :
  validate_snapshot_content x.(snap_content) = Ok tt →
  (len (enc_item (snapshot_item x)) <= MAX_CANONICAL_NESTED_ACCOUNT_BYTES)%N.
Proof.
  intros Hb%validate_snapshot_bound. apply nested_bound; [apply snapshot_strings|].
  rewrite (items_shape_count _ _ _ (snapshot_shape x)).
  unfold len, MAX_CANONICAL_AUTHORITY_REVOCATIONS in Hb. lia.
Qed.

Lemma ensure_nested_bound_ok b :
  ensure_nested_bound b = Ok tt ↔ (len b <= MAX_CANONICAL_NESTED_ACCOUNT_BYTES)%N.
Proof. unfold ensure_nested_bound. by rewrite fail_if_ok, N.ltb_ge. Qed.

(** * The decoding functions read their items *)

(** A nested object decoded from a byte string. *)
Lemma reads_nested {A} field (decode : bytes → result CanonicalAuthorityError A)
    (valid : A → Prop) (message : A → item) :
  (∀ bs x, decode bs = Ok x ↔ valid x ∧ bs = enc_item (message x)) →
  (∀ x, valid x → (len (enc_item (message x)) <= MAX_CANONICAL_NESTED_ACCOUNT_BYTES)%N) →
  Reads (let! bs := AccountDecoder.bytes_ field in
         dlift (ensure_nested_bound bs ;? map_err AccountAuthority (decode bs)))
    (fun x => enc_item (nested (message x))) valid.
Proof.
  intros Hd Hb.
  apply (reads_map (AccountDecoder.bytes_ field) (fun b => enc_item (IBytes b))
    (fun b => (len b < U64_BOUND)%N) _
    (fun bs => ensure_nested_bound bs ;? map_err AccountAuthority (decode bs))
    (fun x => enc_item (message x)) valid); [| |done].
  - intros a b _. rewrite rbind_unit_ok, ensure_nested_bound_ok. split.
    + intros [_ H]. result_inv. apply Hd in E as [? ->]. done.
    + intros [-> Hv]. split; [auto|]. by rewrite (proj2 (Hd _ b)).
  - intros x Hv. eapply N.le_lt_trans; [by apply Hb|done].
Qed.

#[export] Instance reads_nested_snapshot field :
  Reads (let! bs := AccountDecoder.bytes_ field in
         dlift (ensure_nested_bound bs ;?
                map_err AccountAuthority (decode_signed_account_authority_snapshot_v1 bs)))
    (fun x => enc_item (nested (snapshot_item x)))
    (fun x => validate_snapshot_content x.(snap_content) = Ok tt).
Proof. apply reads_nested; [apply decode_snapshot_spec|apply snapshot_nested_bound]. Qed.

#[export] Instance reads_nested_certificate field :
  Reads (let! bs := AccountDecoder.bytes_ field in
         dlift (ensure_nested_bound bs ;?
                map_err AccountAuthority (decode_signed_device_certificate_v1 bs)))
    (fun x => enc_item (nested (certificate_item x)))
    (fun x => validate_certificate_content x.(cert_content) = Ok tt).
Proof. apply reads_nested; [apply decode_certificate_spec|apply certificate_nested_bound]. Qed.

(** What [decode_account_device_list_content_from] accepts. *)
Definition device_list_decodable (c : CanonicalAccountDeviceListContentV1) : Prop :=
  validate_device_list_content c = Ok tt ∧
  validate_snapshot_content c.(list_authority_snapshot).(snap_content) = Ok tt ∧
  Forall (fun x => validate_certificate_content x.(cert_content) = Ok tt) c.(list_devices).

Lemma validate_device_list_bound c :
  validate_device_list_content c = Ok tt →
  (len c.(list_devices) <= MAX_CANONICAL_ACCOUNT_DEVICES)%N.
Proof.
  unfold validate_device_list_content. intros H. result_inv. by apply N.ltb_ge in G0.
Qed.

#[export] Instance reads_device_list_content :
  Reads decode_account_device_list_content_from (fun c => enc_item (device_list_content_item c))
    device_list_decodable.
Proof.
  unfold decode_account_device_list_content_from. split.
  - intros d c rest Hf (Hok & Hs & Hc) Hat. pose proof (validate_device_list_bound c Hok) as Hb.
    unfold device_list_content_item in Hat. push_norm_in Hat.
    do 2 read_step. read_step; [done|]. read_step; [by eapply N.le_lt_trans|]. read_step.
    rewrite (proj2 (N.ltb_ge _ _) Hb). cbn [fail_if rbind].
    read_step; [split; [by unfold len; rewrite Nat2N.id|done]|].
    read_step. guard_ok Hok. read_done ltac:(unfold device_list_content_item).
  - intros d l c d' Hat H. read_invs H.
    read_end ltac:(unfold device_list_content_item). done.
Qed.

#[export] Instance reads_device_list :
  Reads decode_signed_account_device_list_fields (fun x => enc_item (device_list_item x))
    (fun x => device_list_decodable x.(list_content)).
Proof.
  unfold decode_signed_account_device_list_fields. split.
  - intros d x rest Hf Hok Hat. unfold device_list_item, signed_item in Hat. push_norm_in Hat.
    do 2 read_step. read_step; [done|]. read_step.
    read_done ltac:(unfold device_list_item, signed_item).
  - intros d l x d' Hat H. read_invs H.
    read_end ltac:(unfold device_list_item, signed_item). done.
Qed.

Lemma validate_membership_bound c :
  validate_membership_content c = Ok tt →
  (len c.(mem_members) <= MAX_CANONICAL_CONVERSATION_MEMBERS)%N.
Proof.
  unfold validate_membership_content. intros H. result_inv. by apply N.ltb_ge in G0.
Qed.

#[export] Instance reads_membership_content :
  Reads decode_conversation_membership_content_from
    (fun c => enc_item (membership_content_item c))
    (fun c => validate_membership_content c = Ok tt).
Proof.
  unfold decode_conversation_membership_content_from. split.
  - intros d c rest Hf Hok Hat. pose proof (validate_membership_bound c Hok) as Hb.
    unfold membership_content_item, ids_item in Hat. push_norm_in Hat.
    do 5 read_step. read_step; [by eapply N.le_lt_trans|]. read_step.
    rewrite (proj2 (N.ltb_ge _ _) Hb). cbn [fail_if rbind].
    read_step; [split; [by unfold len; rewrite Nat2N.id|by apply Forall_true]|].
    read_step. guard_ok Hok. read_done ltac:(unfold membership_content_item, ids_item).
  - intros d l c d' Hat H. read_invs H.
    read_end ltac:(unfold membership_content_item, ids_item). done.
Qed.

#[export] Instance reads_membership :
  Reads decode_signed_conversation_membership_fields (fun x => enc_item (membership_item x))
    (fun x => validate_membership_content x.(mem_content) = Ok tt).
Proof.
  unfold decode_signed_conversation_membership_fields. split.
  - intros d x rest Hf Hok Hat. unfold membership_item, signed_item in Hat. push_norm_in Hat.
    do 2 read_step. read_step; [done|]. read_step.
    read_done ltac:(unfold membership_item, signed_item).
  - intros d l x d' Hat H. read_invs H.
    read_end ltac:(unfold membership_item, signed_item). done.
Qed.

(** * Items are within the profile *)

Lemma nested_leaf i :
  (len (enc_item i) <= MAX_CANONICAL_NESTED_ACCOUNT_BYTES)%N → leaf_item (nested i) = true.
Proof.
  unfold nested, leaf_item, MAX_CANONICAL_NESTED_ACCOUNT_BYTES, MAX_CANONICAL_BYTE_STRING_BYTES.
  intros Hl. apply N.leb_le. lia.
Qed.

Lemma device_list_in_profile x :
  device_list_decodable x.(list_content) → item_in_profile (device_list_item x).
Proof.
  intros (Hb%validate_device_list_bound & Hs & Hc).
  eapply (shape_in_profile (length x.(list_content).(list_devices) + 7) 3); [|lia|].
  - eapply items_shape_eq.
    + apply items_shape_signed. unfold device_list_content_item. items_shape.
      * by apply items_shape_leaf, nested_leaf, snapshot_nested_bound.
      * apply items_shape_map. eapply Forall_impl; [exact Hc|]. intros c Hv.
        by apply items_shape_leaf, nested_leaf, certificate_nested_bound.
    + lia.
  - unfold len, MAX_CANONICAL_ACCOUNT_DEVICES, MAX_CANONICAL_ITEMS in *. lia.
Qed.

Lemma membership_in_profile x :
  validate_membership_content x.(mem_content) = Ok tt → item_in_profile (membership_item x).
Proof.
  intros Hb%validate_membership_bound.
  eapply (shape_in_profile (length x.(mem_content).(mem_members) + 9) 3); [|lia|].
  - eapply items_shape_eq.
    + apply items_shape_signed. unfold membership_content_item, ids_item. items_shape.
    + lia.
  - unfold len, MAX_CANONICAL_CONVERSATION_MEMBERS, MAX_CANONICAL_ITEMS in *. lia.
Qed.

Lemma decode_device_list_spec bs x :
  decode_signed_account_device_list_v1 bs = Ok x ↔
  device_list_decodable x.(list_content) ∧ bs = enc_item (device_list_item x).
Proof.
  apply (decode_message_iff AccountWire decode_signed_account_device_list_fields
    device_list_item (fun x => device_list_decodable x.(list_content))).
  apply device_list_in_profile.
Qed.

Lemma decode_membership_spec bs x :
  decode_signed_conversation_membership_v1 bs = Ok x ↔
  validate_membership_content x.(mem_content) = Ok tt ∧ bs = enc_item (membership_item x).
Proof.
  apply (decode_message_iff AccountWire decode_signed_conversation_membership_fields
    membership_item (fun x => validate_membership_content x.(mem_content) = Ok tt)).
  apply membership_in_profile.
Qed.

Lemma signed_envelope_enc i s : signed_envelope (enc_item i) s = enc_item (signed_item i s).
Proof. apply signed_item_enc. Qed.

Section correctness.
Context `{Ed25519}.

Lemma push_all_app l out :
  push_all l out = out ++ concat (map (fun b => enc_item (IBytes b)) l).
Proof.
  unfold push_all. revert out; induction l as [|b l IH]; intros out; cbn [fold_left map concat].
  - by rewrite app_nil_r.
  - by rewrite IH, push_bytes_app, app_assoc.
Qed.

Lemma encode_nested_certificate_spec x bs :
  (let? encoded := map_err AccountAuthority (encode_signed_device_certificate_v1 x) in
   ensure_nested_bound encoded ;? Ok encoded) = Ok bs ↔
  verify_signed_device_certificate_v1 x = Ok tt ∧ bs = enc_item (certificate_item x).
Proof.
  rewrite <-encode_certificate_spec. split.
  - intros Hx. by result_inv.
  - intros Hx. rewrite Hx. cbn [map_err rbind]. apply encode_certificate_spec in Hx as [Hv ->].
    apply verify_certificate_valid, certificate_nested_bound, ensure_nested_bound_ok in Hv.
    by rewrite Hv.
Qed.

Lemma encode_device_list_content_spec c bs :
  encode_account_device_list_content_v1 c = Ok bs ↔
  validate_device_list_content c = Ok tt ∧
  verify_signed_account_authority_snapshot_v1 c.(list_authority_snapshot) = Ok tt ∧
  Forall (fun x => verify_signed_device_certificate_v1 x = Ok tt) c.(list_devices) ∧
  bs = enc_item (device_list_content_item c).
Proof.
  unfold encode_account_device_list_content_v1. rewrite rbind_unit_ok. split.
  - intros [Hv Hb]. result_inv. apply encode_snapshot_spec in E as [Hs ->].
    apply (try_map_spec _ _ _ _ _ encode_nested_certificate_spec) in E1 as [Hc ->].
    do 3 (split; [done|]). rewrite push_all_app, map_map. unfold device_list_content_item, nested.
    by push_norm.
  - intros (Hv & Hs & Hc & ->). split; [done|].
    rewrite (proj2 (encode_snapshot_spec _ _)) by (split; [done|reflexivity]).
    cbn [map_err rbind]. pose proof (proj1 (verify_snapshot_valid _ Hs)) as Hv'.
    rewrite (proj2 (ensure_nested_bound_ok _)) by (by apply snapshot_nested_bound). cbn [rbind].
    rewrite (proj2 (try_map_spec _ _ _ _ _ encode_nested_certificate_spec)) by eauto.
    cbn [rbind]. rewrite push_all_app, map_map. unfold device_list_content_item, nested.
    by push_norm.
Qed.

Lemma verify_device_list_valid x :
  verify_signed_account_device_list_v1 x = Ok tt →
  validate_device_list_content x.(list_content) = Ok tt ∧
  verify_signed_account_authority_snapshot_v1 x.(list_content).(list_authority_snapshot) = Ok tt ∧
  Forall (fun x => verify_signed_device_certificate_v1 x = Ok tt) x.(list_content).(list_devices).
Proof.
  unfold verify_signed_account_device_list_v1.
  intros [Hv [Hs%map_err_ok [Hc _]%rbind_unit_ok]%rbind_unit_ok]%rbind_unit_ok.
  apply try_for_ok in Hc. do 2 (split; [done|]). eapply Forall_impl; [exact Hc|].
  cbn. intros c Hx. by apply map_err_ok in Hx.
Qed.

Lemma verify_device_list_decodable x :
  verify_signed_account_device_list_v1 x = Ok tt → device_list_decodable x.(list_content).
Proof.
  intros (Hv & Hs & Hc)%verify_device_list_valid. split; [done|].
  split; [by apply verify_snapshot_valid|].
  eapply Forall_impl; [exact Hc|]. apply verify_certificate_valid.
Qed.

Lemma encode_device_list_spec x bs :
  encode_signed_account_device_list_v1 x = Ok bs ↔
  verify_signed_account_device_list_v1 x = Ok tt ∧ bs = enc_item (device_list_item x).
Proof.
  unfold encode_signed_account_device_list_v1.
  rewrite rbind_unit_ok. split; intros [Hv Hb]; (split; [done|]).
  - result_inv. apply encode_device_list_content_spec in E as (_ & _ & _ & ->).
    apply signed_envelope_enc.
  - subst. pose proof (verify_device_list_valid _ Hv) as (H1 & H2 & H3).
    rewrite (proj2 (encode_device_list_content_spec _ _)) by eauto 6.
    cbn [rbind]. by rewrite signed_envelope_enc.
Qed.

Lemma encode_membership_content_spec c bs :
  encode_conversation_membership_content_v1 c = Ok bs ↔
  validate_membership_content c = Ok tt ∧ bs = enc_item (membership_content_item c).
Proof.
  unfold encode_conversation_membership_content_v1. rewrite rbind_unit_ok.
  push_norm. unfold membership_content_item, ids_item. push_norm.
  split; intros [Hv Hb]; (split; [done|]); [by apply Ok_inj in Hb|by subst].
Qed.

Lemma encode_membership_spec x bs :
  encode_signed_conversation_membership_v1 x = Ok bs ↔
  verify_signed_conversation_membership_v1 x = Ok tt ∧ bs = enc_item (membership_item x).
Proof.
  unfold encode_signed_conversation_membership_v1.
  rewrite rbind_unit_ok. split; intros [Hv Hb]; (split; [done|]).
  - result_inv. apply encode_membership_content_spec in E as (_ & ->). apply signed_envelope_enc.
  - subst. pose proof Hv as [Hc _]%rbind_unit_ok.
    rewrite (proj2 (encode_membership_content_spec _ _)) by eauto.
    cbn [rbind]. by rewrite signed_envelope_enc.
Qed.

(** * What the artifacts guarantee *)

(** A device list the account may publish: between 1 and 32 devices in order
    of their identifiers, each covered by the snapshot and able to sign events
    and synchronize history. *)
Definition device_list_valid (c : CanonicalAccountDeviceListContentV1) : Prop :=
  (1 <= len c.(list_devices) <= MAX_CANONICAL_ACCOUNT_DEVICES)%N ∧
  Forall (fun x => certificate_covered x.(cert_content)
      c.(list_authority_snapshot).(snap_content) ∧
    x.(cert_content).(cert_capabilities) = [SignEvents; SyncHistory]) c.(list_devices) ∧
  StronglySorted ord_lt (map (fun x => x.(cert_content).(cert_device_id)) c.(list_devices)).

Lemma validate_device_list_ok c : validate_device_list_content c = Ok tt ↔ device_list_valid c.
Proof.
  unfold validate_device_list_content, device_list_valid, certificate_covered.
  rewrite !rbind_unit_ok, !fail_if_ok, try_for_ok, N.ltb_ge.
  rewrite (windows2_any_key (fun x => x.(cert_content).(cert_device_id))), windows2_any_sorted.
  setoid_rewrite rbind_unit_ok. setoid_rewrite rbind_unit_ok. setoid_rewrite rbind_unit_ok.
  setoid_rewrite fail_if_ok. setoid_rewrite negb_false_iff. setoid_rewrite bool_decide_eq_true.
  setoid_rewrite N.leb_gt. setoid_rewrite existsb_revoked.
  rewrite N.eqb_neq.
  split; intros; destruct_and!; split_and!; try done; try lia;
    (eapply Forall_impl; [eassumption|]; cbn; tauto).
Qed.

(** A membership the owner may publish: a positive revision and at most 4096
    members in order, the owner among them. *)
Definition membership_valid (c : CanonicalConversationMembershipContentV1) : Prop :=
  (1 <= c.(mem_revision))%N ∧
  (len c.(mem_members) <= MAX_CANONICAL_CONVERSATION_MEMBERS)%N ∧
  StronglySorted ord_lt c.(mem_members) ∧ c.(mem_owner_account_id) ∈ c.(mem_members).

Lemma validate_membership_ok c : validate_membership_content c = Ok tt ↔ membership_valid c.
Proof.
  unfold validate_membership_content, membership_valid.
  rewrite !rbind_unit_ok, !fail_if_ok, N.ltb_ge, windows2_any_sorted, negb_false_iff.
  unfold u64_eqb. rewrite N.eqb_neq. change (uint_val (as_u64 0)) with 0%N.
  split; intros; destruct_and!; split_and!; try done; try lia; by apply binary_search_elem_of.
Qed.

Lemma account_verify_ed25519_ok key domain i signature object :
  account_verify_ed25519 key (prefixed domain (enc_item i)) signature object = Ok tt ↔
  signed_by key domain i signature.
Proof.
  unfold account_verify_ed25519, signed_by, prefixed.
  by rewrite !rbind_unit_ok, !fail_if_ok, !negb_false_iff.
Qed.

(** strict decoding followed by verification accepts a byte string exactly
    when it is the encoding of the returned device list. *)
Theorem account_device_list_roundtrip bs x :
  decode_and_verify_signed_account_device_list_v1 bs = Ok x ↔
  encode_signed_account_device_list_v1 x = Ok bs.
Proof.
  eapply decode_verify_iff; [apply decode_device_list_spec|apply encode_device_list_spec|].
  apply verify_device_list_decodable.
Qed.

(** strict decoding followed by verification accepts a byte string exactly
    when it is the encoding of the returned membership. *)
Theorem conversation_membership_roundtrip bs x :
  decode_and_verify_signed_conversation_membership_v1 bs = Ok x ↔
  encode_signed_conversation_membership_v1 x = Ok bs.
Proof.
  eapply decode_verify_iff; [apply decode_membership_spec|apply encode_membership_spec|].
  by intros y [? _]%rbind_unit_ok.
Qed.

(** A device list that decodes and verifies is signed by the account of
    its snapshot, is valid (no revoked device, no certificate newer than the
    snapshot, no duplicate, full capabilities), and each certificate in it is
    signed by the same account. *)
Theorem account_device_list_sound bs x :
  decode_and_verify_signed_account_device_list_v1 bs = Ok x →
  let c := x.(list_content) in
  let account := c.(list_authority_snapshot).(snap_content).(snap_account_id) in
  device_list_valid c ∧ snapshot_valid c.(list_authority_snapshot).(snap_content) ∧
  signed_by account CANONICAL_ACCOUNT_DEVICE_LIST_SIGNATURE_DOMAIN
    (device_list_content_item c) x.(list_signature) ∧
  Forall (fun d => signed_by account CANONICAL_DEVICE_CERTIFICATE_SIGNATURE_DOMAIN
    (certificate_content_item d.(cert_content)) d.(cert_signature)) c.(list_devices).
Proof.
  unfold decode_and_verify_signed_account_device_list_v1. intros Hx. result_inv.
  destruct (verify_device_list_valid _ E0) as (Hv%validate_device_list_ok & Hs & Hc). cbv zeta.
  split; [done|]. split; [by apply validate_snapshot_ok, verify_snapshot_valid|]. split.
  - unfold verify_signed_account_device_list_v1, account_device_list_signing_bytes_v1 in E0.
    result_inv. apply encode_device_list_content_spec in E5 as (_ & _ & _ & ->).
    by apply account_verify_ed25519_ok in E0.
  - destruct Hv as (_ & Hcov & _). rewrite Forall_forall in Hc, Hcov |- *. intros d Hd.
    destruct (Hcov d Hd) as [[Ha _] _]. rewrite <-Ha. by apply verify_certificate_signed, Hc.
Qed.

(** a membership that decodes and verifies is signed by its owner, lists
    the owner, has a positive revision and no duplicate member. *)
Theorem conversation_membership_sound bs x :
  decode_and_verify_signed_conversation_membership_v1 bs = Ok x →
  membership_valid x.(mem_content) ∧
  signed_by x.(mem_content).(mem_owner_account_id)
    CANONICAL_CONVERSATION_MEMBERSHIP_SIGNATURE_DOMAIN
    (membership_content_item x.(mem_content)) x.(mem_signature).
Proof.
  unfold decode_and_verify_signed_conversation_membership_v1,
    verify_signed_conversation_membership_v1, conversation_membership_signing_bytes_v1.
  intros Hx. result_inv. split; [by apply validate_membership_ok|].
  apply encode_membership_content_spec in E3 as [_ ->]. by apply account_verify_ed25519_ok in E0.
Qed.

End correctness.

(** * Concrete artifacts *)

Module AccountExample.
Import AuthorityExample.

#[local] Existing Instance Toy.ed25519_instance.

Definition device_list : CanonicalSignedAccountDeviceListV1 :=
  let content := {|
    list_authority_snapshot := snapshot;
    list_devices := [certificate 2; certificate 4]
  |} in
  {| list_content := content;
     list_signature := sign (id 1)
       (CANONICAL_ACCOUNT_DEVICE_LIST_SIGNATURE_DOMAIN ++
        enc_item (device_list_content_item content)) |}.

Definition membership : CanonicalSignedConversationMembershipV1 :=
  let content := {|
    mem_conversation_id := id 8;
    mem_revision := as_u64 1;
    mem_owner_account_id := id 2;
    mem_members := [id 1; id 2; id 3]
  |} in
  {| mem_content := content;
     mem_signature := sign (id 2)
       (CANONICAL_CONVERSATION_MEMBERSHIP_SIGNATURE_DOMAIN ++
        enc_item (membership_content_item content)) |}.

Lemma account_device_list_sound_witness : device_list_valid device_list.(list_content).
Proof.
  destruct (account_device_list_sound (enc_item (device_list_item device_list)) device_list)
    as (Hv & _); [vm_compute; reflexivity|exact Hv].
Defined.

Lemma conversation_membership_sound_witness : membership_valid membership.(mem_content).
Proof.
  destruct (conversation_membership_sound (enc_item (membership_item membership)) membership)
    as (Hv & _); [vm_compute; reflexivity|exact Hv].
Defined.

End AccountExample.
