(* ===== verification/SyncHistoryV2.v ===== *)
(** Typed event keys of
    [crates/kilogram-protocol/src/canonical_sync_history_v2.rs]: an event
    identifier together with the namespace (active Postcard history or native
    canonical events) it belongs to, its order and its codec.  The event
    carriers of that file are not modelled. *)

From stdpp Require Import base tactics list numbers strings.
From Stdlib Require Import Strings.Byte Sorting.Sorted.
From S2P Require Import Prelude Crypto CanonicalV1 Decoder AuthorityV1 AccountV1.

Definition MAX_CANONICAL_SYNC_HISTORY_V2_OBJECT_BYTES : usize := 8 * 1024 * 1024.
Definition LEGACY_POSTCARD_V6_EVENT_NAMESPACE : u64 := as_u64 1.
Definition CANONICAL_CBOR_V1_EVENT_NAMESPACE : u64 := as_u64 2.

(** * Data *)

#[local] Set Primitive Projections.

Inductive CanonicalSyncEventNamespaceV2 := LegacyPostcardV6 | CanonicalCborV1.

Record CanonicalSyncEventKeyV2 := new_key {
  key_namespace : CanonicalSyncEventNamespaceV2;
  key_event_id : arr 32
}.

(** The variants that wrap the errors of event carriers are left out with the
    carriers; no operation on keys raises them. *)
Inductive CanonicalSyncHistoryV2Error :=
| HistoryAccount (error : CanonicalAccountError)
| ObjectTooLarge
| UnknownEventNamespace (value : u64).

Definition namespace_code (namespace : CanonicalSyncEventNamespaceV2) : u64 :=
  match namespace with
  | LegacyPostcardV6 => LEGACY_POSTCARD_V6_EVENT_NAMESPACE
  | CanonicalCborV1 => CANONICAL_CBOR_V1_EVENT_NAMESPACE
  end.

Definition namespace_from_code (code : u64)
  : result CanonicalSyncHistoryV2Error CanonicalSyncEventNamespaceV2 :=
  if u64_eqb code LEGACY_POSTCARD_V6_EVENT_NAMESPACE then Ok LegacyPostcardV6
  else if u64_eqb code CANONICAL_CBOR_V1_EVENT_NAMESPACE then Ok CanonicalCborV1
  else Err (UnknownEventNamespace code).

(** * Operations *)

Definition history_ensure_bound (bs : bytes) : result CanonicalSyncHistoryV2Error unit :=
  if (MAX_CANONICAL_SYNC_HISTORY_V2_OBJECT_BYTES <? len bs)%N then Err ObjectTooLarge else Ok tt.

Definition history_bounded (bs : bytes) : result CanonicalSyncHistoryV2Error bytes :=
  history_ensure_bound bs ;?
  Ok bs.

Definition history_validate_input (bs : bytes) : result CanonicalSyncHistoryV2Error unit :=
  history_ensure_bound bs ;?
  map_err (fun e => HistoryAccount (AccountWire e)) (validate_canonical_profile_v1 bs).

Definition key_encode (self : CanonicalSyncEventKeyV2) : result CanonicalSyncHistoryV2Error bytes :=
  history_bounded ([]
    |> push_array_header (as_u64 3)
    |> push_unsigned CANONICAL_PROFILE_VERSION
    |> push_unsigned (namespace_code self.(key_namespace))
    |> push_bytes self.(key_event_id)).

(** The fields [CanonicalSyncEventKeyV2::decode] reads before [finish]. *)
Definition key_decode_fields : dec CanonicalSyncHistoryV2Error CanonicalSyncEventKeyV2 :=
  dmap_err HistoryAccount (AccountDecoder.expect_array "sync-event-key-v2" 3) ;!
  dmap_err HistoryAccount (AccountDecoder.expect_version "sync-event-key-v2.schema_version") ;!
  let! namespace :=
    (let! code := dmap_err HistoryAccount (AccountDecoder.unsigned "sync-event-key-v2.namespace") in
     dlift (namespace_from_code code)) in
  let! event_id := dmap_err HistoryAccount
                     (AccountDecoder.fixed_bytes 32 "sync-event-key-v2.event_id") in
  dret (new_key namespace event_id).

Definition key_decode (bs : bytes) : result CanonicalSyncHistoryV2Error CanonicalSyncEventKeyV2 :=
  history_validate_input bs ;?
  let? (key, decoder) := key_decode_fields (AccountDecoder.new bs) in
  map_err HistoryAccount (AccountDecoder.finish decoder) ;?
  Ok key.

(** * Order: derived, by namespace and then by identifier *)

Definition namespace_cmp (a b : CanonicalSyncEventNamespaceV2) : comparison :=
  (namespace_code a ?= namespace_code b)%N.

Definition key_cmp (a b : CanonicalSyncEventKeyV2) : comparison :=
  match namespace_cmp a.(key_namespace) b.(key_namespace) with
  | Eq => cmp a.(key_event_id) b.(key_event_id)
  | c => c
  end.

#[export] Instance namespace_eq_dec : EqDecision CanonicalSyncEventNamespaceV2.
Proof. solve_decision. Defined.

Lemma key_eq (a b : CanonicalSyncEventKeyV2) :
  a.(key_namespace) = b.(key_namespace) → a.(key_event_id) = b.(key_event_id) → a = b.
Proof. destruct a, b. cbn. congruence. Qed.

#[export] Instance key_eq_dec : EqDecision CanonicalSyncEventKeyV2.
Proof.
  intros a b. destruct (decide (a.(key_namespace) = b.(key_namespace))) as [En|Hn].
  - destruct (decide (a.(key_event_id) = b.(key_event_id))) as [Ei|Hi].
    + left. exact (key_eq a b En Ei).
    + right. congruence.
  - right. congruence.
Defined.

#[export] Instance key_ord : Ord CanonicalSyncEventKeyV2.
Proof.
  refine {| cmp := key_cmp |}; unfold key_cmp.
  - intros [n i] [n' i']. cbn [key_namespace key_event_id].
    destruct n, n'; vm_compute (namespace_cmp _ _); try (split; congruence);
      rewrite cmp_eq; split; congruence.
  - intros [n i] [n' i']. cbn [key_namespace key_event_id].
    destruct n, n'; vm_compute (namespace_cmp _ _); try done; apply cmp_opp.
  - intros [n1 i1] [n2 i2] [n3 i3]. cbn [key_namespace key_event_id].
    destruct n1, n2, n3; vm_compute (namespace_cmp _ _); try done; apply cmp_lt_trans.
Defined.

(** * Codec *)

Definition key_item (k : CanonicalSyncEventKeyV2) : item :=
  IArray [IUnsigned CANONICAL_PROFILE_VERSION; IUnsigned (namespace_code k.(key_namespace));
          IBytes k.(key_event_id)].

Lemma key_item_len k : len (enc_item (key_item k)) = 37%N.
Proof.
  destruct k as [n i]. unfold key_item. cbn [key_namespace key_event_id].
  rewrite enc_item_array, !enc_items_cons, enc_items_nil, !len_app. cbn [enc_item].
  rewrite len_app, !len_arr. by destruct n.
Qed.

Lemma history_bound_key k : history_ensure_bound (enc_item (key_item k)) = Ok tt.
Proof. unfold history_ensure_bound. by rewrite key_item_len. Qed.

Lemma key_encode_ok k : key_encode k = Ok (enc_item (key_item k)).
Proof.
  unfold key_encode, history_bounded.
  enough (E : [] |> push_array_header (as_u64 3)
      |> push_unsigned CANONICAL_PROFILE_VERSION
      |> push_unsigned (namespace_code k.(key_namespace))
      |> push_bytes k.(key_event_id) = enc_item (key_item k))
    by (rewrite E, history_bound_key; done).
  unfold key_item. by push_norm.
Qed.

#[export] Instance reads_namespace field :
  Reads (let! code := dmap_err HistoryAccount (AccountDecoder.unsigned field) in
         dlift (namespace_from_code code))
    (fun n => enc_item (IUnsigned (namespace_code n))) (fun _ => True).
Proof.
  apply (reads_map (dmap_err HistoryAccount (AccountDecoder.unsigned field))
    (fun v => enc_item (IUnsigned v)) (fun _ => True) _ namespace_from_code namespace_code);
    [|done|done].
  intros v n _. unfold namespace_from_code. split.
  - destruct (u64_eqb v _) eqn:E1; [apply u64_eqb_eq in E1; by intros [= <-]|].
    destruct (u64_eqb v CANONICAL_CBOR_V1_EVENT_NAMESPACE) eqn:E2; [|done].
    apply u64_eqb_eq in E2. by intros [= <-].
  - intros [-> _]. by destruct n.
Qed.

#[export] Instance reads_key :
  Reads key_decode_fields (fun k => enc_item (key_item k)) (fun _ => True).
Proof.
  unfold key_decode_fields. split.
  - intros d k rest Hf _ Hat. unfold key_item in Hat. push_norm_in Hat.
    do 4 read_step. read_done ltac:(unfold key_item).
  - intros d l k d' Hat H. read_invs H. read_end ltac:(unfold key_item). done.
Qed.

Lemma key_in_profile k : item_in_profile (key_item k).
Proof.
  eapply (shape_in_profile 4 1); [|lia|done].
  eapply items_shape_eq; [unfold key_item; items_shape|lia].
Qed.

Lemma key_decode_spec bs k : key_decode bs = Ok k ↔ bs = enc_item (key_item k).
Proof.
  transitivity (history_ensure_bound bs = Ok tt ∧
    decode_message (fun e => HistoryAccount (AccountWire e)) key_decode_fields bs = Ok k).
  { unfold key_decode, history_validate_input, decode_message.
    destruct (history_ensure_bound bs) as [[]|]; cbn [rbind]; [|by intuition].
    unfold AccountDecoder.new. destruct (map_err _ _) as [[]|]; cbn [rbind]; [|by intuition].
    destruct (key_decode_fields _) as [[k' d]|]; cbn [rbind]; [|by intuition].
    unfold AccountDecoder.finish. destruct (_ =? _)%N; cbn [map_err rbind]; by intuition. }
  rewrite (decode_message_iff _ _ key_item (fun _ => True)) by auto using key_in_profile.
  split; [by intros (_ & _ & ->)|]. intros ->. auto using history_bound_key.
Qed.

(** every event key encodes, and decoding accepts exactly the encodings
    and returns the key: keys of different namespaces or identifiers have
    different encodings. *)
Theorem event_key_codec_bijective bs k :
  key_decode bs = Ok k ↔ key_encode k = Ok bs.
Proof.
  rewrite key_decode_spec, key_encode_ok. split; [by intros ->|]. intros H. by apply Ok_inj in H.
Qed.
