(* ===== verification/SyncCheckpoint.v ===== *)
(** Parts common to the two checkpoint chains of canonical sync v2, the
    initiator's [canonical_sync_session_v2.rs] and the responder's
    [canonical_sync_responder_session_v2.rs]: the source repeats these helpers
    in both files over two error enumerations.  [CheckpointErrors] is the
    interface to an error enumeration; the helpers are defined and proved once
    against it. *)

From stdpp Require Import base tactics list numbers strings.
From Stdlib Require Import Strings.Byte Sorting.Sorted.
From S2P Require Import Prelude Crypto CanonicalV1 Decoder AuthorityV1 AccountV1 SyncHistoryV2.

Definition CANONICAL_SYNC_SESSION_PROTOCOL_IDENTIFIER_V2 : arr 23 :=
  arr_of 23 (b_str "kilogram/m1/sync/cbor/2").
Definition MAX_CANONICAL_SYNC_SESSION_EVENT_KEYS_V2 : usize := 4096.
Definition MAX_CANONICAL_SYNC_SESSION_CHECKPOINT_BYTES_V2 : usize := 512 * 1024.

Class CheckpointErrors (E : Type) := {
  err_wire : CanonicalWireError → E;
  err_account : CanonicalAccountError → E;
  err_history : CanonicalSyncHistoryV2Error → E;
  err_checkpoint_too_large : E;
  err_too_many_event_keys : string → usize → usize → E;
  err_non_canonical_event_key_order : string → E;
  err_invalid_boolean : string → u64 → E;
  err_event_evidence_rollback : string → E
}.

Section helpers.
Context `{CheckpointErrors E}.

Definition encode_optional_id (id : option (arr 32)) (output : bytes) : bytes :=
  match id with
  | None => output |> push_array_header (as_u64 0)
  | Some id => output |> push_array_header (as_u64 1) |> push_bytes id
  end.

Definition decode_optional_id (field : string) : dec E (option (arr 32)) :=
  let! count := dmap_err err_account (AccountDecoder.array field) in
  match count with
  | 0%N => dret None
  | 1%N => let! id := dmap_err err_account (AccountDecoder.fixed_bytes 32 field) in dret (Some id)
  | actual => dlift (Err (err_account (AccountWrongArrayLength field 1 actual)))
  end.

Definition encode_keys (keys : list CanonicalSyncEventKeyV2) (output : bytes) : result E bytes :=
  try_fold (fun key output =>
      let? encoded := map_err err_history (key_encode key) in
      Ok (push_bytes encoded output))
    keys (push_array_header (as_u64 (len keys)) output).

Definition validate_keys (field : string) (keys : list CanonicalSyncEventKeyV2) : result E unit :=
  fail_if (MAX_CANONICAL_SYNC_SESSION_EVENT_KEYS_V2 <? len keys)%N
    (err_too_many_event_keys field (len keys) MAX_CANONICAL_SYNC_SESSION_EVENT_KEYS_V2) ;?
  fail_if (windows2_any ord_geb keys) (err_non_canonical_event_key_order field).

Definition decode_keys (field : string) : dec E (list CanonicalSyncEventKeyV2) :=
  let! count := dmap_err err_account (AccountDecoder.array field) in
  dlift (fail_if (MAX_CANONICAL_SYNC_SESSION_EVENT_KEYS_V2 <? count)%N
    (err_too_many_event_keys field count MAX_CANONICAL_SYNC_SESSION_EVENT_KEYS_V2)) ;!
  let! keys := dec_repeat (N.to_nat count)
    (let! bs := dmap_err err_account (AccountDecoder.bytes_ field) in
     dlift (map_err err_history (key_decode bs))) in
  dlift (validate_keys field keys) ;!
  dret keys.

Definition decode_bool (field : string) : dec E bool :=
  let! value := dmap_err err_account (AccountDecoder.unsigned field) in
  dlift (match uint_val value with
         | 0%N => Ok false
         | 1%N => Ok true
         | _ => Err (err_invalid_boolean field value)
         end).

Definition ensure_bound (bs : bytes) : result E unit :=
  if (MAX_CANONICAL_SYNC_SESSION_CHECKPOINT_BYTES_V2 <? len bs)%N
  then Err err_checkpoint_too_large else Ok tt.

Definition bounded (bs : bytes) : result E bytes :=
  ensure_bound bs ;?
  Ok bs.

Definition validate_input (bs : bytes) : result E unit :=
  ensure_bound bs ;?
  map_err err_wire (validate_canonical_profile_v1 bs).

(** [while successor_index < successor.len() && successor[successor_index] <
    *previous_key { successor_index += 1 }]; [fuel] is the length of
    [successor], which bounds the iterations. *)
Fixpoint skip_smaller (fuel : nat) (successor : list CanonicalSyncEventKeyV2)
  (previous_key : CanonicalSyncEventKeyV2) (successor_index : nat) : nat :=
  match fuel with
  | O => successor_index
  | S fuel =>
      match successor !! successor_index with
      | Some key =>
          if ord_ltb key previous_key
          then skip_smaller fuel successor previous_key (successor_index + 1)
          else successor_index
      | None => successor_index
      end
  end.

Definition require_monotonic_evidence (field : string)
  (previous successor : list CanonicalSyncEventKeyV2) : result E unit :=
  try_fold (fun previous_key successor_index =>
      let successor_index :=
        skip_smaller (length successor) successor previous_key successor_index in
      fail_if (negb (bool_decide (successor !! successor_index = Some previous_key)))
        (err_event_evidence_rollback field) ;?
      Ok (successor_index + 1))
    previous 0 ;?
  Ok tt.

(** * Items *)

Definition optional_item (id : option (arr 32)) : item :=
  match id with None => IArray [] | Some id => IArray [IBytes id] end.

Definition keys_item (keys : list CanonicalSyncEventKeyV2) : item :=
  IArray (map (fun k => nested (key_item k)) keys).

Definition bool_item (b : bool) : item := IUnsigned (u64_of_bool b).

Lemma encode_optional_id_app id output :
  encode_optional_id id output = output ++ enc_item (optional_item id).
Proof.
  destruct id as [id|]; unfold encode_optional_id, optional_item; push_norm; done.
Qed.

Lemma encode_keys_app keys output :
  encode_keys keys output = Ok (output ++ enc_item (keys_item keys)).
Proof.
  apply (try_fold_append (fun key => Ok (enc_item (nested (key_item key)))) (fun _ => True)
    (fun key => enc_item (nested (key_item key)))).
  - intros k b. split; [intros Hk; by apply Ok_inj in Hk|]. by intros [_ ->].
  - intros k s. rewrite key_encode_ok. cbn [map_err rbind]. by rewrite push_bytes_app.
  - split; [by apply Forall_true|]. unfold keys_item. by push_norm.
Qed.

Definition keys_valid (keys : list CanonicalSyncEventKeyV2) : Prop :=
  (len keys <= MAX_CANONICAL_SYNC_SESSION_EVENT_KEYS_V2)%N ∧ StronglySorted ord_lt keys.

Lemma validate_keys_ok field keys : validate_keys field keys = Ok tt ↔ keys_valid keys.
Proof.
  unfold validate_keys, keys_valid.
  by rewrite rbind_unit_ok, !fail_if_ok, N.ltb_ge, windows2_any_sorted.
Qed.

#[export] Instance reads_optional_id field :
  Reads (decode_optional_id field) (fun id => enc_item (optional_item id)) (fun _ => True).
Proof.
  unfold decode_optional_id. split.
  - intros d [id|] rest Hf _ Hat; unfold optional_item in Hat; push_norm_in Hat.
    + read_step; [done|]. change (len [IBytes id]) with 1%N. cbv iota.
      read_step. read_done ltac:(unfold optional_item).
    + read_step; [done|]. read_done ltac:(unfold optional_item).
  - intros d l id d' Hat Hd. read_inv Hd. destruct x as [|[|p|]]; try discriminate Hd.
    + read_invs Hd. read_end ltac:(unfold optional_item). done.
    + read_invs Hd. read_end ltac:(unfold optional_item). done.
Qed.

#[export] Instance reads_key_field field :
  Reads (let! bs := dmap_err err_account (AccountDecoder.bytes_ field) in
         dlift (map_err err_history (key_decode bs)))
    (fun k => enc_item (nested (key_item k))) (fun _ => True).
Proof.
  apply (reads_map (dmap_err err_account (AccountDecoder.bytes_ field))
    (fun b => enc_item (IBytes b)) (fun b => (len b < U64_BOUND)%N) _
    (fun bs => map_err err_history (key_decode bs)) (fun k => enc_item (key_item k)));
    [| |done].
  - intros a k _. rewrite map_err_ok, key_decode_spec. tauto.
  - intros k _. by rewrite key_item_len.
Qed.

#[export] Instance reads_keys field :
  Reads (decode_keys field) (fun ks => enc_item (keys_item ks)) keys_valid.
Proof.
  unfold decode_keys. split.
  - intros d ks rest Hf Hok Hat. pose proof Hok as [Hb _].
    unfold keys_item in Hat. push_norm_in Hat. read_step; [by eapply N.le_lt_trans|]. read_step.
    rewrite (proj2 (N.ltb_ge _ _) Hb). cbn [fail_if rbind].
    read_step; [split; [by unfold len; rewrite Nat2N.id|by apply Forall_true]|]. read_step.
    apply (validate_keys_ok field) in Hok. guard_ok Hok. read_done ltac:(unfold keys_item).
  - intros d l ks d' Hat Hd. read_invs Hd. read_end ltac:(unfold keys_item).
    by apply (validate_keys_ok field).
Qed.

#[export] Instance reads_bool field :
  Reads (decode_bool field) (fun b => enc_item (bool_item b)) (fun _ => True).
Proof.
  apply (reads_map (dmap_err err_account (AccountDecoder.unsigned field))
    (fun v => enc_item (IUnsigned v)) (fun _ => True) _
    (fun value => match uint_val value with
                  | 0%N => Ok false
                  | 1%N => Ok true
                  | _ => Err (err_invalid_boolean field value)
                  end) u64_of_bool); [|done|done].
  intros v b _. split.
  - intros Hb. split; [|done]. apply uint_eq.
    destruct (uint_val v) as [|[p|p|]] eqn:Ev; try discriminate Hb; by injection Hb as <-.
  - intros [-> _]. by destruct b.
Qed.

(** * Sizes *)

Lemma nested_key_len k : len (enc_item (nested (key_item k))) = 39%N.
Proof.
  unfold nested. cbn [enc_item]. by rewrite len_app, key_item_len.
Qed.

Lemma keys_item_len keys :
  (len (enc_item (keys_item keys)) <= 9 + 39 * len keys)%N.
Proof.
  unfold keys_item. rewrite enc_item_array, len_app, enc_items_map.
  pose proof (len_head_bytes 4 (as_u64 (len (map (fun k => nested (key_item k)) keys)))) as Hh.
  enough (len (concat (map (fun k => enc_item (nested (key_item k))) keys)) = 39 * len keys)%N
    by lia. clear Hh.
  induction keys as [|k ks IH]; [done|]. cbn [map concat].
  rewrite len_app, nested_key_len, IH, len_cons. lia.
Qed.

Lemma keys_shape keys : items_shape (length keys + 1) 1 [keys_item keys].
Proof.
  eapply items_shape_eq.
  - unfold keys_item. apply items_shape_array, (items_shape_map _ 1), Forall_true. intros k.
    apply items_shape_leaf. unfold nested, leaf_item. by rewrite key_item_len.
  - lia.
Qed.

Lemma optional_shape id :
  items_shape (match id with Some _ => 2 | None => 1 end) 1 [optional_item id].
Proof.
  destruct id; (eapply items_shape_eq; [unfold optional_item; items_shape|done]).
Qed.

(** * Monotonic evidence *)

(** The suffix the [while] loop stops at. *)
Fixpoint drop_smaller (key : CanonicalSyncEventKeyV2) (l : list CanonicalSyncEventKeyV2) :=
  match l with
  | [] => []
  | k :: l' => if ord_ltb k key then drop_smaller key l' else l
  end.

Lemma skip_smaller_drop fuel l key i :
  length l <= i + fuel → drop (skip_smaller fuel l key i) l = drop_smaller key (drop i l).
Proof.
  revert i; induction fuel as [|fuel IH]; intros i Hf; cbn [skip_smaller].
  - rewrite !drop_ge by lia. done.
  - destruct (l !! i) as [k|] eqn:Ei.
    + rewrite (drop_S _ k i Ei). cbn [drop_smaller]. destruct (ord_ltb k key) eqn:Ek.
      * rewrite IH by lia. by rewrite Nat.add_1_r.
      * by rewrite (drop_S _ k i Ei).
    + apply lookup_ge_None in Ei. by rewrite !drop_ge.
Qed.

Lemma drop_smaller_sorted key l :
  StronglySorted ord_lt l → key ∈ l →
  ∃ l', drop_smaller key l = key :: l' ∧ StronglySorted ord_lt l' ∧
    ∀ k, ord_lt key k → k ∈ l ↔ k ∈ l'.
Proof.
  induction 1 as [|k l Hs IH Hall]; [by intros ?%not_elem_of_nil|].
  rewrite elem_of_cons. intros Hk. cbn [drop_smaller]. destruct (ord_ltb k key) eqn:Ek.
  - apply ord_ltb_lt in Ek. destruct Hk as [->|Hk]; [by destruct (ord_lt_irrefl _ Ek)|].
    destruct (IH Hk) as (l' & -> & Hs' & Hl'). exists l'. do 2 (split; [done|]).
    intros j Hj. rewrite elem_of_cons, Hl' by done. split; [|by right].
    intros [->|]; [|done]. by destruct (ord_lt_not_gt _ _ Ek).
  - assert (k = key) as ->.
    { destruct Hk as [|Hk]; [done|]. rewrite Forall_forall in Hall. specialize (Hall key Hk).
      apply ord_ltb_lt in Hall. congruence. }
    exists l. do 2 (split; [done|]). intros j Hj. rewrite elem_of_cons. split; [|by right].
    intros [->|]; [|done]. by destruct (ord_lt_irrefl _ Hj).
Qed.

Lemma drop_smaller_incl key l k : k ∈ drop_smaller key l → k ∈ l.
Proof.
  induction l as [|j l IH]; cbn [drop_smaller]; [done|].
  destruct (ord_ltb j key); [|done]. intros Hk. right. by apply IH.
Qed.

Lemma lookup_head_drop (l : list CanonicalSyncEventKeyV2) i : l !! i = head (drop i l).
Proof. by rewrite head_lookup, lookup_drop, Nat.add_0_r. Qed.

Lemma drop_add_1 (l : list CanonicalSyncEventKeyV2) i : drop (i + 1) l = tail (drop i l).
Proof. rewrite <-drop_drop. by destruct (drop i l). Qed.

(** The merge loop decides inclusion of one sorted list in another. *)
Lemma monotonic_evidence_ok field previous successor :
  StronglySorted ord_lt previous → StronglySorted ord_lt successor →
  require_monotonic_evidence field previous successor = Ok tt ↔
  ∀ k, k ∈ previous → k ∈ successor.
Proof.
  intros Hp Hs. unfold require_monotonic_evidence.
  enough (∀ i, StronglySorted ord_lt (drop i successor) →
    (∃ j, try_fold (fun previous_key successor_index =>
        fail_if (negb (bool_decide
          (successor !! skip_smaller (length successor) successor previous_key successor_index
           = Some previous_key))) (err_event_evidence_rollback field) ;?
        Ok (skip_smaller (length successor) successor previous_key successor_index + 1))
      previous i = Ok j) ↔ ∀ k, k ∈ previous → k ∈ drop i successor) as Hloop.
  { specialize (Hloop 0 Hs). rewrite drop_0 in Hloop. rewrite <-Hloop. split.
    - intros Hr. result_inv. eauto.
    - intros [j Hj]. cbv zeta. by rewrite Hj. }
  induction Hp as [|key previous Hp IH Hall]; intros i Hi; cbn [try_fold].
  - split; [by intros _ k ?%not_elem_of_nil|eauto].
  - set (j := skip_smaller (length successor) successor key i).
    assert (Hj : drop j successor = drop_smaller key (drop i successor))
      by (apply skip_smaller_drop; lia).
    rewrite lookup_head_drop, Hj. setoid_rewrite elem_of_cons. rewrite Forall_forall in Hall.
    split.
    + intros [r Hr]. result_inv. apply negb_false_iff, bool_decide_eq_true in G.
      assert (Hkey : key ∈ drop i successor).
      { apply drop_smaller_incl with key. destruct (drop_smaller key _); [done|].
        injection G as ->. by left. }
      destruct (drop_smaller_sorted _ _ Hi Hkey) as (l' & El & Hs' & Hl').
      rewrite <-Hj in El. specialize (IH (j + 1)).
      rewrite drop_add_1, El in IH. cbn [tail] in IH.
      intros k [->|Hk]; [done|]. apply Hl'; [by apply Hall|]. apply IH; eauto.
    + intros Hsub. destruct (drop_smaller_sorted _ _ Hi (Hsub key (or_introl eq_refl)))
        as (l' & El & Hs' & Hl').
      rewrite El. cbn [head]. rewrite bool_decide_true by done. cbn [negb fail_if rbind].
      rewrite <-Hj in El. apply IH; rewrite drop_add_1, El; [done|]. cbn [tail].
      intros k Hk. apply Hl'; auto.
Qed.

Lemma ensure_bound_ok bs :
  ensure_bound bs = Ok tt ↔ (len bs <= MAX_CANONICAL_SYNC_SESSION_CHECKPOINT_BYTES_V2)%N.
Proof.
  unfold ensure_bound. rewrite <-N.ltb_ge. by destruct (_ <? _)%N.
Qed.

Lemma bounded_ok bs : ensure_bound bs = Ok tt → bounded bs = Ok bs.
Proof. unfold bounded. by intros ->. Qed.

End helpers.
