(* ===== verification/SyncSessionV2.v ===== *)
(** The initiator's durable synchronization session of
    [crates/kilogram-protocol/src/canonical_sync_session_v2.rs]: device-signed,
    hash-linked checkpoints, their codec and the successor check.

    [session_step] is the abstract transition system of a session; the
    successor check is shown to accept exactly its steps between verified,
    linked checkpoints, and the properties of whole chains are proved by
    induction on the reflexive-transitive closure of the check. *)

From stdpp Require Import base tactics list numbers strings relations.
From Stdlib Require Import Strings.Byte Sorting.Sorted.
From S2P Require Import Prelude Crypto CanonicalV1 Decoder AuthorityV1 AccountV1 SyncHistoryV2.
From S2P Require Import HashChain SyncCheckpoint.

Definition CANONICAL_SYNC_SESSION_CHECKPOINT_SIGNATURE_DOMAIN_V2 : bytes :=
  b_str "kilogram:sync-session-checkpoint-signature:cbor-v2" ++ [x00].
Definition CANONICAL_SYNC_SESSION_CHECKPOINT_ID_DOMAIN_V2 : bytes :=
  b_str "kilogram:sync-session-checkpoint-id:cbor-v2" ++ [x00].

(** * Data *)

#[local] Set Primitive Projections.

Inductive CanonicalSyncNextActionV2 :=
| SendInventory
| ReceiveDiff
| SendEventBatch
| ReceiveComplete
| Complete
| Rejected.

Record CanonicalSyncSessionCheckpointContentV2 := {
  protocol_identifier : arr 23;
  conversation_id : arr 32;
  local_device_id : arr 32;
  peer_device_id : arr 32;
  session_binding : arr 32;
  checkpoint_sequence : u64;
  sync_round : u64;
  predecessor_checkpoint_id : option (arr 32);
  received_event_keys : list CanonicalSyncEventKeyV2;
  sent_event_keys : list CanonicalSyncEventKeyV2;
  local_more_available : bool;
  peer_more_available : bool;
  next_action : CanonicalSyncNextActionV2;
  paused : bool
}.

Record CanonicalSignedSyncSessionCheckpointV2 := {
  content : CanonicalSyncSessionCheckpointContentV2;
  signature : arr 64
}.

Inductive CanonicalSyncSessionV2Error :=
| SessionWire (error : CanonicalWireError)
| SessionAccount (error : CanonicalAccountError)
| SessionHistory (error : CanonicalSyncHistoryV2Error)
| CheckpointTooLarge
| WrongProtocolIdentifier
| SameDevice
| InvalidCheckpointSequence
| InvalidSyncRound
| InvalidPredecessorPresence
| TooManyEventKeys (field : string) (actual maximum : usize)
| NonCanonicalEventKeyOrder (field : string)
| InvalidBoolean (field : string) (actual : u64)
| UnknownNextAction (value : u64)
| InvalidTerminalState
| AmbiguousReceiveComplete
| SessionInvalidPublicKey (object : string)
| SessionInvalidSignature (object : string)
| SessionIdentityChanged
| CheckpointSequenceDiscontinuity
| PredecessorMismatch
| SyncRoundDiscontinuity
| EventEvidenceRollback (field : string)
| TerminalCheckpointHasSuccessor
| InvalidPauseTransition
| InvalidActionTransition.

#[export] Instance session_errors : CheckpointErrors CanonicalSyncSessionV2Error := {|
  err_wire := SessionWire;
  err_account := SessionAccount;
  err_history := SessionHistory;
  err_checkpoint_too_large := CheckpointTooLarge;
  err_too_many_event_keys := TooManyEventKeys;
  err_non_canonical_event_key_order := NonCanonicalEventKeyOrder;
  err_invalid_boolean := InvalidBoolean;
  err_event_evidence_rollback := EventEvidenceRollback
|}.

#[export] Instance action_eq_dec : EqDecision CanonicalSyncNextActionV2.
Proof. solve_decision. Defined.

Definition action_code (action : CanonicalSyncNextActionV2) : u64 :=
  match action with
  | SendInventory => as_u64 1
  | ReceiveDiff => as_u64 2
  | SendEventBatch => as_u64 3
  | ReceiveComplete => as_u64 4
  | Complete => as_u64 5
  | Rejected => as_u64 6
  end.

Definition action_from_code (code : u64)
  : result CanonicalSyncSessionV2Error CanonicalSyncNextActionV2 :=
  match uint_val code with
  | 1%N => Ok SendInventory
  | 2%N => Ok ReceiveDiff
  | 3%N => Ok SendEventBatch
  | 4%N => Ok ReceiveComplete
  | 5%N => Ok Complete
  | 6%N => Ok Rejected
  | _ => Err (UnknownNextAction code)
  end.

Definition is_terminal (action : CanonicalSyncNextActionV2) : bool :=
  match action with Complete | Rejected => true | _ => false end.

(** * Validation *)

Definition validate_content (content : CanonicalSyncSessionCheckpointContentV2)
  : result CanonicalSyncSessionV2Error unit :=
  fail_if (negb (bool_decide (content.(protocol_identifier)
                              = CANONICAL_SYNC_SESSION_PROTOCOL_IDENTIFIER_V2)))
    WrongProtocolIdentifier ;?
  fail_if (bool_decide (content.(local_device_id) = content.(peer_device_id))) SameDevice ;?
  fail_if (u64_eqb content.(checkpoint_sequence) (as_u64 0)) InvalidCheckpointSequence ;?
  fail_if (u64_eqb content.(sync_round) (as_u64 0) ||
           (content.(checkpoint_sequence) <? content.(sync_round))%N) InvalidSyncRound ;?
  fail_if (negb (Bool.eqb (u64_eqb content.(checkpoint_sequence) (as_u64 1))
                          (match content.(predecessor_checkpoint_id) with
                           | None => true | Some _ => false end)))
    InvalidPredecessorPresence ;?
  validate_keys "received_event_keys" content.(received_event_keys) ;?
  validate_keys "sent_event_keys" content.(sent_event_keys) ;?
  fail_if (is_terminal content.(next_action) &&
           (content.(paused) || content.(local_more_available) || content.(peer_more_available)))
    InvalidTerminalState ;?
  fail_if (bool_decide (content.(next_action) = ReceiveComplete) &&
           negb content.(local_more_available) && negb content.(peer_more_available))
    AmbiguousReceiveComplete.

Definition validate_pause_transition (previous successor : CanonicalSyncSessionCheckpointContentV2)
  : result CanonicalSyncSessionV2Error unit :=
  if is_terminal previous.(next_action)
     || is_terminal successor.(next_action)
     || Bool.eqb previous.(paused) successor.(paused)
     || negb (u64_eqb previous.(sync_round) successor.(sync_round))
     || negb (bool_decide (previous.(next_action) = successor.(next_action)))
     || negb (bool_decide (previous.(received_event_keys) = successor.(received_event_keys)))
     || negb (bool_decide (previous.(sent_event_keys) = successor.(sent_event_keys)))
     || negb (Bool.eqb previous.(local_more_available) successor.(local_more_available))
     || negb (Bool.eqb previous.(peer_more_available) successor.(peer_more_available))
  then Err InvalidPauseTransition
  else Ok tt.

(** * Encoding and verification *)

Section session.
Context `{Blake3} `{Ed25519}.

Definition session_verify_ed25519 (key : arr 32) (message : bytes) (signature : arr 64)
  (object : string) : result CanonicalSyncSessionV2Error unit :=
  fail_if (negb (verifying_key_ok key)) (SessionInvalidPublicKey object) ;?
  fail_if (negb (signature_ok signature)) (SessionInvalidSignature object) ;?
  fail_if (negb (verify_strict key message signature)) (SessionInvalidSignature object).

Definition encode_sync_session_checkpoint_content_v2
  (content : CanonicalSyncSessionCheckpointContentV2) : result CanonicalSyncSessionV2Error bytes :=
  validate_content content ;?
  let output := []
    |> push_array_header (as_u64 15)
    |> push_unsigned CANONICAL_PROFILE_VERSION
    |> push_bytes content.(protocol_identifier)
    |> push_bytes content.(conversation_id)
    |> push_bytes content.(local_device_id)
    |> push_bytes content.(peer_device_id)
    |> push_bytes content.(session_binding)
    |> push_unsigned content.(checkpoint_sequence)
    |> push_unsigned content.(sync_round)
    |> encode_optional_id content.(predecessor_checkpoint_id) in
  let? output := encode_keys content.(received_event_keys) output in
  let? output := encode_keys content.(sent_event_keys) output in
  bounded (output
    |> push_unsigned (u64_of_bool content.(local_more_available))
    |> push_unsigned (u64_of_bool content.(peer_more_available))
    |> push_unsigned (action_code content.(next_action))
    |> push_unsigned (u64_of_bool content.(paused))).

Definition sync_session_checkpoint_signing_bytes_v2
  (content : CanonicalSyncSessionCheckpointContentV2) : result CanonicalSyncSessionV2Error bytes :=
  let? encoded := encode_sync_session_checkpoint_content_v2 content in
  Ok (prefixed CANONICAL_SYNC_SESSION_CHECKPOINT_SIGNATURE_DOMAIN_V2 encoded).

Definition verify_signed_sync_session_checkpoint_v2
  (checkpoint : CanonicalSignedSyncSessionCheckpointV2) : result CanonicalSyncSessionV2Error unit :=
  validate_content checkpoint.(content) ;?
  let? message := sync_session_checkpoint_signing_bytes_v2 checkpoint.(content) in
  session_verify_ed25519 checkpoint.(content).(local_device_id) message
    checkpoint.(signature) "signed-sync-session-checkpoint-v2".

Definition encode_signed_sync_session_checkpoint_v2
  (checkpoint : CanonicalSignedSyncSessionCheckpointV2)
  : result CanonicalSyncSessionV2Error bytes :=
  verify_signed_sync_session_checkpoint_v2 checkpoint ;?
  let? content := encode_sync_session_checkpoint_content_v2 checkpoint.(content) in
  bounded (signed_envelope content checkpoint.(signature)).

Definition sync_session_checkpoint_id_v2 (checkpoint : CanonicalSignedSyncSessionCheckpointV2)
  : result CanonicalSyncSessionV2Error (arr 32) :=
  let? encoded := encode_signed_sync_session_checkpoint_v2 checkpoint in
  Ok (blake3 (CANONICAL_SYNC_SESSION_CHECKPOINT_ID_DOMAIN_V2 ++ encoded)).

(** * Decoding *)

Definition decode_content_from
  : dec CanonicalSyncSessionV2Error CanonicalSyncSessionCheckpointContentV2 :=
  dmap_err SessionAccount
    (AccountDecoder.expect_array "sync-session-checkpoint-content-v2" 15) ;!
  dmap_err SessionAccount
    (AccountDecoder.expect_version "sync-session-checkpoint-content-v2.schema_version") ;!
  let! protocol_identifier := dmap_err SessionAccount
    (AccountDecoder.fixed_bytes 23 "sync-session-checkpoint-content-v2.protocol_identifier") in
  let! conversation_id := dmap_err SessionAccount
    (AccountDecoder.fixed_bytes 32 "sync-session-checkpoint-content-v2.conversation_id") in
  let! local_device_id := dmap_err SessionAccount
    (AccountDecoder.fixed_bytes 32 "sync-session-checkpoint-content-v2.local_device_id") in
  let! peer_device_id := dmap_err SessionAccount
    (AccountDecoder.fixed_bytes 32 "sync-session-checkpoint-content-v2.peer_device_id") in
  let! session_binding := dmap_err SessionAccount
    (AccountDecoder.fixed_bytes 32 "sync-session-checkpoint-content-v2.session_binding") in
  let! checkpoint_sequence := dmap_err SessionAccount
    (AccountDecoder.unsigned "sync-session-checkpoint-content-v2.checkpoint_sequence") in
  let! sync_round := dmap_err SessionAccount
    (AccountDecoder.unsigned "sync-session-checkpoint-content-v2.sync_round") in
  let! predecessor_checkpoint_id :=
    decode_optional_id "sync-session-checkpoint-content-v2.predecessor_checkpoint_id" in
  let! received_event_keys :=
    decode_keys "sync-session-checkpoint-content-v2.received_event_keys" in
  let! sent_event_keys := decode_keys "sync-session-checkpoint-content-v2.sent_event_keys" in
  let! local_more_available :=
    decode_bool "sync-session-checkpoint-content-v2.local_more_available" in
  let! peer_more_available :=
    decode_bool "sync-session-checkpoint-content-v2.peer_more_available" in
  let! next_action :=
    (let! code := dmap_err SessionAccount
       (AccountDecoder.unsigned "sync-session-checkpoint-content-v2.next_action") in
     dlift (action_from_code code)) in
  let! paused := decode_bool "sync-session-checkpoint-content-v2.paused" in
  let content := {|
    protocol_identifier := protocol_identifier;
    conversation_id := conversation_id;
    local_device_id := local_device_id;
    peer_device_id := peer_device_id;
    session_binding := session_binding;
    checkpoint_sequence := checkpoint_sequence;
    sync_round := sync_round;
    predecessor_checkpoint_id := predecessor_checkpoint_id;
    received_event_keys := received_event_keys;
    sent_event_keys := sent_event_keys;
    local_more_available := local_more_available;
    peer_more_available := peer_more_available;
    next_action := next_action;
    paused := paused
  |} in
  dlift (validate_content content) ;!
  dret content.

(** The fields [decode_signed_sync_session_checkpoint_v2] reads before
    [finish]. *)
Definition decode_signed_fields
  : dec CanonicalSyncSessionV2Error CanonicalSignedSyncSessionCheckpointV2 :=
  dmap_err SessionAccount (AccountDecoder.expect_array "signed-sync-session-checkpoint-v2" 3) ;!
  dmap_err SessionAccount
    (AccountDecoder.expect_version "signed-sync-session-checkpoint-v2.schema_version") ;!
  let! content := decode_content_from in
  let! signature := dmap_err SessionAccount
    (AccountDecoder.fixed_bytes 64 "signed-sync-session-checkpoint-v2.signature") in
  dret {| content := content; signature := signature |}.

Definition decode_signed_sync_session_checkpoint_v2 (bs : bytes)
  : result CanonicalSyncSessionV2Error CanonicalSignedSyncSessionCheckpointV2 :=
  validate_input bs ;?
  let? (checkpoint, decoder) := decode_signed_fields (AccountDecoder.new bs) in
  map_err SessionAccount (AccountDecoder.finish decoder) ;?
  Ok checkpoint.

Definition decode_and_verify_signed_sync_session_checkpoint_v2 (bs : bytes)
  : result CanonicalSyncSessionV2Error CanonicalSignedSyncSessionCheckpointV2 :=
  let? checkpoint := decode_signed_sync_session_checkpoint_v2 bs in
  verify_signed_sync_session_checkpoint_v2 checkpoint ;?
  Ok checkpoint.

(** * Successors *)

(** [matches!((previous.next_action, successor.next_action), ...)]. *)
Definition action_transition (previous successor : CanonicalSyncNextActionV2) : bool :=
  match previous, successor with
  | SendInventory, ReceiveDiff
  | ReceiveDiff, SendEventBatch
  | ReceiveDiff, ReceiveComplete
  | SendEventBatch, ReceiveComplete
  | ReceiveComplete, Complete => true
  | _, _ => false
  end.

Definition verify_sync_session_checkpoint_successor_v2
  (previous successor : CanonicalSignedSyncSessionCheckpointV2)
  : result CanonicalSyncSessionV2Error unit :=
  verify_signed_sync_session_checkpoint_v2 previous ;?
  verify_signed_sync_session_checkpoint_v2 successor ;?
  let p := previous.(content) in
  let s := successor.(content) in
  fail_if (is_terminal p.(next_action)) TerminalCheckpointHasSuccessor ;?
  fail_if (negb (bool_decide (p.(protocol_identifier) = s.(protocol_identifier)))
           || negb (bool_decide (p.(conversation_id) = s.(conversation_id)))
           || negb (bool_decide (p.(local_device_id) = s.(local_device_id)))
           || negb (bool_decide (p.(peer_device_id) = s.(peer_device_id)))
           || negb (bool_decide (p.(session_binding) = s.(session_binding))))
    SessionIdentityChanged ;?
  fail_if (negb (bool_decide (u64_checked_add p.(checkpoint_sequence) (as_u64 1)
                              = Some s.(checkpoint_sequence))))
    CheckpointSequenceDiscontinuity ;?
  let? previous_id := sync_session_checkpoint_id_v2 previous in
  fail_if (negb (bool_decide (s.(predecessor_checkpoint_id) = Some previous_id)))
    PredecessorMismatch ;?
  fail_if ((s.(sync_round) <? p.(sync_round))%N
           || (u64_saturating_add p.(sync_round) (as_u64 1) <? s.(sync_round))%N)
    SyncRoundDiscontinuity ;?
  require_monotonic_evidence "received_event_keys"
    p.(received_event_keys) s.(received_event_keys) ;?
  require_monotonic_evidence "sent_event_keys" p.(sent_event_keys) s.(sent_event_keys) ;?
  if p.(paused) || s.(paused) then validate_pause_transition p s
  else if bool_decide (u64_checked_add p.(sync_round) (as_u64 1) = Some s.(sync_round)) then
    fail_if (negb (bool_decide (p.(next_action) = ReceiveComplete))
             || negb (bool_decide (s.(next_action) = SendInventory))
             || (negb p.(local_more_available) && negb p.(peer_more_available))
             || negb (bool_decide (p.(received_event_keys) = s.(received_event_keys)))
             || negb (bool_decide (p.(sent_event_keys) = s.(sent_event_keys)))
             || negb (Bool.eqb p.(local_more_available) s.(local_more_available))
             || negb (Bool.eqb p.(peer_more_available) s.(peer_more_available)))
      InvalidActionTransition
  else if bool_decide (s.(next_action) = Rejected) then Ok tt
  else if action_transition p.(next_action) s.(next_action) then Ok tt
  else Err InvalidActionTransition.

End session.

(** * Codec *)

Definition content_item (c : CanonicalSyncSessionCheckpointContentV2) : item :=
  IArray [IUnsigned CANONICAL_PROFILE_VERSION; IBytes c.(protocol_identifier);
          IBytes c.(conversation_id); IBytes c.(local_device_id); IBytes c.(peer_device_id);
          IBytes c.(session_binding); IUnsigned c.(checkpoint_sequence);
          IUnsigned c.(sync_round); optional_item c.(predecessor_checkpoint_id);
          keys_item c.(received_event_keys); keys_item c.(sent_event_keys);
          bool_item c.(local_more_available); bool_item c.(peer_more_available);
          IUnsigned (action_code c.(next_action)); bool_item c.(paused)].

Definition checkpoint_item (x : CanonicalSignedSyncSessionCheckpointV2) : item :=
  signed_item (content_item x.(content)) x.(signature).

(** Items of a signed checkpoint as the validator counts them. *)
Definition checkpoint_items (c : CanonicalSyncSessionCheckpointContentV2) : nat :=
  length c.(received_event_keys) + length c.(sent_event_keys) +
  match c.(predecessor_checkpoint_id) with Some _ => 20 | None => 19 end.

#[export] Instance reads_action field :
  Reads (let! code := dmap_err SessionAccount (AccountDecoder.unsigned field) in
         dlift (action_from_code code))
    (fun a => enc_item (IUnsigned (action_code a))) (fun _ => True).
Proof.
  apply (reads_map (dmap_err SessionAccount (AccountDecoder.unsigned field))
    (fun v => enc_item (IUnsigned v)) (fun _ => True) _ action_from_code action_code);
    [|done|done].
  intros v a _. unfold action_from_code. split.
  - intros Ha. split; [|done]. apply uint_eq.
    destruct (uint_val v) as [|[[[]|[]|]|[[]|[]|]|]] eqn:Ev; try discriminate Ha;
      injection Ha as <-; reflexivity.
  - intros [-> _]. by destruct a.
Qed.

Lemma validate_content_keys c :
  validate_content c = Ok tt →
  keys_valid c.(received_event_keys) ∧ keys_valid c.(sent_event_keys).
Proof.
  unfold validate_content. intros Hc. rewrite !rbind_unit_ok, !validate_keys_ok in Hc. tauto.
Qed.

#[export] Instance reads_content :
  Reads decode_content_from (fun c => enc_item (content_item c))
    (fun c => validate_content c = Ok tt).
Proof.
  unfold decode_content_from. split.
  - intros d c rest Hf Hok Hat. destruct (validate_content_keys c Hok) as [Hr Hs].
    unfold content_item in Hat. push_norm_in Hat.
    do 10 read_step. do 2 (read_step; [done|]). do 5 read_step. guard_ok Hok.
    read_done ltac:(unfold content_item).
  - intros d l c d' Hat Hd. read_invs Hd. read_end ltac:(unfold content_item). done.
Qed.

#[export] Instance reads_checkpoint :
  Reads decode_signed_fields (fun x => enc_item (checkpoint_item x))
    (fun x => validate_content x.(content) = Ok tt).
Proof.
  unfold decode_signed_fields. split.
  - intros d x rest Hf Hok Hat. unfold checkpoint_item, signed_item in Hat. push_norm_in Hat.
    do 2 read_step. read_step; [done|]. read_step.
    read_done ltac:(unfold checkpoint_item, signed_item).
  - intros d l x d' Hat Hd. read_invs Hd.
    read_end ltac:(unfold checkpoint_item, signed_item). done.
Qed.

Lemma content_len c :
  validate_content c = Ok tt → (len (enc_item (content_item c)) <= 330000)%N.
Proof.
  intros [[Hr _] [Hs _]]%validate_content_keys.
  unfold MAX_CANONICAL_SYNC_SESSION_EVENT_KEYS_V2 in Hr, Hs.
  unfold content_item. rewrite enc_item_array, !enc_items_cons, enc_items_nil, !len_app.
  pose proof (keys_item_len c.(received_event_keys)).
  pose proof (keys_item_len c.(sent_event_keys)).
  unfold bool_item. cbn [enc_item]. rewrite !len_app, !len_arr.
  assert (len (enc_item (optional_item c.(predecessor_checkpoint_id))) <= 100)%N.
  { destruct c.(predecessor_checkpoint_id); [|by vm_compute].
    unfold optional_item. rewrite enc_item_array, !enc_items_cons, enc_items_nil, !len_app.
    cbn [enc_item]. rewrite len_app, len_arr. by vm_compute. }
  repeat match goal with |- context [len (head_bytes ?m ?a)] =>
    pose proof (len_head_bytes m a); generalize dependent (len (head_bytes m a)); intros end.
  change (len []) with 0%N. lia.
Qed.

Lemma checkpoint_shape x : items_shape (checkpoint_items x.(content)) 4 [checkpoint_item x].
Proof.
  eapply items_shape_eq.
  - apply items_shape_signed. unfold content_item, bool_item. items_shape.
    + eapply items_shape_weaken, optional_shape; [done|lia].
    + eapply items_shape_weaken, keys_shape; [done|lia].
    + eapply items_shape_weaken, keys_shape; [done|lia].
  - unfold checkpoint_items. destruct (predecessor_checkpoint_id _); lia.
Qed.

Lemma checkpoint_len x :
  validate_content x.(content) = Ok tt → ensure_bound (E:=CanonicalSyncSessionV2Error)
    (enc_item (checkpoint_item x)) = Ok tt.
Proof.
  intros Hv%content_len. apply ensure_bound_ok.
  unfold checkpoint_item, signed_item, MAX_CANONICAL_SYNC_SESSION_CHECKPOINT_BYTES_V2.
  rewrite enc_item_array, !enc_items_cons, enc_items_nil, !len_app. cbn [enc_item].
  rewrite !len_app, !len_arr.
  repeat match goal with |- context [len (head_bytes ?m ?a)] =>
    pose proof (len_head_bytes m a); generalize dependent (len (head_bytes m a)); intros end.
  change (len []) with 0%N. lia.
Qed.

Lemma checkpoint_fits x :
  validate_content x.(content) = Ok tt → item_fits (checkpoint_item x) = true.
Proof.
  intros [[Hr _] [Hs _]]%validate_content_keys.
  assert (Hk : ∀ ks, (len ks <= MAX_CANONICAL_SYNC_SESSION_EVENT_KEYS_V2)%N →
    item_fits (keys_item ks) = true).
  { intros ks Hks. apply item_fits_array. rewrite len_map. split; [by eapply N.le_lt_trans|].
    apply Forall_map, Forall_true. intros k. apply item_fits_bytes. by rewrite key_item_len. }
  unfold checkpoint_item, signed_item, content_item, bool_item.
  cbn [item_fits forallb]. rewrite !Hk, !len_arr by done.
  destruct (predecessor_checkpoint_id _); cbn [optional_item item_fits forallb];
    rewrite ?len_arr; vm_compute; done.
Qed.

(** A checkpoint is within the profile exactly when its items are counted. *)
Lemma checkpoint_in_profile x :
  validate_content x.(content) = Ok tt →
  validate_canonical_profile_v1 (enc_item (checkpoint_item x)) = Ok tt ↔
  (N.of_nat (checkpoint_items x.(content)) <= MAX_CANONICAL_ITEMS)%N.
Proof.
  intros Hv. rewrite <-(items_shape_count _ _ _ (checkpoint_shape x)). split.
  - intros Hp. destruct (decide (N.of_nat (item_count (checkpoint_item x)) <= MAX_CANONICAL_ITEMS)%N)
      as [|Hn]; [done|].
    destruct (validate_profile_reject (checkpoint_item x)); auto using checkpoint_fits.
    by intros (_ & ? & _).
  - intros Hc. apply validate_profile_complete. eapply shape_in_profile; [apply checkpoint_shape|lia|].
    by rewrite <-(items_shape_count _ _ _ (checkpoint_shape x)).
Qed.

Lemma decode_checkpoint_spec bs x :
  decode_signed_sync_session_checkpoint_v2 bs = Ok x ↔
  validate_content x.(content) = Ok tt ∧ bs = enc_item (checkpoint_item x) ∧
  (N.of_nat (checkpoint_items x.(content)) <= MAX_CANONICAL_ITEMS)%N.
Proof.
  transitivity (ensure_bound (E:=CanonicalSyncSessionV2Error) bs = Ok tt ∧
    decode_message SessionWire decode_signed_fields bs = Ok x).
  { unfold decode_signed_sync_session_checkpoint_v2, validate_input, decode_message.
    destruct (ensure_bound bs) as [[]|]; cbn [rbind]; [|by intuition].
    unfold AccountDecoder.new. destruct (map_err _ _) as [[]|]; cbn [rbind]; [|by intuition].
    destruct (decode_signed_fields _) as [[k' d]|]; cbn [rbind]; [|by intuition].
    unfold AccountDecoder.finish. destruct (_ =? _)%N; cbn [map_err rbind]; by intuition. }
  rewrite (decode_message_spec _ _ checkpoint_item (fun x => validate_content x.(content) = Ok tt)).
  split.
  - intros (_ & Hv & -> & Hp). by rewrite checkpoint_in_profile in Hp.
  - intros (Hv & -> & Hc). rewrite checkpoint_in_profile by done. auto using checkpoint_len.
Qed.

Section correctness.
Context `{Blake3} `{Ed25519}.

Lemma encode_content_spec c bs :
  encode_sync_session_checkpoint_content_v2 c = Ok bs ↔
  validate_content c = Ok tt ∧ bs = enc_item (content_item c).
Proof.
  unfold encode_sync_session_checkpoint_content_v2. rewrite rbind_unit_ok.
  rewrite encode_optional_id_app. rewrite encode_keys_app. cbn [rbind].
  rewrite encode_keys_app. cbn [rbind].
  match goal with |- context [bounded ?o] =>
    assert (Eo : o = enc_item (content_item c)) by (unfold content_item, bool_item; by push_norm)
  end.
  rewrite Eo. split; intros [Hv Hb]; (split; [done|]).
  - rewrite bounded_ok in Hb; [by apply Ok_inj in Hb|]. apply ensure_bound_ok.
    pose proof (content_len c Hv). unfold MAX_CANONICAL_SYNC_SESSION_CHECKPOINT_BYTES_V2. lia.
  - subst bs. apply bounded_ok, ensure_bound_ok.
    pose proof (content_len c Hv). unfold MAX_CANONICAL_SYNC_SESSION_CHECKPOINT_BYTES_V2. lia.
Qed.

(** A verified checkpoint: valid content signed by the local device. *)
Definition checkpoint_verified (x : CanonicalSignedSyncSessionCheckpointV2) : Prop :=
  validate_content x.(content) = Ok tt ∧
  signed_by x.(content).(local_device_id) CANONICAL_SYNC_SESSION_CHECKPOINT_SIGNATURE_DOMAIN_V2
    (content_item x.(content)) x.(signature).

Lemma verify_checkpoint_ok x :
  verify_signed_sync_session_checkpoint_v2 x = Ok tt ↔ checkpoint_verified x.
Proof.
  unfold verify_signed_sync_session_checkpoint_v2, checkpoint_verified, signed_by.
  rewrite rbind_unit_ok. split; intros [Hv Hs]; (split; [done|]).
  - unfold sync_session_checkpoint_signing_bytes_v2 in Hs. result_inv.
    apply encode_content_spec in E0 as [_ ->]. unfold session_verify_ed25519, prefixed in Hs.
    by rewrite !rbind_unit_ok, !fail_if_ok, !negb_false_iff in Hs.
  - unfold sync_session_checkpoint_signing_bytes_v2.
    rewrite (proj2 (encode_content_spec _ _)) by (split; [done|reflexivity]). cbn [rbind].
    unfold session_verify_ed25519, prefixed. by rewrite !rbind_unit_ok, !fail_if_ok, !negb_false_iff.
Qed.

Lemma encode_checkpoint_spec x bs :
  encode_signed_sync_session_checkpoint_v2 x = Ok bs ↔
  checkpoint_verified x ∧ bs = enc_item (checkpoint_item x).
Proof.
  unfold encode_signed_sync_session_checkpoint_v2. rewrite rbind_unit_ok, verify_checkpoint_ok.
  split; intros [Hv Hb]; (split; [done|]).
  - result_inv. apply encode_content_spec in E as [_ ->]. rewrite signed_envelope_enc in Hb.
    rewrite bounded_ok in Hb; [by apply Ok_inj in Hb|]. apply checkpoint_len, Hv.
  - subst. rewrite (proj2 (encode_content_spec _ _)) by (split; [apply Hv|reflexivity]).
    cbn [rbind]. rewrite signed_envelope_enc. apply bounded_ok, checkpoint_len, Hv.
Qed.

(** C36: strict decoding followed by verification accepts a byte string exactly
    when it is the encoding of the returned checkpoint and the checkpoint's
    item count is within the profile. *)
Theorem session_checkpoint_roundtrip bs x :
  decode_and_verify_signed_sync_session_checkpoint_v2 bs = Ok x ↔
  encode_signed_sync_session_checkpoint_v2 x = Ok bs ∧
  (N.of_nat (checkpoint_items x.(content)) <= MAX_CANONICAL_ITEMS)%N.
Proof.
  rewrite encode_checkpoint_spec. unfold decode_and_verify_signed_sync_session_checkpoint_v2.
  split.
  - intros Hx. result_inv. apply decode_checkpoint_spec in E as (_ & -> & Hc).
    by apply verify_checkpoint_ok in E0.
  - intros [[Hx ->] Hc]. rewrite (proj2 (decode_checkpoint_spec _ x)) by (split; [apply Hx|done]).
    cbn [rbind]. by rewrite (proj2 (verify_checkpoint_ok x)).
Qed.

(** a verified checkpoint whose two key lists together exceed the item
    limit of the profile encodes, but the encoding does not decode: the bound
    of 4096 keys per list admits checkpoints that cannot be read back. *)
Theorem session_checkpoint_unreadable x :
  verify_signed_sync_session_checkpoint_v2 x = Ok tt →
  (MAX_CANONICAL_ITEMS < N.of_nat (checkpoint_items x.(content)))%N →
  ∃ bs, encode_signed_sync_session_checkpoint_v2 x = Ok bs ∧
    is_ok (decode_signed_sync_session_checkpoint_v2 bs) = false.
Proof.
  intros Hv%verify_checkpoint_ok Hc. exists (enc_item (checkpoint_item x)).
  split; [by apply encode_checkpoint_spec|].
  destruct (decode_signed_sync_session_checkpoint_v2 _) as [y|] eqn:Ed; [|done].
  apply decode_checkpoint_spec in Ed as (Hy & Ey & Hcy).
  destruct (enc_item_inj (checkpoint_item x) (checkpoint_item y) [] []) as [E _];
    [by apply checkpoint_fits, Hv|by apply checkpoint_fits|by rewrite !app_nil_r|].
  rewrite <-(items_shape_count _ _ _ (checkpoint_shape y)), <-E in Hcy.
  rewrite (items_shape_count _ _ _ (checkpoint_shape x)) in Hcy. lia.
Qed.

(** * The transition system of a session *)

Definition checkpoint_id (x : CanonicalSignedSyncSessionCheckpointV2) : arr 32 :=
  blake3 (CANONICAL_SYNC_SESSION_CHECKPOINT_ID_DOMAIN_V2 ++ enc_item (checkpoint_item x)).

Definition same_session (p s : CanonicalSyncSessionCheckpointContentV2) : Prop :=
  p.(protocol_identifier) = s.(protocol_identifier) ∧ p.(conversation_id) = s.(conversation_id) ∧
  p.(local_device_id) = s.(local_device_id) ∧ p.(peer_device_id) = s.(peer_device_id) ∧
  p.(session_binding) = s.(session_binding).

(** Evidence is cumulative. *)
Definition evidence_grows (p s : CanonicalSyncSessionCheckpointContentV2) : Prop :=
  (∀ k, k ∈ p.(received_event_keys) → k ∈ s.(received_event_keys)) ∧
  (∀ k, k ∈ p.(sent_event_keys) → k ∈ s.(sent_event_keys)).

Definition same_progress (p s : CanonicalSyncSessionCheckpointContentV2) : Prop :=
  p.(received_event_keys) = s.(received_event_keys) ∧ p.(sent_event_keys) = s.(sent_event_keys) ∧
  p.(local_more_available) = s.(local_more_available) ∧
  p.(peer_more_available) = s.(peer_more_available).

(** The messages of a round, in their order: the inventory is sent, the
    difference received, then a batch is sent if there is one, then the
    completion is received, and the session is complete. *)
Inductive follows_in_round : CanonicalSyncNextActionV2 → CanonicalSyncNextActionV2 → Prop :=
| inventory_sent : follows_in_round SendInventory ReceiveDiff
| difference_asks_batch : follows_in_round ReceiveDiff SendEventBatch
| difference_asks_nothing : follows_in_round ReceiveDiff ReceiveComplete
| batch_sent : follows_in_round SendEventBatch ReceiveComplete
| completion_received : follows_in_round ReceiveComplete Complete.

Lemma action_transition_spec a b : action_transition a b = true ↔ follows_in_round a b.
Proof. split; [destruct a, b; try done; intros _; constructor|by intros []]. Qed.

Inductive session_step (p s : CanonicalSyncSessionCheckpointContentV2) : Prop :=
| step_pause :
    is_terminal p.(next_action) = false → p.(paused) = negb s.(paused) →
    p.(sync_round) = s.(sync_round) → p.(next_action) = s.(next_action) → same_progress p s →
    session_step p s
| step_round :
    p.(paused) = false → s.(paused) = false →
    uint_val s.(sync_round) = (uint_val p.(sync_round) + 1)%N →
    p.(next_action) = ReceiveComplete → s.(next_action) = SendInventory →
    p.(local_more_available) || p.(peer_more_available) = true → same_progress p s →
    session_step p s
| step_reject :
    p.(paused) = false → s.(paused) = false → p.(sync_round) = s.(sync_round) →
    is_terminal p.(next_action) = false → s.(next_action) = Rejected → session_step p s
| step_action :
    p.(paused) = false → s.(paused) = false → p.(sync_round) = s.(sync_round) →
    follows_in_round p.(next_action) s.(next_action) → session_step p s.

(** The part of the successor check after the guards on identity, sequence,
    link and evidence. *)
Definition step_check (p s : CanonicalSyncSessionCheckpointContentV2)
  : result CanonicalSyncSessionV2Error unit :=
  if p.(paused) || s.(paused) then validate_pause_transition p s
  else if bool_decide (u64_checked_add p.(sync_round) (as_u64 1) = Some s.(sync_round)) then
    fail_if (negb (bool_decide (p.(next_action) = ReceiveComplete))
             || negb (bool_decide (s.(next_action) = SendInventory))
             || (negb p.(local_more_available) && negb p.(peer_more_available))
             || negb (bool_decide (p.(received_event_keys) = s.(received_event_keys)))
             || negb (bool_decide (p.(sent_event_keys) = s.(sent_event_keys)))
             || negb (Bool.eqb p.(local_more_available) s.(local_more_available))
             || negb (Bool.eqb p.(peer_more_available) s.(peer_more_available)))
      InvalidActionTransition
  else if bool_decide (s.(next_action) = Rejected) then Ok tt
  else if action_transition p.(next_action) s.(next_action) then Ok tt
  else Err InvalidActionTransition.

Lemma validate_pause_ok p s :
  validate_pause_transition p s = Ok tt ↔
  is_terminal p.(next_action) = false ∧ p.(paused) = negb s.(paused) ∧
  p.(sync_round) = s.(sync_round) ∧ p.(next_action) = s.(next_action) ∧ same_progress p s.
Proof.
  unfold validate_pause_transition, same_progress.
  rewrite if_err_ok.
  rewrite !orb_false_iff, !negb_false_iff, !bool_decide_eq_true, !eqb_true_iff, u64_eqb_eq,
    eqb_false_iff. split.
  - intros He. destruct_and!. split_and!; try done.
    by destruct p.(paused), s.(paused).
  - intros (Ht & Hp & Hr & Ha & Hk1 & Hk2 & Hl & Hpm). split_and!; try done.
    + by rewrite <-Ha.
    + rewrite Hp. by destruct s.(paused).
Qed.

Lemma step_check_ok p s :
  is_terminal p.(next_action) = false → (p.(sync_round) <= s.(sync_round))%N →
  (s.(sync_round) <= p.(sync_round) + 1)%N →
  step_check p s = Ok tt ↔ session_step p s.
Proof.
  intros Ht Hr1 Hr2. unfold step_check.
  destruct (p.(paused) || s.(paused)) eqn:Ep.
  { rewrite validate_pause_ok. split.
    - intros (? & ? & ? & ? & ?). by apply step_pause.
    - intros [| | |]; [by auto|..]; by destruct p.(paused), s.(paused). }
  apply orb_false_iff in Ep as [Hp Hs].
  destruct (bool_decide _) eqn:Er.
  { apply bool_decide_eq_true, u64_checked_add_Some in Er.
    change (uint_val (as_u64 1)) with 1%N in Er.
    rewrite fail_if_ok, !orb_false_iff, !negb_false_iff, !bool_decide_eq_true, !eqb_true_iff,
      andb_false_iff, !negb_false_iff. split.
    - intros He. destruct_and!.
      apply step_round; first [done|by apply orb_true_iff|by split_and!].
    - intros [_ Hpause|? ? ? ? ? Hm (?&?&?&?)|? ? Hr|? ? Hr]; [|by apply orb_true_iff in Hm; split_and!|..].
      + rewrite Hp, Hs in Hpause. done.
      + rewrite Hr in Er. lia.
      + rewrite Hr in Er. lia. }
  apply bool_decide_eq_false in Er. rewrite u64_checked_add_Some in Er.
  change (uint_val (as_u64 1)) with 1%N in Er.
  assert (Hr : p.(sync_round) = s.(sync_round)) by (apply uint_eq; lia).
  destruct (bool_decide (s.(next_action) = Rejected)) eqn:Ej.
  { apply bool_decide_eq_true in Ej. split; [|done]. intros _. by apply step_reject. }
  apply bool_decide_eq_false in Ej. rewrite if_ok_err, action_transition_spec. split; [by apply step_action|].
  intros [_ Hpause|? ? Hn| |]; [rewrite Hp, Hs in Hpause; done|lia|done|done].
Qed.

Lemma checkpoint_id_ok x :
  checkpoint_verified x → sync_session_checkpoint_id_v2 x = Ok (checkpoint_id x).
Proof.
  intros Hx. unfold sync_session_checkpoint_id_v2.
  by rewrite (proj2 (encode_checkpoint_spec x _) (conj Hx eq_refl)).
Qed.

(** A verified checkpoint [s] that continues the verified checkpoint [p]. *)
Definition continues (p s : CanonicalSignedSyncSessionCheckpointV2) : Prop :=
  checkpoint_verified p ∧ checkpoint_verified s ∧ same_session p.(content) s.(content) ∧
  uint_val s.(content).(checkpoint_sequence) = (uint_val p.(content).(checkpoint_sequence) + 1)%N ∧
  s.(content).(predecessor_checkpoint_id) = Some (checkpoint_id p) ∧
  evidence_grows p.(content) s.(content) ∧ session_step p.(content) s.(content).

Lemma session_step_round p s : session_step p s →
  is_terminal p.(next_action) = false ∧
  (p.(sync_round) <= s.(sync_round))%N ∧ (s.(sync_round) <= p.(sync_round) + 1)%N.
Proof.
  intros [Ht _ Hr|? ? Hr Hp|? ? Hr Ht|? ? Hr Ha].
  - rewrite Hr. split; [done|lia].
  - rewrite Hp. split; [done|lia].
  - rewrite Hr. split; [done|lia].
  - rewrite Hr. split; [by destruct Ha|lia].
Qed.

Lemma successor_spec p s :
  verify_sync_session_checkpoint_successor_v2 p s = Ok tt ↔ continues p s.
Proof.
  unfold verify_sync_session_checkpoint_successor_v2, continues, evidence_grows.
  rewrite !rbind_unit_ok, !verify_checkpoint_ok.
  assert (∀ A B C : Prop, (A → B ↔ C) → A ∧ B ↔ A ∧ C) as Hcong by tauto.
  apply Hcong. intros Hp. apply Hcong. intros Hs.
  fold (step_check p.(content) s.(content)). rewrite (checkpoint_id_ok p Hp). cbn [rbind].
  rewrite !rbind_unit_ok, !fail_if_ok, !orb_false_iff, !negb_false_iff, !bool_decide_eq_true,
    u64_checked_add_Some, !N.ltb_ge, u64_saturating_add_val.
  destruct (validate_content_keys _ (proj1 Hp)) as [[_ Hr1] [_ Hs1]].
  destruct (validate_content_keys _ (proj1 Hs)) as [[_ Hr2] [_ Hs2]].
  rewrite !monotonic_evidence_ok by done. unfold same_session.
  change (uint_val (as_u64 1)) with 1%N.
  pose proof (uint_lt s.(content).(sync_round)) as Hlt.
  split.
  - intros He. destruct_and!. split_and!; try done. apply step_check_ok; [done|done|lia|done].
  - intros He. destruct_and!.
    assert (Hst : session_step p.(content) s.(content)) by done.
    destruct (session_step_round _ _ Hst) as (Ht & Hl1 & Hl2).
    split_and!; try done; [lia|]. by apply step_check_ok.
Qed.

(** * Properties of checkpoint chains *)

(** One accepted successor. *)
Definition successor (p s : CanonicalSignedSyncSessionCheckpointV2) : Prop :=
  verify_sync_session_checkpoint_successor_v2 p s = Ok tt.

(** Progress of a session: the round, then the position in the round. *)
Definition action_rank (action : CanonicalSyncNextActionV2) : N :=
  match action with
  | SendInventory => 0
  | ReceiveDiff => 1
  | SendEventBatch => 2
  | ReceiveComplete => 3
  | Complete | Rejected => 4
  end.

Definition progress (x : CanonicalSignedSyncSessionCheckpointV2) : N :=
  6 * x.(content).(sync_round) + action_rank x.(content).(next_action).

(** An accepted successor between checkpoints that are not paused. *)
Definition active_successor (p s : CanonicalSignedSyncSessionCheckpointV2) : Prop :=
  successor p s ∧ p.(content).(paused) = false ∧ s.(content).(paused) = false.

Lemma active_step_progress p s :
  p.(content).(paused) = false → s.(content).(paused) = false →
  session_step p.(content) s.(content) → (progress p < progress s)%N.
Proof.
  intros Hp Hs [_ Hpause|_ _ Hr Ha Ha'|_ _ Hr Ht Ha|_ _ Hr Ha]; unfold progress.
  - rewrite Hp, Hs in Hpause. done.
  - rewrite Hr, Ha, Ha'. cbn [action_rank]. lia.
  - rewrite Hr, Ha. destruct p.(content).(next_action); cbn [action_rank] in *; try done; lia.
  - rewrite Hr. destruct Ha; cbn [action_rank]; lia.
Qed.

(** C2: the successor check accepts exactly the steps of the session's
    transition system between verified checkpoints of one session, linked by
    sequence number and by the hash of the predecessor, with evidence that
    only grows. *)
Theorem session_successor_exact p s :
  verify_sync_session_checkpoint_successor_v2 p s = Ok tt ↔ continues p s.
Proof. apply successor_spec. Qed.

(** C14: along a chain of [n] accepted successors the session identity never
    changes, the sequence number grows by exactly [n], the round by at most
    [n], no evidence is lost, and no checkpoint but the last is terminal. *)
Theorem session_chain_invariant n a b :
  nsteps successor n a b →
  same_session a.(content) b.(content) ∧
  uint_val b.(content).(checkpoint_sequence) =
    (uint_val a.(content).(checkpoint_sequence) + N.of_nat n)%N ∧
  (a.(content).(sync_round) <= b.(content).(sync_round) <= a.(content).(sync_round) + N.of_nat n)%N ∧
  evidence_grows a.(content) b.(content) ∧
  (0 < n → is_terminal a.(content).(next_action) = false).
Proof.
  induction 1 as [a|n a c b Hac _ IH].
  - unfold same_session, evidence_grows. split_and!; auto; lia.
  - apply successor_spec in Hac as (_ & _ & Hid & Hseq & _ & Hev & Hst).
    destruct (session_step_round _ _ Hst) as (Ht & Hr1 & Hr2).
    destruct IH as (Hid' & Hseq' & Hr' & Hev' & _).
    unfold same_session, evidence_grows in *. destruct_and!.
    split_and!; try congruence; try lia; naive_solver.
Qed.

(** steps between active checkpoints make progress: [n] of them raise
    six times the round plus the position in the round by at least [n], so a
    session takes at most four active steps inside a round. *)
Theorem session_active_progress n a b :
  nsteps active_successor n a b → (progress a + N.of_nat n <= progress b)%N.
Proof.
  induction 1 as [a|n a c b (Hac & Hp & Hs) _ IH]; [lia|].
  apply successor_spec in Hac as (_ & _ & _ & _ & _ & _ & Hst).
  pose proof (active_step_progress _ _ Hp Hs Hst). lia.
Qed.

(** a session completes only from an active checkpoint that awaits the
    peer's completion and advertised more events, and it is not continued. *)
Theorem session_completion p s :
  successor p s → s.(content).(next_action) = Complete →
  p.(content).(next_action) = ReceiveComplete ∧
  p.(content).(local_more_available) || p.(content).(peer_more_available) = true ∧
  p.(content).(sync_round) = s.(content).(sync_round) ∧ ∀ t, ¬ successor s t.
Proof.
  intros (Hp & Hs & _ & _ & _ & _ & Hst)%successor_spec Hc.
  assert (Ha : p.(content).(next_action) = ReceiveComplete ∧
    p.(content).(sync_round) = s.(content).(sync_round)).
  { destruct Hst as [Ht _ Hr Ha|_ _ _ _ Ha|_ _ _ _ Ha|_ _ Hr Ha]; try congruence.
    - rewrite Ha, Hc in Ht. done.
    - rewrite Hc in Ha. by inversion Ha. }
  destruct Ha as [Ha Hr]. split_and!; [done| |done|].
  - destruct Hp as [Hv _]. unfold validate_content in Hv. rewrite !rbind_unit_ok in Hv.
    destruct_and!. match goal with Hx : fail_if _ AmbiguousReceiveComplete = _ |- _ =>
      rewrite fail_if_ok, Ha, bool_decide_true in Hx by done end.
    by destruct p.(content).(local_more_available), p.(content).(peer_more_available).
  - intros t (_ & _ & _ & _ & _ & _ & Hst')%successor_spec.
    apply session_step_round in Hst' as [Ht _]. by rewrite Hc in Ht.
Qed.

(** ** History *)

(** What the identifier of a checkpoint hashes. *)
Definition id_preimage (x : CanonicalSignedSyncSessionCheckpointV2) : bytes :=
  CANONICAL_SYNC_SESSION_CHECKPOINT_ID_DOMAIN_V2 ++ enc_item (checkpoint_item x).

Lemma checkpoint_item_inj x y :
  validate_content x.(content) = Ok tt → validate_content y.(content) = Ok tt →
  enc_item (checkpoint_item x) = enc_item (checkpoint_item y) → x = y.
Proof.
  intros Hx Hy. apply (reads_inj decode_signed_fields (fun x => enc_item (checkpoint_item x))
    (fun x => validate_content x.(content) = Ok tt)); [done|done|].
  eapply N.le_lt_trans; [by apply (ensure_bound_ok (E:=CanonicalSyncSessionV2Error)), checkpoint_len|].
  done.
Qed.

Lemma checkpoint_sequence_pos x :
  validate_content x.(content) = Ok tt → (1 <= x.(content).(checkpoint_sequence))%N.
Proof.
  unfold validate_content. rewrite !rbind_unit_ok. intros Hv. destruct_and!.
  match goal with Hx : fail_if _ InvalidCheckpointSequence = _ |- _ =>
    rewrite fail_if_ok in Hx; unfold u64_eqb in Hx; apply N.eqb_neq in Hx;
    change (uint_val (as_u64 0)) with 0%N in Hx end. lia.
Qed.

#[export] Instance session_chain : HashChain CanonicalSignedSyncSessionCheckpointV2.
Proof.
  refine {|
    chain_valid := fun x => verify_signed_sync_session_checkpoint_v2 x = Ok tt;
    chain_successor := successor;
    chain_sequence := fun x => x.(content).(checkpoint_sequence);
    chain_link := fun x => x.(content).(predecessor_checkpoint_id);
    chain_preimage := id_preimage
  |}.
  - intros p s (Hp & _)%successor_spec. by apply verify_checkpoint_ok.
  - by intros p s (_ & _ & _ & Hs & _)%successor_spec.
  - by intros p s (_ & _ & _ & _ & Hl & _)%successor_spec.
  - intros x [Hv _]%verify_checkpoint_ok. by apply checkpoint_sequence_pos.
  - intros x y [Hx _]%verify_checkpoint_ok [Hy _]%verify_checkpoint_ok E.
    apply checkpoint_item_inj; [done|done|]. by apply app_inv_head in E.
Defined.

(** the newest checkpoint of a session determines its whole history: two
    histories of verified successors back to sequence one with the same newest
    checkpoint are equal, unless BLAKE3 collides on two of their checkpoints. *)
Theorem session_history_unique (x : CanonicalSignedSyncSessionCheckpointV2) l l' :
  history (x :: l) → history (x :: l') →
  (∀ p q, p ∈ l → q ∈ l' → no_collision (id_preimage p) (id_preimage q)) → l = l'.
Proof. exact (history_unique x l l'). Qed.

End correctness.

(** * A concrete session *)

Module SessionExample.
Import AuthorityExample.

#[local] Existing Instance Toy.blake3_instance.
#[local] Existing Instance Toy.ed25519_instance.

Definition key (k : N) : CanonicalSyncEventKeyV2 :=
  new_key CanonicalCborV1 (arr_of 32 (to_be_bytes 32 k)).

Definition make (sequence : N) (predecessor : option (arr 32))
  (received : list CanonicalSyncEventKeyV2) (more : bool) (action : CanonicalSyncNextActionV2)
  : CanonicalSignedSyncSessionCheckpointV2 :=
  let c := {|
    protocol_identifier := CANONICAL_SYNC_SESSION_PROTOCOL_IDENTIFIER_V2;
    conversation_id := id 8;
    local_device_id := id 2;
    peer_device_id := id 4;
    session_binding := id 7;
    checkpoint_sequence := as_u64 sequence;
    sync_round := as_u64 1;
    predecessor_checkpoint_id := predecessor;
    received_event_keys := received;
    sent_event_keys := [];
    local_more_available := more;
    peer_more_available := false;
    next_action := action;
    paused := false
  |} in
  {| content := c;
     signature := sign (id 2)
       (CANONICAL_SYNC_SESSION_CHECKPOINT_SIGNATURE_DOMAIN_V2 ++ enc_item (content_item c)) |}.

Definition c1 := make 1 None [] false SendInventory.
Definition c2 := make 2 (Some (checkpoint_id c1)) [key 5] false ReceiveDiff.
Definition c3 := make 3 (Some (checkpoint_id c2)) [key 3; key 5] true ReceiveComplete.
Definition c4 := make 4 (Some (checkpoint_id c3)) [key 3; key 5] false Complete.

Lemma c1_c2 : successor c1 c2.
Proof. vm_compute. reflexivity. Qed.
Lemma c2_c3 : successor c2 c3.
Proof. vm_compute. reflexivity. Qed.
Lemma c3_c4 : successor c3 c4.
Proof. vm_compute. reflexivity. Qed.

Lemma session_chain_invariant_witness : evidence_grows c1.(content) c4.(content).
Proof.
  destruct (session_chain_invariant 3 c1 c4) as (_ & _ & _ & He & _); [|exact He].
  eapply nsteps_l; [exact c1_c2|]. eapply nsteps_l; [exact c2_c3|].
  eapply nsteps_l; [exact c3_c4|apply nsteps_O].
Defined.

Lemma session_active_progress_witness : (progress c1 + 3 <= progress c4)%N.
Proof.
  apply (session_active_progress 3 c1 c4).
  eapply nsteps_l; [exact (conj c1_c2 (conj eq_refl eq_refl))|].
  eapply nsteps_l; [exact (conj c2_c3 (conj eq_refl eq_refl))|].
  eapply nsteps_l; [exact (conj c3_c4 (conj eq_refl eq_refl))|apply nsteps_O].
Defined.

Lemma session_completion_witness :
  c3.(content).(next_action) = ReceiveComplete ∧ ¬ successor c4 c4.
Proof.
  destruct (session_completion c3 c4 c3_c4) as (Ha & _ & _ & Hn); [reflexivity|].
  split; [exact Ha|exact (Hn c4)].
Defined.

Lemma session_history_unique_witness : [c1] = [c1].
Proof.
  apply (session_history_unique c2 [c1] [c1]).
  - apply history_next; [|exact c1_c2]. apply history_first; vm_compute; reflexivity.
  - apply history_next; [|exact c1_c2]. apply history_first; vm_compute; reflexivity.
  - intros p q ->%list_elem_of_singleton ->%list_elem_of_singleton _. reflexivity.
Defined.

(** A checkpoint with 4096 received and 4096 sent keys. *)
Definition full : CanonicalSignedSyncSessionCheckpointV2 :=
  let keys := map (fun k => key (N.of_nat k)) (seq 0 (N.to_nat 4096)) in
  {| content := {|
       protocol_identifier := CANONICAL_SYNC_SESSION_PROTOCOL_IDENTIFIER_V2;
       conversation_id := id 8;
       local_device_id := id 2;
       peer_device_id := id 4;
       session_binding := id 7;
       checkpoint_sequence := as_u64 1;
       sync_round := as_u64 1;
       predecessor_checkpoint_id := None;
       received_event_keys := keys;
       sent_event_keys := keys;
       local_more_available := false;
       peer_more_available := false;
       next_action := SendInventory;
       paused := false
     |};
     signature := arr_repeat 64 x00 |}.

Lemma session_checkpoint_unreadable_witness :
  ∃ bs, @encode_signed_sync_session_checkpoint_v2 Toy.accepting_instance full = Ok bs ∧
    is_ok (decode_signed_sync_session_checkpoint_v2 bs) = false.
Proof.
  apply (@session_checkpoint_unreadable Toy.accepting_instance full).
  - apply verify_checkpoint_ok. split; [vm_compute; reflexivity|].
    split; [reflexivity|]. split; reflexivity.
  - vm_compute. reflexivity.
Defined.

End SessionExample.
