(* ===== verification/SyncResponderV2.v ===== *)
(** The responder's durable synchronization session of
    [crates/kilogram-protocol/src/canonical_sync_responder_session_v2.rs]:
    device-signed, hash-linked checkpoints of the answering device, their codec
    and the successor check.  The format has its own domains, actions and a
    single continuation flag; a responder completes only when no continuation
    is required. *)

From stdpp Require Import base tactics list numbers strings relations.
From Stdlib Require Import Strings.Byte Sorting.Sorted.
From S2P Require Import Prelude Crypto CanonicalV1 Decoder AuthorityV1 AccountV1 SyncHistoryV2.
From S2P Require Import HashChain SyncCheckpoint.

Definition CANONICAL_SYNC_RESPONDER_CHECKPOINT_SIGNATURE_DOMAIN_V2 : bytes :=
  b_str "kilogram:sync-responder-checkpoint-signature:cbor-v2" ++ [x00].
Definition CANONICAL_SYNC_RESPONDER_CHECKPOINT_ID_DOMAIN_V2 : bytes :=
  b_str "kilogram:sync-responder-checkpoint-id:cbor-v2" ++ [x00].

(** * Data *)

#[local] Set Primitive Projections.

Inductive CanonicalSyncResponderNextActionV2 :=
| ReceiveInventory
| SendDiff
| ReceiveEventBatch
| SendComplete
| Complete
| Rejected.

Record CanonicalSyncResponderCheckpointContentV2 := {
  protocol_identifier : arr 23;
  conversation_id : arr 32;
  responder_device_id : arr 32;
  requester_device_id : arr 32;
  session_binding : arr 32;
  checkpoint_sequence : u64;
  sync_round : u64;
  predecessor_checkpoint_id : option (arr 32);
  received_event_keys : list CanonicalSyncEventKeyV2;
  sent_event_keys : list CanonicalSyncEventKeyV2;
  continuation_required : bool;
  next_action : CanonicalSyncResponderNextActionV2;
  paused : bool
}.

Record CanonicalSignedSyncResponderCheckpointV2 := {
  content : CanonicalSyncResponderCheckpointContentV2;
  signature : arr 64
}.

Inductive CanonicalSyncResponderSessionV2Error :=
| ResponderWire (error : CanonicalWireError)
| ResponderAccount (error : CanonicalAccountError)
| ResponderHistory (error : CanonicalSyncHistoryV2Error)
| CheckpointTooLarge
| WrongProtocolIdentifier
| SameDevice
| InvalidCheckpointSequence
| InvalidSyncRound
| InvalidPredecessorPresence
| TooManyEventKeys (field : string) (actual maximum : usize)
| NonCanonicalEventKeyOrder (field : string)
| InvalidBoolean (field : string) (actual : u64)
| UnknownNextAction (value : u64)
| InvalidTerminalState
| ResponderInvalidPublicKey
| ResponderInvalidSignature
| SessionIdentityChanged
| CheckpointSequenceDiscontinuity
| PredecessorMismatch
| SyncRoundDiscontinuity
| EventEvidenceRollback (field : string)
| TerminalCheckpointHasSuccessor
| InvalidPauseTransition
| InvalidActionTransition.

#[export] Instance responder_errors : CheckpointErrors CanonicalSyncResponderSessionV2Error := {|
  err_wire := ResponderWire;
  err_account := ResponderAccount;
  err_history := ResponderHistory;
  err_checkpoint_too_large := CheckpointTooLarge;
  err_too_many_event_keys := TooManyEventKeys;
  err_non_canonical_event_key_order := NonCanonicalEventKeyOrder;
  err_invalid_boolean := InvalidBoolean;
  err_event_evidence_rollback := EventEvidenceRollback
|}.

#[export] Instance responder_action_eq_dec : EqDecision CanonicalSyncResponderNextActionV2.
Proof. solve_decision. Defined.

Definition responder_action_code (action : CanonicalSyncResponderNextActionV2) : u64 :=
  match action with
  | ReceiveInventory => as_u64 1
  | SendDiff => as_u64 2
  | ReceiveEventBatch => as_u64 3
  | SendComplete => as_u64 4
  | Complete => as_u64 5
  | Rejected => as_u64 6
  end.

Definition responder_action_from_code (code : u64)
  : result CanonicalSyncResponderSessionV2Error CanonicalSyncResponderNextActionV2 :=
  match uint_val code with
  | 1%N => Ok ReceiveInventory
  | 2%N => Ok SendDiff
  | 3%N => Ok ReceiveEventBatch
  | 4%N => Ok SendComplete
  | 5%N => Ok Complete
  | 6%N => Ok Rejected
  | _ => Err (UnknownNextAction code)
  end.

Definition responder_is_terminal (action : CanonicalSyncResponderNextActionV2) : bool :=
  match action with Complete | Rejected => true | _ => false end.

(** * Validation *)

Definition responder_validate_content (content : CanonicalSyncResponderCheckpointContentV2)
  : result CanonicalSyncResponderSessionV2Error unit :=
  fail_if (negb (bool_decide (content.(protocol_identifier)
                              = CANONICAL_SYNC_SESSION_PROTOCOL_IDENTIFIER_V2)))
    WrongProtocolIdentifier ;?
  fail_if (bool_decide (content.(responder_device_id) = content.(requester_device_id))) SameDevice ;?
  fail_if (u64_eqb content.(checkpoint_sequence) (as_u64 0)) InvalidCheckpointSequence ;?
  fail_if (u64_eqb content.(sync_round) (as_u64 0) ||
           (content.(checkpoint_sequence) <? content.(sync_round))%N) InvalidSyncRound ;?
  fail_if (negb (Bool.eqb (u64_eqb content.(checkpoint_sequence) (as_u64 1))
                          (match content.(predecessor_checkpoint_id) with
                           | None => true | Some _ => false end)))
    InvalidPredecessorPresence ;?
  validate_keys "received_event_keys" content.(received_event_keys) ;?
  validate_keys "sent_event_keys" content.(sent_event_keys) ;?
  fail_if (responder_is_terminal content.(next_action) &&
           (content.(paused) || content.(continuation_required)))
    InvalidTerminalState.

Definition responder_validate_pause_transition (previous successor : CanonicalSyncResponderCheckpointContentV2)
  : result CanonicalSyncResponderSessionV2Error unit :=
  if responder_is_terminal previous.(next_action)
     || responder_is_terminal successor.(next_action)
     || Bool.eqb previous.(paused) successor.(paused)
     || negb (u64_eqb previous.(sync_round) successor.(sync_round))
     || negb (bool_decide (previous.(next_action) = successor.(next_action)))
     || negb (bool_decide (previous.(received_event_keys) = successor.(received_event_keys)))
     || negb (bool_decide (previous.(sent_event_keys) = successor.(sent_event_keys)))
     || negb (Bool.eqb previous.(continuation_required) successor.(continuation_required))
  then Err InvalidPauseTransition
  else Ok tt.

(** * Encoding and verification *)

Section session.
Context `{Blake3} `{Ed25519}.

Definition encode_sync_responder_checkpoint_content_v2
  (content : CanonicalSyncResponderCheckpointContentV2) : result CanonicalSyncResponderSessionV2Error bytes :=
  responder_validate_content content ;?
  let output := []
    |> push_array_header (as_u64 14)
    |> push_unsigned CANONICAL_PROFILE_VERSION
    |> push_bytes content.(protocol_identifier)
    |> push_bytes content.(conversation_id)
    |> push_bytes content.(responder_device_id)
    |> push_bytes content.(requester_device_id)
    |> push_bytes content.(session_binding)
    |> push_unsigned content.(checkpoint_sequence)
    |> push_unsigned content.(sync_round)
    |> encode_optional_id content.(predecessor_checkpoint_id) in
  let? output := encode_keys content.(received_event_keys) output in
  let? output := encode_keys content.(sent_event_keys) output in
  bounded (output
    |> push_unsigned (u64_of_bool content.(continuation_required))
    |> push_unsigned (responder_action_code content.(next_action))
    |> push_unsigned (u64_of_bool content.(paused))).

Definition sync_responder_checkpoint_signing_bytes_v2
  (content : CanonicalSyncResponderCheckpointContentV2) : result CanonicalSyncResponderSessionV2Error bytes :=
  let? encoded := encode_sync_responder_checkpoint_content_v2 content in
  Ok (prefixed CANONICAL_SYNC_RESPONDER_CHECKPOINT_SIGNATURE_DOMAIN_V2 encoded).

Definition verify_signed_sync_responder_checkpoint_v2
  (checkpoint : CanonicalSignedSyncResponderCheckpointV2)
  : result CanonicalSyncResponderSessionV2Error unit :=
  responder_validate_content checkpoint.(content) ;?
  fail_if (negb (verifying_key_ok checkpoint.(content).(responder_device_id)))
    ResponderInvalidPublicKey ;?
  fail_if (negb (signature_ok checkpoint.(signature))) ResponderInvalidSignature ;?
  let? message := sync_responder_checkpoint_signing_bytes_v2 checkpoint.(content) in
  fail_if (negb (verify_strict checkpoint.(content).(responder_device_id) message
                   checkpoint.(signature))) ResponderInvalidSignature.

Definition encode_signed_sync_responder_checkpoint_v2
  (checkpoint : CanonicalSignedSyncResponderCheckpointV2)
  : result CanonicalSyncResponderSessionV2Error bytes :=
  verify_signed_sync_responder_checkpoint_v2 checkpoint ;?
  let? content := encode_sync_responder_checkpoint_content_v2 checkpoint.(content) in
  bounded (signed_envelope content checkpoint.(signature)).

Definition sync_responder_checkpoint_id_v2 (checkpoint : CanonicalSignedSyncResponderCheckpointV2)
  : result CanonicalSyncResponderSessionV2Error (arr 32) :=
  let? encoded := encode_signed_sync_responder_checkpoint_v2 checkpoint in
  Ok (blake3 (CANONICAL_SYNC_RESPONDER_CHECKPOINT_ID_DOMAIN_V2 ++ encoded)).

(** * Decoding *)

Definition responder_decode_content_from
  : dec CanonicalSyncResponderSessionV2Error CanonicalSyncResponderCheckpointContentV2 :=
  dmap_err ResponderAccount
    (AccountDecoder.expect_array "sync-responder-checkpoint-content-v2" 14) ;!
  dmap_err ResponderAccount
    (AccountDecoder.expect_version "sync-responder-checkpoint-content-v2.schema_version") ;!
  let! protocol_identifier := dmap_err ResponderAccount
    (AccountDecoder.fixed_bytes 23 "sync-responder-checkpoint-content-v2.protocol_identifier") in
  let! conversation_id := dmap_err ResponderAccount
    (AccountDecoder.fixed_bytes 32 "sync-responder-checkpoint-content-v2.conversation_id") in
  let! responder_device_id := dmap_err ResponderAccount
    (AccountDecoder.fixed_bytes 32 "sync-responder-checkpoint-content-v2.responder_device_id") in
  let! requester_device_id := dmap_err ResponderAccount
    (AccountDecoder.fixed_bytes 32 "sync-responder-checkpoint-content-v2.requester_device_id") in
  let! session_binding := dmap_err ResponderAccount
    (AccountDecoder.fixed_bytes 32 "sync-responder-checkpoint-content-v2.session_binding") in
  let! checkpoint_sequence := dmap_err ResponderAccount
    (AccountDecoder.unsigned "sync-responder-checkpoint-content-v2.checkpoint_sequence") in
  let! sync_round := dmap_err ResponderAccount
    (AccountDecoder.unsigned "sync-responder-checkpoint-content-v2.sync_round") in
  let! predecessor_checkpoint_id :=
    decode_optional_id "sync-responder-checkpoint-content-v2.predecessor_checkpoint_id" in
  let! received_event_keys :=
    decode_keys "sync-responder-checkpoint-content-v2.received_event_keys" in
  let! sent_event_keys := decode_keys "sync-responder-checkpoint-content-v2.sent_event_keys" in
  let! continuation_required :=
    decode_bool "sync-responder-checkpoint-content-v2.continuation_required" in
  let! next_action :=
    (let! code := dmap_err ResponderAccount
       (AccountDecoder.unsigned "sync-responder-checkpoint-content-v2.next_action") in
     dlift (responder_action_from_code code)) in
  let! paused := decode_bool "sync-responder-checkpoint-content-v2.paused" in
  let content := {|
    protocol_identifier := protocol_identifier;
    conversation_id := conversation_id;
    responder_device_id := responder_device_id;
    requester_device_id := requester_device_id;
    session_binding := session_binding;
    checkpoint_sequence := checkpoint_sequence;
    sync_round := sync_round;
    predecessor_checkpoint_id := predecessor_checkpoint_id;
    received_event_keys := received_event_keys;
    sent_event_keys := sent_event_keys;
    continuation_required := continuation_required;
    next_action := next_action;
    paused := paused
  |} in
  dlift (responder_validate_content content) ;!
  dret content.

(** The fields [decode_signed_sync_responder_checkpoint_v2] reads before
    [finish]. *)
Definition responder_decode_signed_fields
  : dec CanonicalSyncResponderSessionV2Error CanonicalSignedSyncResponderCheckpointV2 :=
  dmap_err ResponderAccount (AccountDecoder.expect_array "signed-sync-responder-checkpoint-v2" 3) ;!
  dmap_err ResponderAccount
    (AccountDecoder.expect_version "signed-sync-responder-checkpoint-v2.schema_version") ;!
  let! content := responder_decode_content_from in
  let! signature := dmap_err ResponderAccount
    (AccountDecoder.fixed_bytes 64 "signed-sync-responder-checkpoint-v2.signature") in
  dret {| content := content; signature := signature |}.

Definition decode_signed_sync_responder_checkpoint_v2 (bs : bytes)
  : result CanonicalSyncResponderSessionV2Error CanonicalSignedSyncResponderCheckpointV2 :=
  validate_input bs ;?
  let? (checkpoint, decoder) := responder_decode_signed_fields (AccountDecoder.new bs) in
  map_err ResponderAccount (AccountDecoder.finish decoder) ;?
  Ok checkpoint.

Definition decode_and_verify_signed_sync_responder_checkpoint_v2 (bs : bytes)
  : result CanonicalSyncResponderSessionV2Error CanonicalSignedSyncResponderCheckpointV2 :=
  let? checkpoint := decode_signed_sync_responder_checkpoint_v2 bs in
  verify_signed_sync_responder_checkpoint_v2 checkpoint ;?
  Ok checkpoint.

(** * Successors *)

(** [matches!((previous.next_action, successor.next_action), ...)]. *)
Definition responder_action_transition (previous successor : CanonicalSyncResponderNextActionV2) : bool :=
  match previous, successor with
  | ReceiveInventory, SendDiff
  | SendDiff, ReceiveEventBatch
  | ReceiveEventBatch, SendComplete
  | SendComplete, Complete => true
  | _, _ => false
  end.

Definition verify_sync_responder_checkpoint_successor_v2
  (previous successor : CanonicalSignedSyncResponderCheckpointV2)
  : result CanonicalSyncResponderSessionV2Error unit :=
  verify_signed_sync_responder_checkpoint_v2 previous ;?
  verify_signed_sync_responder_checkpoint_v2 successor ;?
  let p := previous.(content) in
  let s := successor.(content) in
  fail_if (responder_is_terminal p.(next_action)) TerminalCheckpointHasSuccessor ;?
  fail_if (negb (bool_decide (p.(protocol_identifier) = s.(protocol_identifier)))
           || negb (bool_decide (p.(conversation_id) = s.(conversation_id)))
           || negb (bool_decide (p.(responder_device_id) = s.(responder_device_id)))
           || negb (bool_decide (p.(requester_device_id) = s.(requester_device_id)))
           || negb (bool_decide (p.(session_binding) = s.(session_binding))))
    SessionIdentityChanged ;?
  fail_if (negb (bool_decide (u64_checked_add p.(checkpoint_sequence) (as_u64 1)
                              = Some s.(checkpoint_sequence))))
    CheckpointSequenceDiscontinuity ;?
  let? previous_id := sync_responder_checkpoint_id_v2 previous in
  fail_if (negb (bool_decide (s.(predecessor_checkpoint_id) = Some previous_id)))
    PredecessorMismatch ;?
  fail_if ((s.(sync_round) <? p.(sync_round))%N
           || (u64_saturating_add p.(sync_round) (as_u64 1) <? s.(sync_round))%N)
    SyncRoundDiscontinuity ;?
  require_monotonic_evidence "received_event_keys"
    p.(received_event_keys) s.(received_event_keys) ;?
  require_monotonic_evidence "sent_event_keys" p.(sent_event_keys) s.(sent_event_keys) ;?
  if p.(paused) || s.(paused) then responder_validate_pause_transition p s
  else if bool_decide (u64_checked_add p.(sync_round) (as_u64 1) = Some s.(sync_round)) then
    fail_if (negb (bool_decide (p.(next_action) = SendComplete))
             || negb p.(continuation_required)
             || negb (bool_decide (s.(next_action) = ReceiveInventory))
             || s.(continuation_required)
             || negb (bool_decide (p.(received_event_keys) = s.(received_event_keys)))
             || negb (bool_decide (p.(sent_event_keys) = s.(sent_event_keys))))
      InvalidActionTransition
  else if bool_decide (s.(next_action) = Rejected) then Ok tt
  else if negb (responder_action_transition p.(next_action) s.(next_action))
          || (bool_decide (s.(next_action) = Complete) && p.(continuation_required))
  then Err InvalidActionTransition
  else Ok tt.

End session.

(** * Codec *)

Definition responder_content_item (c : CanonicalSyncResponderCheckpointContentV2) : item :=
  IArray [IUnsigned CANONICAL_PROFILE_VERSION; IBytes c.(protocol_identifier);
          IBytes c.(conversation_id); IBytes c.(responder_device_id); IBytes c.(requester_device_id);
          IBytes c.(session_binding); IUnsigned c.(checkpoint_sequence);
          IUnsigned c.(sync_round); optional_item c.(predecessor_checkpoint_id);
          keys_item c.(received_event_keys); keys_item c.(sent_event_keys);
          bool_item c.(continuation_required);
          IUnsigned (responder_action_code c.(next_action)); bool_item c.(paused)].

Definition responder_checkpoint_item (x : CanonicalSignedSyncResponderCheckpointV2) : item :=
  signed_item (responder_content_item x.(content)) x.(signature).

(** Items of a signed checkpoint as the validator counts them. *)
Definition responder_checkpoint_items (c : CanonicalSyncResponderCheckpointContentV2) : nat :=
  length c.(received_event_keys) + length c.(sent_event_keys) +
  match c.(predecessor_checkpoint_id) with Some _ => 19 | None => 18 end.

#[export] Instance responder_reads_action field :
  Reads (let! code := dmap_err ResponderAccount (AccountDecoder.unsigned field) in
         dlift (responder_action_from_code code))
    (fun a => enc_item (IUnsigned (responder_action_code a))) (fun _ => True).
Proof.
  apply (reads_map (dmap_err ResponderAccount (AccountDecoder.unsigned field))
    (fun v => enc_item (IUnsigned v)) (fun _ => True) _ responder_action_from_code responder_action_code);
    [|done|done].
  intros v a _. unfold responder_action_from_code. split.
  - intros Ha. split; [|done]. apply uint_eq.
    destruct (uint_val v) as [|[[[]|[]|]|[[]|[]|]|]] eqn:Ev; try discriminate Ha;
      injection Ha as <-; reflexivity.
  - intros [-> _]. by destruct a.
Qed.

Lemma responder_validate_content_keys c :
  responder_validate_content c = Ok tt →
  keys_valid c.(received_event_keys) ∧ keys_valid c.(sent_event_keys).
Proof.
  unfold responder_validate_content. intros Hc. rewrite !rbind_unit_ok, !validate_keys_ok in Hc. tauto.
Qed.

#[export] Instance responder_reads_content :
  Reads responder_decode_content_from (fun c => enc_item (responder_content_item c))
    (fun c => responder_validate_content c = Ok tt).
Proof.
  unfold responder_decode_content_from. split.
  - intros d c rest Hf Hok Hat. destruct (responder_validate_content_keys c Hok) as [Hr Hs].
    unfold responder_content_item in Hat. push_norm_in Hat.
    do 10 read_step. do 2 (read_step; [done|]). do 4 read_step. guard_ok Hok.
    read_done ltac:(unfold responder_content_item).
  - intros d l c d' Hat Hd. read_invs Hd. read_end ltac:(unfold responder_content_item). done.
Qed.

#[export] Instance responder_reads_checkpoint :
  Reads responder_decode_signed_fields (fun x => enc_item (responder_checkpoint_item x))
    (fun x => responder_validate_content x.(content) = Ok tt).
Proof.
  unfold responder_decode_signed_fields. split.
  - intros d x rest Hf Hok Hat. unfold responder_checkpoint_item, signed_item in Hat. push_norm_in Hat.
    do 2 read_step. read_step; [done|]. read_step.
    read_done ltac:(unfold responder_checkpoint_item, signed_item).
  - intros d l x d' Hat Hd. read_invs Hd.
    read_end ltac:(unfold responder_checkpoint_item, signed_item). done.
Qed.

Lemma responder_content_len c :
  responder_validate_content c = Ok tt → (len (enc_item (responder_content_item c)) <= 330000)%N.
Proof.
  intros [[Hr _] [Hs _]]%responder_validate_content_keys.
  unfold MAX_CANONICAL_SYNC_SESSION_EVENT_KEYS_V2 in Hr, Hs.
  unfold responder_content_item. rewrite enc_item_array, !enc_items_cons, enc_items_nil, !len_app.
  pose proof (keys_item_len c.(received_event_keys)).
  pose proof (keys_item_len c.(sent_event_keys)).
  unfold bool_item. cbn [enc_item]. rewrite !len_app, !len_arr.
  assert (len (enc_item (optional_item c.(predecessor_checkpoint_id))) <= 100)%N.
  { destruct c.(predecessor_checkpoint_id); [|by vm_compute].
    unfold optional_item. rewrite enc_item_array, !enc_items_cons, enc_items_nil, !len_app.
    cbn [enc_item]. rewrite len_app, len_arr. by vm_compute. }
  repeat match goal with |- context [len (head_bytes ?m ?a)] =>
    pose proof (len_head_bytes m a); generalize dependent (len (head_bytes m a)); intros end.
  change (len []) with 0%N. lia.
Qed.

Lemma responder_checkpoint_shape x : items_shape (responder_checkpoint_items x.(content)) 4 [responder_checkpoint_item x].
Proof.
  eapply items_shape_eq.
  - apply items_shape_signed. unfold responder_content_item, bool_item. items_shape.
    + eapply items_shape_weaken, optional_shape; [done|lia].
    + eapply items_shape_weaken, keys_shape; [done|lia].
    + eapply items_shape_weaken, keys_shape; [done|lia].
  - unfold responder_checkpoint_items. destruct (predecessor_checkpoint_id _); lia.
Qed.

Lemma responder_checkpoint_len x :
  responder_validate_content x.(content) = Ok tt → ensure_bound (E:=CanonicalSyncResponderSessionV2Error)
    (enc_item (responder_checkpoint_item x)) = Ok tt.
Proof.
  intros Hv%responder_content_len. apply ensure_bound_ok.
  unfold responder_checkpoint_item, signed_item, MAX_CANONICAL_SYNC_SESSION_CHECKPOINT_BYTES_V2.
  rewrite enc_item_array, !enc_items_cons, enc_items_nil, !len_app. cbn [enc_item].
  rewrite !len_app, !len_arr.
  repeat match goal with |- context [len (head_bytes ?m ?a)] =>
    pose proof (len_head_bytes m a); generalize dependent (len (head_bytes m a)); intros end.
  change (len []) with 0%N. lia.
Qed.

Lemma responder_checkpoint_fits x :
  responder_validate_content x.(content) = Ok tt → item_fits (responder_checkpoint_item x) = true.
Proof.
  intros [[Hr _] [Hs _]]%responder_validate_content_keys.
  assert (Hk : ∀ ks, (len ks <= MAX_CANONICAL_SYNC_SESSION_EVENT_KEYS_V2)%N →
    item_fits (keys_item ks) = true).
  { intros ks Hks. apply item_fits_array. rewrite len_map. split; [by eapply N.le_lt_trans|].
    apply Forall_map, Forall_true. intros k. apply item_fits_bytes. by rewrite key_item_len. }
  unfold responder_checkpoint_item, signed_item, responder_content_item, bool_item.
  cbn [item_fits forallb]. rewrite !Hk, !len_arr by done.
  destruct (predecessor_checkpoint_id _); cbn [optional_item item_fits forallb];
    rewrite ?len_arr; vm_compute; done.
Qed.

(** A checkpoint is within the profile exactly when its items are counted. *)
Lemma responder_checkpoint_in_profile x :
  responder_validate_content x.(content) = Ok tt →
  validate_canonical_profile_v1 (enc_item (responder_checkpoint_item x)) = Ok tt ↔
  (N.of_nat (responder_checkpoint_items x.(content)) <= MAX_CANONICAL_ITEMS)%N.
Proof.
  intros Hv. rewrite <-(items_shape_count _ _ _ (responder_checkpoint_shape x)). split.
  - intros Hp. destruct (decide (N.of_nat (item_count (responder_checkpoint_item x)) <= MAX_CANONICAL_ITEMS)%N)
      as [|Hn]; [done|].
    destruct (validate_profile_reject (responder_checkpoint_item x)); auto using responder_checkpoint_fits.
    by intros (_ & ? & _).
  - intros Hc. apply validate_profile_complete. eapply shape_in_profile; [apply responder_checkpoint_shape|lia|].
    by rewrite <-(items_shape_count _ _ _ (responder_checkpoint_shape x)).
Qed.

Lemma responder_decode_checkpoint_spec bs x :
  decode_signed_sync_responder_checkpoint_v2 bs = Ok x ↔
  responder_validate_content x.(content) = Ok tt ∧ bs = enc_item (responder_checkpoint_item x) ∧
  (N.of_nat (responder_checkpoint_items x.(content)) <= MAX_CANONICAL_ITEMS)%N.
Proof.
  transitivity (ensure_bound (E:=CanonicalSyncResponderSessionV2Error) bs = Ok tt ∧
    decode_message ResponderWire responder_decode_signed_fields bs = Ok x).
  { unfold decode_signed_sync_responder_checkpoint_v2, validate_input, decode_message.
    destruct (ensure_bound bs) as [[]|]; cbn [rbind]; [|by intuition].
    unfold AccountDecoder.new. destruct (map_err _ _) as [[]|]; cbn [rbind]; [|by intuition].
    destruct (responder_decode_signed_fields _) as [[k' d]|]; cbn [rbind]; [|by intuition].
    unfold AccountDecoder.finish. destruct (_ =? _)%N; cbn [map_err rbind]; by intuition. }
  rewrite (decode_message_spec _ _ responder_checkpoint_item (fun x => responder_validate_content x.(content) = Ok tt)).
  split.
  - intros (_ & Hv & -> & Hp). by rewrite responder_checkpoint_in_profile in Hp.
  - intros (Hv & -> & Hc). rewrite responder_checkpoint_in_profile by done. auto using responder_checkpoint_len.
Qed.

Section correctness.
Context `{Blake3} `{Ed25519}.

Lemma responder_encode_content_spec c bs :
  encode_sync_responder_checkpoint_content_v2 c = Ok bs ↔
  responder_validate_content c = Ok tt ∧ bs = enc_item (responder_content_item c).
Proof.
  unfold encode_sync_responder_checkpoint_content_v2. rewrite rbind_unit_ok.
  rewrite encode_optional_id_app. rewrite encode_keys_app. cbn [rbind].
  rewrite encode_keys_app. cbn [rbind].
  match goal with |- context [bounded ?o] =>
    assert (Eo : o = enc_item (responder_content_item c)) by (unfold responder_content_item, bool_item; by push_norm)
  end.
  rewrite Eo. split; intros [Hv Hb]; (split; [done|]).
  - rewrite bounded_ok in Hb; [by apply Ok_inj in Hb|]. apply ensure_bound_ok.
    pose proof (responder_content_len c Hv). unfold MAX_CANONICAL_SYNC_SESSION_CHECKPOINT_BYTES_V2. lia.
  - subst bs. apply bounded_ok, ensure_bound_ok.
    pose proof (responder_content_len c Hv). unfold MAX_CANONICAL_SYNC_SESSION_CHECKPOINT_BYTES_V2. lia.
Qed.

(** A verified checkpoint: valid content signed by the local device. *)
Definition responder_checkpoint_verified (x : CanonicalSignedSyncResponderCheckpointV2) : Prop :=
  responder_validate_content x.(content) = Ok tt ∧
  signed_by x.(content).(responder_device_id) CANONICAL_SYNC_RESPONDER_CHECKPOINT_SIGNATURE_DOMAIN_V2
    (responder_content_item x.(content)) x.(signature).

Lemma responder_verify_checkpoint_ok x :
  verify_signed_sync_responder_checkpoint_v2 x = Ok tt ↔ responder_checkpoint_verified x.
Proof.
  unfold verify_signed_sync_responder_checkpoint_v2, responder_checkpoint_verified, signed_by,
    sync_responder_checkpoint_signing_bytes_v2.
  rewrite !rbind_unit_ok, !fail_if_ok, !negb_false_iff.
  split; intros (Hv & Hk & Hs & Hm); (split_and!; [done..|]).
  - result_inv. apply responder_encode_content_spec in E0 as [_ ->].
    by apply negb_false_iff in G.
  - rewrite (proj2 (responder_encode_content_spec _ _)) by (split; [done|reflexivity]).
    cbn [rbind]. by rewrite fail_if_ok, negb_false_iff.
Qed.

Lemma responder_encode_checkpoint_spec x bs :
  encode_signed_sync_responder_checkpoint_v2 x = Ok bs ↔
  responder_checkpoint_verified x ∧ bs = enc_item (responder_checkpoint_item x).
Proof.
  unfold encode_signed_sync_responder_checkpoint_v2. rewrite rbind_unit_ok, responder_verify_checkpoint_ok.
  split; intros [Hv Hb]; (split; [done|]).
  - result_inv. apply responder_encode_content_spec in E as [_ ->]. rewrite signed_envelope_enc in Hb.
    rewrite bounded_ok in Hb; [by apply Ok_inj in Hb|]. apply responder_checkpoint_len, Hv.
  - subst. rewrite (proj2 (responder_encode_content_spec _ _)) by (split; [apply Hv|reflexivity]).
    cbn [rbind]. rewrite signed_envelope_enc. apply bounded_ok, responder_checkpoint_len, Hv.
Qed.

(** strict decoding followed by verification accepts a byte string exactly
    when it is the encoding of the returned checkpoint and the checkpoint's
    item count is within the profile. *)
Theorem responder_checkpoint_roundtrip bs x :
  decode_and_verify_signed_sync_responder_checkpoint_v2 bs = Ok x ↔
  encode_signed_sync_responder_checkpoint_v2 x = Ok bs ∧
  (N.of_nat (responder_checkpoint_items x.(content)) <= MAX_CANONICAL_ITEMS)%N.
Proof.
  rewrite responder_encode_checkpoint_spec. unfold decode_and_verify_signed_sync_responder_checkpoint_v2.
  split.
  - intros Hx. result_inv. apply responder_decode_checkpoint_spec in E as (_ & -> & Hc).
    by apply responder_verify_checkpoint_ok in E0.
  - intros [[Hx ->] Hc]. rewrite (proj2 (responder_decode_checkpoint_spec _ x)) by (split; [apply Hx|done]).
    cbn [rbind]. by rewrite (proj2 (responder_verify_checkpoint_ok x)).
Qed.

(** a verified checkpoint whose two key lists together exceed the item
    limit of the profile encodes, but the encoding does not decode: the bound
    of 4096 keys per list admits checkpoints that cannot be read back. *)
Theorem responder_checkpoint_unreadable x :
  verify_signed_sync_responder_checkpoint_v2 x = Ok tt →
  (MAX_CANONICAL_ITEMS < N.of_nat (responder_checkpoint_items x.(content)))%N →
  ∃ bs, encode_signed_sync_responder_checkpoint_v2 x = Ok bs ∧
    is_ok (decode_signed_sync_responder_checkpoint_v2 bs) = false.
Proof.
  intros Hv%responder_verify_checkpoint_ok Hc. exists (enc_item (responder_checkpoint_item x)).
  split; [by apply responder_encode_checkpoint_spec|].
  destruct (decode_signed_sync_responder_checkpoint_v2 _) as [y|] eqn:Ed; [|done].
  apply responder_decode_checkpoint_spec in Ed as (Hy & Ey & Hcy).
  destruct (enc_item_inj (responder_checkpoint_item x) (responder_checkpoint_item y) [] []) as [E _];
    [by apply responder_checkpoint_fits, Hv|by apply responder_checkpoint_fits|by rewrite !app_nil_r|].
  rewrite <-(items_shape_count _ _ _ (responder_checkpoint_shape y)), <-E in Hcy.
  rewrite (items_shape_count _ _ _ (responder_checkpoint_shape x)) in Hcy. lia.
Qed.

(** * The transition system of a session *)

Definition responder_checkpoint_id (x : CanonicalSignedSyncResponderCheckpointV2) : arr 32 :=
  blake3 (CANONICAL_SYNC_RESPONDER_CHECKPOINT_ID_DOMAIN_V2 ++ enc_item (responder_checkpoint_item x)).

Definition responder_same_session (p s : CanonicalSyncResponderCheckpointContentV2) : Prop :=
  p.(protocol_identifier) = s.(protocol_identifier) ∧ p.(conversation_id) = s.(conversation_id) ∧
  p.(responder_device_id) = s.(responder_device_id) ∧ p.(requester_device_id) = s.(requester_device_id) ∧
  p.(session_binding) = s.(session_binding).

(** Evidence is cumulative. *)
Definition responder_evidence_grows (p s : CanonicalSyncResponderCheckpointContentV2) : Prop :=
  (∀ k, k ∈ p.(received_event_keys) → k ∈ s.(received_event_keys)) ∧
  (∀ k, k ∈ p.(sent_event_keys) → k ∈ s.(sent_event_keys)).

Definition responder_same_progress (p s : CanonicalSyncResponderCheckpointContentV2) : Prop :=
  p.(received_event_keys) = s.(received_event_keys) ∧ p.(sent_event_keys) = s.(sent_event_keys).

Inductive responder_step (p s : CanonicalSyncResponderCheckpointContentV2) : Prop :=
| responder_step_pause :
    responder_is_terminal p.(next_action) = false → p.(paused) = negb s.(paused) →
    p.(sync_round) = s.(sync_round) → p.(next_action) = s.(next_action) →
    p.(continuation_required) = s.(continuation_required) → responder_same_progress p s →
    responder_step p s
| responder_step_next_round :
    p.(paused) = false → s.(paused) = false →
    uint_val s.(sync_round) = (uint_val p.(sync_round) + 1)%N →
    p.(next_action) = SendComplete → s.(next_action) = ReceiveInventory →
    p.(continuation_required) = true → s.(continuation_required) = false →
    responder_same_progress p s →
    responder_step p s
| responder_step_reject :
    p.(paused) = false → s.(paused) = false → p.(sync_round) = s.(sync_round) →
    responder_is_terminal p.(next_action) = false → s.(next_action) = Rejected → responder_step p s
| responder_step_action :
    p.(paused) = false → s.(paused) = false → p.(sync_round) = s.(sync_round) →
    responder_action_transition p.(next_action) s.(next_action) = true →
    (s.(next_action) = Complete → p.(continuation_required) = false) → responder_step p s.

(** The part of the successor check after the guards on identity, sequence,
    link and evidence. *)
Definition responder_step_check (p s : CanonicalSyncResponderCheckpointContentV2)
  : result CanonicalSyncResponderSessionV2Error unit :=
  if p.(paused) || s.(paused) then responder_validate_pause_transition p s
  else if bool_decide (u64_checked_add p.(sync_round) (as_u64 1) = Some s.(sync_round)) then
    fail_if (negb (bool_decide (p.(next_action) = SendComplete))
             || negb p.(continuation_required)
             || negb (bool_decide (s.(next_action) = ReceiveInventory))
             || s.(continuation_required)
             || negb (bool_decide (p.(received_event_keys) = s.(received_event_keys)))
             || negb (bool_decide (p.(sent_event_keys) = s.(sent_event_keys))))
      InvalidActionTransition
  else if bool_decide (s.(next_action) = Rejected) then Ok tt
  else if negb (responder_action_transition p.(next_action) s.(next_action))
          || (bool_decide (s.(next_action) = Complete) && p.(continuation_required))
  then Err InvalidActionTransition
  else Ok tt.

Lemma responder_validate_pause_ok p s :
  responder_validate_pause_transition p s = Ok tt ↔
  responder_is_terminal p.(next_action) = false ∧ p.(paused) = negb s.(paused) ∧
  p.(sync_round) = s.(sync_round) ∧ p.(next_action) = s.(next_action) ∧
  p.(continuation_required) = s.(continuation_required) ∧ responder_same_progress p s.
Proof.
  unfold responder_validate_pause_transition, responder_same_progress.
  rewrite if_err_ok.
  rewrite !orb_false_iff, !negb_false_iff, !bool_decide_eq_true, !eqb_true_iff, u64_eqb_eq,
    eqb_false_iff. split.
  - intros He. destruct_and!. split_and!; try done.
    by destruct p.(paused), s.(paused).
  - intros (Ht & Hp & Hr & Ha & Hc & Hk1 & Hk2). split_and!; try done.
    + by rewrite <-Ha.
    + rewrite Hp. by destruct s.(paused).
Qed.

Lemma responder_step_check_ok p s :
  responder_is_terminal p.(next_action) = false → (p.(sync_round) <= s.(sync_round))%N →
  (s.(sync_round) <= p.(sync_round) + 1)%N →
  responder_step_check p s = Ok tt ↔ responder_step p s.
Proof.
  intros Ht Hr1 Hr2. unfold responder_step_check.
  destruct (p.(paused) || s.(paused)) eqn:Ep.
  { rewrite responder_validate_pause_ok. split.
    - intros (? & ? & ? & ? & ? & ?). by apply responder_step_pause.
    - intros [| | |]; [by auto 10|..]; by destruct p.(paused), s.(paused). }
  apply orb_false_iff in Ep as [Hp Hs].
  destruct (bool_decide _) eqn:Er.
  { apply bool_decide_eq_true, u64_checked_add_Some in Er.
    change (uint_val (as_u64 1)) with 1%N in Er.
    rewrite fail_if_ok, !orb_false_iff, !negb_false_iff, !bool_decide_eq_true. split.
    - intros He. destruct_and!. by apply responder_step_next_round.
    - intros [_ Hpause|? ? ? ? ? ? ? (?&?)|? ? Hr|? ? Hr]; [|by split_and!|..].
      + rewrite Hp, Hs in Hpause. done.
      + rewrite Hr in Er. lia.
      + rewrite Hr in Er. lia. }
  apply bool_decide_eq_false in Er. rewrite u64_checked_add_Some in Er.
  change (uint_val (as_u64 1)) with 1%N in Er.
  assert (Hr : p.(sync_round) = s.(sync_round)) by (apply uint_eq; lia).
  destruct (bool_decide (s.(next_action) = Rejected)) eqn:Ej.
  { apply bool_decide_eq_true in Ej. split; [|done]. intros _. by apply responder_step_reject. }
  apply bool_decide_eq_false in Ej.
  rewrite if_err_ok, orb_false_iff, negb_false_iff, andb_false_iff, bool_decide_eq_false. split.
  - intros [Ha Hc]. apply responder_step_action; [done..|]. intros Hs'. by destruct Hc.
  - intros [_ Hpause|? ? Hn| |? ? ? Ha Hc]; [rewrite Hp, Hs in Hpause; done|lia|done|].
    split; [done|]. destruct (decide (s.(next_action) = Complete)) as [E|E]; [right; auto|by left].
Qed.

Lemma responder_checkpoint_id_ok x :
  responder_checkpoint_verified x → sync_responder_checkpoint_id_v2 x = Ok (responder_checkpoint_id x).
Proof.
  intros Hx. unfold sync_responder_checkpoint_id_v2.
  by rewrite (proj2 (responder_encode_checkpoint_spec x _) (conj Hx eq_refl)).
Qed.

(** A verified checkpoint [s] that responder_continues the verified checkpoint [p]. *)
Definition responder_continues (p s : CanonicalSignedSyncResponderCheckpointV2) : Prop :=
  responder_checkpoint_verified p ∧ responder_checkpoint_verified s ∧ responder_same_session p.(content) s.(content) ∧
  uint_val s.(content).(checkpoint_sequence) = (uint_val p.(content).(checkpoint_sequence) + 1)%N ∧
  s.(content).(predecessor_checkpoint_id) = Some (responder_checkpoint_id p) ∧
  responder_evidence_grows p.(content) s.(content) ∧ responder_step p.(content) s.(content).

Lemma responder_step_round p s : responder_step p s →
  responder_is_terminal p.(next_action) = false ∧
  (p.(sync_round) <= s.(sync_round))%N ∧ (s.(sync_round) <= p.(sync_round) + 1)%N.
Proof.
  intros [Ht _ Hr|? ? Hr Hp|? ? Hr Ht|? ? Hr Ha].
  - rewrite Hr. split; [done|lia].
  - rewrite Hp. split; [done|lia].
  - rewrite Hr. split; [done|lia].
  - rewrite Hr. split; [by destruct p.(next_action)|lia].
Qed.

Lemma responder_successor_spec p s :
  verify_sync_responder_checkpoint_successor_v2 p s = Ok tt ↔ responder_continues p s.
Proof.
  unfold verify_sync_responder_checkpoint_successor_v2, responder_continues, responder_evidence_grows.
  rewrite !rbind_unit_ok, !responder_verify_checkpoint_ok.
  assert (∀ A B C : Prop, (A → B ↔ C) → A ∧ B ↔ A ∧ C) as Hcong by tauto.
  apply Hcong. intros Hp. apply Hcong. intros Hs.
  fold (responder_step_check p.(content) s.(content)). rewrite (responder_checkpoint_id_ok p Hp). cbn [rbind].
  rewrite !rbind_unit_ok, !fail_if_ok, !orb_false_iff, !negb_false_iff, !bool_decide_eq_true,
    u64_checked_add_Some, !N.ltb_ge, u64_saturating_add_val.
  destruct (responder_validate_content_keys _ (proj1 Hp)) as [[_ Hr1] [_ Hs1]].
  destruct (responder_validate_content_keys _ (proj1 Hs)) as [[_ Hr2] [_ Hs2]].
  rewrite !monotonic_evidence_ok by done. unfold responder_same_session.
  change (uint_val (as_u64 1)) with 1%N.
  pose proof (uint_lt s.(content).(sync_round)) as Hlt.
  split.
  - intros He. destruct_and!. split_and!; try done. apply responder_step_check_ok; [done|done|lia|done].
  - intros He. destruct_and!.
    assert (Hst : responder_step p.(content) s.(content)) by done.
    destruct (responder_step_round _ _ Hst) as (Ht & Hl1 & Hl2).
    split_and!; try done; [lia|]. by apply responder_step_check_ok.
Qed.

(** * Properties of checkpoint chains *)

(** One accepted successor. *)
Definition responder_successor (p s : CanonicalSignedSyncResponderCheckpointV2) : Prop :=
  verify_sync_responder_checkpoint_successor_v2 p s = Ok tt.

(** the successor check accepts exactly the steps of the responder's
    transition system between verified checkpoints of one session, linked by
    sequence number and by the hash of the predecessor, with evidence that
    only grows. *)
Theorem responder_successor_exact p s :
  verify_sync_responder_checkpoint_successor_v2 p s = Ok tt ↔ responder_continues p s.
Proof. apply responder_successor_spec. Qed.

(** along a chain of [n] accepted successors the session identity never
    changes, the sequence number grows by exactly [n], the round by at most
    [n], no evidence is lost, and no checkpoint but the last is terminal. *)
Theorem responder_chain_invariant n a b :
  nsteps responder_successor n a b →
  responder_same_session a.(content) b.(content) ∧
  uint_val b.(content).(checkpoint_sequence) =
    (uint_val a.(content).(checkpoint_sequence) + N.of_nat n)%N ∧
  (a.(content).(sync_round) <= b.(content).(sync_round) <= a.(content).(sync_round) + N.of_nat n)%N ∧
  responder_evidence_grows a.(content) b.(content) ∧
  (0 < n → responder_is_terminal a.(content).(next_action) = false).
Proof.
  induction 1 as [a|n a c b Hac _ IH].
  - unfold responder_same_session, responder_evidence_grows. split_and!; auto; lia.
  - apply responder_successor_spec in Hac as (_ & _ & Hid & Hseq & _ & Hev & Hst).
    destruct (responder_step_round _ _ Hst) as (Ht & Hr1 & Hr2).
    destruct IH as (Hid' & Hseq' & Hr' & Hev' & _).
    unfold responder_same_session, responder_evidence_grows in *. destruct_and!.
    split_and!; try congruence; try lia; naive_solver.
Qed.

(** a responder completes only from an active checkpoint that is about to
    send completion and requires no continuation, and it is not continued; a
    new round starts only when a continuation is required. *)
Theorem responder_completion p s :
  responder_successor p s →
  (s.(content).(next_action) = Complete →
    p.(content).(next_action) = SendComplete ∧ p.(content).(continuation_required) = false ∧
    p.(content).(sync_round) = s.(content).(sync_round) ∧ ∀ t, ¬ responder_successor s t) ∧
  (p.(content).(sync_round) ≠ s.(content).(sync_round) →
    p.(content).(next_action) = SendComplete ∧ p.(content).(continuation_required) = true ∧
    s.(content).(next_action) = ReceiveInventory).
Proof.
  intros (Hp & Hs & _ & _ & _ & _ & Hst)%responder_successor_spec. split.
  - intros Hc. assert (Hn : ∀ t, ¬ responder_successor s t).
    { intros t (_ & _ & _ & _ & _ & _ & Hst')%responder_successor_spec.
      apply responder_step_round in Hst' as [Ht _]. by rewrite Hc in Ht. }
    destruct Hst as [Ht _ Hr Ha|_ _ _ _ Ha|_ _ _ _ Ha|_ _ Hr Ha Hcont]; try congruence.
    + rewrite Ha, Hc in Ht. done.
    + rewrite Hc in Ha. split_and!; auto. by destruct p.(content).(next_action).
  - intros Hne. by destruct Hst.
Qed.

(** ** History *)

(** What the identifier of a checkpoint hashes. *)
Definition responder_id_preimage (x : CanonicalSignedSyncResponderCheckpointV2) : bytes :=
  CANONICAL_SYNC_RESPONDER_CHECKPOINT_ID_DOMAIN_V2 ++ enc_item (responder_checkpoint_item x).

Lemma responder_checkpoint_item_inj x y :
  responder_validate_content x.(content) = Ok tt → responder_validate_content y.(content) = Ok tt →
  enc_item (responder_checkpoint_item x) = enc_item (responder_checkpoint_item y) → x = y.
Proof.
  intros Hx Hy. apply (reads_inj responder_decode_signed_fields (fun x => enc_item (responder_checkpoint_item x))
    (fun x => responder_validate_content x.(content) = Ok tt)); [done|done|].
  eapply N.le_lt_trans; [by apply (ensure_bound_ok (E:=CanonicalSyncResponderSessionV2Error)), responder_checkpoint_len|].
  done.
Qed.

Lemma responder_checkpoint_sequence_pos x :
  responder_validate_content x.(content) = Ok tt → (1 <= x.(content).(checkpoint_sequence))%N.
Proof.
  unfold responder_validate_content. rewrite !rbind_unit_ok. intros Hv. destruct_and!.
  match goal with Hx : fail_if _ InvalidCheckpointSequence = _ |- _ =>
    rewrite fail_if_ok in Hx; unfold u64_eqb in Hx; apply N.eqb_neq in Hx;
    change (uint_val (as_u64 0)) with 0%N in Hx end. lia.
Qed.

#[export] Instance responder_chain : HashChain CanonicalSignedSyncResponderCheckpointV2.
Proof.
  refine {|
    chain_valid := fun x => verify_signed_sync_responder_checkpoint_v2 x = Ok tt;
    chain_successor := responder_successor;
    chain_sequence := fun x => x.(content).(checkpoint_sequence);
    chain_link := fun x => x.(content).(predecessor_checkpoint_id);
    chain_preimage := responder_id_preimage
  |}.
  - intros p s (Hp & _)%responder_successor_spec. by apply responder_verify_checkpoint_ok.
  - by intros p s (_ & _ & _ & Hs & _)%responder_successor_spec.
  - by intros p s (_ & _ & _ & _ & Hl & _)%responder_successor_spec.
  - intros x [Hv _]%responder_verify_checkpoint_ok. by apply responder_checkpoint_sequence_pos.
  - intros x y [Hx _]%responder_verify_checkpoint_ok [Hy _]%responder_verify_checkpoint_ok E.
    apply responder_checkpoint_item_inj; [done|done|]. by apply app_inv_head in E.
Defined.

(** the newest checkpoint of a session determines its whole history: two
    histories of verified successors back to sequence one with the same newest
    checkpoint are equal, unless BLAKE3 collides on two of their checkpoints. *)
Theorem responder_history_unique (x : CanonicalSignedSyncResponderCheckpointV2) l l' :
  history (x :: l) → history (x :: l') →
  (∀ p q, p ∈ l → q ∈ l' → no_collision (responder_id_preimage p) (responder_id_preimage q)) → l = l'.
Proof. exact (history_unique x l l'). Qed.

End correctness.

(** * A concrete session *)

Module ResponderExample.
Import AuthorityExample.

#[local] Existing Instance Toy.blake3_instance.
#[local] Existing Instance Toy.ed25519_instance.

Definition key (k : N) : CanonicalSyncEventKeyV2 :=
  new_key LegacyPostcardV6 (arr_of 32 (to_be_bytes 32 k)).

Definition make (sequence : N) (predecessor : option (arr 32))
  (sent : list CanonicalSyncEventKeyV2) (action : CanonicalSyncResponderNextActionV2)
  : CanonicalSignedSyncResponderCheckpointV2 :=
  let c := {|
    protocol_identifier := CANONICAL_SYNC_SESSION_PROTOCOL_IDENTIFIER_V2;
    conversation_id := id 8;
    responder_device_id := id 4;
    requester_device_id := id 2;
    session_binding := id 7;
    checkpoint_sequence := as_u64 sequence;
    sync_round := as_u64 1;
    predecessor_checkpoint_id := predecessor;
    received_event_keys := [];
    sent_event_keys := sent;
    continuation_required := false;
    next_action := action;
    paused := false
  |} in
  {| content := c;
     signature := sign (id 4)
       (CANONICAL_SYNC_RESPONDER_CHECKPOINT_SIGNATURE_DOMAIN_V2 ++
        enc_item (responder_content_item c)) |}.

Definition r1 := make 1 None [] ReceiveInventory.
Definition r2 := make 2 (Some (responder_checkpoint_id r1)) [] SendDiff.
Definition r3 := make 3 (Some (responder_checkpoint_id r2)) [key 3; key 5] ReceiveEventBatch.
Definition r4 := make 4 (Some (responder_checkpoint_id r3)) [key 3; key 4; key 5] SendComplete.
Definition r5 := make 5 (Some (responder_checkpoint_id r4)) [key 3; key 4; key 5] Complete.

Lemma r1_r2 : responder_successor r1 r2.
Proof. vm_compute. reflexivity. Qed.
Lemma r2_r3 : responder_successor r2 r3.
Proof. vm_compute. reflexivity. Qed.
Lemma r3_r4 : responder_successor r3 r4.
Proof. vm_compute. reflexivity. Qed.
Lemma r4_r5 : responder_successor r4 r5.
Proof. vm_compute. reflexivity. Qed.

Lemma responder_chain_invariant_witness : responder_evidence_grows r1.(content) r5.(content).
Proof.
  destruct (responder_chain_invariant 4 r1 r5) as (_ & _ & _ & He & _); [|exact He].
  eapply nsteps_l; [exact r1_r2|]. eapply nsteps_l; [exact r2_r3|].
  eapply nsteps_l; [exact r3_r4|]. eapply nsteps_l; [exact r4_r5|apply nsteps_O].
Defined.

Lemma responder_completion_witness :
  r4.(content).(next_action) = SendComplete ∧ ¬ responder_successor r5 r5.
Proof.
  destruct (responder_completion r4 r5 r4_r5) as [Hc _].
  destruct (Hc eq_refl) as (Ha & _ & _ & Hn). split; [exact Ha|exact (Hn r5)].
Defined.

Lemma responder_history_unique_witness : [r1] = [r1].
Proof.
  apply (responder_history_unique r2 [r1] [r1]).
  - apply history_next; [|exact r1_r2]. apply history_first; vm_compute; reflexivity.
  - apply history_next; [|exact r1_r2]. apply history_first; vm_compute; reflexivity.
  - intros p q ->%list_elem_of_singleton ->%list_elem_of_singleton _. reflexivity.
Defined.

(** A checkpoint with 4096 received and 4096 sent keys. *)
Definition full : CanonicalSignedSyncResponderCheckpointV2 :=
  let keys := map (fun k => key (N.of_nat k)) (seq 0 (N.to_nat 4096)) in
  {| content := {|
       protocol_identifier := CANONICAL_SYNC_SESSION_PROTOCOL_IDENTIFIER_V2;
       conversation_id := id 8;
       responder_device_id := id 4;
       requester_device_id := id 2;
       session_binding := id 7;
       checkpoint_sequence := as_u64 1;
       sync_round := as_u64 1;
       predecessor_checkpoint_id := None;
       received_event_keys := keys;
       sent_event_keys := keys;
       continuation_required := false;
       next_action := ReceiveInventory;
       paused := false
     |};
     signature := arr_repeat 64 x00 |}.

Lemma responder_checkpoint_unreadable_witness :
  ∃ bs, @encode_signed_sync_responder_checkpoint_v2 Toy.accepting_instance full = Ok bs ∧
    is_ok (decode_signed_sync_responder_checkpoint_v2 bs) = false.
Proof.
  apply (@responder_checkpoint_unreadable Toy.accepting_instance full).
  - apply responder_verify_checkpoint_ok. split; [vm_compute; reflexivity|].
    split; [reflexivity|]. split; reflexivity.
  - vm_compute. reflexivity.
Defined.

End ResponderExample.
