(* ===== verification/Postcard.v ===== *)
(** Interface of the third-party [postcard] serializer the mailbox uses, and a
    concrete instance of it.

    The operations are parameters of the model; what the mailbox relies on are
    the laws: every value of its types encodes, and a value read back from its
    own encoding is the value.  [Codec]
    builds a concrete serializer with that law, used to evaluate the
    definitions on inputs. *)

From stdpp Require Import base tactics list numbers.
From Stdlib Require Import Strings.Byte.
From S2P Require Import Prelude.

(** [postcard::to_allocvec] and [postcard::from_bytes] at one type. *)
Class Postcard (A : Type) := {
  to_allocvec : A → option bytes;
  from_bytes : bytes → option A
}.

Class PostcardLaws (A : Type) `{Postcard A} : Prop := {
  postcard_total : ∀ a, ∃ b, to_allocvec a = Some b;
  postcard_roundtrip : ∀ a b, to_allocvec a = Some b → from_bytes b = Some a
}.

(** * A concrete serializer *)

(** Self-delimiting encodings. *)
Class Codec (A : Type) := {
  codec_enc : A → bytes;
  codec_dec : bytes → option (A * bytes);
  codec_law : ∀ a rest, codec_dec (codec_enc a ++ rest) = Some (a, rest)
}.

Definition codec_postcard `{Codec A} : Postcard A := {|
  to_allocvec := fun a => Some (codec_enc a);
  from_bytes := fun bs =>
    match codec_dec bs with Some (a, []) => Some a | _ => None end
|}.

Lemma codec_postcard_laws `{Codec A} : @PostcardLaws A codec_postcard.
Proof.
  split; [by eexists|]. intros a b [= <-]. cbn. pose proof (codec_law a []) as Hl. rewrite app_nil_r in Hl.
  by rewrite Hl.
Qed.

Definition take_bytes (n : nat) (bs : bytes) : option (bytes * bytes) :=
  if (n <=? length bs)%nat then Some (take n bs, drop n bs) else None.

Lemma take_bytes_app n a rest : length a = n → take_bytes n (a ++ rest) = Some (a, rest).
Proof.
  intros <-. unfold take_bytes. rewrite length_app.
  rewrite (proj2 (Nat.leb_le _ _)) by lia. by rewrite take_app_length, drop_app_length.
Qed.

#[export] Instance arr_codec {n} : Codec (arr n).
Proof.
  refine {|
    codec_enc := fun a : arr n => arr_bytes a;
    codec_dec := fun bs =>
      match take_bytes n bs with
      | Some (a, rest) => match arr_try_from n a with Some a => Some (a, rest) | None => None end
      | None => None
      end
  |}.
  intros a rest. rewrite take_bytes_app by apply arr_length. by rewrite arr_try_from_bytes.
Defined.

#[export] Instance u64_codec : Codec u64.
Proof.
  refine {|
    codec_enc := fun v : u64 => to_be_bytes 8 v;
    codec_dec := fun bs =>
      match take_bytes 8 bs with
      | Some (a, rest) => Some (as_u64 (from_be_bytes a), rest)
      | None => None
      end
  |}.
  intros v rest. rewrite take_bytes_app by apply length_to_be_bytes.
  rewrite from_to_be_bytes. change (256 ^ N.of_nat 8)%N with U64_BOUND.
  rewrite N.mod_small by apply uint_lt. by rewrite as_u64_id.
Defined.

#[export] Instance byte_codec : Codec byte.
Proof.
  refine {|
    codec_enc := fun b => [b];
    codec_dec := fun bs => match bs with b :: rest => Some (b, rest) | [] => None end
  |}.
  done.
Defined.

#[export] Instance pair_codec `{Codec A, Codec B} : Codec (A * B).
Proof.
  refine {|
    codec_enc := fun '(a, b) => codec_enc a ++ codec_enc b;
    codec_dec := fun bs =>
      match codec_dec bs with
      | Some (a, rest) =>
          match codec_dec rest with Some (b, rest) => Some ((a, b), rest) | None => None end
      | None => None
      end
  |}.
  intros [a b] rest. by rewrite <-app_assoc, codec_law, codec_law.
Defined.

#[export] Instance sum_codec `{Codec A, Codec B} : Codec (A + B).
Proof.
  refine {|
    codec_enc := fun s => match s with inl a => x00 :: codec_enc a | inr b => x01 :: codec_enc b end;
    codec_dec := fun bs =>
      match bs with
      | x00 :: bs =>
          match codec_dec bs with Some (a, rest) => Some (inl a, rest) | None => None end
      | x01 :: bs =>
          match codec_dec bs with Some (b, rest) => Some (inr b, rest) | None => None end
      | _ => None
      end
  |}.
  intros [a|b] rest; cbn [app]; by rewrite codec_law.
Defined.

#[export] Instance unit_codec : Codec unit.
Proof.
  refine {| codec_enc := fun _ => []; codec_dec := fun bs => Some (tt, bs) |}. by intros [].
Defined.

(** A byte vector: its length in eight bytes and its bytes; a vector that does
    not fit the length, which no program can build, is written byte by byte. *)
Fixpoint marked_dec (bs : bytes) : option (bytes * bytes) :=
  match bs with
  | x00 :: rest => Some ([], rest)
  | x01 :: x :: rest =>
      match marked_dec rest with Some (b, rest) => Some (x :: b, rest) | None => None end
  | _ => None
  end.

Lemma marked_dec_law b rest :
  marked_dec (concat (map (fun x => [x01; x]) b) ++ x00 :: rest) = Some (b, rest).
Proof. induction b as [|x b IH]; [done|]. cbn [map concat app marked_dec]. by rewrite IH. Qed.

#[export] Instance vec_codec : Codec bytes.
Proof.
  refine {|
    codec_enc := fun b : bytes =>
      if (len b <? U64_BOUND)%N then x00 :: to_be_bytes 8 (len b) ++ b
      else x01 :: concat (map (fun x => [x01; x]) b) ++ [x00];
    codec_dec := fun bs =>
      match bs with
      | x00 :: bs =>
          match take_bytes 8 bs with
          | Some (n, rest) => take_bytes (N.to_nat (from_be_bytes n)) rest
          | None => None
          end
      | x01 :: bs => marked_dec bs
      | _ => None
      end
  |}.
  intros b rest. destruct (N.ltb_spec (len b) U64_BOUND).
  - cbn [app]. rewrite <-app_assoc, take_bytes_app by apply length_to_be_bytes.
    rewrite from_to_be_bytes. change (256 ^ N.of_nat 8)%N with U64_BOUND.
    rewrite N.mod_small by done. unfold len. rewrite Nat2N.id. by apply take_bytes_app.
  - cbn [app]. rewrite <-app_assoc. apply marked_dec_law.
Defined.

(** A type represented by another. *)
Definition iso_codec {A B} `{Codec B} (f : A → B) (g : B → A) (Hgf : ∀ a, g (f a) = a) : Codec A.
Proof.
  refine {|
    codec_enc := fun a => codec_enc (f a);
    codec_dec := fun bs =>
      match codec_dec bs with Some (b, rest) => Some (g b, rest) | None => None end
  |}.
  intros a rest. by rewrite codec_law, Hgf.
Defined.

(** Booleans, and vectors of encoded elements: a mark before each element and
    one at the end. *)
#[export] Instance bool_codec : Codec bool :=
  iso_codec (fun b : bool => if b then inl tt else inr tt)
    (fun s : unit + unit => match s with inl _ => true | inr _ => false end)
    (fun b => match b with true => eq_refl | false => eq_refl end).

Fixpoint list_dec `{Codec A} (fuel : nat) (bs : bytes) : option (list A * bytes) :=
  match fuel, bs with
  | S fuel, x01 :: bs =>
      match codec_dec bs with
      | Some (a, rest) =>
          match list_dec fuel rest with Some (l, rest) => Some (a :: l, rest) | None => None end
      | None => None
      end
  | _, x00 :: rest => Some ([], rest)
  | _, _ => None
  end.

Definition list_enc `{Codec A} (l : list A) : bytes :=
  concat (map (fun a => x01 :: codec_enc a) l) ++ [x00].

Lemma list_dec_law `{Codec A} (l : list A) fuel rest :
  length l <= fuel → list_dec fuel (list_enc l ++ rest) = Some (l, rest).
Proof.
  unfold list_enc. revert fuel. induction l as [|a l IH]; intros fuel Hf; [by destruct fuel|].
  destruct fuel as [|fuel]; [cbn in Hf; lia|]. cbn [map concat app list_dec].
  rewrite <-!app_assoc, codec_law, app_assoc, IH; [done|]. cbn in Hf. lia.
Qed.

Lemma length_list_enc `{Codec A} (l : list A) : length l <= length (list_enc l).
Proof.
  unfold list_enc. rewrite length_app. induction l as [|a l IH]; [cbn; lia|].
  cbn [map concat length app] in *. rewrite length_app. lia.
Qed.

#[export] Instance list_codec `{Codec A} : Codec (list A).
Proof.
  refine {| codec_enc := list_enc; codec_dec := fun bs => list_dec (length bs) bs |}.
  intros l rest. apply list_dec_law. rewrite length_app. pose proof (length_list_enc l). lia.
Defined.
