(* ===== verification/Redb.v ===== *)
(** Interface of the third-party [redb] database the mailbox keeps its rows in,
    and a concrete instance of it.

    A table is a finite map iterated in ascending key order.  [Redb] has the
    operations the mailbox calls, [RedbLaws] what the documentation promises
    about them; every other operation is described through what iteration
    shows.  [SortedTable] is a concrete instance on sorted association lists. *)

From stdpp Require Import base tactics list numbers sorting.
From Stdlib Require Import Strings.Byte Sorting.Sorted.
From S2P Require Import Prelude.

(** The [FnMut] closure of [retain] threads the state [S] it captures. *)
Class Redb := {
  table : ∀ (K V : Type) {HK : Ord K}, Type;
  table_new : ∀ {K V} {HK : Ord K}, table K V;
  table_iter : ∀ {K V} {HK : Ord K}, table K V → list (K * V);
  table_get : ∀ {K V} {HK : Ord K}, K → table K V → option V;
  table_insert : ∀ {K V} {HK : Ord K}, K → V → table K V → table K V;
  table_remove : ∀ {K V} {HK : Ord K}, K → table K V → table K V;
  table_len : ∀ {K V} {HK : Ord K}, table K V → u64;
  table_retain : ∀ {K V S} {HK : Ord K},
    (K → V → S → bool * S) → table K V → S → table K V * S
}.

(** The rows of a table: keys ascend strictly. *)
Definition rows_sorted {K V} `{Ord K} (l : list (K * V)) : Prop :=
  StronglySorted (fun a b => ord_lt a.1 b.1) l.

(** A closure whose answer does not depend on the state it updates. *)
Definition retain_closure {K V S} (keep : K → V → bool) (update : K → V → S → S)
    (f : K → V → S → bool * S) : Prop :=
  ∀ k v s, f k v s = (keep k v, if keep k v then update k v s else s).

Definition apply_row {K V S} (keep : K → V → bool) (update : K → V → S → S) (s : S) (r : K * V) : S :=
  if keep r.1 r.2 then update r.1 r.2 s else s.

Class RedbLaws (R : Redb) : Prop := {
  table_new_iter {K V} {HK : Ord K} : table_iter (@table_new R K V HK) = [];
  table_iter_sorted {K V} {HK : Ord K} (t : table K V) : rows_sorted (table_iter t);
  table_get_iter {K V} {HK : Ord K} (t : table K V) k v :
    table_get k t = Some v ↔ (k, v) ∈ table_iter t;
  table_insert_iter {K V} {HK : Ord K} (t : table K V) k v k' v' :
    (k', v') ∈ table_iter (table_insert k v t) ↔
    (k' = k ∧ v' = v) ∨ (k' ≠ k ∧ (k', v') ∈ table_iter t);
  table_remove_iter {K V} {HK : Ord K} (t : table K V) k k' v' :
    (k', v') ∈ table_iter (table_remove k t) ↔ k' ≠ k ∧ (k', v') ∈ table_iter t;
  table_len_iter {K V} {HK : Ord K} (t : table K V) :
    (len (table_iter t) < U64_BOUND)%N → uint_val (table_len t) = len (table_iter t);
  (** Every row is visited once, in an order that is not promised, and the
      rows the closure refuses are removed. *)
  table_retain_iter {K V S} {HK : Ord K} (t : table K V) f keep update (s : S) :
    retain_closure keep update f →
    table_iter (table_retain f t s).1 = List.filter (fun r => keep r.1 r.2) (table_iter t) ∧
    ∃ order, order ≡ₚ table_iter t ∧
      (table_retain f t s).2 = fold_left (apply_row keep update) order s
}.

(** * Consequences of the laws *)

Lemma len_perm {A} (l l' : list A) : l ≡ₚ l' → len l = len l'.
Proof. intros Hp. unfold len. by rewrite (Permutation_length Hp). Qed.

Section laws.
Context {R : Redb} {RL : RedbLaws R} {K V : Type} {HK : Ord K}.
Implicit Types (t : table K V) (k : K) (v : V) (l : list (K * V)).

Lemma rows_sorted_NoDup l : rows_sorted l → NoDup l.*1.
Proof.
  induction 1 as [|a l Hs IH Hf]; [constructor|]. constructor; [|done].
  intros Hin. apply list_elem_of_fmap in Hin as (b & E & Hb).
  rewrite Forall_forall in Hf. specialize (Hf b Hb). unfold ord_lt in Hf.
  rewrite E in Hf. assert (cmp b.1 b.1 = Eq) by by apply cmp_eq. congruence.
Qed.

Lemma table_iter_NoDup t : NoDup (table_iter t).*1.
Proof. apply rows_sorted_NoDup, table_iter_sorted. Qed.

Lemma table_get_insert t k v k' :
  table_get k' (table_insert k v t) =
  match cmp k' k with Eq => Some v | _ => table_get k' t end.
Proof.
  assert (∀ w, table_get k' (table_insert k v t) = Some w ↔
               match cmp k' k with Eq => Some v | _ => table_get k' t end = Some w) as H.
  { intros w. rewrite table_get_iter, table_insert_iter.
    pose proof (cmp_eq k' k) as [H1 H2].
    destruct (cmp k' k); try rewrite table_get_iter; intuition congruence. }
  destruct (table_get k' (table_insert k v t)) as [w|] eqn:E1;
    destruct (match cmp k' k with Eq => Some v | _ => table_get k' t end) as [w'|] eqn:E2; try done.
  - symmetry. by apply H.
  - by pose proof (proj1 (H w) eq_refl).
  - by pose proof (proj2 (H w') eq_refl).
Qed.

Lemma table_get_insert_eq t k v : table_get k (table_insert k v t) = Some v.
Proof. rewrite table_get_insert. by rewrite (proj2 (cmp_eq k k) eq_refl). Qed.

Lemma table_get_insert_ne t k v k' :
  k' ≠ k → table_get k' (table_insert k v t) = table_get k' t.
Proof.
  intros Hne. rewrite table_get_insert. destruct (cmp k' k) eqn:E; try done.
  by apply cmp_eq in E.
Qed.

Lemma table_get_None t k : table_get k t = None ↔ ∀ v, (k, v) ∉ table_iter t.
Proof.
  split.
  - intros E v Hin. apply table_get_iter in Hin. congruence.
  - intros H. destruct (table_get k t) as [v|] eqn:E; [|done].
    by apply table_get_iter, H in E.
Qed.

Lemma table_get_remove_eq t k : table_get k (table_remove k t) = None.
Proof. apply table_get_None. intros v Hin. by apply table_remove_iter in Hin as [? _]. Qed.

Lemma table_get_remove_ne t k k' :
  k' ≠ k → table_get k' (table_remove k t) = table_get k' t.
Proof.
  intros Hne. destruct (table_get k' t) as [v|] eqn:E.
  - apply table_get_iter, table_remove_iter. split; [done|]. by apply table_get_iter.
  - apply table_get_None. intros v Hin. apply table_remove_iter in Hin as [_ Hin].
    apply table_get_iter in Hin. congruence.
Qed.

Lemma NoDup_fst_NoDup l : NoDup l.*1 → NoDup l.
Proof. apply NoDup_fmap_1. Qed.

Lemma table_iter_fst_unique t k v w :
  (k, v) ∈ table_iter t → (k, w) ∈ table_iter t → v = w.
Proof. rewrite <-!table_get_iter. congruence. Qed.

(** The rows after removing a present key, and after inserting an absent one. *)
Lemma table_iter_remove t k v :
  table_get k t = Some v → table_iter t ≡ₚ (k, v) :: table_iter (table_remove k t).
Proof.
  intros Hg. apply table_get_iter in Hg. apply NoDup_Permutation.
  - apply NoDup_fst_NoDup, table_iter_NoDup.
  - constructor; [|apply NoDup_fst_NoDup, table_iter_NoDup].
    intros Hin. by apply table_remove_iter in Hin as [? _].
  - intros [k' v']. rewrite elem_of_cons, table_remove_iter. split.
    + intros Hin. pose proof (cmp_eq k' k) as [H1 H2].
      destruct (cmp k' k) eqn:E.
      * specialize (H1 eq_refl) as ->. left. by rewrite (table_iter_fst_unique t k v v').
      * right. split; [|done]. intros ->. by rewrite (proj2 (cmp_eq k k) eq_refl) in E.
      * right. split; [|done]. intros ->. by rewrite (proj2 (cmp_eq k k) eq_refl) in E.
    + by intros [[= -> ->]|[_ ?]].
Qed.

Lemma table_iter_insert t k v :
  table_get k t = None → table_iter (table_insert k v t) ≡ₚ (k, v) :: table_iter t.
Proof.
  intros Hg. rewrite table_get_None in Hg. apply NoDup_Permutation.
  - apply NoDup_fst_NoDup, table_iter_NoDup.
  - constructor; [by apply Hg|apply NoDup_fst_NoDup, table_iter_NoDup].
  - intros [k' v']. rewrite elem_of_cons, table_insert_iter. split.
    + intros [[-> ->]|[_ ?]]; [by left|by right].
    + intros [[= -> ->]|Hin]; [by left|]. right. split; [|done]. intros ->. by apply (Hg v').
Qed.

Lemma len_table_insert t k v :
  (len (table_iter (table_insert k v t)) <= len (table_iter t) + 1)%N.
Proof.
  pose proof (table_iter_remove (table_insert k v t) k v (table_get_insert_eq _ _ _)) as Hp.
  rewrite (len_perm _ _ Hp), len_cons. unfold len.
  assert (length (table_iter (table_remove k (table_insert k v t))) <= length (table_iter t))%nat; [|lia].
  apply submseteq_length, NoDup_submseteq; [apply NoDup_fst_NoDup, table_iter_NoDup|].
  intros [k' v']. rewrite table_remove_iter, table_insert_iter. tauto.
Qed.

(** A table whose rows are those of another that pass a test. *)
Lemma table_get_filter t t' (keep : K → V → bool) k :
  table_iter t' = List.filter (fun r => keep r.1 r.2) (table_iter t) →
  table_get k t' = match table_get k t with Some v => if keep k v then Some v else None | None => None end.
Proof.
  intros Hi.
  assert (∀ v, (k, v) ∈ table_iter t' ↔ (k, v) ∈ table_iter t ∧ keep k v = true) as Hin.
  { intros v. rewrite Hi, list_elem_of_In, filter_In, <-list_elem_of_In. done. }
  destruct (table_get k t) as [v|] eqn:E.
  - destruct (keep k v) eqn:Ek.
    + apply table_get_iter, Hin. split; [|done]. by apply table_get_iter.
    + apply table_get_None. intros w Hw. apply Hin in Hw as [Hw Hk].
      apply table_get_iter in Hw. congruence.
  - apply table_get_None. intros w Hw. apply Hin in Hw as [Hw _].
    apply table_get_iter in Hw. congruence.
Qed.

End laws.

(** * Sorted association lists *)

Module SortedTable.

Section lists.
Context {K V : Type} {HK : Ord K}.
Implicit Types (l : list (K * V)) (k : K) (v : V).

Fixpoint get (k : K) (l : list (K * V)) : option V :=
  match l with
  | [] => None
  | (k', v) :: l => match cmp k k' with Eq => Some v | _ => get k l end
  end.

Fixpoint insert (k : K) (v : V) (l : list (K * V)) : list (K * V) :=
  match l with
  | [] => [(k, v)]
  | (k', v') :: l =>
      match cmp k k' with
      | Lt => (k, v) :: (k', v') :: l
      | Eq => (k, v) :: l
      | Gt => (k', v') :: insert k v l
      end
  end.

Definition remove (k : K) (l : list (K * V)) : list (K * V) :=
  List.filter (fun r => match cmp r.1 k with Eq => false | _ => true end) l.

Fixpoint retain {S} (f : K → V → S → bool * S) (l : list (K * V)) (s : S) : list (K * V) * S :=
  match l with
  | [] => ([], s)
  | (k, v) :: l =>
      let '(b, s) := f k v s in
      let '(l, s) := retain f l s in
      ((if b then (k, v) :: l else l), s)
  end.

Lemma rows_sorted_filter (p : K * V → bool) l : rows_sorted l → rows_sorted (List.filter p l).
Proof.
  induction 1 as [|a l Hs IH Hf]; cbn; [constructor|]. destruct (p a); [|done].
  constructor; [done|]. rewrite Forall_forall in *. intros x Hx. apply Hf.
  rewrite list_elem_of_In, filter_In, <-list_elem_of_In in Hx. tauto.
Qed.

Lemma insert_elem k v l x :
  rows_sorted l → x ∈ insert k v l ↔ x = (k, v) ∨ (x.1 ≠ k ∧ x ∈ l).
Proof.
  induction 1 as [|[k' v'] l Hs IH Hf]; cbn [insert].
  - rewrite list_elem_of_singleton, elem_of_nil. tauto.
  - rewrite Forall_forall in Hf. cbn in Hf.
    assert (∀ y, cmp k k' ≠ Gt → y ∈ l → y.1 ≠ k) as Hne.
    { intros y Hc Hy E. specialize (Hf y Hy). unfold ord_lt in Hf.
      rewrite E in Hf. by rewrite cmp_opp, Hf in Hc. }
    assert (cmp k k' = Eq ↔ k = k') as He by apply cmp_eq.
    destruct (cmp k k') eqn:E; rewrite ?elem_of_cons.
    + destruct He as [He _]. specialize (He eq_refl) as ->.
      split; [|intros [->|[? [->|?]]]; tauto]. intros [->|Hx]; [by left|]. right.
      split; [|by right]. by apply Hne.
    + split; [|tauto]. intros [->|[->|Hx]]; [by left| |].
      * right. split; [|by left]. cbn. intros ->. discriminate (proj2 He eq_refl).
      * right. split; [|by right]. by apply Hne.
    + rewrite IH. split; [|tauto]. intros [->|[->|[? ?]]]; [|by left|tauto].
      right. split; [|by left]. cbn. intros ->. discriminate (proj2 He eq_refl).
Qed.

Lemma insert_sorted k v l : rows_sorted l → rows_sorted (insert k v l).
Proof.
  induction 1 as [|[k' v'] l Hs IH Hf]; cbn [insert]; [repeat constructor|].
  rewrite Forall_forall in Hf. destruct (cmp k k') eqn:E.
  - apply cmp_eq in E as ->. constructor; [done|]. by apply Forall_forall.
  - constructor; [constructor; [done|by apply Forall_forall]|].
    constructor; [done|]. apply Forall_forall. intros y Hy. specialize (Hf y Hy).
    unfold ord_lt in *. cbn in *. eauto using cmp_lt_trans.
  - constructor; [done|]. apply Forall_forall. intros y Hy.
    apply insert_elem in Hy as [->|[_ Hy]]; [|by apply Hf|done].
    unfold ord_lt. cbn. by rewrite cmp_opp, E.
Qed.

Lemma get_elem k v l : rows_sorted l → get k l = Some v ↔ (k, v) ∈ l.
Proof.
  induction 1 as [|[k' v'] l Hs IH Hf]; cbn [get]; [by rewrite elem_of_nil|].
  rewrite elem_of_cons. rewrite Forall_forall in Hf.
  pose proof (cmp_eq k k') as [He1 He2].
  destruct (cmp k k') eqn:E.
  - specialize (He1 eq_refl) as ->. split; [intros [= ->]; by left|].
    intros [[= ->]|Hin]; [done|]. specialize (Hf _ Hin). by apply ord_lt_irrefl in Hf.
  - rewrite IH. split; [by right|]. intros [[= -> ->]|]; [|done]. by specialize (He2 eq_refl).
  - rewrite IH. split; [by right|]. intros [[= -> ->]|]; [|done]. by specialize (He2 eq_refl).
Qed.

Lemma retain_spec {S} (f : K → V → S → bool * S) keep update l (s : S) :
  retain_closure keep update f →
  retain f l s =
  (List.filter (fun r => keep r.1 r.2) l, fold_left (apply_row keep update) l s).
Proof.
  intros Hf. revert s; induction l as [|[k v] l IH]; intros s; cbn; [done|].
  rewrite Hf. unfold apply_row at 2. cbn. rewrite IH. by destruct (keep k v).
Qed.

End lists.

Record sorted_table (K V : Type) {HK : Ord K} := {
  rows : list (K * V);
  rows_ok : rows_sorted rows
}.
Arguments rows {K V HK} _.
Arguments rows_ok {K V HK} _.

Lemma retain_sorted {K V S} {HK : Ord K} (f : K → V → S → bool * S) (l : list (K * V)) s :
  rows_sorted l → rows_sorted (retain f l s).1.
Proof.
  intros Hs. revert s; induction Hs as [|[k v] l Hs IH Hf]; intros s; cbn; [constructor|].
  destruct (f k v s) as [b s']. specialize (IH s').
  assert (∀ x s, x ∈ (retain f l s).1 → x ∈ l) as Hsub.
  { clear. induction l as [|[k v] l IH]; intros x s; cbn; [done|].
    destruct (f k v s) as [b s']. specialize (IH x s'). destruct (retain f l s') as [l' s''].
    cbn in *. destruct b; [rewrite !elem_of_cons; tauto|rewrite elem_of_cons; tauto]. }
  specialize (Hsub) with (s := s'). destruct (retain f l s') as [l' s'']. cbn in *.
  destruct b; [|done]. constructor; [done|]. rewrite Forall_forall in *. eauto.
Qed.

Definition redb_instance : Redb := {|
  table := @sorted_table;
  table_new := fun K V HK => {| rows := []; rows_ok := SSorted_nil _ |};
  table_iter := fun K V HK t => rows t;
  table_get := fun K V HK k t => get k (rows t);
  table_insert := fun K V HK k v t =>
    {| rows := insert k v (rows t); rows_ok := insert_sorted k v _ (rows_ok t) |};
  table_remove := fun K V HK k t =>
    {| rows := remove k (rows t); rows_ok := rows_sorted_filter _ _ (rows_ok t) |};
  table_len := fun K V HK t => as_u64 (len (rows t));
  table_retain := fun K V S HK f t s =>
    ({| rows := (retain f (rows t) s).1; rows_ok := retain_sorted f _ s (rows_ok t) |},
     (retain f (rows t) s).2)
|}.

Lemma redb_laws : RedbLaws redb_instance.
Proof.
  split; cbn.
  - done.
  - intros K V HK t. apply rows_ok.
  - intros K V HK t k v. apply get_elem, rows_ok.
  - intros K V HK t k v k' v'. rewrite insert_elem by apply rows_ok. cbn.
    split; intros [H|H]; [injection H as -> ->; tauto|tauto|destruct H as [-> ->]; tauto|tauto].
  - intros K V HK t k k' v'. unfold remove. rewrite list_elem_of_In, filter_In, <-list_elem_of_In.
    cbn. pose proof (cmp_eq k' k) as [H1 H2]. destruct (cmp k' k); intuition congruence.
  - intros K V HK t Hl. by apply as_u64_small.
  - intros K V S HK t f keep update s Hf. rewrite (retain_spec f keep update) by done. cbn.
    split; [done|]. by exists (rows t).
Qed.

End SortedTable.
