(* ===== verification/Mailbox.v ===== *)
(** The blind mailbox contract: [kilogram-mailbox/src/lib.rs].

    Addresses, capabilities, write and read authorizations, storage offers with
    their admission work, stored and delete receipts, and the hexadecimal form
    of keys and identifiers.  The newtypes over [[u8; 32]] are represented by
    the array.  [postcard], [ed25519_dalek] and [blake3] are parameters; the
    random bytes of [getrandom] are arguments. *)

From stdpp Require Import base tactics list list_numbers numbers strings.
From Stdlib Require Import Strings.Byte.
From S2P Require Import Prelude Crypto Postcard.

#[local] Set Primitive Projections.

Definition MAILBOX_ID_DOMAIN : bytes := b_str "kilogram:blind-mailbox-id:v1" ++ [x00].
Definition WRITE_AUTHORIZATION_DOMAIN : bytes := b_str "kilogram:blind-mailbox-write:v1" ++ [x00].
Definition READ_AUTHORIZATION_DOMAIN : bytes := b_str "kilogram:blind-mailbox-read:v1" ++ [x00].
Definition STORED_RECEIPT_DOMAIN : bytes :=
  b_str "kilogram:blind-mailbox-stored-receipt:v1" ++ [x00].
Definition DELETE_RECEIPT_DOMAIN : bytes :=
  b_str "kilogram:blind-mailbox-delete-receipt:v1" ++ [x00].
Definition STORAGE_OFFER_DOMAIN : bytes :=
  b_str "kilogram:blind-mailbox-storage-offer:v1" ++ [x00].
Definition STORAGE_OFFER_ADMISSION_WORK_DOMAIN : bytes :=
  b_str "kilogram:blind-mailbox-storage-offer-admission-work:v1" ++ [x00].
Definition RECEIPT_ID_DOMAIN : bytes := b_str "kilogram:blind-mailbox-receipt-id:v1" ++ [x00].
Definition DELETE_RECEIPT_ID_DOMAIN : bytes := b_str "kilogram:blind-mailbox-delete-id:v1" ++ [x00].
Definition VERSION : byte := x01.
Definition KEY_BYTES : nat := 32.
Definition MAX_ADDRESS_BYTES : usize := 256.
Definition MAX_AUTHORIZATION_BYTES : usize := 1024.
Definition MAX_RECEIPT_BYTES : usize := 1024.
Definition MAX_MAILBOX_STORAGE_ENDPOINT_BYTES : usize := 16 * 1024.
Definition MAX_MAILBOX_STORAGE_OFFER_BYTES : usize := 24 * 1024.
Definition MIN_MAILBOX_STORAGE_OFFER_VALIDITY_SECONDS : u64 := as_u64 30.
Definition MAX_MAILBOX_STORAGE_OFFER_VALIDITY_SECONDS : u64 := as_u64 3600.
Definition DEFAULT_MAILBOX_STORAGE_OFFER_ADMISSION_WORK_BITS : byte := as_u8 18.
Definition MAX_MAILBOX_STORAGE_OFFER_ADMISSION_WORK_BITS : byte := as_u8 20.
Definition MAX_MAILBOX_STORAGE_OFFER_ADMISSION_WORK_ATTEMPTS : N := 2 ^ 24.
Definition MIN_MAILBOX_TTL_SECONDS : u64 := as_u64 60.
Definition MAX_MAILBOX_TTL_SECONDS : u64 := as_u64 (7 * 24 * 60 * 60).
Definition MAX_MAILBOX_ENVELOPE_BYTES : usize := 1024 * 1024.
Definition MAX_MAILBOX_PAGE_ITEMS : u16 := @mk_uint U16_BOUND 8 eq_refl.

(** * Data *)

Inductive MailboxError :=
| Encoding
| CryptoError
| SecureRandom
| InvalidPublicKey (kind : string)
| InvalidSignature
| AuthorizationFailed
| CapabilityMismatch
| Invalid (what : string)
| InvalidHex
| Expired.

(** The newtypes of the two macros. *)
Abbreviation MailboxReadKey := (arr 32).
Abbreviation MailboxWriteKey := (arr 32).
Abbreviation MailboxStoreKey := (arr 32).
Abbreviation MailboxId := (arr 32).
Abbreviation MailboxItemId := (arr 32).
Abbreviation MailboxRequestNonce := (arr 32).
Abbreviation MailboxReceiptId := (arr 32).
Abbreviation MailboxDeleteReceiptId := (arr 32).

(** A [SigningKey] is its 32 secret bytes. *)
Abbreviation SigningKey := (arr 32).

Record MailboxAddress := {
  address_version : byte;
  read_key : MailboxReadKey;
  write_key : MailboxWriteKey
}.

Inductive MailboxStoragePolicyClass := BoundedVolunteer.

Record MailboxStorageOfferContent := {
  offer_version : byte;
  provider_endpoint : bytes;
  offer_store_key : MailboxStoreKey;
  policy_class : MailboxStoragePolicyClass;
  capacity_hint_bytes : u64;
  max_record_bytes : u64;
  offer_issued_at : u64;
  offer_expires_at : u64;
  offer_nonce : arr 32
}.

Record SignedMailboxStorageOffer := {
  offer_content : MailboxStorageOfferContent;
  offer_signature : bytes
}.

Record MailboxWriteAuthorizationContent := {
  write_version : byte;
  write_mailbox_id : MailboxId;
  write_item_id : MailboxItemId;
  write_write_key : MailboxWriteKey;
  requested_ttl_seconds : u64;
  write_envelope_bytes : u64;
  write_envelope_digest : arr 32
}.

Record MailboxWriteAuthorization := {
  write_content : MailboxWriteAuthorizationContent;
  write_signature : bytes
}.

Inductive MailboxReadOperation :=
| List (nonce : MailboxRequestNonce) (after_item_id : option MailboxItemId) (limit : u16)
| Delete (item_id : MailboxItemId) (receipt_id : MailboxReceiptId).

Record MailboxReadAuthorizationContent := {
  read_version : byte;
  read_mailbox_id : MailboxId;
  read_read_key : MailboxReadKey;
  operation : MailboxReadOperation
}.

Record MailboxReadAuthorization := {
  read_content : MailboxReadAuthorizationContent;
  read_signature : bytes
}.

Record MailboxStoredReceiptContent := {
  stored_version : byte;
  stored_store_key : MailboxStoreKey;
  stored_mailbox_id : MailboxId;
  stored_item_id : MailboxItemId;
  stored_envelope_bytes : u64;
  stored_envelope_digest : arr 32;
  stored_at_unix_seconds : u64;
  stored_expires_at : u64
}.

Record MailboxStoredReceipt := {
  stored_content : MailboxStoredReceiptContent;
  stored_signature : bytes
}.

Record MailboxDeleteReceiptContent := {
  delete_version : byte;
  delete_store_key : MailboxStoreKey;
  delete_mailbox_id : MailboxId;
  delete_item_id : MailboxItemId;
  delete_stored_receipt_id : MailboxReceiptId;
  deleted_at_unix_seconds : u64;
  delete_expires_at : u64
}.

Record MailboxDeleteReceipt := {
  delete_content : MailboxDeleteReceiptContent;
  delete_signature : bytes
}.

(** [postcard] at the types of the contract. *)
Class MailboxPostcard := {
  pc_address :: Postcard MailboxAddress;
  pc_offer_content :: Postcard MailboxStorageOfferContent;
  pc_offer :: Postcard SignedMailboxStorageOffer;
  pc_write_content :: Postcard MailboxWriteAuthorizationContent;
  pc_write :: Postcard MailboxWriteAuthorization;
  pc_read_content :: Postcard MailboxReadAuthorizationContent;
  pc_read :: Postcard MailboxReadAuthorization;
  pc_stored_content :: Postcard MailboxStoredReceiptContent;
  pc_stored :: Postcard MailboxStoredReceipt;
  pc_delete_content :: Postcard MailboxDeleteReceiptContent;
  pc_delete :: Postcard MailboxDeleteReceipt
}.

Class MailboxPostcardLaws (P : MailboxPostcard) : Prop := {
  pl_address :: PostcardLaws MailboxAddress;
  pl_offer_content :: PostcardLaws MailboxStorageOfferContent;
  pl_offer :: PostcardLaws SignedMailboxStorageOffer;
  pl_write_content :: PostcardLaws MailboxWriteAuthorizationContent;
  pl_write :: PostcardLaws MailboxWriteAuthorization;
  pl_read_content :: PostcardLaws MailboxReadAuthorizationContent;
  pl_read :: PostcardLaws MailboxReadAuthorization;
  pl_stored_content :: PostcardLaws MailboxStoredReceiptContent;
  pl_stored :: PostcardLaws MailboxStoredReceipt;
  pl_delete_content :: PostcardLaws MailboxDeleteReceiptContent;
  pl_delete :: PostcardLaws MailboxDeleteReceipt
}.

(** * Hexadecimal *)

(** [{byte:02x}]. *)
Definition hex_digit (n : N) : byte := as_u8 (if (n <? 10)%N then 48 + n else 87 + n).

Definition write_hex (bs : bytes) : bytes :=
  concat (map (fun b => [hex_digit (byte_val b / 16); hex_digit (byte_val b mod 16)]) bs).

Definition hex_nibble (value : byte) : option N :=
  let v := byte_val value in
  if ((48 <=? v) && (v <=? 57))%N then Some (v - 48)%N
  else if ((97 <=? v) && (v <=? 102))%N then Some (v - 97 + 10)%N
  else None.

(** The loop reads [value] two bytes at a time. *)
Fixpoint decode_hex_pairs (value : bytes) : result MailboxError bytes :=
  match value with
  | a :: b :: rest =>
      let? high := ok_or (hex_nibble a) InvalidHex in
      let? low := ok_or (hex_nibble b) InvalidHex in
      let? output := decode_hex_pairs rest in
      Ok (as_u8 (N.lor (N.shiftl high 4) low) :: output)
  | _ => Ok []
  end.

Definition decode_hex (value : bytes) : result MailboxError (arr 32) :=
  fail_if (negb (len value =? N.of_nat (KEY_BYTES * 2))%N) InvalidHex ;?
  let? output := decode_hex_pairs value in
  Ok (arr_of 32 output).

(** * Validation *)

Definition between (low high value : N) : bool := ((low <=? value) && (value <=? high))%N.

Definition validate_ttl (ttl_seconds : u64) : result MailboxError unit :=
  fail_if (negb (between MIN_MAILBOX_TTL_SECONDS MAX_MAILBOX_TTL_SECONDS ttl_seconds))
    (Invalid "mailbox TTL is outside protocol bounds").

Definition validate_envelope_time (created expires : u64) : result MailboxError unit :=
  let? ttl := ok_or (u64_checked_sub expires created) (Invalid "mailbox envelope time is invalid") in
  validate_ttl ttl.

Definition validate_envelope_bytes (envelope : bytes) : result MailboxError unit :=
  fail_if ((len envelope =? 0) || (MAX_MAILBOX_ENVELOPE_BYTES <? len envelope))%N
    (Invalid "mailbox envelope size is invalid").

Definition validate_storage_offer_content (content : MailboxStorageOfferContent)
  (now_unix_seconds : u64) : result MailboxError unit :=
  let? validity := ok_or (u64_checked_sub content.(offer_expires_at) content.(offer_issued_at))
    (Invalid "mailbox storage offer time is invalid") in
  fail_if (negb (bool_decide (content.(offer_version) = VERSION))
    || (len content.(provider_endpoint) =? 0)%N
    || (MAX_MAILBOX_STORAGE_ENDPOINT_BYTES <? len content.(provider_endpoint))%N
    || negb (between MIN_MAILBOX_STORAGE_OFFER_VALIDITY_SECONDS
               MAX_MAILBOX_STORAGE_OFFER_VALIDITY_SECONDS validity)
    || (content.(capacity_hint_bytes) =? 0)%N
    || (content.(max_record_bytes) =? 0)%N
    || (content.(capacity_hint_bytes) <? content.(max_record_bytes))%N
    || (now_unix_seconds <? content.(offer_issued_at))%N
    || (content.(offer_expires_at) <=? now_unix_seconds)%N)
    (Invalid "mailbox storage offer fields or lifetime are invalid").

(** [u64::to_be_bytes]. *)
Definition u64_be (v : u64) : bytes := to_be_bytes 8 v.

(** The bytes fed to the hasher so far. *)
Definition storage_offer_admission_work_hasher (content : MailboxStorageOfferContent) : bytes :=
  STORAGE_OFFER_ADMISSION_WORK_DOMAIN
  ++ [content.(offer_version)]
  ++ u64_be (as_u64 (len content.(provider_endpoint)))
  ++ content.(provider_endpoint)
  ++ arr_bytes content.(offer_store_key)
  ++ [match content.(policy_class) with BoundedVolunteer => x00 end]
  ++ u64_be content.(capacity_hint_bytes)
  ++ u64_be content.(max_record_bytes)
  ++ u64_be content.(offer_issued_at)
  ++ u64_be content.(offer_expires_at).

(** [u8::leading_zeros]. *)
Definition leading_zeros (b : byte) : N := 8 - N.size (byte_val b).

(** The loop over the digest; [bits] is at most 256 and fits its [u16]. *)
Fixpoint count_leading_zeros (digest : bytes) (bits : N) : N :=
  match digest with
  | [] => bits
  | b :: digest =>
      if (byte_val b =? 0)%N then count_leading_zeros digest (bits + 8)
      else (bits + leading_zeros b)%N
  end.

(** The bytes of the nonce from the last one, until one does not overflow. *)
Fixpoint increment_reversed (nonce : bytes) : bytes :=
  match nonce with
  | [] => []
  | b :: rest =>
      let next := as_u8 (byte_val b + 1) in
      if (byte_val b + 1 <? 256)%N then next :: rest else next :: increment_reversed rest
  end.

Definition increment_admission_nonce (nonce : arr 32) : arr 32 :=
  arr_of 32 (rev (increment_reversed (rev (arr_bytes nonce)))).

(** * Operations *)

Section operations.
Context `{Blake3, Ed25519, MailboxPostcard}.

(** The [verifying_key] method of the key newtypes: the key it parses to. *)
Definition verifying_key (kind : string) (key : arr 32) : result MailboxError (arr 32) :=
  fail_if (negb (verifying_key_ok key)) (InvalidPublicKey kind) ;? Ok key.

(** [from_bytes] and [from_str] of the key newtypes, [from_str] of the
    identifiers. *)
Definition key_from_bytes (kind : string) (bs : arr 32) : result MailboxError (arr 32) :=
  fail_if (negb (verifying_key_ok bs)) (InvalidPublicKey kind) ;? Ok bs.

Definition key_from_str (kind : string) (value : bytes) : result MailboxError (arr 32) :=
  let? bs := decode_hex value in key_from_bytes kind bs.

Definition signing_bytes {T} `{Postcard T} (domain : bytes) (content : T) : result MailboxError bytes :=
  let? encoded := ok_or (to_allocvec content) Encoding in
  Ok (domain ++ encoded).

Definition verify_signature {T} `{Postcard T} (key : arr 32) (domain : bytes) (content : T)
  (signature : bytes) : result MailboxError unit :=
  fail_if (negb (signature_ok signature)) InvalidSignature ;?
  let? message := signing_bytes domain content in
  fail_if (negb (verify_strict key message signature)) AuthorizationFailed.

Definition random_bytes (entropy : option (arr 32)) : result MailboxError (arr 32) :=
  ok_or entropy SecureRandom.

Definition random_signing_key (entropy : option (arr 32)) : result MailboxError SigningKey :=
  ok_or entropy SecureRandom.

(** ** Addresses *)

Definition address_new (read_key : MailboxReadKey) (write_key : MailboxWriteKey) : MailboxAddress :=
  {| address_version := VERSION; read_key := read_key; write_key := write_key |}.

Definition mailbox_id (self : MailboxAddress) : MailboxId :=
  blake3 (MAILBOX_ID_DOMAIN ++ arr_bytes self.(read_key) ++ arr_bytes self.(write_key)).

Definition address_verify (self : MailboxAddress) : result MailboxError unit :=
  fail_if (negb (bool_decide (self.(address_version) = VERSION)))
    (Invalid "unsupported mailbox address version") ;?
  verifying_key "read" self.(read_key) ;?
  verifying_key "write" self.(write_key) ;?
  Ok tt.

Definition address_encode (self : MailboxAddress) : result MailboxError bytes :=
  address_verify self ;?
  let? bs := ok_or (to_allocvec self) Encoding in
  fail_if (MAX_ADDRESS_BYTES <? len bs)%N (Invalid "mailbox address is too large") ;?
  Ok bs.

Definition address_decode_and_verify (bs : bytes) : result MailboxError MailboxAddress :=
  fail_if ((len bs =? 0) || (MAX_ADDRESS_BYTES <? len bs))%N
    (Invalid "mailbox address size is invalid") ;?
  let? address := ok_or (from_bytes bs) Encoding in
  address_verify address ;?
  Ok address.

(** ** Read capability *)

Definition page_limit_ok (limit : u16) : bool := between 1 MAX_MAILBOX_PAGE_ITEMS limit.

Definition read_capability_authorize (self : SigningKey) (address : MailboxAddress)
  (operation : MailboxReadOperation) : result MailboxError MailboxReadAuthorization :=
  address_verify address ;?
  fail_if (negb (bool_decide (address.(read_key) = verifying_key_of self))) CapabilityMismatch ;?
  let content := {|
    read_version := VERSION;
    read_mailbox_id := mailbox_id address;
    read_read_key := verifying_key_of self;
    operation := operation
  |} in
  let? message := signing_bytes READ_AUTHORIZATION_DOMAIN content in
  Ok {| read_content := content; read_signature := arr_bytes (sign self message) |}.

Definition authorize_list_page (self : SigningKey) (address : MailboxAddress)
  (nonce : MailboxRequestNonce) (after_item_id : option MailboxItemId) (limit : u16)
  : result MailboxError MailboxReadAuthorization :=
  fail_if (negb (page_limit_ok limit))
    (Invalid "mailbox list page limit is outside protocol bounds") ;?
  read_capability_authorize self address (List nonce after_item_id limit).

Definition authorize_list (self : SigningKey) (address : MailboxAddress)
  (nonce : MailboxRequestNonce) : result MailboxError MailboxReadAuthorization :=
  authorize_list_page self address nonce None MAX_MAILBOX_PAGE_ITEMS.

Definition authorize_delete (self : SigningKey) (address : MailboxAddress)
  (item_id : MailboxItemId) (receipt_id : MailboxReceiptId)
  : result MailboxError MailboxReadAuthorization :=
  read_capability_authorize self address (Delete item_id receipt_id).

(** ** Write capability *)

Definition write_capability_authorize (self : SigningKey) (address : MailboxAddress)
  (item_id : MailboxItemId) (requested_ttl_seconds : u64) (envelope : bytes)
  : result MailboxError MailboxWriteAuthorization :=
  address_verify address ;?
  validate_ttl requested_ttl_seconds ;?
  validate_envelope_bytes envelope ;?
  fail_if (negb (bool_decide (address.(write_key) = verifying_key_of self))) CapabilityMismatch ;?
  let content := {|
    write_version := VERSION;
    write_mailbox_id := mailbox_id address;
    write_item_id := item_id;
    write_write_key := verifying_key_of self;
    requested_ttl_seconds := requested_ttl_seconds;
    write_envelope_bytes := as_u64 (len envelope);
    write_envelope_digest := blake3 envelope
  |} in
  let? message := signing_bytes WRITE_AUTHORIZATION_DOMAIN content in
  Ok {| write_content := content; write_signature := arr_bytes (sign self message) |}.

(** ** Authorizations *)

Definition write_authorization_verify (self : MailboxWriteAuthorization) (address : MailboxAddress)
  (envelope : bytes) : result MailboxError unit :=
  let content := self.(write_content) in
  address_verify address ;?
  validate_envelope_bytes envelope ;?
  validate_ttl content.(requested_ttl_seconds) ;?
  fail_if (negb (bool_decide (content.(write_version) = VERSION))
    || negb (bool_decide (content.(write_mailbox_id) = mailbox_id address))
    || negb (bool_decide (content.(write_write_key) = address.(write_key)))
    || negb (u64_eqb content.(write_envelope_bytes) (as_u64 (len envelope)))
    || negb (bool_decide (content.(write_envelope_digest) = blake3 envelope)))
    (Invalid "mailbox write authorization does not match request") ;?
  let? key := verifying_key "write" content.(write_write_key) in
  verify_signature key WRITE_AUTHORIZATION_DOMAIN content self.(write_signature).

Definition write_authorization_encode (self : MailboxWriteAuthorization)
  : result MailboxError bytes :=
  let? bs := ok_or (to_allocvec self) Encoding in
  fail_if (MAX_AUTHORIZATION_BYTES <? len bs)%N
    (Invalid "mailbox write authorization is too large") ;?
  Ok bs.

Definition write_authorization_decode_and_verify (bs : bytes) (address : MailboxAddress)
  (envelope : bytes) : result MailboxError MailboxWriteAuthorization :=
  fail_if ((len bs =? 0) || (MAX_AUTHORIZATION_BYTES <? len bs))%N
    (Invalid "mailbox write authorization size is invalid") ;?
  let? authorization := ok_or (from_bytes bs) Encoding in
  write_authorization_verify authorization address envelope ;?
  Ok authorization.

Definition read_authorization_verify (self : MailboxReadAuthorization) (address : MailboxAddress)
  : result MailboxError unit :=
  let content := self.(read_content) in
  address_verify address ;?
  fail_if (match content.(operation) with
           | List _ _ limit => negb (page_limit_ok limit)
           | Delete _ _ => false
           end)
    (Invalid "mailbox list page limit is outside protocol bounds") ;?
  fail_if (negb (bool_decide (content.(read_version) = VERSION))
    || negb (bool_decide (content.(read_mailbox_id) = mailbox_id address))
    || negb (bool_decide (content.(read_read_key) = address.(read_key))))
    (Invalid "mailbox read authorization does not match address") ;?
  let? key := verifying_key "read" content.(read_read_key) in
  verify_signature key READ_AUTHORIZATION_DOMAIN content self.(read_signature).

Definition read_authorization_encode (self : MailboxReadAuthorization)
  : result MailboxError bytes :=
  let? bs := ok_or (to_allocvec self) Encoding in
  fail_if (MAX_AUTHORIZATION_BYTES <? len bs)%N
    (Invalid "mailbox read authorization is too large") ;?
  Ok bs.

Definition read_authorization_decode_and_verify (bs : bytes) (address : MailboxAddress)
  : result MailboxError MailboxReadAuthorization :=
  fail_if ((len bs =? 0) || (MAX_AUTHORIZATION_BYTES <? len bs))%N
    (Invalid "mailbox read authorization size is invalid") ;?
  let? authorization := ok_or (from_bytes bs) Encoding in
  read_authorization_verify authorization address ;?
  Ok authorization.

(** ** Storage offers *)

Definition storage_offer_admission_work_bits (base_hasher : bytes) (nonce : arr 32) : N :=
  count_leading_zeros (blake3 (base_hasher ++ arr_bytes nonce)) 0.

Definition admission_work_bits (self : SignedMailboxStorageOffer) : N :=
  let base_hasher := storage_offer_admission_work_hasher self.(offer_content) in
  storage_offer_admission_work_bits base_hasher self.(offer_content).(offer_nonce).

Definition work_bits_ok (minimum_work_bits : byte) : bool :=
  between 1 (byte_val MAX_MAILBOX_STORAGE_OFFER_ADMISSION_WORK_BITS) (byte_val minimum_work_bits).

Definition verify_admission_work (self : SignedMailboxStorageOffer) (minimum_work_bits : byte)
  : result MailboxError unit :=
  fail_if (negb (work_bits_ok minimum_work_bits))
    (Invalid "mailbox storage offer admission work is outside protocol bounds") ;?
  fail_if (admission_work_bits self <? byte_val minimum_work_bits)%N
    (Invalid "mailbox storage offer admission work is insufficient").

Definition offer_verify_at (self : SignedMailboxStorageOffer) (now_unix_seconds : u64)
  : result MailboxError unit :=
  validate_storage_offer_content self.(offer_content) now_unix_seconds ;?
  let? key := verifying_key "store" self.(offer_content).(offer_store_key) in
  verify_signature key STORAGE_OFFER_DOMAIN self.(offer_content) self.(offer_signature).

Definition offer_encode (self : SignedMailboxStorageOffer) (now_unix_seconds : u64)
  : result MailboxError bytes :=
  offer_verify_at self now_unix_seconds ;?
  let? bs := ok_or (to_allocvec self) Encoding in
  fail_if ((len bs =? 0) || (MAX_MAILBOX_STORAGE_OFFER_BYTES <? len bs))%N
    (Invalid "mailbox storage offer size is invalid") ;?
  Ok bs.

Definition offer_decode_and_verify (bs : bytes) (now_unix_seconds : u64)
  : result MailboxError SignedMailboxStorageOffer :=
  fail_if ((len bs =? 0) || (MAX_MAILBOX_STORAGE_OFFER_BYTES <? len bs))%N
    (Invalid "mailbox storage offer size is invalid") ;?
  let? offer := ok_or (from_bytes bs) Encoding in
  offer_verify_at offer now_unix_seconds ;?
  Ok offer.

Definition storage_offer_content (self : SigningKey) (provider_endpoint : bytes)
  (capacity_hint_bytes max_record_bytes issued_at_unix_seconds validity_seconds : u64)
  (entropy : option (arr 32)) : result MailboxError MailboxStorageOfferContent :=
  let? expires_at_unix_seconds := ok_or (u64_checked_add issued_at_unix_seconds validity_seconds)
    (Invalid "mailbox storage offer expiry overflow") in
  let? nonce := random_bytes entropy in
  let content := {|
    offer_version := VERSION;
    provider_endpoint := provider_endpoint;
    offer_store_key := verifying_key_of self;
    policy_class := BoundedVolunteer;
    capacity_hint_bytes := capacity_hint_bytes;
    max_record_bytes := max_record_bytes;
    offer_issued_at := issued_at_unix_seconds;
    offer_expires_at := expires_at_unix_seconds;
    offer_nonce := nonce
  |} in
  validate_storage_offer_content content issued_at_unix_seconds ;?
  Ok content.

Definition sign_storage_offer (self : SigningKey) (content : MailboxStorageOfferContent)
  : result MailboxError SignedMailboxStorageOffer :=
  let? message := signing_bytes STORAGE_OFFER_DOMAIN content in
  let offer := {| offer_content := content; offer_signature := arr_bytes (sign self message) |} in
  offer_verify_at offer offer.(offer_content).(offer_issued_at) ;?
  Ok offer.

Definition storage_offer (self : SigningKey) (provider_endpoint : bytes)
  (capacity_hint_bytes max_record_bytes issued_at_unix_seconds validity_seconds : u64)
  (entropy : option (arr 32)) : result MailboxError SignedMailboxStorageOffer :=
  let? content := storage_offer_content self provider_endpoint capacity_hint_bytes
    max_record_bytes issued_at_unix_seconds validity_seconds entropy in
  sign_storage_offer self content.

Definition with_nonce (content : MailboxStorageOfferContent) (nonce : arr 32)
  : MailboxStorageOfferContent :=
  {| offer_version := content.(offer_version);
     provider_endpoint := content.(provider_endpoint);
     offer_store_key := content.(offer_store_key);
     policy_class := content.(policy_class);
     capacity_hint_bytes := content.(capacity_hint_bytes);
     max_record_bytes := content.(max_record_bytes);
     offer_issued_at := content.(offer_issued_at);
     offer_expires_at := content.(offer_expires_at);
     offer_nonce := nonce |}.

(** The body of the admission-work loop: it returns the signed offer, or goes
    on with the next nonce. *)
Definition admission_work_step (self : SigningKey) (base_hasher : bytes) (minimum_work_bits : byte)
  (content : MailboxStorageOfferContent)
  : MailboxStorageOfferContent + result MailboxError SignedMailboxStorageOffer :=
  if (byte_val minimum_work_bits <=?
      storage_offer_admission_work_bits base_hasher content.(offer_nonce))%N
  then inr (let? offer := sign_storage_offer self content in
            verify_admission_work offer minimum_work_bits ;?
            Ok offer)
  else inl (with_nonce content (increment_admission_nonce content.(offer_nonce))).

Definition storage_offer_with_admission_work (self : SigningKey) (provider_endpoint : bytes)
  (capacity_hint_bytes max_record_bytes issued_at_unix_seconds validity_seconds : u64)
  (minimum_work_bits : byte) (entropy : option (arr 32))
  : result MailboxError SignedMailboxStorageOffer :=
  fail_if (negb (work_bits_ok minimum_work_bits))
    (Invalid "mailbox storage offer admission work is outside protocol bounds") ;?
  let? content := storage_offer_content self provider_endpoint capacity_hint_bytes
    max_record_bytes issued_at_unix_seconds validity_seconds entropy in
  let base_hasher := storage_offer_admission_work_hasher content in
  match for_range MAX_MAILBOX_STORAGE_OFFER_ADMISSION_WORK_ATTEMPTS
          (admission_work_step self base_hasher minimum_work_bits) content with
  | inr returned => returned
  | inl _ => Err (Invalid "mailbox storage offer admission work search exhausted its bound")
  end.

(** ** Receipts *)

Definition stored_receipt (self : SigningKey) (mailbox_id : MailboxId) (item_id : MailboxItemId)
  (envelope : bytes) (stored_at expires_at : u64) : result MailboxError MailboxStoredReceipt :=
  let content := {|
    stored_version := VERSION;
    stored_store_key := verifying_key_of self;
    stored_mailbox_id := mailbox_id;
    stored_item_id := item_id;
    stored_envelope_bytes := as_u64 (len envelope);
    stored_envelope_digest := blake3 envelope;
    stored_at_unix_seconds := stored_at;
    stored_expires_at := expires_at
  |} in
  let? message := signing_bytes STORED_RECEIPT_DOMAIN content in
  Ok {| stored_content := content; stored_signature := arr_bytes (sign self message) |}.

Definition delete_receipt (self : SigningKey) (mailbox_id : MailboxId) (item_id : MailboxItemId)
  (stored_receipt_id : MailboxReceiptId) (deleted_at expires_at : u64)
  : result MailboxError MailboxDeleteReceipt :=
  let content := {|
    delete_version := VERSION;
    delete_store_key := verifying_key_of self;
    delete_mailbox_id := mailbox_id;
    delete_item_id := item_id;
    delete_stored_receipt_id := stored_receipt_id;
    deleted_at_unix_seconds := deleted_at;
    delete_expires_at := expires_at
  |} in
  let? message := signing_bytes DELETE_RECEIPT_DOMAIN content in
  Ok {| delete_content := content; delete_signature := arr_bytes (sign self message) |}.

Definition stored_receipt_verify (self : MailboxStoredReceipt) (envelope : bytes)
  : result MailboxError unit :=
  let content := self.(stored_content) in
  validate_envelope_bytes envelope ;?
  fail_if (negb (bool_decide (content.(stored_version) = VERSION))
    || negb (u64_eqb content.(stored_envelope_bytes) (as_u64 (len envelope)))
    || negb (bool_decide (content.(stored_envelope_digest) = blake3 envelope))
    || (content.(stored_expires_at) <=? content.(stored_at_unix_seconds))%N)
    (Invalid "mailbox stored receipt does not match envelope") ;?
  let? key := verifying_key "store" content.(stored_store_key) in
  verify_signature key STORED_RECEIPT_DOMAIN content self.(stored_signature).

Definition stored_receipt_verify_signature (self : MailboxStoredReceipt) : result MailboxError unit :=
  let content := self.(stored_content) in
  fail_if (negb (bool_decide (content.(stored_version) = VERSION))
    || (content.(stored_expires_at) <=? content.(stored_at_unix_seconds))%N)
    (Invalid "mailbox stored receipt time is invalid") ;?
  let? key := verifying_key "store" content.(stored_store_key) in
  verify_signature key STORED_RECEIPT_DOMAIN content self.(stored_signature).

Definition stored_receipt_encode (self : MailboxStoredReceipt) : result MailboxError bytes :=
  stored_receipt_verify_signature self ;?
  let? bs := ok_or (to_allocvec self) Encoding in
  fail_if (MAX_RECEIPT_BYTES <? len bs)%N (Invalid "mailbox stored receipt is too large") ;?
  Ok bs.

Definition stored_receipt_decode_and_verify (bs envelope : bytes)
  : result MailboxError MailboxStoredReceipt :=
  fail_if ((len bs =? 0) || (MAX_RECEIPT_BYTES <? len bs))%N
    (Invalid "mailbox stored receipt size is invalid") ;?
  let? receipt := ok_or (from_bytes bs) Encoding in
  stored_receipt_verify receipt envelope ;?
  Ok receipt.

Definition stored_receipt_id (self : MailboxStoredReceipt) : result MailboxError MailboxReceiptId :=
  stored_receipt_verify_signature self ;?
  let? encoded := stored_receipt_encode self in
  Ok (blake3 (RECEIPT_ID_DOMAIN ++ encoded)).

Definition delete_receipt_verify (self : MailboxDeleteReceipt) : result MailboxError unit :=
  let content := self.(delete_content) in
  fail_if (negb (bool_decide (content.(delete_version) = VERSION))
    || (content.(delete_expires_at) <=? content.(deleted_at_unix_seconds))%N)
    (Invalid "mailbox delete receipt time is invalid") ;?
  let? key := verifying_key "store" content.(delete_store_key) in
  verify_signature key DELETE_RECEIPT_DOMAIN content self.(delete_signature).

Definition delete_receipt_encode (self : MailboxDeleteReceipt) : result MailboxError bytes :=
  delete_receipt_verify self ;?
  let? bs := ok_or (to_allocvec self) Encoding in
  fail_if (MAX_RECEIPT_BYTES <? len bs)%N (Invalid "mailbox delete receipt is too large") ;?
  Ok bs.

Definition delete_receipt_decode_and_verify (bs : bytes) : result MailboxError MailboxDeleteReceipt :=
  fail_if ((len bs =? 0) || (MAX_RECEIPT_BYTES <? len bs))%N
    (Invalid "mailbox delete receipt size is invalid") ;?
  let? receipt := ok_or (from_bytes bs) Encoding in
  delete_receipt_verify receipt ;?
  Ok receipt.

Definition delete_receipt_id (self : MailboxDeleteReceipt)
  : result MailboxError MailboxDeleteReceiptId :=
  delete_receipt_verify self ;?
  let? encoded := delete_receipt_encode self in
  Ok (blake3 (DELETE_RECEIPT_ID_DOMAIN ++ encoded)).

End operations.

(** * Hexadecimal lemmas *)

Lemma hex_digit_val n : (n < 16)%N →
  byte_val (hex_digit n) = (if (n <? 10)%N then 48 + n else 87 + n)%N.
Proof.
  intros Hn. unfold hex_digit. apply as_u8_small. destruct (N.ltb_spec n 10); lia.
Qed.

Lemma hex_nibble_spec b n : hex_nibble b = Some n ↔ (n < 16)%N ∧ b = hex_digit n.
Proof.
  assert ((n < 16)%N → byte_val b = byte_val (hex_digit n) → b = hex_digit n) as Hinj
    by (intros _; apply byte_val_inj).
  unfold hex_nibble. split.
  - destruct ((48 <=? byte_val b) && (byte_val b <=? 57))%N eqn:E1.
    + apply andb_true_iff in E1 as [E1%N.leb_le E2%N.leb_le]. intros [= <-].
      split; [lia|]. apply Hinj; [lia|]. rewrite hex_digit_val by lia.
      destruct (N.ltb_spec (byte_val b - 48) 10); lia.
    + destruct ((97 <=? byte_val b) && (byte_val b <=? 102))%N eqn:E2; [|done].
      apply andb_true_iff in E2 as [E2%N.leb_le E3%N.leb_le]. intros [= <-].
      split; [lia|]. apply Hinj; [lia|]. rewrite hex_digit_val by lia.
      destruct (N.ltb_spec (byte_val b - 97 + 10) 10); lia.
  - intros [Hn ->]. rewrite hex_digit_val by done.
    destruct (N.ltb_spec n 10).
    + rewrite (proj2 (N.leb_le 48 _)), (proj2 (N.leb_le _ 57)) by lia. cbn. f_equal. lia.
    + rewrite (proj2 (N.leb_gt _ 57)), andb_false_r by lia.
      rewrite (proj2 (N.leb_le 97 _)), (proj2 (N.leb_le _ 102)) by lia. cbn. f_equal. lia.
Qed.

Lemma nibbles_byte high low :
  (high < 16)%N → (low < 16)%N → byte_val (as_u8 (N.lor (N.shiftl high 4) low)) = (high * 16 + low)%N.
Proof.
  intros Hh Hl.
  assert (forallb (fun h => forallb (fun l =>
      (byte_val (as_u8 (N.lor (N.shiftl h 4) l)) =? h * 16 + l)%N) (map N.of_nat (seq 0 16))) (map N.of_nat (seq 0 16)) = true)
    as Hall by reflexivity.
  assert (∀ n, (n < 16)%N → In n (map N.of_nat (seq 0 16))) as Hin.
  { intros n Hn. apply in_map_iff. exists (N.to_nat n). rewrite N2Nat.id, in_seq. split; [done|lia]. }
  rewrite forallb_forall in Hall. specialize (Hall high (Hin _ Hh)).
  rewrite forallb_forall in Hall. by apply N.eqb_eq, Hall, Hin.
Qed.

Lemma hex_byte_spec a b c :
  (∃ high low, hex_nibble a = Some high ∧ hex_nibble b = Some low ∧
               c = as_u8 (N.lor (N.shiftl high 4) low)) ↔
  a = hex_digit (byte_val c / 16) ∧ b = hex_digit (byte_val c mod 16).
Proof.
  pose proof (byte_val_lt c) as Hc. split.
  - intros (high & low & [Hh ->]%hex_nibble_spec & [Hl ->]%hex_nibble_spec & ->).
    rewrite nibbles_byte by done.
    rewrite N.div_add_l, (N.div_small low), N.add_0_r by lia.
    by rewrite (N.add_comm (high * 16)), N.Div0.mod_add, N.mod_small by lia.
  - intros [-> ->]. exists (byte_val c / 16)%N, (byte_val c mod 16)%N.
    assert (byte_val c / 16 < 16)%N by (apply N.Div0.div_lt_upper_bound; lia).
    assert (byte_val c mod 16 < 16)%N by (apply N.mod_lt; lia).
    split; [by apply hex_nibble_spec|]. split; [by apply hex_nibble_spec|].
    apply byte_val_inj. rewrite nibbles_byte by done.
    rewrite (N.div_mod (byte_val c) 16) at 1 by done. lia.
Qed.

Lemma write_hex_cons c bs :
  write_hex (c :: bs) = hex_digit (byte_val c / 16) :: hex_digit (byte_val c mod 16) :: write_hex bs.
Proof. done. Qed.

Lemma length_write_hex bs : length (write_hex bs) = (2 * length bs)%nat.
Proof. induction bs as [|c bs IH]; [done|]. rewrite write_hex_cons. cbn [length]. rewrite IH. lia. Qed.

Lemma decode_hex_pairs_spec n value bs : length value = (2 * n)%nat →
  decode_hex_pairs value = Ok bs ↔ value = write_hex bs.
Proof.
  revert value bs; induction n as [|n IH]; intros value bs Hlen.
  - destruct value; [|done]. split; [by intros [= <-]|]. intros E.
    apply (f_equal length) in E. rewrite length_write_hex in E. by destruct bs.
  - destruct value as [|a [|b rest]]; cbn in Hlen; [lia|lia|]. split.
    + intros Hd. cbn [decode_hex_pairs] in Hd. result_inv.
      rewrite write_hex_cons. apply IH in E1 as ->; [|lia].
      by destruct (proj1 (hex_byte_spec a b _) ltac:(eauto)) as [-> ->].
    + intros E. destruct bs as [|c bs]; [done|]. rewrite write_hex_cons in E.
      injection E as -> -> ->.
      destruct (proj2 (hex_byte_spec _ _ c) (conj eq_refl eq_refl)) as (h & l & Eh & El & ->).
      cbn [decode_hex_pairs]. rewrite Eh, El. cbn [ok_or rbind].
      rewrite (proj2 (IH (write_hex bs) bs ltac:(lia)) eq_refl). done.
Qed.

(** reading the hexadecimal form accepts exactly what writing produces:
    the 64 lowercase digits of the 32 bytes, so the text of a key or an
    identifier is unique. *)
Theorem hex_form_bijective value b : decode_hex value = Ok b ↔ value = write_hex (arr_bytes b).
Proof.
  unfold decode_hex. split.
  - intros Hd. result_inv. apply negb_false_iff, N.eqb_eq in G. unfold len in G.
    assert (length value = 2 * 32)%nat as Hl by (unfold KEY_BYTES in G; lia).
    apply (decode_hex_pairs_spec _ _ _ Hl) in E as ->. rewrite length_write_hex in Hl.
    rewrite arr_of_bytes; [done|]. lia.
  - intros ->. unfold len. rewrite length_write_hex, arr_length.
    change (N.of_nat (2 * 32) =? N.of_nat (KEY_BYTES * 2))%N with true. cbn [negb fail_if rbind].
    assert (decode_hex_pairs (write_hex b) = Ok (arr_bytes b)) as ->.
    { apply (decode_hex_pairs_spec 32); [|done]. by rewrite length_write_hex, arr_length. }
    cbn [rbind]. f_equal. unfold arr_of. by rewrite arr_try_from_bytes.
Qed.

(** * Admission work *)

Lemma increment_reversed_length l : length (increment_reversed l) = length l.
Proof. induction l as [|b l IH]; [done|]. cbn. destruct (_ <? _)%N; cbn; lia. Qed.

Lemma increment_reversed_val l :
  from_be_bytes (rev (increment_reversed l)) =
  ((from_be_bytes (rev l) + 1) mod 256 ^ N.of_nat (length l))%N.
Proof.
  induction l as [|b l IH]; [done|]. cbn [increment_reversed rev length].
  pose proof (byte_val_lt b). pose proof (from_be_bytes_lt (rev l)) as Hlt.
  rewrite length_rev in Hlt. rewrite Nat2N.inj_succ, N.pow_succ_r'.
  destruct (N.ltb_spec (byte_val b + 1) 256); cbn [rev]; rewrite !from_be_bytes_snoc, as_u8_val.
  - rewrite N.mod_small, N.mod_small; [lia| |lia].
    enough ((from_be_bytes (rev l) + 1) * 256 <= 256 * 256 ^ N.of_nat (length l))%N by lia.
    rewrite (N.mul_comm 256). apply N.mul_le_mono_r. lia.
  - replace (byte_val b + 1)%N with 256%N by lia. rewrite IH.
    change (256 mod 256)%N with 0%N. rewrite N.add_0_r, (N.mul_comm 256), <-N.Div0.mul_mod_distr_r.
    f_equal. lia.
Qed.

(** The nonce [i] steps on, as a 256-bit number. *)
Definition nonce_plus (nonce : arr 32) (i : N) : arr 32 :=
  arr_of 32 (to_be_bytes 32 (from_be_bytes nonce + i)).

Lemma nonce_plus_val nonce i :
  from_be_bytes (nonce_plus nonce i) = ((from_be_bytes nonce + i) mod 2 ^ 256)%N.
Proof.
  unfold nonce_plus. rewrite arr_of_bytes by apply length_to_be_bytes.
  rewrite from_to_be_bytes. done.
Qed.

Lemma arr_be_inj (a b : arr 32) : from_be_bytes a = from_be_bytes b → a = b.
Proof.
  intros E. apply arr_eq. rewrite <-(to_from_be_bytes a 32), <-(to_from_be_bytes b 32) by apply arr_length.
  by rewrite E.
Qed.

Lemma nonce_plus_0 nonce : nonce_plus nonce 0 = nonce.
Proof.
  apply arr_be_inj. rewrite nonce_plus_val, N.add_0_r. apply N.mod_small.
  pose proof (from_be_bytes_lt nonce) as Hlt. by rewrite arr_length in Hlt.
Qed.

Lemma increment_admission_nonce_plus nonce i :
  increment_admission_nonce (nonce_plus nonce i) = nonce_plus nonce (i + 1).
Proof.
  apply arr_be_inj. unfold increment_admission_nonce. rewrite arr_of_bytes.
  - rewrite increment_reversed_val, length_rev, arr_length, rev_involutive.
    rewrite !nonce_plus_val, N.Div0.add_mod_idemp_l. f_equal. lia.
  - by rewrite length_rev, increment_reversed_length, length_rev, arr_length.
Qed.

Lemma from_be_bytes_cons b l :
  from_be_bytes (b :: l) = (byte_val b * 256 ^ N.of_nat (length l) + from_be_bytes l)%N.
Proof.
  induction l as [|c l IH] using rev_ind.
  - change (from_be_bytes [b]) with (0 * 256 + byte_val b)%N. cbn. lia.
  - rewrite app_comm_cons, !from_be_bytes_snoc, IH, length_app, Nat.add_comm.
    cbn [length Nat.add]. rewrite Nat2N.inj_succ, N.pow_succ_r'. lia.
Qed.

Lemma size_split b n v : (0 < b)%N → (v < 2 ^ n)%N → N.size (b * 2 ^ n + v) = (N.size b + n)%N.
Proof.
  intros Hb Hv. assert (0 < 2 ^ n)%N by lia. rewrite !N.size_log2 by nia.
  rewrite (N.log2_unique _ (N.log2 b + n)); [lia|lia|].
  destruct (N.log2_spec b Hb) as [Hlo Hhi]. rewrite <-N.add_succ_l, !N.pow_add_r.
  split; [nia|]. rewrite N.pow_succ_r' in *. nia.
Qed.

Lemma count_leading_zeros_size digest bits :
  (count_leading_zeros digest bits + N.size (from_be_bytes digest) =
   bits + 8 * N.of_nat (length digest))%N.
Proof.
  revert bits; induction digest as [|b l IH]; intros bits; [cbn; lia|].
  cbn [count_leading_zeros]. rewrite from_be_bytes_cons. cbn [length]. rewrite Nat2N.inj_succ.
  destruct (N.eqb_spec (byte_val b) 0) as [->|Hb].
  - rewrite N.mul_0_l, N.add_0_l. rewrite IH. lia.
  - change 256%N with (2 ^ 8)%N. rewrite <-N.pow_mul_r.
    pose proof (from_be_bytes_lt l) as Hlt. change 256%N with (2 ^ 8)%N in Hlt.
    rewrite <-N.pow_mul_r in Hlt. rewrite size_split by (done || lia).
    unfold leading_zeros. pose proof (byte_val_lt b) as Hb'.
    assert (N.size (byte_val b) <= 8)%N.
    { rewrite N.size_log2 by done. apply N.le_succ_l, N.log2_lt_pow2; [lia|done]. }
    lia.
Qed.

Lemma size_le_pow2 v n : (N.size v <= n)%N ↔ (v < 2 ^ n)%N.
Proof.
  destruct (N.eq_dec v 0%N) as [->|Hv].
  - cbn. assert (0 < 2 ^ n)%N by lia. lia.
  - rewrite N.size_log2, N.le_succ_l, <-N.log2_lt_pow2 by lia. done.
Qed.

(** * Authorizations, offers and receipts *)

Section correctness.
Context `{Blake3, Ed25519, MailboxPostcard}.

Lemma verifying_key_Ok kind key k :
  verifying_key kind key = Ok k ↔ verifying_key_ok key = true ∧ k = key.
Proof.
  unfold verifying_key. destruct (verifying_key_ok key); cbn; [|by split; [|intros [? _]]].
  split; [by intros [= <-]|by intros [_ ->]].
Qed.

(** [key] signed the content. *)
Definition signature_valid {T} `{Postcard T} (key : arr 32) (domain : bytes) (content : T)
    (signature : bytes) : Prop :=
  signature_ok signature = true ∧
  ∃ encoded, to_allocvec content = Some encoded ∧
             verify_strict key (domain ++ encoded) signature = true.

Lemma verify_signature_Ok {T} `{Postcard T} key domain (content : T) signature :
  verify_signature key domain content signature = Ok tt ↔
  signature_valid key domain content signature.
Proof.
  unfold verify_signature, signature_valid, signing_bytes.
  destruct (signature_ok signature); cbn; [|split; [done|by intros [? _]]].
  destruct (to_allocvec content) as [encoded|]; cbn; [|split; [done|by intros (_ & ? & ? & _)]].
  rewrite fail_if_ok, negb_false_iff. split; [by eauto|].
  by intros (_ & ? & [= <-] & ?).
Qed.

Lemma signed_by_verifies `{!Ed25519Laws _} {T} `{Postcard T} secret domain (content : T) message :
  signing_bytes domain content = Ok message →
  signature_valid (verifying_key_of secret) domain content (sign secret message).
Proof.
  unfold signing_bytes. intros E. result_inv. split; [apply made_signature_ok|].
  eexists. split; [done|]. apply signed_verifies.
Qed.

Definition address_valid (a : MailboxAddress) : Prop :=
  a.(address_version) = VERSION ∧ verifying_key_ok a.(read_key) = true ∧
  verifying_key_ok a.(write_key) = true.

Lemma address_verify_Ok a : address_verify a = Ok tt ↔ address_valid a.
Proof.
  unfold address_verify, address_valid. rewrite rbind_unit_ok, fail_if_ok, negb_false_iff, bool_decide_eq_true.
  unfold verifying_key. destruct (verifying_key_ok (read_key a)), (verifying_key_ok (write_key a)); cbn;
    intuition congruence.
Qed.

Lemma validate_envelope_bytes_Ok envelope :
  validate_envelope_bytes envelope = Ok tt ↔
  (0 < len envelope <= MAX_MAILBOX_ENVELOPE_BYTES)%N.
Proof.
  unfold validate_envelope_bytes. rewrite fail_if_ok, orb_false_iff, N.eqb_neq, N.ltb_ge. lia.
Qed.

Lemma between_true low high v : between low high v = true ↔ (low <= v <= high)%N.
Proof. unfold between. rewrite andb_true_iff, !N.leb_le. done. Qed.

Lemma validate_ttl_Ok ttl :
  validate_ttl ttl = Ok tt ↔ (MIN_MAILBOX_TTL_SECONDS <= ttl <= MAX_MAILBOX_TTL_SECONDS)%N.
Proof. unfold validate_ttl. by rewrite fail_if_ok, negb_false_iff, between_true. Qed.

(** What a write authorization says about the request it was made for. *)
Definition write_request (a : MailboxWriteAuthorization) (address : MailboxAddress)
    (envelope : bytes) : Prop :=
  let c := a.(write_content) in
  address_valid address ∧ (0 < len envelope <= MAX_MAILBOX_ENVELOPE_BYTES)%N ∧
  (MIN_MAILBOX_TTL_SECONDS <= c.(requested_ttl_seconds) <= MAX_MAILBOX_TTL_SECONDS)%N ∧
  c.(write_version) = VERSION ∧ c.(write_mailbox_id) = mailbox_id address ∧
  c.(write_write_key) = address.(write_key) ∧
  c.(write_envelope_bytes) = as_u64 (len envelope) ∧ c.(write_envelope_digest) = blake3 envelope ∧
  signature_valid address.(write_key) WRITE_AUTHORIZATION_DOMAIN c a.(write_signature).

Lemma write_authorization_verify_Ok a address envelope :
  write_authorization_verify a address envelope = Ok tt ↔ write_request a address envelope.
Proof.
  unfold write_authorization_verify, write_request. cbv zeta.
  rewrite !rbind_unit_ok, address_verify_Ok, validate_envelope_bytes_Ok, validate_ttl_Ok, fail_if_ok.
  rewrite !orb_false_iff, !negb_false_iff, !bool_decide_eq_true, u64_eqb_eq.
  split.
  - intros (Ha & He & Ht & ((((Hv & Hm) & Hk) & Hl) & Hd) & Hs).
    result_inv. apply verifying_key_Ok in E as [_ ->]. apply verify_signature_Ok in Hs.
    rewrite Hk in Hs. repeat (split; [done|]). done.
  - intros (Ha & He & Ht & Hv & Hm & Hk & Hl & Hd & Hs). destruct Ha as (Hav & Hr & Hw).
    repeat (split; [done|]). rewrite Hk.
    rewrite (proj2 (verifying_key_Ok "write" _ _) (conj Hw eq_refl)). cbn [rbind].
    by apply verify_signature_Ok.
Qed.

(** What a read authorization says. *)
Definition read_request (a : MailboxReadAuthorization) (address : MailboxAddress) : Prop :=
  let c := a.(read_content) in
  address_valid address ∧
  match c.(operation) with
  | List _ _ limit => (1 <= limit <= MAX_MAILBOX_PAGE_ITEMS)%N
  | Delete _ _ => True
  end ∧
  c.(read_version) = VERSION ∧ c.(read_mailbox_id) = mailbox_id address ∧
  c.(read_read_key) = address.(read_key) ∧
  signature_valid address.(read_key) READ_AUTHORIZATION_DOMAIN c a.(read_signature).

Lemma read_authorization_verify_Ok a address :
  read_authorization_verify a address = Ok tt ↔ read_request a address.
Proof.
  unfold read_authorization_verify, read_request. cbv zeta.
  rewrite !rbind_unit_ok, address_verify_Ok, !fail_if_ok.
  rewrite !orb_false_iff, !negb_false_iff, !bool_decide_eq_true.
  assert (∀ b : bool, ∀ P : Prop, (b = false ↔ P) → ∀ A Q, (A ∧ b = false ∧ Q) ↔ (A ∧ P ∧ Q)) as Hb
    by (intros; tauto).
  erewrite Hb; [|].
  2: { instantiate (1 := match operation (read_content a) with
         | List _ _ limit => (1 <= limit <= MAX_MAILBOX_PAGE_ITEMS)%N | Delete _ _ => True end).
       destruct (operation (read_content a)) as [? ? limit|]; [|done].
       unfold page_limit_ok. by rewrite negb_false_iff, between_true. }
  split.
  - intros (Ha & Hl & ((Hv & Hm) & Hk) & Hs).
    result_inv. apply verifying_key_Ok in E as [_ ->]. apply verify_signature_Ok in Hs.
    rewrite Hk in Hs. repeat (split; [done|]). done.
  - intros (Ha & Hl & Hv & Hm & Hk & Hs). pose proof Ha as (_ & Hr & _).
    split; [done|]. split; [done|]. split; [done|]. rewrite Hk.
    rewrite (proj2 (verifying_key_Ok "read" _ _) (conj Hr eq_refl)). cbn [rbind].
    by apply verify_signature_Ok.
Qed.

(** The hash input that identifies a mailbox. *)
Definition mailbox_id_preimage (a : MailboxAddress) : bytes :=
  MAILBOX_ID_DOMAIN ++ arr_bytes a.(read_key) ++ arr_bytes a.(write_key).

Lemma mailbox_id_inj a b :
  address_valid a → address_valid b → no_collision (mailbox_id_preimage a) (mailbox_id_preimage b) →
  mailbox_id a = mailbox_id b → a = b.
Proof.
  intros (Ha & _) (Hb & _) Hnc E. specialize (Hnc E). unfold mailbox_id_preimage in Hnc.
  apply app_inv_head in Hnc. apply app_inj_1 in Hnc as [E1%arr_eq E2%arr_eq];
    [|by rewrite !arr_length].
  destruct a, b; cbn in *. by subst.
Qed.

(** Reading back what an [encode] wrote. *)
Lemma decode_encoded {T} `{Postcard T} `{!PostcardLaws T} (a : T) bs :
  to_allocvec a = Some bs → from_bytes bs = Some a.
Proof. apply postcard_roundtrip. Qed.

(** a write capability authorizes a request exactly for its own address:
    what it returns carries the request and verifies for that address and
    envelope, and its wire form, when it fits and is not empty, decodes to it. *)
Theorem write_authorization_accepted `{!Ed25519Laws _, !MailboxPostcardLaws _}
    secret address item ttl envelope a :
  write_capability_authorize secret address item ttl envelope = Ok a →
  write_authorization_verify a address envelope = Ok tt ∧
  a.(write_content).(write_item_id) = item ∧ a.(write_content).(requested_ttl_seconds) = ttl ∧
  ∀ bs, write_authorization_encode a = Ok bs → bs ≠ [] →
        write_authorization_decode_and_verify bs address envelope = Ok a.
Proof.
  unfold write_capability_authorize. intros Ha. result_inv.
  rename E into Eaddr, E0 into Ettl, E1 into Eenv, E2 into Emsg.
  apply negb_false_iff, bool_decide_eq_true in G. cbn [write_content write_item_id requested_ttl_seconds].
  match goal with |- write_authorization_verify ?a _ _ = _ ∧ _ => set (w := a) end.
  assert (write_authorization_verify w address envelope = Ok tt) as Hv.
  { apply write_authorization_verify_Ok. unfold write_request. cbn.
    rewrite <-address_verify_Ok, <-validate_ttl_Ok, <-validate_envelope_bytes_Ok, G.
    repeat (split; [done|]). by apply signed_by_verifies. }
  split; [done|]. split; [done|]. split; [done|]. intros bs Hbs Hne.
  unfold write_authorization_encode in Hbs. result_inv.
  unfold write_authorization_decode_and_verify. rewrite G0.
  destruct (N.eqb_spec (len bs) 0) as [Hz|_]; [by destruct bs|]. cbn [orb fail_if rbind].
  rewrite (decode_encoded w) by done. cbn [ok_or rbind]. by rewrite Hv.
Qed.

(** a write authorization is good for one request: two addresses and
    envelopes that verify under it are the same, unless BLAKE3 collides on
    them, and the holder of the address's write key signed it. *)
Theorem write_authorization_binding a address envelope address' envelope' :
  write_authorization_verify a address envelope = Ok tt →
  write_authorization_verify a address' envelope' = Ok tt →
  no_collision (mailbox_id_preimage address) (mailbox_id_preimage address') →
  no_collision envelope envelope' →
  address = address' ∧ envelope = envelope' ∧
  signature_valid address.(write_key) WRITE_AUTHORIZATION_DOMAIN a.(write_content) a.(write_signature).
Proof.
  intros (Ha & _ & _ & _ & Hm & _ & _ & Hd & Hs)%write_authorization_verify_Ok
         (Ha' & _ & _ & _ & Hm' & _ & _ & Hd' & _)%write_authorization_verify_Ok Hn Hn'.
  split; [by apply mailbox_id_inj; [..|congruence]|]. split; [apply Hn'; congruence|done].
Qed.

(** a read capability authorizes a list or a delete for its own address:
    what it returns verifies for that address, keeps the operation, and its
    wire form decodes to it; and no other address accepts the authorization,
    unless BLAKE3 collides on the two mailbox identifiers. *)
Theorem read_authorization_accepted `{!Ed25519Laws _, !MailboxPostcardLaws _}
    secret address op a :
  read_capability_authorize secret address op = Ok a →
  match op with List _ _ limit => page_limit_ok limit = true | Delete _ _ => True end →
  read_authorization_verify a address = Ok tt ∧ a.(read_content).(operation) = op ∧
  (∀ bs, read_authorization_encode a = Ok bs → bs ≠ [] →
         read_authorization_decode_and_verify bs address = Ok a) ∧
  (∀ address', no_collision (mailbox_id_preimage address) (mailbox_id_preimage address') →
     read_authorization_verify a address' = Ok tt → address' = address).
Proof.
  unfold read_capability_authorize. intros Ha Hop. result_inv.
  apply negb_false_iff, bool_decide_eq_true in G. cbn [read_content operation].
  match goal with |- read_authorization_verify ?a _ = _ ∧ _ => set (w := a) end.
  assert (read_authorization_verify w address = Ok tt) as Hv.
  { apply read_authorization_verify_Ok. unfold read_request. cbn.
    rewrite <-address_verify_Ok, G. split; [done|]. split.
    { destruct op as [? ? limit|]; [|done]. by apply between_true. }
    repeat (split; [done|]). by apply signed_by_verifies. }
  split; [done|]. split; [done|]. split.
  - intros bs Hbs Hne. unfold read_authorization_encode in Hbs. result_inv.
    unfold read_authorization_decode_and_verify. rewrite G0.
    destruct (N.eqb_spec (len bs) 0) as [Hz|_]; [by destruct bs|]. cbn [orb fail_if rbind].
    rewrite (decode_encoded w) by done. cbn [ok_or rbind]. by rewrite Hv.
  - intros address' Hnc Hv'.
    apply read_authorization_verify_Ok in Hv as (Hva & _ & _ & Hm & _).
    apply read_authorization_verify_Ok in Hv' as (Hva' & _ & _ & Hm' & _).
    symmetry. apply mailbox_id_inj; [done..|congruence].
Qed.

(** ** Storage offers *)

Definition offer_fields_valid (c : MailboxStorageOfferContent) (now : u64) : Prop :=
  validate_storage_offer_content c now = Ok tt.

(** The nonce is the only field the search changes, and validation, the hashed
    fields and the signing key do not look at it. *)
Lemma with_nonce_with_nonce c n m : with_nonce (with_nonce c n) m = with_nonce c m.
Proof. done. Qed.

Lemma validate_with_nonce c n now :
  validate_storage_offer_content (with_nonce c n) now = validate_storage_offer_content c now.
Proof. done. Qed.

Lemma hasher_with_nonce c n :
  storage_offer_admission_work_hasher (with_nonce c n) = storage_offer_admission_work_hasher c.
Proof. done. Qed.

(** The digest the search looks at for one nonce. *)
Definition admission_digest (c : MailboxStorageOfferContent) (nonce : arr 32) : N :=
  from_be_bytes (blake3 (storage_offer_admission_work_hasher c ++ arr_bytes nonce)).

Lemma work_bits_digest c nonce bits : (bits <= 256)%N →
  (bits <=? storage_offer_admission_work_bits (storage_offer_admission_work_hasher c) nonce)%N = true
  ↔ (admission_digest c nonce < 2 ^ (256 - bits))%N.
Proof.
  intros Hb. unfold storage_offer_admission_work_bits, admission_digest.
  set (d := blake3 _). pose proof (count_leading_zeros_size d 0) as Hs. rewrite arr_length in Hs.
  rewrite N.leb_le, <-size_le_pow2.
  change (0 + 8 * N.of_nat 32)%N with 256%N in Hs.
  lia.
Qed.

Definition next_content (c : MailboxStorageOfferContent) : MailboxStorageOfferContent :=
  with_nonce c (increment_admission_nonce c.(offer_nonce)).

(** The content of attempt [i]. *)
Definition attempt (c : MailboxStorageOfferContent) (i : N) : MailboxStorageOfferContent :=
  with_nonce c (nonce_plus c.(offer_nonce) i).

Lemma iter_next_content c i : Nat.iter i next_content c = attempt c (N.of_nat i).
Proof.
  unfold attempt. induction i as [|i IH].
  { change (N.of_nat 0) with 0%N. by rewrite nonce_plus_0. }
  rewrite Nat.iter_succ, IH. unfold next_content. cbn [offer_nonce with_nonce].
  rewrite increment_admission_nonce_plus, with_nonce_with_nonce. do 2 f_equal. lia.
Qed.

(** The offer a store signs for one content. *)
Definition signed_offer (secret : SigningKey) (c : MailboxStorageOfferContent) (encoded : bytes)
  : SignedMailboxStorageOffer :=
  {| offer_content := c;
     offer_signature := arr_bytes (sign secret (STORAGE_OFFER_DOMAIN ++ encoded)) |}.

Lemma sign_storage_offer_Ok `{!Ed25519Laws _} secret c encoded :
  c.(offer_store_key) = verifying_key_of secret →
  validate_storage_offer_content c c.(offer_issued_at) = Ok tt →
  to_allocvec c = Some encoded →
  sign_storage_offer secret c = Ok (signed_offer secret c encoded).
Proof.
  intros Hk Hv He. unfold sign_storage_offer, signing_bytes. rewrite He. cbn [ok_or rbind].
  unfold offer_verify_at. cbn [offer_content offer_signature]. rewrite Hv. cbn [rbind].
  rewrite Hk, (proj2 (verifying_key_Ok "store" _ _) (conj (derived_key_ok _) eq_refl)). cbn [rbind].
  rewrite (proj2 (verify_signature_Ok _ _ _ _)); [done|].
  apply signed_by_verifies. unfold signing_bytes. by rewrite He.
Qed.

Lemma storage_offer_content_fields secret endpoint capacity record issued validity entropy c :
  storage_offer_content secret endpoint capacity record issued validity entropy = Ok c →
  c.(offer_store_key) = verifying_key_of secret ∧ c.(offer_issued_at) = issued ∧
  validate_storage_offer_content c issued = Ok tt.
Proof. unfold storage_offer_content. intros Hc. by result_inv. Qed.

(** Attempt [i] is below the target. *)
Definition attempt_found (c : MailboxStorageOfferContent) (bits : byte) (i : N) : Prop :=
  (admission_digest c (nonce_plus c.(offer_nonce) i) < 2 ^ (256 - byte_val bits))%N.

(** The test and the answer of the loop body. *)
Definition search_found (c : MailboxStorageOfferContent) (bits : byte)
  (c' : MailboxStorageOfferContent) : bool :=
  (byte_val bits <=? storage_offer_admission_work_bits (storage_offer_admission_work_hasher c)
     c'.(offer_nonce))%N.
Definition search_answer (secret : SigningKey) (bits : byte) (c' : MailboxStorageOfferContent) :=
  let? offer := sign_storage_offer secret c' in verify_admission_work offer bits ;? Ok offer.

Lemma search_found_iff c bits i :
  search_found c bits (Nat.iter i next_content c) = true ↔ attempt_found c bits (N.of_nat i).
Proof.
  rewrite iter_next_content. apply work_bits_digest. pose proof (byte_val_lt bits). lia.
Qed.

Lemma search_found_false c bits i :
  search_found c bits (Nat.iter i next_content c) = false ↔ ¬ attempt_found c bits (N.of_nat i).
Proof. rewrite <-search_found_iff. apply iff_sym, not_true_iff_false. Qed.

Lemma search_answer_found `{!Ed25519Laws _} secret c bits i encoded :
  work_bits_ok bits = true → c.(offer_store_key) = verifying_key_of secret →
  validate_storage_offer_content c c.(offer_issued_at) = Ok tt →
  to_allocvec (attempt c (N.of_nat i)) = Some encoded →
  attempt_found c bits (N.of_nat i) →
  search_answer secret bits (Nat.iter i next_content c) =
  Ok (signed_offer secret (attempt c (N.of_nat i)) encoded).
Proof.
  intros Hbits Hk Hv He Hf. apply search_found_iff in Hf. rewrite iter_next_content in Hf |- *.
  unfold search_answer. rewrite (sign_storage_offer_Ok _ _ encoded) by done. cbn [rbind].
  unfold verify_admission_work. rewrite Hbits. cbn [negb fail_if rbind].
  apply N.leb_le in Hf. unfold admission_work_bits. cbn [offer_content signed_offer].
  unfold attempt at 1. rewrite hasher_with_nonce. by rewrite (proj2 (N.ltb_ge _ _) Hf).
Qed.

(** the admission-work search signs the first nonce, counting up from the
    random one modulo [2^256] for at most [2^24] attempts, whose digest is
    below [2^(256 - bits)], and fails when there is none. *)
Theorem storage_offer_search `{!Ed25519Laws _} secret endpoint capacity record issued validity
    bits entropy c (encoded : N → bytes) :
  work_bits_ok bits = true →
  storage_offer_content secret endpoint capacity record issued validity entropy = Ok c →
  (∀ i, to_allocvec (attempt c i) = Some (encoded i)) →
  ∀ offer,
  storage_offer_with_admission_work secret endpoint capacity record issued validity bits entropy
    = Ok offer ↔
  ∃ i, (i < 2 ^ 24)%N ∧ attempt_found c bits i ∧ (∀ j, (j < i)%N → ¬ attempt_found c bits j) ∧
       offer = signed_offer secret (attempt c i) (encoded i).
Proof.
  intros Hbits Hc Henc offer. unfold storage_offer_with_admission_work.
  rewrite Hbits, Hc. cbn [negb fail_if rbind].
  destruct (storage_offer_content_fields _ _ _ _ _ _ _ _ Hc) as (Hk & Hi & Hv).
  rewrite <-Hi in Hv.
  change (admission_work_step secret (storage_offer_admission_work_hasher c) bits)
    with (search_step next_content (search_found c bits) (search_answer secret bits)).
  rewrite for_range_nat.
  change MAX_MAILBOX_STORAGE_OFFER_ADMISSION_WORK_ATTEMPTS with (2 ^ 24)%N.
  destruct (for_nat _ _ c) as [s'|r] eqn:Eloop.
  - split; [done|]. intros (i & Hlt & Hd & _ & _).
    pose proof (for_nat_search_exhausted _ _ _ _ _ _ Eloop (N.to_nat i) ltac:(lia)) as Hno.
    apply search_found_false in Hno. by rewrite N2Nat.id in Hno.
  - apply for_nat_search_found in Eloop as (i & Hlt & -> & Hfi%search_found_iff & Hmin).
    rewrite (search_answer_found _ _ _ i (encoded (N.of_nat i))) by done.
    assert (∀ j, (j < N.of_nat i)%N → ¬ attempt_found c bits j) as Hmin'.
    { intros j Hj. rewrite <-(N2Nat.id j). apply search_found_false, Hmin. lia. }
    split.
    + intros [= <-]. exists (N.of_nat i). split; [lia|done].
    + intros (k & Hk2 & Hd & Hmink & ->).
      destruct (N.lt_trichotomy k (N.of_nat i)) as [Hl|[->|Hl]]; [|done|].
      * by destruct (Hmin' _ Hl).
      * by destruct (Hmink _ Hl).
Qed.

(** ** Receipts *)

(** What a stored receipt says about the envelope it was made for. *)
Definition stored_receipt_valid (r : MailboxStoredReceipt) (envelope : bytes) : Prop :=
  let c := r.(stored_content) in
  (0 < len envelope <= MAX_MAILBOX_ENVELOPE_BYTES)%N ∧ c.(stored_version) = VERSION ∧
  c.(stored_envelope_bytes) = as_u64 (len envelope) ∧ c.(stored_envelope_digest) = blake3 envelope ∧
  (c.(stored_at_unix_seconds) < c.(stored_expires_at))%N ∧
  verifying_key_ok c.(stored_store_key) = true ∧
  signature_valid c.(stored_store_key) STORED_RECEIPT_DOMAIN c r.(stored_signature).

Lemma rbind_verifying_key {A} kind key (k : arr 32 → result MailboxError A) a :
  (let? key := verifying_key kind key in k key) = Ok a ↔ verifying_key_ok key = true ∧ k key = Ok a.
Proof. unfold verifying_key. destruct (verifying_key_ok key); cbn; intuition congruence. Qed.

Lemma stored_receipt_verify_Ok r envelope :
  stored_receipt_verify r envelope = Ok tt ↔ stored_receipt_valid r envelope.
Proof.
  unfold stored_receipt_verify, stored_receipt_valid. cbv zeta.
  rewrite !rbind_unit_ok, validate_envelope_bytes_Ok, fail_if_ok, rbind_verifying_key,
    verify_signature_Ok, !orb_false_iff, !negb_false_iff, !bool_decide_eq_true, u64_eqb_eq, N.leb_gt.
  tauto.
Qed.

Lemma stored_receipt_verify_signature_Ok r envelope :
  stored_receipt_valid r envelope → stored_receipt_verify_signature r = Ok tt.
Proof.
  intros (_ & Hv & _ & _ & Ht & Hk & Hs). unfold stored_receipt_verify_signature. cbv zeta.
  rewrite rbind_unit_ok, fail_if_ok, rbind_verifying_key, verify_signature_Ok, orb_false_iff,
    negb_false_iff, bool_decide_eq_true, N.leb_gt. done.
Qed.

Lemma stored_receipt_made `{!Ed25519Laws _} secret mailbox item envelope stored expires r :
  stored_receipt secret mailbox item envelope stored expires = Ok r →
  (0 < len envelope <= MAX_MAILBOX_ENVELOPE_BYTES)%N → (stored < expires)%N →
  stored_receipt_valid r envelope ∧ r.(stored_content).(stored_mailbox_id) = mailbox ∧
  r.(stored_content).(stored_item_id) = item ∧
  r.(stored_content).(stored_at_unix_seconds) = stored ∧
  r.(stored_content).(stored_expires_at) = expires ∧ len r.(stored_signature) = 64%N.
Proof.
  unfold stored_receipt. intros Hr He Ht. result_inv. cbn. rewrite len_arr.
  repeat split; try done; [lia|lia|apply derived_key_ok|apply made_signature_ok|].
  by destruct (signed_by_verifies secret _ _ _ E) as [_ ?].
Qed.

Definition delete_receipt_valid (r : MailboxDeleteReceipt) : Prop :=
  let c := r.(delete_content) in
  c.(delete_version) = VERSION ∧ (c.(deleted_at_unix_seconds) < c.(delete_expires_at))%N ∧
  verifying_key_ok c.(delete_store_key) = true ∧
  signature_valid c.(delete_store_key) DELETE_RECEIPT_DOMAIN c r.(delete_signature).

Lemma delete_receipt_verify_Ok r : delete_receipt_verify r = Ok tt ↔ delete_receipt_valid r.
Proof.
  unfold delete_receipt_verify, delete_receipt_valid. cbv zeta.
  rewrite rbind_unit_ok, fail_if_ok, rbind_verifying_key, verify_signature_Ok, orb_false_iff,
    negb_false_iff, bool_decide_eq_true, N.leb_gt. tauto.
Qed.

Lemma delete_receipt_made `{!Ed25519Laws _} secret mailbox item id deleted expires r :
  delete_receipt secret mailbox item id deleted expires = Ok r → (deleted < expires)%N →
  delete_receipt_valid r ∧ r.(delete_content).(delete_stored_receipt_id) = id ∧
  r.(delete_content).(delete_mailbox_id) = mailbox ∧ r.(delete_content).(delete_item_id) = item ∧
  r.(delete_content).(delete_expires_at) = expires ∧ len r.(delete_signature) = 64%N.
Proof.
  unfold delete_receipt. intros Hr Ht. result_inv. cbn. rewrite len_arr.
  repeat split; try done; [apply derived_key_ok|apply made_signature_ok|].
  by destruct (signed_by_verifies secret _ _ _ E) as [_ ?].
Qed.

(** the receipt a store makes for an envelope verifies for it, its wire
    form decodes to it, and it is good for no other envelope, unless BLAKE3
    collides on the two. *)
Theorem stored_receipt_accepted `{!Ed25519Laws _, !MailboxPostcardLaws _}
    secret mailbox item envelope stored expires r :
  stored_receipt secret mailbox item envelope stored expires = Ok r →
  validate_envelope_bytes envelope = Ok tt → (stored < expires)%N →
  stored_receipt_verify r envelope = Ok tt ∧
  (∀ bs, stored_receipt_encode r = Ok bs → bs ≠ [] →
         stored_receipt_decode_and_verify bs envelope = Ok r) ∧
  (∀ envelope', no_collision envelope envelope' →
                stored_receipt_verify r envelope' = Ok tt → envelope' = envelope).
Proof.
  intros Hr He%validate_envelope_bytes_Ok Ht.
  destruct (stored_receipt_made _ _ _ _ _ _ _ Hr He Ht) as [Hv _].
  pose proof (proj2 (stored_receipt_verify_Ok _ _) Hv) as Hok. split; [done|]. split.
  - intros bs Hbs Hne. unfold stored_receipt_encode in Hbs. result_inv.
    unfold stored_receipt_decode_and_verify. rewrite G.
    destruct (N.eqb_spec (len bs) 0) as [Hz|_]; [by destruct bs|]. cbn [orb fail_if rbind].
    rewrite (decode_encoded r) by done. cbn [ok_or rbind]. by rewrite Hok.
  - intros envelope' Hnc Hok'. apply stored_receipt_verify_Ok in Hok' as (_ & _ & _ & Hd' & _).
    destruct Hv as (_ & _ & _ & Hd & _). symmetry. apply Hnc. congruence.
Qed.

End correctness.

(** * Concrete inputs *)

Module MailboxExample.

#[local] Existing Instance Toy.blake3_instance.
#[local] Existing Instance Toy.ed25519_instance.
#[local] Existing Instance Toy.ed25519_laws.

#[export] Instance u16_codec : Codec u16.
Proof.
  refine (iso_codec (fun v : u16 => as_u64 v)
    (fun v : u64 => match Sumbool.sumbool_of_bool (uint_val v <? U16_BOUND)%N with
                    | left H => mk_uint (uint_val v) H
                    | right _ => @mk_uint U16_BOUND 0 eq_refl
                    end) _).
  intros v. pose proof (uint_lt v) as Hv.
  assert (uint_val (as_u64 (uint_val v)) = uint_val v) as E by (apply as_u64_small; lia).
  destruct (Sumbool.sumbool_of_bool _) as [Hl|Hl]; [by apply uint_eq|].
  rewrite E in Hl. apply N.ltb_ge in Hl. lia.
Defined.

#[export] Instance option_codec {A} `{Codec A} : Codec (option A).
Proof.
  refine (iso_codec (fun o : option A => match o with Some a => inl a | None => inr tt end)
    (fun s => match s with inl a => Some a | inr _ => None end) _).
  by intros [a|].
Defined.

#[export] Instance address_codec : Codec MailboxAddress.
Proof.
  by refine (iso_codec (fun a => (address_version a, (read_key a, write_key a)))
    (fun '(v, (r, w)) => Build_MailboxAddress v r w) _).
Defined.

#[export] Instance offer_content_codec : Codec MailboxStorageOfferContent.
Proof.
  refine (iso_codec (fun c => (offer_version c, (provider_endpoint c, (offer_store_key c,
      (capacity_hint_bytes c, (max_record_bytes c, (offer_issued_at c, (offer_expires_at c,
       offer_nonce c))))))))
    (fun '(v, (p, (k, (a, (m, (i, (e, n))))))) =>
       Build_MailboxStorageOfferContent v p k BoundedVolunteer a m i e n) _).
  by intros [? ? ? [] ? ? ? ? ?].
Defined.

#[export] Instance offer_codec : Codec SignedMailboxStorageOffer.
Proof.
  by refine (iso_codec (fun o => (offer_content o, offer_signature o))
    (fun '(c, s) => Build_SignedMailboxStorageOffer c s) _).
Defined.

#[export] Instance write_content_codec : Codec MailboxWriteAuthorizationContent.
Proof.
  by refine (iso_codec (fun c => (write_version c, (write_mailbox_id c, (write_item_id c,
      (write_write_key c, (requested_ttl_seconds c, (write_envelope_bytes c,
       write_envelope_digest c)))))))
    (fun '(v, (m, (i, (k, (t, (b, d)))))) =>
       Build_MailboxWriteAuthorizationContent v m i k t b d) _).
Defined.

#[export] Instance write_codec : Codec MailboxWriteAuthorization.
Proof.
  by refine (iso_codec (fun o => (write_content o, write_signature o))
    (fun '(c, s) => Build_MailboxWriteAuthorization c s) _).
Defined.

#[export] Instance operation_codec : Codec MailboxReadOperation.
Proof.
  refine (iso_codec (fun o => match o with
      | List n a l => inl (n, (a, l)) | Delete i r => inr (i, r) end)
    (fun s => match s with inl (n, (a, l)) => List n a l | inr (i, r) => Delete i r end) _).
  by intros [? ? ?|? ?].
Defined.

#[export] Instance read_content_codec : Codec MailboxReadAuthorizationContent.
Proof.
  by refine (iso_codec (fun c => (read_version c, (read_mailbox_id c, (read_read_key c, operation c))))
    (fun '(v, (m, (k, o))) => Build_MailboxReadAuthorizationContent v m k o) _).
Defined.

#[export] Instance read_codec : Codec MailboxReadAuthorization.
Proof.
  by refine (iso_codec (fun o => (read_content o, read_signature o))
    (fun '(c, s) => Build_MailboxReadAuthorization c s) _).
Defined.

#[export] Instance stored_content_codec : Codec MailboxStoredReceiptContent.
Proof.
  by refine (iso_codec (fun c => (stored_version c, (stored_store_key c, (stored_mailbox_id c,
      (stored_item_id c, (stored_envelope_bytes c, (stored_envelope_digest c,
      (stored_at_unix_seconds c, stored_expires_at c))))))))
    (fun '(v, (k, (m, (i, (b, (d, (s, e))))))) =>
       Build_MailboxStoredReceiptContent v k m i b d s e) _).
Defined.

#[export] Instance stored_codec : Codec MailboxStoredReceipt.
Proof.
  by refine (iso_codec (fun o => (stored_content o, stored_signature o))
    (fun '(c, s) => Build_MailboxStoredReceipt c s) _).
Defined.

#[export] Instance delete_content_codec : Codec MailboxDeleteReceiptContent.
Proof.
  by refine (iso_codec (fun c => (delete_version c, (delete_store_key c, (delete_mailbox_id c,
      (delete_item_id c, (delete_stored_receipt_id c, (deleted_at_unix_seconds c,
       delete_expires_at c)))))))
    (fun '(v, (k, (m, (i, (r, (d, e)))))) => Build_MailboxDeleteReceiptContent v k m i r d e) _).
Defined.

#[export] Instance delete_codec : Codec MailboxDeleteReceipt.
Proof.
  by refine (iso_codec (fun o => (delete_content o, delete_signature o))
    (fun '(c, s) => Build_MailboxDeleteReceipt c s) _).
Defined.

#[export] Instance mailbox_postcard : MailboxPostcard := {|
  pc_address := codec_postcard; pc_offer_content := codec_postcard; pc_offer := codec_postcard;
  pc_write_content := codec_postcard; pc_write := codec_postcard;
  pc_read_content := codec_postcard; pc_read := codec_postcard;
  pc_stored_content := codec_postcard; pc_stored := codec_postcard;
  pc_delete_content := codec_postcard; pc_delete := codec_postcard
|}.

#[export] Instance mailbox_postcard_laws : MailboxPostcardLaws mailbox_postcard.
Proof. split; apply codec_postcard_laws. Qed.

Definition id (k : N) : arr 32 := arr_of 32 (repeat (as_u8 k) 32).
(** Secrets of the reader, the writer and the store. *)
Definition reader : SigningKey := id 1.
Definition writer : SigningKey := id 2.
Definition store : SigningKey := id 3.
Definition address : MailboxAddress := address_new (id 1) (id 2).
Definition envelope : bytes := b_str "sealed".

Definition write_authorization : MailboxWriteAuthorization :=
  match write_capability_authorize writer address (id 7) (as_u64 60) envelope with
  | Ok a => a
  | Err _ => {| write_content := {| write_version := x00; write_mailbox_id := id 0;
                  write_item_id := id 0; write_write_key := id 0; requested_ttl_seconds := as_u64 0;
                  write_envelope_bytes := as_u64 0; write_envelope_digest := id 0 |};
                write_signature := [] |}
  end.

Lemma write_authorization_accepted_witness :
  write_authorization_verify write_authorization address envelope = Ok tt.
Proof.
  apply (write_authorization_accepted writer address (id 7) (as_u64 60) envelope write_authorization).
  vm_compute. reflexivity.
Defined.

Lemma write_authorization_binding_witness : address = address.
Proof.
  refine (proj1 (write_authorization_binding write_authorization address envelope address envelope
    _ _ (fun _ => eq_refl) (fun _ => eq_refl))); vm_compute; reflexivity.
Defined.

Definition read_authorization : MailboxReadAuthorization :=
  match authorize_list reader address (id 9) with
  | Ok a => a
  | Err _ => {| read_content := {| read_version := x00; read_mailbox_id := id 0;
                  read_read_key := id 0; operation := Delete (id 0) (id 0) |};
                read_signature := [] |}
  end.

Lemma read_authorization_accepted_witness :
  read_authorization_verify read_authorization address = Ok tt.
Proof.
  apply (read_authorization_accepted reader address (List (id 9) None MAX_MAILBOX_PAGE_ITEMS)
    read_authorization); vm_compute; reflexivity.
Defined.

Definition receipt : MailboxStoredReceipt :=
  match stored_receipt store (mailbox_id address) (id 7) envelope (as_u64 100) (as_u64 160) with
  | Ok r => r
  | Err _ => {| stored_content := {| stored_version := x00; stored_store_key := id 0;
                  stored_mailbox_id := id 0; stored_item_id := id 0;
                  stored_envelope_bytes := as_u64 0; stored_envelope_digest := id 0;
                  stored_at_unix_seconds := as_u64 0; stored_expires_at := as_u64 0 |};
                stored_signature := [] |}
  end.

Lemma stored_receipt_accepted_witness : stored_receipt_verify receipt envelope = Ok tt.
Proof.
  apply (stored_receipt_accepted store (mailbox_id address) (id 7) envelope (as_u64 100) (as_u64 160)
    receipt); vm_compute; reflexivity.
Defined.

(** The content of an offer with the random nonce [k]. *)
Definition offer_of (k : N) : MailboxStorageOfferContent := {|
  offer_version := VERSION; provider_endpoint := b_str "endpoint"; offer_store_key := store;
  policy_class := BoundedVolunteer; capacity_hint_bytes := as_u64 4096;
  max_record_bytes := as_u64 1024; offer_issued_at := as_u64 1000;
  offer_expires_at := as_u64 1060; offer_nonce := id k |}.

Lemma storage_offer_search_witness :
  storage_offer_with_admission_work store (b_str "endpoint") (as_u64 4096) (as_u64 1024)
    (as_u64 1000) (as_u64 60) (as_u8 1) (Some (id 5))
  = Ok (signed_offer store (attempt (offer_of 5) 0) (codec_enc (attempt (offer_of 5) 0))).
Proof.
  apply (storage_offer_search store (b_str "endpoint") (as_u64 4096) (as_u64 1024)
    (as_u64 1000) (as_u64 60) (as_u8 1) (Some (id 5)) (offer_of 5)
    (fun i => codec_enc (attempt (offer_of 5) i))).
  - reflexivity.
  - vm_compute. reflexivity.
  - reflexivity.
  - exists 0%N. split; [reflexivity|]. split; [vm_compute; reflexivity|].
    split; [|reflexivity]. intros j Hj. destruct (N.nlt_0_r _ Hj).
Defined.

End MailboxExample.
