(* ===== verification/MailboxStore.v ===== *)
(** The blind mailbox store: [kilogram-mailbox/src/store.rs].

    The store is a [redb] database of five tables.  An operation takes the
    store and returns its outcome with the store after it: an error inside a
    write transaction drops the transaction, so the state is the one it began
    with.  Failures of the storage device and the directory checks of [open]
    are not modelled: every table can be opened, read and written. *)

From stdpp Require Import base tactics list numbers strings gmap.
From Stdlib Require Import Strings.Byte Sorting.Sorted.
From S2P Require Import Prelude Crypto Postcard Redb Mailbox.

#[local] Set Primitive Projections.

Definition STORE_KEY : bytes := b_str "store-key".
Definition TOTAL_BYTES_KEY : bytes := b_str "total-envelope-bytes".
Definition TOTAL_ITEMS_KEY : bytes := b_str "total-live-items".
Definition RECORD_VERSION : byte := x01.
Definition ITEM_KEY_BYTES : usize := 64.
Definition MAX_ABSOLUTE_ITEMS : N := 10000000.
Definition MAX_ABSOLUTE_TOTAL_BYTES : N := 1024 * 1024 * 1024 * 1024.
Definition MAX_ABSOLUTE_ITEMS_PER_MAILBOX : N := 4096.
Definition DEFAULT_MAX_ITEMS_PER_MAILBOX : u64 := as_u64 128.
Definition DEFAULT_MAX_TOTAL_ITEMS : u64 := as_u64 100000.
Definition DEFAULT_MAX_TOTAL_BYTES : u64 := as_u64 (1024 * 1024 * 1024).

(** * Data *)

(** [anyhow::Error]: an [ensure!] or [bail!] message, or the error of a callee
    with its context. *)
Inductive StoreError :=
| Message (message : string)
| OfMailbox (source : MailboxError)
| OfPostcard
| WithContext (context : string) (source : StoreError).

Definition with_context {A} (context : string) (r : result StoreError A) : result StoreError A :=
  map_err (WithContext context) r.

Definition of_mailbox {A} (r : result MailboxError A) : result StoreError A := map_err OfMailbox r.

(** [ensure!(condition, message)]. *)
Definition ensure (condition : bool) (message : string) : result StoreError unit :=
  fail_if (negb condition) (Message message).

Record MailboxStoreConfig := {
  data_dir : string;
  max_envelope_bytes : u64;
  max_items_per_mailbox : u64;
  max_total_items : u64;
  max_total_bytes : u64
}.

Record StoredRecord := {
  record_version : byte;
  record_ttl_seconds : u64;
  record_envelope : bytes;
  record_receipt : MailboxStoredReceipt
}.

Record StoredTombstone := {
  tombstone_version : byte;
  tombstone_stored_receipt_id : MailboxReceiptId;
  tombstone_delete_receipt : MailboxDeleteReceipt
}.

Inductive MailboxPutOutcome :=
| Created (receipt : MailboxStoredReceipt)
| AlreadyPresent (receipt : MailboxStoredReceipt)
| Conflict
| Tombstoned
| CapacityExceeded.

Record StoredMailboxItem := {
  item_item_id : MailboxItemId;
  item_expires_at : u64;
  item_envelope : bytes;
  item_receipt : MailboxStoredReceipt
}.

Record StoredMailboxPage := {
  page_items : list StoredMailboxItem;
  next_after_item_id : option MailboxItemId;
  more_available : bool
}.

Inductive DeleteOutcome :=
| Deleted (receipt : MailboxDeleteReceipt)
| AlreadyDeleted (receipt : MailboxDeleteReceipt)
| Absent
| ReceiptMismatch
| TombstoneCapacityExceeded.

Record CleanupReport := {
  removed_items : u64;
  removed_tombstones : u64;
  live_items : u64;
  live_envelope_bytes : u64
}.

Definition is_Created (outcome : MailboxPutOutcome) : bool :=
  match outcome with Created _ => true | _ => false end.

(** [postcard] at the types of the rows. *)
Class StorePostcard := {
  pc_record :: Postcard StoredRecord;
  pc_tombstone :: Postcard StoredTombstone
}.

(** Rows read back, and the fixed fields of receipts and rows take less than
    256 bytes: the [postcard] format writes a byte in one byte, a byte array as it is, and a
    [u64] or the length of a vector in at most ten bytes. *)
Class StorePostcardLaws (M : MailboxPostcard) (P : StorePostcard) : Prop := {
  pl_mailbox :: MailboxPostcardLaws M;
  pl_record :: PostcardLaws StoredRecord;
  pl_tombstone :: PostcardLaws StoredTombstone;
  receipt_size (r : MailboxStoredReceipt) bs :
    to_allocvec r = Some bs → (len r.(stored_signature) < U64_BOUND)%N →
    (len bs <= len r.(stored_signature) + 256)%N;
  record_size r bs :
    to_allocvec r = Some bs → (len r.(record_envelope) < U64_BOUND)%N →
    (len r.(record_receipt).(stored_signature) < U64_BOUND)%N →
    (len bs <= len r.(record_envelope) + len r.(record_receipt).(stored_signature) + 256)%N;
  tombstone_size t bs :
    to_allocvec t = Some bs → (len t.(tombstone_delete_receipt).(delete_signature) < U64_BOUND)%N →
    (len bs <= len t.(tombstone_delete_receipt).(delete_signature) + 256)%N
}.

(** * Operations *)

Section operations.
Context `{Blake3, Ed25519, MailboxPostcard, StorePostcard, Redb}.

(** The tables of the database; [&str] keys are their bytes. *)
Record Database := {
  ITEM_TABLE : table bytes bytes;
  TOMBSTONE_TABLE : table bytes bytes;
  MAILBOX_COUNT_TABLE : table bytes u64;
  META_TABLE : table bytes u64;
  IDENTITY_TABLE : table bytes bytes
}.

Record BlindMailboxStore := {
  database : Database;
  identity : SigningKey;
  config : MailboxStoreConfig
}.

(** [Database::create] on a missing file. *)
Definition Database_create : Database :=
  {| ITEM_TABLE := table_new; TOMBSTONE_TABLE := table_new; MAILBOX_COUNT_TABLE := table_new;
     META_TABLE := table_new; IDENTITY_TABLE := table_new |}.

Definition set_items (t : table bytes bytes) (db : Database) : Database :=
  {| ITEM_TABLE := t; TOMBSTONE_TABLE := db.(TOMBSTONE_TABLE);
     MAILBOX_COUNT_TABLE := db.(MAILBOX_COUNT_TABLE); META_TABLE := db.(META_TABLE);
     IDENTITY_TABLE := db.(IDENTITY_TABLE) |}.
Definition set_tombstones (t : table bytes bytes) (db : Database) : Database :=
  {| ITEM_TABLE := db.(ITEM_TABLE); TOMBSTONE_TABLE := t;
     MAILBOX_COUNT_TABLE := db.(MAILBOX_COUNT_TABLE); META_TABLE := db.(META_TABLE);
     IDENTITY_TABLE := db.(IDENTITY_TABLE) |}.
Definition set_counts (t : table bytes u64) (db : Database) : Database :=
  {| ITEM_TABLE := db.(ITEM_TABLE); TOMBSTONE_TABLE := db.(TOMBSTONE_TABLE);
     MAILBOX_COUNT_TABLE := t; META_TABLE := db.(META_TABLE);
     IDENTITY_TABLE := db.(IDENTITY_TABLE) |}.
Definition set_meta (t : table bytes u64) (db : Database) : Database :=
  {| ITEM_TABLE := db.(ITEM_TABLE); TOMBSTONE_TABLE := db.(TOMBSTONE_TABLE);
     MAILBOX_COUNT_TABLE := db.(MAILBOX_COUNT_TABLE); META_TABLE := t;
     IDENTITY_TABLE := db.(IDENTITY_TABLE) |}.
Definition set_identity (t : table bytes bytes) (db : Database) : Database :=
  {| ITEM_TABLE := db.(ITEM_TABLE); TOMBSTONE_TABLE := db.(TOMBSTONE_TABLE);
     MAILBOX_COUNT_TABLE := db.(MAILBOX_COUNT_TABLE); META_TABLE := db.(META_TABLE);
     IDENTITY_TABLE := t |}.
Definition set_database (db : Database) (self : BlindMailboxStore) : BlindMailboxStore :=
  {| database := db; identity := self.(identity); config := self.(config) |}.

(** [begin_write] ... [commit]: an error drops the transaction. *)
Definition transaction {A} (body : Database → result StoreError (A * Database))
  (self : BlindMailboxStore) : result StoreError A * BlindMailboxStore :=
  match body self.(database) with
  | Ok (a, db) => (Ok a, set_database db self)
  | Err e => (Err e, self)
  end.

(** ** Configuration *)

Definition config_new (data_dir : string) : MailboxStoreConfig :=
  {| data_dir := data_dir;
     max_envelope_bytes := as_u64 MAX_MAILBOX_ENVELOPE_BYTES;
     max_items_per_mailbox := DEFAULT_MAX_ITEMS_PER_MAILBOX;
     max_total_items := DEFAULT_MAX_TOTAL_ITEMS;
     max_total_bytes := DEFAULT_MAX_TOTAL_BYTES |}.

Definition config_validate (self : MailboxStoreConfig) : result StoreError unit :=
  ensure (negb (String.eqb self.(data_dir) EmptyString)) "mailbox data directory is empty" ;?
  ensure (between 1 MAX_MAILBOX_ENVELOPE_BYTES self.(max_envelope_bytes))
    "mailbox envelope limit is outside protocol bounds" ;?
  ensure (between 1 MAX_ABSOLUTE_ITEMS_PER_MAILBOX self.(max_items_per_mailbox))
    "mailbox per-address item limit is invalid" ;?
  ensure (between self.(max_items_per_mailbox) MAX_ABSOLUTE_ITEMS self.(max_total_items))
    "mailbox total item limit is invalid" ;?
  ensure (between self.(max_envelope_bytes) MAX_ABSOLUTE_TOTAL_BYTES self.(max_total_bytes))
    "mailbox total byte limit is invalid".

(** ** Rows *)

Definition record_validate (self : StoredRecord) : result StoreError unit :=
  let content := self.(record_receipt).(stored_content) in
  ensure (bool_decide (self.(record_version) = RECORD_VERSION))
    "unsupported mailbox record version" ;?
  ensure (between MIN_MAILBOX_TTL_SECONDS MAX_MAILBOX_TTL_SECONDS self.(record_ttl_seconds))
    "stored mailbox TTL is invalid" ;?
  ensure (negb (len self.(record_envelope) =? 0)%N
          && (len self.(record_envelope) <=? MAX_MAILBOX_ENVELOPE_BYTES)%N)
    "stored mailbox envelope is invalid" ;?
  with_context "verify stored mailbox receipt"
    (of_mailbox (stored_receipt_verify self.(record_receipt) self.(record_envelope))) ;?
  ensure (u64_eqb (u64_saturating_sub content.(stored_expires_at) content.(stored_at_unix_seconds))
            self.(record_ttl_seconds))
    "stored mailbox receipt TTL mismatch".

Definition record_new (requested_ttl_seconds : u64) (envelope : bytes)
  (receipt : MailboxStoredReceipt) : result StoreError StoredRecord :=
  let record := {|
    record_version := RECORD_VERSION;
    record_ttl_seconds := requested_ttl_seconds;
    record_envelope := envelope;
    record_receipt := receipt
  |} in
  record_validate record ;?
  Ok record.

Definition record_encode (self : StoredRecord) : result StoreError bytes :=
  record_validate self ;?
  with_context "encode mailbox record" (ok_or (to_allocvec self) OfPostcard).

Definition record_decode (bs : bytes) : result StoreError StoredRecord :=
  ensure (len bs <=? MAX_MAILBOX_ENVELOPE_BYTES + 2048)%N "mailbox record is too large" ;?
  let? record := with_context "decode mailbox record" (ok_or (from_bytes bs) OfPostcard) in
  record_validate record ;?
  Ok record.

Definition record_expires_at (self : StoredRecord) : u64 :=
  self.(record_receipt).(stored_content).(stored_expires_at).

Definition record_expired_at (self : StoredRecord) (now : u64) : bool :=
  (record_expires_at self <=? now)%N.

Definition tombstone_validate (self : StoredTombstone) : result StoreError unit :=
  ensure (bool_decide (self.(tombstone_version) = RECORD_VERSION))
    "unsupported mailbox tombstone version" ;?
  with_context "verify mailbox delete receipt"
    (of_mailbox (delete_receipt_verify self.(tombstone_delete_receipt))) ;?
  ensure (bool_decide (self.(tombstone_delete_receipt).(delete_content).(delete_stored_receipt_id)
                       = self.(tombstone_stored_receipt_id)))
    "mailbox tombstone receipt mismatch".

Definition tombstone_encode (self : StoredTombstone) : result StoreError bytes :=
  tombstone_validate self ;?
  with_context "encode mailbox tombstone" (ok_or (to_allocvec self) OfPostcard).

Definition tombstone_decode (bs : bytes) : result StoreError StoredTombstone :=
  ensure (len bs <=? 2048)%N "mailbox tombstone is too large" ;?
  let? tombstone := with_context "decode mailbox tombstone" (ok_or (from_bytes bs) OfPostcard) in
  tombstone_validate tombstone ;?
  Ok tombstone.

Definition tombstone_expires_at (self : StoredTombstone) : u64 :=
  self.(tombstone_delete_receipt).(delete_content).(delete_expires_at).

Definition tombstone_expired_at (self : StoredTombstone) (now : u64) : bool :=
  (tombstone_expires_at self <=? now)%N.

(** ** Keys and accounting *)

Definition item_key (mailbox_id : MailboxId) (item_id : MailboxItemId) : bytes :=
  arr_bytes mailbox_id ++ arr_bytes item_id.

(** [map_or(0, |value| value.value())]. *)
Definition value_or_zero (o : option u64) : u64 := match o with Some v => v | None => as_u64 0 end.

(** The total items and bytes. *)
Definition read_meta (db : Database) : u64 * u64 :=
  (value_or_zero (table_get TOTAL_ITEMS_KEY db.(META_TABLE)),
   value_or_zero (table_get TOTAL_BYTES_KEY db.(META_TABLE))).

Definition write_meta (items bytes : u64) (db : Database) : Database :=
  set_meta (db.(META_TABLE) |> table_insert TOTAL_ITEMS_KEY items
                            |> table_insert TOTAL_BYTES_KEY bytes) db.

Definition read_mailbox_count (mailbox_id : MailboxId) (db : Database) : u64 :=
  value_or_zero (table_get (arr_bytes mailbox_id) db.(MAILBOX_COUNT_TABLE)).

Definition write_mailbox_count (mailbox_id : MailboxId) (count : u64) (db : Database) : Database :=
  set_counts (if (count =? 0)%N then table_remove (arr_bytes mailbox_id) db.(MAILBOX_COUNT_TABLE)
              else table_insert (arr_bytes mailbox_id) count db.(MAILBOX_COUNT_TABLE)) db.

Definition live_usage (self : BlindMailboxStore) : u64 * u64 := read_meta self.(database).

(** ** Opening *)

Definition init_accounting (key : bytes) (db : Database) : Database :=
  match table_get key db.(META_TABLE) with
  | None => set_meta (table_insert key (as_u64 0) db.(META_TABLE)) db
  | Some _ => db
  end.

Definition open_initialize (identity : SigningKey) (db : Database) : result StoreError Database :=
  let db := init_accounting TOTAL_ITEMS_KEY (init_accounting TOTAL_BYTES_KEY db) in
  let expected := verifying_key_of identity in
  match table_get STORE_KEY db.(IDENTITY_TABLE) with
  | Some current =>
      ensure (bool_decide (current = arr_bytes expected))
        "mailbox store identity does not match existing database" ;?
      Ok db
  | None => Ok (set_identity (table_insert STORE_KEY (arr_bytes expected) db.(IDENTITY_TABLE)) db)
  end.

(** The database found in the directory, and the database left there. *)
Definition open (config : MailboxStoreConfig) (identity : SigningKey) (db : Database)
  : result StoreError BlindMailboxStore * Database :=
  match config_validate config with
  | Err e => (Err e, db)
  | Ok _ =>
      match open_initialize identity db with
      | Err e => (Err e, db)
      | Ok db =>
          let store := {| database := db; identity := identity; config := config |} in
          let '(items, bytes) := live_usage store in
          if ((items <=? config.(max_total_items)) && (bytes <=? config.(max_total_bytes)))%N
          then (Ok store, db)
          else (Err (Message "existing mailbox data exceeds configured capacity"), db)
      end
  end.

Definition store_storage_offer (self : BlindMailboxStore) (provider_endpoint : bytes)
  (issued_at_unix_seconds validity_seconds : u64) (entropy : option (arr 32))
  : result StoreError SignedMailboxStorageOffer :=
  with_context "create admission-work-qualified mailbox storage offer"
    (of_mailbox (storage_offer_with_admission_work self.(identity) provider_endpoint
      self.(config).(max_total_bytes) self.(config).(max_envelope_bytes)
      issued_at_unix_seconds validity_seconds
      DEFAULT_MAILBOX_STORAGE_OFFER_ADMISSION_WORK_BITS entropy)).

(** ** Put *)

(** The part of the transaction after the key was found free: the expired item
    is dropped, and the candidate is stored if it fits. *)
Definition put_insert (config : MailboxStoreConfig) (mailbox_id : MailboxId) (key : bytes)
  (candidate : StoredRecord) (current_bytes : option bytes) (db : Database)
  : result StoreError (MailboxPutOutcome * Database) :=
  let '(total_items, total_bytes) := read_meta db in
  let mailbox_count := read_mailbox_count mailbox_id db in
  let? (db, total_items, total_bytes, mailbox_count) :=
    match current_bytes with
    | Some current_bytes =>
        let? current := record_decode current_bytes in
        Ok (set_items (table_remove key db.(ITEM_TABLE)) db,
            u64_saturating_sub total_items (as_u64 1),
            u64_saturating_sub total_bytes (as_u64 (len current.(record_envelope))),
            u64_saturating_sub mailbox_count (as_u64 1))
    | None => Ok (db, total_items, total_bytes, mailbox_count)
    end in
  let envelope_len := as_u64 (len candidate.(record_envelope)) in
  if ((config.(max_total_items) <=? total_items)
      || (config.(max_items_per_mailbox) <=? mailbox_count)
      || (config.(max_total_bytes) <? u64_saturating_add total_bytes envelope_len))%N
  then Ok (CapacityExceeded, db)
  else
    let? encoded := record_encode candidate in
    let db := set_items (table_insert key encoded db.(ITEM_TABLE)) db in
    let db := write_mailbox_count mailbox_id (u64_wrapping_add mailbox_count (as_u64 1)) db in
    let db := write_meta (u64_wrapping_add total_items (as_u64 1))
                (u64_saturating_add total_bytes envelope_len) db in
    Ok (Created candidate.(record_receipt), db).

Definition put_transaction (config : MailboxStoreConfig) (mailbox_id : MailboxId) (key : bytes)
  (candidate : StoredRecord) (now_unix_seconds : u64) (db : Database)
  : result StoreError (MailboxPutOutcome * Database) :=
  let current_bytes := table_get key db.(ITEM_TABLE) in
  let? live :=
    match current_bytes with
    | Some current_bytes =>
        let? current := record_decode current_bytes in
        Ok (if negb (record_expired_at current now_unix_seconds)
            then Some (if u64_eqb current.(record_ttl_seconds) candidate.(record_ttl_seconds)
                          && bool_decide (current.(record_envelope) = candidate.(record_envelope))
                       then AlreadyPresent current.(record_receipt) else Conflict)
            else None)
    | None => Ok None
    end in
  match live with
  | Some outcome => Ok (outcome, db)
  | None =>
      match table_get key db.(TOMBSTONE_TABLE) with
      | Some tombstone_bytes =>
          let? tombstone := tombstone_decode tombstone_bytes in
          if negb (tombstone_expired_at tombstone now_unix_seconds) then Ok (Tombstoned, db)
          else put_insert config mailbox_id key candidate current_bytes
                 (set_tombstones (table_remove key db.(TOMBSTONE_TABLE)) db)
      | None => put_insert config mailbox_id key candidate current_bytes db
      end
  end.

(** The checks before the transaction: the key and the candidate record. *)
Definition put_candidate (self : BlindMailboxStore) (address : MailboxAddress)
  (authorization : MailboxWriteAuthorization) (envelope : bytes) (now_unix_seconds : u64)
  : result StoreError (bytes * StoredRecord) :=
  with_context "verify mailbox write authorization"
    (of_mailbox (write_authorization_verify authorization address envelope)) ;?
  ensure (len envelope <=? self.(config).(max_envelope_bytes))%N
    "mailbox envelope exceeds configured limit" ;?
  let ttl := authorization.(write_content).(requested_ttl_seconds) in
  let? expires := ok_or (u64_checked_add now_unix_seconds ttl) (Message "mailbox expiry overflow") in
  let item_id := authorization.(write_content).(write_item_id) in
  let key := item_key (mailbox_id address) item_id in
  let? receipt := of_mailbox (stored_receipt self.(identity) (mailbox_id address) item_id envelope
    now_unix_seconds expires) in
  let? candidate := record_new ttl envelope receipt in
  Ok (key, candidate).

Definition put (self : BlindMailboxStore) (address : MailboxAddress)
  (authorization : MailboxWriteAuthorization) (envelope : bytes) (now_unix_seconds : u64)
  : result StoreError MailboxPutOutcome * BlindMailboxStore :=
  match put_candidate self address authorization envelope now_unix_seconds with
  | Err e => (Err e, self)
  | Ok (key, candidate) =>
      transaction (put_transaction self.(config) (mailbox_id address) key candidate now_unix_seconds)
        self
  end.

(** ** Cleanup *)

(** What the [retain] closure over the items accumulates. *)
Record cleanup_usage := {
  usage_items : u64;
  usage_bytes : u64;
  mailbox_counts : gmap (arr 32) u64
}.

Definition cleanup_item (now_unix_seconds : u64) (key value : bytes) (usage : cleanup_usage)
  : bool * cleanup_usage :=
  let record := record_decode value in
  let retain := (len key =? ITEM_KEY_BYTES)%N
    && match record with
       | Ok record => negb (record_expired_at record now_unix_seconds)
       | Err _ => false
       end in
  let usage :=
    if retain then
      let mailbox := arr_of 32 (take 32 key) in
      match record with
      | Ok record =>
          {| usage_items := u64_saturating_add usage.(usage_items) (as_u64 1);
             usage_bytes := u64_saturating_add usage.(usage_bytes)
                              (as_u64 (len record.(record_envelope)));
             mailbox_counts :=
               <[mailbox := u64_saturating_add (value_or_zero (usage.(mailbox_counts) !! mailbox))
                              (as_u64 1)]> usage.(mailbox_counts) |}
      | Err _ => usage
      end
    else usage in
  (retain, usage).

Definition cleanup_tombstone (now_unix_seconds : u64) (key value : bytes) (s : unit) : bool * unit :=
  ((len key =? ITEM_KEY_BYTES)%N
   && match tombstone_decode value with
      | Ok tombstone => negb (tombstone_expired_at tombstone now_unix_seconds)
      | Err _ => false
      end, s).

(** [for (mailbox, count) in mailbox_counts]. *)
Definition rebuild_counts (counts : gmap (arr 32) u64) (t : table bytes u64) : table bytes u64 :=
  fold_left (fun t entry => table_insert (arr_bytes (fst entry)) (snd entry) t)
    (map_to_list counts) t.

Definition cleanup_database (now_unix_seconds : u64) (db : Database) : CleanupReport * Database :=
  let before := table_len db.(ITEM_TABLE) in
  let '(items, usage) := table_retain (cleanup_item now_unix_seconds) db.(ITEM_TABLE)
    {| usage_items := as_u64 0; usage_bytes := as_u64 0; mailbox_counts := ∅ |} in
  let removed_items := u64_saturating_sub before (table_len items) in
  let before := table_len db.(TOMBSTONE_TABLE) in
  let '(tombstones, _) :=
    table_retain (cleanup_tombstone now_unix_seconds) db.(TOMBSTONE_TABLE) tt in
  let removed_tombstones := u64_saturating_sub before (table_len tombstones) in
  let '(counts, _) := table_retain (fun _ _ s => (false, s)) db.(MAILBOX_COUNT_TABLE) tt in
  let counts := rebuild_counts usage.(mailbox_counts) counts in
  let db := db |> set_items items |> set_tombstones tombstones |> set_counts counts
               |> write_meta usage.(usage_items) usage.(usage_bytes) in
  ({| removed_items := removed_items;
      removed_tombstones := removed_tombstones;
      live_items := usage.(usage_items);
      live_envelope_bytes := usage.(usage_bytes) |}, db).

Definition cleanup (self : BlindMailboxStore) (now_unix_seconds : u64)
  : CleanupReport * BlindMailboxStore :=
  let '(report, db) := cleanup_database now_unix_seconds self.(database) in
  (report, set_database db self).

(** ** List *)

(** The loop over the item table; [items] are the items found so far. *)
Fixpoint list_rows (mailbox_id : MailboxId) (after_item_id : option MailboxItemId) (limit : u16)
  (rows : list (bytes * bytes)) (items : list StoredMailboxItem)
  : result StoreError (list StoredMailboxItem) :=
  match rows with
  | [] => Ok items
  | (key, value) :: rows =>
      if negb (len key =? ITEM_KEY_BYTES)%N
         || negb (bool_decide (take 32 key = arr_bytes mailbox_id))
      then list_rows mailbox_id after_item_id limit rows items
      else
        let item_id := arr_of 32 (drop 32 key) in
        if match after_item_id with Some after => ord_geb after item_id | None => false end
        then list_rows mailbox_id after_item_id limit rows items
        else
          let? record := record_decode value in
          ensure (bool_decide (record.(record_receipt).(stored_content).(stored_mailbox_id)
                               = mailbox_id)
                  && bool_decide (record.(record_receipt).(stored_content).(stored_item_id)
                                  = item_id))
            "mailbox record key does not match signed receipt" ;?
          let items := items ++ [{|
            item_item_id := item_id;
            item_expires_at := record_expires_at record;
            item_envelope := record.(record_envelope);
            item_receipt := record.(record_receipt)
          |}] in
          if (limit <? len items)%N then Ok items
          else list_rows mailbox_id after_item_id limit rows items
  end.

Definition list_page (self : BlindMailboxStore) (address : MailboxAddress)
  (authorization : MailboxReadAuthorization) (now_unix_seconds : u64)
  : result StoreError StoredMailboxPage * BlindMailboxStore :=
  match with_context "verify mailbox list authorization"
          (of_mailbox (read_authorization_verify authorization address)) with
  | Err e => (Err e, self)
  | Ok _ =>
      match authorization.(read_content).(operation) with
      | Delete _ _ => (Err (Message "mailbox read authorization is not a list operation"), self)
      | List _ after_item_id limit =>
          let '(_, self) := cleanup self now_unix_seconds in
          let page :=
            let? items := list_rows (mailbox_id address) after_item_id limit
              (table_iter self.(database).(ITEM_TABLE)) [] in
            let more_available := (limit <? len items)%N in
            let items := if more_available then take (N.to_nat limit) items else items in
            let next_after_item_id :=
              if more_available then option_map item_item_id (last items) else None in
            Ok {| page_items := items;
                  next_after_item_id := next_after_item_id;
                  more_available := more_available |} in
          (page, self)
      end
  end.

Definition list_items (self : BlindMailboxStore) (address : MailboxAddress)
  (authorization : MailboxReadAuthorization) (now_unix_seconds : u64)
  : result StoreError (list StoredMailboxItem) * BlindMailboxStore :=
  let '(page, self) := list_page self address authorization now_unix_seconds in
  ((let? page := page in Ok page.(page_items)), self).

(** ** Delete *)

Definition delete_transaction (self : BlindMailboxStore) (mailbox_id : MailboxId)
  (item_id : MailboxItemId) (receipt_id : MailboxReceiptId) (now_unix_seconds : u64) (db : Database)
  : result StoreError (DeleteOutcome * Database) :=
  let key := item_key mailbox_id item_id in
  match table_get key db.(ITEM_TABLE) with
  | Some current_bytes =>
      let? current := record_decode current_bytes in
      let? current_id := of_mailbox (stored_receipt_id current.(record_receipt)) in
      if negb (bool_decide (current_id = receipt_id)) then Ok (ReceiptMismatch, db) else
      if (self.(config).(max_total_items) <=? table_len db.(TOMBSTONE_TABLE))%N
      then Ok (TombstoneCapacityExceeded, db) else
      let? receipt := of_mailbox (delete_receipt self.(identity) mailbox_id item_id receipt_id
        now_unix_seconds (record_expires_at current)) in
      let tombstone := {|
        tombstone_version := RECORD_VERSION;
        tombstone_stored_receipt_id := receipt_id;
        tombstone_delete_receipt := receipt
      |} in
      let? encoded_tombstone := tombstone_encode tombstone in
      let db := set_items (table_remove key db.(ITEM_TABLE)) db in
      let db := set_tombstones (table_insert key encoded_tombstone db.(TOMBSTONE_TABLE)) db in
      let '(total_items, total_bytes) := read_meta db in
      let db := write_meta (u64_saturating_sub total_items (as_u64 1))
        (u64_saturating_sub total_bytes (as_u64 (len current.(record_envelope)))) db in
      let mailbox_count := read_mailbox_count mailbox_id db in
      let db := write_mailbox_count mailbox_id (u64_saturating_sub mailbox_count (as_u64 1)) db in
      Ok (Deleted receipt, db)
  | None =>
      let? tombstone :=
        match table_get key db.(TOMBSTONE_TABLE) with
        | Some value => let? tombstone := tombstone_decode value in Ok (Some tombstone)
        | None => Ok None
        end in
      Ok (match tombstone with
          | Some tombstone =>
              if bool_decide (tombstone.(tombstone_stored_receipt_id) = receipt_id)
              then AlreadyDeleted tombstone.(tombstone_delete_receipt)
              else ReceiptMismatch
          | None => Absent
          end, db)
  end.

Definition delete (self : BlindMailboxStore) (address : MailboxAddress)
  (authorization : MailboxReadAuthorization) (now_unix_seconds : u64)
  : result StoreError DeleteOutcome * BlindMailboxStore :=
  match with_context "verify mailbox delete authorization"
          (of_mailbox (read_authorization_verify authorization address)) with
  | Err e => (Err e, self)
  | Ok _ =>
      match authorization.(read_content).(operation) with
      | List _ _ _ => (Err (Message "mailbox read authorization is not a delete operation"), self)
      | Delete item_id receipt_id =>
          let '(_, self) := cleanup self now_unix_seconds in
          transaction
            (delete_transaction self (mailbox_id address) item_id receipt_id now_unix_seconds) self
      end
  end.

End operations.
