(* ===== verification/MailboxStoreFacts.v ===== *)
(** Correctness of the blind mailbox store of [MailboxStore].

    [live] and [buried] are the abstract store: what a key holds at a time.
    [store_ok] is the invariant of every [reachable] store; [put_spec],
    [delete_spec] and [list_page_spec] refine the operations to the abstract
    store, and the accounting lemmas relate the counters to the rows. *)

From stdpp Require Import base tactics list numbers strings gmap.
From Stdlib Require Import Strings.Byte Sorting.Sorted.
From S2P Require Import Prelude Crypto Postcard Redb Mailbox MailboxStore.

(** * The rows the store writes *)

Section rows.
Context `{HB : Blake3} `{HE : Ed25519} `{HM : MailboxPostcard} `{HS : StorePostcard}.
Context `{!Ed25519Laws HE, !StorePostcardLaws HM HS}.

Lemma ensure_Ok b message : ensure b message = Ok tt ↔ b = true.
Proof. unfold ensure. by rewrite fail_if_ok, negb_false_iff. Qed.

Lemma of_mailbox_Ok {A} (r : result MailboxError A) a : of_mailbox r = Ok a ↔ r = Ok a.
Proof. apply map_err_ok. Qed.

Lemma with_context_Ok {A} context (r : result StoreError A) a :
  with_context context r = Ok a ↔ r = Ok a.
Proof. apply map_err_ok. Qed.

(** A stored record in terms of its receipt. *)
Definition record_valid (r : StoredRecord) : Prop :=
  let c := r.(record_receipt).(stored_content) in
  r.(record_version) = RECORD_VERSION ∧
  (MIN_MAILBOX_TTL_SECONDS <= r.(record_ttl_seconds) <= MAX_MAILBOX_TTL_SECONDS)%N ∧
  stored_receipt_valid r.(record_receipt) r.(record_envelope) ∧
  u64_saturating_sub c.(stored_expires_at) c.(stored_at_unix_seconds) = r.(record_ttl_seconds).

Lemma record_validate_Ok r : record_validate r = Ok tt ↔ record_valid r.
Proof.
  unfold record_validate, record_valid. cbv zeta.
  rewrite !rbind_unit_ok, !ensure_Ok, with_context_Ok, of_mailbox_Ok, stored_receipt_verify_Ok,
    bool_decide_eq_true, between_true, u64_eqb_eq, andb_true_iff, negb_true_iff, N.eqb_neq, N.leb_le.
  split; [tauto|]. intros (Hv & Ht & Hr & He). pose proof Hr as ([Hl Hl'] & _).
  split; [done|]. split; [done|]. split; [split; [lia|done]|done].
Qed.

Lemma record_decode_valid bs r : record_decode bs = Ok r → record_valid r.
Proof. unfold record_decode. intros Hd. result_inv. by apply record_validate_Ok. Qed.

(** What [record_encode] writes reads back. *)
Lemma record_encode_decode r bs :
  record_valid r → len r.(record_receipt).(stored_signature) = 64%N →
  to_allocvec r = Some bs → record_decode bs = Ok r.
Proof.
  intros Hv Hs He. pose proof Hv as (_ & _ & (Hl & _) & _). unfold MAX_MAILBOX_ENVELOPE_BYTES in Hl.
  pose proof (record_size r bs He ltac:(lia) ltac:(lia)) as Hb.
  unfold record_decode. rewrite (proj2 (ensure_Ok _ _)).
  - cbn [rbind]. rewrite (decode_encoded r) by done. cbn [ok_or with_context map_err rbind].
    by rewrite (proj2 (record_validate_Ok r)).
  - apply N.leb_le. unfold MAX_MAILBOX_ENVELOPE_BYTES. lia.
Qed.

Lemma record_encode_Ok r : record_valid r → ∃ bs, record_encode r = Ok bs ∧ to_allocvec r = Some bs.
Proof.
  intros Hv. destruct (postcard_total r) as [bs He]. exists bs. split; [|done].
  unfold record_encode. rewrite (proj2 (record_validate_Ok r)) by done. cbn [rbind]. by rewrite He.
Qed.

Definition tombstone_valid (t : StoredTombstone) : Prop :=
  t.(tombstone_version) = RECORD_VERSION ∧ delete_receipt_valid t.(tombstone_delete_receipt) ∧
  t.(tombstone_delete_receipt).(delete_content).(delete_stored_receipt_id)
    = t.(tombstone_stored_receipt_id).

Lemma tombstone_validate_Ok t : tombstone_validate t = Ok tt ↔ tombstone_valid t.
Proof.
  unfold tombstone_validate, tombstone_valid.
  by rewrite !rbind_unit_ok, !ensure_Ok, with_context_Ok, of_mailbox_Ok, delete_receipt_verify_Ok,
    !bool_decide_eq_true.
Qed.

Lemma tombstone_encode_decode t :
  tombstone_valid t → len t.(tombstone_delete_receipt).(delete_signature) = 64%N →
  ∃ bs, tombstone_encode t = Ok bs ∧ tombstone_decode bs = Ok t.
Proof.
  intros Hv Hs. destruct (postcard_total t) as [bs He]. exists bs.
  pose proof (tombstone_size t bs He ltac:(lia)) as Hb.
  unfold tombstone_encode, tombstone_decode.
  rewrite (proj2 (tombstone_validate_Ok t)), (proj2 (ensure_Ok _ _)); [|apply N.leb_le; lia|done].
  cbn [rbind]. rewrite He, (decode_encoded t) by done. cbn [ok_or with_context map_err rbind].
  by rewrite (proj2 (tombstone_validate_Ok t)).
Qed.

(** A receipt with a 64-byte signature has an identifier. *)
Lemma stored_receipt_id_Ok r envelope :
  stored_receipt_valid r envelope → len r.(stored_signature) = 64%N →
  ∃ id, stored_receipt_id r = Ok id.
Proof.
  intros Hv Hs. destruct (postcard_total r) as [bs He].
  pose proof (receipt_size r bs He ltac:(lia)) as Hb.
  exists (blake3 (RECEIPT_ID_DOMAIN ++ bs)). unfold stored_receipt_id, stored_receipt_encode.
  rewrite (stored_receipt_verify_signature_Ok r envelope) by done. cbn [rbind].
  rewrite He. cbn [ok_or rbind].
  rewrite (proj2 (fail_if_ok _ _)); [done|]. apply N.ltb_ge. unfold MAX_RECEIPT_BYTES. lia.
Qed.

Lemma item_key_inj m i m' i' : item_key m i = item_key m' i' → m = m' ∧ i = i'.
Proof.
  unfold item_key. intros E. by apply app_inj_1 in E as [?%arr_eq ?%arr_eq]; [|rewrite !arr_length].
Qed.

Lemma item_key_len m i : len (item_key m i) = ITEM_KEY_BYTES.
Proof. unfold item_key. by rewrite len_app, !len_arr. Qed.

Lemma item_key_take m i : take 32 (item_key m i) = arr_bytes m.
Proof. unfold item_key. apply take_app_length'. by rewrite arr_length. Qed.

Lemma item_key_drop m i : drop 32 (item_key m i) = arr_bytes i.
Proof. unfold item_key. apply drop_app_length'. by rewrite arr_length. Qed.

Lemma arr_of_arr {n} (a : arr n) : arr_of n (arr_bytes a) = a.
Proof. unfold arr_of. by rewrite arr_try_from_bytes. Qed.

(** The row of an item the store made. *)
Definition item_row (k v : bytes) : Prop :=
  ∃ m i r, k = item_key m i ∧ record_decode v = Ok r ∧
    r.(record_receipt).(stored_content).(stored_mailbox_id) = m ∧
    r.(record_receipt).(stored_content).(stored_item_id) = i ∧
    len r.(record_receipt).(stored_signature) = 64%N.

Definition tombstone_row (k v : bytes) : Prop :=
  ∃ m i t, k = item_key m i ∧ tombstone_decode v = Ok t.

End rows.

(** * Accounting *)

Definition sumN (l : list N) : N := fold_right N.add 0%N l.

Lemma sumN_perm l l' : l ≡ₚ l' → sumN l = sumN l'.
Proof. unfold sumN. induction 1; cbn; lia. Qed.

Lemma filter_perm {A} (p : A → bool) l l' : l ≡ₚ l' → List.filter p l ≡ₚ List.filter p l'.
Proof.
  induction 1 as [|x l l' _ IH|x y l|]; cbn; [done| | |by etrans].
  - destruct (p x); [by constructor|done].
  - destruct (p x), (p y); try done. constructor.
Qed.

Lemma sumN_filter_le {A} (p : A → bool) (f : A → N) l :
  (sumN (map f (List.filter p l)) <= sumN (map f l))%N.
Proof. unfold sumN in *. induction l as [|x l IH]; cbn; [done|]. destruct (p x); cbn; lia. Qed.

Lemma len_filter_le {A} (p : A → bool) (l : list A) : (len (List.filter p l) <= len l)%N.
Proof.
  induction l as [|x l IH]; cbn [List.filter]; [done|].
  destruct (p x); rewrite ?len_cons; lia.
Qed.

Lemma filter_filter_comm {A} (p q : A → bool) l :
  List.filter p (List.filter q l) = List.filter q (List.filter p l).
Proof.
  induction l as [|x l IH]; cbn; [done|].
  destruct (q x) eqn:Eq, (p x) eqn:Ep; cbn; rewrite ?Ep, ?Eq, ?IH; done.
Qed.

Lemma u64_saturating_sub_val (a b : u64) : uint_val (u64_saturating_sub a b) = (a - b)%N.
Proof. unfold u64_saturating_sub. apply as_u64_small. pose proof (uint_lt a). lia. Qed.

Section accounting.
Context `{HB : Blake3} `{HE : Ed25519} `{HM : MailboxPostcard} `{HS : StorePostcard} `{HR : Redb}.
Context `{!RedbLaws HR}.

Definition row_bytes (r : bytes * bytes) : N :=
  match record_decode r.2 with Ok record => len record.(record_envelope) | Err _ => 0 end.

Definition in_mailbox (m : MailboxId) (r : bytes * bytes) : bool :=
  bool_decide (take 32 r.1 = arr_bytes m).

(** What rows hold: their number, their envelope bytes, and the number of a
    mailbox. *)
Definition rows_bytes (rows : list (bytes * bytes)) : N := sumN (map row_bytes rows).
Definition mailbox_rows (m : MailboxId) (rows : list (bytes * bytes)) : N :=
  len (List.filter (in_mailbox m) rows).

(** The rows of the item table. *)
Definition items (db : Database) : list (bytes * bytes) := table_iter db.(ITEM_TABLE).

(** The counters are at least what the rows hold. *)
Definition counters_cover (rows : list (bytes * bytes)) (total_items total_bytes : N)
    (mailbox_count : MailboxId → N) : Prop :=
  (len rows <= total_items)%N ∧ (rows_bytes rows <= total_bytes)%N ∧
  ∀ m, (mailbox_rows m rows <= mailbox_count m)%N.

Definition covered (db : Database) : Prop :=
  counters_cover (items db) (read_meta db).1 (read_meta db).2
    (fun m => uint_val (read_mailbox_count m db)).

Lemma rows_bytes_perm l l' : l ≡ₚ l' → rows_bytes l = rows_bytes l'.
Proof. intros Hp. unfold rows_bytes. by apply sumN_perm, Permutation_map. Qed.

Lemma mailbox_rows_perm m l l' : l ≡ₚ l' → mailbox_rows m l = mailbox_rows m l'.
Proof. intros Hp. unfold mailbox_rows. by apply len_perm, filter_perm. Qed.

Lemma mailbox_rows_cons m r l :
  mailbox_rows m (r :: l) = ((if in_mailbox m r then 1 else 0) + mailbox_rows m l)%N.
Proof. unfold mailbox_rows. cbn. destruct (in_mailbox m r); [by rewrite len_cons|done]. Qed.

Lemma in_mailbox_key m m' i v : in_mailbox m (item_key m' i, v) = bool_decide (m = m').
Proof.
  unfold in_mailbox. cbn. rewrite item_key_take. apply bool_decide_ext.
  split; [by intros E%arr_eq|by intros ->].
Qed.

Lemma covered_perm l l' a b c : l ≡ₚ l' → counters_cover l a b c → counters_cover l' a b c.
Proof.
  intros Hp (Ha & Hb & Hc). unfold counters_cover.
  rewrite <-(len_perm _ _ Hp), <-(rows_bytes_perm _ _ Hp). split; [done|]. split; [done|].
  intros m. by rewrite <-(mailbox_rows_perm m _ _ Hp).
Qed.

Lemma covered_filter p l a b c : counters_cover l a b c → counters_cover (List.filter p l) a b c.
Proof.
  intros (Ha & Hb & Hc). split; [|split].
  - pose proof (len_filter_le p l). lia.
  - pose proof (sumN_filter_le p row_bytes l). unfold rows_bytes in *. lia.
  - intros m. specialize (Hc m). unfold mailbox_rows in *. rewrite filter_filter_comm.
    pose proof (len_filter_le p (List.filter (in_mailbox m) l)). lia.
Qed.

(** One row less: the counters go down with it. *)
Lemma covered_uncons k v l a b c :
  counters_cover ((k, v) :: l) a b c →
  counters_cover l (a - 1) (b - row_bytes (k, v))
    (fun m => if in_mailbox m (k, v) then c m - 1 else c m)%N.
Proof.
  intros (Ha & Hb & Hc). unfold counters_cover. rewrite len_cons in Ha.
  unfold rows_bytes in *. cbn [map sumN fold_right] in Hb. change (fold_right N.add 0%N) with sumN in Hb.
  split; [lia|]. split; [lia|]. intros m. specialize (Hc m). rewrite mailbox_rows_cons in Hc.
  destruct (in_mailbox m (k, v)); lia.
Qed.

(** One row more. *)
Lemma covered_cons k v l a b c :
  counters_cover l a b c →
  counters_cover ((k, v) :: l) (a + 1) (b + row_bytes (k, v))
    (fun m => if in_mailbox m (k, v) then c m + 1 else c m)%N.
Proof.
  intros (Ha & Hb & Hc). unfold counters_cover. rewrite len_cons.
  unfold rows_bytes in *. cbn [map sumN fold_right]. change (fold_right N.add 0%N) with sumN.
  split; [lia|]. split; [lia|]. intros m. specialize (Hc m). rewrite mailbox_rows_cons.
  destruct (in_mailbox m (k, v)); lia.
Qed.

Lemma covered_weaken l a b c a' b' (c' : MailboxId → N) :
  counters_cover l a b c → (a <= a')%N → (b <= b')%N → (∀ m, (c m <= c' m)%N) →
  counters_cover l a' b' c'.
Proof.
  intros (Ha & Hb & Hc) ? ? Hc'. split; [lia|]. split; [lia|].
  intros m. specialize (Hc m). specialize (Hc' m). lia.
Qed.

(** ** The counters *)

Lemma read_write_meta a b db : read_meta (write_meta a b db) = (a, b).
Proof.
  unfold read_meta, write_meta, set_meta. cbn [META_TABLE].
  rewrite table_get_insert_ne, !table_get_insert_eq by done. done.
Qed.

Lemma read_meta_write_mailbox_count m c db : read_meta (write_mailbox_count m c db) = read_meta db.
Proof. done. Qed.

Lemma read_mailbox_count_write_meta m a b db :
  read_mailbox_count m (write_meta a b db) = read_mailbox_count m db.
Proof. done. Qed.

Lemma read_write_mailbox_count m m' c db :
  read_mailbox_count m (write_mailbox_count m' c db) =
  if bool_decide (m = m') then c else read_mailbox_count m db.
Proof.
  unfold read_mailbox_count, write_mailbox_count, set_counts. cbn [MAILBOX_COUNT_TABLE].
  case_bool_decide as E.
  - subst m'. destruct (N.eqb_spec (uint_val c) 0) as [Hz|Hz].
    + rewrite table_get_remove_eq. cbn. apply uint_eq. by rewrite Hz.
    + by rewrite table_get_insert_eq.
  - assert (arr_bytes m ≠ arr_bytes m') by (by intros ?%arr_eq).
    destruct (N.eqb_spec (uint_val c) 0).
    + by rewrite table_get_remove_ne.
    + by rewrite table_get_insert_ne.
Qed.

End accounting.

(** * Cleanup *)

Section cleanup.
Context `{HB : Blake3} `{HE : Ed25519} `{HM : MailboxPostcard} `{HS : StorePostcard} `{HR : Redb}.
Context `{!RedbLaws HR}.

(** The rows the two closures keep. *)
Definition keep_item (now : u64) (key value : bytes) : bool :=
  (len key =? ITEM_KEY_BYTES)%N
  && match record_decode value with Ok record => negb (record_expired_at record now) | Err _ => false end.

Definition keep_tombstone (now : u64) (key value : bytes) : bool :=
  (len key =? ITEM_KEY_BYTES)%N
  && match tombstone_decode value with
     | Ok tombstone => negb (tombstone_expired_at tombstone now)
     | Err _ => false
     end.

Definition add_row (key value : bytes) (usage : cleanup_usage) : cleanup_usage :=
  let mailbox := arr_of 32 (take 32 key) in
  {| usage_items := u64_saturating_add usage.(usage_items) (as_u64 1);
     usage_bytes := u64_saturating_add usage.(usage_bytes) (as_u64 (row_bytes (key, value)));
     mailbox_counts :=
       <[mailbox := u64_saturating_add (value_or_zero (usage.(mailbox_counts) !! mailbox))
                      (as_u64 1)]> usage.(mailbox_counts) |}.

Lemma cleanup_item_closure now : retain_closure (keep_item now) add_row (cleanup_item now).
Proof.
  intros k v s. unfold cleanup_item, keep_item, add_row, row_bytes. cbn [snd].
  destruct (record_decode v) as [r|e]; [by destruct (_ && _)|]. by rewrite !andb_false_r.
Qed.

Lemma cleanup_tombstone_closure now :
  retain_closure (keep_tombstone now) (fun _ _ s => s) (cleanup_tombstone now).
Proof. intros k v s. unfold cleanup_tombstone, keep_tombstone. by destruct (_ && _). Qed.

(** The accumulators count the rows kept, up to the width of their type. *)
Lemma fold_usage_counts now order s m :
  let s' := fold_left (apply_row (keep_item now) add_row) order s in
  let kept := List.filter (fun r => keep_item now r.1 r.2) order in
  uint_val s'.(usage_items) = N.min (s.(usage_items) + len kept) (U64_BOUND - 1) ∧
  uint_val (value_or_zero (s'.(mailbox_counts) !! m)) =
    N.min (value_or_zero (s.(mailbox_counts) !! m) + mailbox_rows m kept) (U64_BOUND - 1).
Proof.
  revert s; induction order as [|[k v] order IH]; intros s; cbn [fold_left List.filter fst snd].
  - change (len (@nil (bytes * bytes))) with 0%N. change (mailbox_rows m []) with 0%N.
    pose proof (uint_lt s.(usage_items)).
    pose proof (uint_lt (value_or_zero (s.(mailbox_counts) !! m))). lia.
  - unfold apply_row at 2 4. cbn [fst snd]. destruct (keep_item now k v) eqn:Ek; [|apply IH].
    destruct (IH (add_row k v s)) as [Hi Hc]. cbv zeta in Hi, Hc. rewrite Hi, Hc. clear Hi Hc IH.
    cbn [add_row usage_items mailbox_counts]. rewrite len_cons, mailbox_rows_cons.
    rewrite u64_saturating_add_val. change (uint_val (as_u64 1)) with 1%N. split; [lia|].
    unfold keep_item in Ek. apply andb_true_iff in Ek as [Ek%N.eqb_eq _].
    assert (length (take 32 k) = 32%nat) as Hl.
    { unfold len, ITEM_KEY_BYTES in Ek. rewrite length_take. lia. }
    unfold in_mailbox. cbn [fst]. case_bool_decide as Em.
    + rewrite Em, arr_of_arr, lookup_insert_eq. cbn [value_or_zero].
      rewrite u64_saturating_add_val. change (uint_val (as_u64 1)) with 1%N. lia.
    + rewrite lookup_insert_ne by (intros <-; by rewrite arr_of_bytes in Em). lia.
Qed.

Lemma row_bytes_small r : (row_bytes r < U64_BOUND)%N.
Proof.
  unfold row_bytes. destruct (record_decode r.2) as [rec|e] eqn:Ed; [|done].
  apply record_decode_valid in Ed as (_ & _ & ([_ Hl] & _) & _).
  unfold MAX_MAILBOX_ENVELOPE_BYTES in Hl. lia.
Qed.

Lemma fold_usage_bytes now order s :
  let s' := fold_left (apply_row (keep_item now) add_row) order s in
  let kept := List.filter (fun r => keep_item now r.1 r.2) order in
  uint_val s'.(usage_bytes) = N.min (s.(usage_bytes) + rows_bytes kept) (U64_BOUND - 1).
Proof.
  revert s; induction order as [|[k v] order IH]; intros s; cbn [fold_left List.filter fst snd].
  - change (rows_bytes []) with 0%N. pose proof (uint_lt s.(usage_bytes)). lia.
  - unfold apply_row at 2. cbn [fst snd]. destruct (keep_item now k v); [|apply IH].
    specialize (IH (add_row k v s)). cbv zeta in IH. rewrite IH. cbn [add_row usage_bytes].
    rewrite u64_saturating_add_val, (as_u64_small (row_bytes _)) by apply row_bytes_small.
    unfold rows_bytes. cbn [map sumN fold_right]. change (fold_right N.add 0%N) with sumN. lia.
Qed.

(** The rebuilt count table holds exactly the counted mailboxes. *)
Lemma rebuild_fold_get l t m :
  NoDup l.*1 →
  table_get (arr_bytes m)
    (fold_left (fun t entry => table_insert (arr_bytes (fst entry)) (snd entry) t) l t) =
  match (list_to_map l : gmap (arr 32) u64) !! m with
  | Some c => Some c
  | None => table_get (arr_bytes m) t
  end.
Proof.
  revert t; induction l as [|[m' c] l IH]; intros t Hnd; cbn [fold_left fst snd list_to_map foldr].
  - by rewrite lookup_empty.
  - apply NoDup_cons in Hnd as [Hm' Hnd]. rewrite IH by done. cbn in Hm'.
    change (foldr (λ '(k, v), <[k := v]>) ∅ l) with (list_to_map l : gmap (arr 32) u64).
    destruct (decide (m = m')) as [->|Hne].
    + rewrite (not_elem_of_list_to_map_1 l m') by done. cbn. by rewrite lookup_insert_eq, table_get_insert_eq.
    + cbn. rewrite lookup_insert_ne by done.
      rewrite table_get_insert_ne by (by intros ?%arr_eq). done.
Qed.

Lemma rebuild_counts_get counts t m :
  table_iter t = [] → table_get (arr_bytes m) (rebuild_counts counts t) = counts !! m.
Proof.
  intros Ht. unfold rebuild_counts. rewrite rebuild_fold_get by apply NoDup_fst_map_to_list.
  rewrite list_to_map_to_list. destruct (counts !! m) eqn:E; [done|].
  apply table_get_None. intros v. rewrite Ht. apply not_elem_of_nil.
Qed.

(** ** The database after a cleanup *)

Definition kept_items (now : u64) (db : Database) : list (bytes * bytes) :=
  List.filter (fun r => keep_item now r.1 r.2) (items db).

Lemma cleanup_rows now db :
  items (cleanup_database now db).2 = kept_items now db ∧
  table_iter (cleanup_database now db).2.(TOMBSTONE_TABLE) =
    List.filter (fun r => keep_tombstone now r.1 r.2) (table_iter db.(TOMBSTONE_TABLE)) ∧
  (cleanup_database now db).2.(IDENTITY_TABLE) = db.(IDENTITY_TABLE).
Proof.
  unfold cleanup_database, items, kept_items.
  match goal with |- context [table_retain (cleanup_item now) ?t ?s] =>
    destruct (table_retain_iter t _ _ _ s (cleanup_item_closure now)) as [Hi _];
    destruct (table_retain (cleanup_item now) t s) as [it us] end.
  match goal with |- context [table_retain (cleanup_tombstone now) ?t ?s] =>
    destruct (table_retain_iter t _ _ _ s (cleanup_tombstone_closure now)) as [Ht _];
    destruct (table_retain (cleanup_tombstone now) t s) as [tb ?] end.
  destruct (table_retain (fun _ _ s => (false, s)) (MAILBOX_COUNT_TABLE db) tt) as [ct ?].
  done.
Qed.

Lemma cleanup_counters now db :
  let db' := (cleanup_database now db).2 in
  let report := (cleanup_database now db).1 in
  uint_val (read_meta db').1 = N.min (len (kept_items now db)) (U64_BOUND - 1) ∧
  uint_val (read_meta db').2 = N.min (rows_bytes (kept_items now db)) (U64_BOUND - 1) ∧
  (∀ m, uint_val (read_mailbox_count m db') =
        N.min (mailbox_rows m (kept_items now db)) (U64_BOUND - 1)) ∧
  (report.(live_items), report.(live_envelope_bytes)) = read_meta db'.
Proof.
  unfold cleanup_database, kept_items, items.
  match goal with |- context [table_retain (cleanup_item now) ?t ?s] =>
    destruct (table_retain_iter t _ _ _ s (cleanup_item_closure now)) as (_ & order & Hp & Hu);
    destruct (table_retain (cleanup_item now) t s) as [it us] end.
  cbn [snd] in Hu. subst us.
  destruct (table_retain (cleanup_tombstone now) _ tt) as [tb ?].
  destruct (table_retain_iter (MAILBOX_COUNT_TABLE db) (fun _ _ s => (false, s))
    (fun _ _ => false) (fun _ _ s => s) tt) as [Hc _]; [by intros ? ? ?|].
  destruct (table_retain (fun _ _ s => (false, s)) (MAILBOX_COUNT_TABLE db) tt) as [ct ?].
  cbn [fst snd] in Hc |- *. rewrite !read_write_meta. cbn [fst snd live_items live_envelope_bytes].
  assert (table_iter ct = []) as Hct.
  { rewrite Hc. clear. by induction (table_iter (MAILBOX_COUNT_TABLE db)). }
  pose proof (filter_perm (fun r => keep_item now r.1 r.2) _ _ Hp) as Hpf.
  rewrite <-(len_perm _ _ Hpf), <-(rows_bytes_perm _ _ Hpf).
  match goal with |- context [fold_left _ order ?s] =>
    pose proof (fold_usage_bytes now order s) as Hb;
    pose proof (fun m => fold_usage_counts now order s m) as Hi end.
  cbv zeta in Hb, Hi. split; [apply (Hi (arr_repeat 32 x00))|]. split; [apply Hb|]. split; [|done].
  intros m. rewrite read_mailbox_count_write_meta. unfold read_mailbox_count, set_counts.
  cbn [MAILBOX_COUNT_TABLE]. rewrite rebuild_counts_get by done.
  rewrite <-(mailbox_rows_perm m _ _ Hpf). destruct (Hi m) as [_ ->].
  cbn [mailbox_counts]. by rewrite lookup_empty.
Qed.

End cleanup.

(** * The store *)

Section store.
Context `{HB : Blake3} `{HE : Ed25519} `{HM : MailboxPostcard} `{HS : StorePostcard} `{HR : Redb}.
Context `{!Ed25519Laws HE, !StorePostcardLaws HM HS, !RedbLaws HR}.
Implicit Types (self : BlindMailboxStore) (now t : u64) (k v : bytes) (db : Database).

(** ** The abstract store: what a key holds at a time *)

Definition live (db : Database) (t : u64) (key : bytes) : option StoredRecord :=
  match table_get key db.(ITEM_TABLE) with
  | Some v =>
      match record_decode v with
      | Ok r => if record_expired_at r t then None else Some r
      | Err _ => None
      end
  | None => None
  end.

Definition buried (db : Database) (t : u64) (key : bytes) : option StoredTombstone :=
  match table_get key db.(TOMBSTONE_TABLE) with
  | Some v =>
      match tombstone_decode v with
      | Ok tombstone => if tombstone_expired_at tombstone t then None else Some tombstone
      | Err _ => None
      end
  | None => None
  end.

Lemma live_Some db t k r :
  live db t k = Some r ↔
  ∃ v, table_get k db.(ITEM_TABLE) = Some v ∧ record_decode v = Ok r ∧ (t < record_expires_at r)%N.
Proof.
  unfold live. destruct (table_get k _) as [v|]; [|split; [done|by intros (? & ? & _)]].
  destruct (record_decode v) as [r'|] eqn:Ed; [|split; [done|by intros (? & [= <-] & ? & _); congruence]].
  unfold record_expired_at. destruct (N.leb_spec (record_expires_at r') t).
  - split; [done|]. intros (? & [= <-] & Ed' & ?). rewrite Ed in Ed'. injection Ed' as <-. lia.
  - split; [intros [= <-]; eauto|]. intros (? & [= <-] & Ed' & ?). congruence.
Qed.

(** ** The invariant *)

Record store_ok (self : BlindMailboxStore) : Prop := {
  ok_items k v : (k, v) ∈ items self.(database) → item_row k v;
  ok_tombstones k v : (k, v) ∈ table_iter self.(database).(TOMBSTONE_TABLE) → tombstone_row k v;
  ok_covered : covered self.(database);
  ok_total_items : ((live_usage self).1 <= self.(config).(max_total_items))%N;
  ok_total_bytes : ((live_usage self).2 <= self.(config).(max_total_bytes))%N;
  ok_tombstone_count :
    (len (table_iter self.(database).(TOMBSTONE_TABLE)) <= MAX_ABSOLUTE_ITEMS)%N;
  ok_config : config_validate self.(config) = Ok tt
}.

Lemma config_bounds c : config_validate c = Ok tt →
  (max_total_items c <= MAX_ABSOLUTE_ITEMS)%N ∧ (max_total_bytes c <= MAX_ABSOLUTE_TOTAL_BYTES)%N ∧
  (max_items_per_mailbox c <= MAX_ABSOLUTE_ITEMS_PER_MAILBOX)%N ∧
  (max_envelope_bytes c <= MAX_MAILBOX_ENVELOPE_BYTES)%N.
Proof. unfold config_validate. rewrite !rbind_unit_ok, !ensure_Ok, !between_true. tauto. Qed.

Lemma item_row_get self k v : store_ok self →
  table_get k self.(database).(ITEM_TABLE) = Some v → item_row k v.
Proof. intros Hok Hg. apply (ok_items _ Hok). by apply table_get_iter. Qed.

(** ** Cleanup *)

Lemma keep_item_row now k v : item_row k v →
  keep_item now k v = match record_decode v with Ok r => negb (record_expired_at r now) | Err _ => false end.
Proof.
  intros (m & i & r & -> & Hd & _). unfold keep_item. by rewrite item_key_len, N.eqb_refl, Hd.
Qed.

Lemma keep_tombstone_row now k v : tombstone_row k v →
  keep_tombstone now k v =
  match tombstone_decode v with Ok t => negb (tombstone_expired_at t now) | Err _ => false end.
Proof.
  intros (m & i & t & -> & Hd). unfold keep_tombstone. by rewrite item_key_len, N.eqb_refl, Hd.
Qed.

(** A cleanup is invisible from its time on. *)
Lemma cleanup_live self now t k : store_ok self → (now <= t)%N →
  live (cleanup self now).2.(database) t k = live self.(database) t k.
Proof.
  intros Hok Ht. unfold cleanup, live. destruct (cleanup_database now _) as [rep db] eqn:Ec.
  cbn [snd database set_database].
  destruct (cleanup_rows now self.(database)) as [Hi _]. rewrite Ec in Hi. cbn [snd] in Hi.
  rewrite (table_get_filter _ _ _ k Hi).
  destruct (table_get k (ITEM_TABLE self.(database))) as [v|] eqn:Eg; [|done].
  pose proof (item_row_get _ _ _ Hok Eg) as Hrow. rewrite (keep_item_row now _ _ Hrow).
  destruct Hrow as (m & i & r & _ & Hd & _). rewrite Hd. unfold record_expired_at.
  destruct (N.leb_spec (record_expires_at r) now); cbn; [|by rewrite Hd].
  destruct (N.leb_spec (record_expires_at r) t); [done|lia].
Qed.

Lemma cleanup_buried self now t k : store_ok self → (now <= t)%N →
  buried (cleanup self now).2.(database) t k = buried self.(database) t k.
Proof.
  intros Hok Ht. unfold cleanup, buried. destruct (cleanup_database now _) as [rep db] eqn:Ec.
  cbn [snd database set_database].
  destruct (cleanup_rows now self.(database)) as [_ [Hi _]]. rewrite Ec in Hi. cbn [snd] in Hi.
  rewrite (table_get_filter _ _ _ k Hi).
  destruct (table_get k (TOMBSTONE_TABLE self.(database))) as [v|] eqn:Eg; [|done].
  assert (tombstone_row k v) as Hrow by (apply (ok_tombstones _ Hok), table_get_iter, Eg).
  rewrite (keep_tombstone_row now _ _ Hrow).
  destruct Hrow as (m & i & r & _ & Hd). rewrite Hd. unfold tombstone_expired_at.
  destruct (N.leb_spec (tombstone_expires_at r) now); cbn; [|by rewrite Hd].
  destruct (N.leb_spec (tombstone_expires_at r) t); [done|lia].
Qed.

(** The kept rows are those the store counted, so nothing saturates. *)
Lemma kept_covered self now : store_ok self →
  counters_cover (kept_items now self.(database)) (live_usage self).1 (live_usage self).2
    (fun m => uint_val (read_mailbox_count m self.(database))).
Proof. intros Hok. apply covered_filter, (ok_covered _ Hok). Qed.

Lemma cleanup_counters_exact self now : store_ok self →
  let db' := (cleanup self now).2.(database) in
  uint_val (read_meta db').1 = len (items db') ∧
  uint_val (read_meta db').2 = rows_bytes (items db') ∧
  ∀ m, uint_val (read_mailbox_count m db') = mailbox_rows m (items db').
Proof.
  intros Hok. destruct (kept_covered _ now Hok) as (Ha & Hb & Hc).
  unfold cleanup. destruct (cleanup_database now _) as [rep db] eqn:Ec. cbn [snd database set_database].
  destruct (cleanup_rows now self.(database)) as [Hi _].
  destruct (cleanup_counters now self.(database)) as (H1 & H2 & H3 & _). rewrite Ec in *. cbn [snd] in *.
  rewrite Hi, H1, H2.
  pose proof (uint_lt (live_usage self).1). pose proof (uint_lt (live_usage self).2).
  split; [lia|]. split; [lia|]. intros m. rewrite H3. specialize (Hc m).
  pose proof (uint_lt (read_mailbox_count m self.(database))). lia.
Qed.

Lemma cleanup_ok self now : store_ok self → store_ok (cleanup self now).2.
Proof.
  intros Hok. destruct (cleanup_counters_exact self now Hok) as (H1 & H2 & H3).
  destruct (kept_covered _ now Hok) as (Ha & Hb & _).
  destruct (cleanup_rows now self.(database)) as (Hi & Ht & _).
  pose proof (ok_total_items _ Hok) as Hti. pose proof (ok_total_bytes _ Hok) as Htb.
  unfold cleanup, live_usage in *. destruct (cleanup_database now _) as [rep db] eqn:Ec.
  cbn [snd database config set_database] in *.
  split; cbn [database config live_usage set_database].
  - intros k v Hin. rewrite Hi in Hin. apply (ok_items _ Hok).
    unfold kept_items in Hin. rewrite list_elem_of_In, filter_In, <-list_elem_of_In in Hin. tauto.
  - intros k v Hin. rewrite Ht in Hin. apply (ok_tombstones _ Hok).
    rewrite list_elem_of_In, filter_In, <-list_elem_of_In in Hin. tauto.
  - unfold covered. rewrite H1, H2. split; [done|]. split; [done|]. intros m. by rewrite H3.
  - unfold live_usage, set_database. cbn [database]. rewrite H1, Hi. lia.
  - unfold live_usage, set_database. cbn [database]. rewrite H2, Hi. lia.
  - rewrite Ht. etrans; [apply len_filter_le|]. apply (ok_tombstone_count _ Hok).
  - apply (ok_config _ Hok).
Qed.

(** What a cleanup reports. *)
Lemma cleanup_report self now : store_ok self →
  let '(report, self') := cleanup self now in
  (report.(live_items), report.(live_envelope_bytes)) = live_usage self' ∧
  (report.(removed_items) + len (items self'.(database)) = len (items self.(database)))%N.
Proof.
  intros Hok. destruct (ok_covered _ Hok) as (Ha & _). pose proof (uint_lt (read_meta self.(database)).1).
  destruct (cleanup_counters now self.(database)) as (_ & _ & _ & Hrep).
  destruct (cleanup_rows now self.(database)) as (Hi & _).
  pose proof (len_filter_le (fun r => keep_item now r.1 r.2) (items self.(database))) as Hle.
  unfold cleanup, live_usage. destruct (cleanup_database now (database self)) as [report db] eqn:Ec.
  cbn [fst snd database set_database] in *. split; [done|]. rewrite Hi. unfold kept_items.
  assert (uint_val report.(removed_items) =
    (uint_val (table_len self.(database).(ITEM_TABLE)) - uint_val (table_len db.(ITEM_TABLE)))%N) as ->.
  { revert Ec. unfold cleanup_database.
    destruct (table_retain (cleanup_item now) _ _) as [it us].
    destruct (table_retain (cleanup_tombstone now) _ _) as [tb ?].
    destruct (table_retain (fun _ _ s => (false, s)) _ _) as [ct ?].
    intros [= <- <-]. cbn [removed_items]. apply u64_saturating_sub_val. }
  change (table_iter (ITEM_TABLE (database self))) with (items (database self)) in *.
  assert (uint_val (table_len self.(database).(ITEM_TABLE)) = len (items self.(database))) as ->
    by (apply table_len_iter; unfold items in Ha; lia).
  assert (uint_val (table_len db.(ITEM_TABLE)) = len (items db)) as ->.
  { apply table_len_iter. change (table_iter (ITEM_TABLE db)) with (items db).
    rewrite Hi. unfold kept_items. lia. }
  rewrite Hi. unfold kept_items. lia.
Qed.

(** ** Put *)

(** What the checks before the transaction establish about the candidate. *)
Record candidate_ok (self : BlindMailboxStore) (address : MailboxAddress)
    (authorization : MailboxWriteAuthorization) (envelope : bytes) (now : u64)
    (key : bytes) (candidate : StoredRecord) : Prop := {
  cand_key : key = item_key (mailbox_id address) authorization.(write_content).(write_item_id);
  cand_valid : record_valid candidate;
  cand_mailbox : candidate.(record_receipt).(stored_content).(stored_mailbox_id) = mailbox_id address;
  cand_item : candidate.(record_receipt).(stored_content).(stored_item_id)
              = authorization.(write_content).(write_item_id);
  cand_signature : len candidate.(record_receipt).(stored_signature) = 64%N;
  cand_envelope : candidate.(record_envelope) = envelope;
  cand_ttl : candidate.(record_ttl_seconds) = authorization.(write_content).(requested_ttl_seconds);
  cand_expires : uint_val (record_expires_at candidate) = (now + candidate.(record_ttl_seconds))%N
}.

Lemma put_candidate_ok self address authorization envelope now key candidate :
  put_candidate self address authorization envelope now = Ok (key, candidate) →
  candidate_ok self address authorization envelope now key candidate.
Proof.
  unfold put_candidate. intros Hp. result_inv. unfold record_new in *. result_inv.
  repeat match goal with
  | H : with_context _ _ = Ok _ |- _ => rewrite with_context_Ok in H
  | H : of_mailbox _ = Ok _ |- _ => rewrite of_mailbox_Ok in H
  end.
  match goal with H : write_authorization_verify _ _ _ = Ok _ |- _ =>
    apply write_authorization_verify_Ok in H as (_ & Hl & Ht & _) end.
  match goal with H : u64_checked_add _ _ = Some _ |- _ => apply u64_checked_add_Some in H as Hexp end.
  match goal with H : record_validate _ = Ok _ |- _ => apply record_validate_Ok in H as Hval end.
  match goal with H : stored_receipt _ _ _ _ _ ?e = Ok _ |- _ =>
    destruct (stored_receipt_made _ _ _ _ _ _ _ H Hl) as (Hv & Hm & Hi & Hs & He & Hsig);
      [change (uint_val MIN_MAILBOX_TTL_SECONDS) with 60%N in Ht; lia|] end.
  split; try done. unfold record_expires_at. cbn [record_receipt record_ttl_seconds].
  by rewrite He.
Qed.

(** The database without the row at [key]. *)
Definition drop_item (key : bytes) (db : Database) : Database :=
  match table_get key db.(ITEM_TABLE) with
  | Some _ => set_items (table_remove key db.(ITEM_TABLE)) db
  | None => db
  end.

Lemma drop_item_get key db k :
  table_get k (drop_item key db).(ITEM_TABLE) =
  if bool_decide (k = key) then None else table_get k db.(ITEM_TABLE).
Proof.
  unfold drop_item. destruct (table_get key (ITEM_TABLE db)) as [v|] eqn:E;
    cbn [set_items ITEM_TABLE]; case_bool_decide as Ek; subst; try done.
  - apply table_get_remove_eq.
  - by apply table_get_remove_ne.
Qed.

Lemma drop_item_meta key db : read_meta (drop_item key db) = read_meta db.
Proof. unfold drop_item. by destruct (table_get _ _). Qed.

Lemma drop_item_count m key db : read_mailbox_count m (drop_item key db) = read_mailbox_count m db.
Proof. unfold drop_item. by destruct (table_get _ _). Qed.

Lemma read_mailbox_count_set_items m rows db :
  read_mailbox_count m (set_items rows db) = read_mailbox_count m db.
Proof. done. Qed.

(** The counters [put] goes on with after dropping an expired item. *)
Definition after_drop (m : MailboxId) (key : bytes) (db : Database) : u64 * u64 * u64 :=
  let '(total_items, total_bytes) := read_meta db in
  let mailbox_count := read_mailbox_count m db in
  match table_get key db.(ITEM_TABLE) with
  | Some v => (u64_saturating_sub total_items (as_u64 1),
               u64_saturating_sub total_bytes (as_u64 (row_bytes (key, v))),
               u64_saturating_sub mailbox_count (as_u64 1))
  | None => (total_items, total_bytes, mailbox_count)
  end.

Definition full (config : MailboxStoreConfig) (candidate : StoredRecord) (counters : u64 * u64 * u64)
  : bool :=
  let '(total_items, total_bytes, mailbox_count) := counters in
  ((config.(max_total_items) <=? total_items)
   || (config.(max_items_per_mailbox) <=? mailbox_count)
   || (config.(max_total_bytes) <?
       u64_saturating_add total_bytes (as_u64 (len candidate.(record_envelope)))))%N.

(** The database with the candidate stored. *)
Definition store_item (m : MailboxId) (key encoded : bytes) (candidate : StoredRecord)
  (counters : u64 * u64 * u64) (db : Database) : Database :=
  let '(total_items, total_bytes, mailbox_count) := counters in
  db |> (fun db => set_items (table_insert key encoded db.(ITEM_TABLE)) db)
     |> write_mailbox_count m (u64_wrapping_add mailbox_count (as_u64 1))
     |> write_meta (u64_wrapping_add total_items (as_u64 1))
          (u64_saturating_add total_bytes (as_u64 (len candidate.(record_envelope)))).

Lemma put_insert_eq config m key candidate db encoded :
  (∀ v, table_get key db.(ITEM_TABLE) = Some v → item_row key v) →
  record_encode candidate = Ok encoded →
  put_insert config m key candidate (table_get key db.(ITEM_TABLE)) db =
  if full config candidate (after_drop m key db) then Ok (CapacityExceeded, drop_item key db)
  else Ok (Created candidate.(record_receipt),
           store_item m key encoded candidate (after_drop m key db) (drop_item key db)).
Proof.
  intros Hrow He. unfold put_insert, after_drop, drop_item, row_bytes. cbn [snd].
  destruct (read_meta db) as [a b].
  destruct (table_get key (ITEM_TABLE db)) as [v|] eqn:Eg.
  - destruct (Hrow v eq_refl) as (m' & i & r & _ & Hd & _). rewrite Hd. cbn [rbind full].
    destruct (_ || _ || _); [done|]. rewrite He. done.
  - cbn [rbind full]. destruct (_ || _ || _); [done|]. rewrite He. done.
Qed.

Lemma as_u64_row_bytes r : uint_val (as_u64 (row_bytes r)) = row_bytes r.
Proof. apply as_u64_small, row_bytes_small. Qed.

Lemma after_drop_covers m i db :
  covered db →
  let key := item_key m i in
  let '(a, b, c) := after_drop m key db in
  counters_cover (items (drop_item key db)) a b
    (fun m' => if bool_decide (m' = m) then uint_val c else uint_val (read_mailbox_count m' db)) ∧
  (a <= (read_meta db).1)%N ∧ (b <= (read_meta db).2)%N.
Proof.
  intros Hc. cbv zeta. unfold after_drop, drop_item, items.
  destruct (read_meta db) as [a b] eqn:Em.
  destruct (table_get (item_key m i) (ITEM_TABLE db)) as [v|] eqn:Eg; cbn [set_items ITEM_TABLE].
  - rewrite !u64_saturating_sub_val, as_u64_row_bytes. change (uint_val (as_u64 1)) with 1%N.
    unfold covered, items in Hc. rewrite Em in Hc. cbn [fst snd] in Hc |- *.
    apply (covered_perm _ _ _ _ _ (table_iter_remove _ _ _ Eg)), covered_uncons in Hc.
    split; [|lia]. apply (covered_weaken _ _ _ _ _ _ _ Hc); [lia|lia|].
    intros m'. rewrite in_mailbox_key. case_bool_decide as E; [|lia]. subst. lia.
  - unfold covered, items in Hc. rewrite Em in Hc. cbn [fst snd] in Hc |- *.
    split; [|lia]. apply (covered_weaken _ _ _ _ _ _ _ Hc); [lia|lia|].
    intros m'. case_bool_decide; [by subst|lia].
Qed.

Lemma drop_item_covered m i db : covered db → covered (drop_item (item_key m i) db).
Proof.
  intros Hc. unfold covered in *. rewrite drop_item_meta.
  apply (covered_weaken _ (read_meta db).1 (read_meta db).2
           (fun m => uint_val (read_mailbox_count m db))); [|done|done|intros m'; by rewrite drop_item_count].
  unfold items, drop_item. destruct (table_get _ _) as [v|] eqn:Eg; [|done]. cbn [set_items ITEM_TABLE].
  apply (covered_perm _ _ _ _ _ (table_iter_remove _ _ _ Eg)), covered_uncons in Hc.
  apply (covered_weaken _ _ _ _ _ _ _ Hc); [lia|lia|]. intros m'. destruct (in_mailbox _ _); lia.
Qed.

Lemma u64_wrapping_succ (a : u64) : (a + 1 < U64_BOUND)%N → uint_val (u64_wrapping_add a (as_u64 1)) = (a + 1)%N.
Proof. intros Ha. unfold u64_wrapping_add. by apply as_u64_small. Qed.

(** Not being full leaves room for the candidate in every counter. *)
Lemma not_full_room config candidate a b c :
  config_validate config = Ok tt → (len candidate.(record_envelope) <= MAX_MAILBOX_ENVELOPE_BYTES)%N →
  full config candidate (a, b, c) = false →
  uint_val (u64_wrapping_add a (as_u64 1)) = (a + 1)%N ∧
  uint_val (u64_wrapping_add c (as_u64 1)) = (c + 1)%N ∧
  uint_val (u64_saturating_add b (as_u64 (len candidate.(record_envelope))))
    = (b + len candidate.(record_envelope))%N ∧
  (a + 1 <= config.(max_total_items))%N ∧ (c + 1 <= config.(max_items_per_mailbox))%N ∧
  (b + len candidate.(record_envelope) <= config.(max_total_bytes))%N.
Proof.
  intros (Hi & Hb & Hm & _)%config_bounds He Hf. unfold full in Hf.
  rewrite !orb_false_iff, !N.leb_gt, N.ltb_ge, u64_saturating_add_val in Hf.
  unfold MAX_MAILBOX_ENVELOPE_BYTES in He. rewrite as_u64_small in Hf by lia.
  unfold MAX_ABSOLUTE_ITEMS, MAX_ABSOLUTE_TOTAL_BYTES, MAX_ABSOLUTE_ITEMS_PER_MAILBOX in *.
  rewrite !u64_wrapping_succ, u64_saturating_add_val, as_u64_small by lia. lia.
Qed.

Lemma store_item_covered config m i encoded candidate db :
  covered db → config_validate config = Ok tt →
  record_decode encoded = Ok candidate →
  let key := item_key m i in
  full config candidate (after_drop m key db) = false →
  let db' := store_item m key encoded candidate (after_drop m key db) (drop_item key db) in
  covered db' ∧ ((read_meta db').1 <= config.(max_total_items))%N ∧
  ((read_meta db').2 <= config.(max_total_bytes))%N ∧
  (read_mailbox_count m db' <= config.(max_items_per_mailbox))%N.
Proof.
  intros Hc Hcfg Hd key Hf. pose proof (after_drop_covers m i db Hc) as Hcov. fold key in Hcov.
  cbv zeta in Hcov |- *. destruct (after_drop m key db) as [[a b] c].
  destruct Hcov as [Hcov _].
  pose proof (record_decode_valid _ _ Hd) as (_ & _ & ([_ Hl] & _) & _).
  destruct (not_full_room _ _ _ _ _ Hcfg Hl Hf) as (Ha & Hcc & Hb & Hra & Hrc & Hrb).
  unfold covered, store_item. rewrite read_write_meta, read_mailbox_count_write_meta,
    read_write_mailbox_count, bool_decide_eq_true_2 by done. cbn [fst snd]. rewrite Ha, Hcc, Hb.
  split; [|done].
  assert (table_get key (drop_item key db).(ITEM_TABLE) = None) as Hnone
    by (rewrite drop_item_get; by case_bool_decide).
  unfold items. cbn [write_meta write_mailbox_count set_meta set_counts set_items ITEM_TABLE].
  apply (covered_perm ((key, encoded) :: items (drop_item key db))).
  { symmetry. by apply table_iter_insert. }
  apply covered_cons with (k := key) (v := encoded) in Hcov.
  unfold row_bytes in Hcov. cbn [snd] in Hcov. rewrite Hd in Hcov.
  apply (covered_weaken _ _ _ _ _ _ _ Hcov); [lia|lia|].
  intros m'. rewrite read_mailbox_count_write_meta, read_write_mailbox_count.
  unfold key. rewrite in_mailbox_key. case_bool_decide; [lia|].
  by rewrite read_mailbox_count_set_items, drop_item_count.
Qed.

(** Dropping what is expired at [now] is invisible from then on. *)
Lemma live_drop_item db now t k key : (now <= t)%N → live db now key = None →
  live (drop_item key db) t k = live db t k.
Proof.
  intros Ht Hn. unfold live in *. rewrite drop_item_get. case_bool_decide; [subst|done].
  destruct (table_get key (ITEM_TABLE db)) as [v|]; [|done].
  destruct (record_decode v) as [r|]; [|done]. unfold record_expired_at in *.
  destruct (N.leb_spec (record_expires_at r) now); [|done].
  destruct (N.leb_spec (record_expires_at r) t); [done|lia].
Qed.

Lemma live_store_item m key encoded candidate counters db t k :
  record_decode encoded = Ok candidate →
  live (store_item m key encoded candidate counters db) t k =
  if bool_decide (k = key) then (if record_expired_at candidate t then None else Some candidate)
  else live db t k.
Proof.
  intros Hd. unfold live, store_item. destruct counters as [[a b] c].
  cbn [write_meta write_mailbox_count set_meta set_counts set_items ITEM_TABLE].
  case_bool_decide as E.
  - subst. by rewrite table_get_insert_eq, Hd.
  - by rewrite table_get_insert_ne.
Qed.

(** The database the insertion starts from: an expired tombstone is gone. *)
Definition drop_tombstone (key : bytes) (db : Database) : Database :=
  match table_get key db.(TOMBSTONE_TABLE) with
  | Some _ => set_tombstones (table_remove key db.(TOMBSTONE_TABLE)) db
  | None => db
  end.

Lemma buried_drop_tombstone db now t k key : (now <= t)%N → buried db now key = None →
  buried (drop_tombstone key db) t k = buried db t k.
Proof.
  intros Ht Hn. unfold buried, drop_tombstone in *.
  destruct (table_get key (TOMBSTONE_TABLE db)) as [v|] eqn:Eg; [|done].
  cbn [set_tombstones TOMBSTONE_TABLE]. destruct (decide (k = key)) as [->|Hne].
  - rewrite table_get_remove_eq, Eg. destruct (tombstone_decode v) as [r|]; [|done].
    unfold tombstone_expired_at in *. destruct (N.leb_spec (tombstone_expires_at r) now); [|done].
    destruct (N.leb_spec (tombstone_expires_at r) t); [done|lia].
  - by rewrite table_get_remove_ne.
Qed.

(** The outcome of [put] on what the key holds. *)
Inductive put_outcome (self : BlindMailboxStore) (m : MailboxId) (key : bytes)
    (candidate : StoredRecord) (now : u64) : MailboxPutOutcome → Prop :=
| put_present current :
    live self.(database) now key = Some current →
    current.(record_ttl_seconds) = candidate.(record_ttl_seconds) →
    current.(record_envelope) = candidate.(record_envelope) →
    put_outcome self m key candidate now (AlreadyPresent current.(record_receipt))
| put_conflict current :
    live self.(database) now key = Some current →
    ¬ (current.(record_ttl_seconds) = candidate.(record_ttl_seconds) ∧
       current.(record_envelope) = candidate.(record_envelope)) →
    put_outcome self m key candidate now Conflict
| put_tombstoned tombstone :
    live self.(database) now key = None → buried self.(database) now key = Some tombstone →
    put_outcome self m key candidate now Tombstoned
| put_full :
    live self.(database) now key = None → buried self.(database) now key = None →
    full self.(config) candidate (after_drop m key self.(database)) = true →
    put_outcome self m key candidate now CapacityExceeded
| put_created :
    live self.(database) now key = None → buried self.(database) now key = None →
    full self.(config) candidate (after_drop m key self.(database)) = false →
    put_outcome self m key candidate now (Created candidate.(record_receipt)).

(** The transaction, branch by branch. *)
Lemma put_transaction_eq self m i candidate now encoded :
  store_ok self → record_encode candidate = Ok encoded →
  let key := item_key m i in
  let db := self.(database) in
  put_transaction self.(config) m key candidate now db =
  match live db now key with
  | Some current =>
      Ok ((if u64_eqb current.(record_ttl_seconds) candidate.(record_ttl_seconds)
              && bool_decide (current.(record_envelope) = candidate.(record_envelope))
           then AlreadyPresent current.(record_receipt) else Conflict), db)
  | None =>
      match buried db now key with
      | Some _ => Ok (Tombstoned, db)
      | None =>
          if full self.(config) candidate (after_drop m key db)
          then Ok (CapacityExceeded, drop_item key (drop_tombstone key db))
          else Ok (Created candidate.(record_receipt),
                   store_item m key encoded candidate (after_drop m key db)
                     (drop_item key (drop_tombstone key db)))
      end
  end.
Proof.
  intros Hok He key db. unfold put_transaction.
  assert (∀ v, table_get key db.(ITEM_TABLE) = Some v → item_row key v) as Hrow
    by (intros v Hg; by apply (item_row_get self)).
  pose proof (put_insert_eq self.(config) m key candidate db encoded Hrow He) as Hins.
  pose proof (put_insert_eq self.(config) m key candidate
    (set_tombstones (table_remove key db.(TOMBSTONE_TABLE)) db) encoded Hrow He) as Hins'.
  change (after_drop m key (set_tombstones (table_remove key (TOMBSTONE_TABLE db)) db))
    with (after_drop m key db) in Hins'.
  change (ITEM_TABLE (set_tombstones (table_remove key (TOMBSTONE_TABLE db)) db))
    with (ITEM_TABLE db) in Hins'.
  assert (match table_get key (TOMBSTONE_TABLE db) with
     | Some tombstone_bytes => let? tombstone := tombstone_decode tombstone_bytes in
        if negb (tombstone_expired_at tombstone now) then Ok (Tombstoned, db)
        else put_insert (config self) m key candidate (table_get key (ITEM_TABLE db))
               (set_tombstones (table_remove key (TOMBSTONE_TABLE db)) db)
     | None => put_insert (config self) m key candidate (table_get key (ITEM_TABLE db)) db
     end = match buried db now key with
      | Some _ => Ok (Tombstoned, db)
      | None =>
          if full self.(config) candidate (after_drop m key db)
          then Ok (CapacityExceeded, drop_item key (drop_tombstone key db))
          else Ok (Created candidate.(record_receipt),
                   store_item m key encoded candidate (after_drop m key db)
                     (drop_item key (drop_tombstone key db)))
      end) as Htomb.
  { unfold buried, drop_tombstone. destruct (table_get key (TOMBSTONE_TABLE db)) as [tv|] eqn:Eg; [|done].
    assert (tombstone_row key tv) as (m' & i' & tb & _ & Hd)
      by (apply (ok_tombstones _ Hok), table_get_iter, Eg).
    rewrite Hd. cbn [rbind]. by destruct (tombstone_expired_at tb now). }
  unfold live. destruct (table_get key (ITEM_TABLE db)) as [v|] eqn:Eg; [|exact Htomb].
  destruct (Hrow v eq_refl) as (m' & i' & r & _ & Hd & _). rewrite Hd. cbn [rbind].
  destruct (record_expired_at r now); [exact Htomb|done].
Qed.

(** A tombstone plays no part in the accounting of items. *)
Lemma drop_tombstone_same key db :
  (drop_tombstone key db).(ITEM_TABLE) = db.(ITEM_TABLE) ∧
  (drop_tombstone key db).(META_TABLE) = db.(META_TABLE) ∧
  (drop_tombstone key db).(MAILBOX_COUNT_TABLE) = db.(MAILBOX_COUNT_TABLE).
Proof. unfold drop_tombstone. by destruct (table_get _ _). Qed.

Lemma drop_tombstone_covered key db : covered db → covered (drop_tombstone key db).
Proof.
  destruct (drop_tombstone_same key db) as (E1 & E2 & E3).
  unfold covered, items, read_meta, read_mailbox_count. by rewrite E1, E2, E3.
Qed.

Lemma after_drop_tombstone m key db : after_drop m key (drop_tombstone key db) = after_drop m key db.
Proof.
  destruct (drop_tombstone_same key db) as (E1 & E2 & E3).
  unfold after_drop, read_meta, read_mailbox_count. by rewrite E1, E2, E3.
Qed.

Lemma drop_item_same key db :
  (drop_item key db).(TOMBSTONE_TABLE) = db.(TOMBSTONE_TABLE) ∧
  read_meta (drop_item key db) = read_meta db.
Proof. unfold drop_item. by destruct (table_get _ _). Qed.

Lemma drop_rows key db k v :
  (k, v) ∈ items (drop_item key (drop_tombstone key db)) → (k, v) ∈ items db.
Proof.
  unfold items. rewrite <-!table_get_iter, drop_item_get.
  destruct (drop_tombstone_same key db) as (-> & _). by case_bool_decide.
Qed.

Lemma drop_tombstone_rows key db k v :
  (k, v) ∈ table_iter (drop_tombstone key db).(TOMBSTONE_TABLE) →
  (k, v) ∈ table_iter db.(TOMBSTONE_TABLE).
Proof.
  unfold drop_tombstone. destruct (table_get _ _); [|done]. cbn [set_tombstones TOMBSTONE_TABLE].
  rewrite table_remove_iter. tauto.
Qed.

Lemma drop_tombstone_count key db :
  (len (table_iter (drop_tombstone key db).(TOMBSTONE_TABLE)) <= len (table_iter db.(TOMBSTONE_TABLE)))%N.
Proof.
  unfold drop_tombstone. destruct (table_get _ _) as [v|] eqn:E; [|done].
  cbn [set_tombstones TOMBSTONE_TABLE]. rewrite (len_perm _ _ (table_iter_remove _ _ _ E)), len_cons. lia.
Qed.

Lemma drop_ok self m i : store_ok self →
  store_ok (set_database
    (drop_item (item_key m i) (drop_tombstone (item_key m i) self.(database))) self).
Proof.
  intros Hok. set (key := item_key m i).
  destruct (drop_item_same key (drop_tombstone key (database self))) as [Et Em].
  destruct (drop_tombstone_same key (database self)) as (_ & Emt & _).
  split; unfold live_usage, set_database; cbn [database config].
  - intros k v Hin%drop_rows. by apply (ok_items _ Hok).
  - intros k v Hin. rewrite Et in Hin. apply drop_tombstone_rows in Hin. by apply (ok_tombstones _ Hok).
  - apply drop_item_covered, drop_tombstone_covered, (ok_covered _ Hok).
  - rewrite Em. unfold read_meta. rewrite Emt. apply (ok_total_items _ Hok).
  - rewrite Em. unfold read_meta. rewrite Emt. apply (ok_total_bytes _ Hok).
  - rewrite Et. etrans; [apply drop_tombstone_count|]. apply (ok_tombstone_count _ Hok).
  - apply (ok_config _ Hok).
Qed.

Lemma store_item_ok self m i encoded candidate : store_ok self →
  record_decode encoded = Ok candidate → item_row (item_key m i) encoded →
  let key := item_key m i in
  let counters := after_drop m key self.(database) in
  full self.(config) candidate counters = false →
  let self' := set_database (store_item m key encoded candidate counters
    (drop_item key (drop_tombstone key self.(database)))) self in
  store_ok self' ∧
  (read_mailbox_count m self'.(database) <= self.(config).(max_items_per_mailbox))%N.
Proof.
  intros Hok Hd Hrow key counters Hf. unfold counters in *. rewrite <-after_drop_tombstone in Hf |- *.
  destruct (store_item_covered self.(config) m i encoded candidate
    (drop_tombstone key self.(database))) as (Hc & Hi & Hb & Hm); [|apply (ok_config _ Hok)|done|done|].
  { apply drop_tombstone_covered, (ok_covered _ Hok). }
  fold key in Hc, Hi, Hb, Hm. split; [|done].
  destruct (drop_item_same key (drop_tombstone key (database self))) as [Et _].
  assert (∀ counters, TOMBSTONE_TABLE (store_item m key encoded candidate counters
    (drop_item key (drop_tombstone key (database self)))) = TOMBSTONE_TABLE (drop_tombstone key (database self)))
    as Ets by (intros [[a b] c]; exact Et).
  split; unfold live_usage, set_database; cbn [database config]; try done; [| | |apply (ok_config _ Hok)].
  - intros k v Hin. unfold items, store_item in Hin.
    destruct (after_drop m key (drop_tombstone key (database self))) as [[a b] c].
    cbn [write_meta write_mailbox_count set_meta set_counts set_items ITEM_TABLE] in Hin.
    apply table_insert_iter in Hin as [[-> ->]|[_ Hin]]; [done|].
    apply drop_rows in Hin. by apply (ok_items _ Hok).
  - intros k v Hin. rewrite Ets in Hin. apply drop_tombstone_rows in Hin. by apply (ok_tombstones _ Hok).
  - rewrite Ets. etrans; [apply drop_tombstone_count|]. apply (ok_tombstone_count _ Hok).
Qed.

(** What [put] does to the abstract store. *)
Definition put_effect (key : bytes) (candidate : StoredRecord) (outcome : MailboxPutOutcome) (now : u64)
    (db db' : Database) : Prop :=
  ∀ t k, (now <= t)%N →
  live db' t k =
    match outcome with
    | Created _ =>
        if bool_decide (k = key)
        then (if record_expired_at candidate t then None else Some candidate) else live db t k
    | _ => live db t k
    end ∧
  buried db' t k = buried db t k.

Lemma buried_store_item m key encoded candidate counters db t k :
  buried (store_item m key encoded candidate counters db) t k = buried db t k.
Proof. unfold buried, store_item. by destruct counters as [[a b] c]. Qed.

Lemma buried_drop_item key db t k : buried (drop_item key db) t k = buried db t k.
Proof. unfold buried. by destruct (drop_item_same key db) as [-> _]. Qed.

Lemma live_drop_tombstone key db t k : live (drop_tombstone key db) t k = live db t k.
Proof. unfold live. by destruct (drop_tombstone_same key db) as (-> & _). Qed.

Lemma put_spec self address authorization envelope now key candidate :
  store_ok self →
  put_candidate self address authorization envelope now = Ok (key, candidate) →
  ∃ outcome self',
    put self address authorization envelope now = (Ok outcome, self') ∧
    put_outcome self (mailbox_id address) key candidate now outcome ∧
    put_effect key candidate outcome now self.(database) self'.(database) ∧
    store_ok self' ∧ self'.(identity) = self.(identity) ∧ self'.(config) = self.(config) ∧
    (is_Created outcome = true →
     (read_mailbox_count (mailbox_id address) self'.(database) <=
      self.(config).(max_items_per_mailbox))%N).
Proof.
  intros Hok Hp. unfold put. rewrite Hp.
  destruct (put_candidate_ok _ _ _ _ _ _ _ Hp) as [-> Hv Hm Hi Hs _ _ _].
  set (m := mailbox_id address) in *. set (i := write_item_id _) in *.
  destruct (record_encode_Ok _ Hv) as (encoded & He & Hen).
  pose proof (record_encode_decode _ _ Hv Hs Hen) as Hd.
  unfold transaction. rewrite (put_transaction_eq self m i candidate now encoded) by done.
  destruct (live self.(database) now (item_key m i)) as [current|] eqn:El.
  { destruct (u64_eqb _ _ && bool_decide _) eqn:Eq.
    - apply andb_true_iff in Eq as [Eq1%u64_eqb_eq Eq2%bool_decide_eq_true].
      do 2 eexists. split; [done|]. split; [by eapply put_present|]. by split.
    - do 2 eexists. split; [done|]. split; [|by split].
      eapply put_conflict; [done|]. intros [Eq1 Eq2].
      by rewrite (proj2 (u64_eqb_eq _ _) Eq1), bool_decide_eq_true_2 in Eq. }
  destruct (buried self.(database) now (item_key m i)) as [tb|] eqn:Eb.
  { do 2 eexists. split; [done|]. split; [by eapply put_tombstoned|]. by split. }
  destruct (full _ _ _) eqn:Ef.
  - do 2 eexists. split; [done|]. split; [by apply put_full|]. split.
    { intros t k Ht. cbn [database set_database]. split.
      - rewrite (live_drop_item _ now), live_drop_tombstone; [done..|]. by rewrite live_drop_tombstone.
      - by rewrite buried_drop_item, (buried_drop_tombstone _ now). }
    split; [by apply drop_ok|done].
  - do 2 eexists. split; [done|]. split; [by apply put_created|]. split.
    { intros t k Ht. cbn [database set_database]. split.
      - rewrite live_store_item by done. case_bool_decide; [done|].
        rewrite (live_drop_item _ now), live_drop_tombstone; [done..|]. by rewrite live_drop_tombstone.
      - by rewrite buried_store_item, buried_drop_item, (buried_drop_tombstone _ now). }
    destruct (store_item_ok self m i encoded candidate) as [Hok' Hc]; [done|done| |done|].
    { exists m, i, candidate. done. }
    split; [done|]. split; [done|]. split; [done|]. intros _. apply Hc.
Qed.

(** ** Delete *)

(** After a cleanup every row is live. *)
Lemma cleanup_item_live self now k v : store_ok self →
  table_get k (cleanup self now).2.(database).(ITEM_TABLE) = Some v →
  ∃ r, record_decode v = Ok r ∧ live (cleanup self now).2.(database) now k = Some r.
Proof.
  intros Hok Hg. pose proof (item_row_get _ _ _ (cleanup_ok self now Hok) Hg) as (m & i & r & _ & Hd & _).
  exists r. split; [done|]. unfold live. rewrite Hg, Hd.
  apply table_get_iter in Hg. unfold cleanup in Hg.
  destruct (cleanup_rows now self.(database)) as [Hi _].
  destruct (cleanup_database now _) as [rep db]. cbn [snd database set_database] in *.
  change (table_iter (ITEM_TABLE db)) with (items db) in Hg. rewrite Hi in Hg.
  unfold kept_items in Hg. rewrite list_elem_of_In, filter_In in Hg. destruct Hg as [_ Hk].
  cbn [fst snd] in Hk. unfold keep_item in Hk. rewrite Hd in Hk. apply andb_true_iff in Hk as [_ Hk].
  by destruct (record_expired_at r now).
Qed.

Lemma cleanup_tombstone_buried self now k v : store_ok self →
  table_get k (cleanup self now).2.(database).(TOMBSTONE_TABLE) = Some v →
  ∃ r, tombstone_decode v = Ok r ∧ buried (cleanup self now).2.(database) now k = Some r.
Proof.
  intros Hok Hg.
  assert (tombstone_row k v) as (m & i & r & _ & Hd)
    by (apply (ok_tombstones _ (cleanup_ok self now Hok)), table_get_iter, Hg).
  exists r. split; [done|]. unfold buried. rewrite Hg, Hd.
  apply table_get_iter in Hg. unfold cleanup in Hg.
  destruct (cleanup_rows now self.(database)) as [_ [Hi _]].
  destruct (cleanup_database now _) as [rep db]. cbn [snd database set_database] in *.
  rewrite Hi, list_elem_of_In, filter_In in Hg. destruct Hg as [_ Hk].
  cbn [fst snd] in Hk. unfold keep_tombstone in Hk. rewrite Hd in Hk. apply andb_true_iff in Hk as [_ Hk].
  by destruct (tombstone_expired_at r now).
Qed.

(** The tombstones that are not expired. *)
Definition buried_count (db : Database) (now : u64) : N :=
  len (List.filter (fun r => keep_tombstone now r.1 r.2) (table_iter db.(TOMBSTONE_TABLE))).

(** The outcome of [delete] on what the key holds. *)
Inductive delete_outcome (self : BlindMailboxStore) (m : MailboxId) (i : MailboxItemId)
    (receipt_id : MailboxReceiptId) (now : u64) : DeleteOutcome → Prop :=
| delete_deleted current receipt :
    live self.(database) now (item_key m i) = Some current →
    stored_receipt_id current.(record_receipt) = Ok receipt_id →
    (buried_count self.(database) now < self.(config).(max_total_items))%N →
    delete_receipt self.(identity) m i receipt_id now (record_expires_at current) = Ok receipt →
    delete_outcome self m i receipt_id now (Deleted receipt)
| delete_live_mismatch current id :
    live self.(database) now (item_key m i) = Some current →
    stored_receipt_id current.(record_receipt) = Ok id → id ≠ receipt_id →
    delete_outcome self m i receipt_id now ReceiptMismatch
| delete_full current :
    live self.(database) now (item_key m i) = Some current →
    stored_receipt_id current.(record_receipt) = Ok receipt_id →
    (self.(config).(max_total_items) <= buried_count self.(database) now)%N →
    delete_outcome self m i receipt_id now TombstoneCapacityExceeded
| delete_again tombstone :
    live self.(database) now (item_key m i) = None →
    buried self.(database) now (item_key m i) = Some tombstone →
    tombstone.(tombstone_stored_receipt_id) = receipt_id →
    delete_outcome self m i receipt_id now (AlreadyDeleted tombstone.(tombstone_delete_receipt))
| delete_buried_mismatch tombstone :
    live self.(database) now (item_key m i) = None →
    buried self.(database) now (item_key m i) = Some tombstone →
    tombstone.(tombstone_stored_receipt_id) ≠ receipt_id →
    delete_outcome self m i receipt_id now ReceiptMismatch
| delete_absent :
    live self.(database) now (item_key m i) = None →
    buried self.(database) now (item_key m i) = None →
    delete_outcome self m i receipt_id now Absent.

(** The tombstone [delete] writes. *)
Definition tombstone_of (receipt_id : MailboxReceiptId) (receipt : MailboxDeleteReceipt) : StoredTombstone :=
  {| tombstone_version := RECORD_VERSION; tombstone_stored_receipt_id := receipt_id;
     tombstone_delete_receipt := receipt |}.

Definition delete_effect (key : bytes) (receipt_id : MailboxReceiptId) (outcome : DeleteOutcome)
    (now : u64) (db db' : Database) : Prop :=
  ∀ t k, (now <= t)%N →
  match outcome with
  | Deleted receipt =>
      live db' t k = (if bool_decide (k = key) then None else live db t k) ∧
      buried db' t k =
        (if bool_decide (k = key)
         then (if (receipt.(delete_content).(delete_expires_at) <=? t)%N then None
               else Some (tombstone_of receipt_id receipt))
         else buried db t k)
  | _ => live db' t k = live db t k ∧ buried db' t k = buried db t k
  end.

(** The database after a delete, in terms of [drop_item]. *)
Definition bury_item (m : MailboxId) (key encoded : bytes) (db : Database) : Database :=
  let '(total_items, total_bytes, mailbox_count) := after_drop m key db in
  drop_item key db |> (fun db => set_tombstones (table_insert key encoded db.(TOMBSTONE_TABLE)) db)
                   |> write_meta total_items total_bytes
                   |> write_mailbox_count m mailbox_count.

Lemma delete_transaction_live self m i receipt_id now v current id :
  let key := item_key m i in
  let db := self.(database) in
  table_get key db.(ITEM_TABLE) = Some v → record_decode v = Ok current →
  stored_receipt_id current.(record_receipt) = Ok id →
  delete_transaction self m i receipt_id now db =
  if negb (bool_decide (id = receipt_id)) then Ok (ReceiptMismatch, db) else
  if (self.(config).(max_total_items) <=? table_len db.(TOMBSTONE_TABLE))%N
  then Ok (TombstoneCapacityExceeded, db) else
  let? receipt := of_mailbox (delete_receipt self.(identity) m i receipt_id now
    (record_expires_at current)) in
  let? encoded := tombstone_encode (tombstone_of receipt_id receipt) in
  Ok (Deleted receipt, bury_item m key encoded db).
Proof.
  intros key db Hg Hd Hid. unfold delete_transaction. fold key. rewrite Hg, Hd. cbn [rbind].
  rewrite Hid. cbn [of_mailbox map_err rbind].
  destruct (negb _); [done|]. destruct (_ <=? _)%N; [done|].
  destruct (of_mailbox _) as [receipt|]; [|done]. cbn [rbind].
  change {| tombstone_version := RECORD_VERSION; tombstone_stored_receipt_id := receipt_id;
            tombstone_delete_receipt := receipt |} with (tombstone_of receipt_id receipt).
  destruct (tombstone_encode _) as [encoded|]; [|done]. cbn [rbind].
  unfold bury_item, after_drop, drop_item, row_bytes, read_meta. rewrite Hg. cbn [snd]. by rewrite Hd.
Qed.

Lemma bury_item_covered m i encoded db : covered db → covered (bury_item m (item_key m i) encoded db) ∧
  ((read_meta (bury_item m (item_key m i) encoded db)).1 <= (read_meta db).1)%N ∧
  ((read_meta (bury_item m (item_key m i) encoded db)).2 <= (read_meta db).2)%N.
Proof.
  intros Hc. pose proof (after_drop_covers m i db Hc) as Hcov. cbv zeta in Hcov.
  unfold covered, bury_item. destruct (after_drop m (item_key m i) db) as [[a b] c].
  destruct Hcov as (Hcov & Ha & Hb).
  rewrite read_meta_write_mailbox_count, read_write_meta. cbn [fst snd]. split; [|done].
  apply (covered_weaken _ _ _ _ _ _ _ Hcov); [lia|lia|]. intros m'.
  rewrite read_write_mailbox_count, read_mailbox_count_write_meta.
  case_bool_decide; [lia|]. change (read_mailbox_count m' (set_tombstones ?t ?d)) with (read_mailbox_count m' d).
  by rewrite drop_item_count.
Qed.

Lemma bury_item_tables m key encoded db :
  (bury_item m key encoded db).(ITEM_TABLE) = (drop_item key db).(ITEM_TABLE) ∧
  (bury_item m key encoded db).(TOMBSTONE_TABLE) = table_insert key encoded db.(TOMBSTONE_TABLE).
Proof.
  unfold bury_item. destruct (after_drop m key db) as [[a b] c].
  destruct (drop_item_same key db) as [<- _]. done.
Qed.

Lemma bury_item_ok self m i encoded tombstone :
  store_ok self → tombstone_decode encoded = Ok tombstone →
  (len (table_iter self.(database).(TOMBSTONE_TABLE)) < self.(config).(max_total_items))%N →
  store_ok (set_database (bury_item m (item_key m i) encoded self.(database)) self).
Proof.
  intros Hok Hd Hn. destruct (bury_item_covered m i encoded _ (ok_covered _ Hok)) as (Hc & Ha & Hb).
  destruct (bury_item_tables m (item_key m i) encoded self.(database)) as [Ei Et].
  pose proof (ok_total_items _ Hok). pose proof (ok_total_bytes _ Hok).
  destruct (config_bounds _ (ok_config _ Hok)) as (Hmax & _).
  unfold live_usage in *. split; unfold live_usage, set_database; cbn [database config].
  - intros k v Hin. unfold items in Hin. rewrite Ei in Hin. apply (ok_items _ Hok).
    unfold items. rewrite <-table_get_iter in *. rewrite drop_item_get in Hin. by case_bool_decide.
  - intros k v Hin. rewrite Et in Hin. apply table_insert_iter in Hin as [[-> ->]|[_ Hin]].
    + by exists m, i, tombstone.
    + by apply (ok_tombstones _ Hok).
  - done.
  - lia.
  - lia.
  - rewrite Et. etrans; [apply len_table_insert|]. lia.
  - apply (ok_config _ Hok).
Qed.

Lemma live_bury_item m key encoded db t k :
  live (bury_item m key encoded db) t k = if bool_decide (k = key) then None else live db t k.
Proof.
  unfold live. destruct (bury_item_tables m key encoded db) as [-> _]. rewrite drop_item_get.
  by case_bool_decide.
Qed.

Lemma buried_bury_item m key encoded db t k tombstone :
  tombstone_decode encoded = Ok tombstone →
  buried (bury_item m key encoded db) t k =
  if bool_decide (k = key)
  then (if tombstone_expired_at tombstone t then None else Some tombstone) else buried db t k.
Proof.
  intros Hd. unfold buried. destruct (bury_item_tables m key encoded db) as [_ ->].
  case_bool_decide as E.
  - subst. by rewrite table_get_insert_eq, Hd.
  - by rewrite table_get_insert_ne.
Qed.

Lemma cleanup_tombstone_len self now : store_ok self →
  uint_val (table_len (cleanup self now).2.(database).(TOMBSTONE_TABLE)) = buried_count self.(database) now.
Proof.
  intros Hok. pose proof (ok_tombstone_count _ (cleanup_ok self now Hok)) as Hn.
  unfold MAX_ABSOLUTE_ITEMS in Hn. rewrite table_len_iter by lia. unfold cleanup, buried_count.
  destruct (cleanup_rows now self.(database)) as (_ & Ht & _).
  destruct (cleanup_database now _) as [rep db]. cbn [snd database set_database] in *. by rewrite Ht.
Qed.

Lemma cleanup_same self now :
  (cleanup self now).2.(identity) = self.(identity) ∧ (cleanup self now).2.(config) = self.(config).
Proof. unfold cleanup. by destruct (cleanup_database now _). Qed.

(** A delete that finds the item, on the cleaned store. *)
Lemma delete_found self m i receipt_id now v current :
  let self1 := (cleanup self now).2 in
  let key := item_key m i in
  store_ok self → table_get key self1.(database).(ITEM_TABLE) = Some v →
  record_decode v = Ok current → live self.(database) now key = Some current →
  ∃ outcome db,
    delete_transaction self1 m i receipt_id now self1.(database) = Ok (outcome, db) ∧
    delete_outcome self m i receipt_id now outcome ∧
    delete_effect key receipt_id outcome now self1.(database) db ∧
    store_ok (set_database db self1).
Proof.
  intros self1 key Hok Hg Hd Hl. pose proof (cleanup_ok self now Hok) as Hok1. fold self1 in Hok1.
  destruct (cleanup_same self now) as [Eid Ecfg]. fold self1 in Eid, Ecfg.
  destruct (item_row_get _ _ _ Hok1 Hg) as (m' & i' & r & _ & Hd' & _ & _ & Hsig).
  rewrite Hd in Hd'. injection Hd' as <-.
  destruct (record_decode_valid _ _ Hd) as (_ & _ & Hv & _).
  destruct (stored_receipt_id_Ok _ _ Hv Hsig) as [id Hid].
  rewrite (delete_transaction_live self1 m i receipt_id now v current id Hg Hd Hid).
  rewrite Ecfg, Eid.
  pose proof (cleanup_tombstone_len self now Hok) as Hlen. fold self1 in Hlen. rewrite Hlen.
  destruct (decide (id = receipt_id)) as [->|Hne].
  2: { rewrite bool_decide_eq_false_2 by done. do 2 eexists. split; [done|].
       split; [by eapply delete_live_mismatch|]. by split. }
  rewrite bool_decide_eq_true_2 by done. cbn [negb].
  destruct (N.leb_spec (max_total_items (config self)) (buried_count (database self) now)) as [Hf|Hf].
  { do 2 eexists. split; [done|]. split; [by eapply delete_full|]. by split. }
  destruct (postcard_total {| delete_version := VERSION; delete_store_key := verifying_key_of (identity self);
    delete_mailbox_id := m; delete_item_id := i; delete_stored_receipt_id := receipt_id;
    deleted_at_unix_seconds := now; delete_expires_at := record_expires_at current |}) as [enc Henc].
  assert (∃ receipt, delete_receipt (identity self) m i receipt_id now (record_expires_at current)
    = Ok receipt) as [receipt Hr].
  { unfold delete_receipt, signing_bytes. rewrite Henc. by eexists. }
  rewrite Hr. cbn [of_mailbox map_err rbind].
  assert (now < record_expires_at current)%N as Hexp.
  { by apply live_Some in Hl as (_ & _ & _ & ?). }
  destruct (delete_receipt_made _ _ _ _ _ _ _ Hr Hexp) as (Hrv & Hrid & _ & _ & _ & Hrs).
  destruct (tombstone_encode_decode (tombstone_of receipt_id receipt)) as (encoded & He & Hdt); [by split|done|].
  rewrite He. cbn [rbind]. do 2 eexists. split; [done|]. split; [by eapply delete_deleted|]. split.
  - intros t k Ht. split; [apply live_bury_item|]. by rewrite (buried_bury_item _ _ _ _ _ _ _ Hdt).
  - apply (bury_item_ok self1 m i encoded _ Hok1 Hdt). rewrite Ecfg.
    rewrite <-table_len_iter, Hlen; [done|]. pose proof (ok_tombstone_count _ Hok1) as Hn.
    unfold MAX_ABSOLUTE_ITEMS in Hn. lia.
Qed.

Lemma delete_spec self address authorization i receipt_id now :
  store_ok self → read_authorization_verify authorization address = Ok tt →
  authorization.(read_content).(operation) = Delete i receipt_id →
  ∃ outcome self',
    delete self address authorization now = (Ok outcome, self') ∧
    delete_outcome self (mailbox_id address) i receipt_id now outcome ∧
    delete_effect (item_key (mailbox_id address) i) receipt_id outcome now
      self.(database) self'.(database) ∧
    store_ok self' ∧ self'.(identity) = self.(identity) ∧ self'.(config) = self.(config).
Proof.
  intros Hok Hv Hop. unfold delete. rewrite Hv, Hop. cbn [with_context of_mailbox map_err].
  pose proof (cleanup_ok self now Hok) as Hok1. destruct (cleanup_same self now) as [Eid Ecfg].
  pose proof (fun t k => cleanup_live self now t k Hok) as HL.
  pose proof (fun t k => cleanup_buried self now t k Hok) as HBu.
  pose proof (fun k v => cleanup_item_live self now k v Hok) as HI.
  pose proof (fun k v => cleanup_tombstone_buried self now k v Hok) as HT.
  pose proof (fun v current => delete_found self (mailbox_id address) i receipt_id now v current) as HF.
  cbv zeta in HF. destruct (cleanup self now) as [rep self1]. cbn [snd] in *.
  set (m := mailbox_id address) in *. set (key := item_key m i) in *. unfold transaction.
  destruct (table_get key self1.(database).(ITEM_TABLE)) as [v|] eqn:Eg.
  - destruct (HI _ _ Eg) as (current & Hd & Hlive). rewrite HL in Hlive by done.
    destruct (HF v current Hok eq_refl Hd Hlive) as (outcome & db & -> & Ho & Heff & Hok').
    exists outcome, (set_database db self1). split; [done|]. split; [done|]. split; [|done].
    intros t k Ht. specialize (Heff t k Ht). rewrite HL, HBu in Heff by done. done.
  - assert (live (database self) now key = None) as Hn.
    { rewrite <-HL by done. unfold live. by rewrite Eg. }
    unfold delete_transaction. fold key. rewrite Eg.
    destruct (table_get key self1.(database).(TOMBSTONE_TABLE)) as [v|] eqn:Et.
    + destruct (HT _ _ Et) as (tb & Hd & Hb). rewrite HBu in Hb by done. rewrite Hd. cbn [rbind].
      do 2 eexists. split; [done|]. split.
      { case_bool_decide; [by eapply delete_again|by eapply delete_buried_mismatch]. }
      split; [|done]. intros t k Ht. specialize (HL t k Ht). specialize (HBu t k Ht).
      case_bool_decide; done.
    + cbn [rbind]. do 2 eexists. split; [done|]. split.
      { apply delete_absent; [done|]. rewrite <-HBu by done. unfold buried. fold key. by rewrite Et. }
      split; [|done]. intros t k Ht. specialize (HL t k Ht). by specialize (HBu t k Ht).
Qed.

(** ** List *)

(** The item a row of the mailbox shows, if it comes after [after]. *)
Definition list_item (m : MailboxId) (after : option MailboxItemId) (row : bytes * bytes)
  : option StoredMailboxItem :=
  let '(key, value) := row in
  let item_id := arr_of 32 (drop 32 key) in
  if ((len key =? ITEM_KEY_BYTES)%N && bool_decide (take 32 key = arr_bytes m)
      && match after with Some after => ord_ltb after item_id | None => true end)
  then match record_decode value with
       | Ok r => Some {| item_item_id := item_id; item_expires_at := record_expires_at r;
                         item_envelope := r.(record_envelope); item_receipt := r.(record_receipt) |}
       | Err _ => None
       end
  else None.

(** The items of a mailbox after [after], in the order of the table. *)
Definition listing (m : MailboxId) (after : option MailboxItemId) (rows : list (bytes * bytes))
  : list StoredMailboxItem := omap (list_item m after) rows.

Lemma list_rows_spec m after (limit : u16) rows acc :
  Forall (fun r => item_row r.1 r.2) rows → (len acc <= limit)%N →
  list_rows m after limit rows acc = Ok (take (S (N.to_nat limit)) (acc ++ listing m after rows)).
Proof.
  intros Hrows. revert acc; induction Hrows as [|[k v] rows Hrow Hrows IH]; intros acc Hacc.
  { cbn. rewrite app_nil_r, take_ge; [done|]. unfold len in Hacc. lia. }
  destruct Hrow as (m' & i & r & Hk & Hd & Hm & Hi & _). cbn [fst snd] in Hk, Hd. subst k.
  unfold listing. cbn [list_rows omap list_omap list_item].
  rewrite item_key_len, N.eqb_refl, item_key_take, item_key_drop, arr_of_arr. cbn [negb orb andb].
  case_bool_decide as E; cbn [negb andb]; [|by apply IH].
  apply arr_eq in E as E'. subst m'.
  assert (match after with Some after => ord_geb after i | None => false end =
    negb (match after with Some after => ord_ltb after i | None => true end)) as ->
    by (by destruct after).
  destruct (match after with Some after => ord_ltb after i | None => true end); cbn [negb];
    [|by apply IH].
  rewrite Hd. cbn [rbind]. rewrite (proj2 (ensure_Ok _ _)).
  2: { subst. by rewrite !bool_decide_eq_true_2. }
  cbn [rbind]. change (omap (list_item m after) rows) with (listing m after rows).
  match goal with |- context [acc ++ [?x]] => set (item := x) end.
  replace (acc ++ item :: listing m after rows) with ((acc ++ [item]) ++ listing m after rows)
    by (by rewrite <-app_assoc).
  destruct (N.ltb_spec limit (len (acc ++ [item]))) as [Hl|Hl]; [|by apply IH].
  rewrite take_app_le, take_ge; [done| |]; unfold len in Hl; rewrite length_app in *; cbn in *;
    unfold len in Hacc; lia.
Qed.

(** The rows live at [now]. *)
Definition live_rows (self : BlindMailboxStore) (now : u64) : list (bytes * bytes) :=
  kept_items now self.(database).

Lemma cleanup_items self now : items (cleanup self now).2.(database) = live_rows self now.
Proof.
  unfold cleanup, live_rows. destruct (cleanup_rows now self.(database)) as [Hi _].
  by destruct (cleanup_database now _).
Qed.

Definition page_of (limit : u16) (l : list StoredMailboxItem) : StoredMailboxPage :=
  {| page_items := take (N.to_nat limit) l;
     next_after_item_id :=
       if (limit <? len l)%N then option_map item_item_id (last (take (N.to_nat limit) l)) else None;
     more_available := (limit <? len l)%N |}.

Lemma list_page_spec self address authorization nonce after limit now :
  store_ok self → read_authorization_verify authorization address = Ok tt →
  authorization.(read_content).(operation) = List nonce after limit →
  list_page self address authorization now =
  (Ok (page_of limit (listing (mailbox_id address) after (live_rows self now))), (cleanup self now).2).
Proof.
  intros Hok Hv Hop. unfold list_page. rewrite Hv, Hop. cbn [with_context of_mailbox map_err].
  pose proof (cleanup_items self now) as Hi. pose proof (cleanup_ok self now Hok) as Hok1.
  destruct (cleanup self now) as [rep self1]. cbn [snd] in *. f_equal.
  change (table_iter (ITEM_TABLE (database self1))) with (items (database self1)).
  rewrite list_rows_spec; [| |apply N.le_0_l].
  2: { apply Forall_forall. intros [k v] Hin. by apply (ok_items _ Hok1). }
  cbn [rbind app]. rewrite Hi. set (l := listing _ _ _). unfold page_of.
  assert ((limit <? len (take (S (N.to_nat limit)) l)) = (limit <? len l))%N as ->.
  { unfold len. rewrite length_take.
    destruct (N.ltb_spec limit (N.of_nat (length l))) as [?|?];
      [apply N.ltb_lt|apply N.ltb_ge]; lia. }
  destruct (N.ltb_spec limit (len l)) as [Hl|Hl].
  - by rewrite take_take, Nat.min_l by lia.
  - unfold len in Hl. by rewrite !take_ge by lia.
Qed.

(** Items of one mailbox are listed in ascending order of their identifiers. *)
Lemma bytes_cmp_app_l a b c : bytes_cmp (a ++ b) (a ++ c) = bytes_cmp b c.
Proof. induction a as [|x a IH]; [done|]. cbn [app bytes_cmp]. by rewrite N.compare_refl. Qed.

Lemma list_item_Some m after k v x : list_item m after (k, v) = Some x →
  k = item_key m x.(item_item_id) ∧
  match after with Some after => ord_lt after x.(item_item_id) | None => True end.
Proof.
  unfold list_item. destruct (_ && _ && _) eqn:E; [|done].
  apply andb_true_iff in E as [[El%N.eqb_eq Em%bool_decide_eq_true]%andb_true_iff Ea].
  destruct (record_decode v); [|done]. intros [= <-]. cbn [item_item_id].
  split; [|destruct after; [by apply ord_ltb_lt|done]].
  unfold item_key. rewrite <-Em, arr_of_bytes, take_drop; [done|].
  unfold len, ITEM_KEY_BYTES in El. rewrite length_drop. lia.
Qed.

Lemma listing_elem m after rows x : x ∈ listing m after rows →
  ∃ v, (item_key m x.(item_item_id), v) ∈ rows ∧
  match after with Some after => ord_lt after x.(item_item_id) | None => True end.
Proof.
  unfold listing. intros ([k v] & Hin & Hx)%list_elem_of_omap. apply list_item_Some in Hx as [-> Ha].
  eauto.
Qed.

Lemma listing_sorted m after rows : rows_sorted rows →
  StronglySorted (fun a b => ord_lt a.(item_item_id) b.(item_item_id)) (listing m after rows).
Proof.
  unfold listing. induction 1 as [|[k v] rows Hs IH Hf]; [constructor|].
  cbn [omap list_omap]. destruct (list_item m after (k, v)) as [x|] eqn:Ex; [|done].
  constructor; [done|]. apply Forall_forall. intros y Hy.
  apply list_item_Some in Ex as [-> _].
  change (omap (list_item m after) rows) with (listing m after rows) in Hy.
  apply listing_elem in Hy as (w & Hw & _). rewrite Forall_forall in Hf. specialize (Hf _ Hw).
  unfold ord_lt in *. cbn in *. unfold item_key in Hf. by rewrite bytes_cmp_app_l in Hf.
Qed.

(** Moving [after] forward drops the items up to it. *)
Lemma list_item_after m after next row :
  match after with Some after => ord_lt after next | None => True end →
  list_item m (Some next) row =
  match list_item m after row with
  | Some x => if ord_ltb next x.(item_item_id) then Some x else None
  | None => None
  end.
Proof.
  destruct row as [k v]. intros Hn. unfold list_item.
  destruct (_ && bool_decide _); cbn [andb]; [|done].
  destruct (ord_ltb next (arr_of 32 (drop 32 k))) eqn:E1.
  - assert (match after with Some after => ord_ltb after (arr_of 32 (drop 32 k)) | None => true end
      = true) as ->.
    { destruct after as [a|]; [|done]. apply ord_ltb_lt. apply ord_ltb_lt in E1. by transitivity next. }
    destruct (record_decode v); [|done]. cbn [item_item_id]. by rewrite E1.
  - destruct (match after with Some after => _ | None => true end); [|done].
    destruct (record_decode v); [|done]. cbn [item_item_id]. by rewrite E1.
Qed.

Lemma listing_after m after next rows :
  match after with Some after => ord_lt after next | None => True end →
  listing m (Some next) rows =
  List.filter (fun x => ord_ltb next x.(item_item_id)) (listing m after rows).
Proof.
  intros Hn. unfold listing. induction rows as [|row rows IH]; [done|].
  cbn [omap list_omap]. rewrite (list_item_after m after) by done.
  destruct (list_item m after row) as [x|]; [|exact IH].
  cbn [List.filter]. destruct (ord_ltb next (item_item_id x)); [by f_equal|exact IH].
Qed.

Lemma filter_after_drop {A} (f : A → MailboxItemId) l n x :
  StronglySorted (fun a b => ord_lt (f a) (f b)) l → last (take n l) = Some x →
  List.filter (fun y => ord_ltb (f x) (f y)) l = drop n l.
Proof.
  intros Hs. revert n; induction Hs as [|y l Hs IH Hf]; intros n Hl; [by destruct n|].
  destruct n as [|n]; [done|]. cbn [take] in Hl. cbn [List.filter drop].
  rewrite Forall_forall in Hf. destruct (take n l) as [|z zs] eqn:Et.
  - injection Hl as ->. rewrite (proj1 (not_true_iff_false _)) by (intros H%ord_ltb_lt; by apply ord_lt_irrefl in H).
    assert (n = 0%nat ∨ l = []) as [->| ->].
    { destruct n; [by left|]. destruct l; [by right|done]. }
    + rewrite drop_0. clear -Hf. induction l as [|z l IH]; [done|]. cbn [List.filter].
      rewrite (proj2 (ord_ltb_lt _ _)) by (apply Hf; by left). f_equal. apply IH.
      intros w Hw. apply Hf. by right.
    + by rewrite drop_nil.
  - rewrite last_cons_cons in Hl. rewrite <-Et in Hl. rewrite <-(IH n Hl).
    assert (x ∈ l) as Hx.
    { apply last_Some_elem_of in Hl. by apply subseteq_take in Hl. }
    rewrite (proj1 (not_true_iff_false _)); [done|]. intros H%ord_ltb_lt.
    by apply (ord_lt_not_gt _ _ H), Hf.
Qed.

(** ** Opening and reachable stores *)

Lemma init_accounting_meta key db :
  read_meta (init_accounting key db) = read_meta db ∧
  items (init_accounting key db) = items db ∧
  (init_accounting key db).(TOMBSTONE_TABLE) = db.(TOMBSTONE_TABLE) ∧
  ∀ m, read_mailbox_count m (init_accounting key db) = read_mailbox_count m db.
Proof.
  unfold init_accounting. destruct (table_get key (META_TABLE db)) as [v|] eqn:E; [done|].
  split; [|done]. unfold read_meta, set_meta. cbn [META_TABLE].
  assert (∀ k, value_or_zero (table_get k (table_insert key (as_u64 0) (META_TABLE db))) =
               value_or_zero (table_get k (META_TABLE db))) as Hk; [|by rewrite !Hk].
  intros k. destruct (decide (k = key)) as [->|Hne].
  - by rewrite table_get_insert_eq, E.
  - by rewrite table_get_insert_ne.
Qed.

(** The part of the invariant that does not mention the configuration. *)
Definition rows_ok (db : Database) : Prop :=
  (∀ k v, (k, v) ∈ items db → item_row k v) ∧
  (∀ k v, (k, v) ∈ table_iter db.(TOMBSTONE_TABLE) → tombstone_row k v) ∧
  covered db ∧ (len (table_iter db.(TOMBSTONE_TABLE)) <= MAX_ABSOLUTE_ITEMS)%N.

Lemma init_accounting_rows_ok key db : rows_ok db → rows_ok (init_accounting key db).
Proof.
  intros (Hi & Ht & (Ha & Hb & Hc) & Hn). destruct (init_accounting_meta key db) as (Em & Ei & Et & Ec).
  unfold rows_ok, covered. rewrite Em, Ei, Et. repeat (split; [done|]). split; [|done].
  split; [done|]. split; [done|]. intros m. by rewrite Ec.
Qed.

Lemma open_ok cfg id db self db' :
  rows_ok db → open cfg id db = (Ok self, db') → store_ok self.
Proof.
  intros Hok. unfold open. destruct (config_validate cfg) as [[]|] eqn:Ecfg; [|done].
  unfold open_initialize. set (db1 := init_accounting _ _).
  assert (rows_ok db1) as (Hi & Ht & Hc & Hn) by (by do 2 apply init_accounting_rows_ok).
  assert (∀ db2, items db2 = items db1 → db2.(TOMBSTONE_TABLE) = db1.(TOMBSTONE_TABLE) → covered db2 →
    (let store := {| database := db2; identity := id; config := cfg |} in
     let '(items, bytes) := live_usage store in
     if ((items <=? cfg.(max_total_items)) && (bytes <=? cfg.(max_total_bytes)))%N
     then (Ok store, db2)
     else (Err (Message "existing mailbox data exceeds configured capacity"), db2)) = (Ok self, db') →
    store_ok self) as Hfin.
  { intros db2 Ei Et Hcov. cbv zeta. destruct (live_usage _) as [a b] eqn:El.
    destruct (_ && _) eqn:Eb; [|done]. intros [= <- <-].
    apply andb_true_iff in Eb as [E1%N.leb_le E2%N.leb_le].
    split; cbn [database config]; rewrite ?Ei, ?Et, ?El; done. }
  destruct (table_get STORE_KEY _) as [current|].
  - destruct (ensure _ _) as [[]|]; [|done]. by apply Hfin.
  - by apply Hfin.
Qed.

Lemma create_rows_ok : rows_ok Database_create.
Proof.
  unfold rows_ok, items, Database_create. cbn [ITEM_TABLE TOMBSTONE_TABLE].
  rewrite !table_new_iter. split; [by intros ? ? ?%not_elem_of_nil|].
  split; [by intros ? ? ?%not_elem_of_nil|]. split; [|done].
  unfold covered, items. cbn [ITEM_TABLE]. rewrite table_new_iter.
  split; [apply N.le_0_l|]. split; [apply N.le_0_l|]. intros m. apply N.le_0_l.
Qed.

Lemma store_ok_rows self : store_ok self → rows_ok self.(database).
Proof. by intros []. Qed.

(** The stores a sequence of operations leads to. *)
Inductive reachable : BlindMailboxStore → Prop :=
| reach_create cfg id self db :
    open cfg id Database_create = (Ok self, db) → reachable self
| reach_reopen self cfg id self' db :
    reachable self → open cfg id self.(database) = (Ok self', db) → reachable self'
| reach_put self address authorization envelope now :
    reachable self → reachable (put self address authorization envelope now).2
| reach_list self address authorization now :
    reachable self → reachable (list_page self address authorization now).2
| reach_delete self address authorization now :
    reachable self → reachable (delete self address authorization now).2
| reach_cleanup self now : reachable self → reachable (cleanup self now).2.

Lemma reachable_ok self : reachable self → store_ok self.
Proof.
  induction 1 as [cfg id self db Ho|self cfg id self' db _ IH Ho|self address authorization envelope now _ IH
                 |self address authorization now _ IH|self address authorization now _ IH|self now _ IH].
  - by apply (open_ok _ _ _ _ _ create_rows_ok Ho).
  - by apply (open_ok _ _ _ _ _ (store_ok_rows _ IH) Ho).
  - destruct (put_candidate self address authorization envelope now) as [[key candidate]|e] eqn:Ep.
    + by destruct (put_spec _ _ _ _ _ _ _ IH Ep) as (? & ? & -> & _ & _ & ? & _).
    + unfold put. by rewrite Ep.
  - unfold list_page. destruct (with_context _ _); [|done]. destruct (operation _); [|done].
    pose proof (cleanup_ok self now IH). by destruct (cleanup self now).
  - destruct (read_authorization_verify authorization address) as [[]|e] eqn:Ev;
      [|unfold delete; by rewrite Ev].
    destruct (operation (read_content authorization)) as [|i rid] eqn:Eop;
      [unfold delete; by rewrite Ev, Eop|].
    by destruct (delete_spec _ _ _ _ _ now IH Ev Eop) as (? & ? & -> & _ & _ & ? & _).
  - by apply cleanup_ok.
Qed.

(** ** The properties *)

(** C7: in every reachable store the counters are at least what the tables
    hold and at most the configured capacity, and every item row is a record
    the store signed, under the key of its mailbox and item. *)
Theorem mailbox_store_invariant self : reachable self →
  (len (items self.(database)) <= (live_usage self).1 <= self.(config).(max_total_items))%N ∧
  (rows_bytes (items self.(database)) <= (live_usage self).2 <= self.(config).(max_total_bytes))%N ∧
  (∀ m, (mailbox_rows m (items self.(database)) <= read_mailbox_count m self.(database))%N) ∧
  ∀ k v, (k, v) ∈ items self.(database) → item_row k v.
Proof.
  intros Hok%reachable_ok. destruct (ok_covered _ Hok) as (Ha & Hb & Hc).
  split; [split; [done|apply (ok_total_items _ Hok)]|].
  split; [split; [done|apply (ok_total_bytes _ Hok)]|]. split; [done|apply (ok_items _ Hok)].
Qed.


(** C8: [put] of an accepted request always returns, with the outcome the
    abstract store dictates, [Created] exactly when the key holds nothing live
    or buried and the counters have room; only then does a key change, to the
    record until its expiry. *)
Theorem put_refines self address authorization envelope now key candidate :
  reachable self →
  put_candidate self address authorization envelope now = Ok (key, candidate) →
  ∃ outcome self',
    put self address authorization envelope now = (Ok outcome, self') ∧
    put_outcome self (mailbox_id address) key candidate now outcome ∧
    put_effect key candidate outcome now self.(database) self'.(database) ∧
    candidate_ok self address authorization envelope now key candidate ∧
    (is_Created outcome = true →
     (read_mailbox_count (mailbox_id address) self'.(database) <=
      self.(config).(max_items_per_mailbox))%N).
Proof.
  intros Hok%reachable_ok Hp.
  destruct (put_spec _ _ _ _ _ _ _ Hok Hp) as (o & self' & Hput & Ho & He & _ & _ & _ & Hc).
  exists o, self'. pose proof (put_candidate_ok _ _ _ _ _ _ _ Hp). done.
Qed.

(** C9: [delete] under a valid authorization always returns, with the outcome
    the abstract store dictates; a deleted key holds nothing but the tombstone
    until the item's expiry, and nothing else changes. *)
Theorem delete_refines self address authorization i receipt_id now :
  reachable self → read_authorization_verify authorization address = Ok tt →
  authorization.(read_content).(operation) = Delete i receipt_id →
  ∃ outcome self',
    delete self address authorization now = (Ok outcome, self') ∧
    delete_outcome self (mailbox_id address) i receipt_id now outcome ∧
    delete_effect (item_key (mailbox_id address) i) receipt_id outcome now
      self.(database) self'.(database).
Proof.
  intros Hok%reachable_ok Hv Hop.
  destruct (delete_spec _ _ _ _ _ now Hok Hv Hop) as (o & self' & ? & ? & ? & _). by exists o, self'.
Qed.

(** a deleted item stays deleted until it would have expired: a [put] of
    the same item is [Tombstoned], and the same [delete] again returns the
    receipt of the first one. *)
Theorem deleted_stays_deleted self address authorization i receipt_id now receipt self' now' :
  reachable self → authorization.(read_content).(operation) = Delete i receipt_id →
  delete self address authorization now = (Ok (Deleted receipt), self') →
  (now <= now' < receipt.(delete_content).(delete_expires_at))%N →
  (∃ self'', delete self' address authorization now' = (Ok (AlreadyDeleted receipt), self'')) ∧
  ∀ write envelope key candidate,
    put_candidate self' address write envelope now' = Ok (key, candidate) →
    write.(write_content).(write_item_id) = i →
    ∃ self'', put self' address write envelope now' = (Ok Tombstoned, self'').
Proof.
  intros Hok%reachable_ok Hop Hdel Hnow.
  assert (read_authorization_verify authorization address = Ok tt) as Hv.
  { unfold delete in Hdel. by destruct (read_authorization_verify authorization address) as [[]|]. }
  destruct (delete_spec _ _ _ _ _ now Hok Hv Hop) as (o & s' & Hd & _ & He & Hok' & _).
  rewrite Hdel in Hd. injection Hd as <- <-.
  destruct (He now' (item_key (mailbox_id address) i) ltac:(lia)) as [Hl Hb].
  rewrite bool_decide_eq_true_2 in Hl by done. rewrite bool_decide_eq_true_2 in Hb by done.
  rewrite (proj2 (N.leb_gt _ _)) in Hb by lia. split.
  - destruct (delete_spec _ _ _ _ _ now' Hok' Hv Hop) as (o & s'' & Hd & Ho & _).
    exists s''. rewrite Hd. destruct Ho as [| | |tb _ Hb' _|tb _ Hb' Hne|]; try congruence.
    all: rewrite Hb in Hb'; injection Hb' as <-; done.
  - intros write envelope key candidate Hp Hi.
    destruct (put_spec _ _ _ _ _ _ _ Hok' Hp) as (o & s'' & Hput & Ho & _). exists s''.
    rewrite Hput. destruct (put_candidate_ok _ _ _ _ _ _ _ Hp) as [-> _ _ _ _ _ _ _].
    rewrite Hi in Ho. inversion Ho; congruence.
Qed.


(** a [put] refused for capacity over an expired item removes the item's
    row and leaves the counters as they were, so the store goes on counting
    an item it no longer has until the next cleanup. *)
Theorem put_capacity_drift self address authorization envelope now key candidate v self' :
  reachable self →
  put_candidate self address authorization envelope now = Ok (key, candidate) →
  table_get key self.(database).(ITEM_TABLE) = Some v →
  put self address authorization envelope now = (Ok CapacityExceeded, self') →
  live_usage self' = live_usage self ∧
  (len (items self'.(database)) + 1 = len (items self.(database)))%N ∧
  (len (items self'.(database)) < (live_usage self').1)%N.
Proof.
  intros Hok%reachable_ok Hp Hg Hput.
  destruct (put_candidate_ok _ _ _ _ _ _ _ Hp) as [-> Hv _ _ _ _ _ _].
  destruct (record_encode_Ok _ Hv) as (encoded & He & _).
  unfold put, transaction in Hput. rewrite Hp in Hput.
  rewrite (put_transaction_eq _ _ _ _ _ encoded Hok He) in Hput. set (k := item_key _ _) in *.
  destruct (live _ _ _) as [current|]; [by destruct (_ && _)|].
  destruct (buried _ _ _); [done|]. destruct (full _ _ _); [|done]. injection Hput as <-.
  assert (live_usage (set_database (drop_item k (drop_tombstone k (database self))) self)
          = live_usage self) as Hu.
  { unfold live_usage, set_database. cbn [database]. rewrite drop_item_meta.
    unfold read_meta. by destruct (drop_tombstone_same k (database self)) as (_ & -> & _). }
  assert (len (items (drop_item k (drop_tombstone k (database self)))) + 1
          = len (items (database self)))%N as Hl.
  { unfold items, drop_item. destruct (drop_tombstone_same k (database self)) as (-> & _). rewrite Hg.
    cbn [set_items ITEM_TABLE]. rewrite (len_perm _ _ (table_iter_remove _ _ _ Hg)), len_cons. lia. }
  rewrite Hu. split; [done|]. split; [done|].
  destruct (ok_covered _ Hok) as (Ha & _). unfold set_database, live_usage in *. cbn [database] in *. lia.
Qed.

End store.

(** * Concrete inputs *)

Module MailboxStoreExample.
Import MailboxExample.

#[local] Existing Instance Toy.blake3_instance.
#[local] Existing Instance Toy.ed25519_instance.
#[local] Existing Instance Toy.ed25519_laws.
#[local] Existing Instance SortedTable.redb_instance.
#[local] Existing Instance SortedTable.redb_laws.

#[export] Instance record_codec : Codec StoredRecord.
Proof.
  by refine (iso_codec (fun r => (record_version r, (record_ttl_seconds r, (record_envelope r,
      record_receipt r))))
    (fun '(v, (t, (e, r))) => Build_StoredRecord v t e r) _).
Defined.

#[export] Instance tombstone_codec : Codec StoredTombstone.
Proof.
  by refine (iso_codec (fun t => (tombstone_version t, (tombstone_stored_receipt_id t,
      tombstone_delete_receipt t)))
    (fun '(v, (i, r)) => Build_StoredTombstone v i r) _).
Defined.

#[export] Instance store_postcard : StorePostcard :=
  {| pc_record := codec_postcard; pc_tombstone := codec_postcard |}.

Lemma vec_codec_len (b : bytes) : (len b < U64_BOUND)%N → len (codec_enc b) = (len b + 9)%N.
Proof.
  intros Hb. cbn [codec_enc vec_codec]. rewrite (proj2 (N.ltb_lt _ _) Hb), len_cons, len_app.
  unfold len at 1. rewrite length_to_be_bytes. lia.
Qed.

Lemma stored_codec_len (r : MailboxStoredReceipt) : (len r.(stored_signature) < U64_BOUND)%N →
  len (codec_enc r) = (len r.(stored_signature) + 162)%N.
Proof.
  intros Hs. change (codec_enc r) with (codec_enc r.(stored_content) ++ codec_enc r.(stored_signature)).
  rewrite len_app, vec_codec_len by done.
  cbn [codec_enc stored_content_codec iso_codec pair_codec byte_codec arr_codec u64_codec].
  rewrite !len_app, !len_arr. unfold len. rewrite !length_to_be_bytes. cbn [length]. lia.
Qed.

Lemma delete_codec_len (r : MailboxDeleteReceipt) : (len r.(delete_signature) < U64_BOUND)%N →
  len (codec_enc r) = (len r.(delete_signature) + 154)%N.
Proof.
  intros Hs. change (codec_enc r) with (codec_enc r.(delete_content) ++ codec_enc r.(delete_signature)).
  rewrite len_app, vec_codec_len by done.
  cbn [codec_enc delete_content_codec iso_codec pair_codec byte_codec arr_codec u64_codec].
  rewrite !len_app, !len_arr. unfold len. rewrite !length_to_be_bytes. cbn [length]. lia.
Qed.

Lemma codec_Some `{Codec A} (a : A) bs : @to_allocvec A codec_postcard a = Some bs → bs = codec_enc a.
Proof. cbn. congruence. Qed.

#[export] Instance store_postcard_laws : StorePostcardLaws mailbox_postcard store_postcard.
Proof.
  split; try apply codec_postcard_laws; [apply mailbox_postcard_laws| | |].
  - intros r bs Ebs Hs. apply codec_Some in Ebs as ->. rewrite stored_codec_len by done. lia.
  - intros r bs Ebs He Hs. apply codec_Some in Ebs as ->.
    change (codec_enc r) with ([record_version r] ++ to_be_bytes 8 (record_ttl_seconds r) ++
      codec_enc (record_envelope r) ++ codec_enc (record_receipt r)).
    rewrite !len_app, vec_codec_len, stored_codec_len by done. unfold len.
    rewrite !length_to_be_bytes. cbn [length]. lia.
  - intros t bs Ebs Hs. apply codec_Some in Ebs as ->.
    change (codec_enc t) with ([tombstone_version t] ++ arr_bytes (tombstone_stored_receipt_id t) ++
      codec_enc (tombstone_delete_receipt t)).
    rewrite !len_app, delete_codec_len, len_arr by done. unfold len. cbn [length]. lia.
Qed.

(** The value of a result known to be one. *)
Definition ok_or_default {E A} (d : A) (r : result E A) : A :=
  match r with Ok a => a | Err _ => d end.

Lemma pair_fst {A B} (p : A * B) a : p.1 = a → p = (a, p.2).
Proof. destruct p. by intros <-. Qed.

(** A store of at most ten bytes. *)
Definition small : MailboxStoreConfig :=
  {| data_dir := "d"; max_envelope_bytes := as_u64 10; max_items_per_mailbox := as_u64 4;
     max_total_items := as_u64 8; max_total_bytes := as_u64 10 |}.

Definition empty : BlindMailboxStore := {|
  database := {|
    ITEM_TABLE := table_new; TOMBSTONE_TABLE := table_new; MAILBOX_COUNT_TABLE := table_new;
    META_TABLE := table_insert TOTAL_ITEMS_KEY (as_u64 0)
                    (table_insert TOTAL_BYTES_KEY (as_u64 0) table_new);
    IDENTITY_TABLE := table_insert STORE_KEY (arr_bytes (verifying_key_of store)) table_new |};
  identity := store; config := small |}.

Lemma empty_reachable : reachable empty.
Proof. apply (reach_create small store empty (database empty)). reflexivity. Qed.

(** The writer's authorization for an item. *)
Definition writes (item : N) (text : bytes) : MailboxWriteAuthorization :=
  ok_or_default write_authorization
    (write_capability_authorize writer address (id item) (as_u64 60) text).

Definition six : bytes := b_str "sealed".
Definition three : bytes := b_str "box".
Definition eight : bytes := b_str "envelope".

(** Two items stored at time 100, which expire at 160. *)
Definition one_item := (put empty address (writes 7 six) six (as_u64 100)).2.
Definition two_items := (put one_item address (writes 8 three) three (as_u64 100)).2.

Lemma two_items_reachable : reachable two_items.
Proof. apply reach_put, reach_put, empty_reachable. Qed.

(** The candidate of an accepted request. *)
Definition candidate_of (self : BlindMailboxStore) (item : N) (text : bytes) (now : N) : StoredRecord :=
  (ok_or_default ([], {| record_version := x00; record_ttl_seconds := as_u64 0; record_envelope := [];
                         record_receipt := receipt |})
    (put_candidate self address (writes item text) text (as_u64 now))).2.

Definition key_of (item : N) : bytes := item_key (mailbox_id address) (id item).

Lemma mailbox_store_invariant_witness :
  (len (items two_items.(database)) <= (live_usage two_items).1)%N.
Proof. exact (proj1 (proj1 (mailbox_store_invariant two_items two_items_reachable))). Defined.


Lemma put_refines_witness :
  ∃ outcome self', put empty address (writes 7 six) six (as_u64 100) = (Ok outcome, self') ∧
    put_outcome empty (mailbox_id address) (key_of 7) (candidate_of empty 7 six 100) (as_u64 100) outcome.
Proof.
  destruct (put_refines empty address (writes 7 six) six (as_u64 100) (key_of 7)
    (candidate_of empty 7 six 100) empty_reachable) as (o & s & Hp & Ho & _).
  - vm_compute. reflexivity.
  - exists o, s. split; [exact Hp|exact Ho].
Defined.

(** The reader's authorization to delete item 7. *)
Definition receipt_of_7 : arr 32 :=
  ok_or_default (id 0) (stored_receipt_id (record_receipt (candidate_of empty 7 six 100))).

Definition deletes_7 : MailboxReadAuthorization :=
  ok_or_default read_authorization (authorize_delete reader address (id 7) receipt_of_7).

#[local] Abbreviation delete_7 := (delete one_item address deletes_7 (as_u64 110)).

(** The receipt of an outcome. *)
Definition deleted_receipt (r : result StoreError DeleteOutcome) : MailboxDeleteReceipt :=
  match r with
  | Ok (Deleted r) => r
  | _ => {| delete_content := {| delete_version := x00; delete_store_key := id 0;
              delete_mailbox_id := id 0; delete_item_id := id 0; delete_stored_receipt_id := id 0;
              deleted_at_unix_seconds := as_u64 0; delete_expires_at := as_u64 0 |};
            delete_signature := [] |}
  end.

Definition delete_receipt_7 : MailboxDeleteReceipt := deleted_receipt delete_7.1.

Lemma one_item_reachable : reachable one_item.
Proof. apply reach_put, empty_reachable. Qed.

Lemma delete_7_deleted :
  delete_7 = (Ok (Deleted delete_receipt_7), delete_7.2).
Proof. apply pair_fst. vm_compute. reflexivity. Qed.

Lemma delete_refines_witness :
  ∃ outcome self', delete_7 = (Ok outcome, self') ∧
    delete_outcome one_item (mailbox_id address) (id 7) receipt_of_7 (as_u64 110) outcome.
Proof.
  destruct (delete_refines one_item address deletes_7 (id 7) receipt_of_7 (as_u64 110)
    one_item_reachable) as (o & s & Hd & Ho & _).
  - vm_compute. reflexivity.
  - vm_compute. reflexivity.
  - exists o, s. split; [exact Hd|exact Ho].
Defined.

Lemma deleted_stays_deleted_witness :
  ∃ self'', delete delete_7.2 address deletes_7 (as_u64 159)
            = (Ok (AlreadyDeleted delete_receipt_7), self'').
Proof.
  refine (proj1 (deleted_stays_deleted one_item address deletes_7 (id 7) receipt_of_7 (as_u64 110)
    delete_receipt_7 delete_7.2 (as_u64 159) one_item_reachable _ delete_7_deleted _)).
  - vm_compute. reflexivity.
  - vm_compute. split; [discriminate|reflexivity].
Defined.

(** One item per page. *)
Definition lists_one : MailboxReadAuthorization :=
  ok_or_default read_authorization
    (authorize_list_page reader address (id 9) None (@mk_uint U16_BOUND 1 eq_refl)).


(** A larger envelope for item 7 after its expiry does not fit beside item 8. *)
#[local] Abbreviation refused := (put two_items address (writes 7 eight) eight (as_u64 200)).

Lemma refused_capacity :
  refused = (Ok CapacityExceeded, refused.2).
Proof. apply pair_fst. vm_compute. reflexivity. Qed.

Definition row_7 : bytes :=
  default [] (table_get (key_of 7) two_items.(database).(ITEM_TABLE)).

Lemma put_capacity_drift_witness :
  (len (items refused.2.(database)) < (live_usage refused.2).1)%N.
Proof.
  refine (proj2 (proj2 (put_capacity_drift two_items address (writes 7 eight) eight (as_u64 200)
    (key_of 7) (candidate_of two_items 7 eight 200) row_7 refused.2 two_items_reachable _ _
    refused_capacity))).
  - vm_compute. reflexivity.
  - vm_compute. reflexivity.
Defined.

End MailboxStoreExample.
