(* ===== verification/OrderedGuard.v ===== *)
(** The ordering guard of [crates/kilogram-ratchet/src/ordered_v2.rs]: the
    bounded state with which a device orders the events of a two-party dialog
    and follows the Diffie-Hellman turns of the native ratchet.

    A [Guard2] summarizes the device's own lane and its peer's.  An event is
    first checked against the guard ([preflight_send], [preflight_receive]),
    then tried by the native ratchet, and only then recorded ([apply]).
    [import_l1] rebuilds a guard from the events of the previous format.

    The [postcard] serializer of the checkpoint is the interface [Postcard];
    arithmetic is that of [u64] with [checked_add] and [checked_mul]. *)

From stdpp Require Import base tactics list numbers strings gmap sorting.
From Stdlib Require Import Strings.Byte.
From S2P Require Import Prelude Postcard.

(** * Data *)

Abbreviation Id := (arr 32).

Definition MAX_GUARD : usize := 1024.
Definition MAX_CHECKPOINT : usize := 128 * 1024.

Inductive Counter :=
| Ordinal | Author | RootGeneration | NativeGeneration | LaneGeneration | Symmetric | Turn.

Inductive GuardError :=
| CounterExhausted (kind : Counter)
| Input (reason : string)
| Checkpoint (reason : string).

Record ClosedTail := {
  tail_g : u64;
  tail_key : Id;
  tail_index : u64;
  tail_last : Id
}.

Record Expected := {
  exp_g : u64;
  exp_index : u64;
  exp_parent : option Id;
  exp_tail : option ClosedTail
}.

Record Lane := {
  lane_next : u64;
  lane_last : option Id;
  lane_g : u64;
  lane_key : option Id;
  lane_index : u64;
  lane_first : option Id;
  lane_parent : option Id;
  lane_sequence : option u64
}.

Record EventMeta := {
  ev_role : byte;
  ev_n : u64;
  ev_previous : option Id;
  ev_sequence : u64;
  ev_kind : byte;
  ev_native_kind : byte;
  ev_key : Id;
  ev_index : u64;
  ev_expected : Expected
}.

Record Seen := {
  seen_generation : u64;
  seen_first : Id
}.

Inductive SeenObservation :=
| Absent
| Present (s : Seen).

Record Guard2 := {
  g_version : byte;
  g_role : byte;
  g_own : Lane;
  g_peer : Lane;
  g_rotate_due : bool;
  g_received_new_first : option Id;
  g_used_own_first : option Id
}.

Record PreparedStep := {
  step_before : Guard2;
  step_event : EventMeta;
  step_receive : bool;
  step_next : u64;
  step_native_post_index : u64;
  step_native_post_turn : u64
}.

Record ImportedL1 := {
  imported_guard : Guard2;
  imported_seen : list (byte * Id * Seen)
}.

Record L1CheckpointFacts := {
  facts_role : byte;
  facts_own : Lane;
  facts_peer : Lane;
  facts_rotate_due : bool;
  facts_received_new_first : option Id;
  facts_used_own_first : option Id
}.

#[export] Instance ClosedTail_eq_dec : EqDecision ClosedTail.
Proof. solve_decision. Defined.
#[export] Instance Expected_eq_dec : EqDecision Expected.
Proof. solve_decision. Defined.
#[export] Instance Lane_eq_dec : EqDecision Lane.
Proof. solve_decision. Defined.
#[export] Instance EventMeta_eq_dec : EqDecision EventMeta.
Proof. solve_decision. Defined.
#[export] Instance Seen_eq_dec : EqDecision Seen.
Proof. solve_decision. Defined.
#[export] Instance Guard2_eq_dec : EqDecision Guard2.
Proof. solve_decision. Defined.

(** * Arithmetic *)

Definition u64_0 : u64 := as_u64 0.
Definition u64_1 : u64 := as_u64 1.

(** [Option::is_none] and [Option::is_some]. *)
Definition is_none {A} (o : option A) : bool := match o with None => true | Some _ => false end.
Definition is_some {A} (o : option A) : bool := negb (is_none o).

(** [u64::checked_mul]. *)
Definition u64_checked_mul (a b : u64) : option u64 :=
  if (uint_val a * uint_val b <? U64_BOUND)%N then Some (as_u64 (uint_val a * uint_val b)) else None.

Definition successor (n : u64) (kind : Counter) : result GuardError u64 :=
  ok_or (u64_checked_add n u64_1) (CounterExhausted kind).

Definition consume_index (j : u64) : result GuardError u64 := successor j Symmetric.

Definition continuation_index (last : u64) : result GuardError (u64 * u64) :=
  let? j := successor last Symmetric in
  let? k := consume_index j in
  Ok (j, k).

Definition turn (role : byte) (g : u64) : result GuardError u64 :=
  fail_if (1 <? byte_val role)%N (Input "role") ;?
  ok_or
    (match u64_checked_mul g (as_u64 2) with
     | Some v => u64_checked_add v (as_u64 (byte_val role))
     | None => None
     end)
    (CounterExhausted Turn).

Definition dh_step (pre : u64) (role : byte) (g : u64) : result GuardError u64 :=
  let? post := turn role g in
  let? next := successor pre Turn in
  fail_if (negb (u64_eqb next post)) (Input "DH turn/phase") ;?
  Ok post.

Definition check_generations (root native : u64) : result GuardError (u64 * u64) :=
  let? r := successor root RootGeneration in
  let? n := successor native NativeGeneration in
  Ok (r, n).

Definition check_checkpoint_size (bs : bytes) : result GuardError unit :=
  fail_if ((len bs =? 0) || (MAX_CHECKPOINT <? len bs))%N
    (Checkpoint "combined sealed native/guard cap").

(** * Lanes *)

Definition lane_default : Lane := {|
  lane_next := u64_0; lane_last := None; lane_g := u64_0; lane_key := None;
  lane_index := u64_0; lane_first := None; lane_parent := None; lane_sequence := None
|}.

Definition lane_validate (l : Lane) (role : byte) : result GuardError unit :=
  let empty := u64_eqb l.(lane_next) u64_0 in
  fail_if
    (negb (Bool.eqb empty (is_none l.(lane_last)))
     || negb (Bool.eqb empty (is_none l.(lane_key)))
     || negb (Bool.eqb empty (is_none l.(lane_first)))
     || negb (Bool.eqb empty (is_none l.(lane_sequence)))
     || empty && (negb (u64_eqb l.(lane_g) u64_0) || negb (u64_eqb l.(lane_index) u64_0)
                  || is_some l.(lane_parent)))
    (Checkpoint "lane shape") ;?
  if negb empty then
    turn role l.(lane_g) ;?
    consume_index l.(lane_index) ;?
    fail_if ((lane_next l <=? lane_g l) || (lane_next l <=? lane_index l))%N
      (Checkpoint "lane counters")
  else Ok tt.

Definition lane_tail (l : Lane) : result GuardError ClosedTail :=
  let? key := ok_or l.(lane_key) (Checkpoint "tail key") in
  let? last := ok_or l.(lane_last) (Checkpoint "tail last") in
  Ok {| tail_g := l.(lane_g); tail_key := key; tail_index := l.(lane_index); tail_last := last |}.

Definition lane_record (l : Lane) (event : EventMeta) (id : Id) (next : u64) : Lane := {|
  lane_next := next;
  lane_last := Some id;
  lane_g := event.(ev_expected).(exp_g);
  lane_key := Some event.(ev_key);
  lane_index := event.(ev_index);
  lane_first := if bool_decide (l.(lane_key) = Some event.(ev_key)) then l.(lane_first) else Some id;
  lane_parent := event.(ev_expected).(exp_parent);
  lane_sequence := Some event.(ev_sequence)
|}.

(** * The guard *)

(** [1 - role] on [u8]. *)
Definition other_role (role : byte) : byte := as_u8 (257 - byte_val role).

Definition guard_new (role : byte) : result GuardError Guard2 :=
  fail_if (1 <? byte_val role)%N (Input "role") ;?
  Ok {|
    g_version := x02; g_role := role; g_own := lane_default; g_peer := lane_default;
    g_rotate_due := false; g_received_new_first := None; g_used_own_first := None
  |}.

Definition guard_validate (g : Guard2) : result GuardError unit :=
  fail_if (negb (byte_val g.(g_version) =? 2) || (1 <? byte_val g.(g_role)))%N
    (Checkpoint "version/role") ;?
  lane_validate g.(g_own) g.(g_role) ;?
  lane_validate g.(g_peer) (other_role g.(g_role)) ;?
  let inactive := is_some g.(g_peer).(lane_first)
                  && bool_decide (g.(g_used_own_first) = g.(g_own).(lane_first)) in
  fail_if (negb (Bool.eqb g.(g_rotate_due) inactive)
           || negb (bool_decide (g.(g_peer).(lane_first) = g.(g_received_new_first))))
    (Checkpoint "native Active/Inactive provenance") ;?
  (if negb (u64_eqb g.(g_peer).(lane_next) u64_0) then
     let? peer_turn := turn (other_role g.(g_role)) g.(g_peer).(lane_g) in
     if u64_eqb g.(g_own).(lane_next) u64_0 then
       fail_if (negb (byte_val g.(g_role) =? 1)%N || negb (u64_eqb peer_turn u64_0)
                || negb g.(g_rotate_due))
         (Checkpoint "inbound genesis phase")
     else
       let? own_turn := turn g.(g_role) g.(g_own).(lane_g) in
       let valid := if g.(g_rotate_due)
                    then bool_decide (u64_checked_add own_turn u64_1 = Some peer_turn)
                    else bool_decide (u64_checked_add peer_turn u64_1 = Some own_turn) in
       fail_if (negb valid) (Checkpoint "two-lane turn provenance")
   else
     fail_if (negb (u64_eqb g.(g_own).(lane_next) u64_0)
              && (negb (byte_val g.(g_role) =? 0)%N || negb (u64_eqb g.(g_own).(lane_g) u64_0)))
       (Checkpoint "outbound genesis phase")) ;?
  fail_if
    (g.(g_rotate_due)
     && (negb (bool_decide (g.(g_peer).(lane_first) = g.(g_received_new_first)))
         || is_none g.(g_peer).(lane_first)
         || negb (bool_decide (g.(g_used_own_first) = g.(g_own).(lane_first))))
     || is_some g.(g_received_new_first)
        && negb (bool_decide (g.(g_received_new_first) = g.(g_peer).(lane_first))))
    (Checkpoint "rotation cause").

(** [postcard::to_allocvec] and [postcard::take_from_bytes] at [Guard2]. *)
Class GuardPostcard := {
  guard_to_allocvec : Guard2 → option bytes;
  guard_take_from_bytes : bytes → option (Guard2 * bytes)
}.

Definition guard_encode `{GuardPostcard} (g : Guard2) : result GuardError bytes :=
  guard_validate g ;?
  let? bs := ok_or (guard_to_allocvec g) (Checkpoint "codec") in
  fail_if (MAX_GUARD <? len bs)%N (Checkpoint "guard cap") ;?
  Ok bs.

Definition guard_restore `{GuardPostcard} (bs : bytes) (role : byte) : result GuardError Guard2 :=
  fail_if (MAX_GUARD <? len bs)%N (Checkpoint "guard cap") ;?
  let? (g, rest) := ok_or (guard_take_from_bytes bs) (Checkpoint "codec") in
  fail_if (negb (len rest =? 0)%N || negb (bool_decide (g.(g_role) = role)))
    (Checkpoint "role/trailing") ;?
  guard_validate g ;?
  Ok g.

Definition current_turn (g : Guard2) : result GuardError u64 :=
  if g.(g_rotate_due) then turn (other_role g.(g_role)) g.(g_peer).(lane_g)
  else if u64_eqb g.(g_own).(lane_next) u64_0 then Ok u64_0
  else turn g.(g_role) g.(g_own).(lane_g).

Definition expected_send (g : Guard2) : result GuardError Expected :=
  guard_validate g ;?
  if u64_eqb g.(g_own).(lane_next) u64_0 then
    let? parent :=
      (if (byte_val g.(g_role) =? 0)%N then Ok None
       else let? first := ok_or g.(g_peer).(lane_first) (Input "Confirm before Init") in
            Ok (Some first)) in
    Ok {| exp_g := u64_0; exp_index := u64_0; exp_parent := parent; exp_tail := None |}
  else if g.(g_rotate_due) then
    let? next_g := successor g.(g_own).(lane_g) LaneGeneration in
    let? tail := lane_tail g.(g_own) in
    Ok {| exp_g := next_g; exp_index := u64_0; exp_parent := g.(g_received_new_first);
          exp_tail := Some tail |}
  else
    let? index := continuation_index g.(g_own).(lane_index) in
    Ok {| exp_g := g.(g_own).(lane_g); exp_index := fst index;
          exp_parent := g.(g_own).(lane_parent); exp_tail := None |}.

Definition check_seen (lane : Lane) (key : Id) (g : u64) (seen : SeenObservation)
  : result GuardError unit :=
  match bool_decide (lane.(lane_key) = Some key), seen with
  | true, Present s =>
      if u64_eqb s.(seen_generation) g && bool_decide (Some s.(seen_first) = lane.(lane_first))
      then Ok tt else Err (Input "seen replay/missing/first mismatch")
  | false, Absent => Ok tt
  | _, _ => Err (Input "seen replay/missing/first mismatch")
  end.

(** What [preflight] expects of an event it receives. *)
Definition expected_receive (g : Guard2) (lane : Lane) (role : byte) (new : bool)
  : result GuardError Expected :=
  if u64_eqb lane.(lane_next) u64_0 then
    let? parent :=
      (if (byte_val role =? 0)%N then Ok None
       else let? first := ok_or g.(g_own).(lane_first) (Input "Confirm before Init") in
            Ok (Some first)) in
    Ok {| exp_g := u64_0; exp_index := u64_0; exp_parent := parent; exp_tail := None |}
  else if negb new then
    let? index := continuation_index lane.(lane_index) in
    Ok {| exp_g := lane.(lane_g); exp_index := fst index;
          exp_parent := lane.(lane_parent); exp_tail := None |}
  else
    fail_if g.(g_rotate_due) (Input "new peer DH in Inactive") ;?
    let? first := ok_or g.(g_own).(lane_first) (Input "peer DH without own first") in
    fail_if (bool_decide (g.(g_used_own_first) = Some first)) (Input "reused own DH cause") ;?
    let? next_g := successor lane.(lane_g) LaneGeneration in
    let? tail := lane_tail lane in
    Ok {| exp_g := next_g; exp_index := u64_0; exp_parent := Some first; exp_tail := Some tail |}.

Definition preflight (g : Guard2) (event : EventMeta) (receive : bool)
    (seen : option SeenObservation) (root native : u64) : result GuardError PreparedStep :=
  guard_validate g ;?
  check_generations root native ;?
  let lane := if receive then g.(g_peer) else g.(g_own) in
  let role := if receive then other_role g.(g_role) else g.(g_role) in
  let? next := successor event.(ev_n) Ordinal in
  successor event.(ev_sequence) Author ;?
  let? post_index := consume_index event.(ev_index) in
  fail_if
    (negb (bool_decide (event.(ev_role) = role))
     || negb (u64_eqb event.(ev_n) lane.(lane_next))
     || negb (bool_decide (event.(ev_previous) = lane.(lane_last)))
     || match lane.(lane_sequence) with
        | Some s => (event.(ev_sequence) <=? s)%N
        | None => false
        end
     || negb (u64_eqb event.(ev_index) event.(ev_expected).(exp_index))
     || negb (byte_val event.(ev_kind) =?
          (if u64_eqb event.(ev_n) u64_0 then byte_val (as_u8 (byte_val role + 1)) else 3))%N
     || negb (Bool.eqb (byte_val event.(ev_kind) =? 1)%N (byte_val event.(ev_native_kind) =? 0)%N)
     || (1 <? byte_val event.(ev_native_kind))%N)
    (Input "cursor/kind/header/sequence") ;?
  let new := negb (bool_decide (lane.(lane_key) = Some event.(ev_key))) in
  let? expected := (if negb receive then expected_send g else expected_receive g lane role new) in
  fail_if (negb (bool_decide (event.(ev_expected) = expected))) (Input "expected native/ClosedTail") ;?
  (if receive then
     let? seen := ok_or seen (Input "seen observation") in
     check_seen lane event.(ev_key) event.(ev_expected).(exp_g) seen
   else Ok tt) ;?
  let? pre := current_turn g in
  let? post_turn :=
    (if receive && new then
       if (byte_val role =? 0)%N && u64_eqb event.(ev_n) u64_0 then
         fail_if (negb (u64_eqb pre u64_0) || negb (u64_eqb g.(g_own).(lane_next) u64_0))
           (Input "inbound constructor") ;?
         Ok u64_0
       else dh_step pre role event.(ev_expected).(exp_g)
     else if negb receive
             && (g.(g_rotate_due)
                 || (byte_val g.(g_role) =? 1)%N && u64_eqb lane.(lane_next) u64_0) then
       dh_step pre role event.(ev_expected).(exp_g)
     else Ok pre) in
  Ok {| step_before := g; step_event := event; step_receive := receive; step_next := next;
        step_native_post_index := post_index; step_native_post_turn := post_turn |}.

Definition preflight_send (g : Guard2) (event : EventMeta) (root native : u64) :=
  preflight g event false None root native.

Definition preflight_receive (g : Guard2) (event : EventMeta) (seen : SeenObservation)
    (root native : u64) :=
  preflight g event true (Some seen) root native.

(** [EventMeta] with another key. *)
Definition with_key (e : EventMeta) (key : Id) : EventMeta := {|
  ev_role := e.(ev_role); ev_n := e.(ev_n); ev_previous := e.(ev_previous);
  ev_sequence := e.(ev_sequence); ev_kind := e.(ev_kind);
  ev_native_kind := e.(ev_native_kind); ev_key := key; ev_index := e.(ev_index);
  ev_expected := e.(ev_expected)
|}.

(** The guard after a received and after a sent event. *)
Definition trial_receive (g : Guard2) (actual : EventMeta) (id : Id) (next : u64) : Guard2 :=
  let new := negb (bool_decide (g.(g_peer).(lane_key) = Some actual.(ev_key))) in
  {| g_version := g.(g_version);
     g_role := g.(g_role);
     g_own := g.(g_own);
     g_peer := lane_record g.(g_peer) actual id next;
     g_rotate_due := if new then true else g.(g_rotate_due);
     g_received_new_first := if new then Some id else g.(g_received_new_first);
     g_used_own_first := if new then g.(g_own).(lane_first) else g.(g_used_own_first) |}.

Definition trial_send (g : Guard2) (actual : EventMeta) (id : Id) (next : u64) : Guard2 := {|
  g_version := g.(g_version);
  g_role := g.(g_role);
  g_own := lane_record g.(g_own) actual id next;
  g_peer := g.(g_peer);
  g_rotate_due := false;
  g_received_new_first := g.(g_received_new_first);
  g_used_own_first := g.(g_used_own_first)
|}.

Definition apply (g : Guard2) (step : PreparedStep) (actual : EventMeta) (id : Id)
    (seen : SeenObservation) : result GuardError Guard2 :=
  let prepared := if negb step.(step_receive)
                  then with_key step.(step_event) actual.(ev_key) else step.(step_event) in
  fail_if (negb (bool_decide (g = step.(step_before))) || negb (bool_decide (prepared = actual)))
    (Input "stale prepared step") ;?
  fail_if (negb step.(step_receive) && negb (u64_eqb g.(g_own).(lane_next) u64_0)
           && negb g.(g_rotate_due)
           && negb (bool_decide (g.(g_own).(lane_key) = Some actual.(ev_key))))
    (Input "own continuation key") ;?
  let lane := if step.(step_receive) then g.(g_peer) else g.(g_own) in
  check_seen lane actual.(ev_key) actual.(ev_expected).(exp_g) seen ;?
  let trial := if step.(step_receive) then trial_receive g actual id step.(step_next)
               else trial_send g actual id step.(step_next) in
  guard_validate trial ;?
  Ok trial.

(** * Import of the previous format *)

Definition compact_l1_checkpoint `{GuardPostcard} (facts : L1CheckpointFacts)
  : result GuardError bytes :=
  try_for (fun lane =>
    fail_if ((512 <? lane_next lane) || (512 <=? lane_g lane) || (512 <=? lane_index lane))%N
      (Checkpoint "L1 summary bounds"))
    [facts.(facts_own); facts.(facts_peer)] ;?
  guard_encode {|
    g_version := x02; g_role := facts.(facts_role); g_own := facts.(facts_own);
    g_peer := facts.(facts_peer); g_rotate_due := facts.(facts_rotate_due);
    g_received_new_first := facts.(facts_received_new_first);
    g_used_own_first := facts.(facts_used_own_first)
  |}.

(** [BTreeMap<(u8, Id), Seen>] with the observation and the insertion of the
    import loop. *)
Abbreviation SeenIndex := (gmap (byte * Id) Seen).

Definition observe (seen : SeenIndex) (meta : EventMeta) : SeenObservation :=
  match seen !! (meta.(ev_role), meta.(ev_key)) with Some s => Present s | None => Absent end.

Definition seen_or_insert (seen : SeenIndex) (meta : EventMeta) (id : Id) : SeenIndex :=
  match seen !! (meta.(ev_role), meta.(ev_key)) with
  | Some _ => seen
  | None => <[(meta.(ev_role), meta.(ev_key)) :=
              {| seen_generation := meta.(ev_expected).(exp_g); seen_first := id |}]> seen
  end.

(** One turn of the import loop. *)
Definition import_step (role : byte) (step : EventMeta * Id) (s : Guard2 * SeenIndex)
  : result GuardError (Guard2 * SeenIndex) :=
  let '(meta, id) := step in
  let '(g, seen) := s in
  fail_if ((512 <=? meta.(ev_n)) || (512 <=? meta.(ev_expected).(exp_g))
           || (512 <=? meta.(ev_index)))%N (Checkpoint "L1 bounds") ;?
  let observation := observe seen meta in
  let? step := (if bool_decide (meta.(ev_role) = role) then preflight_send g meta u64_0 u64_0
                else preflight_receive g meta observation u64_0 u64_0) in
  let? g := apply g step meta id observation in
  Ok (g, seen_or_insert seen meta id).

(** The order of the keys [(u8, Id)]. *)
Definition seen_key_cmp (a b : byte * Id) : comparison :=
  match (byte_val a.1 ?= byte_val b.1)%N with Eq => cmp a.2 b.2 | c => c end.

Definition seen_entry_le (a b : byte * Id * Seen) : Prop := seen_key_cmp a.1 b.1 ≠ Gt.

#[export] Instance seen_entry_le_dec a b : Decision (seen_entry_le a b).
Proof. unfold seen_entry_le. destruct (seen_key_cmp a.1 b.1); (left; congruence) || (right; congruence). Defined.

(** [seen.into_iter().collect()]: the entries in the order of their keys. *)
Definition seen_entries (seen : SeenIndex) : list (byte * Id * Seen) :=
  merge_sort seen_entry_le (map_to_list seen).

Definition import_l1 `{GuardPostcard} (role : byte) (steps : list (EventMeta * Id))
    (expected_checkpoint : bytes) : result GuardError ImportedL1 :=
  fail_if (1024 <? len steps)%N (Checkpoint "L1 source count") ;?
  let? g := guard_new role in
  let? (g, seen) := try_fold (import_step role) steps (g, ∅) in
  let? expected := guard_restore expected_checkpoint role in
  fail_if (negb (bool_decide (expected = g)))
    (Checkpoint "L1 accepted checkpoint/source correspondence") ;?
  Ok {| imported_guard := g;
        imported_seen := seen_entries seen |}.
