(* ===== verification/OrderedGuardFacts.v ===== *)
(** Correctness of the ordering guard of [OrderedGuard]. *)

From stdpp Require Import base tactics list numbers strings gmap sorting.
From Stdlib Require Import Strings.Byte.
From S2P Require Import Prelude Postcard OrderedGuard.

(** * Reflection of the checks *)

Create Rewrite HintDb guard_bool.

Lemma u64_0_val : uint_val u64_0 = 0%N.
Proof. reflexivity. Qed.

Lemma u64_eqb_0 n : u64_eqb n u64_0 = (uint_val n =? 0)%N.
Proof. reflexivity. Qed.

Lemma u64_eqb_ne a b : u64_eqb a b = false ↔ a ≠ b.
Proof. by rewrite <-not_true_iff_false, u64_eqb_eq. Qed.

#[export] Hint Rewrite orb_false_iff andb_false_iff negb_false_iff negb_true_iff andb_true_iff
  orb_true_iff Bool.eqb_true_iff @bool_decide_eq_true @bool_decide_eq_false u64_eqb_eq u64_eqb_ne
  N.ltb_ge N.ltb_lt N.leb_gt N.leb_le N.eqb_eq N.eqb_neq : guard_bool.

Lemma is_none_true {A} (o : option A) : is_none o = true ↔ o = None.
Proof. by destruct o. Qed.
Lemma is_none_false {A} (o : option A) : is_none o = false ↔ is_Some o.
Proof. destruct o; cbn; split; done. Qed.
Lemma is_some_true {A} (o : option A) : is_some o = true ↔ is_Some o.
Proof. unfold is_some. rewrite negb_true_iff. apply is_none_false. Qed.
Lemma is_some_false {A} (o : option A) : is_some o = false ↔ o = None.
Proof. unfold is_some. rewrite negb_false_iff. apply is_none_true. Qed.

(** ** Counters *)

Lemma successor_ok n kind m :
  successor n kind = Ok m ↔ uint_val m = (uint_val n + 1)%N.
Proof.
  unfold successor. pose proof (u64_checked_add_Some n u64_1) as H.
  destruct (u64_checked_add n u64_1) as [k|]; cbn [ok_or].
  - specialize (H k). split.
    + intros E%Ok_inj. subst. by apply H.
    + intros E. f_equal. apply uint_eq. rewrite E. by apply H.
  - split; [done|]. intros E. by specialize (proj2 (H m) E).
Qed.

Lemma successor_exists n kind :
  (uint_val n + 1 < U64_BOUND)%N → ∃ m, successor n kind = Ok m ∧ uint_val m = (uint_val n + 1)%N.
Proof.
  intros Hlt. exists (as_u64 (uint_val n + 1)). rewrite successor_ok.
  by rewrite as_u64_small.
Qed.

Lemma continuation_index_ok last j k :
  continuation_index last = Ok (j, k) ↔
  uint_val j = (uint_val last + 1)%N ∧ uint_val k = (uint_val j + 1)%N.
Proof.
  unfold continuation_index, consume_index. split.
  - intros H. result_inv. by rewrite !successor_ok in *.
  - intros [Hj Hk]. rewrite (proj2 (successor_ok _ _ j) Hj). cbn [rbind].
    by rewrite (proj2 (successor_ok _ _ k) Hk).
Qed.

Definition role_ok (role : byte) : Prop := role = x00 ∨ role = x01.

Lemma role_ok_le role : (byte_val role <= 1)%N ↔ role_ok role.
Proof.
  split; [|by intros [->| ->]]. intros Hle.
  assert (byte_val role = byte_val x00 ∨ byte_val role = byte_val x01) as [E|E]
    by (change (byte_val x00) with 0%N; change (byte_val x01) with 1%N; lia);
    apply byte_val_inj in E; [by left|by right].
Qed.

Lemma other_role_ok role : role_ok role → role_ok (other_role role).
Proof. intros [->| ->]; [by right|by left]. Qed.

Lemma other_role_involutive role : role_ok role → other_role (other_role role) = role.
Proof. by intros [->| ->]. Qed.

(** The turn of a generation: even for the initiator, odd for the other. *)
Definition turn_of (role : byte) (g : u64) : N := (2 * uint_val g + byte_val role)%N.

Lemma turn_ok role g t :
  turn role g = Ok t ↔ role_ok role ∧ uint_val t = turn_of role g.
Proof.
  unfold turn, turn_of. rewrite rbind_unit_ok, fail_if_ok, N.ltb_ge, role_ok_le.
  apply and_iff_compat_l. unfold u64_checked_mul.
  change (uint_val (as_u64 2)) with 2%N.
  pose proof (byte_val_lt role). pose proof (uint_lt t).
  assert (Hr : uint_val (as_u64 (byte_val role)) = byte_val role) by (apply as_u64_small; lia).
  destruct (N.ltb_spec (uint_val g * 2) U64_BOUND) as [Hlt|Hge].
  - pose proof (u64_checked_add_Some (as_u64 (uint_val g * 2)) (as_u64 (byte_val role))) as H1.
    rewrite as_u64_small in H1 by done. rewrite Hr in H1.
    destruct (u64_checked_add _ _) as [k|]; cbn [ok_or].
    + specialize (H1 k). split.
      * intros E%Ok_inj. subst. rewrite (proj1 H1 eq_refl). lia.
      * intros E. f_equal. apply uint_eq. rewrite E, (proj1 H1 eq_refl). lia.
    + split; [done|]. intros E. specialize (proj2 (H1 t)). intros H2.
      discriminate H2. lia.
  - cbn [ok_or]. split; [done|]. lia.
Qed.

Lemma turn_fits role g t : turn role g = Ok t → (turn_of role g < U64_BOUND)%N.
Proof. intros [_ <-]%turn_ok. apply uint_lt. Qed.

Lemma successor_fits n kind m : successor n kind = Ok m → (uint_val n + 1 < U64_BOUND)%N.
Proof. intros <-%successor_ok. apply uint_lt. Qed.

Lemma turn_exists role g :
  role_ok role → (turn_of role g < U64_BOUND)%N → turn role g = Ok (as_u64 (turn_of role g)).
Proof. intros Hr Hlt. apply turn_ok. by rewrite as_u64_small. Qed.

Lemma dh_step_ok pre role g t :
  dh_step pre role g = Ok t ↔
  role_ok role ∧ uint_val t = turn_of role g ∧ uint_val t = (uint_val pre + 1)%N.
Proof.
  unfold dh_step. split.
  - intros H. result_inv. apply turn_ok in E as [Hr Ht]. apply successor_ok in E0.
    autorewrite with guard_bool in *. by subst.
  - intros (Hr & Ht & Hp). rewrite (proj2 (turn_ok role g t)) by done. cbn [rbind].
    rewrite (proj2 (successor_ok pre Turn t) Hp). cbn [rbind].
    by rewrite (proj2 (u64_eqb_eq t t) eq_refl).
Qed.

(** ** Lanes *)

(** A lane of a well-formed guard is empty, or records at least one event. *)
Record lane_live (role : byte) (l : Lane) : Prop := {
  live_next : lane_next l ≠ u64_0;
  live_last : is_Some (lane_last l);
  live_key : is_Some (lane_key l);
  live_first : is_Some (lane_first l);
  live_sequence : is_Some (lane_sequence l);
  live_turn : (turn_of role (lane_g l) < U64_BOUND)%N;
  live_index : (uint_val (lane_index l) + 1 < U64_BOUND)%N;
  live_g_next : (uint_val (lane_g l) < uint_val (lane_next l))%N;
  live_index_next : (uint_val (lane_index l) < uint_val (lane_next l))%N
}.

Definition lane_ok (role : byte) (l : Lane) : Prop := l = lane_default ∨ lane_live role l.

Lemma lane_validate_ok l role :
  role_ok role → lane_validate l role = Ok tt ↔ lane_ok role l.
Proof.
  intros Hrole. unfold lane_validate. rewrite rbind_unit_ok, fail_if_ok.
  split.
  - intros [Hshape Hlive]. destruct (u64_eqb (lane_next l) u64_0) eqn:Hn; cbn [negb] in Hlive.
    + left. autorewrite with guard_bool in *. cbn [is_none] in *.
      destruct Hshape as [[[[H1 H2] H3] H4] [|[[H5 H6] H7%is_some_false]]]; [done|].
      symmetry in H1, H2, H3, H4. rewrite !is_none_true in *.
      destruct l; cbn in *; subst. done.
    + right. result_inv. apply turn_fits in E. apply successor_fits in E0.
      autorewrite with guard_bool in *. destruct Hshape as [[[[H1 H2] H3] H4] _].
      symmetry in H1, H2, H3, H4. rewrite !is_none_false in *.
      split; auto; lia.
  - intros [->|H]; [done|]. destruct H as [Hn Hl Hk Hf Hs Ht Hi Hg Hin].
    assert (u64_eqb (lane_next l) u64_0 = false) as ->.
    { apply not_true_is_false. by rewrite u64_eqb_eq. }
    rewrite (proj2 (is_none_false _) Hl), (proj2 (is_none_false _) Hk),
      (proj2 (is_none_false _) Hf), (proj2 (is_none_false _) Hs). cbn [Bool.eqb negb orb andb].
    split; [done|].
    rewrite turn_exists by done. cbn [rbind]. unfold consume_index.
    destruct (successor_exists (lane_index l) Symmetric Hi) as (m & -> & _). cbn [rbind].
    rewrite fail_if_ok. by autorewrite with guard_bool.
Qed.

(** ** Guards *)

(** What [validate] requires of a guard. *)
Record guard_ok (g : Guard2) : Prop := {
  ok_version : g_version g = x02;
  ok_role : role_ok (g_role g);
  ok_own : lane_ok (g_role g) (g_own g);
  ok_peer : lane_ok (other_role (g_role g)) (g_peer g);
  ok_due : g_rotate_due g = true ↔
    is_Some (lane_first (g_peer g)) ∧ g_used_own_first g = lane_first (g_own g);
  ok_received : g_received_new_first g = lane_first (g_peer g);
  ok_outbound : lane_next (g_peer g) = u64_0 → lane_next (g_own g) ≠ u64_0 →
    g_role g = x00 ∧ lane_g (g_own g) = u64_0;
  ok_inbound : lane_next (g_peer g) ≠ u64_0 → lane_next (g_own g) = u64_0 →
    g_role g = x01 ∧ lane_g (g_peer g) = u64_0 ∧ g_rotate_due g = true;
  ok_turns : lane_next (g_peer g) ≠ u64_0 → lane_next (g_own g) ≠ u64_0 →
    let own := turn_of (g_role g) (lane_g (g_own g)) in
    let peer := turn_of (other_role (g_role g)) (lane_g (g_peer g)) in
    if g_rotate_due g then peer = (own + 1)%N else own = (peer + 1)%N
}.

Lemma lane_ok_live role l : lane_ok role l → lane_next l ≠ u64_0 → lane_live role l.
Proof. by intros [->|H]. Qed.

Lemma lane_ok_empty role l : lane_ok role l → lane_next l = u64_0 → l = lane_default.
Proof. intros [->|[Hn]]; done. Qed.

Lemma lane_ok_first role l : lane_ok role l → is_Some (lane_first l) ↔ lane_next l ≠ u64_0.
Proof.
  intros [->|H]; [|by destruct H]. split; [by intros [? ?]|]. by intros [].
Qed.

Lemma u64_checked_add_1 a b :
  u64_checked_add a u64_1 = Some b ↔ uint_val b = (uint_val a + 1)%N.
Proof. apply u64_checked_add_Some. Qed.

(** The checks of [validate] that depend on which lanes are empty. *)
Lemma turn_phase_ok (g : Guard2) :
  role_ok (g_role g) → lane_ok (g_role g) (g_own g) →
  lane_ok (other_role (g_role g)) (g_peer g) →
  lane_next (g_peer g) ≠ u64_0 → lane_next (g_own g) ≠ u64_0 →
  (let? peer_turn := turn (other_role (g_role g)) (lane_g (g_peer g)) in
   let? own_turn := turn (g_role g) (lane_g (g_own g)) in
   fail_if (negb (if g_rotate_due g
                  then bool_decide (u64_checked_add own_turn u64_1 = Some peer_turn)
                  else bool_decide (u64_checked_add peer_turn u64_1 = Some own_turn)))
     (Checkpoint "two-lane turn provenance")) = Ok tt ↔
  if g_rotate_due g
  then turn_of (other_role (g_role g)) (lane_g (g_peer g)) =
       (turn_of (g_role g) (lane_g (g_own g)) + 1)%N
  else turn_of (g_role g) (lane_g (g_own g)) =
       (turn_of (other_role (g_role g)) (lane_g (g_peer g)) + 1)%N.
Proof.
  intros Hr Hown Hpeer Hp Ho.
  destruct (lane_ok_live _ _ Hown Ho) as [_ _ _ _ _ Ht1 _ _ _].
  destruct (lane_ok_live _ _ Hpeer Hp) as [_ _ _ _ _ Ht2 _ _ _].
  rewrite (turn_exists _ _ (other_role_ok _ Hr) Ht2), (turn_exists _ _ Hr Ht1). cbn [rbind].
  rewrite fail_if_ok, negb_false_iff.
  destruct (g_rotate_due g); rewrite bool_decide_eq_true, u64_checked_add_1, !as_u64_small by done;
    lia.
Qed.

Lemma guard_validate_ok g : guard_validate g = Ok tt ↔ guard_ok g.
Proof.
  unfold guard_validate. cbv zeta. rewrite !rbind_unit_ok, !fail_if_ok.
  split.
  - intros (Hv & Hown & Hpeer & Hdue & Hphase & _).
    autorewrite with guard_bool in Hv, Hdue. destruct Hv as [Hv Hr%role_ok_le].
    rewrite lane_validate_ok in Hown by done.
    rewrite lane_validate_ok in Hpeer by (by apply other_role_ok).
    destruct Hdue as [Hdue Hrec].
    assert (Hdue' : g_rotate_due g = true ↔
      is_Some (lane_first (g_peer g)) ∧ g_used_own_first g = lane_first (g_own g)).
    { rewrite Hdue, andb_true_iff, is_some_true, bool_decide_eq_true. done. }
    split; auto.
    + apply byte_val_inj. by rewrite Hv.
    + intros Hp Ho. rewrite (proj2 (u64_eqb_eq _ _) Hp) in Hphase. cbn [negb] in Hphase.
      rewrite fail_if_ok in Hphase. autorewrite with guard_bool in Hphase.
      destruct Hphase as [|[H0 Hg]]; [done|]. split; [|done]. apply byte_val_inj. by rewrite H0.
    + intros Hp Ho. rewrite (proj2 (u64_eqb_ne _ _) Hp) in Hphase. cbn [negb] in Hphase.
      rewrite (proj2 (u64_eqb_eq _ _) Ho) in Hphase. result_inv.
      apply turn_ok in E as [_ Ht]. autorewrite with guard_bool in G.
      destruct G as [[H1 H2] H3]. subst.
      assert (g_role g = x01) as Er by (apply byte_val_inj; by rewrite H1).
      rewrite Er in *. split; [done|]. split; [|done]. apply uint_eq.
      rewrite u64_0_val in *. unfold turn_of in Ht. cbn in Ht. lia.
    + intros Hp Ho. apply turn_phase_ok; auto. revert Hphase.
      rewrite (proj2 (u64_eqb_ne _ _) Hp), (proj2 (u64_eqb_ne _ _) Ho).
      done.
  - intros [Hv Hr Hown Hpeer Hdue Hrec Hout Hin Hturns].
    assert (Hr' := other_role_ok _ Hr).
    split_and!.
    + rewrite Hv. autorewrite with guard_bool. split; [done|]. by apply role_ok_le.
    + by apply lane_validate_ok.
    + by apply lane_validate_ok.
    + autorewrite with guard_bool. split; [|done]. apply eq_true_iff_eq.
      by rewrite Hdue, andb_true_iff, is_some_true, bool_decide_eq_true.
    + destruct (u64_eqb (lane_next (g_peer g)) u64_0) eqn:Ep; cbn [negb].
      * rewrite fail_if_ok. autorewrite with guard_bool in *.
        destruct (decide (lane_next (g_own g) = u64_0)) as [Eo|Eo]; [by left|right].
        destruct (Hout Ep Eo) as [-> ->]. done.
      * rename Ep into Hp. apply u64_eqb_ne in Hp. destruct (u64_eqb (lane_next (g_own g)) u64_0) eqn:Eo.
        -- apply u64_eqb_eq in Eo. destruct (Hin Hp Eo) as (Er & Eg & Ed).
           rewrite Er, Eg, Ed. done.
        -- apply u64_eqb_ne in Eo. apply turn_phase_ok; auto. by apply Hturns.
    + rewrite Hrec. autorewrite with guard_bool. split; [|by right].
      destruct (g_rotate_due g) eqn:Ed; [right|by left].
      destruct (proj1 Hdue eq_refl) as [Hs ->]. rewrite is_none_false. done.
Qed.

(** A device that has received but not sent is the second one, and is due. *)
Lemma first_due g :
  guard_ok g → is_Some (lane_first (g_peer g)) → lane_next (g_own g) = u64_0 →
  g_role g = x01 ∧ lane_g (g_peer g) = u64_0 ∧ g_rotate_due g = true.
Proof.
  intros Hg Hf E0. apply (ok_inbound _ Hg); [|done]. by apply (lane_ok_first _ _ (ok_peer _ Hg)).
Qed.

(** * What a lane admits next *)

(** The fields of an event that the cursor of a lane determines. *)
Record header_ok (role : byte) (l : Lane) (e : EventMeta) : Prop := {
  hdr_role : ev_role e = role;
  hdr_n : ev_n e = lane_next l;
  hdr_previous : ev_previous e = lane_last l;
  hdr_sequence : ∀ s, lane_sequence l = Some s → (uint_val s < uint_val (ev_sequence e))%N;
  hdr_index : ev_index e = exp_index (ev_expected e);
  hdr_kind : byte_val (ev_kind e) =
    if u64_eqb (ev_n e) u64_0 then byte_val (as_u8 (byte_val role + 1)) else 3%N;
  hdr_native : byte_val (ev_kind e) = 1%N ↔ byte_val (ev_native_kind e) = 0%N;
  hdr_native_le : (byte_val (ev_native_kind e) <= 1)%N;
  hdr_n_fits : (uint_val (ev_n e) + 1 < U64_BOUND)%N;
  hdr_sequence_fits : (uint_val (ev_sequence e) + 1 < U64_BOUND)%N;
  hdr_index_fits : (uint_val (ev_index e) + 1 < U64_BOUND)%N
}.

Definition the_tail (l : Lane) (key last : Id) : ClosedTail :=
  {| tail_g := lane_g l; tail_key := key; tail_index := lane_index l; tail_last := last |}.

(** The event opens the lane, continues its generation, or ([new]) opens its
    next generation because of [cause], the first event of the other lane's
    current generation. *)
Inductive lane_expects (role : byte) (l : Lane) (cause : option Id) (new : bool) : Expected → Prop :=
| expects_genesis :
    lane_next l = u64_0 → (role = x01 → is_Some cause) →
    lane_expects role l cause new
      {| exp_g := u64_0; exp_index := u64_0;
         exp_parent := if (byte_val role =? 0)%N then None else cause; exp_tail := None |}
| expects_continue (j k : u64) :
    lane_next l ≠ u64_0 → new = false →
    uint_val j = (uint_val (lane_index l) + 1)%N → uint_val k = (uint_val j + 1)%N →
    lane_expects role l cause new
      {| exp_g := lane_g l; exp_index := j; exp_parent := lane_parent l; exp_tail := None |}
| expects_rotate g k last :
    lane_next l ≠ u64_0 → new = true → lane_key l = Some k → lane_last l = Some last →
    is_Some cause → uint_val g = (uint_val (lane_g l) + 1)%N → (turn_of role g < U64_BOUND)%N →
    lane_expects role l cause new
      {| exp_g := g; exp_index := u64_0; exp_parent := cause;
         exp_tail := Some (the_tail l k last) |}.

(** The event does not carry the key of the lane's current generation. *)
Definition is_new (l : Lane) (e : EventMeta) : bool := negb (bool_decide (lane_key l = Some (ev_key e))).

Definition admits (role : byte) (l : Lane) (cause : option Id) (e : EventMeta) : Prop :=
  header_ok role l e ∧ lane_expects role l cause (is_new l e) (ev_expected e).

Lemma admits_record_live role l cause e id next :
  role_ok role → lane_ok role l → admits role l cause e →
  uint_val next = (uint_val (ev_n e) + 1)%N →
  lane_live role (lane_record l e id next).
Proof.
  intros Hr Hl [Hh Hx] Hn. destruct Hh as [_ Hhn _ _ Hi _ _ _ Hnf _ Hif].
  assert (Hfirst : is_Some (if bool_decide (lane_key l = Some (ev_key e)) then lane_first l else Some id)).
  { destruct (bool_decide_reflect (lane_key l = Some (ev_key e))) as [E|]; [|done].
    destruct Hl as [->|Hl]; [done|]. by destruct Hl. }
  assert (Hlt : (uint_val (ev_n e) < uint_val next)%N) by lia.
  rewrite Hhn in *.
  split; cbn; auto.
  - intros ->. rewrite u64_0_val in Hn. lia.
  - destruct Hx as [H0|j k Hne Hk|g k last Hne]; cbn [exp_g].
    + by destruct Hr as [->| ->].
    + by destruct (lane_ok_live _ _ Hl Hne).
    + done.
  - destruct Hx as [H0|j k Hne Hk|g k last Hne _ _ _ _ Hg]; cbn [exp_g].
    + rewrite u64_0_val. lia.
    + pose proof (live_g_next _ _ (lane_ok_live _ _ Hl Hne)). lia.
    + pose proof (live_g_next _ _ (lane_ok_live _ _ Hl Hne)). lia.
  - rewrite Hi. destruct Hx as [H0|j k Hne Hk Hj|g k last Hne _ _ _ _ Hg]; cbn [exp_index].
    + rewrite u64_0_val. lia.
    + pose proof (live_index_next _ _ (lane_ok_live _ _ Hl Hne)). lia.
    + rewrite u64_0_val. lia.
Qed.

(** ** The cursor check *)

Lemma header_check_ok role l e :
  (∃ m, successor (ev_n e) Ordinal = Ok m) → (∃ m, successor (ev_sequence e) Author = Ok m) →
  (∃ m, consume_index (ev_index e) = Ok m) →
  (negb (bool_decide (ev_role e = role))
   || negb (u64_eqb (ev_n e) (lane_next l))
   || negb (bool_decide (ev_previous e = lane_last l))
   || match lane_sequence l with Some s => (ev_sequence e <=? s)%N | None => false end
   || negb (u64_eqb (ev_index e) (exp_index (ev_expected e)))
   || negb (byte_val (ev_kind e) =?
        (if u64_eqb (ev_n e) u64_0 then byte_val (as_u8 (byte_val role + 1)) else 3))%N
   || negb (Bool.eqb (byte_val (ev_kind e) =? 1)%N (byte_val (ev_native_kind e) =? 0)%N)
   || (1 <? byte_val (ev_native_kind e))%N) = false ↔ header_ok role l e.
Proof.
  intros [m1 H1%successor_fits] [m2 H2%successor_fits] [m3 H3%successor_fits].
  autorewrite with guard_bool.
  assert (Hseq : match lane_sequence l with Some s => (ev_sequence e <=? s)%N | None => false end = false
    ↔ ∀ s, lane_sequence l = Some s → (uint_val s < uint_val (ev_sequence e))%N).
  { destruct (lane_sequence l) as [s|]; rewrite ?N.leb_gt; split; [|by auto|done..].
    by intros Hs ? [= <-]. }
  rewrite Hseq. split.
  - intros [[[[[[[? ?] ?] ?] ?] ?] Hk] ?]. split; auto. rewrite <-!N.eqb_eq. by rewrite Hk.
  - intros [?????? Hk]. split_and!; auto. apply eq_true_iff_eq. by rewrite !N.eqb_eq.
Qed.

(** ** Expectations *)

Lemma lane_tail_ok l t :
  lane_tail l = Ok t ↔
  ∃ k last, lane_key l = Some k ∧ lane_last l = Some last ∧ t = the_tail l k last.
Proof.
  unfold lane_tail. split.
  - intros H. result_inv. eauto.
  - intros (k & last & -> & -> & ->). done.
Qed.

Lemma genesis_parent_ok (role : byte) (cause : option Id) (error : GuardError) p :
  role_ok role →
  (if (byte_val role =? 0)%N then Ok None
   else let? first := ok_or cause error in Ok (Some first)) = Ok p ↔
  (role = x01 → is_Some cause) ∧ p = (if (byte_val role =? 0)%N then None else cause).
Proof.
  intros [->| ->]; cbn.
  - split; [by intros [= <-]|by intros [_ ->]].
  - destruct cause as [c|]; cbn; split; try done.
    + by intros [= <-].
    + by intros [_ ->].
    + intros [H _]. by destruct (H eq_refl).
Qed.

Lemma expected_send_ok g x :
  guard_ok g →
  expected_send g = Ok x ∧ (turn_of (g_role g) (exp_g x) < U64_BOUND)%N ↔
  lane_expects (g_role g) (g_own g) (lane_first (g_peer g)) (g_rotate_due g) x.
Proof.
  intros Hg. pose proof (ok_role _ Hg) as Hr. unfold expected_send.
  rewrite (proj2 (guard_validate_ok g) Hg). cbn [rbind].
  destruct (u64_eqb (lane_next (g_own g)) u64_0) eqn:E0;
    [apply u64_eqb_eq in E0|apply u64_eqb_ne in E0].
  { split.
    - intros [H _]. result_inv. apply genesis_parent_ok in E as [H1 ->]; [|done].
      by constructor.
    - inversion 1; subst; try done. split; [|cbn; by destruct Hr as [->| ->]].
      erewrite (proj2 (genesis_parent_ok _ _ _ _ Hr)) by eauto. done. }
  destruct (lane_ok_live _ _ (ok_own _ Hg) E0) as [_ [last Hl] [k Hk] _ _ Ht _ _ _].
  pose proof (ok_due _ Hg) as Hdue.
  destruct (g_rotate_due g) eqn:Ed; split.
  - intros [H Hlt]. result_inv. apply successor_ok in E. apply lane_tail_ok in E1 as (k' & l' & ? & ? & ->).
    rewrite (ok_received _ Hg). econstructor; eauto. by apply Hdue.
  - inversion 1 as [|?|n ????? ? Hn]; subst; try done. split; [|done].
    rewrite (proj2 (successor_ok _ _ n)) by done. cbn [rbind].
    rewrite (proj2 (lane_tail_ok _ _)) by eauto. cbn [rbind]. by rewrite (ok_received _ Hg).
  - intros [H Hlt]. result_inv. destruct a as [j n]. apply continuation_index_ok in E as [Hj Hn].
    by eapply expects_continue.
  - inversion 1 as [|j n|]; subst; try done. split; [|done].
    by rewrite (proj2 (continuation_index_ok _ j n)).
Qed.

Lemma expected_receive_ok g new x :
  guard_ok g → let role := other_role (g_role g) in
  expected_receive g (g_peer g) role new = Ok x ∧ (turn_of role (exp_g x) < U64_BOUND)%N ↔
  lane_expects role (g_peer g) (lane_first (g_own g)) new x ∧
  (lane_next (g_peer g) ≠ u64_0 → new = true → g_rotate_due g = false).
Proof.
  intros Hg role. pose proof (other_role_ok _ (ok_role _ Hg)) as Hr. unfold expected_receive.
  destruct (u64_eqb (lane_next (g_peer g)) u64_0) eqn:E0;
    [apply u64_eqb_eq in E0|apply u64_eqb_ne in E0].
  { split.
    - intros [H _]. result_inv. apply genesis_parent_ok in E as [H1 ->]; [|done].
      split; [by constructor|done].
    - intros [Hx _]. inversion Hx; subst; try done.
      split; [|cbn; subst role; by destruct Hr as [->| ->]].
      erewrite (proj2 (genesis_parent_ok _ _ _ _ Hr)) by eauto. done. }
  destruct (lane_ok_live _ _ (ok_peer _ Hg) E0) as [_ [last Hl] [k Hk] Hf _ Ht _ _ _].
  pose proof (ok_due _ Hg) as Hdue.
  destruct new; cbn [negb]; split.
  - intros [H Hlt]. result_inv. apply successor_ok in E1. apply lane_tail_ok in E2 as (k' & l' & ? & ? & ->).
    rewrite <-E. split; [|done]. econstructor; eauto.
  - intros [Hx Hd]. inversion Hx as [|?|n k' l' ? ? Hk' Hl' Hc Hn]; subst; try done.
    destruct Hc as [f Hff].
    rewrite Hd by done. cbn [fail_if rbind]. rewrite Hff. cbn [ok_or rbind].
    rewrite bool_decide_eq_false_2; cycle 1.
    { intros E. rewrite Hd in Hdue by done.
      discriminate (proj2 Hdue (conj Hf (eq_trans E (eq_sym Hff)))). }
    cbn [fail_if rbind]. rewrite (proj2 (successor_ok _ _ n)) by done. cbn [rbind].
    rewrite (proj2 (lane_tail_ok _ _)) by eauto. done.
  - intros [H Hlt]. result_inv. destruct a as [j n]. apply continuation_index_ok in E as [Hj Hn].
    split; [by eapply expects_continue|done].
  - intros [Hx Hd]. inversion Hx as [|j n|]; subst; try done. split; [|done].
    by rewrite (proj2 (continuation_index_ok _ j n)).
Qed.

(** ** Turns *)

Lemma current_turn_ok g :
  guard_ok g → ∃ t, current_turn g = Ok t ∧
    uint_val t =
      if g_rotate_due g then turn_of (other_role (g_role g)) (lane_g (g_peer g))
      else if u64_eqb (lane_next (g_own g)) u64_0 then 0%N
      else turn_of (g_role g) (lane_g (g_own g)).
Proof.
  intros Hg. pose proof (ok_role _ Hg) as Hr. unfold current_turn.
  destruct (g_rotate_due g) eqn:Ed.
  - destruct (proj1 (ok_due _ Hg) Ed) as [Hf _].
    rewrite (lane_ok_first _ _ (ok_peer _ Hg)) in Hf.
    pose proof (live_turn _ _ (lane_ok_live _ _ (ok_peer _ Hg) Hf)).
    exists (as_u64 (turn_of (other_role (g_role g)) (lane_g (g_peer g)))).
    rewrite turn_exists, as_u64_small; auto using other_role_ok.
  - destruct (u64_eqb (lane_next (g_own g)) u64_0) eqn:E0; [by exists u64_0|].
    apply u64_eqb_ne in E0.
    pose proof (live_turn _ _ (lane_ok_live _ _ (ok_own _ Hg) E0)).
    exists (as_u64 (turn_of (g_role g) (lane_g (g_own g)))).
    rewrite turn_exists, as_u64_small; auto.
Qed.

(** A device that may send but is not due has sent before, or is the first. *)
Lemma not_due_role g x :
  guard_ok g → expected_send g = Ok x → g_rotate_due g = false →
  lane_next (g_own g) = u64_0 → g_role g = x00 ∧ exp_g x = u64_0.
Proof.
  intros Hg Hx Hd E0. unfold expected_send in Hx.
  rewrite (proj2 (guard_validate_ok g) Hg), (proj2 (u64_eqb_eq _ _) E0) in Hx. cbn [rbind] in Hx.
  result_inv. apply genesis_parent_ok in E as [H1 _]; [|apply (ok_role _ Hg)].
  split; [|done]. destruct (ok_role _ Hg) as [Er|Er]; [done|].
  destruct (first_due g Hg (H1 Er) E0) as (_ & _ & Hd'). congruence.
Qed.

Definition post_turn_send (g : Guard2) (x : Expected) : result GuardError u64 :=
  let? pre := current_turn g in
  if g_rotate_due g || (byte_val (g_role g) =? 1)%N && u64_eqb (lane_next (g_own g)) u64_0
  then dh_step pre (g_role g) (exp_g x) else Ok pre.

(** Sending an expected event makes the turn of its generation. *)
Lemma post_turn_send_ok g x t :
  guard_ok g → expected_send g = Ok x →
  post_turn_send g x = Ok t ↔ uint_val t = turn_of (g_role g) (exp_g x).
Proof.
  intros Hg Hx. pose proof (ok_role _ Hg) as Hr. unfold post_turn_send.
  destruct (current_turn_ok g Hg) as (pre & -> & Hpre). cbn [rbind].
  assert (Hnew : g_rotate_due g = true → turn_of (g_role g) (exp_g x) = (uint_val pre + 1)%N).
  { intros Ed. rewrite Ed in Hpre. unfold expected_send in Hx.
    rewrite (proj2 (guard_validate_ok g) Hg) in Hx. cbn [rbind] in Hx.
    destruct (proj1 (ok_due _ Hg) Ed) as [Hf _]. rewrite (lane_ok_first _ _ (ok_peer _ Hg)) in Hf.
    pose proof (ok_turns _ Hg Hf) as Hturns. pose proof (ok_inbound _ Hg Hf) as Hin.
    destruct (u64_eqb (lane_next (g_own g)) u64_0) eqn:E0;
      [apply u64_eqb_eq in E0|apply u64_eqb_ne in E0].
    - destruct (Hin E0) as (Er & Eg & _). result_inv. cbn [exp_g]. by rewrite Hpre, Er, Eg.
    - rewrite Ed in *. result_inv. apply successor_ok in E. specialize (Hturns E0). cbv zeta in Hturns.
      cbn [exp_g]. rewrite Hpre, Hturns. unfold turn_of. rewrite E. lia. }
  destruct (g_rotate_due g) eqn:Ed; cbn [orb].
  { rewrite dh_step_ok, (Hnew eq_refl). split; [by intros (_ & -> & _)|by intros ->]. }
  pose proof (not_due_role g x Hg Hx Ed) as H0.
  assert ((byte_val (g_role g) =? 1)%N && u64_eqb (lane_next (g_own g)) u64_0 = false) as ->.
  { apply not_true_is_false. rewrite andb_true_iff, u64_eqb_eq. intros [E1 E0].
    destruct (H0 E0) as [Er _]. by rewrite Er in E1. }
  assert (Hval : uint_val pre = turn_of (g_role g) (exp_g x)).
  { rewrite Hpre. destruct (u64_eqb (lane_next (g_own g)) u64_0) eqn:E0.
    - apply u64_eqb_eq in E0. by destruct (H0 E0) as [-> ->].
    - unfold expected_send in Hx. rewrite (proj2 (guard_validate_ok g) Hg), Ed, E0 in Hx.
      cbn [rbind] in Hx. by result_inv. }
  rewrite <-Hval. split; [by intros [= ->]|]. intros E. f_equal. by apply uint_eq.
Qed.

(** * Preflight *)

Lemma check_generations_ok root native :
  is_ok (check_generations root native) = true ↔
  (uint_val root + 1 < U64_BOUND)%N ∧ (uint_val native + 1 < U64_BOUND)%N.
Proof.
  unfold check_generations. split.
  - intros H. destruct (successor root RootGeneration) as [r|] eqn:E1; [|done]. cbn [rbind] in H.
    destruct (successor native NativeGeneration) as [n|] eqn:E2; [|done].
    split; by eapply successor_fits.
  - intros [H1 H2]. destruct (successor_exists root RootGeneration H1) as (? & -> & _).
    destruct (successor_exists native NativeGeneration H2) as (? & -> & _). done.
Qed.

(** The step [preflight_send] prepares. *)
Definition send_step (g : Guard2) (p : EventMeta) : PreparedStep := {|
  step_before := g; step_event := p; step_receive := false;
  step_next := as_u64 (uint_val (ev_n p) + 1);
  step_native_post_index := as_u64 (uint_val (ev_index p) + 1);
  step_native_post_turn := as_u64 (turn_of (g_role g) (exp_g (ev_expected p)))
|}.

Definition generations_left (root native : u64) : Prop :=
  (uint_val root + 1 < U64_BOUND)%N ∧ (uint_val native + 1 < U64_BOUND)%N.

Lemma successor_as_u64 n kind m : successor n kind = Ok m → m = as_u64 (uint_val n + 1).
Proof. intros E%successor_ok. apply uint_eq. rewrite <-E. by rewrite as_u64_id. Qed.

Lemma successor_total n kind :
  (uint_val n + 1 < U64_BOUND)%N → successor n kind = Ok (as_u64 (uint_val n + 1)).
Proof. intros H. apply successor_ok. by rewrite as_u64_small. Qed.

(** The checks [preflight_send] and [preflight_receive] share. *)
Lemma preflight_head_ok {A} g e role l root native (k : u64 → u64 → result GuardError A) a :
  (guard_validate g ;?
   check_generations root native ;?
   let? next := successor (ev_n e) Ordinal in
   successor (ev_sequence e) Author ;?
   let? post_index := consume_index (ev_index e) in
   fail_if
     (negb (bool_decide (ev_role e = role))
      || negb (u64_eqb (ev_n e) (lane_next l))
      || negb (bool_decide (ev_previous e = lane_last l))
      || match lane_sequence l with Some s => (ev_sequence e <=? s)%N | None => false end
      || negb (u64_eqb (ev_index e) (exp_index (ev_expected e)))
      || negb (byte_val (ev_kind e) =?
           (if u64_eqb (ev_n e) u64_0 then byte_val (as_u8 (byte_val role + 1)) else 3))%N
      || negb (Bool.eqb (byte_val (ev_kind e) =? 1)%N (byte_val (ev_native_kind e) =? 0)%N)
      || (1 <? byte_val (ev_native_kind e))%N)
     (Input "cursor/kind/header/sequence") ;?
   k next post_index) = Ok a ↔
  guard_ok g ∧ generations_left root native ∧ header_ok role l e ∧
  k (as_u64 (uint_val (ev_n e) + 1)) (as_u64 (uint_val (ev_index e) + 1)) = Ok a.
Proof.
  unfold consume_index, generations_left. rewrite rbind_unit_ok, guard_validate_ok.
  apply and_iff_compat_l. rewrite rbind_ok, <-check_generations_ok. split.
  - intros (x & -> & H). split; [done|].
    apply rbind_ok in H as (next & Hn & H). apply rbind_ok in H as (s & Hs & H).
    apply rbind_ok in H as (post & Hp & H). apply rbind_unit_ok in H as [Hh%fail_if_ok H].
    apply header_check_ok in Hh; [|eauto..].
    by rewrite <-(successor_as_u64 _ _ _ Hn), <-(successor_as_u64 _ _ _ Hp).
  - intros (Hgen & Hh & H). destruct (check_generations root native) as [x|]; [|done].
    exists x. split; [done|].
    pose proof (successor_total _ Ordinal (hdr_n_fits _ _ _ Hh)) as H1.
    pose proof (successor_total _ Author (hdr_sequence_fits _ _ _ Hh)) as H2.
    pose proof (successor_total _ Symmetric (hdr_index_fits _ _ _ Hh)) as H3.
    rewrite H1, H2, H3. cbn [rbind].
    by rewrite (proj2 (header_check_ok role l e ltac:(eauto) ltac:(eauto) ltac:(eauto)) Hh).
Qed.

Lemma preflight_send_ok g p root native step :
  preflight_send g p root native = Ok step ↔
  guard_ok g ∧ generations_left root native ∧ header_ok (g_role g) (g_own g) p ∧
  lane_expects (g_role g) (g_own g) (lane_first (g_peer g)) (g_rotate_due g) (ev_expected p) ∧
  step = send_step g p.
Proof.
  unfold preflight_send, preflight. cbv zeta. cbn [andb negb]. rewrite preflight_head_ok.
  split; intros (Hg & Hgen & Hh & H); do 3 (split; [done|]).
  - apply rbind_ok in H as (x & Hx & H). apply rbind_unit_ok in H as [H1%fail_if_ok H].
    cbn [rbind] in H. apply rbind_ok in H as (pre & Hpre & H). apply rbind_ok in H as (t & Ht & H).
    autorewrite with guard_bool in H1. subst x. apply Ok_inj in H as <-.
    pose proof (proj1 (post_turn_send_ok g _ t Hg Hx)) as Hv.
    unfold post_turn_send in Hv. rewrite Hpre in Hv. specialize (Hv Ht). split.
    + apply expected_send_ok; [done|]. split; [done|]. rewrite <-Hv. apply uint_lt.
    + unfold send_step. by rewrite <-Hv, as_u64_id.
  - destruct H as [Hx ->]. apply expected_send_ok in Hx as [Hx Hlt]; [|done].
    rewrite Hx. cbn [rbind]. rewrite bool_decide_eq_true_2 by done. cbn [negb fail_if rbind].
    pose proof (proj2 (post_turn_send_ok g _ (as_u64 (turn_of (g_role g) (exp_g (ev_expected p)))) Hg Hx)
      ltac:(by rewrite as_u64_small)) as Ht.
    unfold post_turn_send in Ht. destruct (current_turn g) as [pre|]; [|done]. cbn [rbind] in *.
    by rewrite Ht.
Qed.

(** The turn the native ratchet is at. *)
Definition turn_now (g : Guard2) : N :=
  if g_rotate_due g then turn_of (other_role (g_role g)) (lane_g (g_peer g))
  else if u64_eqb (lane_next (g_own g)) u64_0 then 0%N
  else turn_of (g_role g) (lane_g (g_own g)).

Lemma empty_is_new role l e : lane_ok role l → lane_next l = u64_0 → is_new l e = true.
Proof. intros Hl E0. rewrite (lane_ok_empty _ _ Hl E0). done. Qed.

Lemma peer_empty_not_due g : guard_ok g → lane_next (g_peer g) = u64_0 → g_rotate_due g = false.
Proof.
  intros Hg E0. apply not_true_is_false. intros [Hf _]%(ok_due _ Hg).
  rewrite (lane_ok_empty _ _ (ok_peer _ Hg) E0) in Hf. by destruct Hf.
Qed.

Definition post_turn_receive (g : Guard2) (e : EventMeta) : result GuardError u64 :=
  let? pre := current_turn g in
  if is_new (g_peer g) e then
    if (byte_val (other_role (g_role g)) =? 0)%N && u64_eqb (ev_n e) u64_0 then
      fail_if (negb (u64_eqb pre u64_0) || negb (u64_eqb (lane_next (g_own g)) u64_0))
        (Input "inbound constructor") ;?
      Ok u64_0
    else dh_step pre (other_role (g_role g)) (exp_g (ev_expected e))
  else Ok pre.

(** A new generation of the peer makes the turn after the present one. *)
Lemma new_generation_turn g e :
  let role := other_role (g_role g) in
  guard_ok g → ev_n e = lane_next (g_peer g) → is_new (g_peer g) e = true →
  expected_receive g (g_peer g) role true = Ok (ev_expected e) →
  if (byte_val role =? 0)%N && u64_eqb (ev_n e) u64_0
  then turn_now g = 0%N ∧ lane_next (g_own g) = u64_0 ∧ exp_g (ev_expected e) = u64_0
  else turn_of role (exp_g (ev_expected e)) = (turn_now g + 1)%N.
Proof.
  intros role Hg Hn Hnew Hx. unfold turn_now, expected_receive in *. rewrite Hn in *.
  destruct (u64_eqb (lane_next (g_peer g)) u64_0) eqn:E0.
  - apply u64_eqb_eq in E0. rewrite (peer_empty_not_due g Hg E0).
    apply rbind_ok in Hx as (x & Hp & Hx). apply Ok_inj in Hx. rewrite <-Hx. cbn [exp_g].
    apply genesis_parent_ok in Hp as [Hp _]; [|apply other_role_ok, (ok_role _ Hg)].
    pose proof (ok_outbound _ Hg E0) as Hout. destruct (u64_eqb_eq (lane_next (g_own g)) u64_0) as [_ Ho].
    subst role. destruct (ok_role _ Hg) as [Er|Er]; rewrite Er in *; cbn [andb].
    + specialize (Hp eq_refl). rewrite (lane_ok_first _ _ (ok_own _ Hg)) in Hp.
      rewrite (proj2 (u64_eqb_ne _ _) Hp). destruct (Hout Hp) as [_ ->]. done.
    + destruct (decide (lane_next (g_own g) = u64_0)) as [E|E].
      * by rewrite Ho.
      * by destruct (Hout E).
  - rewrite andb_false_r. cbn [negb] in Hx. apply u64_eqb_ne in E0.
    apply rbind_unit_ok in Hx as [Hd%fail_if_ok Hx]. rewrite Hd.
    apply rbind_ok in Hx as (f & Hf%ok_or_ok & Hx). apply rbind_unit_ok in Hx as [_ Hx].
    apply rbind_ok in Hx as (n & Hs%successor_ok & Hx). apply rbind_ok in Hx as (t & _ & Hx).
    apply Ok_inj in Hx. rewrite <-Hx. cbn [exp_g].
    assert (Ho : lane_next (g_own g) ≠ u64_0) by (apply (lane_ok_first _ _ (ok_own _ Hg)); by rewrite Hf).
    rewrite (proj2 (u64_eqb_ne _ _) Ho). pose proof (ok_turns _ Hg E0 Ho) as Ht. cbv zeta in Ht.
    subst role. rewrite Hd in Ht. rewrite Ht. unfold turn_of. rewrite Hs. lia.
Qed.

Lemma post_turn_receive_ok g e t :
  let role := other_role (g_role g) in
  guard_ok g → ev_n e = lane_next (g_peer g) →
  expected_receive g (g_peer g) role (is_new (g_peer g) e) = Ok (ev_expected e) →
  post_turn_receive g e = Ok t ↔
  uint_val t = if is_new (g_peer g) e then turn_of role (exp_g (ev_expected e)) else turn_now g.
Proof.
  intros role Hg Hn Hx. unfold post_turn_receive.
  destruct (current_turn_ok g Hg) as (pre & -> & Hpre). fold (turn_now g) in Hpre. cbn [rbind].
  destruct (is_new (g_peer g) e) eqn:Hnew; cycle 1.
  { rewrite <-Hpre. split; [by intros [= ->]|]. intros E. f_equal. by apply uint_eq. }
  pose proof (new_generation_turn g e Hg Hn Hnew Hx) as H. cbv zeta in H. fold role in H |- *.
  destruct ((byte_val role =? 0)%N && u64_eqb (ev_n e) u64_0) eqn:Eb.
  - destruct H as (H1 & H2 & H3). rewrite H1 in Hpre. rewrite H2, H3.
    assert (pre = u64_0) as -> by (by apply uint_eq).
    change (u64_eqb u64_0 u64_0) with true. cbn [negb orb fail_if rbind].
    apply andb_true_iff in Eb as [Er%N.eqb_eq _].
    assert (turn_of role u64_0 = 0%N) as -> by (unfold turn_of; by rewrite Er).
    split; [by intros [= <-]|]. intros E. f_equal. by apply uint_eq.
  - rewrite dh_step_ok, H, Hpre. split; [by intros (_ & -> & _)|].
    intros ->. split; [|done]. apply other_role_ok, (ok_role _ Hg).
Qed.

(** The step [preflight_receive] prepares. *)
Definition receive_step (g : Guard2) (e : EventMeta) : PreparedStep := {|
  step_before := g; step_event := e; step_receive := true;
  step_next := as_u64 (uint_val (ev_n e) + 1);
  step_native_post_index := as_u64 (uint_val (ev_index e) + 1);
  step_native_post_turn := as_u64
    (if is_new (g_peer g) e then turn_of (other_role (g_role g)) (exp_g (ev_expected e))
     else turn_now g)
|}.

Lemma turn_now_fits g : guard_ok g → (turn_now g < U64_BOUND)%N.
Proof.
  intros Hg. destruct (current_turn_ok g Hg) as (t & _ & Ht). fold (turn_now g) in Ht.
  rewrite <-Ht. apply uint_lt.
Qed.

Lemma preflight_receive_ok g e seen root native step :
  preflight_receive g e seen root native = Ok step ↔
  guard_ok g ∧ generations_left root native ∧
  admits (other_role (g_role g)) (g_peer g) (lane_first (g_own g)) e ∧
  (lane_next (g_peer g) ≠ u64_0 → is_new (g_peer g) e = true → g_rotate_due g = false) ∧
  check_seen (g_peer g) (ev_key e) (exp_g (ev_expected e)) seen = Ok tt ∧
  step = receive_step g e.
Proof.
  unfold preflight_receive, preflight, admits. cbv zeta. cbn [andb negb].
  rewrite preflight_head_ok. fold (is_new (g_peer g) e).
  split.
  - intros (Hg & Hgen & Hh & H). do 2 (split; [done|]).
    apply rbind_ok in H as (x & Hx & H). apply rbind_unit_ok in H as [H1%fail_if_ok H].
    cbn [rbind ok_or] in H. apply rbind_unit_ok in H as [Hseen H].
    apply rbind_ok in H as (pre & Hpre & H). apply rbind_ok in H as (t & Ht & H).
    autorewrite with guard_bool in H1. subst x. apply Ok_inj in H as <-.
    pose proof (proj1 (post_turn_receive_ok g e t Hg (hdr_n _ _ _ Hh) Hx)) as Hv.
    unfold post_turn_receive in Hv. rewrite Hpre in Hv. specialize (Hv Ht).
    destruct (proj1 (expected_receive_ok g (is_new (g_peer g) e) (ev_expected e) Hg)) as [Hl Hd].
    { split; [done|]. destruct (is_new (g_peer g) e) eqn:Hnew; [rewrite <-Hv; apply uint_lt|].
      unfold expected_receive in Hx. destruct (u64_eqb (lane_next (g_peer g)) u64_0) eqn:E0.
      - apply u64_eqb_eq in E0. by rewrite (empty_is_new _ _ _ (ok_peer _ Hg) E0) in Hnew.
      - apply u64_eqb_ne in E0. cbn [negb] in Hx. apply rbind_ok in Hx as (j & _ & Hx).
        apply Ok_inj in Hx. rewrite <-Hx. apply (live_turn _ _ (lane_ok_live _ _ (ok_peer _ Hg) E0)). }
    split_and!; auto. unfold receive_step. by rewrite <-Hv, as_u64_id.
  - intros (Hg & Hgen & [Hh Hl] & Hd & Hseen & ->). do 3 (split; [done|]).
    destruct (proj2 (expected_receive_ok g (is_new (g_peer g) e) (ev_expected e) Hg)) as [Hx Hlt]; [done|].
    rewrite Hx. cbn [rbind]. rewrite bool_decide_eq_true_2 by done. cbn [negb fail_if rbind ok_or].
    rewrite Hseen. cbn [rbind].
    pose proof (proj2 (post_turn_receive_ok g e (step_native_post_turn (receive_step g e)) Hg
      (hdr_n _ _ _ Hh) Hx)) as Ht. cbv zeta in Ht.
    specialize (Ht ltac:(cbn; rewrite as_u64_small; [done|]; destruct (is_new _ _); auto using turn_now_fits)).
    unfold post_turn_receive in Ht. destruct (current_turn g) as [pre|]; [|done]. cbn [rbind] in *.
    by rewrite Ht.
Qed.

(** * Apply *)

Lemma check_seen_ok l key g seen :
  check_seen l key g seen = Ok tt ↔
  match seen with
  | Present s => lane_key l = Some key ∧ seen_generation s = g ∧ lane_first l = Some (seen_first s)
  | Absent => lane_key l ≠ Some key
  end.
Proof.
  unfold check_seen. destruct (bool_decide_reflect (lane_key l = Some key)) as [E|E], seen as [|s];
    try (split; [done|by intuition]).
  rewrite if_ok_err. autorewrite with guard_bool. intuition congruence.
Qed.

Lemma is_new_false l e : is_new l e = false ↔ lane_key l = Some (ev_key e).
Proof. unfold is_new. by autorewrite with guard_bool. Qed.
Lemma is_new_true l e : is_new l e = true ↔ lane_key l ≠ Some (ev_key e).
Proof. unfold is_new. by autorewrite with guard_bool. Qed.

Lemma record_first l e id next :
  lane_first (lane_record l e id next) = if is_new l e then Some id else lane_first l.
Proof. cbn. unfold is_new. by destruct (bool_decide _). Qed.

(** A continuation stays in its generation. *)
Lemma continue_same_g role l cause e :
  lane_ok role l → admits role l cause e → is_new l e = false →
  lane_next l ≠ u64_0 ∧ exp_g (ev_expected e) = lane_g l.
Proof.
  intros Hl [_ Hx] Hk. rewrite Hk in Hx.
  inversion Hx as [E0| |]; subst; try done.
  by rewrite (empty_is_new _ _ _ Hl E0) in Hk.
Qed.

Definition next_of (e : EventMeta) : u64 := as_u64 (uint_val (ev_n e) + 1).

Lemma next_of_val role l e : header_ok role l e → uint_val (next_of e) = (uint_val (ev_n e) + 1)%N.
Proof. intros H. apply as_u64_small, H. Qed.

(** An admitted new generation is the first event of the dialog, or takes the
    turn after the device's own. *)
Lemma admitted_new_turn g e :
  guard_ok g → admits (other_role (g_role g)) (g_peer g) (lane_first (g_own g)) e →
  (lane_next (g_peer g) ≠ u64_0 → is_new (g_peer g) e = true → g_rotate_due g = false) →
  is_new (g_peer g) e = true →
  (lane_next (g_own g) = u64_0 → g_role g = x01 ∧ exp_g (ev_expected e) = u64_0) ∧
  (lane_next (g_own g) ≠ u64_0 →
   turn_of (other_role (g_role g)) (exp_g (ev_expected e)) =
   (turn_of (g_role g) (lane_g (g_own g)) + 1)%N).
Proof.
  intros Hg [Hh Hl] Hd Hnew. rewrite Hnew in *.
  pose proof (lane_ok_first _ _ (ok_own _ Hg)) as Hfirst.
  destruct (proj2 (expected_receive_ok g true (ev_expected e) Hg) ltac:(auto)) as [Hx _].
  pose proof (new_generation_turn g e Hg (hdr_n _ _ _ Hh) Hnew Hx) as Ht. cbv zeta in Ht.
  destruct ((byte_val (other_role (g_role g)) =? 0)%N && u64_eqb (ev_n e) u64_0) eqn:Eb.
  - destruct Ht as (_ & Ho & ->). split; [|done]. intros _. split; [|done].
    apply andb_true_iff in Eb as [Er _]. by destruct (ok_role _ Hg) as [E|E]; rewrite E in *.
  - split; intros Ho.
    + exfalso. inversion Hl as [E0 Hc| |? ? ? E0 _ _ _ Hc]; subst; [| |tauto]; [|done].
      rewrite (hdr_n _ _ _ Hh), E0, andb_true_r in Eb.
      destruct (ok_role _ Hg) as [E|E]; rewrite E in *; [|done]. tauto.
    + rewrite Ht. unfold turn_now. rewrite (proj2 (u64_eqb_ne _ _) Ho).
      destruct (g_rotate_due g) eqn:Ed; [|done].
      destruct (decide (lane_next (g_peer g) = u64_0)) as [E0|E0]; [|by specialize (Hd E0 eq_refl)].
      by rewrite (peer_empty_not_due g Hg E0) in Ed.
Qed.

(** Recording an admitted event of the peer keeps the guard well-formed: the
    final validation of [apply] never refuses it. *)
Lemma trial_receive_valid g e id :
  guard_ok g → admits (other_role (g_role g)) (g_peer g) (lane_first (g_own g)) e →
  (lane_next (g_peer g) ≠ u64_0 → is_new (g_peer g) e = true → g_rotate_due g = false) →
  guard_ok (trial_receive g e id (next_of e)).
Proof.
  intros Hg Ha Hd. pose proof (other_role_ok _ (ok_role _ Hg)) as Hr.
  pose proof (next_of_val _ _ _ (proj1 Ha)) as Hnext.
  pose proof (admits_record_live _ _ _ _ id _ Hr (ok_peer _ Hg) Ha Hnext) as Hlive.
  pose proof (record_first (g_peer g) e id (next_of e)) as Hrf.
  pose proof (admitted_new_turn g e Hg Ha Hd) as Htr. clear Hd.
  unfold trial_receive. fold (is_new (g_peer g) e).
  destruct (is_new (g_peer g) e) eqn:Hnew.
  - split; cbn [g_version g_role g_own g_peer g_rotate_due g_received_new_first g_used_own_first];
      try apply Hg; try done.
    + by right.
    + intros E _. by destruct (live_next _ _ Hlive).
    + intros _ Eo. cbn [lane_g lane_record].
      by destruct (proj1 (Htr eq_refl) Eo).
    + intros _ Eo. cbn [lane_g lane_record].
      by apply (proj2 (Htr eq_refl)).
  - destruct (continue_same_g _ _ _ _ (ok_peer _ Hg) Ha Hnew) as [E0 Hsame].
    split; cbn [g_version g_role g_own g_peer g_rotate_due g_received_new_first g_used_own_first];
      try apply Hg; try done.
    + by right.
    + rewrite Hrf. apply Hg.
    + rewrite Hrf. apply Hg.
    + intros E _. by destruct (live_next _ _ Hlive).
    + intros _ Eo. cbn [lane_g lane_record]. rewrite Hsame. by apply (ok_inbound _ Hg).
    + intros _ Eo. cbn [lane_g lane_record]. rewrite Hsame. by apply (ok_turns _ Hg).
Qed.

(** The generation an admitted own event is in. *)
Lemma admitted_own_turn g e :
  guard_ok g → admits (g_role g) (g_own g) (lane_first (g_peer g)) e →
  (lane_next (g_own g) ≠ u64_0 → is_new (g_own g) e = g_rotate_due g) →
  (lane_next (g_peer g) = u64_0 → g_role g = x00 ∧ exp_g (ev_expected e) = u64_0) ∧
  (lane_next (g_peer g) ≠ u64_0 →
   turn_of (g_role g) (exp_g (ev_expected e)) =
   (turn_of (other_role (g_role g)) (lane_g (g_peer g)) + 1)%N).
Proof.
  intros Hg [Hh Hl] Hd. pose proof (lane_ok_first _ _ (ok_peer _ Hg)) as Hfirst.
  destruct (decide (lane_next (g_own g) = u64_0)) as [E0|E0].
  - inversion Hl as [_ Hc| |]; subst; [|done..]. cbn [exp_g]. split; intros Hp.
    + split; [|done]. destruct (ok_role _ Hg) as [E|E]; [done|]. tauto.
    + destruct (first_due g Hg ltac:(tauto) E0) as (-> & -> & _). done.
  - specialize (Hd E0). rewrite Hd in Hl.
    inversion Hl as [|? ? _ Ed|n ? ? _ Ed _ _ Hc Hn]; subst; [done| |]; cbn [exp_g].
    + split; intros Hp; [by apply (ok_outbound _ Hg)|].
      pose proof (ok_turns _ Hg Hp E0) as Ht. cbv zeta in Ht. by rewrite Ed in Ht.
    + split; intros Hp; [tauto|].
      pose proof (ok_turns _ Hg Hp E0) as Ht. cbv zeta in Ht. rewrite Ed in Ht. rewrite Ht.
      unfold turn_of. rewrite Hn. lia.
Qed.

(** Recording an admitted own event with a fresh identifier keeps the guard
    well-formed. *)
Lemma trial_send_valid g e id :
  guard_ok g → admits (g_role g) (g_own g) (lane_first (g_peer g)) e →
  (lane_next (g_own g) ≠ u64_0 → is_new (g_own g) e = g_rotate_due g) →
  lane_first (g_own g) ≠ Some id →
  guard_ok (trial_send g e id (next_of e)).
Proof.
  intros Hg Ha Hd Hid. pose proof (next_of_val _ _ _ (proj1 Ha)) as Hnext.
  pose proof (admits_record_live _ _ _ _ id _ (ok_role _ Hg) (ok_own _ Hg) Ha Hnext) as Hlive.
  destruct (admitted_own_turn g e Hg Ha Hd) as [Hout Hturn].
  unfold trial_send.
  split; cbn [g_version g_role g_own g_peer g_rotate_due g_received_new_first g_used_own_first];
    try apply Hg; try done.
  - by right.
  - split; [done|]. intros [Hf Hu]. exfalso. rewrite record_first in Hu.
    destruct (decide (lane_next (g_own g) = u64_0)) as [E0|E0].
    + rewrite (empty_is_new _ _ _ (ok_own _ Hg) E0) in Hu.
      destruct (first_due g Hg Hf E0) as (_ & _ & Ed). apply (ok_due _ Hg) in Ed as [_ Ed].
      congruence.
    + rewrite (Hd E0) in Hu. pose proof (ok_due _ Hg) as Hdue.
      destruct (g_rotate_due g); [destruct (proj1 Hdue eq_refl); congruence|].
      discriminate (proj2 Hdue (conj Hf Hu)).
  - intros Hp _. by apply Hout.
  - intros _ E. by destruct (live_next _ _ Hlive).
  - intros Hp _. by apply Hturn.
Qed.

(** ** The effect of a prepared step *)

Lemma apply_receive_ok g e id seen g' :
  guard_ok g → admits (other_role (g_role g)) (g_peer g) (lane_first (g_own g)) e →
  (lane_next (g_peer g) ≠ u64_0 → is_new (g_peer g) e = true → g_rotate_due g = false) →
  apply g (receive_step g e) e id seen = Ok g' ↔
  check_seen (g_peer g) (ev_key e) (exp_g (ev_expected e)) seen = Ok tt ∧
  g' = trial_receive g e id (next_of e).
Proof.
  intros Hg Ha Hd. unfold apply. cbn [step_receive receive_step step_event step_before step_next negb andb].
  rewrite !bool_decide_eq_true_2 by done. cbn [negb orb fail_if rbind].
  rewrite rbind_unit_ok. apply and_iff_compat_l.
  fold (next_of e). rewrite (proj2 (guard_validate_ok _) (trial_receive_valid g e id Hg Ha Hd)).
  cbn [rbind]. split; [by intros ->%Ok_inj|by intros ->].
Qed.

Lemma apply_send_ok g p e id seen g' :
  apply g (send_step g p) e id seen = Ok g' ↔
  with_key p (ev_key e) = e ∧
  (lane_next (g_own g) ≠ u64_0 → g_rotate_due g = false → is_new (g_own g) e = false) ∧
  check_seen (g_own g) (ev_key e) (exp_g (ev_expected e)) seen = Ok tt ∧
  guard_ok (trial_send g e id (next_of p)) ∧ g' = trial_send g e id (next_of p).
Proof.
  unfold apply. cbn [step_receive send_step step_event step_before step_next negb andb].
  fold (next_of p) (is_new (g_own g) e).
  rewrite !rbind_unit_ok, !fail_if_ok, guard_validate_ok. autorewrite with guard_bool.
  assert (Heq : Ok (E:=GuardError) (trial_send g e id (next_of p)) = Ok g' ↔
    g' = trial_send g e id (next_of p)) by (split; [by intros ->%Ok_inj|by intros ->]).
  rewrite Heq. clear Heq.
  assert (Hc : ((lane_next (g_own g) = u64_0 ∨ g_rotate_due g = true) ∨ is_new (g_own g) e = false) ↔
    (lane_next (g_own g) ≠ u64_0 → g_rotate_due g = false → is_new (g_own g) e = false)).
  { destruct (g_rotate_due g), (is_new (g_own g) e), (decide (lane_next (g_own g) = u64_0)); intuition. }
  rewrite Hc. intuition.
Qed.

(** * Checkpoints *)

(** What [postcard] documents: every value of the type encodes; a value read
    from its own encoding is the value, and leaves what follows; an integer of
    64 bits takes at most ten bytes, an option one more than its value, an
    array its length, so that a guard takes at most 415. *)
Class GuardPostcardLaws `{GuardPostcard} : Prop := {
  guard_total : ∀ g, ∃ b, guard_to_allocvec g = Some b;
  guard_take : ∀ g b rest, guard_to_allocvec g = Some b →
    guard_take_from_bytes (b ++ rest) = Some (g, rest);
  guard_size : ∀ g b, guard_to_allocvec g = Some b → (len b <= 415)%N
}.

Section checkpoints.
Context `{GuardPostcardLaws}.

Lemma guard_encode_ok g bs :
  guard_encode g = Ok bs ↔ guard_ok g ∧ guard_to_allocvec g = Some bs.
Proof.
  unfold guard_encode. rewrite rbind_unit_ok, guard_validate_ok. apply and_iff_compat_l.
  rewrite rbind_ok. setoid_rewrite ok_or_ok. setoid_rewrite rbind_unit_ok.
  setoid_rewrite fail_if_ok. setoid_rewrite N.ltb_ge. split.
  - intros (b & Hb & _ & [= ->]). done.
  - intros Hb. exists bs. split_and!; try done.
    pose proof (guard_size _ _ Hb). unfold MAX_GUARD. lia.
Qed.

Lemma guard_restore_encoded g bs rest r :
  guard_ok g → guard_to_allocvec g = Some bs → (len (bs ++ rest) <= MAX_GUARD)%N →
  guard_restore (bs ++ rest) r =
  if decide (rest = [] ∧ g_role g = r) then Ok g else Err (Checkpoint "role/trailing").
Proof.
  intros Hg Hb Hl. unfold guard_restore. rewrite (proj2 (N.ltb_ge _ _) Hl). cbn [fail_if rbind].
  rewrite (guard_take _ _ rest Hb). cbn [ok_or rbind].
  destruct rest as [|x rest]; cbn [negb]; cycle 1.
  { rewrite decide_False by (by intros [? _]). unfold len. by rewrite (proj2 (N.eqb_neq _ _)). }
  change (len (@nil byte) =? 0)%N with true. cbn [negb orb].
  destruct (decide (g_role g = r)) as [E|E].
  - rewrite bool_decide_eq_true_2, decide_True by done. cbn [negb fail_if rbind].
    by rewrite (proj2 (guard_validate_ok g) Hg).
  - rewrite bool_decide_eq_false_2, decide_False by tauto. done.
Qed.

(** Every well-formed guard encodes, within the limit, and restoring its
    checkpoint gives the guard back for its own role and nothing for another
    role or with bytes appended. *)
Theorem guard_checkpoint_roundtrip g :
  guard_validate g = Ok tt →
  ∃ bs, guard_encode g = Ok bs ∧ (len bs <= MAX_GUARD)%N ∧
    guard_restore bs (g_role g) = Ok g ∧
    (∀ r, r ≠ g_role g → guard_restore bs r = Err (Checkpoint "role/trailing")) ∧
    (∀ rest r, rest ≠ [] → is_ok (guard_restore (bs ++ rest) r) = false).
Proof.
  intros Hg%guard_validate_ok. destruct (guard_total g) as [bs Hb]. exists bs.
  pose proof (guard_size _ _ Hb) as Hs. unfold MAX_GUARD in *.
  assert (Hr : ∀ r, guard_restore bs r =
    if decide (g_role g = r) then Ok g else Err (Checkpoint "role/trailing")).
  { intros r. rewrite <-(app_nil_r bs) at 1.
    rewrite (guard_restore_encoded g) by (rewrite ?app_nil_r; unfold MAX_GUARD; done || lia).
    destruct (decide (g_role g = r)); [by rewrite decide_True|by rewrite decide_False by tauto]. }
  split_and!.
  - by apply guard_encode_ok.
  - lia.
  - by rewrite Hr, decide_True.
  - intros r Hne. by rewrite Hr, decide_False by congruence.
  - intros rest r Hne. destruct (N.le_gt_cases (len (bs ++ rest)) MAX_GUARD) as [Hl|Hl].
    + rewrite (guard_restore_encoded g) by done. by rewrite decide_False by tauto.
    + unfold guard_restore. by rewrite (proj2 (N.ltb_lt _ _) Hl).
Qed.

End checkpoints.

(** ** Prepared steps *)

Lemma header_with_key r l e k : header_ok r l (with_key e k) ↔ header_ok r l e.
Proof. split; intros []; split; done. Qed.

(** The expectation of the guard decides whether the event opens a generation. *)
Lemma lane_expects_new r l cause b b' x :
  lane_expects r l cause b x → (lane_next l ≠ u64_0 → b = b') → lane_expects r l cause b' x.
Proof.
  intros Hx Hb. inversion Hx; subst.
  - by constructor.
  - eapply expects_continue; eauto. symmetry. auto.
  - eapply expects_rotate; eauto. symmetry. auto.
Qed.

(** A step that preflight has prepared is never refused when it is applied
    with the index it was prepared with: a received event, and a sent event in
    a new generation exactly when one is due, with an identifier other than
    that of the generation's first event.  The guard that results is a
    well-formed checkpoint. *)
Theorem prepared_step_applies g e id seen root native :
  (∀ step, preflight_receive g e seen root native = Ok step →
     apply g step e id seen = Ok (trial_receive g e id (step_next step)) ∧
     guard_validate (trial_receive g e id (step_next step)) = Ok tt) ∧
  (∀ planned step, preflight_send g planned root native = Ok step →
     with_key planned (ev_key e) = e →
     check_seen (g_own g) (ev_key e) (exp_g (ev_expected e)) seen = Ok tt →
     (lane_next (g_own g) ≠ u64_0 → is_new (g_own g) e = g_rotate_due g) →
     lane_first (g_own g) ≠ Some id →
     apply g step e id seen = Ok (trial_send g e id (step_next step)) ∧
     guard_validate (trial_send g e id (step_next step)) = Ok tt).
Proof.
  split.
  - intros step (Hg & _ & Ha & Hd & Hc & ->)%preflight_receive_ok.
    rewrite guard_validate_ok. split; [by apply apply_receive_ok|by apply trial_receive_valid].
  - intros planned step (Hg & _ & Hh & Hx & ->)%preflight_send_ok Hk Hc Hd Hid.
    assert (Hn : step_next (send_step g planned) = next_of e) by (by rewrite <-Hk).
    assert (Hv : guard_ok (trial_send g e id (next_of e))).
    { apply trial_send_valid; [done| |done|done]. split.
      - rewrite <-Hk. by apply header_with_key.
      - eapply lane_expects_new; [by rewrite <-Hk|]. intros E0. by rewrite Hd. }
    rewrite Hn, guard_validate_ok. split; [|done]. apply apply_send_ok.
    assert (next_of planned = next_of e) as -> by (by rewrite <-Hk).
    split_and!; try done. intros E0 Ed. by rewrite Hd.
Qed.
