(* ===== verification/OrderedDialog.v ===== *)
(** The dialog of two devices that keep the ordering guard of [OrderedGuard].

    A party is a guard with the index of the keys it has seen; it sends and
    receives an event by a preflight followed by [apply], as the import loop of
    [ordered_v2.rs] does for both kinds of events.  A dialog is two parties of
    opposite roles and the events in flight between them, each direction in the
    order in which it was sent: the devices transfer a lane by its ordinals.

    The theorems show that every event an honest device has sent is accepted by
    its peer, in whatever order the two devices send and receive; that the
    lanes of the two devices agree once nothing is in flight; that no event is
    accepted twice; and that the import of a recorded run rebuilds its guard. *)

From stdpp Require Import base tactics list numbers strings gmap sorting.
From Stdlib Require Import Strings.Byte.
From S2P Require Import Prelude Postcard OrderedGuard OrderedGuardFacts.

(** * Parties *)

Record Party := {
  p_guard : Guard2;
  p_seen : SeenIndex
}.

(** The party of a new dialog. *)
Definition party_new (role : byte) : result GuardError Party :=
  let? g := guard_new role in
  Ok {| p_guard := g; p_seen := ∅ |}.

(** Sending: [planned] is the event before the native ratchet has chosen the
    key, [e] the event as it was encrypted. *)
Definition send_event (p : Party) (planned e : EventMeta) (id : Id) (root native : u64)
  : result GuardError Party :=
  let observation := observe p.(p_seen) e in
  let? step := preflight_send p.(p_guard) planned root native in
  let? g := apply p.(p_guard) step e id observation in
  Ok {| p_guard := g; p_seen := seen_or_insert p.(p_seen) e id |}.

Definition receive_event (p : Party) (e : EventMeta) (id : Id) (root native : u64)
  : result GuardError Party :=
  let observation := observe p.(p_seen) e in
  let? step := preflight_receive p.(p_guard) e observation root native in
  let? g := apply p.(p_guard) step e id observation in
  Ok {| p_guard := g; p_seen := seen_or_insert p.(p_seen) e id |}.

Abbreviation own p := (g_own (p_guard p)).
Abbreviation peer p := (g_peer (p_guard p)).
Abbreviation role p := (g_role (p_guard p)).
Abbreviation due p := (g_rotate_due (p_guard p)).

(** * What the index of seen keys knows *)

(** The current key of a lane is indexed with its generation and first event. *)
Definition seen_lane (seen : SeenIndex) (r : byte) (l : Lane) : Prop :=
  ∀ k, lane_key l = Some k → ∃ s, seen !! (r, k) = Some s ∧
    seen_generation s = lane_g l ∧ lane_first l = Some (seen_first s).

(** A party whose guard is well-formed and whose index covers both lanes. *)
Record party_ok (p : Party) : Prop := {
  party_guard : guard_ok (p_guard p);
  party_own : seen_lane (p_seen p) (role p) (own p);
  party_peer : seen_lane (p_seen p) (other_role (role p)) (peer p)
}.

Lemma role_ne_other r : role_ok r → r ≠ other_role r.
Proof. by intros [->| ->]. Qed.

Lemma seen_insert_lookup seen e id r k :
  (r, k) ≠ (ev_role e, ev_key e) → seen_or_insert seen e id !! (r, k) = seen !! (r, k).
Proof.
  intros Hne. unfold seen_or_insert. destruct (seen !! (ev_role e, ev_key e)); [done|].
  by rewrite lookup_insert_ne by congruence.
Qed.

Lemma seen_insert_is_Some seen e id r k :
  is_Some (seen_or_insert seen e id !! (r, k)) ↔
  is_Some (seen !! (r, k)) ∨ (r, k) = (ev_role e, ev_key e).
Proof.
  destruct (decide ((r, k) = (ev_role e, ev_key e))) as [[= -> ->]|Hne].
  - split; [by right|]. intros _. unfold seen_or_insert.
    destruct (seen !! (ev_role e, ev_key e)) as [s|] eqn:E; [by rewrite E|].
    by rewrite lookup_insert_eq.
  - rewrite seen_insert_lookup by done. tauto.
Qed.

(** Events of one lane do not disturb the index of the other. *)
Lemma seen_lane_other seen r l e id :
  ev_role e ≠ r → seen_lane seen r l → seen_lane (seen_or_insert seen e id) r l.
Proof.
  intros Hne Hs k Hk. destruct (Hs k Hk) as (s & H). exists s.
  rewrite seen_insert_lookup by congruence. done.
Qed.

(** An observation that agrees with the index is what [check_seen] asks for:
    a new key is not indexed, a continued one is indexed as the lane records it. *)
Lemma check_seen_observe seen r l e :
  lane_ok r l → seen_lane seen r l → ev_role e = r →
  check_seen l (ev_key e) (exp_g (ev_expected e)) (observe seen e) = Ok tt ↔
  if is_new l e then seen !! (r, ev_key e) = None
  else exp_g (ev_expected e) = lane_g l.
Proof.
  intros Hl Hs <-. rewrite check_seen_ok. unfold observe.
  destruct (is_new l e) eqn:Hn; [apply is_new_true in Hn|apply is_new_false in Hn].
  - destruct (seen !! _) as [s|]; [|done]. split; [by intros [? _]|done].
  - destruct (Hs _ Hn) as (s & -> & Hg & Hf). rewrite Hg. split; [by intros (_ & -> & _)|by intros ->].
Qed.

(** Recording an event keeps the index of its lane. *)
Lemma seen_lane_record seen r l e id next :
  seen_lane seen r l → ev_role e = r →
  (if is_new l e then seen !! (r, ev_key e) = None else exp_g (ev_expected e) = lane_g l) →
  seen_lane (seen_or_insert seen e id) r (lane_record l e id next).
Proof.
  intros Hs <- Hn k Hk. rewrite record_first. cbn [lane_record lane_key lane_g] in *.
  injection Hk as <-. unfold seen_or_insert. destruct (is_new l e) eqn:Hnew.
  - rewrite Hn, lookup_insert_eq. eexists. split; [done|]. done.
  - apply is_new_false in Hnew. destruct (Hs _ Hnew) as (s & H1 & H2 & H3). rewrite H1.
    exists s. by rewrite Hn.
Qed.

(** ** Receiving *)

(** The events a party accepts: what its peer lane admits; a new generation
    only when it is not due to open one itself, and under an unknown key. *)
Record receivable (p : Party) (e : EventMeta) : Prop := {
  rcv_admits : admits (other_role (role p)) (peer p) (lane_first (own p)) e;
  rcv_not_due : lane_next (peer p) ≠ u64_0 → is_new (peer p) e = true → due p = false;
  rcv_fresh : is_new (peer p) e = true → p_seen p !! (other_role (role p), ev_key e) = None
}.

Definition after_receive (p : Party) (e : EventMeta) (id : Id) : Party := {|
  p_guard := trial_receive (p_guard p) e id (next_of e);
  p_seen := seen_or_insert (p_seen p) e id
|}.

Lemma receivable_seen p e :
  party_ok p → receivable p e →
  if is_new (peer p) e then p_seen p !! (other_role (role p), ev_key e) = None
  else exp_g (ev_expected e) = lane_g (peer p).
Proof.
  intros Hp Hr. destruct (is_new (peer p) e) eqn:Hn; [by apply Hr|].
  apply (continue_same_g _ _ _ _ (ok_peer _ (party_guard _ Hp)) (rcv_admits _ _ Hr) Hn).
Qed.

Lemma receive_event_ok p e id root native p' :
  party_ok p →
  receive_event p e id root native = Ok p' ↔
  generations_left root native ∧ receivable p e ∧ p' = after_receive p e id.
Proof.
  intros Hp. pose proof (party_guard _ Hp) as Hg. unfold receive_event. cbv zeta.
  pose proof (fun H => check_seen_observe (p_seen p) _ (peer p) e (ok_peer _ Hg) (party_peer _ Hp) H) as Hs.
  rewrite rbind_ok. setoid_rewrite preflight_receive_ok. split.
  - intros (step & (_ & Hgen & Ha & Hd & Hc & ->) & H).
    apply rbind_ok in H as (g' & Happ & H). apply Ok_inj in H as <-.
    apply apply_receive_ok in Happ as [_ ->]; [|done..].
    split_and!; [done| |done]. split; [done..|]. intros Hn.
    rewrite Hs, Hn in Hc by apply Ha. done.
  - intros (Hgen & Hr & ->). exists (receive_step (p_guard p) e).
    assert (Hc : check_seen (peer p) (ev_key e) (exp_g (ev_expected e)) (observe (p_seen p) e) = Ok tt).
    { apply Hs; [apply (rcv_admits _ _ Hr)|]. by apply receivable_seen. }
    split; [by split_and!; auto; apply Hr|]. cbv beta.
    rewrite (proj2 (apply_receive_ok _ _ id _ (trial_receive (p_guard p) e id (next_of e)) Hg
      (rcv_admits _ _ Hr) (rcv_not_due _ _ Hr)) (conj Hc eq_refl)).
    done.
Qed.

Lemma after_receive_ok p e id : party_ok p → receivable p e → party_ok (after_receive p e id).
Proof.
  intros Hp Hr. pose proof (party_guard _ Hp) as Hg.
  pose proof (hdr_role _ _ _ (proj1 (rcv_admits _ _ Hr))) as Hrole.
  split; cbn [after_receive p_guard p_seen trial_receive g_role g_own g_peer].
  - apply trial_receive_valid; [done|apply Hr..].
  - apply seen_lane_other; [|apply Hp]. rewrite Hrole. apply not_eq_sym, role_ne_other, (ok_role _ Hg).
  - apply seen_lane_record; [apply Hp|done|]. by apply receivable_seen.
Qed.

(** ** Sending *)

(** The events a party can send: what its own lane admits, in a new generation
    exactly when it is due, under a key it has not used. *)
Record sendable (p : Party) (e : EventMeta) : Prop := {
  snd_admits : admits (role p) (own p) (lane_first (peer p)) e;
  snd_due : lane_next (own p) ≠ u64_0 → is_new (own p) e = due p;
  snd_fresh : is_new (own p) e = true → p_seen p !! (role p, ev_key e) = None
}.

Definition after_send (p : Party) (e : EventMeta) (id : Id) : Party := {|
  p_guard := trial_send (p_guard p) e id (next_of e);
  p_seen := seen_or_insert (p_seen p) e id
|}.

Lemma sendable_seen p e :
  party_ok p → sendable p e →
  if is_new (own p) e then p_seen p !! (role p, ev_key e) = None
  else exp_g (ev_expected e) = lane_g (own p).
Proof.
  intros Hp Hr. destruct (is_new (own p) e) eqn:Hn; [by apply Hr|].
  apply (continue_same_g _ _ _ _ (ok_own _ (party_guard _ Hp)) (snd_admits _ _ Hr) Hn).
Qed.

Lemma send_event_inv p planned e id root native p' :
  party_ok p → send_event p planned e id root native = Ok p' →
  with_key planned (ev_key e) = e ∧ generations_left root native ∧ sendable p e ∧
  guard_ok (trial_send (p_guard p) e id (next_of e)) ∧ p' = after_send p e id.
Proof.
  intros Hp H. pose proof (party_guard _ Hp) as Hg. unfold send_event in H. cbv zeta in H.
  apply rbind_ok in H as (step & Hpre & H). apply preflight_send_ok in Hpre as (_ & Hgen & Hh & Hx & ->).
  apply rbind_ok in H as (g' & Happ & H). apply Ok_inj in H as <-.
  apply apply_send_ok in Happ as (Hk & Hcont & Hc & Hvalid & ->).
  assert (Hh' : header_ok (role p) (own p) e) by (rewrite <-Hk; by apply header_with_key).
  assert (Hx' : lane_expects (role p) (own p) (lane_first (peer p)) (due p) (ev_expected e))
    by (by rewrite <-Hk).
  assert (Hn : next_of planned = next_of e) by (by rewrite <-Hk). rewrite Hn in *.
  pose proof (check_seen_observe (p_seen p) _ (own p) e (ok_own _ Hg) (party_own _ Hp)
    (hdr_role _ _ _ Hh')) as Hs. rewrite Hs in Hc.
  assert (Hdue : lane_next (own p) ≠ u64_0 → is_new (own p) e = due p).
  { intros E0. specialize (Hcont E0). destruct (due p) eqn:Ed; [|auto].
    apply not_false_is_true. intros Hn0. rewrite Hn0 in Hc.
    inversion Hx' as [|?|n ? ? _ _ _ _ _ Hng]; subst; [done..|].
    match goal with Heq : _ = ev_expected e |- _ => rewrite <-Heq in Hc end.
    cbn [exp_g] in Hc. subst. lia. }
  split_and!; try done. split.
  - split; [done|]. eapply lane_expects_new; [done|]. intros E0. symmetry. auto.
  - done.
  - intros Hn0. by rewrite Hn0 in Hc.
Qed.

Lemma send_event_ok p planned e id root native :
  party_ok p → with_key planned (ev_key e) = e → generations_left root native →
  sendable p e → guard_ok (trial_send (p_guard p) e id (next_of e)) →
  send_event p planned e id root native = Ok (after_send p e id).
Proof.
  intros Hp Hk Hgen Hsnd Hv. pose proof (party_guard _ Hp) as Hg.
  destruct (snd_admits _ _ Hsnd) as [Hh Hx]. unfold send_event. cbv zeta.
  assert (Hn : next_of planned = next_of e) by (by rewrite <-Hk).
  rewrite (proj2 (preflight_send_ok (p_guard p) planned root native (send_step (p_guard p) planned))).
  - cbn [rbind]. rewrite (proj2 (apply_send_ok _ _ _ id _ (trial_send (p_guard p) e id (next_of planned)))).
    + cbn [rbind]. by rewrite Hn.
    + split_and!; [done| | |by rewrite Hn|done].
      * intros E0 Ed. by rewrite (snd_due _ _ Hsnd E0).
      * apply (check_seen_observe _ (role p)); [apply Hg|apply Hp|apply Hh|]. by apply sendable_seen.
  - split_and!; try done.
    + rewrite <-Hk in Hh. by apply header_with_key in Hh.
    + rewrite <-Hk in Hx at 2. cbn [with_key ev_expected] in Hx.
      eapply lane_expects_new; [done|]. apply Hsnd.
Qed.

Lemma after_send_ok p e id :
  party_ok p → sendable p e → guard_ok (trial_send (p_guard p) e id (next_of e)) →
  party_ok (after_send p e id).
Proof.
  intros Hp Hr Hv. pose proof (party_guard _ Hp) as Hg.
  pose proof (hdr_role _ _ _ (proj1 (snd_admits _ _ Hr))) as Hrole.
  split; cbn [after_send p_guard p_seen trial_send g_role g_own g_peer].
  - done.
  - apply seen_lane_record; [apply Hp|done|]. by apply sendable_seen.
  - apply seen_lane_other; [|apply Hp]. rewrite Hrole. apply role_ne_other, (ok_role _ Hg).
Qed.

(** * The dialog *)

Record Dialog := {
  d_first : Party;
  d_second : Party;
  (** Sent by the first party, sent by the second, oldest first. *)
  d_from_first : list (EventMeta * Id);
  d_from_second : list (EventMeta * Id)
}.

Definition swap (d : Dialog) : Dialog := {|
  d_first := d_second d; d_second := d_first d;
  d_from_first := d_from_second d; d_from_second := d_from_first d
|}.

(** The first party sends, or receives the oldest event in flight to it. *)
Inductive party_step (d : Dialog) : Dialog → Prop :=
| party_sends planned e id root native p :
    send_event (d_first d) planned e id root native = Ok p →
    party_step d {| d_first := p; d_second := d_second d;
                    d_from_first := d_from_first d ++ [(e, id)];
                    d_from_second := d_from_second d |}
| party_receives e id q root native p :
    d_from_second d = (e, id) :: q →
    receive_event (d_first d) e id root native = Ok p →
    party_step d {| d_first := p; d_second := d_second d;
                    d_from_first := d_from_first d; d_from_second := q |}.

Inductive dialog_step (d d' : Dialog) : Prop :=
| step_first : party_step d d' → dialog_step d d'
| step_second : party_step (swap d) (swap d') → dialog_step d d'.

(** Dialogs that began with two new parties of roles 0 and 1. *)
Inductive dialog_reachable : Dialog → Prop :=
| reachable_new p0 p1 :
    party_new x00 = Ok p0 → party_new x01 = Ok p1 →
    dialog_reachable {| d_first := p0; d_second := p1; d_from_first := []; d_from_second := [] |}
| reachable_step d d' : dialog_reachable d → dialog_step d d' → dialog_reachable d'.

(** * Events in flight *)

(** [e] continues the generation of [l]. *)
Definition continues (r : byte) (l : Lane) (e : EventMeta) : Prop :=
  lane_next l ≠ u64_0 ∧ is_new l e = false ∧ admits r l None e.

Definition record_next (l : Lane) (e : EventMeta) (id : Id) : Lane := lane_record l e id (next_of e).

(** The events [q], recorded one after the other, continue [l] up to [l']. *)
Inductive flow (r : byte) : list (EventMeta * Id) → Lane → Lane → Prop :=
| flow_nil l : flow r [] l l
| flow_cons e id q l l' :
    continues r l e → flow r q (record_next l e id) l' → flow r ((e, id) :: q) l l'.

Lemma flow_snoc r q l l' e id :
  flow r q l l' → continues r l' e → flow r (q ++ [(e, id)]) l (record_next l' e id).
Proof.
  induction 1 as [l|e' id' q l l' Hc Hf IH]; intros He; cbn [app].
  - econstructor; [done|]. constructor.
  - econstructor; eauto.
Qed.

Lemma continues_first r l e id : continues r l e → lane_first (record_next l e id) = lane_first l.
Proof. intros (_ & Hn & _). unfold record_next. by rewrite record_first, Hn. Qed.

Lemma flow_first r q l l' : flow r q l l' → lane_first l' = lane_first l.
Proof.
  induction 1 as [l|e id q l l' Hc Hf IH]; [done|]. by rewrite IH, (continues_first r).
Qed.

Lemma continues_key r l e id : continues r l e → lane_key (record_next l e id) = lane_key l.
Proof. intros (_ & Hn%is_new_false & _). by cbn. Qed.

Lemma flow_key r q l l' : flow r q l l' → lane_key l' = lane_key l.
Proof.
  induction 1 as [l|e id q l l' Hc Hf IH]; [done|]. by rewrite IH, (continues_key r).
Qed.

Lemma flow_empty r q l l' : flow r q l l' → lane_next l = u64_0 → q = [] ∧ l' = l.
Proof. by intros [|???? ? [? _]]. Qed.

Lemma flow_nonempty r q l l' : flow r q l l' → lane_next l ≠ u64_0 → lane_next l' ≠ u64_0.
Proof.
  induction 1 as [l|e id q l l' (Hn & Hk & Hh & Hx) Hf IH]; [done|]. intros _. apply IH.
  cbn. intros E. assert (Hv := next_of_val _ _ _ Hh). rewrite E, u64_0_val in Hv. lia.
Qed.

(** Whether an event continues a lane does not depend on the other lane. *)
Lemma continues_admits r l e cause : continues r l e → admits r l cause e.
Proof.
  intros (Hn & Hnew & Hh & Hx). split; [done|]. rewrite Hnew in *.
  inversion Hx as [|j k|]; subst; try done. by apply (expects_continue _ _ _ _ j k).
Qed.

Lemma admits_continues r l cause e :
  lane_ok r l → admits r l cause e → is_new l e = false → continues r l e.
Proof.
  intros Hl [Hh Hx] Hnew. assert (Hn : lane_next l ≠ u64_0).
  { intros E0. by rewrite (empty_is_new _ _ _ Hl E0) in Hnew. }
  split_and!; [done..|]. split; [done|]. rewrite Hnew in *.
  inversion Hx as [|j k|]; subst; try done. by apply (expects_continue _ _ _ _ j k).
Qed.

(** * The invariant of a dialog *)

(** The receiver of role [r]'s events knows no key its sender does not know. *)
Definition seen_included (r : byte) (receiver sender : Party) : Prop :=
  ∀ k, is_Some (p_seen receiver !! (r, k)) → is_Some (p_seen sender !! (r, k)).

Record dialog_ok (d : Dialog) : Prop := {
  dlg_first : party_ok (d_first d);
  dlg_second : party_ok (d_second d);
  dlg_roles : role (d_second d) = other_role (role (d_first d));
  dlg_seen_first : seen_included (role (d_first d)) (d_second d) (d_first d);
  dlg_seen_second : seen_included (role (d_second d)) (d_first d) (d_second d)
}.

(** What is on its way from the leader of a dialog, the party that opened the
    newest generation, to the other: the first event of that generation among
    continuations, or continuations only, when the other has received it. *)
Inductive leading (leader follower : Party) (q : list (EventMeta * Id)) : Prop :=
| leading_in_flight q1 e id q2 l :
    q = q1 ++ (e, id) :: q2 → due follower = false →
    flow (role leader) q1 (peer follower) l →
    is_new l e = true → admits (role leader) l (lane_first (own follower)) e →
    p_seen follower !! (role leader, ev_key e) = None →
    flow (role leader) q2 (record_next l e id) (own leader) →
    leading leader follower q
| leading_received :
    due follower = true → flow (role leader) q (peer follower) (own leader) →
    leading leader follower q.

(** The first party leads: it is not due, and the events on their way to it
    continue the lane it knows. *)
Record led (d : Dialog) : Prop := {
  led_live : lane_next (own (d_first d)) ≠ u64_0;
  led_not_due : due (d_first d) = false;
  led_incoming : flow (role (d_second d)) (d_from_second d) (peer (d_first d)) (own (d_second d));
  led_outgoing : leading (d_first d) (d_second d) (d_from_first d)
}.

Inductive phase (d : Dialog) : Prop :=
| phase_idle :
    d_from_first d = [] → d_from_second d = [] →
    own (d_first d) = lane_default → peer (d_first d) = lane_default →
    own (d_second d) = lane_default → peer (d_second d) = lane_default →
    phase d
| phase_first : led d → phase d
| phase_second : led (swap d) → phase d.

Definition dialog_inv (d : Dialog) : Prop := dialog_ok d ∧ phase d.

Lemma dialog_ok_swap d : dialog_ok d → dialog_ok (swap d).
Proof.
  intros [H1 H2 Hr H3 H4]. split; cbn [swap d_first d_second]; try done.
  rewrite Hr. symmetry. apply other_role_involutive, (ok_role _ (party_guard _ H1)).
Qed.

Lemma swap_swap d : swap (swap d) = d.
Proof. by destruct d. Qed.

(** ** Steps keep the parties well-formed *)

Lemma seen_included_sender r receiver sender e id g :
  seen_included r receiver sender →
  seen_included r receiver {| p_guard := g; p_seen := seen_or_insert (p_seen sender) e id |}.
Proof. intros H k Hk. cbn. apply seen_insert_is_Some. left. auto. Qed.

Lemma seen_included_receiver r receiver sender e id g :
  (ev_role e = r → is_Some (p_seen sender !! (r, ev_key e))) → seen_included r receiver sender →
  seen_included r {| p_guard := g; p_seen := seen_or_insert (p_seen receiver) e id |} sender.
Proof.
  intros He H k Hk. cbn in Hk. apply seen_insert_is_Some in Hk as [Hk|[= -> ->]]; auto.
Qed.

Lemma ok_after_send d planned e id root native p :
  dialog_ok d → send_event (d_first d) planned e id root native = Ok p →
  sendable (d_first d) e ∧ p = after_send (d_first d) e id ∧
  dialog_ok {| d_first := p; d_second := d_second d;
               d_from_first := d_from_first d ++ [(e, id)];
               d_from_second := d_from_second d |}.
Proof.
  intros [H1 H2 Hr H3 H4] H.
  destruct (send_event_inv _ _ _ _ _ _ _ H1 H) as (_ & _ & Hs & Hv & ->).
  split_and!; [done..|]. split; cbn [d_first d_second]; try done.
  - by apply after_send_ok.
  - by apply seen_included_sender.
  - apply seen_included_receiver; [|done]. intros He.
    rewrite (hdr_role _ _ _ (proj1 (snd_admits _ _ Hs))), Hr in He.
    by destruct (role_ne_other _ (ok_role _ (party_guard _ H1))).
Qed.

(** A party that receives an event its sender has indexed. *)
Lemma ok_after_receive d e id q :
  dialog_ok d → receivable (d_first d) e →
  is_Some (p_seen (d_second d) !! (role (d_second d), ev_key e)) →
  dialog_ok {| d_first := after_receive (d_first d) e id; d_second := d_second d;
               d_from_first := d_from_first d; d_from_second := q |}.
Proof.
  intros [H1 H2 Hr H3 H4] Hrcv Hs. split; cbn [d_first d_second]; try done.
  - by apply after_receive_ok.
  - by apply seen_included_sender.
  - by apply seen_included_receiver.
Qed.

(** ** Receiving from the flow *)

Lemma continues_receivable p e :
  continues (other_role (role p)) (peer p) e → receivable p e.
Proof.
  intros Hc. pose proof Hc as (_ & Hn & _). split.
  - by apply continues_admits.
  - congruence.
  - congruence.
Qed.

(** A continuation is received under the key of the lane it continues. *)
Lemma continues_indexed d e :
  dialog_ok d → continues (role (d_second d)) (peer (d_first d)) e →
  is_Some (p_seen (d_second d) !! (role (d_second d), ev_key e)).
Proof.
  intros Hd (_ & Hk%is_new_false & _). apply (dlg_seen_second _ Hd).
  rewrite (dlg_roles _ Hd). destruct (party_peer _ (dlg_first _ Hd) _ Hk) as (s & Hs & _). by eexists.
Qed.

(** What a received continuation changes. *)
Lemma after_continue p e id :
  continues (other_role (role p)) (peer p) e →
  role (after_receive p e id) = role p ∧ own (after_receive p e id) = own p ∧
  peer (after_receive p e id) = record_next (peer p) e id ∧
  due (after_receive p e id) = due p.
Proof.
  intros (_ & Hn & _). cbn. fold (is_new (peer p) e). by rewrite Hn.
Qed.

(** What a received new generation changes. *)
Lemma after_new p e id :
  is_new (peer p) e = true →
  role (after_receive p e id) = role p ∧ own (after_receive p e id) = own p ∧
  peer (after_receive p e id) = record_next (peer p) e id ∧
  due (after_receive p e id) = true.
Proof. intros Hn. cbn. fold (is_new (peer p) e). by rewrite Hn. Qed.

Lemma record_next_live r l e id :
  header_ok r l e → lane_next (record_next l e id) ≠ u64_0.
Proof.
  intros Hh E. pose proof (next_of_val _ _ _ Hh) as Hv.
  unfold record_next in E. cbn [lane_record lane_next] in E. rewrite E, u64_0_val in Hv. lia.
Qed.

(** ** The next event in flight *)

(** The oldest event on its way to the first party of a dialog continues the
    lane it knows, or is the new generation of a leader. *)
Inductive incoming (d : Dialog) (e : EventMeta) (id : Id) (q : list (EventMeta * Id)) : Prop :=
| incoming_continue : continues (role (d_second d)) (peer (d_first d)) e → incoming d e id q
| incoming_new :
    led (swap d) → due (d_first d) = false → is_new (peer (d_first d)) e = true →
    admits (role (d_second d)) (peer (d_first d)) (lane_first (own (d_first d))) e →
    p_seen (d_first d) !! (role (d_second d), ev_key e) = None →
    flow (role (d_second d)) q (record_next (peer (d_first d)) e id) (own (d_second d)) →
    incoming d e id q.

Lemma incoming_event d e id q :
  phase d → d_from_second d = (e, id) :: q → incoming d e id q.
Proof.
  intros [_ Eq _ _ _ _|Hl|Hl] E; [congruence| |].
  - pose proof (led_incoming _ Hl) as Hf. rewrite E in Hf. inversion Hf; subst. by constructor.
  - pose proof (led_outgoing _ Hl) as Ho. cbn [swap d_first d_second d_from_first] in Ho.
    destruct Ho as [q1 e1 id1 q2 l Eq Hd Hf Hn Ha Hs Hf2|Hd Hf].
    + rewrite E in Eq. destruct q1 as [|[e0 id0] q1]; cbn [app] in Eq.
      * injection Eq as -> -> ->. inversion Hf; subst. by apply incoming_new.
      * injection Eq as -> -> ->. inversion Hf; subst. by constructor.
    + rewrite E in Hf. inversion Hf; subst. by constructor.
Qed.

Lemma incoming_receivable d e id q :
  dialog_ok d → incoming d e id q →
  receivable (d_first d) e ∧ is_Some (p_seen (d_second d) !! (role (d_second d), ev_key e)).
Proof.
  intros Hd [Hc|_ Hdue Hn Ha Hs Hf].
  - split; [|by apply continues_indexed]. apply continues_receivable.
    by rewrite <-(dlg_roles _ Hd).
  - split.
    + split; rewrite <-?(dlg_roles _ Hd); done.
    + destruct (party_own _ (dlg_second _ Hd) (ev_key e)) as (s & -> & _); [|done].
      by rewrite (flow_key _ _ _ _ Hf).
Qed.

(** ** Steps keep the phase *)

Lemma led_receive d e id q :
  dialog_ok d → d_from_second d = (e, id) :: q → led d →
  led {| d_first := after_receive (d_first d) e id; d_second := d_second d;
         d_from_first := d_from_first d; d_from_second := q |}.
Proof.
  intros Hd E [Hlive Hdue Hin Hout]. rewrite E in Hin. inversion Hin as [|? ? ? ? ? Hc Hf]; subst.
  rewrite (dlg_roles _ Hd) in Hc.
  destruct (after_continue _ _ id Hc) as (Hr & Ho & Hp & Hdu).
  split; cbn [d_first d_second d_from_first d_from_second].
  - by rewrite Ho.
  - by rewrite Hdu.
  - by rewrite Hp.
  - destruct Hout as [q1 e1 id1 q2 l Eq Hd' Hf' Hn Ha Hs Hf2|Hd' Hf'].
    + eapply leading_in_flight; rewrite ?Hr, ?Ho; eauto.
    + apply leading_received; by rewrite ?Hr, ?Ho.
Qed.

Lemma following_receive d e id q :
  dialog_ok d → d_from_second d = (e, id) :: q → led (swap d) →
  led (swap {| d_first := after_receive (d_first d) e id; d_second := d_second d;
               d_from_first := d_from_first d; d_from_second := q |}).
Proof.
  intros Hd E [Hlive Hdue Hin Hout].
  cbn [swap d_first d_second d_from_first d_from_second] in *.
  assert (Hcases : leading (d_second d) (after_receive (d_first d) e id) q).
  { destruct Hout as [q1 e1 id1 q2 l Eq Hd' Hf' Hn Ha Hs Hf2|Hd' Hf'].
    - rewrite E in Eq. destruct q1 as [|[e0 id0] q1]; cbn [app] in Eq; injection Eq as -> -> ->.
      + inversion Hf'; subst. destruct (after_new _ _ id1 Hn) as (Hr & Ho & Hp & Hdu).
        apply leading_received; by rewrite ?Hp.
      + inversion Hf' as [|? ? ? ? ? Hc Hf1]; subst. rewrite (dlg_roles _ Hd) in Hc.
        destruct (after_continue _ _ id0 Hc) as (Hr & Ho & Hp & Hdu).
        eapply leading_in_flight; rewrite ?Ho, ?Hp, ?Hdu; eauto.
        cbn [after_receive p_seen]. rewrite seen_insert_lookup; [done|].
        intros [= _ Hk]. destruct Hc as (_ & Hk'%is_new_false & _).
        apply is_new_true in Hn. rewrite (flow_key _ _ _ _ Hf') in Hn. congruence.
    - rewrite E in Hf'. inversion Hf' as [|? ? ? ? ? Hc Hf1]; subst. rewrite (dlg_roles _ Hd) in Hc.
      destruct (after_continue _ _ id Hc) as (Hr & Ho & Hp & Hdu).
      apply leading_received; by rewrite ?Hp, ?Hdu. }
  split; cbn [swap d_first d_second d_from_first d_from_second]; try done.
Qed.

(** A leader that sends continues its generation. *)
Lemma led_send d e id :
  dialog_ok d → led d → sendable (d_first d) e →
  led {| d_first := after_send (d_first d) e id; d_second := d_second d;
         d_from_first := d_from_first d ++ [(e, id)]; d_from_second := d_from_second d |}.
Proof.
  intros Hd [Hlive Hdue Hin Hout] Hs.
  assert (Hc : continues (role (d_first d)) (own (d_first d)) e).
  { eapply admits_continues; [apply (ok_own _ (party_guard _ (dlg_first _ Hd)))|apply Hs|].
    by rewrite (snd_due _ _ Hs). }
  split; cbn [d_first d_second d_from_first d_from_second].
  - eapply record_next_live. apply (snd_admits _ _ Hs).
  - done.
  - done.
  - destruct Hout as [q1 e1 id1 q2 l Eq Hd' Hf' Hn Ha Hs' Hf2|Hd' Hf'].
    + eapply (leading_in_flight _ _ _ q1 e1 id1 (q2 ++ [(e, id)])); eauto.
      * by rewrite Eq, <-app_assoc.
      * by apply flow_snoc.
    + apply leading_received; [done|]. by apply flow_snoc.
Qed.

(** A party that follows and is not due has sent before. *)
Lemma follower_live d e :
  dialog_ok d → led (swap d) → due (d_first d) = false → sendable (d_first d) e →
  lane_next (own (d_first d)) ≠ u64_0.
Proof.
  intros Hd Hl Hdue Hs E0. pose proof (party_guard _ (dlg_first _ Hd)) as Hg.
  destruct (snd_admits _ _ Hs) as [_ Hx]. inversion Hx as [_ Hc| |]; subst; try done.
  destruct (ok_role _ Hg) as [Er|Er].
  - pose proof (led_incoming _ Hl) as Hf. cbn [swap d_first d_second d_from_second] in Hf.
    pose proof (flow_nonempty _ _ _ _ Hf) as Hne.
    destruct (decide (lane_next (peer (d_second d)) = u64_0)) as [Ep|Ep]; [|tauto].
    destruct (ok_outbound _ (party_guard _ (dlg_second _ Hd)) Ep (led_live _ Hl)) as [Er2 _].
    rewrite (dlg_roles _ Hd), Er in Er2. done.
  - destruct (first_due _ Hg (Hc Er) E0) as (_ & _ & Hd'). congruence.
Qed.

(** A follower that is due and sends takes the lead; otherwise it continues. *)
Lemma following_send d e id :
  let d' := {| d_first := after_send (d_first d) e id; d_second := d_second d;
               d_from_first := d_from_first d ++ [(e, id)]; d_from_second := d_from_second d |} in
  dialog_ok d → led (swap d) → sendable (d_first d) e → led d' ∨ led (swap d').
Proof.
  intros d' Hd Hl Hs. pose proof (party_guard _ (dlg_first _ Hd)) as Hg.
  pose proof (follower_live d e Hd Hl) as Hlive.
  destruct Hl as [Hlive2 Hdue2 Hin Hout]. cbn [swap d_first d_second d_from_first d_from_second] in *.
  destruct Hout as [q1 e1 id1 q2 l Eq Hd' Hf' Hn Ha Hs' Hf2|Hd' Hf'].
  - right. specialize (Hlive Hd' Hs).
    assert (Hc : continues (role (d_first d)) (own (d_first d)) e).
    { eapply admits_continues; [apply (ok_own _ Hg)|apply Hs|]. by rewrite (snd_due _ _ Hs). }
    split; cbn [swap d' d_first d_second d_from_first d_from_second]; try done.
    + by apply flow_snoc.
    + eapply (leading_in_flight _ _ _ q1 e1 id1 q2); eauto.
      * rewrite (continues_first _ _ _ id Hc : lane_first (own (after_send (d_first d) e id)) = _). done.
      * cbn [after_send p_seen]. rewrite seen_insert_lookup; [done|]. intros [= Hr _].
        rewrite (hdr_role _ _ _ (proj1 (snd_admits _ _ Hs))), (dlg_roles _ Hd) in Hr.
        by apply (role_ne_other _ (ok_role _ Hg)).
  - left. assert (Hn : is_new (own (d_first d)) e = true).
    { destruct (decide (lane_next (own (d_first d)) = u64_0)) as [E0|E0].
      - by apply (empty_is_new _ _ _ (ok_own _ Hg)).
      - by rewrite (snd_due _ _ Hs E0). }
    split; cbn [d' d_first d_second d_from_first d_from_second]; try done.
    + eapply record_next_live. apply (snd_admits _ _ Hs).
    + eapply (leading_in_flight _ _ _ (d_from_first d) e id []); eauto.
      * rewrite (flow_first _ _ _ _ Hf'). apply Hs.
      * destruct (p_seen (d_second d) !! (role (d_first d), ev_key e)) as [s|] eqn:Es; [|done].
        destruct (dlg_seen_first _ Hd (ev_key e)) as [s' Hs']; [by rewrite Es|].
        by rewrite (snd_fresh _ _ Hs Hn) in Hs'.
      * constructor.
Qed.

(** The first event of a dialog. *)
Lemma idle_send d e id :
  dialog_ok d → d_from_first d = [] → d_from_second d = [] →
  own (d_first d) = lane_default → peer (d_first d) = lane_default →
  own (d_second d) = lane_default → peer (d_second d) = lane_default →
  sendable (d_first d) e →
  led {| d_first := after_send (d_first d) e id; d_second := d_second d;
         d_from_first := d_from_first d ++ [(e, id)]; d_from_second := d_from_second d |}.
Proof.
  intros Hd E1 E2 H1 H2 H3 H4 Hs. pose proof (party_guard _ (dlg_first _ Hd)) as Hg.
  pose proof (party_guard _ (dlg_second _ Hd)) as Hg2.
  destruct (snd_admits _ _ Hs) as [Hh Hx].
  assert (Hn : is_new (own (d_first d)) e = true) by (by rewrite H1).
  assert (Er : role (d_first d) = x00).
  { destruct (ok_role _ Hg) as [Er|Er]; [done|]. rewrite H1, H2 in Hx.
    inversion Hx as [_ Hc| |]; subst; try done. by destruct (Hc Er). }
  split; cbn [d_first d_second d_from_first d_from_second].
  - by eapply record_next_live.
  - done.
  - rewrite E2, H3. cbn [after_send p_guard trial_send g_peer]. rewrite H2. constructor.
  - eapply (leading_in_flight _ _ _ [] e id [] (own (d_first d))); rewrite ?E1; try done.
    + apply (peer_empty_not_due _ Hg2). by rewrite H4.
    + rewrite H4, H1. constructor.
    + split; [done|]. cbn [after_send p_guard trial_send g_role]. rewrite Hn, Er in *.
      inversion Hx as [E0 Hc| |? ? ? E0]; subst; [|done|by rewrite H1 in E0]. by constructor.
    + cbn [after_send p_guard trial_send g_role].
      destruct (p_seen (d_second d) !! (role (d_first d), ev_key e)) as [s|] eqn:Es; [|done].
      destruct (dlg_seen_first _ Hd (ev_key e)) as [s' Hs']; [by rewrite Es|].
      by rewrite (snd_fresh _ _ Hs Hn) in Hs'.
    + constructor.
Qed.

Lemma party_step_inv d d' : party_step d d' → dialog_inv d → dialog_inv d'.
Proof.
  intros [planned e id root native p H|e id q root native p E H] [Hd Hph].
  - destruct (ok_after_send _ _ _ _ _ _ _ Hd H) as (Hs & -> & Hd'). split; [done|].
    destruct Hph as [E1 E2 H1 H2 H3 H4|Hl|Hl].
    + apply phase_first. by apply idle_send.
    + apply phase_first. by apply led_send.
    + destruct (following_send _ _ id Hd Hl Hs); [by apply phase_first|by apply phase_second].
  - destruct (incoming_receivable _ _ _ _ Hd (incoming_event _ _ _ _ Hph E)) as [Hr Hi].
    apply receive_event_ok in H as (_ & _ & ->); [|apply Hd].
    split; [by apply ok_after_receive|]. destruct Hph as [_ E2 _ _ _ _|Hl|Hl]; [congruence| |].
    + apply phase_first. by apply led_receive.
    + apply phase_second. by apply following_receive.
Qed.

Lemma dialog_inv_swap d : dialog_inv d → dialog_inv (swap d).
Proof.
  intros [Hd Hph]. split; [by apply dialog_ok_swap|].
  destruct Hph as [E1 E2 H1 H2 H3 H4|Hl|Hl].
  - by apply phase_idle.
  - apply phase_second. by rewrite swap_swap.
  - by apply phase_first.
Qed.

Lemma dialog_step_inv d d' : dialog_step d d' → dialog_inv d → dialog_inv d'.
Proof.
  intros [H|H] Hi; [by eapply party_step_inv|].
  rewrite <-(swap_swap d'). apply dialog_inv_swap. eapply party_step_inv; [done|].
  by apply dialog_inv_swap.
Qed.

Lemma party_new_ok r p :
  party_new r = Ok p → party_ok p ∧ role p = r ∧ own p = lane_default ∧ peer p = lane_default ∧
  p_seen p = ∅.
Proof.
  unfold party_new, guard_new. intros H. apply rbind_ok in H as (g & H & Hp).
  apply rbind_unit_ok in H as [Hr%fail_if_ok Hg]. apply Ok_inj in Hp, Hg. subst.
  split; [|done]. apply N.ltb_ge, role_ok_le in Hr. split; [|by intros ? ?..].
  apply guard_validate_ok. by destruct Hr as [->| ->].
Qed.

Lemma reachable_inv d : dialog_reachable d → dialog_inv d.
Proof.
  induction 1 as [p0 p1 H0 H1|d d' _ IH Hs]; [|by eapply dialog_step_inv].
  destruct (party_new_ok _ _ H0) as (Hp0 & R0 & O0 & P0 & S0).
  destruct (party_new_ok _ _ H1) as (Hp1 & R1 & O1 & P1 & S1).
  split; [|by apply phase_idle]. split; cbn [d_first d_second]; try done.
  - by rewrite R0, R1.
  - intros k. rewrite S1, lookup_empty. by intros [].
  - intros k. rewrite S0, lookup_empty. by intros [].
Qed.

(** * Delivery *)

(** The lane of the receiver followed by what is in flight. *)
Definition replay (l : Lane) (q : list (EventMeta * Id)) : Lane :=
  fold_left (fun l '(e, id) => record_next l e id) q l.

Lemma flow_replay r q l l' : flow r q l l' → replay l q = l'.
Proof. induction 1; [done|]. by cbn. Qed.

Lemma replay_app l q1 q2 : replay l (q1 ++ q2) = replay (replay l q1) q2.
Proof. apply fold_left_app. Qed.

Lemma leading_replay leader follower q :
  leading leader follower q → replay (peer follower) q = own leader.
Proof.
  intros [q1 e id q2 l -> _ H1 _ _ _ H2|_ H].
  - rewrite replay_app, (flow_replay _ _ _ _ H1). cbn. by apply (flow_replay (role leader)).
  - by eapply flow_replay.
Qed.

Lemma led_replay d :
  led d → replay (peer (d_second d)) (d_from_first d) = own (d_first d) ∧
          replay (peer (d_first d)) (d_from_second d) = own (d_second d).
Proof.
  intros Hl. split; [apply leading_replay, Hl|]. eapply flow_replay, (led_incoming _ Hl).
Qed.

Lemma inv_replay d :
  dialog_inv d → replay (peer (d_second d)) (d_from_first d) = own (d_first d) ∧
                 replay (peer (d_first d)) (d_from_second d) = own (d_second d).
Proof.
  intros [_ [E1 E2 H1 H2 H3 H4|Hl|Hl]].
  - by rewrite E1, E2, H1, H2, H3, H4.
  - by apply led_replay.
  - by destruct (led_replay _ Hl).
Qed.

Lemma inv_receives d e id q root native :
  dialog_inv d → d_from_second d = (e, id) :: q → generations_left root native →
  receive_event (d_first d) e id root native = Ok (after_receive (d_first d) e id).
Proof.
  intros [Hd Hph] E Hgen.
  destruct (incoming_receivable _ _ _ _ Hd (incoming_event _ _ _ _ Hph E)) as [Hr _].
  apply receive_event_ok; [apply Hd|]. done.
Qed.

(** * Properties of dialogs *)

(** C4: In every reachable dialog, whatever the two devices have sent and
    received and in whichever order, the oldest event in flight to a device is
    accepted by it, unless its store has used up its [u64] generations: no
    honest event is ever refused. *)
Theorem dialog_delivers d e id q root native :
  dialog_reachable d → generations_left root native →
  (d_from_second d = (e, id) :: q →
   receive_event (d_first d) e id root native = Ok (after_receive (d_first d) e id)) ∧
  (d_from_first d = (e, id) :: q →
   receive_event (d_second d) e id root native = Ok (after_receive (d_second d) e id)).
Proof.
  intros Hr%reachable_inv Hgen. split; intros E.
  - by eapply inv_receives.
  - by eapply (inv_receives (swap d)); [apply dialog_inv_swap| |].
Qed.

(** The dialog after it has delivered everything in flight to one party. *)
Lemma drain_first d root native :
  dialog_inv d → generations_left root native →
  ∃ d', rtc dialog_step d d' ∧ dialog_inv d' ∧ d_from_second d' = [] ∧
    d_from_first d' = d_from_first d ∧ d_second d' = d_second d ∧
    own (d_first d') = own (d_first d).
Proof.
  intros Hi Hgen. remember (d_from_second d) as q eqn:E. revert d Hi E.
  induction q as [|[e id] q IH]; intros d Hi E.
  { exists d. by split_and!. }
  assert (Hs : dialog_step d {| d_first := after_receive (d_first d) e id; d_second := d_second d;
    d_from_first := d_from_first d; d_from_second := q |}).
  { apply step_first. eapply party_receives; [done|]. by eapply inv_receives. }
  destruct (IH _ (dialog_step_inv _ _ Hs Hi) eq_refl) as (d' & Hr & Hi' & H1 & H2 & H3 & H4).
  exists d'. split_and!; try done. by eapply rtc_l.
Qed.

Lemma rtc_dialog_swap d d' : rtc dialog_step d d' → rtc dialog_step (swap d) (swap d').
Proof.
  induction 1 as [d|d1 d2 d3 H _ IH]; [done|]. eapply rtc_l; [|done].
  destruct H as [H|H]; [apply step_second; by rewrite !swap_swap|by apply step_first].
Qed.

(** From every reachable dialog the devices can deliver everything that is
    in flight by receiving alone, and then each knows the lane of the other
    exactly: what was sent is what is known, on both sides. *)
Theorem dialog_drains d :
  dialog_reachable d →
  ∃ d', rtc dialog_step d d' ∧ d_from_first d' = [] ∧ d_from_second d' = [] ∧
    own (d_first d') = own (d_first d) ∧ own (d_second d') = own (d_second d) ∧
    peer (d_first d') = own (d_second d) ∧ peer (d_second d') = own (d_first d).
Proof.
  intros Hr%reachable_inv.
  assert (Hgen : generations_left u64_0 u64_0) by (by split).
  destruct (drain_first d _ _ Hr Hgen) as (d1 & Hr1 & Hi1 & Hq1 & Hf1 & Hs1 & Ho1).
  destruct (drain_first (swap d1) _ _ (dialog_inv_swap _ Hi1) Hgen)
    as (d2 & Hr2 & Hi2 & Hq2 & Hf2 & Hs2 & Ho2).
  apply rtc_dialog_swap in Hr2. rewrite swap_swap in Hr2. apply dialog_inv_swap in Hi2.
  exists (swap d2). cbn [swap d_first d_second d_from_first d_from_second] in *.
  pose proof (inv_replay _ Hi2) as [Ha Hb].
  cbn [swap d_first d_second d_from_first d_from_second] in Ha, Hb.
  rewrite Hq2 in Ha. rewrite Hf2, Hq1 in Hb. cbn in Ha, Hb.
  split_and!; try congruence. by etrans.
Qed.

(** C26: In every reachable dialog both guards are well-formed checkpoints, at
    most one device is due to open a generation, and the lane each device knows
    of the other, followed by the events in flight, is the other's own lane. *)
Theorem dialog_invariant d :
  dialog_reachable d →
  guard_validate (p_guard (d_first d)) = Ok tt ∧ guard_validate (p_guard (d_second d)) = Ok tt ∧
  (due (d_first d) && due (d_second d) = false) ∧
  replay (peer (d_second d)) (d_from_first d) = own (d_first d) ∧
  replay (peer (d_first d)) (d_from_second d) = own (d_second d).
Proof.
  intros Hr%reachable_inv. pose proof Hr as [Hd Hph].
  split_and!; [apply guard_validate_ok, Hd..| |apply inv_replay, Hr|apply inv_replay, Hr].
  destruct Hph as [E1 E2 H1 H2 H3 H4|Hl|Hl].
  - rewrite (peer_empty_not_due _ (party_guard _ (dlg_first _ Hd))); [done|]. by rewrite H2.
  - by rewrite (led_not_due _ Hl).
  - rewrite (led_not_due _ Hl : due (d_second d) = false). apply andb_false_r.
Qed.

(** * Runs of one party *)

(** [t] is what a party of role [r] has sent and received, in order. *)
Inductive party_run (r : byte) : list (EventMeta * Id) → Party → Prop :=
| run_new p : party_new r = Ok p → party_run r [] p
| run_send t p planned e id root native p' :
    party_run r t p → send_event p planned e id root native = Ok p' →
    party_run r (t ++ [(e, id)]) p'
| run_receive t p e id root native p' :
    party_run r t p → receive_event p e id root native = Ok p' →
    party_run r (t ++ [(e, id)]) p'.

Lemma run_party_ok r t p : party_run r t p → party_ok p ∧ role p = r.
Proof.
  induction 1 as [p H|t p planned e id root native p' _ [Hp Hr] H|t p e id root native p' _ [Hp Hr] H].
  - destruct (party_new_ok _ _ H) as (? & ? & _). done.
  - destruct (send_event_inv _ _ _ _ _ _ _ Hp H) as (_ & _ & Hs & Hv & ->).
    split; [by apply after_send_ok|done].
  - apply receive_event_ok in H as (_ & Hrcv & ->); [|done].
    split; [by apply after_receive_ok|done].
Qed.

Lemma run_role_ok r t p : party_run r t p → role_ok r.
Proof. intros [Hp <-]%run_party_ok. apply (ok_role _ (party_guard _ Hp)). Qed.

(** The ordinals of a run: the events of each lane are numbered from zero. *)
Definition lane_events (r : byte) (t : list (EventMeta * Id)) : list (EventMeta * Id) :=
  filter (fun m => ev_role m.1 = r) t.

Abbreviation ordinals t := (map (fun m : EventMeta * Id => uint_val (ev_n m.1)) t).
Abbreviation first_ordinals n := (map N.of_nat (seq 0 (N.to_nat n))).

Lemma lane_events_snoc r t e id l :
  header_ok r l e → ordinals (lane_events r t) = first_ordinals (lane_next l) →
  ordinals (lane_events r (t ++ [(e, id)])) = first_ordinals (next_of e).
Proof.
  intros Hh IH. unfold lane_events. rewrite filter_app, map_app.
  fold (lane_events r t). rewrite IH, (next_of_val _ _ _ Hh).
  rewrite filter_cons_True by apply Hh. cbn [filter list_filter map fst].
  replace (N.to_nat (ev_n e + 1)) with (S (N.to_nat (ev_n e))) by lia.
  rewrite (hdr_n _ _ _ Hh), seq_S, map_app. cbn [map]. by rewrite Nat.add_0_l, N2Nat.id.
Qed.

Lemma lane_events_other r t e id :
  ev_role e ≠ r → lane_events r (t ++ [(e, id)]) = lane_events r t.
Proof.
  intros Hr. unfold lane_events. rewrite filter_app, filter_cons_False by done.
  cbn. by rewrite app_nil_r.
Qed.

Lemma run_ordinals r t p :
  party_run r t p →
  ordinals (lane_events r t) = first_ordinals (lane_next (own p)) ∧
  ordinals (lane_events (other_role r) t) = first_ordinals (lane_next (peer p)) ∧
  length t = N.to_nat (lane_next (own p)) + N.to_nat (lane_next (peer p)).
Proof.
  intros Hrun. pose proof (role_ne_other _ (run_role_ok _ _ _ Hrun)) as Hne.
  induction Hrun as [p H|t p planned e id root native p' Hrun IH H|t p e id root native p' Hrun IH H].
  - destruct (party_new_ok _ _ H) as (_ & _ & -> & -> & _). done.
  - destruct (run_party_ok _ _ _ Hrun) as [Hp Hr].
    destruct (send_event_inv _ _ _ _ _ _ _ Hp H) as (_ & _ & Hs & _ & ->).
    destruct (snd_admits _ _ Hs) as [Hh _]. pose proof (hdr_role _ _ _ Hh) as Her.
    rewrite Hr in *. destruct IH as (IH1 & IH2 & IH3).
    cbn [after_send p_guard trial_send g_own g_peer lane_record lane_next].
    rewrite (lane_events_other (other_role r)) by congruence. split_and!; [by eapply lane_events_snoc|done|].
    rewrite length_app, IH3, (next_of_val _ _ _ Hh), (hdr_n _ _ _ Hh). cbn. lia.
  - destruct (run_party_ok _ _ _ Hrun) as [Hp Hr].
    apply receive_event_ok in H as (_ & Hrcv & ->); [|done].
    destruct (rcv_admits _ _ Hrcv) as [Hh _]. pose proof (hdr_role _ _ _ Hh) as Her.
    rewrite Hr in *. destruct IH as (IH1 & IH2 & IH3).
    cbn [after_receive p_guard trial_receive g_own g_peer lane_record lane_next].
    rewrite (lane_events_other r) by congruence. split_and!; [done|by eapply lane_events_snoc|].
    rewrite length_app, IH3, (next_of_val _ _ _ Hh), (hdr_n _ _ _ Hh). cbn. lia.
Qed.

Lemma in_lane_events r t e id : (e, id) ∈ t → ev_role e = r →
  uint_val (ev_n e) ∈ ordinals (lane_events r t).
Proof.
  intros Hin Hr. apply list_elem_of_In, in_map_iff. exists (e, id). split; [done|].
  apply list_elem_of_In. unfold lane_events. by apply list_elem_of_filter.
Qed.

Lemma run_ordinal_lt r t p e id :
  party_run r t p → (e, id) ∈ t →
  (ev_role e = r ∧ uint_val (ev_n e) < uint_val (lane_next (own p)))%N ∨
  (ev_role e = other_role r ∧ uint_val (ev_n e) < uint_val (lane_next (peer p)))%N.
Proof.
  intros Hrun Hin. destruct (run_ordinals _ _ _ Hrun) as (H1 & H2 & _).
  assert (Hlt : ∀ n m, n ∈ map N.of_nat (seq 0 (N.to_nat m)) → (n < m)%N).
  { intros n m (i & <- & Hi%in_seq)%list_elem_of_In%in_map_iff. lia. }
  assert (Hrole : ev_role e = r ∨ ev_role e = other_role r).
  { clear H1 H2. induction Hrun as [p H|t p planned e' id' root native p' Hrun IH H|t p e' id' root native p' Hrun IH H].
    - by apply not_elem_of_nil in Hin.
    - apply elem_of_app in Hin as [Hin|[= -> ->]%list_elem_of_singleton]; [by apply IH|].
      destruct (run_party_ok _ _ _ Hrun) as [Hp <-].
      destruct (send_event_inv _ _ _ _ _ _ _ Hp H) as (_ & _ & Hs & _ & _).
      left. apply (snd_admits _ _ Hs).
    - apply elem_of_app in Hin as [Hin|[= -> ->]%list_elem_of_singleton]; [by apply IH|].
      destruct (run_party_ok _ _ _ Hrun) as [Hp <-].
      apply receive_event_ok in H as (_ & Hrcv & _); [|done].
      right. apply (rcv_admits _ _ Hrcv). }
  destruct Hrole as [Hr|Hr]; [left|right]; (split; [done|]); apply Hlt.
  - rewrite <-H1. by eapply in_lane_events.
  - rewrite <-H2. by eapply in_lane_events.
Qed.

(** C5: An event a device has already sent or received is never accepted again,
    under whatever identifier and however many events later: a replay fails the
    preflight. *)
Theorem no_event_twice r t p e id id' root native :
  party_run r t p → (e, id) ∈ t →
  is_ok (receive_event p e id' root native) = false ∧
  ∀ planned, is_ok (send_event p planned e id' root native) = false.
Proof.
  intros Hrun Hin. destruct (run_party_ok _ _ _ Hrun) as [Hp Hr].
  pose proof (role_ne_other _ (run_role_ok _ _ _ Hrun)) as Hne.
  pose proof (run_ordinal_lt _ _ _ _ _ Hrun Hin) as Hlt. split; [|intros planned].
  - destruct (receive_event p e id' root native) as [p'|] eqn:E; [|done].
    apply receive_event_ok in E as (_ & Hrcv & _); [|done].
    destruct (rcv_admits _ _ Hrcv) as [Hh _]. pose proof (hdr_role _ _ _ Hh) as Her.
    pose proof (hdr_n _ _ _ Hh) as Hn. rewrite Hr, Hn in *.
    destruct Hlt as [[? ?]|[? ?]]; [congruence|lia].
  - destruct (send_event p planned e id' root native) as [p'|] eqn:E; [|done].
    destruct (send_event_inv _ _ _ _ _ _ _ Hp E) as (_ & _ & Hs & _ & _).
    destruct (snd_admits _ _ Hs) as [Hh _]. pose proof (hdr_role _ _ _ Hh) as Her.
    pose proof (hdr_n _ _ _ Hh) as Hn. rewrite Hr, Hn in *.
    destruct Hlt as [[? ?]|[? ?]]; [lia|congruence].
Qed.

(** * Import *)

Definition l1_bounds (m : EventMeta * Id) : Prop :=
  (uint_val (ev_n m.1) < 512 ∧ uint_val (exp_g (ev_expected m.1)) < 512 ∧
   uint_val (ev_index m.1) < 512)%N.

Lemma import_step_ok r p m g seen :
  party_ok p → role p = r →
  import_step r m (p_guard p, p_seen p) = Ok (g, seen) ↔
  l1_bounds m ∧
  (ev_role m.1 = r ∧ send_event p m.1 m.1 m.2 u64_0 u64_0 = Ok {| p_guard := g; p_seen := seen |} ∨
   ev_role m.1 ≠ r ∧ receive_event p m.1 m.2 u64_0 u64_0 = Ok {| p_guard := g; p_seen := seen |}).
Proof.
  intros Hp Hr. destruct m as [e id]. unfold import_step, l1_bounds, send_event, receive_event.
  cbn [fst snd]. rewrite rbind_unit_ok, fail_if_ok. autorewrite with guard_bool.
  assert (Hfin : ∀ st, (let? g' := apply (p_guard p) st e id (observe (p_seen p) e) in
      Ok (g', seen_or_insert (p_seen p) e id)) = Ok (g, seen) ↔
    (let? g' := apply (p_guard p) st e id (observe (p_seen p) e) in
      Ok {| p_guard := g'; p_seen := seen_or_insert (p_seen p) e id |}) =
    Ok (E:=GuardError) {| p_guard := g; p_seen := seen |}).
  { intros st. destruct (apply _ st e id _) as [g'|]; cbn [rbind]; split; congruence. }
  destruct (bool_decide_reflect (ev_role e = r)) as [E|E].
  - destruct (preflight_send _ e u64_0 u64_0) as [st|]; cbn [rbind]; [rewrite Hfin|]; intuition congruence.
  - destruct (preflight_receive _ e _ u64_0 u64_0) as [st|]; cbn [rbind]; [rewrite Hfin|]; intuition congruence.
Qed.

Lemma try_fold_snoc {E A S} (f : A → S → result E S) l a s :
  try_fold f (l ++ [a]) s = (let? s := try_fold f l s in f a s).
Proof.
  revert s; induction l as [|b l IH]; intros s; cbn [app try_fold rbind].
  - by destruct (f a s).
  - destruct (f b s); [apply IH|done].
Qed.

(** The import loop accepts exactly the runs within the limits of the format. *)
Lemma import_fold_ok r t p0 g seen :
  party_new r = Ok p0 →
  try_fold (import_step r) t (p_guard p0, p_seen p0) = Ok (g, seen) ↔
  party_run r t {| p_guard := g; p_seen := seen |} ∧ Forall l1_bounds t.
Proof.
  intros Hnew. assert (Hgen : generations_left u64_0 u64_0) by (by split).
  revert g seen; induction t as [|[e id] t IH] using rev_ind; intros g seen.
  - cbn [try_fold]. split.
    + intros [= <- <-]. split; [|done]. destruct p0. by constructor.
    + intros [H _]. inversion H as [p H'| |]; subst; try by destruct t.
      rewrite Hnew in H'. by injection H' as ->.
  - rewrite try_fold_snoc, rbind_ok, Forall_app, Forall_singleton. split.
    + intros ([g1 seen1] & H1 & H2). apply IH in H1 as [Hrun Hb].
      destruct (run_party_ok _ _ _ Hrun) as [Hp Hr].
      apply (import_step_ok r {| p_guard := g1; p_seen := seen1 |}) in H2 as [Hb' [[_ H]|[_ H]]];
        [| |done..].
      * split; [by eapply run_send|done].
      * split; [by eapply run_receive|done].
    + intros [Hrun [Hb Hb']].
      inversion Hrun as [p H Ht|t' p planned e' id' root native p' Hrun' H Ht|t' p e' id' root native p' Hrun' H Ht];
        subst; [by destruct t| |]; apply app_inj_tail in Ht as [-> [= -> ->]];
        destruct (run_party_ok _ _ _ Hrun') as [Hp Hr]; exists (p_guard p, p_seen p);
        (split; [apply IH; split; [by destruct p|done]|]); apply import_step_ok; try done;
        (split; [done|]); cbn [fst snd].
      * left. destruct (send_event_inv _ _ _ _ _ _ _ Hp H) as (Hk & _ & Hs & Hv & ->).
        split; [rewrite <-Hr; apply (snd_admits _ _ Hs)|]. apply send_event_ok; auto.
        rewrite <-Hk at 3. by rewrite <-Hk.
      * right. apply receive_event_ok in H as (_ & Hrcv & ->); [|done]. split.
        -- rewrite (hdr_role _ _ _ (proj1 (rcv_admits _ _ Hrcv))), Hr.
           apply not_eq_sym, role_ne_other. by eapply run_role_ok.
        -- by apply receive_event_ok.
Qed.

(** Every event of a run is in a generation, and at an index, below its lane's
    count. *)
Lemma run_bounds r t p e id :
  party_run r t p → (e, id) ∈ t →
  (uint_val (exp_g (ev_expected e)) <= uint_val (ev_n e) ∧
   uint_val (ev_index e) <= uint_val (ev_n e))%N.
Proof.
  assert (Hadm : ∀ r l cause e, role_ok r → lane_ok r l → admits r l cause e →
    (uint_val (exp_g (ev_expected e)) <= uint_val (ev_n e) ∧
     uint_val (ev_index e) <= uint_val (ev_n e))%N).
  { clear. intros r l cause e Hr Hl Ha. pose proof (next_of_val _ _ _ (proj1 Ha)) as Hn.
    pose proof (admits_record_live _ _ _ _ (arr_repeat 32 x00) _ Hr Hl Ha Hn) as Hlive.
    pose proof (live_g_next _ _ Hlive) as H1. pose proof (live_index_next _ _ Hlive) as H2.
    cbn [lane_record lane_g lane_next lane_index] in H1, H2. lia. }
  induction 1 as [p H|t p planned e' id' root native p' Hrun IH H|t p e' id' root native p' Hrun IH H];
    [by intros ?%not_elem_of_nil|..];
    (intros [Hin|[= -> ->]%list_elem_of_singleton]%elem_of_app; [by apply IH|]);
    destruct (run_party_ok _ _ _ Hrun) as [Hp _]; pose proof (party_guard _ Hp) as Hg.
  - destruct (send_event_inv _ _ _ _ _ _ _ Hp H) as (_ & _ & Hs & _ & _).
    eapply Hadm; [apply Hg|apply Hg|apply Hs].
  - apply receive_event_ok in H as (_ & Hrcv & _); [|done].
    eapply Hadm; [apply other_role_ok, Hg|apply Hg|apply Hrcv].
Qed.

Lemma run_l1_bounds r t p :
  party_run r t p → (uint_val (lane_next (own p)) <= 512)%N → (uint_val (lane_next (peer p)) <= 512)%N →
  Forall l1_bounds t ∧ (len t <= 1024)%N.
Proof.
  intros Hrun H1 H2. split.
  - apply Forall_forall. intros [e id] Hin. unfold l1_bounds. cbn [fst].
    pose proof (run_bounds _ _ _ _ _ Hrun Hin).
    destruct (run_ordinal_lt _ _ _ _ _ Hrun Hin) as [[_ ?]|[_ ?]]; lia.
  - destruct (run_ordinals _ _ _ Hrun) as (_ & _ & H3). unfold len. lia.
Qed.

Section import.
Context `{HL : GuardPostcardLaws}.

Lemma import_l1_complete r t p bs :
  party_run r t p → Forall l1_bounds t → (len t <= 1024)%N →
  guard_restore bs r = Ok (p_guard p) →
  import_l1 r t bs = Ok {| imported_guard := p_guard p; imported_seen := seen_entries (p_seen p) |}.
Proof.
  intros Hrun Hb Hlen Hres. unfold import_l1. rewrite (proj2 (N.ltb_ge _ _) Hlen). cbn [fail_if rbind].
  assert (∃ p0, party_new r = Ok p0) as [p0 Hnew].
  { clear Hres Hb Hlen. induction Hrun; eauto. }
  destruct (party_new_ok _ _ Hnew) as (_ & _ & _ & _ & Hs).
  pose proof (proj2 (import_fold_ok r t p0 (p_guard p) (p_seen p) Hnew)) as Hfold.
  rewrite Hs in Hfold. unfold party_new in Hnew. destruct (guard_new r) as [g0|]; [|done].
  injection Hnew as <-. cbn [rbind]. cbn [p_guard] in Hfold.
  rewrite Hfold by (by destruct p). cbn [rbind]. rewrite Hres. cbn [rbind].
  by rewrite bool_decide_eq_true_2.
Qed.

(** The import of the previous format accepts exactly the recorded runs of
    a device within the limits of that format whose checkpoint is the guard the
    run ends with; it returns that guard and the keys the run has seen. *)
Theorem import_l1_exact r t bs i :
  import_l1 r t bs = Ok i ↔
  (len t <= 1024)%N ∧ Forall l1_bounds t ∧ ∃ p, party_run r t p ∧
    guard_restore bs r = Ok (p_guard p) ∧
    i = {| imported_guard := p_guard p; imported_seen := seen_entries (p_seen p) |}.
Proof.
  split; [|intros (Hlen & Hb & p & Hrun & Hres & ->); by apply import_l1_complete].
  unfold import_l1. rewrite rbind_unit_ok, fail_if_ok, N.ltb_ge. intros [Hlen Hx]. split; [done|].
  apply rbind_ok in Hx as (g0 & Hg0 & Hx).
  assert (Hnew : party_new r = Ok {| p_guard := g0; p_seen := ∅ |})
    by (unfold party_new; by rewrite Hg0).
  apply rbind_ok in Hx as ([g seen] & Hfold & Hx).
  apply (import_fold_ok r t {| p_guard := g0; p_seen := ∅ |} g seen Hnew) in Hfold as [Hrun Hb].
  apply rbind_ok in Hx as (g' & Hres & Hx). apply rbind_unit_ok in Hx as [He%fail_if_ok Hx].
  autorewrite with guard_bool in He. subst g'. apply Ok_inj in Hx as <-.
  split; [done|]. by exists {| p_guard := g; p_seen := seen |}.
Qed.

(** The summary of a guard that the previous format hands over. *)
Definition facts_of (g : Guard2) : L1CheckpointFacts := {|
  facts_role := g_role g; facts_own := g_own g; facts_peer := g_peer g;
  facts_rotate_due := g_rotate_due g; facts_received_new_first := g_received_new_first g;
  facts_used_own_first := g_used_own_first g
|}.

(** When the summary of a device's run compacts to a checkpoint, importing
    the events of the run against it succeeds and gives the device's guard and
    the index of its keys: no dialog that fits the old limits is lost. *)
Theorem import_l1_replays r t p bs :
  party_run r t p → compact_l1_checkpoint (facts_of (p_guard p)) = Ok bs →
  import_l1 r t bs = Ok {| imported_guard := p_guard p; imported_seen := seen_entries (p_seen p) |}.
Proof.
  intros Hrun Hc. destruct (run_party_ok _ _ _ Hrun) as [Hp Hr].
  unfold compact_l1_checkpoint, facts_of in Hc.
  cbn [facts_role facts_own facts_peer facts_rotate_due facts_received_new_first facts_used_own_first] in Hc.
  rewrite rbind_unit_ok, try_for_ok in Hc. destruct Hc as [Hb Henc].
  rewrite !Forall_cons in Hb. destruct Hb as (H1%fail_if_ok & H2%fail_if_ok & _).
  autorewrite with guard_bool in H1, H2. destruct H1 as [[H1 _] _], H2 as [[H2 _] _].
  destruct (run_l1_bounds _ _ _ Hrun H1 H2) as [Hall Hlen].
  rewrite <-(ok_version _ (party_guard _ Hp)) in Henc.
  assert (He : guard_encode (p_guard p) = Ok bs) by (by destruct (p_guard p)). clear Henc.
  apply guard_encode_ok in He as [Hg He].
  apply import_l1_complete; [done..|].
  rewrite <-(app_nil_r bs). rewrite (guard_restore_encoded (p_guard p)), decide_True; auto.
  rewrite app_nil_r. pose proof (guard_size _ _ He). unfold MAX_GUARD. lia.
Qed.

End import.

(** * Examples *)

Module DialogExample.

(** A serializer of guards with the laws of [postcard]. *)
Definition opt_codec {A} `{Codec A} : Codec (option A) :=
  iso_codec (fun o => match o with None => inl tt | Some a => inr a end)
    (fun s => match s with inl _ => None | inr a => Some a end)
    ltac:(by intros [a|]).

#[local] Existing Instance opt_codec.

#[local] Instance bool_codec : Codec bool :=
  iso_codec (fun b : bool => if b then inl tt else inr tt)
    (fun s => match s with inl _ => true | inr _ => false end) ltac:(by intros []).

#[local] Instance lane_codec : Codec Lane :=
  iso_codec (fun l => (lane_next l, lane_last l, lane_g l, lane_key l, lane_index l,
                       lane_first l, lane_parent l, lane_sequence l))
    (fun '(a, b, c, d, e, f, g, h) => Build_Lane a b c d e f g h) ltac:(by intros []).

#[local] Instance guard_codec : Codec Guard2 :=
  iso_codec (fun g => (g_version g, g_role g, g_own g, g_peer g, g_rotate_due g,
                       g_received_new_first g, g_used_own_first g))
    (fun '(a, b, c, d, e, f, g) => Build_Guard2 a b c d e f g) ltac:(by intros []).

#[local] Instance postcard : GuardPostcard := {|
  guard_to_allocvec := fun g => Some (codec_enc g);
  guard_take_from_bytes := codec_dec
|}.

Lemma option_id_size (o : option Id) : length (codec_enc o) <= 33.
Proof. destruct o as [a|]; cbn; [rewrite arr_length|]; lia. Qed.

Lemma u64_size (v : u64) : length (codec_enc v) = 8.
Proof. apply length_to_be_bytes. Qed.

Lemma option_u64_size (o : option u64) : length (codec_enc o) <= 9.
Proof. destruct o as [a|]; cbn; lia. Qed.

Lemma lane_size (l : Lane) : length (codec_enc l) <= 165.
Proof.
  destruct l as [n last g key index first parent seq].
  change (length ((((((((codec_enc n ++ codec_enc last) ++ codec_enc g) ++ codec_enc key) ++
    codec_enc index) ++ codec_enc first) ++ codec_enc parent) ++ codec_enc seq)) <= 165).
  rewrite !length_app, !u64_size. pose proof (option_id_size last). pose proof (option_id_size key).
  pose proof (option_id_size first). pose proof (option_id_size parent).
  pose proof (option_u64_size seq). lia.
Qed.

#[local] Instance postcard_laws : GuardPostcardLaws.
Proof.
  split.
  - intros g. by eexists.
  - intros g b rest Hb. apply (inj Some) in Hb as <-. apply codec_law.
  - intros g b Hb. apply (inj Some) in Hb as <-. destruct g as [v r own peer d rec used]. unfold len.
    enough (length ([v] ++ [r] ++ codec_enc own ++ codec_enc peer ++ codec_enc d ++
      codec_enc rec ++ codec_enc used) <= 415) as Hle.
    { rewrite !length_app in Hle. cbn [codec_enc guard_codec iso_codec pair_codec byte_codec
        g_version g_role g_own g_peer g_rotate_due g_received_new_first g_used_own_first].
      rewrite !length_app. lia. }
    rewrite !length_app. pose proof (lane_size own). pose proof (lane_size peer).
    pose proof (option_id_size rec). pose proof (option_id_size used).
    assert (length (codec_enc d) = 1) by (by destruct d). cbn [length]. lia.
Qed.

Definition id_of (b : byte) : Id := arr_repeat 32 b.

(** The first event of a dialog, and the answer. *)
Definition init : EventMeta := {|
  ev_role := x00; ev_n := u64_0; ev_previous := None; ev_sequence := u64_0; ev_kind := x01;
  ev_native_kind := x00; ev_key := id_of x10; ev_index := u64_0;
  ev_expected := {| exp_g := u64_0; exp_index := u64_0; exp_parent := None; exp_tail := None |}
|}.

Definition confirm : EventMeta := {|
  ev_role := x01; ev_n := u64_0; ev_previous := None; ev_sequence := u64_0; ev_kind := x02;
  ev_native_kind := x01; ev_key := id_of x20; ev_index := u64_0;
  ev_expected := {| exp_g := u64_0; exp_index := u64_0; exp_parent := Some (id_of x11);
                    exp_tail := None |}
|}.

Definition new_party (r : byte) : Party := {|
  p_guard := {| g_version := x02; g_role := r; g_own := lane_default; g_peer := lane_default;
                g_rotate_due := false; g_received_new_first := None; g_used_own_first := None |};
  p_seen := ∅
|}.

Definition first_party : Party := after_send (new_party x00) init (id_of x11).
Definition second_party : Party := after_receive (new_party x01) init (id_of x11).
Definition answered : Party := after_send second_party confirm (id_of x21).

Lemma init_sent : send_event (new_party x00) init init (id_of x11) u64_0 u64_0 = Ok first_party.
Proof. vm_cast_no_check (eq_refl (Ok (E:=GuardError) first_party)). Qed.
Lemma init_received : receive_event (new_party x01) init (id_of x11) u64_0 u64_0 = Ok second_party.
Proof. vm_cast_no_check (eq_refl (Ok (E:=GuardError) second_party)). Qed.
Lemma confirm_sent :
  send_event second_party confirm confirm (id_of x21) u64_0 u64_0 = Ok answered.
Proof. vm_cast_no_check (eq_refl (Ok (E:=GuardError) answered)). Qed.

(** Both events are on their way: the answer has been sent, the first device
    has not received it. *)
Definition answering : Dialog := {|
  d_first := first_party; d_second := answered;
  d_from_first := []; d_from_second := [(confirm, id_of x21)]
|}.

Definition fresh : Dialog := {|
  d_first := new_party x00; d_second := new_party x01; d_from_first := []; d_from_second := []
|}.

Definition begun : Dialog := {|
  d_first := first_party; d_second := new_party x01;
  d_from_first := [(init, id_of x11)]; d_from_second := []
|}.

Definition received : Dialog := {|
  d_first := first_party; d_second := second_party; d_from_first := []; d_from_second := []
|}.

Lemma answering_reachable : dialog_reachable answering.
Proof.
  apply (reachable_step received); [apply (reachable_step begun);
    [apply (reachable_step fresh); [apply (reachable_new (new_party x00) (new_party x01)); reflexivity|]|]|].
  - apply step_first. exact (party_sends fresh init init _ u64_0 u64_0 _ init_sent).
  - apply step_second.
    exact (party_receives (swap begun) init _ [] u64_0 u64_0 _ eq_refl init_received).
  - apply step_second. exact (party_sends (swap received) confirm confirm _ u64_0 u64_0 _ confirm_sent).
Qed.

Lemma second_run : party_run x01 [(init, id_of x11); (confirm, id_of x21)] answered.
Proof.
  apply (run_send _ [(init, id_of x11)] second_party confirm confirm _ u64_0 u64_0);
    [|apply confirm_sent].
  apply (run_receive _ [] (new_party x01) init _ u64_0 u64_0); [|apply init_received].
  by constructor.
Qed.

Lemma generations_0 : generations_left u64_0 u64_0.
Proof. by split. Qed.

Lemma dialog_delivers_witness :
  receive_event first_party confirm (id_of x21) u64_0 u64_0 =
  Ok (after_receive first_party confirm (id_of x21)).
Proof.
  exact (proj1 (dialog_delivers answering confirm (id_of x21) [] u64_0 u64_0
    answering_reachable generations_0) eq_refl).
Defined.

Lemma dialog_drains_witness :
  ∃ d', rtc dialog_step answering d' ∧ d_from_second d' = [] ∧
    peer (d_first d') = own answered.
Proof.
  destruct (dialog_drains answering answering_reachable) as (d' & H1 & _ & H2 & _ & _ & H3 & _).
  by exists d'.
Defined.

Lemma dialog_invariant_witness :
  guard_validate (p_guard answered) = Ok tt ∧
  replay (peer first_party) [(confirm, id_of x21)] = own answered.
Proof.
  destruct (dialog_invariant answering answering_reachable) as (_ & H1 & _ & _ & H2). done.
Defined.

Lemma no_event_twice_witness :
  is_ok (receive_event answered init (id_of x55) u64_0 u64_0) = false.
Proof.
  apply (no_event_twice x01 [(init, id_of x11); (confirm, id_of x21)] answered init (id_of x11)
    (id_of x55) u64_0 u64_0 second_run).
  constructor.
Defined.

Lemma import_l1_replays_witness :
  ∃ bs, import_l1 x01 [(init, id_of x11); (confirm, id_of x21)] bs =
    Ok {| imported_guard := p_guard answered; imported_seen := seen_entries (p_seen answered) |}.
Proof.
  eexists. eapply import_l1_replays; [apply second_run|]. vm_compute. reflexivity.
Defined.

Lemma guard_checkpoint_roundtrip_witness :
  ∃ bs, guard_encode (p_guard answered) = Ok bs ∧ guard_restore bs x01 = Ok (p_guard answered).
Proof.
  destruct (guard_checkpoint_roundtrip (p_guard answered)) as (bs & H1 & _ & H2 & _);
    [vm_compute; reflexivity|]. by exists bs.
Defined.

End DialogExample.
