(* ===== verification/OrderedValue.v ===== *)
(** The value trees of [crates/kilogram-protocol/src/ordered_dialog_v1.rs]: the
    restricted CBOR both versions of the ordered dialog are written in.

    [Value] is the tree ([VU], [VB] and [VA] are [Value::U], [B] and [A]), [encode] its writer with the limits on depth, items
    and bytes, [decode] the reader that runs the profile validator of
    [CanonicalV1] before it builds a tree, and [uint_of], [fixed], [fields], ...
    the accessors the message parsers are made of.  [od_codec_exact] shows that
    [encode] and [decode] are inverse on everything either of them accepts. *)

From stdpp Require Import base tactics list numbers strings.
From Stdlib Require Import Strings.Byte.
From S2P Require Import Prelude CanonicalV1 Text Identity.

(** * Data *)

Inductive OD1Error :=
| OD1Invalid (reason : string)
| OD1Canonical (error : CanonicalWireError)
| OD1Identity (error : IdentityError).

#[warnings="-register-all"]
Inductive Value :=
| VU (n : u64)
| VB (raw : bytes)
| VA (values : list Value).

Definition vu (n : N) : Value := VU (as_u64 n).

(** [opt]: an option is an array of at most one element. *)
Definition opt (value : option Value) : Value :=
  match value with Some v => VA [v] | None => VA [] end.

Definition opt_id (value : option (arr 32)) : Value :=
  opt (match value with Some id => Some (VB (arr_bytes id)) | None => None end).

(** * Accessors *)

Definition uint_of (v : Value) : result OD1Error u64 :=
  match v with VU n => Ok n | _ => Err (OD1Invalid "uint") end.

Definition bytes_of (v : Value) : result OD1Error bytes :=
  match v with VB raw => Ok raw | _ => Err (OD1Invalid "bstr") end.

Definition fixed (n : nat) (v : Value) : result OD1Error (arr n) :=
  let? raw := bytes_of v in
  ok_or (arr_try_from n raw) (OD1Invalid "fixed length").

Definition list_of (v : Value) : result OD1Error (list Value) :=
  match v with VA values => Ok values | _ => Err (OD1Invalid "array") end.

Definition fields (n : usize) (v : Value) : result OD1Error (list Value) :=
  let? f := list_of v in
  fail_if (negb (len f =? n)%N) (OD1Invalid "array arity") ;?
  Ok f.

Definition option_of (v : Value) : result OD1Error (option Value) :=
  let? f := list_of v in
  match f with
  | [] => Ok None
  | [value] => Ok (Some value)
  | _ => Err (OD1Invalid "option arity")
  end.

(** [v.option()?.map(f).transpose()?]. *)
Definition option_map_of {T} (f : Value → result OD1Error T) (v : Value) : result OD1Error (option T) :=
  let? o := option_of v in
  match o with
  | None => Ok None
  | Some v => let? t := f v in Ok (Some t)
  end.

Definition optional_id (v : Value) : result OD1Error (option (arr 32)) := option_map_of (fixed 32) v.

(** The field [f[i]] of a checked array; the index is below the arity. *)
Definition field (f : list Value) (i : nat) : Value := nth i f (VA []).

(** A [String] is the list of its bytes. *)
Definition text (v : Value) : result OD1Error bytes :=
  let? raw := bytes_of v in
  fail_if (negb (utf8_valid raw)) (OD1Invalid "UTF8") ;?
  Ok raw.

(** * Encoding *)

(** [limit.saturating_sub(out.len())] is truncated subtraction on [N]. *)
Fixpoint emit (value : Value) (depth : usize) (limit : usize) (st : bytes * usize) {struct value}
  : result OD1Error (bytes * usize) :=
  let '(out, items) := st in
  let items := (items + 1)%N in
  fail_if ((8 <? depth) || (8192 <? items))%N (OD1Invalid "depth/items") ;?
  let? (out, items) :=
    match value with
    | VU n => Ok (push_unsigned n out, items)
    | VB v =>
        fail_if (limit - len out <? len v)%N (OD1Invalid "encoded byte cap") ;?
        Ok (push_bytes v out, items)
    | VA v =>
        fail_if (8192 <? len v)%N (OD1Invalid "array count") ;?
        try_fold (fun value st => emit value (depth + 1)%N limit st) v
          (push_array_header (as_u64 (len v)) out, items)
    end in
  fail_if (limit <? len out)%N (OD1Invalid "encoded byte cap") ;?
  Ok (out, items).

Definition encode (value : Value) (limit : usize) : result OD1Error bytes :=
  let? (out, _) := emit value 0 limit ([], 0%N) in
  Ok out.

(** * Decoding *)

Definition take_slice (raw : bytes) (pos n : usize) : result OD1Error (bytes * usize) :=
  let? end_ := ok_or (usize_checked_add pos n) (OD1Invalid "length overflow") in
  let? value := ok_or (slice_range raw pos end_) (OD1Invalid "truncated") in
  Ok (value, end_).

(** The argument of a head, without the checks the validator has made. *)
Definition head_argument (raw : bytes) (pos : usize) (additional : N)
  : result OD1Error (u64 * usize) :=
  if (additional <=? 23)%N then Ok (as_u64 additional, pos)
  else
    let width := if (additional =? 24)%N then Some 1%N else if (additional =? 25)%N then Some 2%N
                 else if (additional =? 26)%N then Some 4%N
                 else if (additional =? 27)%N then Some 8%N else None in
    match width with
    | Some width =>
        let? (a, pos) := take_slice raw pos width in
        Ok (as_u64 (from_be_bytes a), pos)
    | None => Err (OD1Invalid "head")
    end.

(** [for _ in 0..n] collecting into a vector. *)
Fixpoint collect_n {T} (n : nat) (step : usize → result OD1Error (T * usize)) (pos : usize)
  : result OD1Error (list T * usize) :=
  match n with
  | O => Ok ([], pos)
  | S n =>
      let? (x, pos) := step pos in
      let? (xs, pos) := collect_n n step pos in
      Ok (x :: xs, pos)
  end.

(** The item after its head; [item] reads one element of an array. *)
Definition decode_body (raw : bytes) (item : usize → result OD1Error (Value * usize))
    (major : N) (n : u64) (pos : usize) : result OD1Error (Value * usize) :=
  match major with
  | 0%N => Ok (VU n, pos)
  | 2%N =>
      let? size := ok_or (usize_try_from n) (OD1Invalid "length") in
      let? (value, pos) := take_slice raw pos size in
      Ok (VB value, pos)
  | 4%N =>
      let? (values, pos) := collect_n (N.to_nat n) item pos in
      Ok (VA values, pos)
  | _ => Err (OD1Invalid "major type")
  end.

(** [fuel] bounds the nesting, which the validator has limited. *)
Fixpoint decode_item (fuel : nat) (raw : bytes) (pos : usize) : result OD1Error (Value * usize) :=
  match fuel with
  | O => Err (OD1Invalid "depth")
  | S fuel =>
      let? (head, pos) := take_slice raw pos 1 in
      let head := byte_val (nth 0 head x00) in
      let? (n, pos) := head_argument raw pos (N.land head 31) in
      decode_body raw (decode_item fuel raw) (N.shiftr head 5) n pos
  end.

Definition decode (raw : bytes) (limit : usize) : result OD1Error Value :=
  fail_if (limit <? len raw)%N (OD1Invalid "encoded byte cap") ;?
  map_err OD1Canonical (validate_canonical_profile_v1 raw) ;?
  let? (value, _) := decode_item VALIDATE_FUEL raw 0 in
  Ok value.

(** * Trees and items *)

(** The tree as an item of the profile. *)
Fixpoint value_item (v : Value) : item :=
  match v with
  | VU n => IUnsigned n
  | VB b => IBytes b
  | VA l => IArray (map value_item l)
  end.

Lemma Value_ind' (P : Value → Prop) :
  (∀ n, P (VU n)) → (∀ b, P (VB b)) → (∀ l, Forall P l → P (VA l)) → ∀ v, P v.
Proof.
  intros HU HB HA. fix IH 1. intros [n|b|l]; [apply HU|apply HB|apply HA].
  induction l as [|v l IHl]; constructor; [apply IH|apply IHl].
Qed.

Lemma value_item_inj v w : value_item v = value_item w → v = w.
Proof.
  revert w; induction v as [n|b|l IH] using Value_ind'; intros [n'|b'|l'] E; cbn in E; try done.
  - by injection E as ->.
  - by injection E as ->.
  - injection E as E. f_equal. revert l' E; induction IH as [|v l Hv _ IHl]; intros [|v' l'] E;
      cbn in E; try done. injection E as E1 E2. f_equal; auto.
Qed.

Lemma value_item_surj i : ∃ v, value_item v = i.
Proof.
  induction i as [n|b|l IH] using item_ind'; [by exists (VU n)|by exists (VB b)|].
  assert (∃ vs, map value_item vs = l) as [vs <-].
  { induction IH as [|i l [v <-] _ [vs <-]]; [by exists []|by exists (v :: vs)]. }
  by exists (VA vs).
Qed.

#[export] Instance Value_eq_dec : EqDecision Value.
Proof.
  refine (fix go v w : Decision (v = w) :=
    match v, w with
    | VU n, VU m => cast_if (decide (n = m))
    | VB b, VB c => cast_if (decide (b = c))
    | VA l, VA k => cast_if (@list_eq_dec Value go l k)
    | _, _ => right _
    end); clear go; abstract congruence.
Defined.

Abbreviation v_depth v := (item_depth (value_item v)).
Abbreviation v_count v := (N.of_nat (item_count (value_item v))).
Abbreviation v_enc v := (enc_item (value_item v)).
Abbreviation vs_enc l := (enc_items (map value_item l)).
Abbreviation vs_count l := (N.of_nat (list_sum (map item_count (map value_item l)))).

(** ** The encoder *)

(** The loop of [emit] over the elements of an array. *)
Abbreviation emit_all depth limit :=
  (try_fold (fun value st => emit value depth limit st)).

Lemma emit_unfold value depth limit out items :
  emit value depth limit (out, items) =
  (fail_if ((8 <? depth) || (8192 <? items + 1))%N (OD1Invalid "depth/items") ;?
   let? (out, items) :=
     match value with
     | VU n => Ok (push_unsigned n out, items + 1)%N
     | VB v =>
         fail_if (limit - len out <? len v)%N (OD1Invalid "encoded byte cap") ;?
         Ok (push_bytes v out, items + 1)%N
     | VA v =>
         fail_if (8192 <? len v)%N (OD1Invalid "array count") ;?
         emit_all (depth + 1) limit v (push_array_header (as_u64 (len v)) out, items + 1)%N
     end in
   fail_if (limit <? len out)%N (OD1Invalid "encoded byte cap") ;?
   Ok (out, items)).
Proof.
  by destruct value as [n|b|l].
Qed.

(** A value within the limits, written after [out]. *)
Record emits (v : Value) (depth limit : usize) (out : bytes) (items : usize) : Prop := {
  emits_depth : (depth + N.of_nat (v_depth v) <= 8)%N;
  emits_items : (items + v_count v <= 8192)%N;
  emits_limit : (len (out ++ v_enc v) <= limit)%N
}.

Lemma emit_all_sound depth limit l out items out' items' :
  Forall (fun v => ∀ out items out' items', emit v depth limit (out, items) = Ok (out', items') →
    emits v depth limit out items ∧ out' = out ++ v_enc v ∧ items' = (items + v_count v)%N) l →
  emit_all depth limit l (out, items) = Ok (out', items') → (items <= 8192)%N →
  Forall (fun v => depth + N.of_nat (v_depth v) <= 8)%N l ∧ (items + vs_count l <= 8192)%N ∧
  out' = out ++ vs_enc l ∧ items' = (items + vs_count l)%N.
Proof.
  intros HF. revert out items; induction HF as [|v l Hv _ IH]; intros out items H Hi; cbn [try_fold] in H.
  - injection H as <- <-. cbn. rewrite app_nil_r. split_and!; [done|lia..|done|lia].
  - apply rbind_ok in H as ([out1 items1] & H1 & H2).
    destruct (Hv _ _ _ _ H1) as ([Hd Hit Hl] & -> & ->).
    destruct (IH _ _ H2 Hit) as (HFd & Hsum & -> & ->).
    cbn [map list_sum fold_right] in *. fold (list_sum (map item_count (map value_item l))) in *.
    rewrite enc_items_cons, app_assoc. split_and!; [by constructor|lia|done|lia].
Qed.

Lemma emit_all_complete depth limit l out items :
  Forall (fun v => ∀ out items, emits v depth limit out items →
    emit v depth limit (out, items) = Ok (out ++ v_enc v, (items + v_count v)%N)) l →
  Forall (fun v => depth + N.of_nat (v_depth v) <= 8)%N l → (items + vs_count l <= 8192)%N →
  (len (out ++ vs_enc l) <= limit)%N →
  emit_all depth limit l (out, items) = Ok (out ++ vs_enc l, (items + vs_count l)%N).
Proof.
  intros HF. revert out items; induction HF as [|v l Hv _ IH]; intros out items Hd Hi Hl; cbn [try_fold].
  - cbn. by rewrite app_nil_r, N.add_0_r.
  - inversion_clear Hd as [|? ? Hd1 Hd2].
    cbn [map list_sum fold_right] in *. fold (list_sum (map item_count (map value_item l))) in *.
    rewrite enc_items_cons, app_assoc in Hl |- *.
    rewrite Hv; [cbn [rbind]; rewrite IH by (done || lia); do 2 f_equal; lia|].
    split; [done|lia|]. rewrite len_app in Hl. lia.
Qed.

Lemma emit_sound v depth limit out items out' items' :
  emit v depth limit (out, items) = Ok (out', items') →
  emits v depth limit out items ∧ out' = out ++ v_enc v ∧ items' = (items + v_count v)%N.
Proof.
  revert depth out items out' items'.
  induction v as [n|b|l IH] using Value_ind'; intros depth out items out' items' H;
    rewrite emit_unfold in H; apply rbind_unit_ok in H as [Hlim%fail_if_ok H];
    rewrite orb_false_iff, !N.ltb_ge in Hlim; destruct Hlim as [Hd Hi];
    apply rbind_ok in H as ([out1 items1] & H & Hf); apply rbind_unit_ok in Hf as [Hl%fail_if_ok Hf];
    apply N.ltb_ge in Hl; apply Ok_pair_inj in Hf as [<- <-].
  - apply Ok_pair_inj in H as [<- <-]. rewrite push_unsigned_app in *.
    split; [|done]. split; cbn; [lia|lia|done].
  - apply rbind_unit_ok in H as [_ H]. apply Ok_pair_inj in H as [<- <-]. rewrite push_bytes_app in *.
    split; [|done]. split; cbn [value_item item_depth item_count]; [lia|lia|done].
  - apply rbind_unit_ok in H as [_ H].
    apply emit_all_sound in H as (HF & Hsum & -> & ->); [| |done].
    + rewrite push_array_header_app in *. rewrite <-app_assoc in *.
      assert (He : head_bytes 4 (as_u64 (len l)) ++ vs_enc l = v_enc (VA l)).
      { cbn [value_item]. rewrite enc_item_array. unfold len. by rewrite length_map. }
      rewrite He in *. split_and!; [|done|cbn [value_item item_count]; lia]. split; [|cbn [value_item item_count]; lia|done].
      pose proof (item_depth_array_le (map value_item l) (N.to_nat (8 - depth))) as Hle.
      enough (v_depth (VA l) <= N.to_nat (8 - depth)) by lia. apply Hle. apply Forall_map.
      eapply Forall_impl; [exact HF|]. cbn. lia.
    + eapply Forall_impl; [exact IH|]. cbn. eauto.
Qed.

Lemma emit_complete v depth limit out items :
  emits v depth limit out items →
  emit v depth limit (out, items) = Ok (out ++ v_enc v, (items + v_count v)%N).
Proof.
  revert depth out items.
  induction v as [n|b|l IH] using Value_ind'; intros depth out items [Hd Hi Hl]; rewrite emit_unfold;
    cbn [value_item item_count] in Hi, Hd.
  - rewrite (proj2 (orb_false_iff _ _)) by (split; apply N.ltb_ge; lia). cbn [fail_if rbind].
    rewrite push_unsigned_app. cbn [value_item] in Hl. by rewrite (proj2 (N.ltb_ge _ _) Hl).
  - rewrite (proj2 (orb_false_iff _ _)) by (split; apply N.ltb_ge; lia). cbn [fail_if rbind].
    assert (len b <= limit - len out)%N as Hb.
    { rewrite len_app in Hl. cbn [value_item enc_item] in Hl. rewrite len_app in Hl. lia. }
    rewrite (proj2 (N.ltb_ge _ _) Hb). cbn [fail_if rbind]. rewrite push_bytes_app.
    cbn [value_item] in Hl. by rewrite (proj2 (N.ltb_ge _ _) Hl).
  - pose proof (list_sum_count_length (map value_item l)) as Hlen. rewrite length_map in Hlen.
    rewrite (proj2 (orb_false_iff _ _)) by (split; apply N.ltb_ge; lia). cbn [fail_if rbind].
    rewrite (proj2 (N.ltb_ge 8192 (len l))) by (unfold len; lia). cbn [fail_if rbind].
    assert (He : v_enc (VA l) = head_bytes 4 (as_u64 (len l)) ++ vs_enc l).
    { cbn [value_item]. rewrite enc_item_array. unfold len. by rewrite length_map. }
    rewrite He in *. rewrite app_assoc in Hl |- *. rewrite push_array_header_app.
    rewrite emit_all_complete; cbn [rbind].
    + rewrite (proj2 (N.ltb_ge _ _) Hl). cbn [fail_if rbind]. do 2 f_equal. cbn [value_item item_count]. lia.
    + eapply Forall_impl; [exact IH|]. cbn. auto.
    + apply Forall_forall. intros v Hv. pose proof (item_depth_elem (value_item v) (map value_item l)) as Hde.
      specialize (Hde ltac:(apply list_elem_of_In, in_map, list_elem_of_In, Hv)). cbn [item_depth] in *. lia.
    + lia.
    + done.
Qed.

(** The values [encode] accepts under a limit. *)
Definition encodable (v : Value) (limit : usize) : Prop :=
  v_depth v <= 8 ∧ (v_count v <= 8192)%N ∧ (len (v_enc v) <= limit)%N.

Lemma encode_ok v limit raw : encode v limit = Ok raw ↔ encodable v limit ∧ raw = v_enc v.
Proof.
  unfold encode, encodable. rewrite rbind_ok. split.
  - intros ([out items] & H & E%Ok_inj). subst. apply emit_sound in H as ([Hd Hi Hl] & -> & _).
    cbn [app] in *. split; [|done]. split_and!; [lia|lia|done].
  - intros [(Hd & Hi & Hl) ->]. exists (v_enc v, (0 + v_count v)%N). split; [|done].
    apply (emit_complete v 0 limit [] 0). split; [lia|lia|done].
Qed.

(** ** The decoder *)

Lemma take_slice_at raw pos a rest :
  (len raw < U64_BOUND)%N → at_pos raw pos (a ++ rest) →
  take_slice raw pos (len a) = Ok (a, (pos + len a)%N) ∧ at_pos raw (pos + len a) rest.
Proof.
  intros Hl Hat. pose proof (at_pos_le _ _ _ Hat) as Hle. rewrite len_app in Hle.
  unfold take_slice. rewrite usize_checked_add_small by lia. cbn [ok_or rbind].
  rewrite (slice_range_at _ _ _ _ Hat). cbn. split; [done|by apply at_pos_app].
Qed.

Lemma head_argument_at raw pos a rest :
  (len raw < U64_BOUND)%N → at_pos raw pos (arg_tail a ++ rest) →
  head_argument raw pos (arg_additional a) = Ok (a, (pos + len (arg_tail a))%N).
Proof.
  intros Hl Hat. pose proof (uint_lt a) as Hlt. unfold head_argument.
  assert (Hbe : ∀ k, (uint_val a < 256 ^ N.of_nat k)%N → arg_tail a = to_be_bytes k a →
    take_slice raw pos (N.of_nat k) = Ok (arg_tail a, (pos + len (arg_tail a))%N) ∧
    as_u64 (from_be_bytes (arg_tail a)) = a).
  { intros k Hk Ht. split.
    - replace (N.of_nat k) with (len (arg_tail a)) by (rewrite Ht; unfold len; by rewrite length_to_be_bytes).
      by destruct (take_slice_at raw pos (arg_tail a) rest Hl Hat).
    - rewrite Ht, from_to_be_bytes, N.mod_small by done. apply as_u64_id. }
  unfold arg_additional in *. destruct (N.leb_spec a 23).
  { assert (arg_tail a = []) as -> by (unfold arg_tail; destruct (N.leb_spec a 23); [done|lia]).
    destruct (N.leb_spec a 23); [|lia]. by rewrite as_u64_id, N.add_0_r. }
  assert (Hw : ∀ k add, arg_tail a = to_be_bytes k a → (uint_val a < 256 ^ N.of_nat k)%N →
    (k = 1 ∧ add = 24%N ∨ k = 2 ∧ add = 25%N ∨ k = 4 ∧ add = 26%N ∨ k = 8 ∧ add = 27%N) →
    (if (add <=? 23)%N then Ok (as_u64 add, pos) else
     match (if (add =? 24)%N then Some 1%N else if (add =? 25)%N then Some 2%N
            else if (add =? 26)%N then Some 4%N else if (add =? 27)%N then Some 8%N else None) with
     | Some width => let? (a, pos) := take_slice raw pos width in Ok (as_u64 (from_be_bytes a), pos)
     | None => Err (OD1Invalid "head")
     end) = Ok (a, (pos + len (arg_tail a))%N)).
  { intros k add Ht Hk Hadd. destruct (Hbe k Hk Ht) as [H1 H2].
    destruct Hadd as [[-> ->]|[[-> ->]|[[-> ->]|[-> ->]]]];
      change (N.of_nat 1) with 1%N in H1 || change (N.of_nat 2) with 2%N in H1 ||
      change (N.of_nat 4) with 4%N in H1 || change (N.of_nat 8) with 8%N in H1;
      cbn [N.leb N.eqb N.compare Pos.compare Pos.compare_cont Pos.eqb];
      rewrite H1; cbn [rbind]; by rewrite H2. }
  destruct (N.leb_spec a 255); [eapply (Hw 1)|destruct (N.leb_spec a 65535);
    [eapply (Hw 2)|destruct (N.leb_spec a 4294967295); [eapply (Hw 4)|eapply (Hw 8)]]];
    try (unfold arg_tail; leb_cases; done || lia); try (cbn; lia); auto 6.
Qed.

Lemma collect_n_at raw step l pos rest :
  (∀ v pos rest, v ∈ l → at_pos raw pos (v_enc v ++ rest) →
     step pos = Ok (v, (pos + len (v_enc v))%N)) →
  at_pos raw pos (vs_enc l ++ rest) →
  collect_n (length l) step pos = Ok (l, (pos + len (vs_enc l))%N).
Proof.
  intros Hstep. revert pos; induction l as [|v l IH]; intros pos Hat; cbn [length collect_n].
  - cbn. by rewrite N.add_0_r.
  - cbn [map] in *. rewrite enc_items_cons, <-app_assoc in Hat.
    rewrite (Hstep v pos _ ltac:(constructor) Hat). cbn [rbind]. apply at_pos_app in Hat.
    rewrite (IH ltac:(intros; eapply Hstep; eauto; by constructor) _ Hat). cbn [rbind].
    rewrite enc_items_cons, len_app. do 2 f_equal. lia.
Qed.

Lemma decode_head_at fuel raw pos m a rest :
  (m < 8)%N → (len raw < U64_BOUND)%N → at_pos raw pos (head_bytes m a ++ rest) →
  decode_item (S fuel) raw pos =
  decode_body raw (decode_item fuel raw) m a (pos + len (head_bytes m a))%N.
Proof.
  intros Hm Hl Hat. rewrite head_bytes_split in *. cbn [app] in Hat.
  destruct (take_slice_at raw pos [initial_byte m (arg_additional a)] _ Hl Hat) as [Ht Hat1].
  change (len [initial_byte m (arg_additional a)]) with 1%N in Ht, Hat1.
  cbn [decode_item]. rewrite Ht. cbn [rbind nth].
  destruct (initial_byte_parts m _ Hm (arg_additional_lt a)) as [P1 P2]. rewrite P1, P2.
  rewrite (head_argument_at _ _ _ _ Hl Hat1). cbn [rbind]. by rewrite len_cons, N.add_assoc.
Qed.

Lemma decode_item_at v fuel raw pos rest :
  (len raw < U64_BOUND)%N → item_fits (value_item v) = true → v_depth v < fuel →
  at_pos raw pos (v_enc v ++ rest) →
  decode_item fuel raw pos = Ok (v, (pos + len (v_enc v))%N).
Proof.
  intros Hl. revert fuel pos rest.
  induction v as [n|b|l IH] using Value_ind'; intros fuel pos rest Hf Hd Hat;
    (destruct fuel as [|fuel]; [lia|]).
  - by rewrite (decode_head_at fuel raw pos 0 n rest).
  - cbn [value_item enc_item] in Hat. rewrite <-app_assoc in Hat.
    rewrite (decode_head_at fuel raw pos 2 (as_u64 (len b)) _ ltac:(done) Hl Hat). cbn [decode_body].
    apply item_fits_bytes in Hf. rewrite usize_try_from_id, as_u64_len by done. cbn [ok_or rbind].
    apply at_pos_app in Hat. destruct (take_slice_at raw _ b rest Hl Hat) as [-> _]. cbn [rbind].
    cbn [value_item enc_item]. by rewrite len_app, N.add_assoc.
  - cbn [value_item] in Hat, Hf. rewrite enc_item_array, <-app_assoc in Hat.
    rewrite (decode_head_at fuel raw pos 4 (as_u64 (len (map value_item l))) _ ltac:(done) Hl Hat).
    cbn [decode_body].
    apply item_fits_array in Hf as [Hlen Hf]. rewrite as_u64_len by done. apply at_pos_app in Hat.
    assert (N.to_nat (len (map value_item l)) = length l) as -> by (unfold len; rewrite length_map; lia).
    rewrite (collect_n_at raw _ l _ rest); [cbn [rbind]| |done].
    + cbn [value_item]. by rewrite enc_item_array, len_app, N.add_assoc.
    + intros v pos' rest' Hv Hat'. rewrite Forall_forall in IH.
      assert (Hin : value_item v ∈ map value_item l) by (by apply list_elem_of_In, in_map, list_elem_of_In).
      eapply IH; eauto.
      * rewrite Forall_forall in Hf. auto.
      * pose proof (item_depth_elem _ _ Hin). cbn [value_item] in Hd. lia.
Qed.

(** [decode] accepts exactly the encodings of trees within the profile. *)
Lemma decode_ok raw limit v :
  decode raw limit = Ok v ↔
  (len raw <= limit)%N ∧ item_in_profile (value_item v) ∧ raw = v_enc v.
Proof.
  assert (Hrun : ∀ w, item_in_profile (value_item w) →
    decode_item VALIDATE_FUEL (v_enc w) 0 = Ok (w, len (v_enc w))).
  { intros w Hw. rewrite (decode_item_at w _ _ _ []); rewrite ?app_nil_r; auto using at_pos_start.
    - by apply in_profile_fits.
    - by apply in_profile_item_fits.
    - destruct Hw as [Hd _]. unfold VALIDATE_FUEL. lia. }
  unfold decode. rewrite rbind_unit_ok, fail_if_ok, N.ltb_ge. apply and_iff_compat_l.
  rewrite rbind_unit_ok, map_err_ok. split.
  - intros [(i & Hi & <-)%validate_profile_sound H]. destruct (value_item_surj i) as [w <-].
    rewrite Hrun in H by done. cbn [rbind] in H. by apply Ok_inj in H as ->.
  - intros [Hi ->]. split; [by apply validate_profile_complete|]. by rewrite Hrun.
Qed.

Lemma strings_within_limit v limit :
  (len (v_enc v) <= limit)%N → item_strings_within limit (value_item v) = true.
Proof.
  revert limit; induction v as [n|b|l IH] using Value_ind'; intros limit Hl; [done| |].
  - cbn [value_item enc_item item_strings_within] in *. rewrite len_app in Hl. apply N.leb_le. lia.
  - cbn [value_item] in *. rewrite enc_item_array, len_app in Hl. apply item_strings_ok_array, Forall_map.
    rewrite Forall_forall in IH |- *. intros v Hv. apply IH; [done|].
    assert (len (v_enc v) <= len (vs_enc l))%N; [|lia].
    apply list_elem_of_split in Hv as (l1 & l2 & ->).
    rewrite map_app, enc_items_app. cbn [map]. rewrite enc_items_cons, !len_app. lia.
Qed.

Lemma encodable_profile v limit :
  (limit <= MAX_CANONICAL_BYTE_STRING_BYTES)%N →
  encodable v limit ↔ (len (v_enc v) <= limit)%N ∧ item_in_profile (value_item v).
Proof.
  intros Hm. unfold encodable, item_in_profile, MAX_CANONICAL_ITEMS. split; [|tauto].
  intros (Hd & Hi & Hl). split_and!; auto.
  apply (strings_within_limit v). unfold MAX_CANONICAL_BYTE_STRING_BYTES in *. lia.
Qed.

(** [encode] and [decode] as one relation; [encode_ok] and [decode_ok] give
    the two halves. *)
Lemma encode_decode v raw limit :
  (limit <= MAX_CANONICAL_BYTE_STRING_BYTES)%N →
  encode v limit = Ok raw ↔ decode raw limit = Ok v.
Proof.
  intros Hm. rewrite encode_ok, decode_ok, encodable_profile by done.
  split; [by intros [[? ?] ->]|by intros (? & ? & ->)].
Qed.

Lemma encode_inj v w limit limit' raw :
  (limit <= MAX_CANONICAL_BYTE_STRING_BYTES)%N → (limit' <= MAX_CANONICAL_BYTE_STRING_BYTES)%N →
  encode v limit = Ok raw → encode w limit' = Ok raw → v = w.
Proof.
  intros Hm Hm' [H1 ->]%encode_ok [H2 E]%encode_ok.
  apply encodable_profile in H1 as [_ H1]; [|done]. apply encodable_profile in H2 as [_ H2]; [|done].
  apply value_item_inj.
  destruct (enc_item_inj (value_item v) (value_item w) [] []) as [? _];
    auto using in_profile_item_fits. by rewrite !app_nil_r.
Qed.

(** Writing and reading a value tree are inverse to each other under every
    limit the protocol uses (they are all below the 8 MiB of the profile): the
    encoder succeeds with some bytes exactly when the decoder reads the tree
    back from them, and no two trees share an encoding.  In particular the
    decoder never fails on bytes the validator has accepted within the limit. *)
Theorem od_codec_exact v raw limit :
  (limit <= MAX_CANONICAL_BYTE_STRING_BYTES)%N →
  (encode v limit = Ok raw ↔ decode raw limit = Ok v) ∧
  (∀ w, encode v limit = Ok raw → encode w limit = Ok raw → v = w) ∧
  ((len raw <= limit)%N → validate_canonical_profile_v1 raw = Ok tt → ∃ w, decode raw limit = Ok w).
Proof.
  intros Hm. split_and!.
  - by apply encode_decode.
  - intros w. by apply encode_inj.
  - intros Hl (i & Hi & <-)%validate_profile_sound. destruct (value_item_surj i) as [w <-].
    exists w. by apply decode_ok.
Qed.

Lemma od_codec_exact_witness :
  encode (VA [vu 1; VB [x61; x62]; VA []]) 64 = Ok [x83; x01; x42; x61; x62; x80] ∧
  decode [x83; x01; x42; x61; x62; x80] 64 = Ok (VA [vu 1; VB [x61; x62]; VA []]).
Proof.
  split; [reflexivity|].
  apply (od_codec_exact (VA [vu 1; VB [x61; x62]; VA []]) [x83; x01; x42; x61; x62; x80] 64);
    [done|reflexivity].
Defined.

(** * Reading back what the accessors accept *)

Lemma uint_of_ok v n : uint_of v = Ok n ↔ v = VU n.
Proof. destruct v; cbn; split; congruence. Qed.

Lemma bytes_of_ok v b : bytes_of v = Ok b ↔ v = VB b.
Proof. destruct v; cbn; split; congruence. Qed.

Lemma list_of_ok v l : list_of v = Ok l ↔ v = VA l.
Proof. destruct v; cbn; split; congruence. Qed.

Lemma fields_ok n v f : fields n v = Ok f ↔ v = VA f ∧ len f = n.
Proof.
  unfold fields. rewrite rbind_ok. setoid_rewrite list_of_ok. setoid_rewrite rbind_unit_ok.
  setoid_rewrite fail_if_ok. setoid_rewrite negb_false_iff. setoid_rewrite N.eqb_eq. split.
  - intros (l & -> & Hl & ->%Ok_inj). done.
  - intros [-> Hl]. by exists f.
Qed.

Lemma fixed_ok n v a : fixed n v = Ok a ↔ v = VB (arr_bytes a).
Proof.
  unfold fixed. rewrite rbind_ok. setoid_rewrite bytes_of_ok. setoid_rewrite ok_or_ok. split.
  - intros (b & -> & Hb). by apply arr_try_from_Some in Hb as ->.
  - intros ->. exists (arr_bytes a). by rewrite arr_try_from_bytes.
Qed.

Lemma option_map_of_ok {T} (f : Value → result OD1Error T) (g : T → Value) v o :
  (∀ v t, f v = Ok t ↔ v = g t) →
  option_map_of f v = Ok o ↔ v = opt (match o with Some t => Some (g t) | None => None end).
Proof.
  intros Hf. unfold option_map_of, option_of. destruct v as [n|b|[|x [|y l]]]; cbn [list_of rbind].
  - split; [done|by destruct o].
  - split; [done|by destruct o].
  - destruct o; cbn; split; congruence.
  - rewrite rbind_ok. setoid_rewrite Hf. split.
    + by intros (t & -> & <-%Ok_inj).
    + destruct o as [t|]; [|done]. intros [= ->]. eauto.
  - split; [done|by destruct o].
Qed.

Lemma optional_id_ok v o : optional_id v = Ok o ↔ v = opt_id o.
Proof.
  unfold optional_id. rewrite (option_map_of_ok _ (fun id : arr 32 => VB id)); [done|].
  intros. apply fixed_ok.
Qed.

Lemma try_map_ok {E T S} (f : T → result E S) (g : S → T) l r :
  (∀ t s, f t = Ok s ↔ t = g s) → try_map f l = Ok r ↔ l = map g r.
Proof.
  intros Hf. revert r; induction l as [|t l IH]; intros r; cbn [try_map].
  - destruct r; cbn; split; congruence.
  - rewrite rbind_ok. setoid_rewrite rbind_ok. setoid_rewrite IH. setoid_rewrite Hf. split.
    + by intros (s & -> & ss & -> & <-%Ok_inj).
    + destruct r as [|s r]; [done|]. intros [= -> ->]. eauto.
Qed.

Lemma text_ok v t : text v = Ok t ↔ v = VB t ∧ utf8_valid t = true.
Proof.
  unfold text. rewrite rbind_ok. setoid_rewrite bytes_of_ok. setoid_rewrite rbind_unit_ok.
  setoid_rewrite fail_if_ok. setoid_rewrite negb_false_iff. split.
  - by intros (b & -> & Hb & ->%Ok_inj).
  - intros [-> Ht]. by exists t.
Qed.

(** ** Automation for the message parsers *)

Lemma len_nat {T} (l : list T) n : len l = n → length l = N.to_nat n.
Proof. unfold len. lia. Qed.

(** The elements of a list whose length is known. *)
Ltac list_elements H :=
  lazymatch type of H with
  | length ?f = O => apply length_zero_iff_nil in H; subst f
  | length ?f = S _ =>
      let x := fresh "x" in
      destruct f as [|x f]; [discriminate H|]; cbn [length] in H; apply eq_add_S in H;
      list_elements H
  end.
Ltac list_of_len H := apply len_nat in H; vm_compute N.to_nat in H; list_elements H.

(** What an equation of a field with its contents says. *)
Ltac subst_field E :=
  cbn [field nth] in E;
  first
    [ lazymatch type of E with ?x = _ => is_var x; subst x end
    | injection E as E; subst
    | idtac ].

(** One step of inverting a parser that succeeded. *)
Ltac parse_step H :=
  lazymatch type of H with
  | rbind (fail_if _ _) _ = Ok _ =>
      let G := fresh "G" in apply rbind_unit_ok in H as [G H]; apply fail_if_ok in G
  | rbind (uint_of _) _ = Ok _ =>
      let x := fresh "n" in let E := fresh "E" in
      apply rbind_ok in H as (x & E & H); apply uint_of_ok in E; subst_field E
  | rbind (bytes_of _) _ = Ok _ =>
      let x := fresh "b" in let E := fresh "E" in
      apply rbind_ok in H as (x & E & H); apply bytes_of_ok in E; subst_field E
  | rbind (text _) _ = Ok _ =>
      let x := fresh "t" in let E := fresh "E" in let E2 := fresh "Ht" in
      apply rbind_ok in H as (x & E & H); apply text_ok in E as [E E2]; subst_field E
  | rbind (fixed _ _) _ = Ok _ =>
      let x := fresh "a" in let E := fresh "E" in
      apply rbind_ok in H as (x & E & H); apply fixed_ok in E; subst_field E
  | rbind (optional_id _) _ = Ok _ =>
      let x := fresh "o" in let E := fresh "E" in
      apply rbind_ok in H as (x & E & H); apply optional_id_ok in E; subst_field E
  | rbind (list_of _) _ = Ok _ =>
      let x := fresh "l" in let E := fresh "E" in
      apply rbind_ok in H as (x & E & H); apply list_of_ok in E; subst_field E
  | rbind (fields _ _) _ = Ok _ =>
      let x := fresh "f" in let E := fresh "E" in let L := fresh "L" in
      apply rbind_ok in H as (x & E & H); apply fields_ok in E as [E L]; subst_field E
  end.

Create Rewrite HintDb parse.
Lemma fixed_arr n (a : arr n) : fixed n (VB (arr_bytes a)) = Ok a.
Proof. by apply fixed_ok. Qed.
Lemma optional_id_opt o : optional_id (opt_id o) = Ok o.
Proof. by apply optional_id_ok. Qed.
Lemma fields_VA n l : len l = n → fields n (VA l) = Ok l.
Proof. intros. by apply fields_ok. Qed.
Lemma text_VB t : utf8_valid t = true → text (VB t) = Ok t.
Proof. intros. by apply text_ok. Qed.
Lemma uint_of_vu n : uint_of (vu n) = Ok (as_u64 n).
Proof. done. Qed.
#[export] Hint Rewrite fixed_arr optional_id_opt uint_of_vu : parse.

(** Running a parser on a tree whose shape is known. *)
Ltac parse_run :=
  repeat first
    [ rewrite fields_VA by reflexivity
    | progress autorewrite with parse
    | progress cbn [rbind field nth uint_of bytes_of list_of] ].
