(* ===== verification/OrderedDialogV1.v ===== *)
(** The messages of the first ordered dialog,
    [crates/kilogram-protocol/src/ordered_dialog_v1.rs]: events with their
    core, signed controls, and the frames of a connection.  The header of an
    encrypted packet is read as in [crates/kilogram-ratchet/src/ordered.rs],
    with the [vodozemac] parser as the interface [Olm].

    Each parser is shown to accept exactly the encodings of well-formed
    messages that verify ([event_parse_exact], [control_exact],
    [frame_parse_exact]). *)

From stdpp Require Import base tactics list numbers strings.
From Stdlib Require Import Strings.Byte.
From S2P Require Import Prelude Crypto Text Identity CanonicalV1 OrderedGuard OrderedGuardFacts OrderedValue.

(** * Constants *)

Definition MAX_WIRE : usize := 1024 * 1024.
Definition MAX_EVENT : usize := 16 * 1024.
Definition MAX_INNER : usize := 8 * 1024.
Definition MAX_OLM : usize := 12 * 1024.
Definition LIFETIME : N := 512.

Definition tag_of (s : string) : bytes := b_str s ++ [x00].
Definition EVENT_SIGN : bytes := tag_of "kg:od1:event-sign".
Definition EVENT_ID : bytes := tag_of "kg:od1:event-id".
Definition CONTROL_SIGN : bytes := tag_of "kg:od1:control-sign".
Definition CONTROL_ID : bytes := tag_of "kg:od1:control-id".
Definition RECEIPT_SIGN : bytes := tag_of "kg:od1:receipt-sign".
Definition RECEIPT_ID : bytes := tag_of "kg:od1:receipt-id".

(** * Hashes and signatures *)

Definition hash `{Blake3} (tag bs : bytes) : Id := blake3 (tag ++ bs).

Definition signing_bytes (tag : bytes) (fields : Value) (limit : usize) : result OD1Error bytes :=
  let? raw := encode fields limit in
  Ok (tag ++ raw).

(** * Packets *)

Record Packet := {
  packet_kind : byte;
  packet_bytes : bytes
}.

Record Header := {
  header_key : Id;
  header_index : u64;
  header_prekey_sid : option bytes;
  header_prekey_keys : option (Id * Id * Id)
}.

(** [vodozemac]'s messages: a normal one, or one that also carries the keys and
    the identifier of the session it starts. *)
Record OlmInner := {
  ratchet_key : Id;
  chain_index : u64
}.

Inductive OlmMessage :=
| Normal (m : OlmInner)
| PreKey (m : OlmInner) (session_id : bytes) (identity_key base_key one_time_key : Id).

(** [OlmMessage::from_parts] of [vodozemac]. *)
Class Olm := {
  olm_from_parts : N → bytes → option OlmMessage
}.

(** [Packet::decode] and [Packet::header]; the callers map all their errors to
    one. *)
Definition packet_decode `{Olm} (p : Packet) : option OlmMessage :=
  if ((1 <? byte_val p.(packet_kind)) || (len p.(packet_bytes) =? 0)
      || (MAX_OLM <? len p.(packet_bytes)))%N
  then None else olm_from_parts (byte_val p.(packet_kind)) p.(packet_bytes).

Definition packet_header `{Olm} (p : Packet) : option Header :=
  message ← packet_decode p;
  let '(inner, sid, keys) :=
    match message with
    | Normal m => (m, None, None)
    | PreKey m sid identity_key base_key one_time_key =>
        (m, Some sid, Some (identity_key, base_key, one_time_key))
    end in
  Some {| header_key := inner.(ratchet_key); header_index := inner.(chain_index);
          header_prekey_sid := sid; header_prekey_keys := keys |}.

(** * Expectations and cores *)

Definition tail_value (t : ClosedTail) : Value :=
  VA [VU t.(tail_g); VB t.(tail_key); VU t.(tail_index); VB t.(tail_last)].

Definition expected_value (e : Expected) : Value :=
  VA [VU e.(exp_g); VU e.(exp_index); opt_id e.(exp_parent);
      opt (match e.(exp_tail) with Some t => Some (tail_value t) | None => None end)].

Definition tail_parse (v : Value) : result OD1Error ClosedTail :=
  let? t := fields 4 v in
  let? g := uint_of (field t 0) in
  let? key := fixed 32 (field t 1) in
  let? index := uint_of (field t 2) in
  let? last := fixed 32 (field t 3) in
  Ok {| tail_g := g; tail_key := key; tail_index := index; tail_last := last |}.

Definition expected_parse (v : Value) : result OD1Error Expected :=
  let? f := fields 4 v in
  let? tail := option_map_of tail_parse (field f 3) in
  let? g := uint_of (field f 0) in
  let? index := uint_of (field f 1) in
  let? parent := optional_id (field f 2) in
  Ok {| exp_g := g; exp_index := index; exp_parent := parent; exp_tail := tail |}.

Record Core := {
  core_c : Id;
  core_d : Id;
  core_e : Id;
  core_sid : bytes;
  core_role : u64;
  core_n : u64;
  core_previous : option Id;
  core_sequence : u64;
  core_kind : u64;
  core_request : arr 16;
  core_parents : list Id;
  core_expected : Expected;
  core_author_auth : Id
}.

Definition core_value (c : Core) : Value :=
  VA [vu 1; VB c.(core_c); VB c.(core_d); VB c.(core_e); VB c.(core_sid);
      VU c.(core_role); VU c.(core_n); opt_id c.(core_previous); VU c.(core_sequence);
      VU c.(core_kind); VB c.(core_request);
      VA (map (fun p : Id => VB p) c.(core_parents));
      expected_value c.(core_expected); VB c.(core_author_auth)].

(** The conditions of an [if a()? || b()? ..] fail one after the other. *)
Definition core_parse (v : Value) : result OD1Error Core :=
  let limits := OD1Invalid "core version/limits" in
  let? f := fields 14 v in
  let? version := uint_of (field f 0) in
  fail_if (negb (version =? 1)%N) limits ;?
  let? role := uint_of (field f 5) in
  fail_if (1 <? role)%N limits ;?
  let? n := uint_of (field f 6) in
  fail_if (LIFETIME <=? n)%N limits ;?
  let? kind := uint_of (field f 9) in
  fail_if (negb ((1 <=? kind) && (kind <=? 3)))%N limits ;?
  let? sid := bytes_of (field f 4) in
  fail_if (negb (len sid =? 43)%N) limits ;?
  fail_if (negb (is_ascii sid)) limits ;?
  let? parents := list_of (field f 11) in
  let? parents := try_map (fixed 32) parents in
  fail_if ((2 <? len parents)%N || windows2_any ord_geb parents) (OD1Invalid "parents") ;?
  let? c := fixed 32 (field f 1) in
  let? d := fixed 32 (field f 2) in
  let? e := fixed 32 (field f 3) in
  let? sid := text (field f 4) in
  let? role := uint_of (field f 5) in
  let? n := uint_of (field f 6) in
  let? previous := optional_id (field f 7) in
  let? sequence := uint_of (field f 8) in
  let? kind := uint_of (field f 9) in
  let? request := fixed 16 (field f 10) in
  let? expected := expected_parse (field f 12) in
  let? author_auth := fixed 32 (field f 13) in
  fail_if (negb (Bool.eqb (n =? 0)%N (negb (kind =? 3)%N))
           || negb (Bool.eqb (n =? 0)%N (is_none previous)))
    (OD1Invalid "genesis/predecessor") ;?
  let? raw := encode v 2048 in
  fail_if (2048 <? len raw)%N (OD1Invalid "core cap") ;?
  Ok {| core_c := c; core_d := d; core_e := e; core_sid := sid; core_role := role; core_n := n;
        core_previous := previous; core_sequence := sequence; core_kind := kind;
        core_request := request; core_parents := parents; core_expected := expected;
        core_author_auth := author_auth |}.

(** * Events *)

Record Event := {
  event_core : Core;
  event_native_kind : u64;
  event_key : Id;
  event_index : u64;
  event_ciphertext : bytes;
  event_signature : bytes
}.

Definition event_unsigned_fields (e : Event) : list Value :=
  [vu 1; core_value e.(event_core);
   VA [VU e.(event_native_kind); VB e.(event_key); VU e.(event_index)];
   VB e.(event_ciphertext)].
Definition event_unsigned (e : Event) : Value := VA (event_unsigned_fields e).

Definition event_raw (e : Event) : result OD1Error bytes :=
  encode (VA (event_unsigned_fields e ++ [VB e.(event_signature)])) MAX_EVENT.

Definition event_id `{Blake3} (e : Event) : result OD1Error Id :=
  let? raw := event_raw e in Ok (hash EVENT_ID raw).

(** [Event::sign] with the device's secret. *)
Definition event_sign `{Ed25519} (e : Event) (secret : Id) : result OD1Error Event :=
  let? message := signing_bytes EVENT_SIGN (event_unsigned e) MAX_EVENT in
  Ok {| event_core := e.(event_core); event_native_kind := e.(event_native_kind);
        event_key := e.(event_key); event_index := e.(event_index);
        event_ciphertext := e.(event_ciphertext);
        event_signature := arr_bytes (sign secret message) |}.

Definition event_parse `{Ed25519, Olm} (raw : bytes) (author : Id) : result OD1Error Event :=
  let? value := decode raw MAX_EVENT in
  let? f := fields 5 value in
  let? h := fields 3 (field f 2) in
  let header := OD1Invalid "event header" in
  let? version := uint_of (field f 0) in
  fail_if (negb (version =? 1)%N) header ;?
  let? native_kind := uint_of (field h 0) in
  fail_if (1 <? native_kind)%N header ;?
  let? ciphertext := bytes_of (field f 3) in
  fail_if (12 * 1024 <? len ciphertext)%N header ;?
  let? core := core_parse (field f 1) in
  let? key := fixed 32 (field h 1) in
  let? index := uint_of (field h 2) in
  let? signature := fixed 64 (field f 4) in
  let event := {| event_core := core; event_native_kind := native_kind; event_key := key;
                  event_index := index; event_ciphertext := ciphertext;
                  event_signature := arr_bytes signature |} in
  let? message := signing_bytes EVENT_SIGN (event_unsigned event) MAX_EVENT in
  map_err OD1Identity (device_verify author message event.(event_signature)) ;?
  let packet := {| packet_kind := as_u8 native_kind; packet_bytes := ciphertext |} in
  let? actual := ok_or (packet_header packet) (OD1Invalid "native header encoding") in
  fail_if (negb (bool_decide (actual.(header_key) = key))
           || negb (u64_eqb actual.(header_index) index)
           || negb (Bool.eqb (core.(core_kind) =? 1)%N (native_kind =? 0)%N)
           || match actual.(header_prekey_sid) with
              | Some s => negb (bool_decide (s = core.(core_sid)))
              | None => false
              end)
    (OD1Invalid "native outer mismatch") ;?
  Ok event.

(** [Event::inner] and [Event::verify_inner]. *)
Definition event_inner (core : Core) (payload : Value) : result OD1Error bytes :=
  encode (VA [vu 1; core_value core; payload]) MAX_INNER.

Definition event_verify_inner (e : Event) (raw : bytes) : result OD1Error Value :=
  let? v := decode raw MAX_INNER in
  let? f := fields 3 v in
  let? version := uint_of (field f 0) in
  fail_if (negb (version =? 1)%N) (OD1Invalid "inner/outer binding") ;?
  fail_if (negb (bool_decide (field f 1 = core_value e.(event_core))))
    (OD1Invalid "inner/outer binding") ;?
  Ok (field f 2).

(** * Controls *)

Definition MAX_CONTROL : usize := 32 * 1024.

Definition control_kind_ok (kind : u64) : bool := ((1 <=? kind) && (kind <=? 3))%N.

Definition signed_control `{Ed25519} (kind : u64) (body : Value) (secret : Id)
  : result OD1Error bytes :=
  fail_if (negb (control_kind_ok kind)) (OD1Invalid "control kind") ;?
  fields 8 body ;?
  let? message := signing_bytes CONTROL_SIGN (VA [vu 1; VU kind; body]) MAX_CONTROL in
  encode (VA [vu 1; VU kind; body; VB (arr_bytes (sign secret message))]) MAX_CONTROL.

Definition control `{Ed25519} (raw : bytes) (kind : u64) (signer : Id) : result OD1Error Value :=
  let? v := decode raw MAX_CONTROL in
  let? f := fields 4 v in
  let error := OD1Invalid "control kind/version" in
  let? version := uint_of (field f 0) in
  fail_if (negb (version =? 1)%N) error ;?
  let? k := uint_of (field f 1) in
  fail_if (negb (u64_eqb k kind)) error ;?
  fail_if (negb (control_kind_ok kind)) error ;?
  fields 8 (field f 2) ;?
  let? message := signing_bytes CONTROL_SIGN (VA (take 3 f)) MAX_CONTROL in
  let? signature := bytes_of (field f 3) in
  map_err OD1Identity (device_verify signer message signature) ;?
  Ok (field f 2).

(** * Frames *)

Record Frame := {
  frame_kind : u64;
  frame_binding : Id;
  frame_request : arr 16;
  frame_body : Value;
  frame_signature : bytes
}.

Definition frame_tag (kind : u64) : bytes :=
  if (kind =? 1)%N then tag_of "kg:od1:auth-hello"
  else if (kind =? 2)%N then tag_of "kg:od1:auth-proof"
  else CONTROL_SIGN.

Definition frame_unsigned_fields (f : Frame) : list Value :=
  [vu 1; VU f.(frame_kind); VB f.(frame_binding); VB f.(frame_request); f.(frame_body)].
Definition frame_unsigned (f : Frame) : Value := VA (frame_unsigned_fields f).

Definition frame_raw (f : Frame) : result OD1Error bytes :=
  encode (VA (frame_unsigned_fields f ++ [VB f.(frame_signature)])) (MAX_WIRE - 4).

Definition frame_signed `{Ed25519} (kind : u64) (binding : Id) (request : arr 16) (body : Value)
    (secret : Id) : result OD1Error Frame :=
  let with_signature s := {| frame_kind := kind; frame_binding := binding; frame_request := request;
                             frame_body := body; frame_signature := s |} in
  let? message := signing_bytes (frame_tag kind) (frame_unsigned (with_signature [])) (MAX_WIRE - 4) in
  let f := with_signature (arr_bytes (sign secret message)) in
  frame_raw f ;?
  Ok f.

Definition frame_arity (kind : u64) : usize :=
  nth (N.to_nat kind) [0; 11; 6; 4; 6; 3; 3; 4; 4; 9; 6; 12; 10; 5; 8; 7; 5; 7]%N 0%N.

Definition frame_parse (raw : bytes) : result OD1Error Frame :=
  let? v := decode raw (MAX_WIRE - 4) in
  let? f := fields 6 v in
  let? kind := uint_of (field f 1) in
  let? version := uint_of (field f 0) in
  fail_if (negb (version =? 1)%N || negb ((1 <=? kind) && (kind <=? 17))%N)
    (OD1Invalid "wire version/kind") ;?
  fields (frame_arity kind) (field f 4) ;?
  let? binding := fixed 32 (field f 2) in
  let? request := fixed 16 (field f 3) in
  let? signature := fixed 64 (field f 5) in
  Ok {| frame_kind := kind; frame_binding := binding; frame_request := request;
        frame_body := field f 4; frame_signature := arr_bytes signature |}.

Definition frame_verify `{Ed25519} (f : Frame) (binding signer : Id) : result OD1Error unit :=
  fail_if (negb (bool_decide (f.(frame_binding) = binding))) (OD1Invalid "TLS channel binding") ;?
  let? message := signing_bytes (frame_tag f.(frame_kind)) (frame_unsigned f) (MAX_WIRE - 4) in
  map_err OD1Identity (device_verify signer message f.(frame_signature)).

(** * Cores *)

Lemma tail_parse_ok v t : tail_parse v = Ok t ↔ v = tail_value t.
Proof.
  unfold tail_parse. split.
  - intros H. parse_step H. list_of_len L. repeat parse_step H. by simplify_eq.
  - intros ->. destruct t. unfold tail_value. by parse_run.
Qed.

Lemma expected_parse_ok v e : expected_parse v = Ok e ↔ v = expected_value e.
Proof.
  unfold expected_parse. split.
  - intros H. parse_step H. list_of_len L. apply rbind_ok in H as (o & E & H).
    apply (option_map_of_ok _ tail_value) in E; [|apply tail_parse_ok]. cbn [field nth] in E. subst.
    repeat parse_step H. by simplify_eq.
  - intros ->. destruct e as [g index parent tail]. unfold expected_value.
    parse_run.
    rewrite (proj2 (option_map_of_ok _ tail_value _ tail (tail_parse_ok))) by done. by parse_run.
Qed.

(** What the parser requires of a core. *)
Record core_ok (c : Core) : Prop := {
  core_role_ok : (core_role c <= 1)%N;
  core_n_ok : (core_n c < LIFETIME)%N;
  core_kind_ok : (1 <= core_kind c <= 3)%N;
  core_sid_len : len (core_sid c) = 43%N;
  core_sid_ascii : is_ascii (core_sid c) = true;
  core_parents_len : (len (core_parents c) <= 2)%N;
  core_parents_sorted : windows2_any ord_geb (core_parents c) = false;
  core_genesis_kind : uint_val (core_n c) = 0%N ↔ uint_val (core_kind c) ≠ 3%N;
  core_genesis_previous : uint_val (core_n c) = 0%N ↔ core_previous c = None
}.

(** ** The size of a tree *)

(** Bounds on the depth, the items and the bytes of a tree. *)
Definition shaped (v : Value) (d c : nat) (m : N) : Prop :=
  v_depth v <= d ∧ item_count (value_item v) <= c ∧ (len (v_enc v) <= m)%N.

Definition shapes (l : list Value) (d c : nat) (m : N) : Prop :=
  Forall (fun v => v_depth v <= d) l ∧ list_sum (map item_count (map value_item l)) <= c ∧
  (len (vs_enc l) <= m)%N.

Lemma shaped_uint n : shaped (VU n) 0 1 9.
Proof. split_and!; [done..|]. apply len_head_bytes. Qed.

Lemma shaped_bytes b k : (len b <= k)%N → shaped (VB b) 0 1 (k + 9).
Proof.
  intros H. split_and!; [done..|]. cbn [value_item enc_item]. rewrite len_app.
  pose proof (len_head_bytes 2 (as_u64 (len b))). lia.
Qed.

Lemma shapes_nil d : shapes [] d 0 0.
Proof. split_and!; [constructor|done..]. Qed.

Lemma shapes_cons v l d d1 c1 c2 m1 m2 :
  shaped v d1 c1 m1 → d1 <= d → shapes l d c2 m2 → shapes (v :: l) d (c1 + c2) (m1 + m2).
Proof.
  intros (H1 & H2 & H3) Hd (H4 & H5 & H6). split_and!; [constructor; [lia|done]| |].
  - cbn [map list_sum fold_right]. fold (list_sum (map item_count (map value_item l))). lia.
  - cbn [map]. rewrite enc_items_cons, len_app. lia.
Qed.

Lemma shaped_array l d c m : shapes l d c m → shaped (VA l) (S d) (S c) (9 + m).
Proof.
  intros (H1 & H2 & H3). split_and!.
  - cbn [value_item]. fold value_item. apply item_depth_array_le, Forall_map. eapply Forall_impl; [exact H1|]. intros v Hv. by apply le_n_S.
  - cbn [value_item item_count]. lia.
  - cbn [value_item]. rewrite enc_item_array, len_app.
    pose proof (len_head_bytes 4 (as_u64 (len (map value_item l)))). lia.
Qed.

Lemma shaped_le v d c m d' c' m' :
  shaped v d c m → d <= d' → c <= c' → (m <= m')%N → shaped v d' c' m'.
Proof. intros (? & ? & ?) ? ? ?. split_and!; lia. Qed.

Lemma shaped_encodable v d c m limit :
  shaped v d c m → d <= 8 → (N.of_nat c <= 8192)%N → (m <= limit)%N → encodable v limit.
Proof. intros (? & ? & ?) ? ? ?. split_and!; lia. Qed.

Lemma shaped_id n (a : arr n) : shaped (VB a) 0 1 (N.of_nat n + 9).
Proof. apply shaped_bytes. by rewrite len_arr. Qed.

Lemma shaped_opt o d c m :
  (∀ v, o = Some v → shaped v d c m) → shaped (opt o) (S d) (S c) (9 + m).
Proof.
  intros H. destruct o as [v|]; cbn [opt].
  - replace (S c) with (S (c + 0)) by lia. replace (9 + m)%N with (9 + (m + 0))%N by lia.
    eapply shaped_array, shapes_cons; eauto using shapes_nil.
  - apply (shaped_le _ 1 1 9); [apply (shaped_array [] 0 0 0), shapes_nil|lia..].
Qed.

Lemma shaped_opt_id o : shaped (opt_id o) 1 2 50.
Proof.
  eapply shaped_le; [apply (shaped_opt _ 0 1 41)|lia..]. intros v.
  destruct o as [a|]; [|done]. intros [= <-]. apply (shaped_id 32).
Qed.

Create HintDb shape.
#[export] Hint Resolve shaped_uint shaped_id shaped_opt_id shapes_nil : shape.
#[export] Hint Extern 1 (_ <= _)%nat => lia : shape.

(** The bounds of an array of depth [S d] from those of its elements. *)
Ltac shape_array d :=
  eapply (shaped_le _ (S d));
    [eapply shaped_array; repeat (eapply shapes_cons; [solve [eauto with shape]|lia|]); apply shapes_nil
    |cbn; lia..].

Lemma shaped_tail t : shaped (tail_value t) 1 5 109.
Proof. shape_array 0. Qed.

Lemma shaped_opt_tail o : 
  shaped (opt (match o with Some t => Some (tail_value t) | None => None end)) 2 6 118.
Proof.
  apply (shaped_opt _ 1 5 109). intros v. destruct o as [t|]; [|done]. intros [= <-]. apply shaped_tail.
Qed.
#[export] Hint Resolve shaped_opt_tail : shape.

Lemma shaped_expected e : shaped (expected_value e) 3 11 195.
Proof. unfold expected_value. shape_array 2. Qed.
#[export] Hint Resolve shaped_expected : shape.

Lemma shapes_ids (l : list Id) :
  shapes (map (fun p : Id => VB p) l) 0 (length l) (N.of_nat (length l) * 41).
Proof.
  induction l as [|a l IH]; [apply shapes_nil|]. cbn [map].
  replace (N.of_nat (length (a :: l)) * 41)%N with (41 + N.of_nat (length l) * 41)%N by (cbn [length]; lia).
  eapply (shapes_cons _ _ 0 0 1); [apply (shaped_id 32)|lia|done].
Qed.

Lemma shaped_ids (l : list Id) :
  (len l <= 2)%N → shaped (VA (map (fun p : Id => VB p) l)) 1 3 91.
Proof.
  unfold len. intros Hl. eapply shaped_le; [apply shaped_array, shapes_ids|lia..].
Qed.
#[export] Hint Resolve shaped_ids : shape.

Lemma shaped_core c : core_ok c → shaped (core_value c) 4 28 800.
Proof.
  intros Hc. pose proof (core_parents_len _ Hc).
  assert (shaped (VB (core_sid c)) 0 1 52) by (apply (shaped_bytes _ 43); by rewrite (core_sid_len _ Hc)).
  unfold core_value. shape_array 3.
Qed.

Lemma core_encodable c : core_ok c → encodable (core_value c) 2048.
Proof. intros Hc. eapply shaped_encodable; [by apply shaped_core|lia..]. Qed.

Lemma vu_eq n k : (k < U64_BOUND)%N → uint_val n = k → VU n = vu k.
Proof. intros Hk <-. unfold vu. by rewrite as_u64_id. Qed.

(** The tests of a parser on a message that satisfies them. *)
Ltac parse_pass :=
  repeat first
    [ progress parse_run
    | lazymatch goal with
      | |- rbind (fail_if _ _) _ = Ok _ =>
          apply rbind_unit_ok; split; [apply fail_if_ok; first [assumption|autorewrite with guard_bool; try done; try lia]|]
      end ].

Lemma eqb_negb_iff (b c : bool) (P Q : Prop) :
  (b = true ↔ P) → (c = true ↔ Q) → Bool.eqb b (negb c) = true ↔ (P ↔ ¬ Q).
Proof. intros <- <-. rewrite Bool.eqb_true_iff. by destruct b, c; intuition. Qed.

Lemma genesis_bool (n kind : u64) (previous : option Id) :
  negb (Bool.eqb (n =? 0)%N (negb (kind =? 3)%N)) || negb (Bool.eqb (n =? 0)%N (is_none previous)) = false ↔
  (uint_val n = 0%N ↔ uint_val kind ≠ 3%N) ∧ (uint_val n = 0%N ↔ previous = None).
Proof.
  rewrite orb_false_iff, !negb_false_iff, (eqb_negb_iff _ _ _ _ (N.eqb_eq _ _) (N.eqb_eq _ _)).
  apply and_iff_compat_l. rewrite Bool.eqb_true_iff, <-N.eqb_eq.
  by destruct previous, (n =? 0)%N; cbn; intuition.
Qed.

Lemma core_parse_ok v c : core_parse v = Ok c ↔ core_ok c ∧ v = core_value c.
Proof.
  unfold core_parse. split.
  - intros H. parse_step H. list_of_len L. do 12 parse_step H.
    apply rbind_ok in H as (parents & E & H).
    apply (try_map_ok _ (fun p : Id => VB p)) in E; [|intros; apply fixed_ok]. subst.
    do 11 parse_step H. apply rbind_ok in H as (ex & E & H). apply expected_parse_ok in E.
    cbn [field nth] in E. subst. do 2 parse_step H. apply rbind_ok in H as (raw & _ & H).
    parse_step H. apply Ok_inj in H as <-. apply genesis_bool in G6 as [].
    autorewrite with guard_bool in *. unfold LIFETIME in *.
    split; [split; cbn; (tauto || lia || done)|]. 
    unfold core_value; cbn. by rewrite (vu_eq n 1).
  - intros [Hc ->]. pose proof (core_encodable _ Hc) as He. destruct Hc. destruct c.
    unfold core_value at 1; cbn -[N.mul field fields core_value is_ascii] in *. parse_pass.
    rewrite (proj2 (try_map_ok _ (fun p : Id => VB p) _ core_parents0 (fixed_ok 32))) by done.
    parse_pass. rewrite text_VB by (by apply ascii_utf8). parse_pass.
    rewrite (proj2 (expected_parse_ok _ _)) by done. 
    pose proof (proj2 (genesis_bool _ _ _) (conj core_genesis_kind0 core_genesis_previous0)). parse_pass.
    rewrite (proj2 (encode_ok _ _ _) (conj He eq_refl)). parse_pass; [apply He|done].
Qed.

(** * Signatures *)

Lemma signing_bytes_ok tag v limit m :
  signing_bytes tag v limit = Ok m ↔ encodable v limit ∧ m = tag ++ v_enc v.
Proof.
  unfold signing_bytes. rewrite rbind_ok. setoid_rewrite encode_ok. split.
  - by intros (raw & [? ->] & <-%Ok_inj).
  - intros [? ->]. eauto.
Qed.

(** A device's signature under a tag over a tree. *)
Definition signed_by `{Ed25519} (device : Id) (tag : bytes) (v : Value) (limit : usize)
    (signature : bytes) : Prop :=
  ∃ message, signing_bytes tag v limit = Ok message ∧ device_verify device message signature = Ok tt.

Lemma signed_by_made `{HE : Ed25519, !Ed25519Laws HE} secret tag v limit message :
  signing_bytes tag v limit = Ok message →
  signed_by (verifying_key_of secret) tag v limit (sign secret message).
Proof.
  intros E. exists message. split; [done|]. unfold device_verify.
  by rewrite derived_key_ok, made_signature_ok, signed_verifies.
Qed.

Lemma verify_step `{Ed25519} {T} device tag v limit signature (k : result OD1Error T) r :
  (let? message := signing_bytes tag v limit in
   map_err OD1Identity (device_verify device message signature) ;? k) = Ok r ↔
  signed_by device tag v limit signature ∧ k = Ok r.
Proof.
  rewrite rbind_ok. setoid_rewrite rbind_unit_ok. setoid_rewrite map_err_ok. unfold signed_by.
  split; [intros (m & ? & ? & ?); eauto|intros [(m & ? & ?) ?]; eauto].
Qed.

(** * Events *)

(** The ciphertext's own header says what the event says of it. *)
Definition header_agrees `{Olm} (e : Event) : Prop :=
  ∃ h, packet_header {| packet_kind := as_u8 e.(event_native_kind);
                        packet_bytes := e.(event_ciphertext) |} = Some h ∧
    h.(header_key) = e.(event_key) ∧ h.(header_index) = e.(event_index) ∧
    (uint_val e.(event_core).(core_kind) = 1%N ↔ uint_val e.(event_native_kind) = 0%N) ∧
    ∀ sid, h.(header_prekey_sid) = Some sid → sid = e.(event_core).(core_sid).

Record event_ok (e : Event) : Prop := {
  event_core_ok : core_ok e.(event_core);
  event_native_ok : (event_native_kind e <= 1)%N;
  event_ciphertext_ok : (len (event_ciphertext e) <= 12 * 1024)%N;
  event_signature_ok : len (event_signature e) = 64%N
}.

Lemma bytes_arr n b : len b = N.of_nat n → ∃ a : arr n, b = arr_bytes a.
Proof.
  intros Hl%len_nat. rewrite Nat2N.id in Hl. destruct (arr_try_from_length n b Hl) as [a Ha].
  exists a. by apply arr_try_from_Some in Ha.
Qed.

Lemma header_step `{Olm} e (r : Event) :
  (let? actual := ok_or (packet_header {| packet_kind := as_u8 e.(event_native_kind);
                                          packet_bytes := e.(event_ciphertext) |})
                    (OD1Invalid "native header encoding") in
   fail_if (negb (bool_decide (actual.(header_key) = e.(event_key)))
            || negb (u64_eqb actual.(header_index) e.(event_index))
            || negb (Bool.eqb (e.(event_core).(core_kind) =? 1)%N (e.(event_native_kind) =? 0)%N)
            || match actual.(header_prekey_sid) with
               | Some s => negb (bool_decide (s = e.(event_core).(core_sid)))
               | None => false
               end)
     (OD1Invalid "native outer mismatch") ;?
   Ok e) = Ok r ↔ header_agrees e ∧ e = r.
Proof.
  unfold header_agrees. rewrite rbind_ok. setoid_rewrite ok_or_ok. setoid_rewrite rbind_unit_ok.
  setoid_rewrite fail_if_ok. split.
  - intros (h & Hh & G & <-%Ok_inj). split; [|done]. exists h. autorewrite with guard_bool in G.
    destruct G as [[[G1 G2] G3] G4]. split_and!; [done..| |].
    + by rewrite <-!N.eqb_eq, G3.
    + intros sid Hsid. rewrite Hsid in G4. by autorewrite with guard_bool in G4.
  - intros [(h & Hh & H1 & H2 & H3 & H4) <-]. exists h. split; [done|]. split; [|done].
    autorewrite with guard_bool. split_and!; [done..| |].
    + rewrite <-!N.eqb_eq in H3. by destruct (_ =? 1)%N, (_ =? 0)%N; intuition.
    + destruct (header_prekey_sid h) as [sid|]; [|done]. autorewrite with guard_bool. by apply H4.
Qed.

Lemma event_parse_ok `{Ed25519, Olm} raw author e :
  event_parse raw author = Ok e ↔
  event_ok e ∧ event_raw e = Ok raw ∧
  signed_by author EVENT_SIGN (event_unsigned e) MAX_EVENT (event_signature e) ∧ header_agrees e.
Proof.
  unfold event_parse, event_raw. rewrite rbind_ok.
  setoid_rewrite <-(fun v => encode_decode v raw MAX_EVENT ltac:(done)). split.
  - intros (v & Hv & P). parse_step P. list_of_len L. parse_step P. list_of_len L. do 6 parse_step P.
    apply rbind_ok in P as (core & E & P). apply core_parse_ok in E as [Hc E]. cbn [field nth] in E; subst.
    do 3 parse_step P. apply verify_step in P as [Hs P].
    apply (header_step (Build_Event _ _ _ _ _ _)) in P as [Hh <-].
    autorewrite with guard_bool in *. split_and!; [|by rewrite <-Hv, (vu_eq n 1)|done..].
    split; cbn; [done..|]. by rewrite len_arr.
  - intros ([Hc Hn Hl Hsig] & He & Hs & Hh). eexists. split; [exact He|].
    apply (bytes_arr 64) in Hsig as [sig Hsig]. destruct e.
    cbn [event_core event_native_kind event_ciphertext event_signature] in *; subst.
    unfold event_unsigned_fields. cbn [app event_core event_native_kind event_key event_index event_ciphertext].
    parse_pass. rewrite (proj2 (core_parse_ok _ _)) by done. parse_pass.
    apply verify_step. split; [done|].
    by apply (header_step (Build_Event _ _ _ _ _ _)).
Qed.

Lemma tail_value_inj t t' : tail_value t = tail_value t' → t = t'.
Proof. intros E. apply tail_parse_ok in E. rewrite (proj2 (tail_parse_ok _ t) eq_refl) in E. by apply Ok_inj in E. Qed.

Lemma expected_value_inj e e' : expected_value e = expected_value e' → e = e'.
Proof.
  intros E. apply expected_parse_ok in E. rewrite (proj2 (expected_parse_ok _ e) eq_refl) in E.
  by apply Ok_inj in E.
Qed.

Lemma opt_id_inj o o' : opt_id o = opt_id o' → o = o'.
Proof. intros E%optional_id_ok. rewrite optional_id_opt in E. by apply Ok_inj in E. Qed.

Lemma ids_inj (l l' : list Id) : map (fun p : Id => VB p) l = map (fun p : Id => VB p) l' → l = l'.
Proof.
  revert l'; induction l as [|a l IH]; intros [|a' l'] E; try done.
  cbn [map] in E. injection E as E1%arr_eq E2. f_equal; auto.
Qed.

Lemma core_value_inj c c' : core_value c = core_value c' → c = c'.
Proof.
  unfold core_value. destruct c, c'; cbn [core_c core_d core_e core_sid core_role core_n core_previous
    core_sequence core_kind core_request core_parents core_expected core_author_auth].
  remember (expected_value core_expected0) as x eqn:Hx.
  remember (expected_value core_expected1) as y eqn:Hy. intros E.
  injection E as H1 H2 H3 H4 H5 H6 H7 H8 H9 H10 H11 H12 H13. subst x y.
  f_equal; auto using arr_eq, opt_id_inj, ids_inj, expected_value_inj.
Qed.

(** * Inner payloads *)

Lemma event_verify_inner_ok e raw payload :
  event_verify_inner e raw = Ok payload ↔ event_inner e.(event_core) payload = Ok raw.
Proof.
  unfold event_verify_inner, event_inner. rewrite rbind_ok.
  setoid_rewrite <-(fun v => encode_decode v raw MAX_INNER ltac:(done)). split.
  - intros (v & Hv & P). parse_step P. list_of_len L. do 3 parse_step P. autorewrite with guard_bool in *.
    cbn [field nth] in *. apply Ok_inj in P as <-. by subst; rewrite <-Hv, (vu_eq n 1).
  - intros E. eexists. split; [exact E|]. by parse_pass.
Qed.

(** * Controls *)

Definition control_value (kind : u64) (body : Value) (signature : bytes) : Value :=
  VA [vu 1; VU kind; body; VB signature].
Definition control_unsigned (kind : u64) (body : Value) : Value := VA [vu 1; VU kind; body].

Definition has_arity (n : N) (v : Value) : Prop := ∃ f, v = VA f ∧ len f = n.

Lemma has_arity_ok n v : has_arity n v ↔ ∃ f, fields n v = Ok f.
Proof. unfold has_arity. by setoid_rewrite fields_ok. Qed.

Lemma control_kind_ok_le kind : control_kind_ok kind = true ↔ (1 <= kind <= 3)%N.
Proof. unfold control_kind_ok. autorewrite with guard_bool. done. Qed.

Lemma control_ok `{Ed25519} raw kind signer body :
  control raw kind signer = Ok body ↔
  (1 <= kind <= 3)%N ∧ has_arity 8 body ∧ ∃ signature,
    encode (control_value kind body signature) MAX_CONTROL = Ok raw ∧
    signed_by signer CONTROL_SIGN (control_unsigned kind body) MAX_CONTROL signature.
Proof.
  unfold control. rewrite rbind_ok, has_arity_ok.
  setoid_rewrite <-(fun v => encode_decode v raw MAX_CONTROL ltac:(done)). split.
  - intros (v & Hv & P). parse_step P. list_of_len L. do 5 parse_step P.
    apply rbind_ok in P as (f & Hf & P). cbn [field nth] in *.
    apply rbind_ok in P as (m & Hm & P). parse_step P.
    apply rbind_unit_ok in P as [Hd%map_err_ok P%Ok_inj]. autorewrite with guard_bool in *.
    rewrite control_kind_ok_le in *. subst. rewrite (vu_eq n 1) in * by done. split_and!; eauto.
    + lia.
    + lia.
    + eexists. split; [exact Hv|]. by exists m.
  - intros (Hk & [f Hf] & sig & He & m & Hm & Hd). exists (control_value kind body sig). split; [exact He|].
    unfold control_value. parse_pass.
    { by apply control_kind_ok_le. }
    rewrite Hf. cbn [rbind take]. change (VA [vu 1; VU kind; body]) with (control_unsigned kind body).
    rewrite Hm. parse_run. by rewrite Hd.
Qed.

(** * Frames *)

Record frame_ok (f : Frame) : Prop := {
  frame_kind_ok : (1 <= frame_kind f <= 17)%N;
  frame_body_ok : has_arity (frame_arity (frame_kind f)) (frame_body f);
  frame_signature_ok : len (frame_signature f) = 64%N
}.

Lemma frame_parse_ok raw f : frame_parse raw = Ok f ↔ frame_ok f ∧ frame_raw f = Ok raw.
Proof.
  unfold frame_parse, frame_raw. rewrite rbind_ok.
  setoid_rewrite <-(fun v => encode_decode v raw (MAX_WIRE - 4) ltac:(done)). split.
  - intros (v & Hv & P). parse_step P. list_of_len L. do 3 parse_step P.
    apply rbind_ok in P as (g & Hg & P). cbn [field nth] in *. do 3 parse_step P.
    apply Ok_inj in P as <-. autorewrite with guard_bool in *. destruct G as [G [G1 G2]].
    rewrite (vu_eq _ 1) in Hv by done. split; [|done].
    split; cbn [frame_kind frame_body frame_signature]; [done| |by rewrite len_arr].
    apply has_arity_ok. eauto.
  - intros [[Hk Hb Hs] He]. eexists. split; [exact He|]. apply has_arity_ok in Hb as [g Hg].
    apply (bytes_arr 64) in Hs as [sig Hs]. destruct f.
    cbn [frame_kind frame_body frame_signature] in *; subst.
    unfold frame_unsigned_fields. cbn [app frame_kind frame_binding frame_request frame_body].
    parse_pass. rewrite Hg. by parse_pass.
Qed.

Lemma frame_verify_ok `{Ed25519} f binding signer :
  frame_verify f binding signer = Ok tt ↔
  f.(frame_binding) = binding ∧
  signed_by signer (frame_tag f.(frame_kind)) (frame_unsigned f) (MAX_WIRE - 4) f.(frame_signature).
Proof.
  unfold frame_verify. rewrite rbind_unit_ok, fail_if_ok. autorewrite with guard_bool.
  apply and_iff_compat_l. unfold signed_by. rewrite rbind_ok. by setoid_rewrite map_err_ok.
Qed.

Lemma frame_signed_ok `{HE : Ed25519} kind binding request body secret f :
  frame_signed kind binding request body secret = Ok f ↔
  ∃ message,
    signing_bytes (frame_tag kind) (VA [vu 1; VU kind; VB binding; VB request; body]) (MAX_WIRE - 4) = Ok message ∧
    f = {| frame_kind := kind; frame_binding := binding; frame_request := request; frame_body := body;
           frame_signature := arr_bytes (sign secret message) |} ∧
    ∃ raw, frame_raw f = Ok raw.
Proof.
  unfold frame_signed. rewrite rbind_ok. split.
  - intros (m & Hm & (raw & Hr & <-%Ok_inj)%rbind_ok). exists m. split_and!; [exact Hm|done|by exists raw].
  - intros (m & Hm & -> & raw & Hr). exists m. split; [exact Hm|]. apply rbind_ok. by exists raw.
Qed.

(** * What is signed *)

(** The statements a device signs in this protocol. *)
Inductive Statement :=
| EventStatement (event : Event)
| ControlStatement (kind : u64) (body : Value)
| FrameStatement (frame : Frame).

Definition statement_tag (s : Statement) : bytes :=
  match s with
  | EventStatement _ => EVENT_SIGN
  | ControlStatement _ _ => CONTROL_SIGN
  | FrameStatement f => frame_tag f.(frame_kind)
  end.

Definition statement_value (s : Statement) : Value :=
  match s with
  | EventStatement e => event_unsigned e
  | ControlStatement kind body => control_unsigned kind body
  | FrameStatement f => frame_unsigned f
  end.

Definition statement_limit (s : Statement) : usize :=
  match s with
  | EventStatement _ => MAX_EVENT
  | ControlStatement _ _ => MAX_CONTROL
  | FrameStatement _ => MAX_WIRE - 4
  end.

(** The statement without the signature field of its record. *)
Definition erase_signature (s : Statement) : Statement :=
  match s with
  | EventStatement e =>
      EventStatement {| event_core := e.(event_core); event_native_kind := e.(event_native_kind);
        event_key := e.(event_key); event_index := e.(event_index);
        event_ciphertext := e.(event_ciphertext); event_signature := [] |}
  | ControlStatement kind body => ControlStatement kind body
  | FrameStatement f =>
      FrameStatement {| frame_kind := f.(frame_kind); frame_binding := f.(frame_binding);
        frame_request := f.(frame_request); frame_body := f.(frame_body); frame_signature := [] |}
  end.

(** No tag is a prefix of another: each ends at its first zero byte. *)
Definition tag_ok (t : bytes) : Prop := ∃ b, t = b ++ [x00] ∧ x00 ∉ b.

Lemma tag_ok_split t t' m m' : tag_ok t → tag_ok t' → t ++ m = t' ++ m' → t = t' ∧ m = m'.
Proof.
  intros (b & -> & Hb) (b' & -> & Hb') E. rewrite <-!app_assoc in E. cbn [app] in E.
  revert b' Hb' E; induction b as [|x b IH]; intros [|x' b'] Hb' E; cbn [app] in E.
  - by injection E as ->.
  - injection E as <- _. by destruct Hb'; constructor.
  - injection E as -> _. by destruct Hb; constructor.
  - injection E as <- E. rewrite not_elem_of_cons in Hb, Hb'.
    apply IH in E as [E ->]; [|tauto..]. by apply app_inj_tail in E as [-> _].
Qed.

Lemma tag_of_ok s : forallb (fun b => negb (bool_decide (b = x00))) (b_str s) = true → tag_ok (tag_of s).
Proof.
  intros H. exists (b_str s). split; [done|]. intros Hin%list_elem_of_In.
  rewrite forallb_forall in H. apply H in Hin. by rewrite bool_decide_true in Hin.
Qed.

Lemma statement_tag_ok s : tag_ok (statement_tag s).
Proof.
  destruct s as [e|kind body|f]; cbn [statement_tag]; [by apply tag_of_ok..|].
  unfold frame_tag. repeat case_match; by apply tag_of_ok.
Qed.

Lemma statement_value_inj s s' :
  statement_tag s = statement_tag s' → statement_value s = statement_value s' →
  erase_signature s = erase_signature s'.
Proof.
  destruct s as [e|kind body|f], s' as [e'|kind' body'|f']; cbn [statement_tag statement_value];
    intros Ht Hv; unfold event_unsigned, event_unsigned_fields, control_unsigned, frame_unsigned,
      frame_unsigned_fields in Hv; try discriminate Hv; cbn [erase_signature].
  - remember (core_value (event_core e)) as x eqn:Hx. remember (core_value (event_core e')) as y eqn:Hy.
    injection Hv as H1 H2 H3 H4 H5. subst x. f_equal. f_equal; auto using arr_eq.
    apply core_value_inj. by subst y.
  - by injection Hv as -> ->.
  - injection Hv as H1 H2 H3 H4. do 2 f_equal; auto using arr_eq.
Qed.

Lemma statement_limit_le s : (statement_limit s <= MAX_CANONICAL_BYTE_STRING_BYTES)%N.
Proof. by destruct s. Qed.

Lemma statement_separation s s' m :
  signing_bytes (statement_tag s) (statement_value s) (statement_limit s) = Ok m →
  signing_bytes (statement_tag s') (statement_value s') (statement_limit s') = Ok m →
  erase_signature s = erase_signature s'.
Proof.
  intros [H1 ->]%signing_bytes_ok [H2 E]%signing_bytes_ok.
  apply tag_ok_split in E as [Ht Hv]; [|apply statement_tag_ok..].
  apply statement_value_inj; [done|].
  eapply encode_inj; [apply (statement_limit_le s)|apply (statement_limit_le s')|..];
    apply encode_ok; split; try done; by rewrite Hv.
Qed.

(** * Theorems *)

(** C27: Parsing an event accepts exactly the canonical encodings of well-formed
    events: a core within its limits, a packet of a known kind, a signature of
    the author over the unsigned event, and a ciphertext whose own header has
    the ratchet key, index and session the event states. *)
Theorem od1_event_exact `{Ed25519, Olm} raw author e :
  event_parse raw author = Ok e ↔
  event_ok e ∧ event_raw e = Ok raw ∧
  signed_by author EVENT_SIGN (event_unsigned e) MAX_EVENT (event_signature e) ∧ header_agrees e.
Proof. apply event_parse_ok. Qed.

Lemma event_sign_ok `{Ed25519} e secret e' :
  event_sign e secret = Ok e' ↔
  ∃ m, signing_bytes EVENT_SIGN (event_unsigned e) MAX_EVENT = Ok m ∧
    e' = {| event_core := e.(event_core); event_native_kind := e.(event_native_kind);
            event_key := e.(event_key); event_index := e.(event_index);
            event_ciphertext := e.(event_ciphertext); event_signature := arr_bytes (sign secret m) |}.
Proof.
  unfold event_sign. rewrite rbind_ok. split; intros (m & Hm & E); exists m; (split; [done|]).
  - by apply Ok_inj in E.
  - by subst.
Qed.

(** An event before it is signed. *)
Lemma shaped_event e : event_ok e → shaped (event_unsigned e) 5 35 13184.
Proof.
  intros [Hc Hn Hl Hs]. pose proof (shaped_core _ Hc).
  assert (shaped (VB (event_ciphertext e)) 0 1 12297) by (by apply (shaped_bytes _ 12288)).
  assert (shaped (VA [VU (event_native_kind e); VB (event_key e); VU (event_index e)]) 1 4 68)
    by (shape_array 0).
  unfold event_unsigned, event_unsigned_fields. shape_array 4.
Qed.

Lemma shaped_event_raw e :
  event_ok e → shaped (VA (event_unsigned_fields e ++ [VB (event_signature e)])) 5 36 13257.
Proof.
  intros [Hc Hn Hl Hs]. pose proof (shaped_core _ Hc).
  assert (shaped (VB (event_ciphertext e)) 0 1 12297) by (by apply (shaped_bytes _ 12288)).
  assert (shaped (VB (event_signature e)) 0 1 73) by (apply (shaped_bytes _ 64); by rewrite Hs).
  assert (shaped (VA [VU (event_native_kind e); VB (event_key e); VU (event_index e)]) 1 4 68)
    by (shape_array 0).
  unfold event_unsigned_fields. cbn [app]. shape_array 4.
Qed.

(** Signing never fails on an event within the limits and what it signs is
    accepted: an event that is well formed but for its signature, with a
    ciphertext whose header agrees with it, can be signed and encoded, and the
    bytes, at most 13257 and so below the 16 KiB cap of an event, parse under
    the signer's device to the signed event. *)
Theorem od1_event_signed `{HE : Ed25519, !Ed25519Laws HE, Olm} e secret :
  core_ok e.(event_core) → (event_native_kind e <= 1)%N → (len (event_ciphertext e) <= 12 * 1024)%N →
  header_agrees e →
  ∃ e' raw, event_sign e secret = Ok e' ∧ event_raw e' = Ok raw ∧ (len raw <= 13257)%N ∧
    event_parse raw (verifying_key_of secret) = Ok e'.
Proof.
  intros Hc Hn Hl Hh.
  set (signed m := {| event_core := e.(event_core); event_native_kind := e.(event_native_kind);
    event_key := e.(event_key); event_index := e.(event_index); event_ciphertext := e.(event_ciphertext);
    event_signature := arr_bytes (sign secret m) |}).
  assert (Hok : ∀ m, event_ok (signed m)) by (intros m; split; cbn; [done..|by rewrite len_arr]).
  assert (Hm : ∃ m, signing_bytes EVENT_SIGN (event_unsigned e) MAX_EVENT = Ok m).
  { eexists. apply signing_bytes_ok. split; [|done].
    eapply shaped_encodable; [exact (shaped_event _ (Hok []))|lia|lia|done]. }
  destruct Hm as [m Hm]. pose proof (shaped_event_raw _ (Hok m)) as Hs.
  assert (Hr : event_raw (signed m) = Ok (v_enc (VA (event_unsigned_fields (signed m) ++ [VB (event_signature (signed m))])))).
  { apply encode_ok. split; [|done]. eapply shaped_encodable; [exact Hs|lia|lia|done]. }
  exists (signed m). eexists. split_and!; [|exact Hr|apply Hs|].
  - apply event_sign_ok. by exists m.
  - apply event_parse_ok. split_and!; [done..| |done].
    by apply (signed_by_made secret EVENT_SIGN (event_unsigned e)).
Qed.

(** The plaintext of an event is bound to the event that carries it: the
    check accepts exactly what [event_inner] builds from the event's own core,
    so plaintext accepted under two events shows they have the same core and
    gives the same payload. *)
Theorem od1_inner_binding e raw payload :
  (event_verify_inner e raw = Ok payload ↔ event_inner e.(event_core) payload = Ok raw) ∧
  (∀ e' payload', event_verify_inner e raw = Ok payload → event_verify_inner e' raw = Ok payload' →
     e.(event_core) = e'.(event_core) ∧ payload = payload').
Proof.
  split; [apply event_verify_inner_ok|]. intros e' payload' H1%event_verify_inner_ok H2%event_verify_inner_ok.
  pose proof (encode_inj _ _ MAX_INNER MAX_INNER raw ltac:(done) ltac:(done) H1 H2) as E.
  remember (core_value (event_core e)) as x eqn:Hx. remember (core_value (event_core e')) as y eqn:Hy.
  injection E as E1 E2. split; [|done]. apply core_value_inj. by subst.
Qed.

(** A control is accepted under a kind and a signer exactly when it is the
    canonical encoding of a body of eight fields with the signer's signature
    over that kind and body; in particular every control that
    [signed_control] makes is accepted under its own kind and signer. *)
Theorem od1_control_exact `{HE : Ed25519, HL : !Ed25519Laws HE} raw kind signer body :
  (control raw kind signer = Ok body ↔
   (1 <= kind <= 3)%N ∧ has_arity 8 body ∧ ∃ signature,
     encode (control_value kind body signature) MAX_CONTROL = Ok raw ∧
     signed_by signer CONTROL_SIGN (control_unsigned kind body) MAX_CONTROL signature) ∧
  (∀ secret, signed_control kind body secret = Ok raw →
     control raw kind (verifying_key_of secret) = Ok body).
Proof.
  split; [apply control_ok|]. intros secret H. unfold signed_control in H.
  apply rbind_unit_ok in H as [Hk%fail_if_ok H]. apply rbind_ok in H as (f & Hf & H).
  apply rbind_ok in H as (m & Hm & H). autorewrite with guard_bool in Hk.
  apply control_kind_ok_le in Hk. apply control_ok. split_and!; [lia..| |].
  - apply has_arity_ok. eauto.
  - exists (arr_bytes (sign secret m)). split; [done|]. by apply signed_by_made.
Qed.

(** A frame is read from exactly the canonical encodings of well-formed
    frames (a known kind, a body of that kind's arity, a signature of 64
    bytes), and it verifies for exactly one channel binding: its own.  A frame
    made by [frame_signed] for a channel whose body has the right arity
    encodes, reads back and verifies on that channel, and on no other. *)
Theorem od1_frame_exact `{HE : Ed25519, HL : !Ed25519Laws HE} raw f :
  (frame_parse raw = Ok f ↔ frame_ok f ∧ frame_raw f = Ok raw) ∧
  (∀ binding signer, frame_verify f binding signer = Ok tt ↔
     f.(frame_binding) = binding ∧
     signed_by signer (frame_tag f.(frame_kind)) (frame_unsigned f) (MAX_WIRE - 4) f.(frame_signature)) ∧
  (∀ kind binding request body secret, frame_signed kind binding request body secret = Ok f →
     (1 <= kind <= 17)%N → has_arity (frame_arity kind) body →
     (∃ sent, frame_raw f = Ok sent ∧ frame_parse sent = Ok f) ∧
     frame_verify f binding (verifying_key_of secret) = Ok tt ∧
     ∀ other, other ≠ binding → frame_verify f other (verifying_key_of secret) ≠ Ok tt).
Proof.
  split_and!; [apply frame_parse_ok|intros; apply frame_verify_ok|].
  intros kind binding request body secret (m & Hm & -> & sent & Hs)%frame_signed_ok Hk Ha. split_and!.
  - exists sent. split; [done|]. apply frame_parse_ok. split; [|done]. split; cbn; [done..|].
    by rewrite len_arr.
  - apply frame_verify_ok. split; [done|]. by apply signed_by_made.
  - intros other Ho [E _]%frame_verify_ok. by apply Ho.
Qed.

(** A signature says one thing only: the bytes signed for an event, a
    control or a frame determine which of them it is and all its contents, so
    a signature made for one can never be presented as the signature of
    another, although controls and frames share a domain tag. *)
Theorem od1_signatures_separate s s' m :
  signing_bytes (statement_tag s) (statement_value s) (statement_limit s) = Ok m →
  signing_bytes (statement_tag s') (statement_value s') (statement_limit s') = Ok m →
  erase_signature s = erase_signature s'.
Proof. intros H1 H2. by eapply statement_separation. Qed.

(** * Examples *)

Module EventExample.

(** A parser of packets whose ratchet key is their first 32 bytes and whose
    index is their last byte. *)
#[local] Instance toy_olm : Olm := {|
  olm_from_parts := fun _ bs =>
    Some (Normal {| ratchet_key := arr_of 32 (take 32 bs); chain_index := as_u64 (byte_val (List.last bs x00)) |})
|}.
#[local] Existing Instance Toy.blake3_instance.
#[local] Existing Instance Toy.ed25519_instance.
#[local] Existing Instance Toy.ed25519_laws.

Definition an_id (b : byte) : Id := arr_repeat 32 b.

Definition core : Core := {|
  core_c := an_id x01; core_d := an_id x02; core_e := an_id x03; core_sid := repeat x41 43;
  core_role := as_u64 1; core_n := as_u64 5; core_previous := Some (an_id x04);
  core_sequence := as_u64 9; core_kind := as_u64 3; core_request := arr_repeat 16 x05;
  core_parents := [an_id x06; an_id x07];
  core_expected := {| exp_g := as_u64 1; exp_index := as_u64 2; exp_parent := Some (an_id x08);
    exp_tail := Some {| tail_g := as_u64 0; tail_key := an_id x09; tail_index := as_u64 3;
                        tail_last := an_id x0a |} |};
  core_author_auth := an_id x0b
|}.

Definition event : Event := {|
  event_core := core; event_native_kind := as_u64 1; event_key := an_id x0c; event_index := as_u64 2;
  event_ciphertext := repeat x0c 32 ++ [x02]; event_signature := []
|}.

Lemma core_fits : core_ok core.
Proof. by split; vm_compute. Qed.

Lemma event_header : header_agrees event.
Proof.
  eexists. split; [reflexivity|]. split_and!; [by apply arr_eq; vm_compute|reflexivity|by vm_compute|done].
Qed.

Lemma od1_event_signed_witness :
  ∃ e' raw, event_sign event (an_id x20) = Ok e' ∧ event_raw e' = Ok raw ∧ (len raw <= 13257)%N ∧
    event_parse raw (verifying_key_of (an_id x20)) = Ok e'.
Proof. apply od1_event_signed; [exact core_fits|by vm_compute|by vm_compute|exact event_header]. Defined.

Definition body : Value :=
  VA [VB (an_id x01); VB (an_id x02); VB (repeat x41 43); VB (an_id x03); VB (an_id x04); vu 0; vu 1; vu 1].

Definition control_raw : bytes :=
  match signed_control (as_u64 3) body (an_id x07) with Ok raw => raw | Err _ => [] end.

Lemma od1_control_exact_witness :
  signed_control (as_u64 3) body (an_id x07) = Ok control_raw ∧
  control control_raw (as_u64 3) (verifying_key_of (an_id x07)) = Ok body.
Proof.
  assert (signed_control (as_u64 3) body (an_id x07) = Ok control_raw) as E by (by vm_compute).
  split; [exact E|]. by apply (od1_control_exact control_raw (as_u64 3) (an_id x07) body).
Defined.

Definition frame_body3 : Value := VA [VB (an_id x03); VB (an_id x04); vu 1; vu 1].

Definition frame : Frame :=
  match frame_signed (as_u64 3) (an_id x01) (arr_repeat 16 x02) frame_body3 (an_id x08) with
  | Ok f => f
  | Err _ => {| frame_kind := as_u64 0; frame_binding := an_id x00; frame_request := arr_repeat 16 x00;
                frame_body := VA []; frame_signature := [] |}
  end.

Lemma od1_frame_exact_witness :
  (∃ sent, frame_raw frame = Ok sent ∧ frame_parse sent = Ok frame) ∧
  frame_verify frame (an_id x01) (verifying_key_of (an_id x08)) = Ok tt ∧
  frame_verify frame (an_id x05) (verifying_key_of (an_id x08)) ≠ Ok tt.
Proof.
  destruct (od1_frame_exact [] frame) as (_ & _ & H).
  destruct (H (as_u64 3) (an_id x01) (arr_repeat 16 x02) frame_body3 (an_id x08)) as (H1 & H2 & H3);
    [by vm_compute|by vm_compute|by exists [VB (an_id x03); VB (an_id x04); vu 1; vu 1]|].
  split; [exact H1|]. split; [exact H2|]. apply H3. by vm_compute.
Defined.

(** The same event with another signature field. *)
Definition event_resigned : Event := {|
  event_core := core; event_native_kind := as_u64 1; event_key := an_id x0c; event_index := as_u64 2;
  event_ciphertext := repeat x0c 32 ++ [x02]; event_signature := repeat x55 64
|}.

Lemma od1_signatures_separate_witness :
  ∃ m, signing_bytes EVENT_SIGN (event_unsigned event) MAX_EVENT = Ok m ∧
    signing_bytes EVENT_SIGN (event_unsigned event_resigned) MAX_EVENT = Ok m ∧
    erase_signature (EventStatement event) = erase_signature (EventStatement event_resigned).
Proof.
  assert (∃ m, signing_bytes EVENT_SIGN (event_unsigned event) MAX_EVENT = Ok m) as [m Hm]
    by (by eexists; vm_compute).
  exists m. split; [exact Hm|]. split; [exact Hm|].
  exact (od1_signatures_separate (EventStatement event) (EventStatement event_resigned) m Hm Hm).
Defined.

End EventExample.
