(* ===== verification/Rollout.v ===== *)
(** The rollout authority of an installation: [kilogram-rollout/src/lib.rs].

    A release policy is signed by the release authority and names its
    predecessor; an installation keeps the newest one, decides from a private
    seed whether it belongs to the policy's cohort, and counts health events
    per policy.  The controller turns an evaluation and the health counters
    into a proposal for the device, which it may never carry out itself.

    The store is a [redb] database of two tables.  An operation returns its
    outcome with the database after it; an error drops the write transaction.
    The file checks of [open] and of the inspection, and failures of the
    storage device, are not modelled. *)

From stdpp Require Import base tactics list numbers strings gmap.
From Stdlib Require Import Strings.Byte.
From S2P Require Import Prelude Crypto Postcard Redb.

#[local] Set Primitive Projections.

(** * Constants *)

Definition DATABASE_SCHEMA_KEY : bytes := b_str "schema-version".
Definition RELEASE_AUTHORITY_KEY : bytes := b_str "release-authority".
Definition INSTALLATION_SEED_KEY : bytes := b_str "installation-cohort-seed".
Definition POLICY_HEAD_KEY : bytes := b_str "signed-release-policy-head".
Definition DATABASE_SCHEMA_VERSION : byte := x01.
Definition RELEASE_POLICY_VERSION : byte := x01.
Definition RELEASE_POLICY_SIGNATURE_DOMAIN : bytes := b_str "kilogram:rollout:release-policy:v1" ++ [x00].
Definition RELEASE_POLICY_ID_DOMAIN : bytes := b_str "kilogram:rollout:release-policy-id:v1" ++ [x00].
Definition HEALTH_RECORD_VERSION : byte := x01.
Definition HEALTH_RECORD_MAC_DOMAIN : bytes := b_str "kilogram:rollout:health-record:v1" ++ [x00].
Definition COHORT_BUCKETS : N := 10000.
Definition MAX_DURABLE_HEALTH_AGGREGATES : N := 16.
Definition MAX_SIGNED_RELEASE_POLICY_BYTES : usize := 512.
Definition MAX_DURABLE_HEALTH_RECORD_BYTES : usize := 2048.

(** [as u16]. *)
Definition as_u16 (n : N) : u16 :=
  match Sumbool.sumbool_of_bool (n mod U16_BOUND <? U16_BOUND)%N with
  | left H => mk_uint (n mod U16_BOUND) H
  | right _ => @mk_uint U16_BOUND 0 eq_refl
  end.

(** * Errors *)

(** The payloads that third-party crates provide are dropped. *)
Inductive RolloutError :=
| Io
| DatabaseFailure
| UnsafeLocalDirectory
| UnsafeDatabaseFile
| DatabaseSchema
| ReleaseAuthorityMismatch
| InvalidReleaseAuthority
| SecureRandom
| MissingInstallationSeed
| InstallationSeedLength
| ZeroReleaseArtifactId
| PolicyLength (n : usize)
| PolicyVersion (v : byte)
| PolicyCodec
| NonCanonicalPolicy
| InvalidPolicySignature
| PolicyAuthorization
| PolicyEpochOverflow
| PolicyEpochGap (expected found : u64)
| PreviousPolicyMismatch
| PolicyPhaseSkipOrRewind
| InvalidPolicyCombination
| InvalidGenesisPolicy
| PolicyIdCollision
| NoInstalledPolicy
| StaleHealthPolicy
| MissingHealthRecord
| HealthAggregateCapacity
| HealthRecordLength (n : usize)
| HealthCodec
| NonCanonicalHealthRecord
| HealthRecordAuthentication
| InvalidHealthRecord
| HealthPolicyBinding
| HealthCounterOverflow
| ExplicitExportRequired
| HealthExportJson.

(** * Policies *)

Inductive RolloutPhase :=
| LegacyOnlyHold | AdvertiseCanary | AcceptCanary | InitiateCanary | ExpandedDualReader.

Inductive RolloutDisposition := NormalPolicy | Containment.

#[export] Instance RolloutPhase_eq_dec : EqDecision RolloutPhase.
Proof. solve_decision. Defined.
#[export] Instance RolloutDisposition_eq_dec : EqDecision RolloutDisposition.
Proof. solve_decision. Defined.

Definition phase_as_str (p : RolloutPhase) : string :=
  match p with
  | LegacyOnlyHold => "legacy-only-hold"
  | AdvertiseCanary => "advertise-canary"
  | AcceptCanary => "accept-canary"
  | InitiateCanary => "initiate-canary"
  | ExpandedDualReader => "expanded-dual-reader"
  end.

Definition maximum_cohort_basis_points (p : RolloutPhase) : N :=
  match p with
  | LegacyOnlyHold => 0
  | AdvertiseCanary | AcceptCanary => 100
  | InitiateCanary => 500
  | ExpandedDualReader => 2500
  end.

Definition phase_ordinal (p : RolloutPhase) : N :=
  match p with
  | LegacyOnlyHold => 0
  | AdvertiseCanary => 1
  | AcceptCanary => 2
  | InitiateCanary => 3
  | ExpandedDualReader => 4
  end.

(** [ReleasePolicyAuthority], [ReleaseArtifactId] and [ReleasePolicyId] wrap
    32 bytes. *)
Abbreviation ReleasePolicyAuthority := (arr 32).
Abbreviation ReleaseArtifactId := (arr 32).
Abbreviation ReleasePolicyId := (arr 32).

Definition zero32 : arr 32 := arr_repeat 32 x00.

Definition artifact_from_bytes (bs : arr 32) : result RolloutError ReleaseArtifactId :=
  fail_if (bool_decide (bs = zero32)) ZeroReleaseArtifactId ;?
  Ok bs.

Record ReleasePolicyContent := {
  rp_version : byte;
  rp_epoch : u64;
  rp_previous : option (arr 32);
  rp_artifact : ReleaseArtifactId;
  rp_phase : RolloutPhase;
  rp_disposition : RolloutDisposition;
  rp_cohort : u16
}.

(** [SignedReleasePolicy] and its wire form, which has the same fields. *)
Record SignedReleasePolicy := {
  policy_content : ReleasePolicyContent;
  policy_signature : bytes
}.

#[export] Instance ReleasePolicyContent_eq_dec : EqDecision ReleasePolicyContent.
Proof. solve_decision. Defined.
#[export] Instance SignedReleasePolicy_eq_dec : EqDecision SignedReleasePolicy.
Proof. solve_decision. Defined.

(** * Cohorts *)

Record CohortEvaluation := {
  ce_policy_id : ReleasePolicyId;
  ce_policy_epoch : u64;
  ce_artifact : ReleaseArtifactId;
  ce_phase : RolloutPhase;
  ce_disposition : RolloutDisposition;
  ce_bucket : u16;
  ce_cohort : u16;
  ce_selected : bool;
  ce_runtime_activation_authorized : bool
}.

(** * Health *)

Inductive RolloutHealthEvent :=
| RuntimeStartSucceeded | RuntimeStartFailed | LegacySyncCompleted | LegacySyncFailed
| CanonicalSyncCompleted | CanonicalSyncFailed | CanonicalSyncPaused | CanonicalSyncInterrupted
| ContainmentEntered | HistoryLossOrDuplication | SelectedCanonicalLegacyFallback
| AuthorityOrDeviceBindingMismatch | AuthenticatedDowngradeAcceptance
| UnrecoverableStateCorruption.

#[export] Instance RolloutHealthEvent_eq_dec : EqDecision RolloutHealthEvent.
Proof. solve_decision. Defined.

Record RolloutHealthCounters := {
  runtime_start_succeeded : u64;
  runtime_start_failed : u64;
  legacy_sync_completed : u64;
  legacy_sync_failed : u64;
  canonical_sync_completed : u64;
  canonical_sync_failed : u64;
  canonical_sync_paused : u64;
  canonical_sync_interrupted : u64;
  containment_entered : u64;
  history_loss_or_duplication : u64;
  selected_canonical_legacy_fallback : u64;
  authority_or_device_binding_mismatch : u64;
  authenticated_downgrade_acceptance : u64;
  unrecoverable_state_corruption : u64
}.

Definition counters_default : RolloutHealthCounters :=
  let z := as_u64 0 in
  {| runtime_start_succeeded := z; runtime_start_failed := z; legacy_sync_completed := z;
     legacy_sync_failed := z; canonical_sync_completed := z; canonical_sync_failed := z;
     canonical_sync_paused := z; canonical_sync_interrupted := z; containment_entered := z;
     history_loss_or_duplication := z; selected_canonical_legacy_fallback := z;
     authority_or_device_binding_mismatch := z; authenticated_downgrade_acceptance := z;
     unrecoverable_state_corruption := z |}.

Definition zero_tolerance_events (c : RolloutHealthCounters) : result RolloutError u64 :=
  try_fold (fun value total => ok_or (u64_checked_add total value) HealthCounterOverflow)
    [c.(history_loss_or_duplication); c.(selected_canonical_legacy_fallback);
     c.(authority_or_device_binding_mismatch); c.(authenticated_downgrade_acceptance);
     c.(unrecoverable_state_corruption)] (as_u64 0).

(** The counter an event refers to, and the record with it replaced. *)
Definition counter_of (event : RolloutHealthEvent) (c : RolloutHealthCounters) : u64 :=
  match event with
  | RuntimeStartSucceeded => c.(runtime_start_succeeded)
  | RuntimeStartFailed => c.(runtime_start_failed)
  | LegacySyncCompleted => c.(legacy_sync_completed)
  | LegacySyncFailed => c.(legacy_sync_failed)
  | CanonicalSyncCompleted => c.(canonical_sync_completed)
  | CanonicalSyncFailed => c.(canonical_sync_failed)
  | CanonicalSyncPaused => c.(canonical_sync_paused)
  | CanonicalSyncInterrupted => c.(canonical_sync_interrupted)
  | ContainmentEntered => c.(containment_entered)
  | HistoryLossOrDuplication => c.(history_loss_or_duplication)
  | SelectedCanonicalLegacyFallback => c.(selected_canonical_legacy_fallback)
  | AuthorityOrDeviceBindingMismatch => c.(authority_or_device_binding_mismatch)
  | AuthenticatedDowngradeAcceptance => c.(authenticated_downgrade_acceptance)
  | UnrecoverableStateCorruption => c.(unrecoverable_state_corruption)
  end.

Definition with_counter (event : RolloutHealthEvent) (v : u64) (c : RolloutHealthCounters)
  : RolloutHealthCounters :=
  let set e := if bool_decide (event = e) then v else counter_of e c in
  {| runtime_start_succeeded := set RuntimeStartSucceeded;
     runtime_start_failed := set RuntimeStartFailed;
     legacy_sync_completed := set LegacySyncCompleted;
     legacy_sync_failed := set LegacySyncFailed;
     canonical_sync_completed := set CanonicalSyncCompleted;
     canonical_sync_failed := set CanonicalSyncFailed;
     canonical_sync_paused := set CanonicalSyncPaused;
     canonical_sync_interrupted := set CanonicalSyncInterrupted;
     containment_entered := set ContainmentEntered;
     history_loss_or_duplication := set HistoryLossOrDuplication;
     selected_canonical_legacy_fallback := set SelectedCanonicalLegacyFallback;
     authority_or_device_binding_mismatch := set AuthorityOrDeviceBindingMismatch;
     authenticated_downgrade_acceptance := set AuthenticatedDowngradeAcceptance;
     unrecoverable_state_corruption := set UnrecoverableStateCorruption |}.

Definition counters_increment (c : RolloutHealthCounters) (event : RolloutHealthEvent)
  : result RolloutError RolloutHealthCounters :=
  let? n := ok_or (u64_checked_add (counter_of event c) (as_u64 1)) HealthCounterOverflow in
  Ok (with_counter event n c).

Record HealthRecordContent := {
  hr_version : byte;
  hr_policy_id : arr 32;
  hr_artifact : ReleaseArtifactId;
  hr_phase : RolloutPhase;
  hr_cohort : u16;
  hr_counters : RolloutHealthCounters
}.

Record StoredHealthRecord := {
  health_content : HealthRecordContent;
  health_mac : arr 32
}.

Record RolloutHealthSnapshot := {
  hs_policy_id : ReleasePolicyId;
  hs_artifact : ReleaseArtifactId;
  hs_phase : RolloutPhase;
  hs_cohort : u16;
  hs_counters : RolloutHealthCounters
}.

Record RolloutReadOnlySnapshot := {
  ro_evaluation : option CohortEvaluation;
  ro_health : option RolloutHealthSnapshot
}.

#[export] Instance RolloutHealthCounters_eq_dec : EqDecision RolloutHealthCounters.
Proof. solve_decision. Defined.
#[export] Instance HealthRecordContent_eq_dec : EqDecision HealthRecordContent.
Proof. solve_decision. Defined.

(** [postcard] at the types the store writes. *)
Class RolloutPostcard := {
  pc_policy_content :: Postcard ReleasePolicyContent;
  pc_policy :: Postcard SignedReleasePolicy;
  pc_health_content :: Postcard HealthRecordContent;
  pc_health :: Postcard StoredHealthRecord
}.

(** [serde_json::to_vec_pretty] on the exported document. *)
Record HealthExportDocument := {
  doc_schema_version : byte;
  doc_policy_id : bytes;
  doc_artifact : bytes;
  doc_phase : string;
  doc_cohort : u16;
  doc_counters : RolloutHealthCounters
}.

Class RolloutJson := {
  to_vec_pretty : HealthExportDocument → option bytes
}.

Inductive ExplicitHealthExport := UserOrTestOperatorRequested.

#[export] Instance ExplicitHealthExport_eq_dec : EqDecision ExplicitHealthExport.
Proof. solve_decision. Defined.

(** * The controller *)

Inductive RolloutActivationTarget :=
| LegacyOnly | AdvertiseCanonicalV2 | DualReaderPreferLegacy | DualReaderPreferCanonical.

Inductive RolloutActivationDisposition := NormalActivation | EmergencyContainment.

#[export] Instance RolloutActivationTarget_eq_dec : EqDecision RolloutActivationTarget.
Proof. solve_decision. Defined.
#[export] Instance RolloutActivationDisposition_eq_dec : EqDecision RolloutActivationDisposition.
Proof. solve_decision. Defined.

Definition target_ordinal (t : RolloutActivationTarget) : N :=
  match t with
  | LegacyOnly => 0
  | AdvertiseCanonicalV2 => 1
  | DualReaderPreferLegacy => 2
  | DualReaderPreferCanonical => 3
  end.

Definition target_next (t : RolloutActivationTarget) : RolloutActivationTarget :=
  match t with
  | LegacyOnly => AdvertiseCanonicalV2
  | AdvertiseCanonicalV2 => DualReaderPreferLegacy
  | DualReaderPreferLegacy => DualReaderPreferCanonical
  | DualReaderPreferCanonical => DualReaderPreferCanonical
  end.

Record RolloutControllerCurrentState := {
  cs_target : RolloutActivationTarget;
  cs_disposition : RolloutActivationDisposition;
  has_authenticated_canonical_evidence : bool
}.

Inductive RolloutControllerHoldReason :=
| MissingSignedPolicy
| MissingHealthSnapshot
| HealthPolicyMismatch
| LegacyOnlyPolicy
| InstallationOutsideCohort
| AlreadyAtOrBeyondPolicyTarget
| ContainmentWithoutCanonicalEvidence
| ContainmentRequiresExplicitRecovery.

Inductive RolloutControllerDecision :=
| Hold (reason : RolloutControllerHoldReason) (current : RolloutControllerCurrentState)
| ProposeDeviceActivation (policy_id : ReleasePolicyId) (policy_epoch : u64)
    (target : RolloutActivationTarget) (disposition : RolloutActivationDisposition)
    (requires_explicit_device_approval release_policy_can_sign_activation : bool).

Definition rollout_phase_target (p : RolloutPhase) : RolloutActivationTarget :=
  match p with
  | LegacyOnlyHold => LegacyOnly
  | AdvertiseCanary => AdvertiseCanonicalV2
  | AcceptCanary => DualReaderPreferLegacy
  | InitiateCanary | ExpandedDualReader => DualReaderPreferCanonical
  end.

Definition controller_proposal (e : CohortEvaluation) (target : RolloutActivationTarget)
    (disposition : RolloutActivationDisposition) : RolloutControllerDecision :=
  ProposeDeviceActivation e.(ce_policy_id) e.(ce_policy_epoch) target disposition true false.

Definition evaluate_rollout_controller (evaluation : option CohortEvaluation)
    (health : option RolloutHealthSnapshot) (current : RolloutControllerCurrentState)
  : result RolloutError RolloutControllerDecision :=
  match evaluation with
  | None => Ok (Hold MissingSignedPolicy current)
  | Some evaluation =>
  match health with
  | None => Ok (Hold MissingHealthSnapshot current)
  | Some health =>
  if negb (bool_decide (health.(hs_policy_id) = evaluation.(ce_policy_id)))
     || negb (bool_decide (health.(hs_artifact) = evaluation.(ce_artifact)))
     || negb (bool_decide (health.(hs_phase) = evaluation.(ce_phase)))
     || negb (uint_val health.(hs_cohort) =? uint_val evaluation.(ce_cohort))%N
  then Ok (Hold HealthPolicyMismatch current)
  else
    let? containment_required :=
      (if bool_decide (evaluation.(ce_disposition) = Containment) then Ok true
       else let? n := zero_tolerance_events health.(hs_counters) in Ok (0 <? uint_val n)%N) in
    if containment_required then
      if bool_decide (current.(cs_target) = LegacyOnly)
         || negb current.(has_authenticated_canonical_evidence)
      then Ok (Hold ContainmentWithoutCanonicalEvidence current)
      else if bool_decide (current.(cs_disposition) = EmergencyContainment)
      then Ok (Hold AlreadyAtOrBeyondPolicyTarget current)
      else Ok (controller_proposal evaluation current.(cs_target) EmergencyContainment)
    else if bool_decide (current.(cs_disposition) = EmergencyContainment)
    then Ok (Hold ContainmentRequiresExplicitRecovery current)
    else if bool_decide (evaluation.(ce_phase) = LegacyOnlyHold)
    then Ok (Hold LegacyOnlyPolicy current)
    else if negb evaluation.(ce_selected)
    then Ok (Hold InstallationOutsideCohort current)
    else if (target_ordinal (rollout_phase_target evaluation.(ce_phase))
             <=? target_ordinal current.(cs_target))%N
    then Ok (Hold AlreadyAtOrBeyondPolicyTarget current)
    else Ok (controller_proposal evaluation (target_next current.(cs_target)) NormalActivation)
  end
  end.

(** * Validation *)

Definition validate_policy_content (content : ReleasePolicyContent) : result RolloutError unit :=
  fail_if (negb (bool_decide (content.(rp_version) = RELEASE_POLICY_VERSION)))
    (PolicyVersion content.(rp_version)) ;?
  fail_if (bool_decide (content.(rp_artifact) = zero32)) ZeroReleaseArtifactId ;?
  let zero_cohort := (uint_val content.(rp_cohort) =? 0)%N in
  match content.(rp_phase), content.(rp_disposition) with
  | LegacyOnlyHold, NormalPolicy => fail_if (negb zero_cohort) InvalidPolicyCombination
  | LegacyOnlyHold, Containment => Err InvalidPolicyCombination
  | _, Containment => fail_if (negb zero_cohort) InvalidPolicyCombination
  | phase, NormalPolicy =>
      fail_if (negb ((1 <=? uint_val content.(rp_cohort))
                     && (uint_val content.(rp_cohort) <=? maximum_cohort_basis_points phase)))%N
        InvalidPolicyCombination
  end.

Definition validate_health_content (content : HealthRecordContent) : result RolloutError unit :=
  fail_if (negb (bool_decide (content.(hr_version) = HEALTH_RECORD_VERSION))
           || bool_decide (content.(hr_policy_id) = zero32)
           || bool_decide (content.(hr_artifact) = zero32)
           || (maximum_cohort_basis_points content.(hr_phase) <? uint_val content.(hr_cohort))%N)
    InvalidHealthRecord ;?
  zero_tolerance_events content.(hr_counters) ;?
  Ok tt.

Definition snapshot_from_content (content : HealthRecordContent)
  : result RolloutError RolloutHealthSnapshot :=
  validate_health_content content ;?
  Ok {| hs_policy_id := content.(hr_policy_id); hs_artifact := content.(hr_artifact);
        hs_phase := content.(hr_phase); hs_cohort := content.(hr_cohort);
        hs_counters := content.(hr_counters) |}.

Definition validate_health_policy_binding (content : HealthRecordContent)
    (policy : SignedReleasePolicy) (policy_id : ReleasePolicyId) : result RolloutError unit :=
  fail_if (negb (bool_decide (content.(hr_policy_id) = policy_id))
           || negb (bool_decide (content.(hr_artifact) = policy.(policy_content).(rp_artifact)))
           || negb (bool_decide (content.(hr_phase) = policy.(policy_content).(rp_phase)))
           || negb (uint_val content.(hr_cohort) =? uint_val policy.(policy_content).(rp_cohort))%N)
    HealthPolicyBinding.

(** [hex_lower]. *)
Definition hex_char (n : N) : byte := nth (N.to_nat n) (b_str "0123456789abcdef") x00.
Definition hex_lower (bs : bytes) : bytes :=
  concat (map (fun b => [hex_char (N.shiftr (byte_val b) 4); hex_char (N.land (byte_val b) 15)]) bs).

Section operations.
Context `{Ed25519, Sha256, Blake3Keyed, RolloutPostcard, RolloutJson, Redb}.

(** ** Policies *)

Definition authority_from_bytes (bs : arr 32) : result RolloutError ReleasePolicyAuthority :=
  fail_if (negb (verifying_key_ok bs)) InvalidReleaseAuthority ;?
  Ok bs.

Definition policy_signing_bytes (content : ReleasePolicyContent) : result RolloutError bytes :=
  let? encoded := ok_or (to_allocvec content) PolicyCodec in
  Ok (RELEASE_POLICY_SIGNATURE_DOMAIN ++ encoded).

Definition policy_verify (p : SignedReleasePolicy) (authority : ReleasePolicyAuthority)
  : result RolloutError unit :=
  validate_policy_content p.(policy_content) ;?
  fail_if (negb (signature_ok p.(policy_signature))) InvalidPolicySignature ;?
  fail_if (negb (verifying_key_ok authority)) InvalidReleaseAuthority ;?
  let? message := policy_signing_bytes p.(policy_content) in
  fail_if (negb (verify_strict authority message p.(policy_signature))) PolicyAuthorization.

Definition policy_encode (p : SignedReleasePolicy) : result RolloutError bytes :=
  validate_policy_content p.(policy_content) ;?
  let? encoded := ok_or (to_allocvec p) PolicyCodec in
  fail_if ((len encoded =? 0) || (MAX_SIGNED_RELEASE_POLICY_BYTES <? len encoded))%N
    (PolicyLength (len encoded)) ;?
  Ok encoded.

Definition policy_decode_and_verify (encoded : bytes) (authority : ReleasePolicyAuthority)
  : result RolloutError SignedReleasePolicy :=
  fail_if ((len encoded =? 0) || (MAX_SIGNED_RELEASE_POLICY_BYTES <? len encoded))%N
    (PolicyLength (len encoded)) ;?
  let? policy := ok_or (from_bytes encoded) PolicyCodec in
  policy_verify policy authority ;?
  let? again := policy_encode policy in
  fail_if (negb (bool_decide (again = encoded))) NonCanonicalPolicy ;?
  Ok policy.

Definition policy_id (p : SignedReleasePolicy) : result RolloutError ReleasePolicyId :=
  let? encoded := policy_encode p in
  Ok (sha256 (RELEASE_POLICY_ID_DOMAIN ++ encoded)).

Definition validate_policy_transition (content : ReleasePolicyContent)
    (previous : option SignedReleasePolicy) : result RolloutError unit :=
  validate_policy_content content ;?
  match previous with
  | None =>
      fail_if (negb (uint_val content.(rp_epoch) =? 1)%N
               || match content.(rp_previous) with Some _ => true | None => false end
               || negb (bool_decide (content.(rp_phase) = LegacyOnlyHold))
               || negb (bool_decide (content.(rp_disposition) = NormalPolicy))
               || negb (uint_val content.(rp_cohort) =? 0)%N)
        InvalidGenesisPolicy
  | Some previous =>
      let old_content := previous.(policy_content) in
      let? expected_epoch := ok_or (u64_checked_add old_content.(rp_epoch) (as_u64 1))
        PolicyEpochOverflow in
      fail_if (negb (u64_eqb content.(rp_epoch) expected_epoch))
        (PolicyEpochGap expected_epoch content.(rp_epoch)) ;?
      let? previous_id := policy_id previous in
      fail_if (negb (bool_decide (content.(rp_previous) = Some previous_id)))
        PreviousPolicyMismatch ;?
      let old := phase_ordinal old_content.(rp_phase) in
      let new := phase_ordinal content.(rp_phase) in
      fail_if ((new <? old) || (N.min (old + 1) 255 <? new))%N PolicyPhaseSkipOrRewind ;?
      fail_if (bool_decide (old_content.(rp_phase) = LegacyOnlyHold)
               && bool_decide (content.(rp_phase) = LegacyOnlyHold)
               && bool_decide (content.(rp_disposition) = Containment))
        InvalidPolicyCombination
  end.

Definition verify_successor_of (p previous : SignedReleasePolicy) : result RolloutError unit :=
  validate_policy_transition p.(policy_content) (Some previous).

Definition policy_issue (signing_key : arr 32) (previous : option SignedReleasePolicy)
    (previous_authority : option ReleasePolicyAuthority) (artifact : ReleaseArtifactId)
    (phase : RolloutPhase) (disposition : RolloutDisposition) (cohort : u16)
  : result RolloutError SignedReleasePolicy :=
  let? authority := authority_from_bytes (verifying_key_of signing_key) in
  let? (epoch, previous_id) :=
    match previous with
    | Some previous =>
        let? previous_authority := ok_or previous_authority InvalidPolicyCombination in
        policy_verify previous previous_authority ;?
        let? epoch := ok_or (u64_checked_add previous.(policy_content).(rp_epoch) (as_u64 1))
          PolicyEpochOverflow in
        let? id := policy_id previous in
        Ok (epoch, Some id)
    | None => Ok (as_u64 1, None)
    end in
  let content := {|
    rp_version := RELEASE_POLICY_VERSION; rp_epoch := epoch; rp_previous := previous_id;
    rp_artifact := artifact; rp_phase := phase; rp_disposition := disposition; rp_cohort := cohort
  |} in
  validate_policy_content content ;?
  validate_policy_transition content previous ;?
  let? message := policy_signing_bytes content in
  let policy := {| policy_content := content;
                   policy_signature := arr_bytes (sign signing_key message) |} in
  policy_verify policy authority ;?
  Ok policy.

Definition issue_genesis_hold (signing_key : arr 32) (artifact : ReleaseArtifactId)
  : result RolloutError SignedReleasePolicy :=
  policy_issue signing_key None None artifact LegacyOnlyHold NormalPolicy (as_u16 0).

Definition issue_successor (signing_key : arr 32) (previous : SignedReleasePolicy)
    (artifact : ReleaseArtifactId) (phase : RolloutPhase) (disposition : RolloutDisposition)
    (cohort : u16) : result RolloutError SignedReleasePolicy :=
  let? authority := authority_from_bytes (verifying_key_of signing_key) in
  policy_issue signing_key (Some previous) (Some authority) artifact phase disposition cohort.

Definition issue_successor_with_previous_authority (signing_key : arr 32)
    (previous : SignedReleasePolicy) (previous_authority : ReleasePolicyAuthority)
    (artifact : ReleaseArtifactId) (phase : RolloutPhase) (disposition : RolloutDisposition)
    (cohort : u16) : result RolloutError SignedReleasePolicy :=
  policy_issue signing_key (Some previous) (Some previous_authority) artifact phase disposition cohort.

(** ** Cohorts *)

Definition cohort_bucket (seed id : arr 32) : u16 :=
  let digest := sha256 (arr_bytes seed ++ arr_bytes id) in
  let prefix := as_u64 (from_be_bytes (take 8 (arr_bytes digest))) in
  as_u16 (uint_val prefix mod COHORT_BUCKETS).

Definition evaluate_cohort (seed : arr 32) (policy : SignedReleasePolicy) (id : ReleasePolicyId)
  : CohortEvaluation :=
  let content := policy.(policy_content) in
  let bucket := cohort_bucket seed id in
  {| ce_policy_id := id;
     ce_policy_epoch := content.(rp_epoch);
     ce_artifact := content.(rp_artifact);
     ce_phase := content.(rp_phase);
     ce_disposition := content.(rp_disposition);
     ce_bucket := bucket;
     ce_cohort := content.(rp_cohort);
     ce_selected := bool_decide (content.(rp_disposition) = NormalPolicy)
                    && negb (bool_decide (content.(rp_phase) = LegacyOnlyHold))
                    && (uint_val bucket <? uint_val content.(rp_cohort))%N;
     ce_runtime_activation_authorized := false |}.

(** ** Health records *)

Definition health_record_mac (seed : arr 32) (content : HealthRecordContent)
  : result RolloutError (arr 32) :=
  let? encoded := ok_or (to_allocvec content) HealthCodec in
  Ok (keyed_hash seed (HEALTH_RECORD_MAC_DOMAIN ++ encoded)).

Definition encode_health_record (content : HealthRecordContent) (seed : arr 32)
  : result RolloutError bytes :=
  validate_health_content content ;?
  let? mac := health_record_mac seed content in
  let? encoded := ok_or (to_allocvec {| health_content := content; health_mac := mac |}) HealthCodec in
  fail_if ((len encoded =? 0) || (MAX_DURABLE_HEALTH_RECORD_BYTES <? len encoded))%N
    (HealthRecordLength (len encoded)) ;?
  Ok encoded.

Definition decode_health_record (encoded : bytes) (seed : arr 32)
  : result RolloutError StoredHealthRecord :=
  fail_if ((len encoded =? 0) || (MAX_DURABLE_HEALTH_RECORD_BYTES <? len encoded))%N
    (HealthRecordLength (len encoded)) ;?
  let? record := ok_or (from_bytes encoded) HealthCodec in
  validate_health_content record.(health_content) ;?
  let? mac := health_record_mac seed record.(health_content) in
  fail_if (negb (bool_decide (record.(health_mac) = mac))) HealthRecordAuthentication ;?
  let? again := ok_or (to_allocvec record) HealthCodec in
  fail_if (negb (bool_decide (again = encoded))) NonCanonicalHealthRecord ;?
  Ok record.

(** ** The store *)

Record RolloutDatabase := {
  ROLLOUT_META : table bytes bytes;
  ROLLOUT_HEALTH : table bytes bytes
}.

Record RolloutLocalStore := {
  rollout_database : RolloutDatabase;
  rollout_authority : ReleasePolicyAuthority
}.

(** [Database::create] on a missing file. *)
Definition rollout_create : RolloutDatabase :=
  {| ROLLOUT_META := table_new; ROLLOUT_HEALTH := table_new |}.

Definition read_seed_from_table (meta : table bytes bytes) : result RolloutError (arr 32) :=
  let? bs := ok_or (table_get INSTALLATION_SEED_KEY meta) MissingInstallationSeed in
  ok_or (arr_try_from 32 bs) InstallationSeedLength.

Definition read_current_policy_from_table (meta : table bytes bytes)
    (authority : ReleasePolicyAuthority) : result RolloutError (option SignedReleasePolicy) :=
  match table_get POLICY_HEAD_KEY meta with
  | None => Ok None
  | Some bs => let? p := policy_decode_and_verify bs authority in Ok (Some p)
  end.

(** [initialize]; the random bytes of [getrandom::fill], or its failure. *)
Definition rollout_initialize (authority : ReleasePolicyAuthority) (random : option (arr 32))
    (db : RolloutDatabase) : result RolloutError RolloutDatabase :=
  let meta := db.(ROLLOUT_META) in
  let? meta :=
    match table_get DATABASE_SCHEMA_KEY meta with
    | Some version =>
        fail_if (negb (bool_decide (version = [DATABASE_SCHEMA_VERSION]))) DatabaseSchema ;?
        Ok meta
    | None => Ok (table_insert DATABASE_SCHEMA_KEY [DATABASE_SCHEMA_VERSION] meta)
    end in
  let? meta :=
    match table_get RELEASE_AUTHORITY_KEY meta with
    | Some bs =>
        fail_if (negb (bool_decide (bs = arr_bytes authority))) ReleaseAuthorityMismatch ;?
        Ok meta
    | None => Ok (table_insert RELEASE_AUTHORITY_KEY (arr_bytes authority) meta)
    end in
  let? meta :=
    match table_get INSTALLATION_SEED_KEY meta with
    | Some seed =>
        fail_if (negb (len seed =? 32)%N) InstallationSeedLength ;?
        Ok meta
    | None =>
        let? seed := ok_or random SecureRandom in
        Ok (table_insert INSTALLATION_SEED_KEY (arr_bytes seed) meta)
    end in
  Ok {| ROLLOUT_META := meta; ROLLOUT_HEALTH := db.(ROLLOUT_HEALTH) |}.

Definition rollout_open (authority : ReleasePolicyAuthority) (random : option (arr 32))
    (db : RolloutDatabase) : result RolloutError RolloutLocalStore :=
  let? db := rollout_initialize authority random db in
  Ok {| rollout_database := db; rollout_authority := authority |}.

Definition has_installed_policy (self : RolloutLocalStore) : bool :=
  match table_get POLICY_HEAD_KEY self.(rollout_database).(ROLLOUT_META) with
  | Some _ => true
  | None => false
  end.

Definition ensure_health_record_in_write (health : table bytes bytes) (policy : SignedReleasePolicy)
    (id : ReleasePolicyId) (seed : arr 32) : result RolloutError (table bytes bytes) :=
  match table_get (arr_bytes id) health with
  | Some existing =>
      let? record := decode_health_record existing seed in
      validate_health_policy_binding record.(health_content) policy id ;?
      Ok health
  | None =>
      fail_if (MAX_DURABLE_HEALTH_AGGREGATES <=? uint_val (table_len health))%N
        HealthAggregateCapacity ;?
      let content := {|
        hr_version := HEALTH_RECORD_VERSION; hr_policy_id := id;
        hr_artifact := policy.(policy_content).(rp_artifact);
        hr_phase := policy.(policy_content).(rp_phase);
        hr_cohort := policy.(policy_content).(rp_cohort); hr_counters := counters_default
      |} in
      let? encoded := encode_health_record content seed in
      Ok (table_insert (arr_bytes id) encoded health)
  end.

Definition with_rollout_database (self : RolloutLocalStore) (meta health : table bytes bytes)
  : RolloutLocalStore :=
  {| rollout_database := {| ROLLOUT_META := meta; ROLLOUT_HEALTH := health |};
     rollout_authority := self.(rollout_authority) |}.

Definition install_policy (self : RolloutLocalStore) (encoded_policy : bytes)
  : result RolloutError (CohortEvaluation * RolloutLocalStore) :=
  let? policy := policy_decode_and_verify encoded_policy self.(rollout_authority) in
  let? id := policy_id policy in
  let meta := self.(rollout_database).(ROLLOUT_META) in
  let? seed := read_seed_from_table meta in
  let? meta :=
    match table_get POLICY_HEAD_KEY meta with
    | Some previous_bytes =>
        let? previous := policy_decode_and_verify previous_bytes self.(rollout_authority) in
        let? previous_id := policy_id previous in
        if negb (bool_decide (previous_id = id)) then
          verify_successor_of policy previous ;?
          Ok (table_insert POLICY_HEAD_KEY encoded_policy meta)
        else
          fail_if (negb (bool_decide (previous_bytes = encoded_policy))) PolicyIdCollision ;?
          Ok meta
    | None =>
        validate_policy_transition policy.(policy_content) None ;?
        Ok (table_insert POLICY_HEAD_KEY encoded_policy meta)
    end in
  let? health := ensure_health_record_in_write self.(rollout_database).(ROLLOUT_HEALTH) policy id seed in
  Ok (evaluate_cohort seed policy id, with_rollout_database self meta health).

Definition current_evaluation (self : RolloutLocalStore)
  : result RolloutError (option CohortEvaluation) :=
  let meta := self.(rollout_database).(ROLLOUT_META) in
  let? seed := read_seed_from_table meta in
  match table_get POLICY_HEAD_KEY meta with
  | None => Ok None
  | Some encoded =>
      let? policy := policy_decode_and_verify encoded self.(rollout_authority) in
      let? id := policy_id policy in
      Ok (Some (evaluate_cohort seed policy id))
  end.

Definition record_health (self : RolloutLocalStore) (id : ReleasePolicyId) (event : RolloutHealthEvent)
  : result RolloutError (RolloutHealthSnapshot * RolloutLocalStore) :=
  let meta := self.(rollout_database).(ROLLOUT_META) in
  let health := self.(rollout_database).(ROLLOUT_HEALTH) in
  let? seed := read_seed_from_table meta in
  let? current := read_current_policy_from_table meta self.(rollout_authority) in
  let? current := ok_or current NoInstalledPolicy in
  let? current_id := policy_id current in
  fail_if (negb (bool_decide (current_id = id))) StaleHealthPolicy ;?
  let? bs := ok_or (table_get (arr_bytes id) health) MissingHealthRecord in
  let? record := decode_health_record bs seed in
  let content := record.(health_content) in
  let? counters := counters_increment content.(hr_counters) event in
  let content := {|
    hr_version := content.(hr_version); hr_policy_id := content.(hr_policy_id);
    hr_artifact := content.(hr_artifact); hr_phase := content.(hr_phase);
    hr_cohort := content.(hr_cohort); hr_counters := counters
  |} in
  let? encoded := encode_health_record content seed in
  let health := table_insert (arr_bytes id) encoded health in
  let? snapshot := snapshot_from_content content in
  Ok (snapshot, with_rollout_database self meta health).

Definition current_health_snapshot (self : RolloutLocalStore)
  : result RolloutError (option RolloutHealthSnapshot) :=
  let meta := self.(rollout_database).(ROLLOUT_META) in
  let? seed := read_seed_from_table meta in
  let? policy := read_current_policy_from_table meta self.(rollout_authority) in
  match policy with
  | None => Ok None
  | Some policy =>
      let? id := policy_id policy in
      let? bs := ok_or (table_get (arr_bytes id) self.(rollout_database).(ROLLOUT_HEALTH))
        MissingHealthRecord in
      let? record := decode_health_record bs seed in
      let? snapshot := snapshot_from_content record.(health_content) in
      Ok (Some snapshot)
  end.

Definition export_current_health_explicitly (self : RolloutLocalStore)
    (authorization : ExplicitHealthExport) : result RolloutError bytes :=
  fail_if (negb (bool_decide (authorization = UserOrTestOperatorRequested))) ExplicitExportRequired ;?
  let? snapshot := current_health_snapshot self in
  let? snapshot := ok_or snapshot NoInstalledPolicy in
  ok_or (to_vec_pretty {|
    doc_schema_version := x01;
    doc_policy_id := hex_lower (arr_bytes snapshot.(hs_policy_id));
    doc_artifact := hex_lower (arr_bytes snapshot.(hs_artifact));
    doc_phase := phase_as_str snapshot.(hs_phase);
    doc_cohort := snapshot.(hs_cohort);
    doc_counters := snapshot.(hs_counters)
  |}) HealthExportJson.

(** The rows of the health table, each under the policy it counts for. *)
Definition inspect_health_rows (health : table bytes bytes) (seed : arr 32)
  : result RolloutError unit :=
  try_for (fun row =>
    let? record := decode_health_record row.2 seed in
    fail_if (negb (bool_decide (row.1 = arr_bytes record.(health_content).(hr_policy_id))))
      HealthPolicyBinding) (table_iter health).

(** [None] when there is no database to inspect. *)
Definition inspect_existing_rollout_store (db : option RolloutDatabase)
    (authority : ReleasePolicyAuthority) : result RolloutError (option RolloutReadOnlySnapshot) :=
  match db with
  | None => Ok None
  | Some db =>
      let meta := db.(ROLLOUT_META) in
      let health := db.(ROLLOUT_HEALTH) in
      let? schema := ok_or (table_get DATABASE_SCHEMA_KEY meta) DatabaseSchema in
      fail_if (negb (bool_decide (schema = [DATABASE_SCHEMA_VERSION]))) DatabaseSchema ;?
      let? pinned := ok_or (table_get RELEASE_AUTHORITY_KEY meta) ReleaseAuthorityMismatch in
      fail_if (negb (bool_decide (pinned = arr_bytes authority))) ReleaseAuthorityMismatch ;?
      let? seed := read_seed_from_table meta in
      let? policy := read_current_policy_from_table meta authority in
      fail_if (MAX_DURABLE_HEALTH_AGGREGATES <? uint_val (table_len health))%N
        HealthAggregateCapacity ;?
      inspect_health_rows health seed ;?
      match policy with
      | None =>
          fail_if (match table_iter health with [] => false | _ => true end) HealthPolicyBinding ;?
          Ok (Some {| ro_evaluation := None; ro_health := None |})
      | Some policy =>
          let? id := policy_id policy in
          let evaluation := evaluate_cohort seed policy id in
          let? bs := ok_or (table_get (arr_bytes id) health) MissingHealthRecord in
          let? record := decode_health_record bs seed in
          validate_health_policy_binding record.(health_content) policy id ;?
          let? snapshot := snapshot_from_content record.(health_content) in
          Ok (Some {| ro_evaluation := Some evaluation; ro_health := Some snapshot |})
      end
  end.

End operations.
