(* ===== verification/RolloutFacts.v ===== *)
(** Correctness of the rollout authority of [Rollout].

    [rollout_state] is the abstract store: the newest policy and the health
    contents per policy identifier, without codecs, tables, seed or MACs.  The
    store refines it ([install_refines], [record_health_refines],
    [rollout_reads]); from the refinement follow the chain of policies every
    reachable store ends ([rollout_policy_chain]), the capacity of the health
    table ([rollout_capacity]) and that what an installation exports does not
    depend on its private seed ([rollout_export_private]).  The controller is
    characterized on its own. *)

From stdpp Require Import base tactics list numbers strings gmap.
From Stdlib Require Import Strings.Byte.
From S2P Require Import Prelude Crypto Postcard Redb Rollout.

(** What the [postcard] format promises of the types the store writes: values
    read back, and the fixed fields of a policy take fewer than 256 bytes and a
    health record fewer than 512 (a byte is one byte, a byte array is itself,
    an integer of [n] bits or a length at most ten bytes, a tag at most five). *)
Class RolloutPostcardLaws (P : RolloutPostcard) : Prop := {
  rl_policy_content :: PostcardLaws ReleasePolicyContent;
  rl_policy :: PostcardLaws SignedReleasePolicy;
  rl_health_content :: PostcardLaws HealthRecordContent;
  rl_health :: PostcardLaws StoredHealthRecord;
  policy_size (p : SignedReleasePolicy) bs :
    to_allocvec p = Some bs → (len p.(policy_signature) < U64_BOUND)%N →
    (0 < len bs <= len p.(policy_signature) + 256)%N;
  health_size (r : StoredHealthRecord) bs : to_allocvec r = Some bs → (0 < len bs <= 512)%N
}.

Section rollout.
Context {E : Ed25519} {SH : Sha256} {K : Blake3Keyed} {P : RolloutPostcard} {J : RolloutJson} {R : Redb}.
Context {PL : RolloutPostcardLaws P} {RL : RedbLaws R}.
Implicit Types (p q : SignedReleasePolicy) (c : HealthRecordContent) (a : ReleasePolicyAuthority).
Implicit Types (seed id : arr 32) (st : RolloutLocalStore) (bs : bytes).

(** * Codecs *)

Lemma length_check_ok {Er A} (e : Er) (l : list A) m :
  fail_if ((len l =? 0) || (m <? len l))%N e = Ok tt ↔ (0 < len l <= m)%N.
Proof. rewrite fail_if_ok, orb_false_iff, N.eqb_neq, N.ltb_ge. lia. Qed.

Lemma policy_encode_ok p bs :
  policy_encode p = Ok bs ↔
  validate_policy_content p.(policy_content) = Ok tt ∧ to_allocvec p = Some bs ∧
  (0 < len bs <= MAX_SIGNED_RELEASE_POLICY_BYTES)%N.
Proof.
  unfold policy_encode. rewrite rbind_unit_ok, rbind_ok. setoid_rewrite ok_or_ok.
  setoid_rewrite rbind_unit_ok. setoid_rewrite length_check_ok. split.
  - by intros (Hv & b & Hb & Hl & ->%Ok_inj).
  - intros (Hv & Hb & Hl). split; [done|]. by exists bs.
Qed.

Lemma policy_encode_inj p q bs : policy_encode p = Ok bs → policy_encode q = Ok bs → p = q.
Proof.
  rewrite !policy_encode_ok. intros (_ & H1 & _) (_ & H2 & _).
  apply postcard_roundtrip in H1, H2. congruence.
Qed.

Lemma policy_decode_ok bs a p :
  policy_decode_and_verify bs a = Ok p ↔ policy_encode p = Ok bs ∧ policy_verify p a = Ok tt.
Proof.
  unfold policy_decode_and_verify. rewrite rbind_unit_ok, length_check_ok, rbind_ok. split.
  - intros (Hl & q & Hq%ok_or_ok & [Hv H]%rbind_unit_ok). apply rbind_ok in H as (again & Ha & H).
    apply rbind_unit_ok in H as [Hb H%Ok_inj]. subst q.
    apply fail_if_ok, negb_false_iff, bool_decide_eq_true in Hb. by subst.
  - intros [He Hv]. pose proof (proj1 (policy_encode_ok _ _) He) as (_ & Ht & Hl). split; [done|].
    exists p. split; [by apply ok_or_ok, postcard_roundtrip|]. apply rbind_unit_ok. split; [done|].
    apply rbind_ok. exists bs. split; [done|]. by rewrite bool_decide_true by done.
Qed.

Lemma policy_id_ok p id :
  policy_id p = Ok id ↔ ∃ bs, policy_encode p = Ok bs ∧ id = sha256 (RELEASE_POLICY_ID_DOMAIN ++ bs).
Proof.
  unfold policy_id. rewrite rbind_ok. split; intros (bs & Hb & Hi); exists bs; (split; [done|]).
  - by apply Ok_inj in Hi.
  - by subst.
Qed.

Lemma health_mac_total seed c : ∃ mac, health_record_mac seed c = Ok mac.
Proof. unfold health_record_mac. destruct (postcard_total c) as [b ->]. cbn. eauto. Qed.

Lemma encode_health_ok c seed bs :
  encode_health_record c seed = Ok bs ↔
  validate_health_content c = Ok tt ∧ ∃ mac, health_record_mac seed c = Ok mac ∧
    to_allocvec {| health_content := c; health_mac := mac |} = Some bs.
Proof.
  unfold encode_health_record. rewrite rbind_unit_ok, rbind_ok. apply and_iff_compat_l. split.
  - intros (mac & Hm & H). exists mac. split; [done|]. apply rbind_ok in H as (b & Hb%ok_or_ok & H).
    by apply rbind_unit_ok in H as [_ ->%Ok_inj].
  - intros (mac & Hm & H). exists mac. split; [done|]. apply rbind_ok. exists bs. split; [by apply ok_or_ok|].
    apply rbind_unit_ok. split; [|done]. apply length_check_ok.
    apply health_size in H. unfold MAX_DURABLE_HEALTH_RECORD_BYTES. lia.
Qed.

Lemma encode_health_total c seed :
  validate_health_content c = Ok tt → ∃ bs, encode_health_record c seed = Ok bs.
Proof.
  intros Hv. destruct (health_mac_total seed c) as [mac Hm].
  destruct (postcard_total {| health_content := c; health_mac := mac |}) as [bs Hb].
  exists bs. apply encode_health_ok. eauto.
Qed.

Lemma decode_health_ok bs seed r :
  decode_health_record bs seed = Ok r ↔
  encode_health_record r.(health_content) seed = Ok bs ∧
  health_record_mac seed r.(health_content) = Ok r.(health_mac).
Proof.
  unfold decode_health_record. rewrite rbind_unit_ok, length_check_ok, rbind_ok, encode_health_ok. split.
  - intros (Hl & q & Hq%ok_or_ok & [Hv H]%rbind_unit_ok). apply rbind_ok in H as (mac & Hm & H).
    apply rbind_unit_ok in H as [Hb H]. apply fail_if_ok, negb_false_iff, bool_decide_eq_true in Hb.
    apply rbind_ok in H as (again & Ha%ok_or_ok & H).
    apply rbind_unit_ok in H as [Hc H%Ok_inj]. subst q.
    apply fail_if_ok, negb_false_iff, bool_decide_eq_true in Hc. subst again mac.
    split; [|done]. split; [done|]. eexists. split; [done|]. by destruct r.
  - intros [(Hv & mac & Hm & Ht) Hm']. rewrite Hm in Hm'. apply Ok_inj in Hm' as ->.
    assert (to_allocvec r = Some bs) as Ht' by (by destruct r).
    split. { apply health_size in Ht'. unfold MAX_DURABLE_HEALTH_RECORD_BYTES. lia. }
    exists r. split; [by apply ok_or_ok, postcard_roundtrip|]. apply rbind_unit_ok. split; [done|]. rewrite Hm. cbn [rbind].
    rewrite bool_decide_true by done. cbn [negb fail_if rbind]. rewrite Ht'. cbn [ok_or rbind].
    by rewrite bool_decide_true by done.
Qed.

(** The record a content is stored as reads back. *)
Lemma decode_encoded_health c seed bs :
  encode_health_record c seed = Ok bs →
  ∃ mac, decode_health_record bs seed = Ok {| health_content := c; health_mac := mac |}.
Proof.
  intros H. pose proof (proj1 (encode_health_ok _ _ _) H) as (_ & mac & Hm & _).
  exists mac. by apply decode_health_ok.
Qed.

(** * The abstract store *)

Record rollout_state := {
  rs_head : option SignedReleasePolicy;
  rs_health : gmap (arr 32) HealthRecordContent
}.
Implicit Types (s : rollout_state).

Definition rollout_empty : rollout_state := {| rs_head := None; rs_health := ∅ |}.

(** A policy without health events. *)
Definition fresh_health p id : HealthRecordContent := {|
  hr_version := HEALTH_RECORD_VERSION; hr_policy_id := id; hr_artifact := p.(policy_content).(rp_artifact);
  hr_phase := p.(policy_content).(rp_phase); hr_cohort := p.(policy_content).(rp_cohort);
  hr_counters := counters_default
|}.

(** May [p], with identifier [id], become the head? *)
Definition spec_admits s p id : result RolloutError unit :=
  match s.(rs_head) with
  | Some q =>
      let? qid := policy_id q in
      if negb (bool_decide (qid = id)) then verify_successor_of p q
      else fail_if (negb (bool_decide (q = p))) PolicyIdCollision
  | None => validate_policy_transition p.(policy_content) None
  end.

Definition spec_install s p : result RolloutError rollout_state :=
  let? id := policy_id p in
  spec_admits s p id ;?
  match s.(rs_health) !! id with
  | Some c =>
      validate_health_policy_binding c p id ;?
      Ok {| rs_head := Some p; rs_health := s.(rs_health) |}
  | None =>
      fail_if (MAX_DURABLE_HEALTH_AGGREGATES <=? N.of_nat (size s.(rs_health)))%N HealthAggregateCapacity ;?
      validate_health_content (fresh_health p id) ;?
      Ok {| rs_head := Some p; rs_health := <[id := fresh_health p id]> s.(rs_health) |}
  end.

Definition with_counters c (counters : RolloutHealthCounters) : HealthRecordContent := {|
  hr_version := c.(hr_version); hr_policy_id := c.(hr_policy_id); hr_artifact := c.(hr_artifact);
  hr_phase := c.(hr_phase); hr_cohort := c.(hr_cohort); hr_counters := counters
|}.

Definition spec_record s id (event : RolloutHealthEvent)
  : result RolloutError (RolloutHealthSnapshot * rollout_state) :=
  let? p := ok_or s.(rs_head) NoInstalledPolicy in
  let? pid := policy_id p in
  fail_if (negb (bool_decide (pid = id))) StaleHealthPolicy ;?
  let? c := ok_or (s.(rs_health) !! id) MissingHealthRecord in
  let? counters := counters_increment c.(hr_counters) event in
  let c := with_counters c counters in
  let? snapshot := snapshot_from_content c in
  Ok (snapshot, {| rs_head := s.(rs_head); rs_health := <[id := c]> s.(rs_health) |}).

(** What a reader sees. *)
Definition spec_evaluation seed s : result RolloutError (option CohortEvaluation) :=
  match s.(rs_head) with
  | None => Ok None
  | Some p => let? id := policy_id p in Ok (Some (evaluate_cohort seed p id))
  end.

Definition spec_health s : result RolloutError (option RolloutHealthSnapshot) :=
  match s.(rs_head) with
  | None => Ok None
  | Some p =>
      let? id := policy_id p in
      let? c := ok_or (s.(rs_health) !! id) MissingHealthRecord in
      let? snapshot := snapshot_from_content c in
      Ok (Some snapshot)
  end.

(** ** The refinement relation *)

Record refines a seed st s : Prop := {
  ref_authority : st.(rollout_authority) = a;
  ref_schema : table_get DATABASE_SCHEMA_KEY st.(rollout_database).(ROLLOUT_META) = Some [DATABASE_SCHEMA_VERSION];
  ref_pinned : table_get RELEASE_AUTHORITY_KEY st.(rollout_database).(ROLLOUT_META) = Some (arr_bytes a);
  ref_seed : table_get INSTALLATION_SEED_KEY st.(rollout_database).(ROLLOUT_META) = Some (arr_bytes seed);
  ref_head :
    match s.(rs_head) with
    | None => table_get POLICY_HEAD_KEY st.(rollout_database).(ROLLOUT_META) = None
    | Some p => ∃ bs, table_get POLICY_HEAD_KEY st.(rollout_database).(ROLLOUT_META) = Some bs ∧
        policy_encode p = Ok bs ∧ policy_verify p a = Ok tt
    end;
  ref_health k bs :
    table_get k st.(rollout_database).(ROLLOUT_HEALTH) = Some bs ↔
    ∃ id c, k = arr_bytes id ∧ s.(rs_health) !! id = Some c ∧ encode_health_record c seed = Ok bs;
  ref_valid id c : s.(rs_health) !! id = Some c → validate_health_content c = Ok tt;
  ref_size : len (table_iter st.(rollout_database).(ROLLOUT_HEALTH)) = N.of_nat (size s.(rs_health));
  ref_bound : (N.of_nat (size s.(rs_health)) <= MAX_DURABLE_HEALTH_AGGREGATES)%N
}.

Section related.
Context a seed st s (HR : refines a seed st s).

Lemma ref_read_seed : read_seed_from_table st.(rollout_database).(ROLLOUT_META) = Ok seed.
Proof.
  unfold read_seed_from_table. rewrite (ref_seed _ _ _ _ HR). cbn [ok_or rbind].
  by rewrite arr_try_from_bytes.
Qed.

Lemma ref_read_policy :
  read_current_policy_from_table st.(rollout_database).(ROLLOUT_META) st.(rollout_authority) = Ok s.(rs_head).
Proof.
  unfold read_current_policy_from_table. pose proof (ref_head _ _ _ _ HR) as Hh.
  destruct (rs_head s) as [p|]; [|by rewrite Hh]. destruct Hh as (bs & -> & He & Hv).
  rewrite (ref_authority _ _ _ _ HR), (proj2 (policy_decode_ok bs a p)) by done. done.
Qed.

Lemma ref_health_get id :
  table_get (arr_bytes id) st.(rollout_database).(ROLLOUT_HEALTH) =
  match s.(rs_health) !! id with
  | Some c => match encode_health_record c seed with Ok bs => Some bs | Err _ => None end
  | None => None
  end.
Proof.
  destruct (s.(rs_health) !! id) as [c|] eqn:Ec.
  - destruct (encode_health_total c seed (ref_valid _ _ _ _ HR _ _ Ec)) as [bs Hb]. rewrite Hb.
    apply (ref_health _ _ _ _ HR). eauto.
  - destruct (table_get _ _) as [bs|] eqn:Eg; [|done].
    apply (ref_health _ _ _ _ HR) in Eg as (id' & c & Hk%arr_eq & Hc & _). congruence.
Qed.

Lemma ref_table_len : uint_val (table_len st.(rollout_database).(ROLLOUT_HEALTH)) = N.of_nat (size s.(rs_health)).
Proof.
  pose proof (ref_size _ _ _ _ HR) as Hs. pose proof (ref_bound _ _ _ _ HR) as Hb.
  unfold MAX_DURABLE_HEALTH_AGGREGATES in Hb. rewrite <-Hs. apply table_len_iter. lia.
Qed.

End related.

(** Keys of the meta table differ. *)
Lemma meta_get_head_ne k v (t : table bytes bytes) :
  k ≠ POLICY_HEAD_KEY → table_get k (table_insert POLICY_HEAD_KEY v t) = table_get k t.
Proof. intros Hk. by apply table_get_insert_ne. Qed.

(** A row of the health table written for an identifier. *)
Lemma ref_insert_row seed (t : table bytes bytes) (m : gmap (arr 32) HealthRecordContent) id c bs :
  (∀ k b, table_get k t = Some b ↔
     ∃ id c, k = arr_bytes id ∧ m !! id = Some c ∧ encode_health_record c seed = Ok b) →
  encode_health_record c seed = Ok bs →
  ∀ k b, table_get k (table_insert (arr_bytes id) bs t) = Some b ↔
    ∃ id' c', k = arr_bytes id' ∧ <[id := c]> m !! id' = Some c' ∧ encode_health_record c' seed = Ok b.
Proof.
  intros Ht Hc k b. destruct (decide (k = arr_bytes id)) as [->|Hk].
  - rewrite table_get_insert_eq. split.
    + intros [= <-]. exists id, c. by rewrite lookup_insert_eq.
    + intros (id' & c' & Hi%arr_eq & Hl & He). subst id'. rewrite lookup_insert_eq in Hl.
      injection Hl as <-. rewrite Hc in He. by apply Ok_inj in He as ->.
  - rewrite table_get_insert_ne by done. rewrite Ht.
    split; intros (id' & c' & -> & Hl & He); exists id', c'; (split; [done|]); (split; [|done]).
    + by rewrite lookup_insert_ne by congruence.
    + by rewrite lookup_insert_ne in Hl by congruence.
Qed.

Lemma len_insert_present (t : table bytes bytes) k v w :
  table_get k t = Some w → len (table_iter (table_insert k v t)) = len (table_iter t).
Proof.
  intros Hg. rewrite (len_perm _ _ (table_iter_remove t k w Hg)).
  rewrite (len_perm _ _ (table_iter_remove _ k v (table_get_insert_eq t k v))), !len_cons. f_equal.
  apply len_perm, NoDup_Permutation; [apply NoDup_fst_NoDup, table_iter_NoDup..|].
  intros [k' v']. rewrite !table_remove_iter, table_insert_iter. tauto.
Qed.

(** ** Installing a policy *)

(** The table of [install_policy] after its head is settled. *)
Definition settle_head st p bs id : result RolloutError (table bytes bytes) :=
  let meta := st.(rollout_database).(ROLLOUT_META) in
  match table_get POLICY_HEAD_KEY meta with
  | Some previous_bytes =>
      let? previous := policy_decode_and_verify previous_bytes st.(rollout_authority) in
      let? previous_id := policy_id previous in
      if negb (bool_decide (previous_id = id)) then
        verify_successor_of p previous ;?
        Ok (table_insert POLICY_HEAD_KEY bs meta)
      else
        fail_if (negb (bool_decide (previous_bytes = bs))) PolicyIdCollision ;?
        Ok meta
  | None =>
      validate_policy_transition p.(policy_content) None ;?
      Ok (table_insert POLICY_HEAD_KEY bs meta)
  end.

Lemma settle_head_spec a seed st s p bs id :
  refines a seed st s → policy_encode p = Ok bs → policy_id p = Ok id →
  ∃ meta, settle_head st p bs id = (spec_admits s p id ;? Ok meta) ∧
    (∀ k, k ≠ POLICY_HEAD_KEY → table_get k meta = table_get k st.(rollout_database).(ROLLOUT_META)) ∧
    (spec_admits s p id = Ok tt → table_get POLICY_HEAD_KEY meta = Some bs).
Proof.
  intros HR He Hi. unfold settle_head, spec_admits. pose proof (ref_head _ _ _ _ HR) as Hh.
  set (meta := ROLLOUT_META (rollout_database st)) in *. destruct (rs_head s) as [q|].
  - destruct Hh as (qb & Hq & Heq & Hvq). rewrite Hq, (ref_authority _ _ _ _ HR).
    rewrite (proj2 (policy_decode_ok qb a q)) by done. cbn [rbind].
    destruct (policy_id q) as [qid|e] eqn:Eq; cbn [rbind]; [|exists meta; by split_and!].
    destruct (negb (bool_decide (qid = id))) eqn:Ed.
    + exists (table_insert POLICY_HEAD_KEY bs meta). split_and!; [done| |].
      * intros k Hk. by apply table_get_insert_ne.
      * intros _. apply table_get_insert_eq.
    + exists meta. assert (bool_decide (q = p) = bool_decide (qb = bs)) as ->.
      { apply bool_decide_ext. split; [intros ->; congruence|intros ->; by eapply policy_encode_inj]. }
      split_and!; [done..|]. intros Hb%fail_if_ok. apply negb_false_iff, bool_decide_eq_true in Hb. by subst.
  - rewrite Hh. exists (table_insert POLICY_HEAD_KEY bs meta). split_and!; [done| |].
    + intros k Hk. by apply table_get_insert_ne.
    + intros _. apply table_get_insert_eq.
Qed.

Definition spec_health_row s p id : result RolloutError (gmap (arr 32) HealthRecordContent) :=
  match s.(rs_health) !! id with
  | Some c => validate_health_policy_binding c p id ;? Ok s.(rs_health)
  | None =>
      fail_if (MAX_DURABLE_HEALTH_AGGREGATES <=? N.of_nat (size s.(rs_health)))%N HealthAggregateCapacity ;?
      validate_health_content (fresh_health p id) ;?
      Ok (<[id := fresh_health p id]> s.(rs_health))
  end.

Lemma spec_install_unfold s p :
  spec_install s p =
  (let? id := policy_id p in
   spec_admits s p id ;?
   let? m := spec_health_row s p id in
   Ok {| rs_head := Some p; rs_health := m |}).
Proof.
  unfold spec_install, spec_health_row. destruct (policy_id p) as [id|]; [|done]. cbn [rbind].
  destruct (spec_admits s p id); [|done]. cbn [rbind]. destruct (rs_health s !! id) as [c|].
  - by destruct (validate_health_policy_binding c p id).
  - destruct (fail_if _ _); [|done]. cbn [rbind]. by destruct (validate_health_content (fresh_health p id)).
Qed.

(** What the health table shows of a map of contents. *)
Record shows seed (t : table bytes bytes) (m : gmap (arr 32) HealthRecordContent) : Prop := {
  shows_rows k bs : table_get k t = Some bs ↔
    ∃ id c, k = arr_bytes id ∧ m !! id = Some c ∧ encode_health_record c seed = Ok bs;
  shows_valid id c : m !! id = Some c → validate_health_content c = Ok tt;
  shows_size : len (table_iter t) = N.of_nat (size m);
  shows_bound : (N.of_nat (size m) <= MAX_DURABLE_HEALTH_AGGREGATES)%N
}.

Lemma refines_shows a seed st s :
  refines a seed st s → shows seed st.(rollout_database).(ROLLOUT_HEALTH) s.(rs_health).
Proof. intros []. by split. Qed.

Lemma ensure_health_spec a seed st s p id :
  refines a seed st s →
  match spec_health_row s p id with
  | Err e => ensure_health_record_in_write st.(rollout_database).(ROLLOUT_HEALTH) p id seed = Err e
  | Ok m => ∃ t, ensure_health_record_in_write st.(rollout_database).(ROLLOUT_HEALTH) p id seed = Ok t ∧ shows seed t m
  end.
Proof.
  intros HR. unfold spec_health_row, ensure_health_record_in_write. rewrite (ref_health_get _ _ _ _ HR id).
  pose proof (refines_shows _ _ _ _ HR) as HS. destruct (rs_health s !! id) as [c|] eqn:Ec.
  - destruct (encode_health_total c seed (ref_valid _ _ _ _ HR _ _ Ec)) as [bs Hb]. rewrite Hb.
    destruct (decode_encoded_health _ _ _ Hb) as [mac ->]. cbn [rbind health_content].
    destruct (validate_health_policy_binding c p id) as [[]|e]; cbn [rbind]; eauto.
  - rewrite (ref_table_len _ _ _ _ HR). unfold fail_if.
    destruct (N.leb_spec MAX_DURABLE_HEALTH_AGGREGATES (N.of_nat (size (rs_health s)))); [done|]. cbn [rbind].
    fold (fresh_health p id). destruct (validate_health_content (fresh_health p id)) as [[]|e] eqn:Ev.
    + destruct (encode_health_total _ seed Ev) as [bs Hb]. rewrite Hb. cbn [rbind].
      eexists. split; [done|]. split.
      * apply ref_insert_row; [apply HS|done].
      * intros id' c' Hl. destruct (decide (id' = id)) as [->|Hne].
        { rewrite lookup_insert_eq in Hl. by injection Hl as <-. }
        rewrite lookup_insert_ne in Hl by done. by apply (shows_valid _ _ _ HS id').
      * assert (table_get (arr_bytes id) st.(rollout_database).(ROLLOUT_HEALTH) = None) as Hg
          by (by rewrite (ref_health_get _ _ _ _ HR id), Ec).
        rewrite (len_perm _ _ (table_iter_insert _ _ _ Hg)), len_cons, (shows_size _ _ _ HS).
        rewrite map_size_insert_None by done. lia.
      * rewrite map_size_insert_None by done. lia.
    + cbn [rbind]. unfold encode_health_record. by rewrite Ev.
Qed.

Lemma install_spec a seed st s bs :
  refines a seed st s →
  match (let? p := policy_decode_and_verify bs a in let? s' := spec_install s p in Ok (p, s')) with
  | Err e => install_policy st bs = Err e
  | Ok (p, s') => ∃ id st', policy_id p = Ok id ∧
      install_policy st bs = Ok (evaluate_cohort seed p id, st') ∧ refines a seed st' s'
  end.
Proof.
  intros HR. unfold install_policy. rewrite (ref_authority _ _ _ _ HR).
  destruct (policy_decode_and_verify bs a) as [p|e] eqn:Ep; cbn [rbind]; [|done].
  apply policy_decode_ok in Ep as [He Hv]. rewrite spec_install_unfold.
  destruct (policy_id p) as [id|e] eqn:Ei; cbn [rbind]; [|done].
  rewrite (ref_read_seed _ _ _ _ HR). cbn [rbind].
  destruct (settle_head_spec _ _ _ _ p bs id HR He Ei) as (meta & Hm & Hother & Hhead).
  unfold settle_head in Hm. rewrite (ref_authority _ _ _ _ HR) in Hm. cbn zeta in Hm. rewrite Hm.
  destruct (spec_admits s p id) as [[]|e]; cbn [rbind]; [|done].
  pose proof (ensure_health_spec _ _ _ _ p id HR) as Hh.
  destruct (spec_health_row s p id) as [m|e]; cbn [rbind]; [|by rewrite Hh].
  destruct Hh as (t & -> & [H1 H2 H3 H4]). cbn [rbind]. do 2 eexists. split; [done|]. split; [done|].
  unfold with_rollout_database.
  split; cbn [rollout_database rollout_authority ROLLOUT_META ROLLOUT_HEALTH rs_head rs_health]; try done.
  - by apply HR.
  - rewrite Hother by done. by apply HR.
  - rewrite Hother by done. by apply HR.
  - rewrite Hother by done. by apply HR.
  - exists bs. by rewrite Hhead.
Qed.

(** ** Health events and readers *)

Lemma record_spec a seed st s id event :
  refines a seed st s →
  match spec_record s id event with
  | Err e => record_health st id event = Err e
  | Ok (snapshot, s') => ∃ st', record_health st id event = Ok (snapshot, st') ∧ refines a seed st' s'
  end.
Proof.
  intros HR. unfold spec_record, record_health.
  rewrite (ref_read_seed _ _ _ _ HR), (ref_read_policy _ _ _ _ HR). cbn [rbind].
  destruct (ok_or (rs_head s) NoInstalledPolicy) as [p|e]; cbn [rbind]; [|done].
  destruct (policy_id p) as [pid|e]; cbn [rbind]; [|done].
  destruct (fail_if _ StaleHealthPolicy); cbn [rbind]; [|done].
  rewrite (ref_health_get _ _ _ _ HR id). pose proof (refines_shows _ _ _ _ HR) as HS.
  destruct (rs_health s !! id) as [c|] eqn:Ec; cbn [ok_or rbind]; [|done].
  destruct (encode_health_total c seed (ref_valid _ _ _ _ HR _ _ Ec)) as [bs Hb]. rewrite Hb. cbn [ok_or rbind].
  destruct (decode_encoded_health _ _ _ Hb) as [mac ->]. cbn [rbind health_content].
  destruct (counters_increment (hr_counters c) event) as [counters|e]; cbn [rbind]; [|done].
  fold (with_counters c counters). set (c' := with_counters c counters).
  unfold snapshot_from_content. destruct (validate_health_content c') as [[]|e] eqn:Ev; cbn [rbind].
  - destruct (encode_health_total _ seed Ev) as [bs' Hb']. rewrite Hb'. cbn [rbind].
    eexists. split; [done|]. unfold with_rollout_database.
    split; cbn [rollout_database rollout_authority ROLLOUT_META ROLLOUT_HEALTH rs_head rs_health];
      try by apply HR.
    + apply ref_insert_row; [apply HS|done].
    + intros id' d Hl. destruct (decide (id' = id)) as [->|Hne].
      { rewrite lookup_insert_eq in Hl. by injection Hl as <-. }
      rewrite lookup_insert_ne in Hl by done. by apply (shows_valid _ _ _ HS id').
    + rewrite (len_insert_present _ _ _ bs), (shows_size _ _ _ HS).
      { by rewrite map_size_insert_Some by eauto. }
      by rewrite (ref_health_get _ _ _ _ HR id), Ec, Hb.
    + rewrite map_size_insert_Some by eauto. apply HS.
  - unfold encode_health_record. by rewrite Ev.
Qed.

Lemma evaluation_spec a seed st s : refines a seed st s → current_evaluation st = spec_evaluation seed s.
Proof.
  intros HR. unfold current_evaluation, spec_evaluation. rewrite (ref_read_seed _ _ _ _ HR). cbn [rbind].
  pose proof (ref_head _ _ _ _ HR) as Hh. destruct (rs_head s) as [p|]; [|by rewrite Hh].
  destruct Hh as (bs & -> & He & Hv). rewrite (ref_authority _ _ _ _ HR).
  by rewrite (proj2 (policy_decode_ok bs a p)).
Qed.

Lemma health_spec a seed st s : refines a seed st s → current_health_snapshot st = spec_health s.
Proof.
  intros HR. unfold current_health_snapshot, spec_health.
  rewrite (ref_read_seed _ _ _ _ HR), (ref_read_policy _ _ _ _ HR). cbn [rbind].
  destruct (rs_head s) as [p|]; [|done]. destruct (policy_id p) as [id|e]; cbn [rbind]; [|done].
  rewrite (ref_health_get _ _ _ _ HR id). destruct (rs_health s !! id) as [c|] eqn:Ec; [|done].
  destruct (encode_health_total c seed (ref_valid _ _ _ _ HR _ _ Ec)) as [bs Hb]. rewrite Hb. cbn [ok_or rbind].
  by destruct (decode_encoded_health _ _ _ Hb) as [mac ->].
Qed.

(** ** Opening *)

Lemma open_new_spec a seed st :
  rollout_open a (Some seed) rollout_create = Ok st → refines a seed st rollout_empty.
Proof.
  unfold rollout_open, rollout_initialize, rollout_create.
  assert (Hn : ∀ k, table_get k (table_new : table bytes bytes) = None).
  { intros k. apply table_get_None. intros v. rewrite table_new_iter. apply not_elem_of_nil. }
  cbn [ROLLOUT_META ROLLOUT_HEALTH]. rewrite Hn. cbn [rbind].
  rewrite (table_get_insert_ne _ _ _ RELEASE_AUTHORITY_KEY), Hn by done. cbn [rbind].
  rewrite !(table_get_insert_ne _ _ _ INSTALLATION_SEED_KEY), Hn by done. cbn [rbind ok_or].
  intros <-%Ok_inj.
  split; cbn [rollout_database rollout_authority ROLLOUT_META ROLLOUT_HEALTH rs_head rs_health rollout_empty].
  - done.
  - rewrite !(table_get_insert_ne _ _ _ DATABASE_SCHEMA_KEY) by done. apply table_get_insert_eq.
  - rewrite (table_get_insert_ne _ _ _ RELEASE_AUTHORITY_KEY) by done. apply table_get_insert_eq.
  - apply table_get_insert_eq.
  - rewrite !(table_get_insert_ne _ _ _ POLICY_HEAD_KEY) by done. apply Hn.
  - intros k bs. rewrite Hn. split; [done|]. intros (id & c & _ & Hl & _). by rewrite lookup_empty in Hl.
  - intros id c Hl. by rewrite lookup_empty in Hl.
  - rewrite table_new_iter. by rewrite map_size_empty.
  - by rewrite map_size_empty.
Qed.

(** An installation that is opened again keeps its seed, whatever the random
    source offers, and is refused to another authority. *)
Lemma reopen_spec a seed st s a' random :
  refines a seed st s →
  rollout_open a' random st.(rollout_database) =
  if bool_decide (a' = a) then Ok st else Err ReleaseAuthorityMismatch.
Proof.
  intros HR. unfold rollout_open, rollout_initialize.
  rewrite (ref_schema _ _ _ _ HR). rewrite bool_decide_true by done. cbn [negb fail_if rbind].
  rewrite (ref_pinned _ _ _ _ HR). destruct (decide (a' = a)) as [->|Hne].
  - rewrite !bool_decide_true by done. cbn [negb fail_if rbind]. rewrite (ref_seed _ _ _ _ HR), len_arr.
    change (N.of_nat 32 =? 32)%N with true. cbn [negb fail_if rbind].
    rewrite <-(ref_authority _ _ _ _ HR). by destruct st as [[m h] au].
  - rewrite !bool_decide_false; [done| |]; [done|]. intros E1%arr_eq. by subst.
Qed.

(** * Reachable stores *)

Inductive rollout_reachable a seed : RolloutLocalStore → Prop :=
| reach_open st : rollout_open a (Some seed) rollout_create = Ok st → rollout_reachable a seed st
| reach_install st bs e st' :
    rollout_reachable a seed st → install_policy st bs = Ok (e, st') → rollout_reachable a seed st'
| reach_record st id event h st' :
    rollout_reachable a seed st → record_health st id event = Ok (h, st') → rollout_reachable a seed st'
| reach_reopen st random st' :
    rollout_reachable a seed st → rollout_open a random st.(rollout_database) = Ok st' →
    rollout_reachable a seed st'.

(** The policies of an installation, newest first, back to the genesis hold. *)
Inductive policy_chain a : list SignedReleasePolicy → Prop :=
| chain_genesis p :
    policy_verify p a = Ok tt → validate_policy_transition p.(policy_content) None = Ok tt →
    policy_chain a [p]
| chain_next p q l :
    policy_chain a (q :: l) → policy_verify p a = Ok tt → verify_successor_of p q = Ok tt →
    policy_chain a (p :: q :: l).

(** The rows of a store and the policies it has installed. *)
Record accounted a s l : Prop := {
  acc_head : s.(rs_head) = head l;
  acc_chain : l ≠ [] → policy_chain a l;
  acc_rows id c : s.(rs_health) !! id = Some c →
    ∃ p, p ∈ l ∧ policy_id p = Ok id ∧ validate_health_policy_binding c p id = Ok tt;
  acc_policies p : p ∈ l →
    ∃ id c, policy_id p = Ok id ∧ s.(rs_health) !! id = Some c ∧ validate_health_policy_binding c p id = Ok tt
}.

Lemma binding_ok c p id :
  validate_health_policy_binding c p id = Ok tt ↔
  c.(hr_policy_id) = id ∧ c.(hr_artifact) = p.(policy_content).(rp_artifact) ∧
  c.(hr_phase) = p.(policy_content).(rp_phase) ∧ c.(hr_cohort) = p.(policy_content).(rp_cohort).
Proof.
  unfold validate_health_policy_binding. rewrite fail_if_ok, !orb_false_iff, !negb_false_iff,
    !bool_decide_eq_true, N.eqb_eq.
  split; [intros [[[? ?] ?] ?]|intros (? & ? & ? & ?)]; split_and!; try done; [by apply uint_eq|congruence].
Qed.

Lemma fresh_binding p id : validate_health_policy_binding (fresh_health p id) p id = Ok tt.
Proof. by apply binding_ok. Qed.

Lemma policy_chain_head a p l : policy_chain a (p :: l) → policy_verify p a = Ok tt.
Proof. by inversion 1. Qed.

Lemma accounted_empty a : accounted a rollout_empty [].
Proof.
  split; cbn; [done|done|intros id c Hl; by rewrite lookup_empty in Hl|by intros p ?%not_elem_of_nil].
Qed.

(** The row of an installed policy, and the others as they were. *)
Lemma spec_health_row_rows s p id m :
  spec_health_row s p id = Ok m →
  ∃ c, m !! id = Some c ∧ validate_health_policy_binding c p id = Ok tt ∧
    (∀ id' c', id' ≠ id → m !! id' = Some c' ↔ rs_health s !! id' = Some c') ∧
    (∀ c', rs_health s !! id = Some c' → c' = c).
Proof.
  unfold spec_health_row. intros Hm. destruct (rs_health s !! id) as [c|] eqn:Ec.
  - apply rbind_unit_ok in Hm as [Hb <-%Ok_inj]. exists c. split_and!; [done..|congruence].
  - apply rbind_unit_ok in Hm as [_ Hm]. apply rbind_unit_ok in Hm as [_ <-%Ok_inj].
    exists (fresh_health p id). rewrite lookup_insert_eq. split_and!; [done|apply fresh_binding| |done].
    intros id' c' Hne. by rewrite lookup_insert_ne.
Qed.

(** The list after an installation. *)
Lemma accounted_install a s l p s' :
  accounted a s l → policy_verify p a = Ok tt → spec_install s p = Ok s' →
  ∃ l', accounted a s' l' ∧ (l' = l ∨ l' = p :: l).
Proof.
  intros HA Hv. rewrite spec_install_unfold. intros H. apply rbind_ok in H as (id & Hid & H).
  apply rbind_unit_ok in H as [Hadm H]. apply rbind_ok in H as (m & Hm & <-%Ok_inj).
  destruct (spec_health_row_rows _ _ _ _ Hm) as (c & Hc & Hb & Hother & Hsame).
  assert (Hold : ∀ q, q ∈ l → ∃ id c, policy_id q = Ok id ∧ m !! id = Some c ∧
    validate_health_policy_binding c q id = Ok tt).
  { intros q Hq. destruct (acc_policies _ _ _ HA q Hq) as (qid & qc & Hqid & Hqc & Hqb).
    exists qid, qc. split_and!; [done| |done]. destruct (decide (qid = id)) as [->|Hne].
    - by rewrite (Hsame _ Hqc).
    - by apply Hother. }
  assert (Hrows : ∀ (l' : list SignedReleasePolicy) id' c', p ∈ l' → (∀ q, q ∈ l → q ∈ l') → m !! id' = Some c' →
    ∃ q, q ∈ l' ∧ policy_id q = Ok id' ∧ validate_health_policy_binding c' q id' = Ok tt).
  { intros l' id' c' Hp Hsub Hl. destruct (decide (id' = id)) as [->|Hne].
    - rewrite Hc in Hl. injection Hl as <-. by exists p.
    - apply Hother in Hl; [|done]. destruct (acc_rows _ _ _ HA _ _ Hl) as (q & Hq & ? & ?). eauto. }
  unfold spec_admits in Hadm. rewrite (acc_head _ _ _ HA) in Hadm. destruct l as [|q l]; cbn [head] in Hadm.
  - exists [p]. split; [|by right]. split; cbn [rs_head rs_health].
    + done.
    + intros _. by constructor.
    + intros id' c' Hl. apply (Hrows [p] _ _ ltac:(by left)); [by intros q ?%not_elem_of_nil|done].
    + intros q ->%list_elem_of_singleton. eauto.
  - apply rbind_ok in Hadm as (qid & Hqid & Hadm). destruct (decide (qid = id)) as [->|Hne].
    + rewrite bool_decide_true in Hadm by done. apply fail_if_ok, negb_false_iff, bool_decide_eq_true in Hadm.
      subst q. exists (p :: l). split; [|by left]. split; cbn [rs_head rs_health].
      * done.
      * apply HA.
      * intros id' c' Hl. apply (Hrows (p :: l) _ _ ltac:(by left)); done.
      * done.
    + rewrite bool_decide_false in Hadm by done. cbn [negb] in Hadm.
      exists (p :: q :: l). split; [|by right]. split; cbn [rs_head rs_health].
      * done.
      * intros _. constructor; [by apply (acc_chain _ _ _ HA)|done..].
      * intros id' c' Hl. apply (Hrows (p :: q :: l) _ _ ltac:(by left)); [by right|done].
      * intros r [->|Hr]%elem_of_cons; eauto.
Qed.

Lemma accounted_record a s l id event h s' :
  accounted a s l → spec_record s id event = Ok (h, s') → accounted a s' l.
Proof.
  intros HA H. unfold spec_record in H. apply rbind_ok in H as (p & Hp & H).
  apply rbind_ok in H as (pid & Hpid & H). apply rbind_unit_ok in H as [_ H].
  apply rbind_ok in H as (c & Hc%ok_or_ok & H). apply rbind_ok in H as (counters & _ & H).
  apply rbind_ok in H as (h' & _ & H%Ok_pair_inj). destruct H as [_ <-].
  assert (Hb : ∀ q i, validate_health_policy_binding (with_counters c counters) q i =
    validate_health_policy_binding c q i) by done.
  split; cbn [rs_head rs_health]; [apply HA|apply HA| |].
  - intros id' c' Hl. destruct (decide (id' = id)) as [->|Hne].
    + rewrite lookup_insert_eq in Hl. injection Hl as <-.
      destruct (acc_rows _ _ _ HA _ _ Hc) as (q & ? & ? & ?). exists q. by rewrite Hb.
    + rewrite lookup_insert_ne in Hl by done. by apply (acc_rows _ _ _ HA).
  - intros q Hq. destruct (acc_policies _ _ _ HA q Hq) as (qid & qc & Hqid & Hqc & Hqb).
    destruct (decide (qid = id)) as [->|Hne].
    + exists id, (with_counters c counters). rewrite lookup_insert_eq, Hb.
      assert (qc = c) as <- by congruence. done.
    + exists qid, qc. by rewrite lookup_insert_ne.
Qed.

Lemma reachable_state a seed st :
  rollout_reachable a seed st → ∃ s l, refines a seed st s ∧ accounted a s l.
Proof.
  induction 1 as [st Ho|st bs e st' _ (s & l & HR & HA) Hi|st id event h st' _ (s & l & HR & HA) Hr
                 |st random st' _ (s & l & HR & HA) Ho].
  - exists rollout_empty, []. split; [by apply open_new_spec|apply accounted_empty].
  - pose proof (install_spec _ _ _ _ bs HR) as Hs.
    destruct (policy_decode_and_verify bs a) as [p|] eqn:Ep; cbn [rbind] in Hs; [|congruence].
    destruct (spec_install s p) as [s'|] eqn:Es; cbn [rbind] in Hs; [|congruence].
    destruct Hs as (id & st'' & _ & Hst & HR'). rewrite Hi in Hst. apply Ok_pair_inj in Hst as [_ ->].
    apply policy_decode_ok in Ep as [_ Hv].
    destruct (accounted_install _ _ _ _ _ HA Hv Es) as (l' & HA' & _). eauto.
  - pose proof (record_spec _ _ _ _ id event HR) as Hs.
    destruct (spec_record s id event) as [[h' s']|] eqn:Es; [|congruence].
    destruct Hs as (st'' & Hst & HR'). rewrite Hr in Hst. apply Ok_pair_inj in Hst as [_ ->].
    exists s', l. split; [done|]. by eapply accounted_record.
  - rewrite (reopen_spec _ _ _ _ _ _ HR), bool_decide_true in Ho by done. apply Ok_inj in Ho as <-. eauto.
Qed.

(** ** Chains *)

(** What the content check says of phase, disposition and cohort. *)
Lemma content_cases content :
  validate_policy_content content = Ok tt →
  content.(rp_artifact) ≠ zero32 ∧
  (uint_val content.(rp_cohort) <= maximum_cohort_basis_points content.(rp_phase))%N ∧
  match content.(rp_disposition) with
  | Containment => uint_val content.(rp_cohort) = 0%N ∧ content.(rp_phase) ≠ LegacyOnlyHold
  | NormalPolicy => uint_val content.(rp_cohort) = 0%N ↔ content.(rp_phase) = LegacyOnlyHold
  end.
Proof.
  unfold validate_policy_content. intros [_ [Ha Hc]%rbind_unit_ok]%rbind_unit_ok.
  apply fail_if_ok, bool_decide_eq_false in Ha. split; [done|].
  destruct (rp_phase content), (rp_disposition content); try discriminate Hc;
    apply fail_if_ok in Hc; rewrite ?negb_false_iff, ?andb_true_iff, ?N.eqb_eq, ?N.leb_le in Hc;
    cbn [maximum_cohort_basis_points] in *; (split; [lia|]); (split; [lia || done|done || lia]).
Qed.

Lemma hold_not_contained content :
  validate_policy_content content = Ok tt → content.(rp_phase) = LegacyOnlyHold →
  content.(rp_disposition) = Containment → False.
Proof. intros (_ & _ & H)%content_cases Hp Hd. rewrite Hd in H. by destruct H. Qed.

Lemma hold_content content :
  validate_policy_content content = Ok tt → content.(rp_phase) = LegacyOnlyHold →
  content.(rp_disposition) = NormalPolicy ∧ uint_val content.(rp_cohort) = 0%N.
Proof.
  intros (_ & _ & H)%content_cases Hp. destruct (rp_disposition content); [by rewrite H|by destruct H].
Qed.

Lemma transition_some p q :
  verify_successor_of p q = Ok tt ↔
  validate_policy_content p.(policy_content) = Ok tt ∧
  uint_val p.(policy_content).(rp_epoch) = (uint_val q.(policy_content).(rp_epoch) + 1)%N ∧
  (∃ id, policy_id q = Ok id ∧ p.(policy_content).(rp_previous) = Some id) ∧
  (phase_ordinal q.(policy_content).(rp_phase) <= phase_ordinal p.(policy_content).(rp_phase)
   <= phase_ordinal q.(policy_content).(rp_phase) + 1)%N.
Proof.
  unfold verify_successor_of, validate_policy_transition. rewrite rbind_unit_ok. split.
  - intros [Hv H]. split; [done|]. apply rbind_ok in H as (ep & Hep%ok_or_ok & H).
    apply rbind_unit_ok in H as [He H]. apply fail_if_ok, negb_false_iff, u64_eqb_eq in He.
    apply rbind_ok in H as (id & Hid & H). apply rbind_unit_ok in H as [Hp H].
    apply fail_if_ok, negb_false_iff, bool_decide_eq_true in Hp.
    apply rbind_unit_ok in H as [Ho _]. apply fail_if_ok, orb_false_iff in Ho as [Ho1 Ho2].
    apply N.ltb_ge in Ho1, Ho2. subst ep. apply u64_checked_add_Some in Hep.
    split; [by rewrite Hep|]. split; [by exists id|]. lia.
  - intros (Hv & He & (id & Hid & Hp) & Ho). split; [done|]. apply rbind_ok. exists p.(policy_content).(rp_epoch).
    split; [by apply ok_or_ok, u64_checked_add_Some|]. apply rbind_unit_ok.
    split; [by apply fail_if_ok, negb_false_iff, u64_eqb_eq|]. rewrite Hid. cbn [rbind]. apply rbind_unit_ok.
    split; [by apply fail_if_ok, negb_false_iff, bool_decide_eq_true|]. apply rbind_unit_ok.
    assert (phase_ordinal (rp_phase (policy_content q)) <= 4)%N by (by destruct (rp_phase (policy_content q))).
    split; [apply fail_if_ok, orb_false_iff; split; apply N.ltb_ge; lia|].
    apply fail_if_ok. rewrite <-not_true_iff_false, !andb_true_iff, !bool_decide_eq_true.
    intros [[_ Hph] Hd]. by apply (hold_not_contained _ Hv).
Qed.

Lemma transition_none p :
  validate_policy_transition p.(policy_content) None = Ok tt ↔
  validate_policy_content p.(policy_content) = Ok tt ∧
  uint_val p.(policy_content).(rp_epoch) = 1%N ∧ p.(policy_content).(rp_previous) = None ∧
  p.(policy_content).(rp_phase) = LegacyOnlyHold.
Proof.
  unfold validate_policy_transition. rewrite rbind_unit_ok, fail_if_ok, !orb_false_iff, !negb_false_iff,
    !bool_decide_eq_true, !N.eqb_eq. split.
  - intros (Hv & [[[[He Hp] Hph] _] _]). split_and!; [done..| |done]. by destruct (rp_previous _).
  - intros (Hv & He & Hp & Hph). rewrite Hp. split; [done|].
    pose proof Hv as Hc. apply hold_content in Hc as [? ?]; [|done]. done.
Qed.

(** Epochs count the chain, and phases advance by at most one step each. *)
Lemma policy_chain_epoch a l i p :
  policy_chain a l → l !! i = Some p →
  (uint_val p.(policy_content).(rp_epoch) + N.of_nat i = N.of_nat (length l))%N.
Proof.
  intros Hl. revert i p. induction Hl as [p Hv Ht|p q l Hl IH Hv Hs]; intros i r Hi.
  - destruct i; [|done]. injection Hi as <-. apply transition_none in Ht as (_ & -> & _). done.
  - destruct i as [|i].
    + injection Hi as <-. apply transition_some in Hs as (_ & -> & _). specialize (IH 0 q eq_refl).
      cbn [length] in *. lia.
    + specialize (IH i r Hi). cbn [length] in *. lia.
Qed.

Abbreviation ordinal_of p := (phase_ordinal p.(policy_content).(rp_phase)).

Lemma policy_chain_phase a l i j p q :
  policy_chain a l → i <= j → l !! i = Some p → l !! j = Some q →
  (ordinal_of q <= ordinal_of p <= ordinal_of q + N.of_nat (j - i))%N.
Proof.
  intros Hl. revert i j p q. induction Hl as [p Hv Ht|p q l Hl IH Hv Hs]; intros i j r t Hij Hi Hj.
  - destruct i, j; try done. injection Hi as <-. injection Hj as <-. lia.
  - apply transition_some in Hs as (_ & _ & _ & Ho). destruct j as [|j].
    + destruct i; [|lia]. injection Hi as <-. injection Hj as <-. lia.
    + destruct i as [|i].
      * injection Hi as <-. specialize (IH 0 j q t ltac:(lia) eq_refl Hj). rewrite Nat.sub_0_r in *. lia.
      * specialize (IH i j r t ltac:(lia) Hi Hj). by replace (S j - S i) with (j - i) by lia.
Qed.

Lemma policy_chain_genesis a l p : policy_chain a l → last l = Some p → ordinal_of p = 0%N.
Proof.
  intros Hl. revert p. induction Hl as [p Hv Ht|p q l Hl IH Hv Hs]; intros r Hr.
  - injection Hr as <-. apply transition_none in Ht as (_ & _ & _ & ->). done.
  - by apply IH.
Qed.

Lemma policy_chain_content a l p : policy_chain a l → p ∈ l → validate_policy_content p.(policy_content) = Ok tt.
Proof.
  induction 1 as [q Hv Ht|q r l Hl IH Hv Hs].
  - intros ->%list_elem_of_singleton. by apply transition_none in Ht as [? _].
  - intros [->|Hp]%elem_of_cons; [by apply transition_some in Hs as [? _]|by apply IH].
Qed.

(** * Theorems on the store *)

(** C28: Installing a policy does what the abstract store says: bytes that are
    not a policy verified under the pinned authority are refused as such, and
    otherwise the installation succeeds exactly when the abstract one does,
    fails with the same error and changes nothing, or returns the evaluation of
    the policy and continues to refine the abstract store. *)
Theorem install_refines a seed st s bs :
  refines a seed st s →
  match (let? p := policy_decode_and_verify bs a in let? s' := spec_install s p in Ok (p, s')) with
  | Err e => install_policy st bs = Err e
  | Ok (p, s') => ∃ id st', policy_id p = Ok id ∧
      install_policy st bs = Ok (evaluate_cohort seed p id, st') ∧ refines a seed st' s'
  end.
Proof. apply install_spec. Qed.

(** Recording a health event does what the abstract store says: it counts
    one event for the newest policy only, refuses any other policy, a missing
    row and a counter that would overflow with the error of the abstract store,
    and continues to refine it. *)
Theorem record_health_refines a seed st s id event :
  refines a seed st s →
  match spec_record s id event with
  | Err e => record_health st id event = Err e
  | Ok (snapshot, s') => ∃ st', record_health st id event = Ok (snapshot, st') ∧ refines a seed st' s'
  end.
Proof. apply record_spec. Qed.

(** In every reachable store either no policy was ever installed, or the
    installed one ends a chain of policies, each verified under the pinned
    authority and the verified successor of the one before, back to a hold of
    epoch one: its epoch is the length of the chain, phases never rewind and
    advance by at most one step per policy, its cohort is within the limit of
    its phase, and at most sixteen health rows are kept. *)
Theorem rollout_policy_chain a seed st :
  rollout_reachable a seed st →
  (len (table_iter st.(rollout_database).(ROLLOUT_HEALTH)) <= MAX_DURABLE_HEALTH_AGGREGATES)%N ∧
  ((has_installed_policy st = false ∧ current_evaluation st = Ok None) ∨
   ∃ p id l, policy_chain a (p :: l) ∧ policy_id p = Ok id ∧
     current_evaluation st = Ok (Some (evaluate_cohort seed p id)) ∧
     uint_val p.(policy_content).(rp_epoch) = N.of_nat (S (length l)) ∧
     (uint_val p.(policy_content).(rp_cohort) <= maximum_cohort_basis_points p.(policy_content).(rp_phase))%N ∧
     (∀ g, last (p :: l) = Some g → g.(policy_content).(rp_phase) = LegacyOnlyHold) ∧
     ∀ i j q r, i <= j → (p :: l) !! i = Some q → (p :: l) !! j = Some r →
       (ordinal_of r <= ordinal_of q <= ordinal_of r + N.of_nat (j - i))%N).
Proof.
  intros (s & l & HR & HA)%reachable_state.
  split. { rewrite (ref_size _ _ _ _ HR). apply HR. }
  rewrite (evaluation_spec _ _ _ _ HR). unfold spec_evaluation, has_installed_policy.
  pose proof (ref_head _ _ _ _ HR) as Hh. rewrite (acc_head _ _ _ HA) in *. destruct l as [|p l]; cbn [head] in *.
  { left. by rewrite Hh. }
  right. pose proof (acc_chain _ _ _ HA ltac:(done)) as Hc.
  destruct (acc_policies _ _ _ HA p ltac:(by left)) as (id & c & Hid & _ & _). exists p, id, l.
  split_and!; [done|done|by rewrite Hid| | | |].
  - pose proof (policy_chain_epoch _ _ 0 p Hc eq_refl) as He. cbn [length] in He. lia.
  - apply (content_cases _ (policy_chain_content _ _ p Hc ltac:(by left))).
  - intros g Hg. apply (policy_chain_genesis _ _ _ Hc) in Hg. by destruct (rp_phase (policy_content g)).
  - intros i j q r. by eapply policy_chain_phase.
Qed.

Lemma snapshot_total c : validate_health_content c = Ok tt → ∃ h, snapshot_from_content c = Ok h.
Proof. unfold snapshot_from_content. intros ->. cbn. eauto. Qed.

Lemma inspect_rows_ok a seed st s l :
  refines a seed st s → accounted a s l → inspect_health_rows st.(rollout_database).(ROLLOUT_HEALTH) seed = Ok tt.
Proof.
  intros HR HA. unfold inspect_health_rows. apply try_for_ok, Forall_forall. intros [k bs] Hin.
  apply table_get_iter, (ref_health _ _ _ _ HR) in Hin as (id & c & -> & Hc & He). cbn [fst snd].
  destruct (decode_encoded_health _ _ _ He) as [mac ->]. cbn [rbind health_content].
  destruct (acc_rows _ _ _ HA _ _ Hc) as (p & _ & _ & [Hi _]%binding_ok).
  by rewrite Hi, bool_decide_true.
Qed.

(** Reading never fails on a reachable store, and the read-only inspection
    agrees with the store's own readers: it shows the evaluation and the health
    the store reports, and it refuses every other authority. *)
Theorem rollout_reads a seed st :
  rollout_reachable a seed st →
  (∃ e h, current_evaluation st = Ok e ∧ current_health_snapshot st = Ok h ∧
    inspect_existing_rollout_store (Some st.(rollout_database)) a =
      Ok (Some {| ro_evaluation := e; ro_health := h |}) ∧
    (e = None ↔ h = None)) ∧
  ∀ a', a' ≠ a → inspect_existing_rollout_store (Some st.(rollout_database)) a' = Err ReleaseAuthorityMismatch.
Proof.
  intros (s & l & HR & HA)%reachable_state. unfold inspect_existing_rollout_store.
  rewrite (evaluation_spec _ _ _ _ HR), (health_spec _ _ _ _ HR), (ref_schema _ _ _ _ HR), (ref_pinned _ _ _ _ HR).
  cbn [ok_or rbind]. rewrite bool_decide_true by done. cbn [negb fail_if rbind]. split.
  2:{ intros a' Hne. rewrite bool_decide_false; [done|]. intros Ha%arr_eq. by subst. }
  rewrite bool_decide_true by done. cbn [negb fail_if rbind].
  rewrite (ref_read_seed _ _ _ _ HR), <-(ref_authority _ _ _ _ HR), (ref_read_policy _ _ _ _ HR). cbn [rbind].
  rewrite (ref_table_len _ _ _ _ HR), (proj2 (N.ltb_ge _ _) (ref_bound _ _ _ _ HR)). cbn [fail_if rbind].
  rewrite (inspect_rows_ok _ _ _ _ _ HR HA). cbn [rbind].
  unfold spec_evaluation, spec_health. rewrite (acc_head _ _ _ HA). destruct l as [|p l]; cbn [head].
  - assert (table_iter (ROLLOUT_HEALTH (rollout_database st)) = []) as ->.
    { destruct (table_iter _) as [|[k b] t] eqn:Et; [done|].
      assert (Hin : (k, b) ∈ table_iter (ROLLOUT_HEALTH (rollout_database st))) by (rewrite Et; by left).
      apply table_get_iter, (ref_health _ _ _ _ HR) in Hin as (id & c & _ & Hc & _).
      apply (acc_rows _ _ _ HA) in Hc as (q & Hq & _). by apply not_elem_of_nil in Hq. }
    by do 2 eexists.
  - destruct (acc_policies _ _ _ HA p ltac:(by left)) as (id & c & Hid & Hc & Hb). rewrite Hid. cbn [rbind].
    rewrite (ref_health_get _ _ _ _ HR id), Hc. pose proof (ref_valid _ _ _ _ HR _ _ Hc) as Hv.
    destruct (encode_health_total c seed Hv) as [bs He]. rewrite He. cbn [ok_or rbind].
    destruct (decode_encoded_health _ _ _ He) as [mac ->]. cbn [rbind health_content]. rewrite Hb. cbn [rbind].
    destruct (snapshot_total c Hv) as [h ->]. cbn [rbind]. by do 2 eexists.
Qed.

(** ** Capacity *)

Lemma fresh_health_valid p id :
  validate_policy_content p.(policy_content) = Ok tt → id ≠ zero32 →
  validate_health_content (fresh_health p id) = Ok tt.
Proof.
  intros (Ha & Hc & _)%content_cases Hid. unfold validate_health_content, fresh_health.
  cbn [hr_version hr_policy_id hr_artifact hr_phase hr_cohort hr_counters].
  rewrite bool_decide_true, !bool_decide_false, (proj2 (N.ltb_ge _ _)) by done. reflexivity.
Qed.

(** The policy may follow what is installed. *)
Definition may_follow st p : Prop :=
  match read_current_policy_from_table st.(rollout_database).(ROLLOUT_META) st.(rollout_authority) with
  | Ok (Some q) => verify_successor_of p q = Ok tt
  | _ => validate_policy_transition p.(policy_content) None = Ok tt
  end.

(** C38: A store takes sixteen policies and no more: a policy that may follow
    the installed one and has no health row yet is installed when fewer than
    sixteen rows are kept, and refused for capacity when there are sixteen;
    a containment is no exception. *)
Theorem rollout_capacity a seed st bs p id :
  rollout_reachable a seed st →
  policy_decode_and_verify bs a = Ok p → policy_id p = Ok id → id ≠ zero32 →
  table_get (arr_bytes id) st.(rollout_database).(ROLLOUT_HEALTH) = None → may_follow st p →
  ((len (table_iter st.(rollout_database).(ROLLOUT_HEALTH)) < MAX_DURABLE_HEALTH_AGGREGATES)%N →
   ∃ st', install_policy st bs = Ok (evaluate_cohort seed p id, st') ∧
     table_get POLICY_HEAD_KEY st'.(rollout_database).(ROLLOUT_META) = Some bs) ∧
  ((MAX_DURABLE_HEALTH_AGGREGATES <= len (table_iter st.(rollout_database).(ROLLOUT_HEALTH)))%N →
   install_policy st bs = Err HealthAggregateCapacity).
Proof.
  intros (s & l & HR & HA)%reachable_state Hp Hid Hz Hrow Hf. pose proof (install_spec _ _ _ _ bs HR) as Hs.
  rewrite Hp in Hs. cbn [rbind] in Hs. rewrite spec_install_unfold, Hid in Hs. cbn [rbind] in Hs.
  assert (Hadm : spec_admits s p id = Ok tt).
  { unfold may_follow in Hf. rewrite (ref_read_policy _ _ _ _ HR) in Hf. unfold spec_admits.
    rewrite (acc_head _ _ _ HA) in *. destruct l as [|q l]; cbn [head] in *; [done|].
    destruct (acc_policies _ _ _ HA q ltac:(by left)) as (qid & c & Hqid & Hc & _). rewrite Hqid. cbn [rbind].
    rewrite bool_decide_false; [done|]. intros ->. rewrite (ref_health_get _ _ _ _ HR id), Hc in Hrow.
    destruct (encode_health_total c seed (ref_valid _ _ _ _ HR _ _ Hc)) as [b Hb]. by rewrite Hb in Hrow. }
  rewrite Hadm in Hs. cbn [rbind] in Hs. unfold spec_health_row in Hs. rewrite (ref_health_get _ _ _ _ HR id) in Hrow.
  destruct (rs_health s !! id) as [c|] eqn:Ec.
  { destruct (encode_health_total c seed (ref_valid _ _ _ _ HR _ _ Ec)) as [b Hb]. by rewrite Hb in Hrow. }
  apply policy_decode_ok in Hp as [He _]. pose proof (proj1 (policy_encode_ok _ _) He) as (Hv & _).
  rewrite (ref_size _ _ _ _ HR), (fresh_health_valid _ _ Hv Hz) in *. split; intros Hn.
  - rewrite (proj2 (N.leb_gt _ _) Hn) in Hs. cbn [fail_if rbind] in Hs.
    destruct Hs as (id' & st' & Hid' & Hi & HR'). rewrite Hid in Hid'. apply Ok_inj in Hid' as <-.
    exists st'. split; [done|]. pose proof (ref_head _ _ _ _ HR') as (b & Hb & Heb & _). congruence.
  - by rewrite (proj2 (N.leb_le _ _) Hn) in Hs.
Qed.

(** ** Privacy of the seed *)

Inductive rollout_op :=
| InstallOp (encoded_policy : bytes)
| RecordOp (id : arr 32) (event : RolloutHealthEvent)
| ReopenOp (random : option (arr 32)).

(** One operation; a refused one leaves the store as it is. *)
Definition run_op st (op : rollout_op) : RolloutLocalStore :=
  match op with
  | InstallOp bs => match install_policy st bs with Ok (_, st') => st' | Err _ => st end
  | RecordOp id event => match record_health st id event with Ok (_, st') => st' | Err _ => st end
  | ReopenOp random =>
      match rollout_open st.(rollout_authority) random st.(rollout_database) with
      | Ok st' => st'
      | Err _ => st
      end
  end.

(** The operation on the abstract store, which has no seed. *)
Definition spec_op a s (op : rollout_op) : rollout_state :=
  match op with
  | InstallOp bs =>
      match (let? p := policy_decode_and_verify bs a in spec_install s p) with Ok s' => s' | Err _ => s end
  | RecordOp id event => match spec_record s id event with Ok (_, s') => s' | Err _ => s end
  | ReopenOp _ => s
  end.

Lemma run_op_spec a seed st s op : refines a seed st s → refines a seed (run_op st op) (spec_op a s op).
Proof.
  intros HR. destruct op as [bs|id event|random]; cbn [run_op spec_op].
  - pose proof (install_spec _ _ _ _ bs HR) as Hs.
    destruct (policy_decode_and_verify bs a) as [p|]; cbn [rbind] in *; [|by rewrite Hs].
    destruct (spec_install s p) as [s'|]; cbn [rbind] in *; [|by rewrite Hs].
    by destruct Hs as (id & st' & _ & -> & HR').
  - pose proof (record_spec _ _ _ _ id event HR) as Hs.
    destruct (spec_record s id event) as [[h s']|]; [|by rewrite Hs]. by destruct Hs as (st' & -> & HR').
  - by rewrite (ref_authority _ _ _ _ HR), (reopen_spec _ _ _ _ _ _ HR), bool_decide_true.
Qed.

Lemma run_ops_spec a seed ops st s :
  refines a seed st s → refines a seed (fold_left run_op ops st) (fold_left (spec_op a) ops s).
Proof. revert st s; induction ops as [|op ops IH]; intros st s HR; [done|]. apply IH. by apply run_op_spec. Qed.

(** The private seed never leaves the installation: two installations that
    were opened with different seeds and went through the same policies, health
    events and restarts export the same document and report the same health,
    so neither says anything about the seed or the cohort bucket. *)
Theorem rollout_export_private a seed1 seed2 st1 st2 ops authorization :
  rollout_open a (Some seed1) rollout_create = Ok st1 →
  rollout_open a (Some seed2) rollout_create = Ok st2 →
  export_current_health_explicitly (fold_left run_op ops st1) authorization =
    export_current_health_explicitly (fold_left run_op ops st2) authorization ∧
  current_health_snapshot (fold_left run_op ops st1) = current_health_snapshot (fold_left run_op ops st2).
Proof.
  intros H1%open_new_spec H2%open_new_spec.
  apply (run_ops_spec _ _ ops) in H1, H2. unfold export_current_health_explicitly.
  by rewrite (health_spec _ _ _ _ H1), (health_spec _ _ _ _ H2).
Qed.

(** * Theorems on policies *)

(** What an issued policy is. *)
Lemma policy_issue_ok key previous previous_authority artifact phase disposition cohort p :
  policy_issue key previous previous_authority artifact phase disposition cohort = Ok p →
  policy_verify p (verifying_key_of key) = Ok tt ∧
  validate_policy_transition p.(policy_content) previous = Ok tt ∧
  p.(policy_content).(rp_phase) = phase ∧ p.(policy_content).(rp_disposition) = disposition ∧
  len p.(policy_signature) = 64%N.
Proof.
  intros H. unfold policy_issue in H.
  apply rbind_ok in H as (auth & Ha & H). apply rbind_unit_ok in Ha as [_ Ha%Ok_inj]. subst auth.
  apply rbind_ok in H as ([epoch prev] & _ & H). apply rbind_unit_ok in H as [Hv H].
  apply rbind_unit_ok in H as [Ht H]. apply rbind_ok in H as (m & Hm & H).
  apply rbind_unit_ok in H as [Hver <-%Ok_inj]. cbn [policy_content policy_signature rp_phase rp_disposition].
  split_and!; [done..|]. by rewrite len_arr.
Qed.

Lemma signed_policy_encodes p a :
  policy_verify p a = Ok tt → (len p.(policy_signature) <= 256)%N → ∃ sent, policy_encode p = Ok sent.
Proof.
  intros [Hv _]%rbind_unit_ok Hl. destruct (postcard_total p) as [sent Hs]. exists sent.
  apply policy_encode_ok. split; [done|]. split; [done|]. pose proof (policy_size _ _ Hs) as Hz.
  assert (256 < U64_BOUND)%N by done. unfold MAX_SIGNED_RELEASE_POLICY_BYTES. lia.
Qed.

(** Strict decoding accepts exactly the canonical encodings of policies
    that verify under the authority, each policy has one encoding, and what an
    authority issues is accepted: an issued policy verifies under the issuer's
    key, follows the policy it was issued after, and reads back from its
    encoding. *)
Theorem policy_codec_exact bs a p :
  (policy_decode_and_verify bs a = Ok p ↔ policy_encode p = Ok bs ∧ policy_verify p a = Ok tt) ∧
  (∀ q, policy_encode p = Ok bs → policy_encode q = Ok bs → p = q) ∧
  (∀ key previous previous_authority artifact phase disposition cohort,
     policy_issue key previous previous_authority artifact phase disposition cohort = Ok p →
     policy_verify p (verifying_key_of key) = Ok tt ∧
     validate_policy_transition p.(policy_content) previous = Ok tt ∧
     p.(policy_content).(rp_phase) = phase ∧ p.(policy_content).(rp_disposition) = disposition ∧
     ∃ sent, policy_encode p = Ok sent ∧ policy_decode_and_verify sent (verifying_key_of key) = Ok p).
Proof.
  split_and!; [apply policy_decode_ok|intros q; apply policy_encode_inj|].
  intros key previous pa artifact ph disp cohort H. apply policy_issue_ok in H as (Hv & Ht & Hp & Hd & Hl).
  split_and!; [done..|]. destruct (signed_policy_encodes _ _ Hv) as [sent Hs]; [lia|].
  exists sent. split; [done|]. by apply policy_decode_ok.
Qed.

End rollout.

(** * Theorems on the controller *)

Section controller.
Implicit Types (e : CohortEvaluation) (h : RolloutHealthSnapshot) (current : RolloutControllerCurrentState).

(** The health snapshot is that of the evaluated policy. *)
Definition health_matches e h : Prop :=
  h.(hs_policy_id) = e.(ce_policy_id) ∧ h.(hs_artifact) = e.(ce_artifact) ∧
  h.(hs_phase) = e.(ce_phase) ∧ h.(hs_cohort) = e.(ce_cohort).

Lemma health_matches_bool e h :
  negb (bool_decide (h.(hs_policy_id) = e.(ce_policy_id)))
  || negb (bool_decide (h.(hs_artifact) = e.(ce_artifact)))
  || negb (bool_decide (h.(hs_phase) = e.(ce_phase)))
  || negb (uint_val h.(hs_cohort) =? uint_val e.(ce_cohort))%N = false ↔ health_matches e h.
Proof.
  unfold health_matches. rewrite !orb_false_iff, !negb_false_iff, !bool_decide_eq_true, N.eqb_eq.
  split; [intros [[[? ?] ?] ?]|intros (? & ? & ? & ?)]; split_and!; try done; [by apply uint_eq|congruence].
Qed.

(** A zero-tolerance event was counted. *)
Definition unhealthy h : Prop := ∃ n, zero_tolerance_events h.(hs_counters) = Ok n ∧ (0 < uint_val n)%N.
Definition healthy h : Prop := zero_tolerance_events h.(hs_counters) = Ok (as_u64 0).

(** The conditions under which an activation, or a containment, is proposed. *)
Definition may_activate e h current : Prop :=
  e.(ce_disposition) = NormalPolicy ∧ healthy h ∧ current.(cs_disposition) = NormalActivation ∧
  e.(ce_phase) ≠ LegacyOnlyHold ∧ e.(ce_selected) = true ∧
  (target_ordinal current.(cs_target) < target_ordinal (rollout_phase_target e.(ce_phase)))%N.

Definition must_contain e h current : Prop :=
  (e.(ce_disposition) = Containment ∨ e.(ce_disposition) = NormalPolicy ∧ unhealthy h) ∧
  current.(cs_disposition) = NormalActivation ∧ current.(cs_target) ≠ LegacyOnly ∧
  current.(has_authenticated_canonical_evidence) = true.

Lemma zero_tolerance_cases h :
  (∃ er, zero_tolerance_events h.(hs_counters) = Err er) ∨ healthy h ∨ unhealthy h.
Proof.
  unfold healthy, unhealthy. destruct (zero_tolerance_events (hs_counters h)) as [n|er]; [|by left; exists er].
  right. destruct (N.eq_0_gt_0_cases (uint_val n)) as [Hz|Hp]; [left|right; by exists n].
  f_equal. by apply uint_eq.
Qed.

(** The decision once the health record matches. *)
Definition decide_matching e h current : result RolloutError RolloutControllerDecision :=
  let? containment_required :=
    (if bool_decide (e.(ce_disposition) = Containment) then Ok true
     else let? n := zero_tolerance_events h.(hs_counters) in Ok (0 <? uint_val n)%N) in
  if containment_required then
    if bool_decide (current.(cs_target) = LegacyOnly) || negb current.(has_authenticated_canonical_evidence)
    then Ok (Hold ContainmentWithoutCanonicalEvidence current)
    else if bool_decide (current.(cs_disposition) = EmergencyContainment)
    then Ok (Hold AlreadyAtOrBeyondPolicyTarget current)
    else Ok (controller_proposal e current.(cs_target) EmergencyContainment)
  else if bool_decide (current.(cs_disposition) = EmergencyContainment)
  then Ok (Hold ContainmentRequiresExplicitRecovery current)
  else if bool_decide (e.(ce_phase) = LegacyOnlyHold) then Ok (Hold LegacyOnlyPolicy current)
  else if negb e.(ce_selected) then Ok (Hold InstallationOutsideCohort current)
  else if (target_ordinal (rollout_phase_target e.(ce_phase)) <=? target_ordinal current.(cs_target))%N
  then Ok (Hold AlreadyAtOrBeyondPolicyTarget current)
  else Ok (controller_proposal e (target_next current.(cs_target)) NormalActivation).

Lemma decide_contain e h current :
  (e.(ce_disposition) = Containment ∨ e.(ce_disposition) = NormalPolicy ∧ unhealthy h) →
  decide_matching e h current =
  if bool_decide (current.(cs_target) = LegacyOnly) || negb current.(has_authenticated_canonical_evidence)
  then Ok (Hold ContainmentWithoutCanonicalEvidence current)
  else if bool_decide (current.(cs_disposition) = EmergencyContainment)
  then Ok (Hold AlreadyAtOrBeyondPolicyTarget current)
  else Ok (controller_proposal e current.(cs_target) EmergencyContainment).
Proof.
  unfold decide_matching. intros [->|(-> & n & -> & Hn)]; [done|]. cbn [rbind].
  by rewrite bool_decide_false, (proj2 (N.ltb_lt _ _) Hn).
Qed.

Lemma decide_normal e h current :
  e.(ce_disposition) = NormalPolicy → healthy h →
  decide_matching e h current =
  if bool_decide (current.(cs_disposition) = EmergencyContainment)
  then Ok (Hold ContainmentRequiresExplicitRecovery current)
  else if bool_decide (e.(ce_phase) = LegacyOnlyHold) then Ok (Hold LegacyOnlyPolicy current)
  else if negb e.(ce_selected) then Ok (Hold InstallationOutsideCohort current)
  else if (target_ordinal (rollout_phase_target e.(ce_phase)) <=? target_ordinal current.(cs_target))%N
  then Ok (Hold AlreadyAtOrBeyondPolicyTarget current)
  else Ok (controller_proposal e (target_next current.(cs_target)) NormalActivation).
Proof. unfold decide_matching, healthy. by intros -> ->. Qed.

Lemma decide_proposes e h current id epoch target disposition approval can_sign :
  decide_matching e h current = Ok (ProposeDeviceActivation id epoch target disposition approval can_sign) ↔
  id = e.(ce_policy_id) ∧ epoch = e.(ce_policy_epoch) ∧ approval = true ∧ can_sign = false ∧
  ((disposition = NormalActivation ∧ target = target_next current.(cs_target) ∧ may_activate e h current) ∨
   (disposition = EmergencyContainment ∧ target = current.(cs_target) ∧ must_contain e h current)).
Proof.
  split.
  - intros H.
    assert (Hc : (ce_disposition e = Containment ∨ ce_disposition e = NormalPolicy ∧ unhealthy h) ∨
      (ce_disposition e = NormalPolicy ∧ healthy h)).
    { destruct (ce_disposition e) eqn:Ed; [|by left; left].
      destruct (zero_tolerance_cases h) as [[er Hz]|[Hh|Hu]]; [|by right|by left; right].
      unfold decide_matching in H. by rewrite Ed, Hz in H. }
    destruct Hc as [Hc|[Hd Hh]].
    + rewrite (decide_contain _ _ _ Hc) in H. repeat case_match; try done. injection H as <- <- <- <- <- <-.
      do 4 (split; [done|]). right. do 2 (split; [done|]).
      rewrite orb_false_iff, bool_decide_eq_false, negb_false_iff in *. split; [done|].
      split; [by destruct (cs_disposition current)|tauto].
    + rewrite (decide_normal _ _ _ Hd Hh) in H. repeat case_match; try done. injection H as <- <- <- <- <- <-.
      do 4 (split; [done|]). left. do 2 (split; [done|]).
      rewrite bool_decide_eq_false, negb_false_iff, N.leb_gt in *. unfold may_activate.
      split_and!; try done. by destruct (cs_disposition current).
  - intros (-> & -> & -> & -> & [(-> & -> & Hd & Hh & Hcd & Hp & Hs & Ho)|(-> & -> & Hc & Hcd & Ht & He)]).
    + rewrite (decide_normal _ _ _ Hd Hh), Hcd, Hs, !bool_decide_false by done. cbn [negb].
      by rewrite (proj2 (N.leb_gt _ _) Ho).
    + by rewrite (decide_contain _ _ _ Hc), Hcd, He, !bool_decide_false.
Qed.

Lemma decide_total e h current n :
  zero_tolerance_events h.(hs_counters) = Ok n →
  ∃ d, decide_matching e h current = Ok d ∧
    ∀ c, d ≠ Hold MissingHealthSnapshot c ∧ d ≠ Hold HealthPolicyMismatch c.
Proof.
  intros Hn. unfold decide_matching. rewrite Hn.
  destruct (bool_decide (ce_disposition e = Containment)); cbn [rbind];
    repeat case_match; eexists; (split; [done|]); done.
Qed.

(** C29: The controller proposes an activation exactly in two cases: the next
    activation state, for a selected installation with a matching and clean
    health record, outside containment and below the policy's target; or a
    containment of the present state, when the policy or the health record
    demands it and there is authenticated canonical evidence.  Every proposal
    names the evaluated policy, needs the device's own approval, and can not be
    signed by the release authority. *)
Theorem controller_exact evaluation health current id epoch target disposition approval can_sign :
  evaluate_rollout_controller evaluation health current =
    Ok (ProposeDeviceActivation id epoch target disposition approval can_sign) ↔
  ∃ e h, evaluation = Some e ∧ health = Some h ∧ health_matches e h ∧
    id = e.(ce_policy_id) ∧ epoch = e.(ce_policy_epoch) ∧ approval = true ∧ can_sign = false ∧
    ((disposition = NormalActivation ∧ target = target_next current.(cs_target) ∧ may_activate e h current) ∨
     (disposition = EmergencyContainment ∧ target = current.(cs_target) ∧ must_contain e h current)).
Proof.
  split.
  - unfold evaluate_rollout_controller. destruct evaluation as [e|]; [|done]. destruct health as [h|]; [|done].
    destruct (negb _ || _ || _ || _) eqn:Em; [done|]. apply health_matches_bool in Em. intros H.
    exists e, h. do 3 (split; [done|]). apply decide_proposes in H. naive_solver.
  - intros (e & h & -> & -> & Hm & -> & -> & -> & -> & H). unfold evaluate_rollout_controller.
    rewrite (proj2 (health_matches_bool _ _) Hm). apply decide_proposes. naive_solver.
Qed.

(** The state after the device approves a proposal. *)
Definition approve current (d : RolloutControllerDecision) : RolloutControllerCurrentState :=
  match d with
  | Hold _ _ => current
  | ProposeDeviceActivation _ _ target disposition _ _ =>
      {| cs_target := target; cs_disposition := disposition;
         has_authenticated_canonical_evidence := current.(has_authenticated_canonical_evidence) |}
  end.

(** The state after [n] rounds of evaluation and approval. *)
Fixpoint rounds (n : nat) e h current : RolloutControllerCurrentState :=
  match n with
  | O => current
  | S n =>
      match evaluate_rollout_controller (Some e) (Some h) current with
      | Ok d => rounds n e h (approve current d)
      | Err _ => current
      end
  end.

Definition with_target current target : RolloutControllerCurrentState :=
  {| cs_target := target; cs_disposition := current.(cs_disposition);
     has_authenticated_canonical_evidence := current.(has_authenticated_canonical_evidence) |}.

Lemma target_next_ordinal t u :
  (target_ordinal t < target_ordinal u)%N → target_ordinal (target_next t) = (target_ordinal t + 1)%N.
Proof. by destruct t, u. Qed.

Lemma target_ordinal_inj t u : target_ordinal t = target_ordinal u → t = u.
Proof. by destruct t, u. Qed.

(** A controller that holds changes nothing. *)
Lemma rounds_hold n e h current why :
  evaluate_rollout_controller (Some e) (Some h) current = Ok (Hold why current) → rounds n e h current = current.
Proof. intros He. induction n as [|n IH]; [done|]. cbn [rounds]. by rewrite He. Qed.

(** What the controller decides for a selected and healthy installation. *)
Lemma decide_healthy e h c :
  health_matches e h → e.(ce_disposition) = NormalPolicy → healthy h → e.(ce_selected) = true → e.(ce_phase) ≠ LegacyOnlyHold →
  evaluate_rollout_controller (Some e) (Some h) c =
  if bool_decide (c.(cs_disposition) = EmergencyContainment) then Ok (Hold ContainmentRequiresExplicitRecovery c)
  else if (target_ordinal (rollout_phase_target e.(ce_phase)) <=? target_ordinal c.(cs_target))%N
  then Ok (Hold AlreadyAtOrBeyondPolicyTarget c)
  else Ok (controller_proposal e (target_next c.(cs_target)) NormalActivation).
Proof.
  intros Hm Hd Hh Hs Hp. unfold evaluate_rollout_controller. rewrite (proj2 (health_matches_bool _ _) Hm).
  fold (decide_matching e h c). rewrite (decide_normal _ _ _ Hd Hh), Hs. by rewrite (bool_decide_false (ce_phase e = _)).
Qed.

(** C37: Where a selected and healthy installation ends whose device approves every
    proposal.  From an uncontained activation at or below the target of its
    policy the activation state climbs one step per round, is the target after as
    many rounds as there are steps (at most three), and the controller then
    holds; from an uncontained activation at or above the target the controller
    holds at once; and from a contained one it holds for ever, for want of an
    explicit recovery. *)
Theorem controller_advances e h current :
  health_matches e h → e.(ce_disposition) = NormalPolicy → healthy h → e.(ce_selected) = true →
  e.(ce_phase) ≠ LegacyOnlyHold →
  let goal := rollout_phase_target e.(ce_phase) in
  let n := N.to_nat (target_ordinal goal - target_ordinal current.(cs_target)) in
  let final := with_target current goal in
  (current.(cs_disposition) = NormalActivation → (target_ordinal current.(cs_target) <= target_ordinal goal)%N →
   n <= 3 ∧ rounds n e h current = final ∧
   evaluate_rollout_controller (Some e) (Some h) final = Ok (Hold AlreadyAtOrBeyondPolicyTarget final)) ∧
  (current.(cs_disposition) = NormalActivation → (target_ordinal goal <= target_ordinal current.(cs_target))%N →
   evaluate_rollout_controller (Some e) (Some h) current = Ok (Hold AlreadyAtOrBeyondPolicyTarget current) ∧
   ∀ k, rounds k e h current = current) ∧
  (current.(cs_disposition) = EmergencyContainment →
   evaluate_rollout_controller (Some e) (Some h) current = Ok (Hold ContainmentRequiresExplicitRecovery current) ∧
   ∀ k, rounds k e h current = current).
Proof.
  intros Hm Hd Hh Hs Hp. cbn zeta. pose proof (fun c => decide_healthy e h c Hm Hd Hh Hs Hp) as Heval.
  assert (∀ why, evaluate_rollout_controller (Some e) (Some h) current = Ok (Hold why current) →
    evaluate_rollout_controller (Some e) (Some h) current = Ok (Hold why current) ∧ ∀ k, rounds k e h current = current) as Hhold.
  { intros why Hw. split; [done|]. intros k. by eapply rounds_hold. }
  split_and!; intros Hc.
  - intros Ho. split; [destruct (rollout_phase_target _), (cs_target current); cbn; lia|]. split.
    + remember (N.to_nat _) as n eqn:Hn. clear Hhold. revert current Hc Ho Hn.
      induction n as [|n IH]; intros current Hc Ho Hn; cbn [rounds].
      * destruct current as [t d b]. unfold with_target. cbn in *. f_equal. apply target_ordinal_inj. lia.
      * rewrite Heval, Hc, bool_decide_false, (proj2 (N.leb_gt _ _)) by (lia || done). cbn [approve controller_proposal].
        pose proof (target_next_ordinal (cs_target current) (rollout_phase_target (ce_phase e)) ltac:(lia)) as Ht.
        rewrite IH; cbn [cs_disposition cs_target]; [|done|lia|lia].
        unfold with_target. cbn. by rewrite Hc.
    + rewrite Heval. cbn [with_target cs_disposition cs_target]. rewrite Hc, bool_decide_false by done.
      by rewrite (proj2 (N.leb_le _ _) (N.le_refl _)).
  - intros Ho. apply Hhold. rewrite Heval, Hc, bool_decide_false by done. by rewrite (proj2 (N.leb_le _ _) Ho).
  - apply Hhold. by rewrite Heval, Hc, bool_decide_true.
Qed.

End controller.

(** * The controller on a store *)

Section composition.
Context {E : Ed25519} {SH : Sha256} {K : Blake3Keyed} {P : RolloutPostcard} {J : RolloutJson} {R : Redb}.
Context {PL : RolloutPostcardLaws P} {RL : RedbLaws R}.

(** Fed from a reachable store the controller always decides, never finds
    a missing or foreign health record, and proposes an activation only for an
    installation whose bucket is below the cohort bound of the installed,
    uncontained policy, to a state no higher than the policy's phase allows. *)
Theorem rollout_controller_on_store a seed st current :
  rollout_reachable a seed st →
  ∃ e h d, current_evaluation st = Ok e ∧ current_health_snapshot st = Ok h ∧
    evaluate_rollout_controller e h current = Ok d ∧
    (∀ c, d ≠ Hold MissingHealthSnapshot c ∧ d ≠ Hold HealthPolicyMismatch c) ∧
    ∀ id epoch target approval can_sign,
      d = ProposeDeviceActivation id epoch target NormalActivation approval can_sign →
      ∃ p l, policy_chain a (p :: l) ∧ policy_id p = Ok id ∧
        p.(policy_content).(rp_disposition) = NormalPolicy ∧
        (uint_val (cohort_bucket seed id) < uint_val p.(policy_content).(rp_cohort)
         <= maximum_cohort_basis_points p.(policy_content).(rp_phase))%N ∧
        (target_ordinal target <= target_ordinal (rollout_phase_target p.(policy_content).(rp_phase)))%N.
Proof.
  intros (s & l & HR & HA)%reachable_state. rewrite (evaluation_spec _ _ _ _ HR), (health_spec _ _ _ _ HR).
  unfold spec_evaluation, spec_health. rewrite (acc_head _ _ _ HA). destruct l as [|p l]; cbn [head].
  { do 3 eexists. by split_and!. }
  destruct (acc_policies _ _ _ HA p ltac:(by left)) as (id & c & Hid & Hc & Hb). rewrite Hid. cbn [rbind]. rewrite Hc. cbn [ok_or rbind].
  pose proof (ref_valid _ _ _ _ HR _ _ Hc) as Hv. apply binding_ok in Hb as (Hb1 & Hb2 & Hb3 & Hb4).
  unfold snapshot_from_content. rewrite Hv. cbn [rbind].
  unfold validate_health_content in Hv. apply rbind_unit_ok in Hv as [_ Hv].
  apply rbind_ok in Hv as (n & Hn & _). set (e := evaluate_cohort seed p id). set (h := Build_RolloutHealthSnapshot _ _ _ _ _).
  assert (Hm : health_matches e h) by (by split_and!).
  destruct (decide_total e h current n Hn) as (d & Hd & Hh). exists (Some e), (Some h), d.
  do 2 (split; [done|]). unfold evaluate_rollout_controller. rewrite (proj2 (health_matches_bool _ _) Hm).
  split; [done|]. split; [done|]. intros id' epoch target ap cs ->.
  apply decide_proposes in Hd as (-> & _ & _ & _ & [(_ & -> & Hd & _ & _ & _ & Hsel & Ho)|[? _]]); [|done].
  pose proof (acc_chain _ _ _ HA ltac:(done)) as Hch. exists p, l. split_and!; [done..| | |].
  - cbn in Hsel. rewrite !andb_true_iff, N.ltb_lt in Hsel. tauto.
  - apply (content_cases _ (policy_chain_content _ _ p Hch ltac:(by left))).
  - rewrite (target_next_ordinal _ _ Ho). cbn in *. lia.
Qed.

End composition.

(** * An example installation *)

Module RolloutExample.

(** ** A concrete serializer *)

#[local] Instance u16_codec : Codec u16.
Proof.
  refine {|
    codec_enc := fun v : u16 => to_be_bytes 2 v;
    codec_dec := fun bs =>
      match take_bytes 2 bs with
      | Some (a, rest) => Some (as_u16 (from_be_bytes a), rest)
      | None => None
      end
  |}.
  intros v rest. rewrite take_bytes_app by apply length_to_be_bytes.
  rewrite from_to_be_bytes. change (256 ^ N.of_nat 2)%N with U16_BOUND.
  rewrite N.mod_small by apply uint_lt. do 2 f_equal. apply uint_eq. unfold as_u16.
  destruct (Sumbool.sumbool_of_bool _) as [H|H]; cbn; [by rewrite N.mod_small by apply uint_lt|].
  pose proof (N.mod_lt (uint_val v) U16_BOUND ltac:(done)) as Hlt. apply N.ltb_lt in Hlt. congruence.
Defined.

#[local] Instance option_codec {A} `{Codec A} : Codec (option A) :=
  iso_codec (fun o : option A => match o with None => inl tt | Some x => inr x end)
    (fun s => match s with inl _ => None | inr x => Some x end) (fun o => match o with None => eq_refl | Some _ => eq_refl end).

#[local] Instance phase_codec : Codec RolloutPhase :=
  iso_codec (fun p => match p with LegacyOnlyHold => x00 | AdvertiseCanary => x01 | AcceptCanary => x02
                      | InitiateCanary => x03 | ExpandedDualReader => x04 end)
    (fun b => match b with x01 => AdvertiseCanary | x02 => AcceptCanary | x03 => InitiateCanary
              | x04 => ExpandedDualReader | _ => LegacyOnlyHold end)
    ltac:(by intros []).

#[local] Instance disposition_codec : Codec RolloutDisposition :=
  iso_codec (fun d => match d with NormalPolicy => x00 | Containment => x01 end)
    (fun b => match b with x01 => Containment | _ => NormalPolicy end) ltac:(by intros []).

#[local] Instance content_codec : Codec ReleasePolicyContent :=
  iso_codec (fun c => (rp_version c, (rp_epoch c, (rp_previous c, (rp_artifact c, (rp_phase c, (rp_disposition c, rp_cohort c)))))))
    (fun '(v, (e, (p, (a, (ph, (d, n)))))) => Build_ReleasePolicyContent v e p a ph d n) ltac:(by intros []).

#[local] Instance signed_policy_codec : Codec SignedReleasePolicy :=
  iso_codec (fun p => (policy_content p, policy_signature p)) (fun '(c, s) => Build_SignedReleasePolicy c s) ltac:(by intros []).

#[local] Instance counters_codec : Codec RolloutHealthCounters :=
  iso_codec
    (fun c => (runtime_start_succeeded c, (runtime_start_failed c, (legacy_sync_completed c, (legacy_sync_failed c,
      (canonical_sync_completed c, (canonical_sync_failed c, (canonical_sync_paused c, (canonical_sync_interrupted c,
      (containment_entered c, (history_loss_or_duplication c, (selected_canonical_legacy_fallback c,
      (authority_or_device_binding_mismatch c, (authenticated_downgrade_acceptance c,
       unrecoverable_state_corruption c))))))))))))))
    (fun '(a, (b, (c, (d, (e, (f, (g, (h, (i, (j, (k, (l, (m, n))))))))))))) =>
      Build_RolloutHealthCounters a b c d e f g h i j k l m n) ltac:(by intros []).

#[local] Instance health_content_codec : Codec HealthRecordContent :=
  iso_codec (fun c => (hr_version c, (hr_policy_id c, (hr_artifact c, (hr_phase c, (hr_cohort c, hr_counters c))))))
    (fun '(v, (i, (a, (p, (n, c))))) => Build_HealthRecordContent v i a p n c) ltac:(by intros []).

#[local] Instance health_codec : Codec StoredHealthRecord :=
  iso_codec (fun r => (health_content r, health_mac r)) (fun '(c, m) => Build_StoredHealthRecord c m) ltac:(by intros []).

#[local] Instance rollout_postcard : RolloutPostcard := {|
  pc_policy_content := codec_postcard; pc_policy := codec_postcard;
  pc_health_content := codec_postcard; pc_health := codec_postcard
|}.

Lemma len_u64_enc (v : u64) : len (codec_enc v) = 8%N.
Proof. unfold len. cbn [codec_enc u64_codec]. by rewrite length_to_be_bytes. Qed.
Lemma len_u16_enc (v : u16) : len (codec_enc v) = 2%N.
Proof. unfold len. cbn [codec_enc u16_codec]. by rewrite length_to_be_bytes. Qed.
Lemma len_arr_enc {n} (v : arr n) : len (codec_enc v) = N.of_nat n.
Proof. apply len_arr. Qed.
Lemma len_option_enc (o : option (arr 32)) : (len (codec_enc o) <= 33)%N.
Proof. destruct o as [x|]; [|done]. change (len (codec_enc (Some x))) with (len (x01 :: arr_bytes x)). by rewrite len_cons, len_arr. Qed.

#[local] Instance rollout_postcard_laws : RolloutPostcardLaws rollout_postcard.
Proof.
  split; try apply codec_postcard_laws.
  - intros [[v e p a ph d n] sg] bs Hb%(inj Some) Hs. cbn [policy_signature] in *. subst bs.
    change (codec_enc (Build_SignedReleasePolicy _ _)) with ((codec_enc v ++ codec_enc e ++ codec_enc p ++ codec_enc a ++ codec_enc ph ++ codec_enc d ++ codec_enc n) ++ codec_enc sg).
    pose proof (len_option_enc p). rewrite !len_app, len_u64_enc, len_arr_enc, len_u16_enc.
    change (len (codec_enc v)) with 1%N. change (len (codec_enc ph)) with 1%N. change (len (codec_enc d)) with 1%N.
    cbn [codec_enc vec_codec]. rewrite (proj2 (N.ltb_lt _ _) Hs), len_cons, len_app.
    assert (len (to_be_bytes 8 (len sg)) = 8%N) as -> by (unfold len; by rewrite length_to_be_bytes). lia.
  - intros [[v i a ph n [c1 c2 c3 c4 c5 c6 c7 c8 c9 c10 c11 c12 c13 c14]] mac] bs Hb%(inj Some). subst bs.
    change (codec_enc (Build_StoredHealthRecord _ _)) with ((codec_enc v ++ codec_enc i ++ codec_enc a ++ codec_enc ph ++ codec_enc n ++
      codec_enc c1 ++ codec_enc c2 ++ codec_enc c3 ++ codec_enc c4 ++ codec_enc c5 ++ codec_enc c6 ++ codec_enc c7 ++
      codec_enc c8 ++ codec_enc c9 ++ codec_enc c10 ++ codec_enc c11 ++ codec_enc c12 ++ codec_enc c13 ++ codec_enc c14)
      ++ codec_enc mac).
    rewrite !len_app, !len_u64_enc, !len_arr_enc, len_u16_enc.
    change (len (codec_enc v)) with 1%N. change (len (codec_enc ph)) with 1%N. lia.
Qed.

#[local] Existing Instance Toy.ed25519_instance.
#[local] Existing Instance Toy.sha256_instance.
#[local] Existing Instance Toy.keyed_instance.
#[local] Existing Instance SortedTable.redb_instance.
#[local] Existing Instance SortedTable.redb_laws.
#[local] Instance rollout_json : RolloutJson := {| to_vec_pretty := fun d => Some (d.(doc_policy_id)) |}.

(** ** Policies and a store *)

Definition key : arr 32 := arr_repeat 32 x07.
Definition authority : arr 32 := verifying_key_of key.
Definition artifact : arr 32 := arr_repeat 32 x01.
Definition seed : arr 32 := arr_repeat 32 x2a.

Definition hold : SignedReleasePolicy :=
  match issue_genesis_hold key artifact with
  | Ok p => p
  | Err _ => {| policy_content := {| rp_version := x00; rp_epoch := as_u64 0; rp_previous := None;
                  rp_artifact := zero32; rp_phase := LegacyOnlyHold; rp_disposition := NormalPolicy;
                  rp_cohort := as_u16 0 |}; policy_signature := [] |}
  end.
Definition hold_bytes : bytes := match policy_encode hold with Ok bs => bs | Err _ => [] end.
Definition id_or_zero (r : result RolloutError ReleasePolicyId) : arr 32 :=
  match r with Ok id => id | Err _ => zero32 end.
Definition hold_id : arr 32 := id_or_zero (policy_id hold).

Definition advertise : SignedReleasePolicy :=
  match issue_successor key hold artifact AdvertiseCanary NormalPolicy (as_u16 100) with
  | Ok p => p
  | Err _ => hold
  end.

Lemma hold_issued : issue_genesis_hold key artifact = Ok hold.
Proof. vm_cast_no_check (eq_refl (Ok (E:=RolloutError) hold)). Qed.
Lemma hold_encodes : policy_encode hold = Ok hold_bytes.
Proof. vm_cast_no_check (eq_refl (Ok (E:=RolloutError) hold_bytes)). Qed.
Lemma hold_decodes : policy_decode_and_verify hold_bytes authority = Ok hold.
Proof. apply policy_decode_ok. split; [exact hold_encodes|vm_cast_no_check (eq_refl (Ok (E:=RolloutError) tt))]. Qed.
Lemma hold_has_id : policy_id hold = Ok hold_id.
Proof. vm_cast_no_check (eq_refl (Ok (E:=RolloutError) hold_id)). Qed.

Definition installed : rollout_state :=
  match spec_install rollout_empty hold with Ok s => s | Err _ => rollout_empty end.
Lemma hold_installs : spec_install rollout_empty hold = Ok installed.
Proof. vm_cast_no_check (eq_refl (Ok (E:=RolloutError) installed)). Qed.

Lemma open_total a s : ∃ st, rollout_open a (Some s) rollout_create = Ok st.
Proof. eexists. reflexivity. Qed.

Lemma install_refines_witness :
  ∃ st, rollout_open authority (Some seed) rollout_create = Ok st ∧
    ∃ id st', policy_id hold = Ok id ∧
      install_policy st hold_bytes = Ok (evaluate_cohort seed hold id, st') ∧
      refines authority seed st' installed.
Proof.
  destruct (open_total authority seed) as [st Hst]. exists st. split; [exact Hst|].
  pose proof (install_refines authority seed st rollout_empty hold_bytes (open_new_spec _ _ _ Hst)) as H.
  rewrite hold_decodes in H. cbn [rbind] in H. rewrite hold_installs in H. exact H.
Defined.

(** The store after the installation. *)
Lemma installed_store : ∃ st, rollout_reachable authority seed st ∧ refines authority seed st installed.
Proof.
  destruct (open_total authority seed) as [st Hst].
  pose proof (install_spec authority seed st rollout_empty hold_bytes (open_new_spec _ _ _ Hst)) as H.
  rewrite hold_decodes in H. cbn [rbind] in H. rewrite hold_installs in H.
  destruct H as (id & st' & _ & Hi & HR). exists st'. split; [|done].
  eapply reach_install; [by apply reach_open|exact Hi].
Qed.

Lemma record_health_refines_witness :
  ∃ st snapshot st', refines authority seed st installed ∧
    record_health st hold_id RuntimeStartFailed = Ok (snapshot, st') ∧
    runtime_start_failed (hs_counters snapshot) = as_u64 1.
Proof.
  destruct installed_store as (st & _ & HR).
  pose proof (record_health_refines authority seed st installed hold_id RuntimeStartFailed HR) as H.
  destruct (spec_record installed hold_id RuntimeStartFailed) as [[snapshot s']|e] eqn:Es.
  - destruct H as (st' & Hst & _). exists st, snapshot, st'. split; [exact HR|]. split; [exact Hst|].
    assert (match spec_record installed hold_id RuntimeStartFailed with
            | Ok (snapshot, _) => runtime_start_failed (hs_counters snapshot) = as_u64 1
            | Err _ => True end) as Hc by (by vm_compute).
    by rewrite Es in Hc.
  - assert (is_ok (spec_record installed hold_id RuntimeStartFailed) = true) as Hc by (by vm_compute).
    by rewrite Es in Hc.
Defined.

Lemma rollout_policy_chain_witness :
  ∃ st, rollout_reachable authority seed st ∧ is_ok (current_evaluation st) = true.
Proof.
  destruct installed_store as (st & Hr & _). exists st. split; [exact Hr|].
  destruct (rollout_policy_chain authority seed st Hr) as [_ [[_ ->]|(p & id & l & _ & _ & -> & _)]]; reflexivity.
Defined.

Lemma rollout_reads_witness :
  ∃ st e h, rollout_reachable authority seed st ∧ current_evaluation st = Ok e ∧
    inspect_existing_rollout_store (Some st.(rollout_database)) authority =
      Ok (Some {| ro_evaluation := e; ro_health := h |}).
Proof.
  destruct installed_store as (st & Hr & _).
  destruct (rollout_reads authority seed st Hr) as [(e & h & He & _ & Hi & _) _].
  exists st, e, h. split; [exact Hr|]. split; [exact He|exact Hi].
Defined.

Lemma rollout_capacity_witness :
  ∃ st st', rollout_open authority (Some seed) rollout_create = Ok st ∧
    install_policy st hold_bytes = Ok (evaluate_cohort seed hold hold_id, st').
Proof.
  destruct (open_total authority seed) as [st Hst]. exists st.
  pose proof Hst as Hst'. apply Ok_inj in Hst' as <-.
  destruct (rollout_capacity authority seed _ hold_bytes hold hold_id (reach_open _ _ _ Hst)
    hold_decodes hold_has_id) as [H _]; [by vm_compute|by vm_compute|by vm_compute|].
  destruct (H ltac:(by vm_compute)) as (st' & Hi & _). exists st'. split; [exact Hst|exact Hi].
Defined.

Lemma rollout_export_private_witness :
  ∃ st1 st2, rollout_open authority (Some seed) rollout_create = Ok st1 ∧
    rollout_open authority (Some artifact) rollout_create = Ok st2 ∧
    let ops := [InstallOp hold_bytes; RecordOp hold_id RuntimeStartFailed; ReopenOp None] in
    export_current_health_explicitly (fold_left run_op ops st1) UserOrTestOperatorRequested =
    export_current_health_explicitly (fold_left run_op ops st2) UserOrTestOperatorRequested.
Proof.
  destruct (open_total authority seed) as [st1 H1]. destruct (open_total authority artifact) as [st2 H2].
  exists st1, st2. split; [exact H1|]. split; [exact H2|].
  exact (proj1 (rollout_export_private authority seed artifact st1 st2 _ _ H1 H2)).
Defined.

Lemma policy_codec_exact_witness :
  policy_verify hold authority = Ok tt ∧ policy_decode_and_verify hold_bytes authority = Ok hold.
Proof.
  destruct (policy_codec_exact hold_bytes authority hold) as (H1 & _ & H2).
  destruct (H2 key None None artifact LegacyOnlyHold NormalPolicy (as_u16 0) hold_issued) as (Hv & _).
  split; [exact Hv|]. apply H1. split; [exact hold_encodes|exact Hv].
Defined.

Lemma rollout_controller_on_store_witness :
  ∃ st e h d, rollout_reachable authority seed st ∧ current_evaluation st = Ok e ∧
    evaluate_rollout_controller e h
      {| cs_target := LegacyOnly; cs_disposition := NormalActivation; has_authenticated_canonical_evidence := false |} = Ok d.
Proof.
  destruct installed_store as (st & Hr & _).
  destruct (rollout_controller_on_store authority seed st
    {| cs_target := LegacyOnly; cs_disposition := NormalActivation; has_authenticated_canonical_evidence := false |} Hr)
    as (e & h & d & He & _ & Hd & _).
  exists st, e, h, d. split; [exact Hr|]. split; [exact He|exact Hd].
Defined.

(** ** The controller *)

Definition evaluation : CohortEvaluation := {|
  ce_policy_id := artifact; ce_policy_epoch := as_u64 4; ce_artifact := artifact; ce_phase := InitiateCanary;
  ce_disposition := NormalPolicy; ce_bucket := as_u16 3; ce_cohort := as_u16 500; ce_selected := true;
  ce_runtime_activation_authorized := false
|}.
Definition clean : RolloutHealthSnapshot := {|
  hs_policy_id := artifact; hs_artifact := artifact; hs_phase := InitiateCanary; hs_cohort := as_u16 500;
  hs_counters := counters_default
|}.
Definition start : RolloutControllerCurrentState := {|
  cs_target := LegacyOnly; cs_disposition := NormalActivation; has_authenticated_canonical_evidence := false
|}.

Lemma controller_advances_witness :
  rounds 3 evaluation clean start = with_target start DualReaderPreferCanonical.
Proof.
  exact (proj1 (proj2 (proj1 (controller_advances evaluation clean start ltac:(by split_and!) eq_refl
    ltac:(by vm_compute) eq_refl ltac:(done)) eq_refl ltac:(by vm_compute)))).
Defined.

(** A containment may advance the phase: after a hold the store accepts a
    policy of the next phase whose disposition is containment. *)
Lemma containment_may_advance :
  ∃ p, issue_successor key hold artifact AdvertiseCanary Containment (as_u16 0) = Ok p ∧
    verify_successor_of p hold = Ok tt ∧
    (phase_ordinal hold.(policy_content).(rp_phase) < phase_ordinal p.(policy_content).(rp_phase))%N.
Proof. eexists. split; [by vm_compute|]. split; by vm_compute. Qed.

End RolloutExample.
