(* ===== verification/ReleaseTrust.v ===== *)
(** Keyrings of operational release keys: [kilogram-rollout/src/trust.rs].

    An offline trust root signs complete snapshots of the keys that may sign
    release policies.  A snapshot names its predecessor, keeps every key it had
    and may add keys and revoke keys, each at its own epoch.  [keyring_issue]
    and its callers make snapshots, [keyring_verify] and
    [keyring_verify_successor_of] accept them, and [authorize_policy_signer]
    turns a key of a snapshot into the authority of a policy. *)

From stdpp Require Import base tactics list numbers strings.
From Stdlib Require Import Strings.Byte.
From S2P Require Import Prelude Crypto Postcard Rollout.

#[local] Set Primitive Projections.

(** * Constants and errors *)

Definition KEYRING_VERSION : byte := x01.
Definition KEYRING_SIGNATURE_DOMAIN : bytes := b_str "kilogram:rollout:keyring-signature:v1" ++ [x00].
Definition KEYRING_ID_DOMAIN : bytes := b_str "kilogram:rollout:keyring-id:v1" ++ [x00].
Definition SIGNING_KEY_ID_DOMAIN : bytes := b_str "kilogram:rollout:signing-key-id:v1" ++ [x00].
Definition MAX_RELEASE_SIGNING_KEYS : usize := 8.
Definition MAX_SIGNED_RELEASE_KEYRING_BYTES : usize := 4096.

Inductive ReleaseTrustError :=
| InvalidTrustRoot
| InvalidSigningKey
| EmptySigningPermissions
| KeyringLength (n : usize)
| KeyringVersion (v : byte)
| KeyringCodec
| NonCanonicalKeyring
| InvalidKeyringSignature
| KeyringAuthorization
| ZeroKeyringEpoch
| InvalidKeyringGenesis
| KeyringEpochOverflow
| KeyringEpochGap (expected found : u64)
| PreviousKeyringMismatch
| SigningKeyCount (n : usize)
| SigningKeysNotStrictlyOrdered
| SigningKeyIdMismatch
| SigningKeyRemoved
| SigningKeyMutated
| InvalidKeyIntroduction
| InvalidRevocationEpoch
| InvalidRevocationTransition
| NoActiveContainmentKey
| UnknownRevocationTarget
| AlreadyRevoked
| DuplicateSigningKey
| UnknownSigningKey
| RevokedSigningKey
| SigningPurposeDenied
| ReleaseAuthority (e : RolloutError).

(** * Data *)

(** [ReleaseTrustRoot], [ReleaseKeyringId] and [ReleaseSigningKeyId] wrap
    32 bytes; identifiers are ordered bytewise. *)
Abbreviation ReleaseTrustRoot := (arr 32).
Abbreviation ReleaseKeyringId := (arr 32).
Abbreviation ReleaseSigningKeyId := (arr 32).

Record ReleaseSigningPermissions := {
  normal_policy : bool;
  containment_policy : bool
}.

Definition NORMAL_AND_CONTAINMENT : ReleaseSigningPermissions :=
  {| normal_policy := true; containment_policy := true |}.
Definition CONTAINMENT_ONLY : ReleaseSigningPermissions :=
  {| normal_policy := false; containment_policy := true |}.

Inductive ReleasePolicyPurpose := PurposeNormal | PurposeContainment.

Record ReleaseSigningKeySpec := {
  spec_public_key : arr 32;
  spec_permissions : ReleaseSigningPermissions
}.

Record ReleaseSigningKeyCertificate := {
  kc_key_id : ReleaseSigningKeyId;
  kc_public_key : arr 32;
  kc_permissions : ReleaseSigningPermissions;
  kc_introduced : u64;
  kc_revoked : option u64
}.

Record ReleaseKeyringContent := {
  kr_version : byte;
  kr_epoch : u64;
  kr_previous : option ReleaseKeyringId;
  kr_keys : list ReleaseSigningKeyCertificate
}.

(** [SignedReleaseKeyring] and its wire form have the same fields. *)
Record SignedReleaseKeyring := {
  keyring_content : ReleaseKeyringContent;
  keyring_signature : bytes
}.

#[export] Instance ReleaseSigningPermissions_eq_dec : EqDecision ReleaseSigningPermissions.
Proof. solve_decision. Defined.
#[export] Instance ReleasePolicyPurpose_eq_dec : EqDecision ReleasePolicyPurpose.
Proof. solve_decision. Defined.
#[export] Instance ReleaseSigningKeyCertificate_eq_dec : EqDecision ReleaseSigningKeyCertificate.
Proof. solve_decision. Defined.
#[export] Instance ReleaseKeyringContent_eq_dec : EqDecision ReleaseKeyringContent.
Proof. solve_decision. Defined.
#[export] Instance SignedReleaseKeyring_eq_dec : EqDecision SignedReleaseKeyring.
Proof. solve_decision. Defined.

(** [postcard] at the types of a keyring. *)
Class TrustPostcard := {
  pc_keyring_content :: Postcard ReleaseKeyringContent;
  pc_keyring :: Postcard SignedReleaseKeyring
}.

(** * Certificates *)

Definition permissions_validate (p : ReleaseSigningPermissions) : result ReleaseTrustError unit :=
  fail_if (negb p.(normal_policy) && negb p.(containment_policy)) EmptySigningPermissions.

Definition is_active_at (c : ReleaseSigningKeyCertificate) (epoch : u64) : bool :=
  (uint_val c.(kc_introduced) <=? uint_val epoch)%N
  && match c.(kc_revoked) with
     | None => true
     | Some revoked => (uint_val epoch <? uint_val revoked)%N
     end.

(** What a purpose asks of the permissions. *)
Definition permits (p : ReleaseSigningPermissions) (purpose : ReleasePolicyPurpose) : bool :=
  match purpose with
  | PurposeNormal => p.(normal_policy)
  | PurposeContainment => p.(containment_policy)
  end.

Definition with_revoked (c : ReleaseSigningKeyCertificate) (epoch : u64) : ReleaseSigningKeyCertificate := {|
  kc_key_id := c.(kc_key_id); kc_public_key := c.(kc_public_key); kc_permissions := c.(kc_permissions);
  kc_introduced := c.(kc_introduced); kc_revoked := Some epoch
|}.

(** The body of the loop over the revocations: the first certificate with the
    identifier is revoked. *)
Fixpoint revoke_key (epoch : u64) (revoked : ReleaseSigningKeyId)
    (certificates : list ReleaseSigningKeyCertificate)
  : result ReleaseTrustError (list ReleaseSigningKeyCertificate) :=
  match certificates with
  | [] => Err UnknownRevocationTarget
  | c :: rest =>
      if bool_decide (c.(kc_key_id) = revoked) then
        match c.(kc_revoked) with
        | Some _ => Err AlreadyRevoked
        | None => Ok (with_revoked c epoch :: rest)
        end
      else
        let? rest := revoke_key epoch revoked rest in
        Ok (c :: rest)
  end.

Section operations.
Context `{Ed25519, Sha256, TrustPostcard}.

Definition trust_root_from_bytes (bs : arr 32) : result ReleaseTrustError ReleaseTrustRoot :=
  fail_if (negb (verifying_key_ok bs)) InvalidTrustRoot ;?
  Ok bs.

Definition key_id_from_public_key (public_key : arr 32) : result ReleaseTrustError ReleaseSigningKeyId :=
  fail_if (negb (verifying_key_ok public_key)) InvalidSigningKey ;?
  Ok (sha256 (SIGNING_KEY_ID_DOMAIN ++ arr_bytes public_key)).

Definition spec_from_signing_key (signing_key : arr 32) (permissions : ReleaseSigningPermissions)
  : ReleaseSigningKeySpec :=
  {| spec_public_key := verifying_key_of signing_key; spec_permissions := permissions |}.

Definition certificate_from_spec (spec : ReleaseSigningKeySpec) (epoch : u64)
  : result ReleaseTrustError ReleaseSigningKeyCertificate :=
  permissions_validate spec.(spec_permissions) ;?
  let? key_id := key_id_from_public_key spec.(spec_public_key) in
  Ok {| kc_key_id := key_id; kc_public_key := spec.(spec_public_key);
        kc_permissions := spec.(spec_permissions);
        kc_introduced := epoch; kc_revoked := None |}.

(** * Keyrings *)

(** The body of the loop over the certificates; the state is the previous
    identifier and whether an active containment key was seen. *)
Definition validate_certificate (epoch : u64) (c : ReleaseSigningKeyCertificate)
    (state : option ReleaseSigningKeyId * bool)
  : result ReleaseTrustError (option ReleaseSigningKeyId * bool) :=
  let '(previous_id, active_containment_key) := state in
  permissions_validate c.(kc_permissions) ;?
  let? expected_id := key_id_from_public_key c.(kc_public_key) in
  fail_if (negb (bool_decide (c.(kc_key_id) = expected_id))) SigningKeyIdMismatch ;?
  fail_if (match previous_id with Some previous => ord_geb previous expected_id | None => false end)
    SigningKeysNotStrictlyOrdered ;?
  fail_if ((uint_val c.(kc_introduced) =? 0) || (uint_val epoch <? uint_val c.(kc_introduced)))%N
    InvalidKeyIntroduction ;?
  fail_if (match c.(kc_revoked) with
           | Some revoked => (uint_val revoked <? uint_val c.(kc_introduced))
                             || (uint_val epoch <? uint_val revoked)
           | None => false
           end)%N InvalidRevocationEpoch ;?
  Ok (Some expected_id,
      if is_active_at c epoch && c.(kc_permissions).(containment_policy) then true
      else active_containment_key).

Definition validate_keyring_content (content : ReleaseKeyringContent) : result ReleaseTrustError unit :=
  fail_if (negb (bool_decide (content.(kr_version) = KEYRING_VERSION)))
    (KeyringVersion content.(kr_version)) ;?
  fail_if (uint_val content.(kr_epoch) =? 0)%N ZeroKeyringEpoch ;?
  fail_if (negb (Bool.eqb (uint_val content.(kr_epoch) =? 1)%N
                     (match content.(kr_previous) with None => true | Some _ => false end)))
    InvalidKeyringGenesis ;?
  fail_if ((len content.(kr_keys) =? 0) || (MAX_RELEASE_SIGNING_KEYS <? len content.(kr_keys)))%N
    (SigningKeyCount (len content.(kr_keys))) ;?
  let? (_, active_containment_key) :=
    try_fold (validate_certificate content.(kr_epoch)) content.(kr_keys) (None, false) in
  fail_if (negb active_containment_key) NoActiveContainmentKey.

Definition keyring_signing_bytes (content : ReleaseKeyringContent) : result ReleaseTrustError bytes :=
  let? encoded := ok_or (to_allocvec content) KeyringCodec in
  Ok (KEYRING_SIGNATURE_DOMAIN ++ encoded).

Definition keyring_verify (k : SignedReleaseKeyring) (trust_root : ReleaseTrustRoot)
  : result ReleaseTrustError unit :=
  validate_keyring_content k.(keyring_content) ;?
  fail_if (negb (signature_ok k.(keyring_signature))) InvalidKeyringSignature ;?
  fail_if (negb (verifying_key_ok trust_root)) InvalidTrustRoot ;?
  let? message := keyring_signing_bytes k.(keyring_content) in
  fail_if (negb (verify_strict trust_root message k.(keyring_signature))) KeyringAuthorization.

Definition keyring_encode (k : SignedReleaseKeyring) : result ReleaseTrustError bytes :=
  validate_keyring_content k.(keyring_content) ;?
  let? encoded := ok_or (to_allocvec k) KeyringCodec in
  fail_if ((len encoded =? 0) || (MAX_SIGNED_RELEASE_KEYRING_BYTES <? len encoded))%N
    (KeyringLength (len encoded)) ;?
  Ok encoded.

Definition keyring_decode_and_verify (encoded : bytes) (trust_root : ReleaseTrustRoot)
  : result ReleaseTrustError SignedReleaseKeyring :=
  fail_if ((len encoded =? 0) || (MAX_SIGNED_RELEASE_KEYRING_BYTES <? len encoded))%N
    (KeyringLength (len encoded)) ;?
  let? keyring := ok_or (from_bytes encoded) KeyringCodec in
  keyring_verify keyring trust_root ;?
  let? again := keyring_encode keyring in
  fail_if (negb (bool_decide (again = encoded))) NonCanonicalKeyring ;?
  Ok keyring.

Definition keyring_id (k : SignedReleaseKeyring) : result ReleaseTrustError ReleaseKeyringId :=
  let? encoded := keyring_encode k in
  Ok (sha256 (KEYRING_ID_DOMAIN ++ encoded)).

(** The bodies of the two loops of the successor check. *)
Definition successor_keeps (content : ReleaseKeyringContent) (old : ReleaseSigningKeyCertificate)
  : result ReleaseTrustError unit :=
  let? candidate := ok_or (List.find (fun candidate => bool_decide (candidate.(kc_key_id) = old.(kc_key_id)))
                             content.(kr_keys)) SigningKeyRemoved in
  fail_if (negb (bool_decide (candidate.(kc_public_key) = old.(kc_public_key)))
           || negb (bool_decide (candidate.(kc_permissions) = old.(kc_permissions)))
           || negb (u64_eqb candidate.(kc_introduced) old.(kc_introduced)))
    SigningKeyMutated ;?
  match old.(kc_revoked), candidate.(kc_revoked) with
  | Some old_epoch, Some candidate_epoch =>
      fail_if (negb (u64_eqb old_epoch candidate_epoch)) InvalidRevocationTransition
  | None, None => Ok tt
  | None, Some candidate_epoch =>
      fail_if (negb (u64_eqb candidate_epoch content.(kr_epoch))) InvalidRevocationTransition
  | Some _, None => Err InvalidRevocationTransition
  end.

Definition successor_introduces (content previous : ReleaseKeyringContent)
    (candidate : ReleaseSigningKeyCertificate) : result ReleaseTrustError unit :=
  fail_if (forallb (fun old => negb (bool_decide (old.(kc_key_id) = candidate.(kc_key_id))))
             previous.(kr_keys)
           && (negb (u64_eqb candidate.(kc_introduced) content.(kr_epoch))
               || match candidate.(kc_revoked) with Some _ => true | None => false end))
    InvalidKeyIntroduction.

Definition keyring_verify_successor_of (k previous : SignedReleaseKeyring)
  : result ReleaseTrustError unit :=
  let content := k.(keyring_content) in
  let? expected := ok_or (u64_checked_add previous.(keyring_content).(kr_epoch) (as_u64 1))
    KeyringEpochOverflow in
  fail_if (negb (u64_eqb content.(kr_epoch) expected))
    (KeyringEpochGap expected content.(kr_epoch)) ;?
  let? previous_id := keyring_id previous in
  fail_if (negb (bool_decide (content.(kr_previous) = Some previous_id))) PreviousKeyringMismatch ;?
  try_for (successor_keeps content) previous.(keyring_content).(kr_keys) ;?
  try_for (successor_introduces content previous.(keyring_content)) content.(kr_keys).

Definition keyring_issue (trust_root : arr 32) (epoch : u64) (previous : option ReleaseKeyringId)
    (signing_keys : list ReleaseSigningKeyCertificate) : result ReleaseTrustError SignedReleaseKeyring :=
  let content := {|
    kr_version := KEYRING_VERSION; kr_epoch := epoch; kr_previous := previous;
    kr_keys := sort_by_key kc_key_id signing_keys
  |} in
  validate_keyring_content content ;?
  let? message := keyring_signing_bytes content in
  let keyring := {| keyring_content := content;
                    keyring_signature := arr_bytes (sign trust_root message) |} in
  let? root := trust_root_from_bytes (verifying_key_of trust_root) in
  keyring_verify keyring root ;?
  Ok keyring.

Definition keyring_issue_genesis (trust_root : arr 32) (signing_keys : list ReleaseSigningKeySpec)
  : result ReleaseTrustError SignedReleaseKeyring :=
  let? certificates := try_map (fun spec => certificate_from_spec spec (as_u64 1)) signing_keys in
  keyring_issue trust_root (as_u64 1) None certificates.

(** The body of the loop over the additions. *)
Definition add_key (epoch : u64) (spec : ReleaseSigningKeySpec)
    (certificates : list ReleaseSigningKeyCertificate)
  : result ReleaseTrustError (list ReleaseSigningKeyCertificate) :=
  let? certificate := certificate_from_spec spec epoch in
  fail_if (existsb (fun known => bool_decide (known.(kc_key_id) = certificate.(kc_key_id))) certificates)
    DuplicateSigningKey ;?
  Ok (certificates ++ [certificate]).

Definition keyring_issue_successor (trust_root : arr 32) (previous : SignedReleaseKeyring)
    (additions : list ReleaseSigningKeySpec) (revocations : list ReleaseSigningKeyId)
  : result ReleaseTrustError SignedReleaseKeyring :=
  let? root := trust_root_from_bytes (verifying_key_of trust_root) in
  keyring_verify previous root ;?
  let? epoch := ok_or (u64_checked_add previous.(keyring_content).(kr_epoch) (as_u64 1))
    KeyringEpochOverflow in
  let? certificates := try_fold (revoke_key epoch) revocations previous.(keyring_content).(kr_keys) in
  let? certificates := try_fold (add_key epoch) additions certificates in
  let? previous_id := keyring_id previous in
  keyring_issue trust_root epoch (Some previous_id) certificates.

Definition authorize_policy_signer (k : SignedReleaseKeyring) (key_id : ReleaseSigningKeyId)
    (purpose : ReleasePolicyPurpose) : result ReleaseTrustError ReleasePolicyAuthority :=
  let? certificate := ok_or (List.find (fun candidate => bool_decide (candidate.(kc_key_id) = key_id))
                               k.(keyring_content).(kr_keys)) UnknownSigningKey in
  fail_if (negb (is_active_at certificate k.(keyring_content).(kr_epoch))) RevokedSigningKey ;?
  fail_if (negb (permits certificate.(kc_permissions) purpose)) SigningPurposeDenied ;?
  map_err ReleaseAuthority (authority_from_bytes certificate.(kc_public_key)).

End operations.
