(* ===== verification/ReleaseTrustFacts.v ===== *)
(** Theorems on the keyrings of [ReleaseTrust]: the codec, what a valid
    snapshot is, that the successor check accepts exactly the snapshots the
    trust root can issue, and what a chain of snapshots keeps. *)

From stdpp Require Import base tactics list numbers strings sets.
From Stdlib Require Import Strings.Byte Sorting.Sorted.
From S2P Require Import Prelude Crypto Postcard Rollout RolloutFacts ReleaseTrust.

(** What the model relies on: [postcard]'s laws, and the size of its output,
    which grows by at most 128 bytes per key. *)
Class TrustPostcardLaws (P : TrustPostcard) : Prop := {
  tl_content :: PostcardLaws ReleaseKeyringContent;
  tl_keyring :: PostcardLaws SignedReleaseKeyring;
  keyring_size (k : SignedReleaseKeyring) bs :
    to_allocvec k = Some bs → (len k.(keyring_signature) < U64_BOUND)%N →
    (len k.(keyring_content).(kr_keys) < U64_BOUND)%N →
    (0 < len bs <= len k.(keyring_signature) + 256 + 128 * len k.(keyring_content).(kr_keys))%N
}.

Abbreviation key_ids keys := (map kc_key_id keys).

Section trust.
Context {E : Ed25519} {SH : Sha256} {P : TrustPostcard} {PL : TrustPostcardLaws P}.
Implicit Types (k prev : SignedReleaseKeyring) (c old : ReleaseSigningKeyCertificate).
Implicit Types (content : ReleaseKeyringContent) (root : ReleaseTrustRoot) (bs : bytes).
Implicit Types (id : ReleaseSigningKeyId) (epoch : u64) (keys : list ReleaseSigningKeyCertificate).

(** * Codec *)

Lemma keyring_encode_ok k bs :
  keyring_encode k = Ok bs ↔
  validate_keyring_content k.(keyring_content) = Ok tt ∧ to_allocvec k = Some bs ∧
  (0 < len bs <= MAX_SIGNED_RELEASE_KEYRING_BYTES)%N.
Proof.
  unfold keyring_encode. split.
  - intros [Hv H]%rbind_unit_ok. apply rbind_ok in H as (b & Hb%ok_or_ok & H).
    apply rbind_unit_ok in H as [Hl%length_check_ok H%Ok_inj]. by subst.
  - intros (Hv & Hb & Hl). apply rbind_unit_ok. split; [done|]. apply rbind_ok. exists bs.
    split; [by apply ok_or_ok|]. apply rbind_unit_ok. split; [by apply length_check_ok|done].
Qed.

Lemma keyring_encode_inj k k' bs : keyring_encode k = Ok bs → keyring_encode k' = Ok bs → k = k'.
Proof.
  rewrite !keyring_encode_ok. intros (_ & H1 & _) (_ & H2 & _).
  apply postcard_roundtrip in H1, H2. congruence.
Qed.

Lemma keyring_decode_ok bs root k :
  keyring_decode_and_verify bs root = Ok k ↔ keyring_encode k = Ok bs ∧ keyring_verify k root = Ok tt.
Proof.
  unfold keyring_decode_and_verify. split.
  - intros [Hl H]%rbind_unit_ok. apply rbind_ok in H as (q & Hq%ok_or_ok & [Hv H]%rbind_unit_ok).
    apply rbind_ok in H as (again & Ha & [Hb H%Ok_inj]%rbind_unit_ok). subst q.
    apply fail_if_ok, negb_false_iff, bool_decide_eq_true in Hb. by subst.
  - intros [He Hv]. pose proof (proj1 (keyring_encode_ok _ _) He) as (_ & Ht & Hl).
    apply rbind_unit_ok. split; [by apply length_check_ok|]. apply rbind_ok. exists k.
    split; [by apply ok_or_ok, postcard_roundtrip|]. apply rbind_unit_ok. split; [done|].
    apply rbind_ok. exists bs. split; [done|]. by rewrite bool_decide_true by done.
Qed.

Lemma keyring_id_ok k i :
  keyring_id k = Ok i ↔ ∃ bs, keyring_encode k = Ok bs ∧ i = sha256 (KEYRING_ID_DOMAIN ++ bs).
Proof.
  unfold keyring_id. rewrite rbind_ok. split; intros (bs & Hb & Hi); exists bs; (split; [done|]).
  - by apply Ok_inj in Hi.
  - by subst.
Qed.

(** * Valid snapshots *)

Definition can_contain epoch c : bool := is_active_at c epoch && c.(kc_permissions).(containment_policy).

Record certificate_wf epoch c : Prop := {
  cw_permissions : permissions_validate c.(kc_permissions) = Ok tt;
  cw_id : key_id_from_public_key c.(kc_public_key) = Ok c.(kc_key_id);
  cw_introduced : (1 <= uint_val c.(kc_introduced) <= uint_val epoch)%N;
  cw_revoked r : c.(kc_revoked) = Some r → (uint_val c.(kc_introduced) <= uint_val r <= uint_val epoch)%N
}.

Record keyring_wf content : Prop := {
  kw_version : content.(kr_version) = KEYRING_VERSION;
  kw_epoch : uint_val content.(kr_epoch) ≠ 0%N;
  kw_genesis : uint_val content.(kr_epoch) = 1%N ↔ content.(kr_previous) = None;
  kw_count : (1 <= len content.(kr_keys) <= MAX_RELEASE_SIGNING_KEYS)%N;
  kw_keys : Forall (certificate_wf content.(kr_epoch)) content.(kr_keys);
  kw_sorted : StronglySorted ord_lt (key_ids content.(kr_keys));
  kw_containment : ∃ c, c ∈ content.(kr_keys) ∧ can_contain content.(kr_epoch) c = true
}.

Lemma validate_certificate_ok epoch c previous active state :
  validate_certificate epoch c (previous, active) = Ok state ↔
  certificate_wf epoch c ∧ (∀ p, previous = Some p → ord_lt p c.(kc_key_id)) ∧
  state = (Some c.(kc_key_id), active || can_contain epoch c).
Proof.
  unfold validate_certificate. split.
  - intros [Hp H]%rbind_unit_ok. apply rbind_ok in H as (i & Hi & H).
    apply rbind_unit_ok in H as [Hid%fail_if_ok H]. apply negb_false_iff, bool_decide_eq_true in Hid. subst i.
    apply rbind_unit_ok in H as [Ho%fail_if_ok H]. apply rbind_unit_ok in H as [Hin%fail_if_ok H].
    apply rbind_unit_ok in H as [Hr%fail_if_ok H%Ok_inj].
    apply orb_false_iff in Hin as [Hin1%N.eqb_neq Hin2%N.ltb_ge]. split_and!.
    + split; [done|done|lia|]. intros r Er. rewrite Er in Hr.
      apply orb_false_iff in Hr as [?%N.ltb_ge ?%N.ltb_ge]. lia.
    + intros p ->. by apply ord_geb_false.
    + rewrite <-H. unfold can_contain. by destruct (_ && _), active.
  - intros ([Hp Hi Hin Hr] & Ho & ->). apply rbind_unit_ok. split; [done|]. apply rbind_ok.
    eexists. split; [done|]. apply rbind_unit_ok. split; [by rewrite bool_decide_true|].
    apply rbind_unit_ok. split.
    { apply fail_if_ok. destruct previous as [p|]; [|done]. by apply ord_geb_false, Ho. }
    apply rbind_unit_ok. split; [apply fail_if_ok, orb_false_iff; split; [apply N.eqb_neq|apply N.ltb_ge]; lia|].
    apply rbind_unit_ok. split.
    { apply fail_if_ok. destruct (kc_revoked c) as [r|] eqn:Er; [|done]. specialize (Hr r eq_refl).
      apply orb_false_iff; split; apply N.ltb_ge; lia. }
    unfold can_contain. by destruct (_ && _), active.
Qed.

(** The identifiers seen so far, and those to come, ascend. *)
Lemma validate_certificates_ok epoch keys previous active active' :
  (∃ previous', try_fold (validate_certificate epoch) keys (previous, active) = Ok (previous', active')) ↔
  Forall (certificate_wf epoch) keys ∧ StronglySorted ord_lt (option_list previous ++ key_ids keys) ∧
  active' = active || existsb (can_contain epoch) keys.
Proof.
  revert previous active. induction keys as [|c keys IH]; intros previous active; cbn [try_fold map existsb].
  - rewrite orb_false_r, app_nil_r. split.
    + intros (p & H%Ok_inj). injection H as _ <-. split; [constructor|]. split; [|done].
      destruct previous; by repeat constructor.
    + intros (_ & _ & ->). by eexists.
  - setoid_rewrite rbind_ok. setoid_rewrite validate_certificate_ok. split.
    + intros (p' & s & (Hc & Ho & ->) & H).
      destruct (proj1 (IH (Some (kc_key_id c)) _) (ex_intro _ _ H)) as (Hk & Hs & ->).
      split; [by constructor|]. split; [|by rewrite orb_assoc].
      destruct previous as [p|]; [|done]. specialize (Ho p eq_refl). constructor; [done|].
      constructor; [done|]. inversion_clear Hs as [|? ? _ Hf]. eapply Forall_impl; [exact Hf|].
      intros z Hz. by transitivity (kc_key_id c).
    + intros (Hk & Hs & ->). inversion_clear Hk as [|? ? Hc Hk'].
      assert (Hs' : StronglySorted ord_lt (option_list (Some (kc_key_id c)) ++ key_ids keys)).
      { destruct previous; [by inversion_clear Hs|done]. }
      destruct (proj2 (IH (Some (kc_key_id c)) (active || can_contain epoch c))
        (conj Hk' (conj Hs' (orb_assoc _ _ _)))) as [p' Hp'].
      exists p'. eexists. split.
      * split; [done|]. split; [|reflexivity]. intros p ->. inversion_clear Hs as [|? ? _ Hf]. by inversion_clear Hf.
      * exact Hp'.
Qed.

Lemma validate_keyring_ok content : validate_keyring_content content = Ok tt ↔ keyring_wf content.
Proof.
  unfold validate_keyring_content. split.
  - intros [Hv%fail_if_ok H]%rbind_unit_ok. apply negb_false_iff, bool_decide_eq_true in Hv.
    apply rbind_unit_ok in H as [He%fail_if_ok H]. apply N.eqb_neq in He.
    apply rbind_unit_ok in H as [Hg%fail_if_ok H]. apply negb_false_iff, Bool.eqb_prop in Hg.
    apply rbind_unit_ok in H as [Hl%length_check_ok H]. apply rbind_ok in H as ([p a] & Hf & Ha%fail_if_ok).
    apply negb_false_iff in Ha. subst a.
    destruct (proj1 (validate_certificates_ok _ _ None false true) (ex_intro _ _ Hf)) as (Hk & Hs & Hx).
    split; [done|done| |lia|done|done|].
    + rewrite <-N.eqb_eq, Hg. by destruct (kr_previous content).
    + symmetry in Hx. apply existsb_exists in Hx as (c & Hin & Hc). exists c. by rewrite list_elem_of_In.
  - intros [Hv He Hg Hl Hk Hs (c & Hc & Ha)]. apply rbind_unit_ok. split; [by rewrite bool_decide_true|].
    apply rbind_unit_ok. split; [by apply fail_if_ok, N.eqb_neq|].
    apply rbind_unit_ok. split.
    { apply fail_if_ok, negb_false_iff, Bool.eqb_true_iff. rewrite <-N.eqb_eq in Hg.
      destruct (kr_previous content), (_ =? _)%N; try done;
        [by pose proof (proj1 Hg eq_refl)|by pose proof (proj2 Hg eq_refl)]. }
    apply rbind_unit_ok. split; [apply length_check_ok; lia|].
    destruct (proj2 (validate_certificates_ok (kr_epoch content) (kr_keys content) None false true)) as (p & Hp).
    { split; [done|]. split; [done|]. symmetry. apply existsb_exists. exists c. by rewrite <-list_elem_of_In. }
    rewrite Hp. done.
Qed.

Lemma keyring_verify_wf k root : keyring_verify k root = Ok tt → keyring_wf k.(keyring_content).
Proof. intros [H _]%rbind_unit_ok. by apply validate_keyring_ok. Qed.

(** * Looking keys up *)

Lemma wf_ids_NoDup content : keyring_wf content → NoDup (key_ids content.(kr_keys)).
Proof.
  intros [_ _ _ _ _ Hs _]. induction Hs as [|x l Hs IH Hf]; constructor; [|done].
  intros Hin. rewrite Forall_forall in Hf. by apply (ord_lt_irrefl x), Hf.
Qed.

Lemma key_unique keys c c' :
  NoDup (key_ids keys) → c ∈ keys → c' ∈ keys → c.(kc_key_id) = c'.(kc_key_id) → c = c'.
Proof.
  intros Hn [i Hi]%list_elem_of_lookup_1 [j Hj]%list_elem_of_lookup_1 He.
  assert (i = j) as ->; [|congruence]. apply (NoDup_lookup (key_ids keys) i j c.(kc_key_id)); [done|..];
    rewrite list_lookup_fmap; [by rewrite Hi|rewrite Hj; cbn; congruence].
Qed.

Lemma find_key_Some keys id c :
  NoDup (key_ids keys) →
  List.find (fun c => bool_decide (c.(kc_key_id) = id)) keys = Some c ↔ c ∈ keys ∧ c.(kc_key_id) = id.
Proof.
  intros Hn. split.
  - intros [Hin Hi]%find_some. rewrite list_elem_of_In. split; [done|]. by apply bool_decide_eq_true in Hi.
  - intros [Hin Hi]. destruct (List.find _ keys) as [c'|] eqn:Ef.
    + apply find_some in Ef as [Hin' Hi'%bool_decide_eq_true]. f_equal. symmetry.
      eapply key_unique; [done|done|by apply list_elem_of_In|congruence].
    + eapply find_none in Ef; [|by apply list_elem_of_In]. apply bool_decide_eq_false in Ef. done.
Qed.

Lemma find_key_None keys id :
  List.find (fun c => bool_decide (c.(kc_key_id) = id)) keys = None ↔ id ∉ key_ids keys.
Proof.
  split.
  - intros Hf (c & -> & Hin)%list_elem_of_fmap. eapply find_none in Hf; [|by apply list_elem_of_In].
    by apply bool_decide_eq_false in Hf.
  - intros Hn. destruct (List.find _ keys) as [c|] eqn:Ef; [|done]. destruct Hn.
    apply find_some in Ef as [Hin Hi%bool_decide_eq_true]. apply list_elem_of_fmap. exists c.
    by rewrite list_elem_of_In.
Qed.

Lemma authorize_ok k id purpose a :
  keyring_wf k.(keyring_content) →
  authorize_policy_signer k id purpose = Ok a ↔
  ∃ c, c ∈ k.(keyring_content).(kr_keys) ∧ c.(kc_key_id) = id ∧ c.(kc_public_key) = a ∧
    is_active_at c k.(keyring_content).(kr_epoch) = true ∧ permits c.(kc_permissions) purpose = true.
Proof.
  intros Hw. pose proof (wf_ids_NoDup _ Hw) as Hn. unfold authorize_policy_signer, authority_from_bytes. split.
  - intros H. apply rbind_ok in H as (c & Hc%ok_or_ok & H). apply find_key_Some in Hc as [Hc Hi]; [|done].
    apply rbind_unit_ok in H as [Ha%fail_if_ok%negb_false_iff H].
    apply rbind_unit_ok in H as [Hp%fail_if_ok%negb_false_iff H%map_err_ok].
    apply rbind_unit_ok in H as [_ H%Ok_inj]. by exists c.
  - intros (c & Hc & Hi & <- & Ha & Hp). apply rbind_ok. exists c.
    split; [by apply ok_or_ok, find_key_Some|]. rewrite Ha, Hp. cbn [negb fail_if rbind]. apply map_err_ok.
    pose proof (proj1 (Forall_forall _ _) (kw_keys _ Hw) c Hc) as [_ Hid _ _].
    unfold key_id_from_public_key in Hid. apply rbind_unit_ok in Hid as [->%fail_if_ok _]. done.
Qed.

(** * Successors *)

(** How a certificate of a snapshot may change in the next. *)
Definition certificate_step epoch old c : Prop :=
  c.(kc_key_id) = old.(kc_key_id) ∧ c.(kc_public_key) = old.(kc_public_key) ∧
  c.(kc_permissions) = old.(kc_permissions) ∧ c.(kc_introduced) = old.(kc_introduced) ∧
  (c.(kc_revoked) = old.(kc_revoked) ∨ old.(kc_revoked) = None ∧ c.(kc_revoked) = Some epoch).

Record keyring_step (previous content : ReleaseKeyringContent) : Prop := {
  ks_keeps old : old ∈ previous.(kr_keys) →
    ∃ c, c ∈ content.(kr_keys) ∧ certificate_step content.(kr_epoch) old c;
  ks_introduces c : c ∈ content.(kr_keys) → c.(kc_key_id) ∉ key_ids previous.(kr_keys) →
    c.(kc_introduced) = content.(kr_epoch) ∧ c.(kc_revoked) = None
}.

Lemma successor_keeps_ok content old :
  NoDup (key_ids content.(kr_keys)) →
  successor_keeps content old = Ok tt ↔
  ∃ c, c ∈ content.(kr_keys) ∧ certificate_step content.(kr_epoch) old c.
Proof.
  intros Hn. unfold successor_keeps, certificate_step. split.
  - intros H. apply rbind_ok in H as (c & Hc%ok_or_ok & H). apply find_key_Some in Hc as [Hc Hi]; [|done].
    apply rbind_unit_ok in H as [Hm%fail_if_ok H].
    apply orb_false_iff in Hm as [[Hpk Hp]%orb_false_iff Hin].
    apply negb_false_iff in Hpk, Hp, Hin. apply bool_decide_eq_true in Hpk, Hp. apply u64_eqb_eq in Hin.
    exists c. split_and!; [done..|]. destruct (kc_revoked old) as [r|], (kc_revoked c) as [r'|]; try done.
    + apply fail_if_ok, negb_false_iff, u64_eqb_eq in H as ->. by left.
    + apply fail_if_ok, negb_false_iff, u64_eqb_eq in H as ->. by right.
    + by left.
  - intros (c & Hc & Hi & Hpk & Hp & Hin & Hr). apply rbind_ok. exists c.
    split; [by apply ok_or_ok, find_key_Some|]. rewrite Hpk, Hp, Hin, !bool_decide_true by done.
    rewrite (proj2 (u64_eqb_eq _ _) eq_refl). cbn [negb orb fail_if rbind].
    destruct (kc_revoked old) as [r|]; (destruct Hr as [->|[? ->]]; [|try done]);
      rewrite ?(proj2 (u64_eqb_eq _ _) eq_refl); done.
Qed.

Lemma successor_introduces_ok content previous c :
  successor_introduces content previous c = Ok tt ↔
  (c.(kc_key_id) ∉ key_ids previous.(kr_keys) →
   c.(kc_introduced) = content.(kr_epoch) ∧ c.(kc_revoked) = None).
Proof.
  unfold successor_introduces. rewrite fail_if_ok.
  assert (Hall : forallb (fun old => negb (bool_decide (kc_key_id old = kc_key_id c))) (kr_keys previous) = true ↔
    c.(kc_key_id) ∉ key_ids previous.(kr_keys)).
  { rewrite forallb_forall, list_elem_of_fmap. setoid_rewrite negb_true_iff. setoid_rewrite bool_decide_eq_false.
    split.
    - intros H (o & He & Ho%list_elem_of_In). by apply (H o).
    - intros H o Ho He. apply H. exists o. by rewrite list_elem_of_In. }
  rewrite <-Hall, andb_false_iff, orb_false_iff, negb_false_iff, u64_eqb_eq.
  destruct (forallb _ _); destruct (kc_revoked c); naive_solver.
Qed.

Lemma keyring_successor_ok k prev :
  NoDup (key_ids k.(keyring_content).(kr_keys)) →
  keyring_verify_successor_of k prev = Ok tt ↔
  uint_val k.(keyring_content).(kr_epoch) = (uint_val prev.(keyring_content).(kr_epoch) + 1)%N ∧
  (∃ i, keyring_id prev = Ok i ∧ k.(keyring_content).(kr_previous) = Some i) ∧
  keyring_step prev.(keyring_content) k.(keyring_content).
Proof.
  intros Hn. unfold keyring_verify_successor_of. cbn zeta. split.
  - intros H. apply rbind_ok in H as (e & He%ok_or_ok & H). apply u64_checked_add_Some in He.
    apply rbind_unit_ok in H as [Hg%fail_if_ok%negb_false_iff%u64_eqb_eq H].
    apply rbind_ok in H as (i & Hi & H).
    apply rbind_unit_ok in H as [Hp%fail_if_ok%negb_false_iff%bool_decide_eq_true H].
    apply rbind_unit_ok in H as [Hk Hc]. rewrite try_for_ok, Forall_forall in Hk, Hc. split; [|split; [by exists i|split]].
    + rewrite Hg. by rewrite He.
    + intros o Ho. apply successor_keeps_ok; [done|]. by apply Hk.
    + intros c Hin. apply successor_introduces_ok. by apply Hc.
  - intros (He & (i & Hi & Hp) & [Hk Hc]). apply rbind_ok. exists (kr_epoch (keyring_content k)). split.
    { apply ok_or_ok, u64_checked_add_Some. by rewrite He. }
    rewrite (proj2 (u64_eqb_eq _ _) eq_refl). cbn [negb fail_if rbind]. rewrite Hi. cbn [rbind].
    rewrite bool_decide_true by done. cbn [negb fail_if rbind]. apply rbind_unit_ok. rewrite !try_for_ok, !Forall_forall. split.
    + intros o Ho. apply successor_keeps_ok; [done|]. by apply Hk.
    + intros c Hin. apply successor_introduces_ok. by apply Hc.
Qed.

(** * Issuing *)

Definition revoke_in epoch (ids : list ReleaseSigningKeyId) c : ReleaseSigningKeyCertificate :=
  if bool_decide (c.(kc_key_id) ∈ ids) then with_revoked c epoch else c.

Lemma revoke_in_id epoch ids c : (revoke_in epoch ids c).(kc_key_id) = c.(kc_key_id).
Proof. unfold revoke_in. by destruct (bool_decide _). Qed.

Lemma revoke_in_ids epoch ids keys : key_ids (map (revoke_in epoch ids) keys) = key_ids keys.
Proof. rewrite map_map. apply map_ext. intros c. apply revoke_in_id. Qed.

Lemma revoke_in_nil epoch keys : map (revoke_in epoch []) keys = keys.
Proof. rewrite <-(map_id keys) at 2. apply map_ext. intros c. unfold revoke_in. by rewrite bool_decide_false by set_solver. Qed.

Lemma revoke_in_skip epoch id keys : id ∉ key_ids keys → map (revoke_in epoch [id]) keys = keys.
Proof.
  intros Hn. rewrite <-(map_id keys) at 2. apply map_ext_in. intros c Hc%list_elem_of_In. unfold revoke_in.
  rewrite bool_decide_false; [done|]. intros <-%list_elem_of_singleton. by apply Hn, list_elem_of_fmap_2.
Qed.

Lemma revoke_key_ok epoch id keys keys' :
  NoDup (key_ids keys) →
  revoke_key epoch id keys = Ok keys' ↔
  (∃ c, c ∈ keys ∧ c.(kc_key_id) = id ∧ c.(kc_revoked) = None) ∧ keys' = map (revoke_in epoch [id]) keys.
Proof.
  revert keys'. induction keys as [|c keys IH]; intros keys' Hn; cbn [revoke_key map].
  { split; [done|]. intros [(c & Hc & _) _]. by apply not_elem_of_nil in Hc. }
  cbn [map] in Hn. inversion_clear Hn as [|? ? Hc Hn']. unfold revoke_in at 1. case_bool_decide as Hi.
  - subst id. rewrite bool_decide_true by set_solver. rewrite revoke_in_skip by done. split.
    + destruct (kc_revoked c) eqn:Er; [done|]. intros <-%Ok_inj. split; [|done]. exists c. by split; [left|].
    + intros [(c' & Hc' & He & Hr) ->]. apply elem_of_cons in Hc' as [->|Hc']; [by rewrite Hr|].
      destruct Hc. apply list_elem_of_fmap. by exists c'.
  - rewrite bool_decide_false by set_solver. rewrite rbind_ok. setoid_rewrite IH; [|done]. split.
    + intros (r & [(c' & Hc' & He & Hr) ->] & <-%Ok_inj). split; [|done]. exists c'. by split; [right|].
    + intros [(c' & Hc' & He & Hr) ->]. eexists. split; [split; [|done]|done]. exists c'.
      apply elem_of_cons in Hc' as [->|Hc']; [done|]. done.
Qed.

Lemma revoke_in_cons epoch id ids c :
  revoke_in epoch ids (revoke_in epoch [id] c) = revoke_in epoch (id :: ids) c.
Proof.
  unfold revoke_in at 1 3. rewrite revoke_in_id. unfold revoke_in.
  destruct (decide (kc_key_id c = id)) as [<-|Hne].
  - rewrite !(bool_decide_true (_ ∈ _ :: _)) by set_solver. by case_bool_decide.
  - rewrite (bool_decide_false (_ ∈ [id])) by set_solver.
    destruct (decide (kc_key_id c ∈ ids)); [rewrite !bool_decide_true by set_solver|rewrite !bool_decide_false by set_solver]; done.
Qed.

Lemma revoke_keys_ok epoch ids keys keys' :
  NoDup (key_ids keys) →
  try_fold (revoke_key epoch) ids keys = Ok keys' ↔
  NoDup ids ∧ (∀ id, id ∈ ids → ∃ c, c ∈ keys ∧ c.(kc_key_id) = id ∧ c.(kc_revoked) = None) ∧
  keys' = map (revoke_in epoch ids) keys.
Proof.
  revert keys. induction ids as [|id ids IH]; intros keys Hn; cbn [try_fold].
  { rewrite revoke_in_nil. split.
    - intros <-%Ok_inj. split_and!; [constructor|set_solver|done].
    - by intros (_ & _ & ->). }
  rewrite rbind_ok. setoid_rewrite revoke_key_ok; [|done]. split.
  - intros (? & [(c & Hc & Hi & Hr) ->] & H). apply IH in H as (Hd & Hu & ->); [|by rewrite revoke_in_ids].
    rewrite map_map. split_and!.
    + constructor; [|done]. intros Hin. destruct (Hu _ Hin) as (c' & (c'' & -> & Hc'')%list_elem_of_fmap & Hi' & Hr').
      rewrite revoke_in_id in Hi'. unfold revoke_in in Hr'. rewrite bool_decide_true in Hr' by set_solver. done.
    + intros id' [->|Hin]%elem_of_cons; [by exists c|].
      destruct (Hu _ Hin) as (c' & (c'' & -> & Hc'')%list_elem_of_fmap & Hi' & Hr'). exists c''.
      rewrite revoke_in_id in Hi'. split_and!; [done..|]. unfold revoke_in in Hr'. by case_bool_decide.
    + apply map_ext. intros c'. apply revoke_in_cons.
  - intros (Hd & Hu & ->). inversion_clear Hd as [|? ? Hid Hd'].
    eexists. split; [split; [apply Hu; by left|done]|]. apply IH; [by rewrite revoke_in_ids|].
    split_and!; [done| |rewrite map_map; apply map_ext; intros c; symmetry; apply revoke_in_cons].
    intros id' Hin. destruct (Hu id' ltac:(by right)) as (c & Hc & Hi & Hr). exists c.
    assert (revoke_in epoch [id] c = c) as Hs.
    { unfold revoke_in. rewrite bool_decide_false; [done|]. intros He%list_elem_of_singleton. congruence. }
    split_and!; [|done..]. rewrite <-Hs. by apply list_elem_of_fmap_2.
Qed.

Lemma add_keys_ok epoch specs keys keys' :
  NoDup (key_ids keys) →
  try_fold (add_key epoch) specs keys = Ok keys' ↔
  ∃ certificates, try_map (fun spec => certificate_from_spec spec epoch) specs = Ok certificates ∧
    NoDup (key_ids (keys ++ certificates)) ∧ keys' = keys ++ certificates.
Proof.
  revert keys. induction specs as [|spec specs IH]; intros keys Hn; cbn [try_fold try_map].
  { split; [intros <-%Ok_inj; exists []; by rewrite app_nil_r|].
    intros (cs & <-%Ok_inj & _ & ->). by rewrite app_nil_r. }
  assert (Hex : ∀ c, existsb (fun known => bool_decide (kc_key_id known = kc_key_id c)) keys = false ↔
    NoDup (key_ids (keys ++ [c]))).
  { intros c. rewrite map_app, NoDup_app. cbn [map]. setoid_rewrite list_elem_of_singleton. rewrite <-not_true_iff_false, existsb_exists.
    split.
    - intros Hx. split_and!; [done| |apply NoDup_singleton]. intros i (o & -> & Ho)%list_elem_of_fmap He.
      apply Hx. exists o. by rewrite <-list_elem_of_In, bool_decide_true.
    - intros (_ & Hd & _) (o & Ho%list_elem_of_In & He%bool_decide_eq_true). apply (Hd (kc_key_id o)); [|done].
      by apply list_elem_of_fmap_2. }
  unfold add_key at 1. split.
  - intros H. apply rbind_ok in H as (? & Ha & H). apply rbind_ok in Ha as (c & Hc & [Hd%fail_if_ok <-%Ok_inj]%rbind_unit_ok).
    apply IH in H as (cs & Hcs & Hnd & ->); [|by apply Hex]. exists (c :: cs).
    rewrite Hc. cbn [rbind]. rewrite Hcs, <-app_assoc in *. done.
  - intros (cs & H & Hnd & ->). apply rbind_ok in H as (c & Hc & H). apply rbind_ok in H as (cs' & Hcs & <-%Ok_inj).
    assert (Hnc : NoDup (key_ids (keys ++ [c]))).
    { rewrite cons_middle, app_assoc, map_app, NoDup_app in Hnd. tauto. }
    apply rbind_ok. exists (keys ++ [c]). split.
    { rewrite Hc. cbn [rbind]. by rewrite (proj2 (Hex c) Hnc). }
    apply IH; [done|]. exists cs'. by rewrite <-app_assoc.
Qed.

Context {EL : Ed25519Laws E}.

Lemma signing_bytes_total content : ∃ message, keyring_signing_bytes content = Ok message.
Proof. destruct (postcard_total content) as [b Hb]. unfold keyring_signing_bytes. rewrite Hb. by eexists. Qed.

(** What the root signs verifies. *)
Lemma issued_verifies secret content message :
  keyring_wf content → keyring_signing_bytes content = Ok message →
  keyring_verify {| keyring_content := content; keyring_signature := arr_bytes (sign secret message) |}
    (verifying_key_of secret) = Ok tt.
Proof.
  intros Hw Hm. unfold keyring_verify. cbn [keyring_content keyring_signature].
  rewrite (proj2 (validate_keyring_ok _) Hw), made_signature_ok, derived_key_ok, Hm. cbn [rbind negb fail_if].
  by rewrite signed_verifies.
Qed.

Lemma keyring_issue_ok secret epoch previous keys k :
  keyring_issue secret epoch previous keys = Ok k ↔
  k.(keyring_content) = {| kr_version := KEYRING_VERSION; kr_epoch := epoch; kr_previous := previous;
                           kr_keys := sort_by_key kc_key_id keys |} ∧
  keyring_wf k.(keyring_content) ∧
  ∃ message, keyring_signing_bytes k.(keyring_content) = Ok message ∧
    k.(keyring_signature) = arr_bytes (sign secret message).
Proof.
  unfold keyring_issue. cbn zeta. set (content := Build_ReleaseKeyringContent _ _ _ _). split.
  - intros [Hv%validate_keyring_ok H]%rbind_unit_ok. apply rbind_ok in H as (m & Hm & H).
    apply rbind_ok in H as (root & _ & [_ <-%Ok_inj]%rbind_unit_ok). split_and!; [done..|]. by exists m.
  - destruct k as [kc ks]. cbn [keyring_content keyring_signature]. intros (-> & Hw & m & Hm & ->).
    apply rbind_unit_ok. split; [by apply validate_keyring_ok|]. apply rbind_ok. exists m. split; [done|].
    apply rbind_ok. exists (verifying_key_of secret). unfold trust_root_from_bytes. rewrite derived_key_ok.
    split; [done|]. apply rbind_unit_ok. split; [by apply issued_verifies|done].
Qed.

(** What a successor contains: the previous keys with some revoked, and new ones. *)
Lemma keyring_issue_successor_ok secret prev additions revocations k :
  keyring_issue_successor secret prev additions revocations = Ok k ↔
  keyring_verify prev (verifying_key_of secret) = Ok tt ∧
  ∃ epoch i certificates,
    uint_val epoch = (uint_val prev.(keyring_content).(kr_epoch) + 1)%N ∧ keyring_id prev = Ok i ∧
    NoDup revocations ∧
    (∀ id, id ∈ revocations →
       ∃ c, c ∈ prev.(keyring_content).(kr_keys) ∧ c.(kc_key_id) = id ∧ c.(kc_revoked) = None) ∧
    try_map (fun spec => certificate_from_spec spec epoch) additions = Ok certificates ∧
    NoDup (key_ids (prev.(keyring_content).(kr_keys) ++ certificates)) ∧
    keyring_issue secret epoch (Some i)
      (map (revoke_in epoch revocations) prev.(keyring_content).(kr_keys) ++ certificates) = Ok k.
Proof.
  unfold keyring_issue_successor, trust_root_from_bytes. rewrite derived_key_ok. cbn [negb fail_if rbind].
  assert (Hids : ∀ epoch certificates, NoDup (key_ids (map (revoke_in epoch revocations) (kr_keys (keyring_content prev)) ++ certificates)) ↔
    NoDup (key_ids (kr_keys (keyring_content prev) ++ certificates))).
  { intros. by rewrite !map_app, revoke_in_ids. }
  split.
  - intros [Hv H]%rbind_unit_ok. split; [done|]. pose proof (wf_ids_NoDup _ (keyring_verify_wf _ _ Hv)) as Hn.
    apply rbind_ok in H as (e & He%ok_or_ok%u64_checked_add_Some & H).
    apply rbind_ok in H as (keys & (Hr1 & Hr2 & ->)%revoke_keys_ok & H); [|done].
    apply rbind_ok in H as (keys' & Ha & H). apply add_keys_ok in Ha as (cs & Hcs & Hnd%Hids & ->); [|by rewrite revoke_in_ids].
    apply rbind_ok in H as (i & Hi & H). by exists e, i, cs.
  - intros (Hv & e & i & cs & He & Hi & Hr1 & Hr2 & Hcs & Hnd & H). pose proof (wf_ids_NoDup _ (keyring_verify_wf _ _ Hv)) as Hn.
    apply rbind_unit_ok. split; [done|]. apply rbind_ok. exists e. split; [by apply ok_or_ok, u64_checked_add_Some|].
    apply rbind_ok. eexists. split; [by apply revoke_keys_ok|]. apply rbind_ok. eexists.
    split; [apply add_keys_ok; [by rewrite revoke_in_ids|]|by rewrite Hi]. exists cs. by rewrite Hids.
Qed.

(** The certificates a list of specifications makes. *)
Lemma certificate_from_spec_ok epoch spec c :
  certificate_from_spec spec epoch = Ok c ↔
  permissions_validate c.(kc_permissions) = Ok tt ∧
  key_id_from_public_key c.(kc_public_key) = Ok c.(kc_key_id) ∧
  c.(kc_introduced) = epoch ∧ c.(kc_revoked) = None ∧
  spec = {| spec_public_key := c.(kc_public_key); spec_permissions := c.(kc_permissions) |}.
Proof.
  unfold certificate_from_spec. split.
  - intros [Hp H]%rbind_unit_ok. apply rbind_ok in H as (i & Hi & <-%Ok_inj). by destruct spec.
  - destruct c. cbn. intros (Hp & Hi & -> & -> & ->). cbn [spec_permissions spec_public_key].
    rewrite Hp. cbn [rbind]. by rewrite Hi.
Qed.

Lemma certificates_made epoch specs certificates :
  try_map (fun spec => certificate_from_spec spec epoch) specs = Ok certificates →
  Forall (fun c => c.(kc_introduced) = epoch ∧ c.(kc_revoked) = None) certificates.
Proof.
  revert certificates. induction specs as [|spec specs IH]; intros cs; cbn [try_map].
  { intros <-%Ok_inj. constructor. }
  intros H. apply rbind_ok in H as (c & (_ & _ & Hin & Hr & _)%certificate_from_spec_ok & H).
  apply rbind_ok in H as (cs' & Hcs & <-%Ok_inj). constructor; [done|by apply IH].
Qed.

Lemma certificates_remade epoch certificates :
  Forall (certificate_wf epoch) certificates →
  Forall (fun c => c.(kc_introduced) = epoch ∧ c.(kc_revoked) = None) certificates →
  try_map (fun spec => certificate_from_spec spec epoch)
    (map (fun c => {| spec_public_key := c.(kc_public_key); spec_permissions := c.(kc_permissions) |}) certificates)
  = Ok certificates.
Proof.
  induction certificates as [|c cs IH]; intros Hw Hf; [done|]. cbn [map try_map].
  inversion_clear Hw as [|? ? [Hp Hi _ _] Hw']. inversion_clear Hf as [|? ? [Hin Hr] Hf'].
  rewrite (proj2 (certificate_from_spec_ok epoch _ c)) by done. cbn [rbind]. by rewrite IH.
Qed.

(** The previous keys after the revocations [ids], and the keys [certificates]. *)
Lemma keyring_step_made (previous content : ReleaseKeyringContent) ids certificates :
  content.(kr_keys) ≡ₚ map (revoke_in content.(kr_epoch) ids) previous.(kr_keys) ++ certificates →
  NoDup (key_ids previous.(kr_keys)) →
  (∀ id, id ∈ ids → ∃ c, c ∈ previous.(kr_keys) ∧ c.(kc_key_id) = id ∧ c.(kc_revoked) = None) →
  Forall (fun c => c.(kc_introduced) = content.(kr_epoch) ∧ c.(kc_revoked) = None) certificates →
  keyring_step previous content.
Proof.
  intros Hp Hn Hids Hcs. split.
  - intros old Hold. exists (revoke_in content.(kr_epoch) ids old). split.
    { rewrite Hp. apply elem_of_app. left. by apply list_elem_of_fmap_2. }
    unfold revoke_in, certificate_step. case_bool_decide as Hin; cbn; [|by split_and!; [..|left]].
    split_and!; [done..|]. right. split; [|done]. destruct (Hids _ Hin) as (c & Hc & Hi & Hr).
    by rewrite <-(key_unique _ c old Hn Hc Hold Hi).
  - intros c Hc Hnew. rewrite Hp in Hc. apply elem_of_app in Hc as [(old & -> & Hold)%list_elem_of_fmap|Hc].
    + destruct Hnew. rewrite revoke_in_id. by apply list_elem_of_fmap_2.
    + rewrite Forall_forall in Hcs. by apply Hcs.
Qed.

Section step_shape.
Context (previous content : ReleaseKeyringContent) (Hw : keyring_wf previous) (Hw' : keyring_wf content).
Context (He : uint_val content.(kr_epoch) = (uint_val previous.(kr_epoch) + 1)%N).
Context (Hs : keyring_step previous content).

Definition newly_revoked : list ReleaseSigningKeyId :=
  key_ids (filter (fun c => c.(kc_revoked) = Some content.(kr_epoch)) content.(kr_keys)).
Definition newly_introduced : list ReleaseSigningKeyCertificate :=
  filter (fun c => c.(kc_key_id) ∉ key_ids previous.(kr_keys)) content.(kr_keys).

Lemma elem_of_newly_revoked c :
  c ∈ content.(kr_keys) → c.(kc_key_id) ∈ newly_revoked ↔ c.(kc_revoked) = Some content.(kr_epoch).
Proof.
  intros Hc. unfold newly_revoked. rewrite list_elem_of_fmap. split.
  - intros (c' & Hi & [Hr Hc']%list_elem_of_filter).
    by rewrite (key_unique _ c c' (wf_ids_NoDup _ Hw') Hc Hc' Hi).
  - intros Hr. exists c. split; [done|]. by apply list_elem_of_filter.
Qed.

Lemma old_not_revoked_now old : old ∈ previous.(kr_keys) → old.(kc_revoked) ≠ Some content.(kr_epoch).
Proof.
  intros Hold Hr. pose proof (proj1 (Forall_forall _ _) (kw_keys _ Hw) old Hold) as Hc.
  pose proof (cw_revoked _ _ Hc _ Hr). lia.
Qed.

Lemma step_is_revoke_in old c :
  old ∈ previous.(kr_keys) → c ∈ content.(kr_keys) → certificate_step content.(kr_epoch) old c →
  c = revoke_in content.(kr_epoch) newly_revoked old.
Proof.
  intros Hold Hc (Hi & Hpk & Hp & Hin & Hr). unfold revoke_in. rewrite <-Hi.
  pose proof (elem_of_newly_revoked c Hc) as Hnr. pose proof (old_not_revoked_now old Hold) as Hne.
  destruct old as [oi opk op oin orv], c as [ci cpk cp cin crv]. cbn in *. subst. case_bool_decide as Hin.
  - apply Hnr in Hin. unfold with_revoked. cbn. by rewrite Hin.
  - destruct Hr as [->|[_ ->]]; [done|]. by destruct Hin; apply Hnr.
Qed.

Lemma newly_revoked_known id :
  id ∈ newly_revoked → ∃ c, c ∈ previous.(kr_keys) ∧ c.(kc_key_id) = id ∧ c.(kc_revoked) = None.
Proof.
  intros (c & -> & [Hr Hc]%list_elem_of_filter)%list_elem_of_fmap.
  destruct (decide (c.(kc_key_id) ∈ key_ids previous.(kr_keys))) as [(old & Hi & Hold)%list_elem_of_fmap|Hn].
  - exists old. split_and!; [done..|]. destruct (ks_keeps _ _ Hs old Hold) as (c' & Hc' & Hi' & _ & _ & _ & Hr').
    assert (c' = c) as -> by (eapply key_unique; [by apply wf_ids_NoDup|done..|congruence]).
    destruct Hr' as [Hr'|[? _]]; [|done]. rewrite Hr in Hr'. by destruct (old_not_revoked_now old Hold).
  - apply (ks_introduces _ _ Hs) in Hn as [_ Hn]; [|done]. congruence.
Qed.

Lemma step_keys :
  content.(kr_keys) ≡ₚ map (revoke_in content.(kr_epoch) newly_revoked) previous.(kr_keys) ++ newly_introduced.
Proof.
  pose proof (wf_ids_NoDup _ Hw) as Hn. pose proof (wf_ids_NoDup _ Hw') as Hn'.
  assert (Hd : NoDup (key_ids (map (revoke_in content.(kr_epoch) newly_revoked) previous.(kr_keys) ++ newly_introduced))).
  { rewrite map_app, revoke_in_ids. apply NoDup_app. split_and!; [done| |].
    - intros i Hi (c & -> & [Hc _]%list_elem_of_filter)%list_elem_of_fmap. done.
    - unfold newly_introduced. apply (NoDup_fmap_2_strong kc_key_id).
      + intros c c' [_ Hc]%list_elem_of_filter [_ Hc']%list_elem_of_filter. by apply (key_unique (kr_keys content)).
      + apply NoDup_filter. by eapply NoDup_fmap_1. }
  apply NoDup_Permutation; [by eapply NoDup_fmap_1..|]. intros c.
  rewrite elem_of_app, list_elem_of_fmap. split.
  - intros Hc. destruct (decide (c.(kc_key_id) ∈ key_ids previous.(kr_keys))) as [(old & Hi & Hold)%list_elem_of_fmap|Hnew].
    + left. exists old. split; [|done]. destruct (ks_keeps _ _ Hs old Hold) as (c' & Hc' & Hst).
      assert (c' = c) as -> by (apply (key_unique _ c' c Hn' Hc' Hc); pose proof (proj1 Hst); congruence). by apply step_is_revoke_in.
    + right. by apply list_elem_of_filter.
  - intros [(old & -> & Hold)|[_ Hc]%list_elem_of_filter]; [|done].
    destruct (ks_keeps _ _ Hs old Hold) as (c' & Hc' & Hst). by rewrite <-(step_is_revoke_in old c').
Qed.

End step_shape.

(** * Theorems *)

(** C30: The successor check accepts exactly what the trust root can issue: a
    valid keyring is accepted after another exactly when the root can issue its
    content from it by adding keys and revoking keys. *)
Theorem keyring_successor_exact secret prev k :
  keyring_verify prev (verifying_key_of secret) = Ok tt →
  validate_keyring_content k.(keyring_content) = Ok tt ∧ keyring_verify_successor_of k prev = Ok tt ↔
  ∃ additions revocations issued,
    keyring_issue_successor secret prev additions revocations = Ok issued ∧
    issued.(keyring_content) = k.(keyring_content).
Proof.
  intros Hv. pose proof (keyring_verify_wf _ _ Hv) as Hw. rewrite validate_keyring_ok. split.
  - intros [Hw' Hs]. apply keyring_successor_ok in Hs as (He & (i & Hi & Hp) & Hs); [|by apply wf_ids_NoDup].
    set (content := k.(keyring_content)) in *. set (previous := prev.(keyring_content)) in *.
    pose proof (step_keys previous content Hw Hw' He Hs) as Hk.
    destruct (signing_bytes_total content) as [m Hm].
    exists (map (fun c => {| spec_public_key := c.(kc_public_key); spec_permissions := c.(kc_permissions) |})
      (newly_introduced previous content)), (newly_revoked content),
      {| keyring_content := content; keyring_signature := arr_bytes (sign secret m) |}. split; [|done].
    apply keyring_issue_successor_ok. split; [done|]. exists content.(kr_epoch), i, (newly_introduced previous content).
    split_and!; [done..| | | | |].
    + apply (NoDup_fmap_2_strong kc_key_id).
      * intros c c' [_ Hc]%list_elem_of_filter [_ Hc']%list_elem_of_filter. apply (key_unique (kr_keys content)); [by apply wf_ids_NoDup|done..].
      * apply NoDup_filter. eapply NoDup_fmap_1, wf_ids_NoDup, Hw'.
    + intros id. by apply newly_revoked_known.
    + apply certificates_remade; apply Forall_forall; intros c [Hn Hc]%list_elem_of_filter.
      * exact (proj1 (Forall_forall _ _) (kw_keys _ Hw') c Hc).
      * by apply (ks_introduces _ _ Hs).
    + pose proof (wf_ids_NoDup _ Hw') as Hn. rewrite Hk, map_app, revoke_in_ids in Hn. by rewrite map_app.
    + apply keyring_issue_ok. cbn [keyring_content keyring_signature]. split_and!; [|done|by exists m].
      rewrite (sort_by_key_unique kc_key_id _ content.(kr_keys)) by (apply Hw' || by symmetry).
      rewrite <-Hp, <-(kw_version _ Hw'). by destruct content.
  - intros (additions & revocations & issued & H & Hk).
    apply keyring_issue_successor_ok in H as (_ & e & i & cs & He & Hi & Hr1 & Hr2 & Hcs & Hnd & H).
    apply keyring_issue_ok in H as (Hc & Hw' & _). rewrite Hk in Hc, Hw'. split; [done|].
    apply keyring_successor_ok; [by apply wf_ids_NoDup|]. rewrite Hc. cbn [kr_epoch kr_previous].
    split_and!; [done|by exists i|]. eapply keyring_step_made; [apply sort_by_key_perm|by apply wf_ids_NoDup|done|].
    by eapply certificates_made.
Qed.

(** ** Chains *)

(** Verified snapshots, newest first, back to the first one. *)
Inductive keyring_chain root : list SignedReleaseKeyring → Prop :=
| keyring_chain_genesis k :
    keyring_verify k root = Ok tt → uint_val k.(keyring_content).(kr_epoch) = 1%N → keyring_chain root [k]
| keyring_chain_next k prev l :
    keyring_chain root (prev :: l) → keyring_verify k root = Ok tt →
    keyring_verify_successor_of k prev = Ok tt → keyring_chain root (k :: prev :: l).

(** In a valid snapshot a key is active unless it is revoked. *)
Lemma wf_active content c :
  keyring_wf content → c ∈ content.(kr_keys) →
  is_active_at c content.(kr_epoch) = true ↔ c.(kc_revoked) = None.
Proof.
  intros Hw Hc. destruct (proj1 (Forall_forall _ _) (kw_keys _ Hw) c Hc) as [_ _ Hin Hr].
  unfold is_active_at. rewrite andb_true_iff, N.leb_le. split.
  - intros [_ H]. destruct (kc_revoked c) as [r|]; [|done]. specialize (Hr r eq_refl). apply N.ltb_lt in H. lia.
  - intros ->. split; [lia|done].
Qed.

(** Authorization asks for a known key, first, and an unrevoked one, second. *)
Lemma authorize_unknown k id purpose :
  authorize_policy_signer k id purpose = Err UnknownSigningKey ↔ id ∉ key_ids k.(keyring_content).(kr_keys).
Proof.
  unfold authorize_policy_signer, authority_from_bytes. rewrite <-find_key_None.
  destruct (List.find _ _) as [c|]; [|done]. cbn [ok_or rbind].
  destruct (is_active_at _ _), (permits _ _), (verifying_key_ok _); cbn; naive_solver.
Qed.

Lemma authorize_revoked k id purpose :
  keyring_wf k.(keyring_content) →
  authorize_policy_signer k id purpose = Err RevokedSigningKey ↔
  ∃ c, c ∈ k.(keyring_content).(kr_keys) ∧ c.(kc_key_id) = id ∧ c.(kc_revoked) ≠ None.
Proof.
  intros Hw. pose proof (wf_ids_NoDup _ Hw) as Hn. unfold authorize_policy_signer, authority_from_bytes. split.
  - destruct (List.find _ _) as [c|] eqn:Ef; [|done]. apply find_key_Some in Ef as [Hc Hi]; [|done]. cbn [ok_or rbind].
    pose proof (wf_active _ c Hw Hc) as Ha. destruct (is_active_at _ _) eqn:Ea; cbn [negb fail_if rbind].
    + by destruct (permits _ _), (verifying_key_ok _).
    + intros _. exists c. split_and!; [done..|]. intros Hr%Ha. done.
  - intros (c & Hc & Hi & Hr). rewrite (proj2 (find_key_Some _ id c Hn)) by done. cbn [ok_or rbind].
    destruct (is_active_at _ _) eqn:Ea; [|done]. by apply wf_active in Ea.
Qed.

(** What one snapshot says of an older one. *)
Record keyring_extends k prev : Prop := {
  ke_known id : id ∈ key_ids prev.(keyring_content).(kr_keys) → id ∈ key_ids k.(keyring_content).(kr_keys);
  ke_authorized id purpose a : authorize_policy_signer k id purpose = Ok a →
    authorize_policy_signer prev id purpose = Ok a ∨ authorize_policy_signer prev id purpose = Err UnknownSigningKey;
  ke_revoked id purpose : authorize_policy_signer prev id purpose = Err RevokedSigningKey →
    authorize_policy_signer k id purpose = Err RevokedSigningKey
}.

Lemma keyring_extends_trans k k' prev : keyring_extends k k' → keyring_extends k' prev → keyring_extends k prev.
Proof.
  intros [H1 H2 H3] [G1 G2 G3]. split; [auto| |auto].
  intros id purpose a [Ha|Ha]%H2; [by apply G2|]. right. rewrite authorize_unknown in *. auto.
Qed.

Lemma keyring_step_extends k prev :
  keyring_wf k.(keyring_content) → keyring_wf prev.(keyring_content) →
  keyring_step prev.(keyring_content) k.(keyring_content) → keyring_extends k prev.
Proof.
  intros Hw Hw' [Hk Hi]. split.
  - intros id (old & -> & (c & Hc & Hs)%Hk)%list_elem_of_fmap. apply list_elem_of_fmap. exists c. split; [|done]. symmetry. exact (proj1 Hs).
  - intros id purpose a Ha. rewrite authorize_unknown. apply authorize_ok in Ha as (c & Hc & <- & <- & Hact & Hp); [|done].
    destruct (decide (c.(kc_key_id) ∈ key_ids prev.(keyring_content).(kr_keys))) as [(old & He & Hold)%list_elem_of_fmap|]; [left|by right].
    destruct (Hk old Hold) as (c' & Hc' & Hi' & Hpk & Hpm & Hin & Hr).
    assert (c' = c) as -> by (apply (key_unique _ c' c (wf_ids_NoDup _ Hw) Hc' Hc); congruence).
    apply authorize_ok; [done|]. exists old. apply wf_active in Hact as Hn; [|done..].
    split_and!; [done..| |by rewrite <-Hpm]. apply wf_active; [done..|]. destruct Hr as [Hr|[Hr _]]; congruence.
  - intros id purpose (old & Hold & <- & Hr)%authorize_revoked; [|done]. apply authorize_revoked; [done|].
    destruct (Hk old Hold) as (c & Hc & Hi' & _ & _ & _ & Hr'). exists c. split_and!; [done..|].
    destruct Hr' as [->|[? _]]; done.
Qed.

Lemma keyring_chain_head root k l : keyring_chain root (k :: l) → keyring_wf k.(keyring_content).
Proof. inversion 1; subst; by eapply keyring_verify_wf. Qed.

Lemma keyring_chain_extends root k l prev :
  keyring_chain root (k :: l) → prev ∈ l → keyring_extends k prev.
Proof.
  revert k. induction l as [|k' l IH]; intros k Hc Hin; [by apply not_elem_of_nil in Hin|].
  inversion Hc as [|? ? ? Hc' Hv Hs]; subst. pose proof (keyring_chain_head _ _ _ Hc) as Hw.
  pose proof (keyring_chain_head _ _ _ Hc') as Hw'.
  apply keyring_successor_ok in Hs as (_ & _ & Hs); [|by apply wf_ids_NoDup].
  pose proof (keyring_step_extends _ _ Hw Hw' Hs) as He.
  apply elem_of_cons in Hin as [->|Hin]; [done|]. eapply keyring_extends_trans; [exact He|by apply IH].
Qed.

Lemma keyring_chain_epoch root l k :
  keyring_chain root (k :: l) → uint_val k.(keyring_content).(kr_epoch) = N.of_nat (S (length l)).
Proof.
  revert k. induction l as [|prev l IH]; intros k Hc; inversion Hc as [|? ? ? Hc' Hv Hs]; subst; [done|].
  apply keyring_successor_ok in Hs as (-> & _); [|apply wf_ids_NoDup; by eapply keyring_verify_wf].
  rewrite (IH _ Hc'). cbn [length]. lia.
Qed.

(** Along a chain of keyrings a key keeps the authority it was introduced
    with until it is revoked, and then no later keyring authorizes it again for
    anything; the root introduces at most eight keys in all; and every keyring
    has a key that may sign containments. *)
Theorem keyring_history root k l :
  keyring_chain root (k :: l) →
  uint_val k.(keyring_content).(kr_epoch) = N.of_nat (S (length l)) ∧
  (∀ prev id purpose, prev ∈ l →
     (∀ a, authorize_policy_signer k id purpose = Ok a →
        authorize_policy_signer prev id purpose = Ok a ∨
        authorize_policy_signer prev id purpose = Err UnknownSigningKey) ∧
     (authorize_policy_signer prev id purpose = Err RevokedSigningKey →
      authorize_policy_signer k id purpose = Err RevokedSigningKey)) ∧
  (∃ ids, length ids <= 8 ∧ ∀ k' id purpose, k' ∈ k :: l →
     authorize_policy_signer k' id purpose ≠ Err UnknownSigningKey → id ∈ ids) ∧
  ∃ id a, authorize_policy_signer k id PurposeContainment = Ok a.
Proof.
  intros Hc. pose proof (keyring_chain_head _ _ _ Hc) as Hw. split_and!.
  - by eapply keyring_chain_epoch.
  - intros prev id purpose Hin. destruct (keyring_chain_extends _ _ _ _ Hc Hin) as [_ Ha Hr].
    split; [intros a; by apply Ha|by apply Hr].
  - exists (key_ids k.(keyring_content).(kr_keys)). split.
    + rewrite length_map. pose proof (kw_count _ Hw). unfold len, MAX_RELEASE_SIGNING_KEYS in *. lia.
    + intros k' id purpose Hin Hk. rewrite authorize_unknown in Hk. apply dec_stable in Hk.
      apply elem_of_cons in Hin as [->|Hin]; [done|]. by apply (ke_known _ _ (keyring_chain_extends _ _ _ _ Hc Hin)).
  - destruct (kw_containment _ Hw) as (c & Hin & [Ha Hp]%andb_true_iff). exists (kc_key_id c), (kc_public_key c).
    apply authorize_ok; [done|]. by exists c.
Qed.

(** Strict decoding accepts exactly the canonical encodings of keyrings
    that verify under the trust root, and whatever the root issues, the first
    keyring or a later one, encodes within the limit and reads back under its
    public key. *)
Theorem keyring_codec_exact secret bs k :
  (∀ root, keyring_decode_and_verify bs root = Ok k ↔
     keyring_encode k = Ok bs ∧ keyring_verify k root = Ok tt) ∧
  (∀ k', keyring_encode k = Ok bs → keyring_encode k' = Ok bs → k = k') ∧
  ((∃ specs, keyring_issue_genesis secret specs = Ok k) ∨
   (∃ prev additions revocations, keyring_issue_successor secret prev additions revocations = Ok k) →
   ∃ sent, keyring_encode k = Ok sent ∧ keyring_decode_and_verify sent (verifying_key_of secret) = Ok k).
Proof.
  split; [intros root; apply keyring_decode_ok|]. split; [intros k'; apply keyring_encode_inj|]. intros H.
  assert (∃ epoch previous keys, keyring_issue secret epoch previous keys = Ok k) as (e & p & keys & Hk).
  { destruct H as [(specs & H)|(prev & additions & revocations & H)].
    - unfold keyring_issue_genesis in H. apply rbind_ok in H as (cs & _ & H). by eexists _, _, _.
    - apply keyring_issue_successor_ok in H as (_ & e & i & cs & _ & _ & _ & _ & _ & _ & H). by eexists _, _, _. }
  apply keyring_issue_ok in Hk as (_ & Hw & m & Hm & Hs). destruct k as [content sg]. cbn [keyring_content keyring_signature] in *.
  subst sg. pose proof (issued_verifies secret _ _ Hw Hm) as Hv. set (k := Build_SignedReleaseKeyring _ _) in *.
  destruct (postcard_total k) as [sent Hsent]. exists sent.
  assert (keyring_encode k = Ok sent); [|split; [done|by apply keyring_decode_ok]].
  apply keyring_encode_ok. split; [by apply validate_keyring_ok|]. split; [done|].
  pose proof (keyring_size _ _ Hsent) as Hz. pose proof (kw_count _ Hw) as Hn.
  subst k. cbn [keyring_content keyring_signature] in Hz. rewrite len_arr in Hz.
  unfold MAX_SIGNED_RELEASE_KEYRING_BYTES, MAX_RELEASE_SIGNING_KEYS in *.
  assert (8 < U64_BOUND)%N by done. assert (64 < U64_BOUND)%N by done. lia.
Qed.

End trust.

(** * An example keyring *)

Module TrustExample.
Import RolloutExample.
#[export] Existing Instances u16_codec option_codec phase_codec disposition_codec content_codec signed_policy_codec.
#[export] Existing Instances rollout_postcard rollout_postcard_laws.

#[export] Instance permissions_codec : Codec ReleaseSigningPermissions :=
  iso_codec (fun p => (normal_policy p, containment_policy p)) (fun '(n, c) => Build_ReleaseSigningPermissions n c)
    ltac:(by intros []).

#[export] Instance certificate_codec : Codec ReleaseSigningKeyCertificate :=
  iso_codec (fun c => (kc_key_id c, (kc_public_key c, (kc_permissions c, (kc_introduced c, kc_revoked c)))))
    (fun '(i, (k, (p, (n, r)))) => Build_ReleaseSigningKeyCertificate i k p n r) ltac:(by intros []).

#[export] Instance keyring_content_codec : Codec ReleaseKeyringContent :=
  iso_codec (fun c => (kr_version c, (kr_epoch c, (kr_previous c, kr_keys c))))
    (fun '(v, (e, (p, l))) => Build_ReleaseKeyringContent v e p l) ltac:(by intros []).

#[export] Instance keyring_codec : Codec SignedReleaseKeyring :=
  iso_codec (fun k => (keyring_content k, keyring_signature k)) (fun '(c, s) => Build_SignedReleaseKeyring c s)
    ltac:(by intros []).

#[export] Instance trust_postcard : TrustPostcard :=
  {| pc_keyring_content := codec_postcard; pc_keyring := codec_postcard |}.

Lemma len_certificate_enc (c : ReleaseSigningKeyCertificate) : (len (codec_enc c) <= 127)%N.
Proof.
  destruct c as [i k [n p] e r].
  change (codec_enc (Build_ReleaseSigningKeyCertificate i k {| normal_policy := n; containment_policy := p |} e r))
    with (codec_enc i ++ codec_enc k ++ (codec_enc n ++ codec_enc p) ++ codec_enc e ++ codec_enc r).
  rewrite !len_app, !len_arr_enc, len_u64_enc.
  assert (len (codec_enc n) = 1%N) as -> by by destruct n. assert (len (codec_enc p) = 1%N) as -> by by destruct p.
  assert (len (codec_enc r) <= 9)%N; [|lia]. destruct r as [r|]; [|done].
  change (codec_enc (Some r)) with (x01 :: codec_enc r). by rewrite len_cons, len_u64_enc.
Qed.

Lemma len_certificates_enc (l : list ReleaseSigningKeyCertificate) : (len (codec_enc l) <= 1 + 128 * len l)%N.
Proof.
  change (codec_enc l) with (list_enc l). unfold list_enc. rewrite len_app. change (len [x00]) with 1%N.
  induction l as [|c l IH]; [done|]. cbn [map concat app]. rewrite !len_cons, len_app.
  pose proof (len_certificate_enc c). lia.
Qed.

#[export] Instance trust_postcard_laws : TrustPostcardLaws trust_postcard.
Proof.
  split; try apply codec_postcard_laws.
  intros [[v e p l] sg] bs Hb%(inj Some) Hs _. cbn [keyring_signature keyring_content kr_keys] in *. subst bs.
  change (codec_enc (Build_SignedReleaseKeyring _ _))
    with ((codec_enc v ++ codec_enc e ++ codec_enc p ++ codec_enc l) ++ codec_enc sg).
  pose proof (len_option_enc p). pose proof (len_certificates_enc l). rewrite !len_app, len_u64_enc.
  change (len (codec_enc v)) with 1%N. cbn [codec_enc vec_codec].
  rewrite (proj2 (N.ltb_lt _ _) Hs), len_cons, len_app.
  assert (len (to_be_bytes 8 (len sg)) = 8%N) as -> by (unfold len; by rewrite length_to_be_bytes). lia.
Qed.

#[local] Existing Instances Toy.ed25519_instance Toy.ed25519_laws Toy.sha256_instance.

(** The root, an operational key and an emergency key. *)
Definition root_key : arr 32 := arr_repeat 32 x21.
Definition operational : arr 32 := arr_repeat 32 x22.
Definition emergency : arr 32 := arr_repeat 32 x23.
Definition specs : list ReleaseSigningKeySpec :=
  [spec_from_signing_key operational NORMAL_AND_CONTAINMENT].
Definition key_id_of (key : arr 32) : arr 32 := sha256 (SIGNING_KEY_ID_DOMAIN ++ arr_bytes (verifying_key_of key)).

Definition no_keyring : SignedReleaseKeyring :=
  {| keyring_content := {| kr_version := x00; kr_epoch := as_u64 0; kr_previous := None; kr_keys := [] |};
     keyring_signature := [] |}.
Definition genesis : SignedReleaseKeyring :=
  Eval vm_compute in match keyring_issue_genesis root_key specs with Ok k => k | Err _ => no_keyring end.
(** The operational key is revoked and the emergency key added. *)
Definition rotated : SignedReleaseKeyring :=
  Eval vm_compute in
  match keyring_issue_successor root_key genesis [spec_from_signing_key emergency CONTAINMENT_ONLY]
          [key_id_of operational] with Ok k => k | Err _ => no_keyring end.

Lemma genesis_issued : keyring_issue_genesis root_key specs = Ok genesis.
Proof. vm_cast_no_check (eq_refl (Ok (E:=ReleaseTrustError) genesis)). Qed.
Lemma genesis_verifies : keyring_verify genesis (verifying_key_of root_key) = Ok tt.
Proof. vm_cast_no_check (eq_refl (Ok (E:=ReleaseTrustError) tt)). Qed.
Lemma rotated_issued :
  keyring_issue_successor root_key genesis [spec_from_signing_key emergency CONTAINMENT_ONLY]
    [key_id_of operational] = Ok rotated.
Proof. vm_cast_no_check (eq_refl (Ok (E:=ReleaseTrustError) rotated)). Qed.
Lemma rotated_chain : keyring_chain (verifying_key_of root_key) [rotated; genesis].
Proof.
  apply keyring_chain_next; [apply keyring_chain_genesis; [exact genesis_verifies|done]|..];
    vm_cast_no_check (eq_refl (Ok (E:=ReleaseTrustError) tt)).
Qed.

Lemma keyring_successor_exact_witness :
  validate_keyring_content rotated.(keyring_content) = Ok tt ∧ keyring_verify_successor_of rotated genesis = Ok tt.
Proof.
  apply (keyring_successor_exact root_key genesis rotated genesis_verifies).
  exists [spec_from_signing_key emergency CONTAINMENT_ONLY], [key_id_of operational], rotated.
  split; [exact rotated_issued|reflexivity].
Defined.

Lemma keyring_history_witness :
  (∀ purpose, authorize_policy_signer rotated (key_id_of operational) purpose ≠ Ok operational) ∧
  authorize_policy_signer genesis (key_id_of operational) PurposeNormal = Ok operational ∧
  ∃ id a, authorize_policy_signer rotated id PurposeContainment = Ok a.
Proof.
  destruct (keyring_history _ _ _ rotated_chain) as (_ & Hk & _ & Hc). split; [|split; [by vm_compute|exact Hc]].
  intros purpose. by destruct purpose; vm_compute.
Defined.

Lemma keyring_codec_exact_witness :
  ∃ sent, keyring_encode rotated = Ok sent ∧
    keyring_decode_and_verify sent (verifying_key_of root_key) = Ok rotated.
Proof.
  destruct (keyring_codec_exact root_key [] rotated) as (_ & _ & H). apply H. right.
  eexists _, _, _. exact rotated_issued.
Defined.

End TrustExample.
