(* ===== verification/TrustedPolicy.v ===== *)
(** Bundles of a keyring and a policy, and the store that keeps their chain:
    [kilogram-rollout/src/trusted_policy.rs] and
    [kilogram-rollout/src/trusted_policy_store.rs].

    A bundle carries a policy with the keyring that authorizes its signer, so
    it is verified from the trust root alone.  The store keeps every bundle it
    accepted, reads and verifies the whole chain before each import, and
    compares the head it planned against inside the write transaction.

    A file is seen through the three calls the source makes on it; the checks
    of the store's own directory and failures of the storage device are not
    modelled. *)

From stdpp Require Import base tactics list numbers strings.
From Stdlib Require Import Strings.Byte.
From S2P Require Import Prelude Crypto Postcard Redb Rollout ReleaseTrust.

#[local] Set Primitive Projections.

(** * Bundles *)

Definition TRUSTED_POLICY_BUNDLE_VERSION : byte := x01.
Definition TRUSTED_POLICY_BUNDLE_ID_DOMAIN : bytes :=
  b_str "kilogram:rollout:trusted-policy-bundle-id:v1" ++ [x00].
Definition MAX_TRUSTED_RELEASE_POLICY_BUNDLE_BYTES : usize := 8192.

Inductive TrustedPolicyError :=
| BundleLength (n : usize)
| BundleVersion (v : byte)
| BundleCodec
| NonCanonicalBundle
| KeyringBinding
| PurposeMismatch
| BundleTrust (e : ReleaseTrustError)
| BundlePolicy (e : RolloutError).

Abbreviation TrustedPolicyBundleId := (arr 32).

Record TrustedReleasePolicyBundleWire := {
  bw_version : byte;
  bw_keyring_id : ReleaseKeyringId;
  bw_signer_key_id : ReleaseSigningKeyId;
  bw_purpose : ReleasePolicyPurpose;
  bw_signed_keyring : bytes;
  bw_signed_policy : bytes
}.

Record TrustedReleasePolicyBundle := {
  bundle_wire : TrustedReleasePolicyBundleWire;
  bundle_keyring : SignedReleaseKeyring;
  bundle_policy : SignedReleasePolicy
}.

#[export] Instance ReleasePolicyContent_eq_dec : EqDecision ReleasePolicyContent.
Proof. solve_decision. Defined.
#[export] Instance SignedReleasePolicy_eq_dec : EqDecision SignedReleasePolicy.
Proof. solve_decision. Defined.
#[export] Instance TrustedReleasePolicyBundleWire_eq_dec : EqDecision TrustedReleasePolicyBundleWire.
Proof. solve_decision. Defined.
#[export] Instance TrustedReleasePolicyBundle_eq_dec : EqDecision TrustedReleasePolicyBundle.
Proof. solve_decision. Defined.

(** [postcard] at the type of a bundle. *)
Class BundlePostcard := {
  pc_bundle :: Postcard TrustedReleasePolicyBundleWire
}.

Definition purpose_for_disposition (d : RolloutDisposition) : ReleasePolicyPurpose :=
  match d with NormalPolicy => PurposeNormal | Containment => PurposeContainment end.

Section bundles.
Context `{Ed25519, Sha256, RolloutPostcard, TrustPostcard, BundlePostcard}.

Definition bundle_policy_authority (b : TrustedReleasePolicyBundle)
  : result TrustedPolicyError ReleasePolicyAuthority :=
  map_err BundleTrust
    (authorize_policy_signer b.(bundle_keyring) b.(bundle_wire).(bw_signer_key_id) b.(bundle_wire).(bw_purpose)).

(** The comparisons are evaluated from left to right until one differs. *)
Definition bundle_validate_internal (b : TrustedReleasePolicyBundle) : result TrustedPolicyError unit :=
  let w := b.(bundle_wire) in
  fail_if (negb (bool_decide (w.(bw_version) = TRUSTED_POLICY_BUNDLE_VERSION)))
    (BundleVersion w.(bw_version)) ;?
  let? differs :=
    (let? id := map_err BundleTrust (keyring_id b.(bundle_keyring)) in
     if negb (bool_decide (id = w.(bw_keyring_id))) then Ok true else
     let? keyring := map_err BundleTrust (keyring_encode b.(bundle_keyring)) in
     if negb (bool_decide (keyring = w.(bw_signed_keyring))) then Ok true else
     let? policy := map_err BundlePolicy (policy_encode b.(bundle_policy)) in
     Ok (negb (bool_decide (policy = w.(bw_signed_policy))))) in
  fail_if differs KeyringBinding ;?
  let? authority := bundle_policy_authority b in
  map_err BundlePolicy (policy_verify b.(bundle_policy) authority) ;?
  fail_if (negb (bool_decide (purpose_for_disposition b.(bundle_policy).(policy_content).(rp_disposition)
                              = w.(bw_purpose)))) PurposeMismatch.

Definition bundle_encode (b : TrustedReleasePolicyBundle) : result TrustedPolicyError bytes :=
  bundle_validate_internal b ;?
  let? encoded := ok_or (to_allocvec b.(bundle_wire)) BundleCodec in
  fail_if ((len encoded =? 0) || (MAX_TRUSTED_RELEASE_POLICY_BUNDLE_BYTES <? len encoded))%N
    (BundleLength (len encoded)) ;?
  Ok encoded.

Definition bundle_decode_and_verify (encoded : bytes) (trust_root : ReleaseTrustRoot)
  : result TrustedPolicyError TrustedReleasePolicyBundle :=
  fail_if ((len encoded =? 0) || (MAX_TRUSTED_RELEASE_POLICY_BUNDLE_BYTES <? len encoded))%N
    (BundleLength (len encoded)) ;?
  let? wire := ok_or (from_bytes encoded) BundleCodec in
  fail_if (negb (bool_decide (wire.(bw_version) = TRUSTED_POLICY_BUNDLE_VERSION)))
    (BundleVersion wire.(bw_version)) ;?
  let? keyring := map_err BundleTrust (keyring_decode_and_verify wire.(bw_signed_keyring) trust_root) in
  let? id := map_err BundleTrust (keyring_id keyring) in
  fail_if (negb (bool_decide (id = wire.(bw_keyring_id)))) KeyringBinding ;?
  let? authority := map_err BundleTrust
    (authorize_policy_signer keyring wire.(bw_signer_key_id) wire.(bw_purpose)) in
  let? policy := map_err BundlePolicy (policy_decode_and_verify wire.(bw_signed_policy) authority) in
  fail_if (negb (bool_decide (purpose_for_disposition policy.(policy_content).(rp_disposition)
                              = wire.(bw_purpose)))) PurposeMismatch ;?
  let bundle := {| bundle_wire := wire; bundle_keyring := keyring; bundle_policy := policy |} in
  bundle_validate_internal bundle ;?
  let? again := bundle_encode bundle in
  fail_if (negb (bool_decide (again = encoded))) NonCanonicalBundle ;?
  Ok bundle.

Definition bundle_verify (b : TrustedReleasePolicyBundle) (trust_root : ReleaseTrustRoot)
  : result TrustedPolicyError unit :=
  let? encoded := bundle_encode b in
  let? decoded := bundle_decode_and_verify encoded trust_root in
  fail_if (negb (bool_decide (decoded = b))) NonCanonicalBundle.

Definition bundle_verify_successor_of (b previous : TrustedReleasePolicyBundle)
  : result TrustedPolicyError unit :=
  map_err BundlePolicy (verify_successor_of b.(bundle_policy) previous.(bundle_policy)) ;?
  let? id := map_err BundleTrust (keyring_id b.(bundle_keyring)) in
  let? previous_id := map_err BundleTrust (keyring_id previous.(bundle_keyring)) in
  if negb (bool_decide (id = previous_id))
  then map_err BundleTrust (keyring_verify_successor_of b.(bundle_keyring) previous.(bundle_keyring))
  else Ok tt.

Definition bundle_id (b : TrustedReleasePolicyBundle) : result TrustedPolicyError TrustedPolicyBundleId :=
  let? encoded := bundle_encode b in
  Ok (sha256 (TRUSTED_POLICY_BUNDLE_ID_DOMAIN ++ encoded)).

Definition bundle_assemble (keyring : SignedReleaseKeyring) (signer_key_id : ReleaseSigningKeyId)
    (purpose : ReleasePolicyPurpose) (policy : SignedReleasePolicy)
  : result TrustedPolicyError TrustedReleasePolicyBundle :=
  fail_if (negb (bool_decide (purpose_for_disposition policy.(policy_content).(rp_disposition) = purpose)))
    PurposeMismatch ;?
  let? id := map_err BundleTrust (keyring_id keyring) in
  let? signed_keyring := map_err BundleTrust (keyring_encode keyring) in
  let? signed_policy := map_err BundlePolicy (policy_encode policy) in
  let bundle := {|
    bundle_wire := {| bw_version := TRUSTED_POLICY_BUNDLE_VERSION; bw_keyring_id := id;
                      bw_signer_key_id := signer_key_id; bw_purpose := purpose;
                      bw_signed_keyring := signed_keyring; bw_signed_policy := signed_policy |};
    bundle_keyring := keyring; bundle_policy := policy
  |} in
  bundle_validate_internal bundle ;?
  Ok bundle.

Definition bundle_issue_genesis_hold (trust_root : ReleaseTrustRoot) (keyring : SignedReleaseKeyring)
    (policy_signing_key : arr 32) (artifact : ReleaseArtifactId)
  : result TrustedPolicyError TrustedReleasePolicyBundle :=
  map_err BundleTrust (keyring_verify keyring trust_root) ;?
  let? signer_key_id := map_err BundleTrust (key_id_from_public_key (verifying_key_of policy_signing_key)) in
  let? authority := map_err BundleTrust (authorize_policy_signer keyring signer_key_id PurposeNormal) in
  let? policy := map_err BundlePolicy (issue_genesis_hold policy_signing_key artifact) in
  map_err BundlePolicy (policy_verify policy authority) ;?
  bundle_assemble keyring signer_key_id PurposeNormal policy.

Definition bundle_issue_successor (trust_root : ReleaseTrustRoot) (keyring : SignedReleaseKeyring)
    (policy_signing_key : arr 32) (previous : TrustedReleasePolicyBundle) (artifact : ReleaseArtifactId)
    (phase : RolloutPhase) (disposition : RolloutDisposition) (cohort : u16)
  : result TrustedPolicyError TrustedReleasePolicyBundle :=
  map_err BundleTrust (keyring_verify keyring trust_root) ;?
  bundle_verify previous trust_root ;?
  let? id := map_err BundleTrust (keyring_id keyring) in
  let? previous_id := map_err BundleTrust (keyring_id previous.(bundle_keyring)) in
  (if negb (bool_decide (id = previous_id))
   then map_err BundleTrust (keyring_verify_successor_of keyring previous.(bundle_keyring))
   else Ok tt) ;?
  let purpose := purpose_for_disposition disposition in
  let? signer_key_id := map_err BundleTrust (key_id_from_public_key (verifying_key_of policy_signing_key)) in
  let? authority := map_err BundleTrust (authorize_policy_signer keyring signer_key_id purpose) in
  let? previous_authority := bundle_policy_authority previous in
  let? policy := map_err BundlePolicy
    (issue_successor_with_previous_authority policy_signing_key previous.(bundle_policy)
       previous_authority artifact phase disposition cohort) in
  map_err BundlePolicy (policy_verify policy authority) ;?
  bundle_assemble keyring signer_key_id purpose policy.

End bundles.

(** * The store *)

Definition TP_SCHEMA_KEY : bytes := b_str "schema-version".
Definition TP_TRUST_ROOT_KEY : bytes := b_str "release-trust-root".
Definition TP_HEAD_KEY : bytes := b_str "trusted-policy-head".
Definition TP_SCHEMA_VERSION : byte := x01.
Definition MAX_DURABLE_TRUSTED_POLICY_BUNDLES : N := 32.

Inductive ExplicitTrustedPolicyImport := ImportNotAuthorized | ImportRequested.

Inductive TrustedPolicyImportOutcome :=
| Installed (bundle_id : TrustedPolicyBundleId) (policy_epoch keyring_epoch : u64)
| AlreadyCurrent (bundle_id : TrustedPolicyBundleId) (policy_epoch keyring_epoch : u64).

Inductive TrustedPolicyStoreError :=
| StoreIo
| StoreDatabase
| StoreUnsafeLocalDirectory
| StoreUnsafeDatabaseFile
| UnsafeInputFile
| InputLength (n : usize)
| InputChangedDuringRead
| ExplicitImportRequired
| StoreDatabaseSchema
| TrustRootMismatch
| InvalidHeadLength
| MissingHead
| MissingHeadBundle
| BundleIdBinding
| BundleIdCollision
| InvalidGenesisBundle
| PolicyChainGap
| HeadIsNotChainTip
| ConcurrentHeadChanged
| BundleCapacity
| StoreTrustedPolicy (e : TrustedPolicyError).

(** What [fs::symlink_metadata] says of a path, and what the calls on the
    input return, in order; [None] is an I/O error. *)
Record file_metadata := {
  is_real_file : bool;
  file_len : u64
}.

Record input_file := {
  input_metadata : option file_metadata;
  input_bytes : option bytes;
  input_after : option file_metadata
}.

Definition read_bounded_real_file (f : input_file) : result TrustedPolicyStoreError bytes :=
  let? metadata := ok_or f.(input_metadata) StoreIo in
  fail_if (negb metadata.(is_real_file)) UnsafeInputFile ;?
  let? declared := ok_or (usize_try_from metadata.(file_len)) (InputLength USIZE_MAX) in
  fail_if ((declared =? 0) || (MAX_TRUSTED_RELEASE_POLICY_BUNDLE_BYTES <? declared))%N
    (InputLength declared) ;?
  let? bs := ok_or f.(input_bytes) StoreIo in
  let? after := ok_or f.(input_after) StoreIo in
  fail_if (negb after.(is_real_file)
           || negb (u64_eqb after.(file_len) metadata.(file_len))
           || negb (len bs =? declared)%N) InputChangedDuringRead ;?
  Ok bs.

Section store.
Context `{Ed25519, Sha256, RolloutPostcard, TrustPostcard, BundlePostcard, Redb}.

Record TrustedPolicyDatabase := {
  TP_META : table bytes bytes;
  TP_BUNDLES : table bytes bytes
}.

Record TrustedPolicyStore := {
  tp_database : TrustedPolicyDatabase;
  tp_trust_root : ReleaseTrustRoot
}.

Definition tp_create : TrustedPolicyDatabase := {| TP_META := table_new; TP_BUNDLES := table_new |}.

Definition tp_outcome (installed : bool) (b : TrustedReleasePolicyBundle)
  : result TrustedPolicyStoreError TrustedPolicyImportOutcome :=
  let? id := map_err StoreTrustedPolicy (bundle_id b) in
  let policy_epoch := b.(bundle_policy).(policy_content).(rp_epoch) in
  let keyring_epoch := b.(bundle_keyring).(keyring_content).(kr_epoch) in
  Ok (if installed then Installed id policy_epoch keyring_epoch
      else AlreadyCurrent id policy_epoch keyring_epoch).

Definition tp_read_head_id (meta : table bytes bytes)
  : result TrustedPolicyStoreError (option TrustedPolicyBundleId) :=
  match table_get TP_HEAD_KEY meta with
  | None => Ok None
  | Some bs => let? id := ok_or (arr_try_from 32 bs) InvalidHeadLength in Ok (Some id)
  end.

Definition tp_verify_meta (meta : table bytes bytes) (trust_root : ReleaseTrustRoot)
  : result TrustedPolicyStoreError unit :=
  let? schema := ok_or (table_get TP_SCHEMA_KEY meta) StoreDatabaseSchema in
  fail_if (negb (bool_decide (schema = [TP_SCHEMA_VERSION]))) StoreDatabaseSchema ;?
  let? root := ok_or (table_get TP_TRUST_ROOT_KEY meta) TrustRootMismatch in
  fail_if (negb (bool_decide (root = arr_bytes trust_root))) TrustRootMismatch.

(** The test both loops make on the first bundle of a chain, besides that of
    the policy epoch. *)
Definition not_genesis (b : TrustedReleasePolicyBundle) : bool :=
  match b.(bundle_policy).(policy_content).(rp_previous) with Some _ => true | None => false end
  || negb (uint_val b.(bundle_keyring).(keyring_content).(kr_epoch) =? 1)%N
  || match b.(bundle_keyring).(keyring_content).(kr_previous) with Some _ => true | None => false end.

(** The body of the loop over the rows, and the loop over the sorted chain
    with the index and the bundle before it. *)
Definition read_bundle_row (trust_root : ReleaseTrustRoot) (row : bytes * bytes)
  : result TrustedPolicyStoreError TrustedReleasePolicyBundle :=
  let '(key, value) := row in
  let? bundle := map_err StoreTrustedPolicy (bundle_decode_and_verify value trust_root) in
  let? id := map_err StoreTrustedPolicy (bundle_id bundle) in
  fail_if (negb (bool_decide (key = arr_bytes id))) BundleIdBinding ;?
  Ok bundle.

Fixpoint verify_chain_from (index : N) (previous : option TrustedReleasePolicyBundle)
    (chain : list TrustedReleasePolicyBundle) : result TrustedPolicyStoreError unit :=
  match chain with
  | [] => Ok tt
  | bundle :: rest =>
      let? expected_epoch := ok_or (u64_checked_add (as_u64 index) (as_u64 1)) BundleCapacity in
      fail_if (negb (u64_eqb bundle.(bundle_policy).(policy_content).(rp_epoch) expected_epoch))
        PolicyChainGap ;?
      match previous with
      | Some previous => map_err StoreTrustedPolicy (bundle_verify_successor_of bundle previous)
      | None => fail_if (not_genesis bundle) InvalidGenesisBundle
      end ;?
      verify_chain_from (index + 1) (Some bundle) rest
  end.

Definition bundle_chain_from_read (db : TrustedPolicyDatabase) (trust_root : ReleaseTrustRoot)
  : result TrustedPolicyStoreError (list TrustedReleasePolicyBundle) :=
  tp_verify_meta db.(TP_META) trust_root ;?
  let? head := tp_read_head_id db.(TP_META) in
  let count := uint_val (table_len db.(TP_BUNDLES)) in
  fail_if (MAX_DURABLE_TRUSTED_POLICY_BUNDLES <? count)%N BundleCapacity ;?
  if (count =? 0)%N then
    fail_if (match head with Some _ => true | None => false end) MissingHeadBundle ;?
    Ok []
  else
    let? head := ok_or head MissingHead in
    let? chain := try_map (read_bundle_row trust_root) (table_iter db.(TP_BUNDLES)) in
    let chain := sort_by_key (fun b => b.(bundle_policy).(policy_content).(rp_epoch)) chain in
    verify_chain_from 0 None chain ;?
    let? current := ok_or (last chain) MissingHead in
    let? id := map_err StoreTrustedPolicy (bundle_id current) in
    fail_if (negb (bool_decide (id = head))) HeadIsNotChainTip ;?
    Ok chain.

Definition current_bundle_from_read (db : TrustedPolicyDatabase) (trust_root : ReleaseTrustRoot)
  : result TrustedPolicyStoreError (option TrustedReleasePolicyBundle) :=
  let? chain := bundle_chain_from_read db trust_root in
  Ok (last chain).

Definition tp_current_bundle (self : TrustedPolicyStore)
  : result TrustedPolicyStoreError (option TrustedReleasePolicyBundle) :=
  current_bundle_from_read self.(tp_database) self.(tp_trust_root).

Definition tp_bundle_chain (self : TrustedPolicyStore)
  : result TrustedPolicyStoreError (list TrustedReleasePolicyBundle) :=
  bundle_chain_from_read self.(tp_database) self.(tp_trust_root).

Definition tp_initialize (trust_root : ReleaseTrustRoot) (db : TrustedPolicyDatabase)
  : result TrustedPolicyStoreError TrustedPolicyDatabase :=
  let? meta :=
    match table_get TP_SCHEMA_KEY db.(TP_META) with
    | Some value =>
        fail_if (negb (bool_decide (value = [TP_SCHEMA_VERSION]))) StoreDatabaseSchema ;?
        Ok db.(TP_META)
    | None => Ok (table_insert TP_SCHEMA_KEY [TP_SCHEMA_VERSION] db.(TP_META))
    end in
  let? meta :=
    match table_get TP_TRUST_ROOT_KEY meta with
    | Some value =>
        fail_if (negb (bool_decide (value = arr_bytes trust_root))) TrustRootMismatch ;?
        Ok meta
    | None => Ok (table_insert TP_TRUST_ROOT_KEY (arr_bytes trust_root) meta)
    end in
  Ok {| TP_META := meta; TP_BUNDLES := db.(TP_BUNDLES) |}.

Definition tp_open (trust_root : ReleaseTrustRoot) (db : TrustedPolicyDatabase)
  : result TrustedPolicyStoreError TrustedPolicyStore :=
  let? db := tp_initialize trust_root db in
  let store := {| tp_database := db; tp_trust_root := trust_root |} in
  tp_current_bundle store ;?
  Ok store.

(** [import_explicit_file] up to the write transaction: an outcome, or what
    the transaction is to write and the head it expects. *)
Record import_plan := {
  plan_bytes : bytes;
  plan_bundle : TrustedReleasePolicyBundle;
  plan_id : TrustedPolicyBundleId;
  plan_expected_head : option TrustedPolicyBundleId
}.

Definition import_prepare (self : TrustedPolicyStore) (file : input_file)
    (authorization : ExplicitTrustedPolicyImport)
  : result TrustedPolicyStoreError (TrustedPolicyImportOutcome + import_plan) :=
  match authorization with ImportRequested => Ok tt | ImportNotAuthorized => Err ExplicitImportRequired end ;?
  let? bs := read_bounded_real_file file in
  let? candidate := map_err StoreTrustedPolicy (bundle_decode_and_verify bs self.(tp_trust_root)) in
  let? candidate_id := map_err StoreTrustedPolicy (bundle_id candidate) in
  let? current := tp_current_bundle self in
  let? already :=
    match current with
    | Some current =>
        let? current_id := map_err StoreTrustedPolicy (bundle_id current) in
        if bool_decide (current_id = candidate_id) then
          let? encoded := map_err StoreTrustedPolicy (bundle_encode current) in
          fail_if (negb (bool_decide (encoded = bs))) BundleIdCollision ;?
          let? o := tp_outcome false candidate in
          Ok (Some o)
        else
          map_err StoreTrustedPolicy (bundle_verify_successor_of candidate current) ;?
          Ok None
    | None =>
        fail_if (negb (uint_val candidate.(bundle_policy).(policy_content).(rp_epoch) =? 1)%N
                 || not_genesis candidate) InvalidGenesisBundle ;?
        Ok None
    end in
  match already with
  | Some o => Ok (inl o)
  | None =>
      let? expected_head :=
        match current with
        | Some current => let? id := map_err StoreTrustedPolicy (bundle_id current) in Ok (Some id)
        | None => Ok None
        end in
      Ok (inr {| plan_bytes := bs; plan_bundle := candidate; plan_id := candidate_id;
                 plan_expected_head := expected_head |})
  end.

(** The write transaction. *)
Definition import_commit (self : TrustedPolicyStore) (p : import_plan)
  : result TrustedPolicyStoreError (TrustedPolicyImportOutcome * TrustedPolicyStore) :=
  let db := self.(tp_database) in
  let? actual_head := tp_read_head_id db.(TP_META) in
  fail_if (negb (bool_decide (actual_head = p.(plan_expected_head)))) ConcurrentHeadChanged ;?
  fail_if (MAX_DURABLE_TRUSTED_POLICY_BUNDLES <=? uint_val (table_len db.(TP_BUNDLES)))%N BundleCapacity ;?
  let? bundles :=
    match table_get (arr_bytes p.(plan_id)) db.(TP_BUNDLES) with
    | Some existing =>
        fail_if (negb (bool_decide (existing = p.(plan_bytes)))) BundleIdCollision ;?
        Ok db.(TP_BUNDLES)
    | None => Ok (table_insert (arr_bytes p.(plan_id)) p.(plan_bytes) db.(TP_BUNDLES))
    end in
  let meta := table_insert TP_HEAD_KEY (arr_bytes p.(plan_id)) db.(TP_META) in
  let store := {| tp_database := {| TP_META := meta; TP_BUNDLES := bundles |};
                  tp_trust_root := self.(tp_trust_root) |} in
  let? o := tp_outcome true p.(plan_bundle) in
  Ok (o, store).

Definition import_explicit_file (self : TrustedPolicyStore) (file : input_file)
    (authorization : ExplicitTrustedPolicyImport)
  : result TrustedPolicyStoreError (TrustedPolicyImportOutcome * TrustedPolicyStore) :=
  let? planned := import_prepare self file authorization in
  match planned with
  | inl o => Ok (o, self)
  | inr p => import_commit self p
  end.

(** [inspect_existing_trusted_policy_store]: [None] is a missing directory or
    database. *)
Definition inspect_existing_trusted_policy_store (db : option TrustedPolicyDatabase)
    (trust_root : ReleaseTrustRoot)
  : result TrustedPolicyStoreError (option (option TrustedReleasePolicyBundle)) :=
  match db with
  | None => Ok None
  | Some db => let? current := current_bundle_from_read db trust_root in Ok (Some current)
  end.

End store.
