(* ===== verification/TrustedPolicyFacts.v ===== *)
(** Theorems on the bundles and the store of [TrustedPolicy]: the codec and
    what a decoded bundle guarantees, the refinement of the store by an
    append-only list of bundles, its invariant, and two writers that
    interleave. *)

From stdpp Require Import base tactics list numbers strings sets relations sorting.
From Stdlib Require Import Strings.Byte Sorting.Sorted.
From S2P Require Import Prelude Crypto Postcard Redb Rollout RolloutFacts ReleaseTrust ReleaseTrustFacts TrustedPolicy.

(** What the model relies on: [postcard]'s laws and the size of its output. *)
Class BundlePostcardLaws (P : BundlePostcard) : Prop := {
  bl_bundle :: PostcardLaws TrustedReleasePolicyBundleWire;
  bundle_size (w : TrustedReleasePolicyBundleWire) bs :
    to_allocvec w = Some bs →
    (len w.(bw_signed_keyring) < U64_BOUND)%N → (len w.(bw_signed_policy) < U64_BOUND)%N →
    (0 < len bs <= len w.(bw_signed_keyring) + len w.(bw_signed_policy) + 256)%N
}.

Abbreviation epoch_of b := b.(bundle_policy).(policy_content).(rp_epoch).

Section bundles.
Context {E : Ed25519} {SH : Sha256} {RP : RolloutPostcard} {TP : TrustPostcard} {BP : BundlePostcard}.
Context {RPL : RolloutPostcardLaws RP} {TPL : TrustPostcardLaws TP} {BPL : BundlePostcardLaws BP}.
Implicit Types (b prev : TrustedReleasePolicyBundle) (root : ReleaseTrustRoot) (bs : bytes).

(** * Bundles *)

Record bundle_wf b : Prop := {
  bf_version : b.(bundle_wire).(bw_version) = TRUSTED_POLICY_BUNDLE_VERSION;
  bf_id : keyring_id b.(bundle_keyring) = Ok b.(bundle_wire).(bw_keyring_id);
  bf_keyring : keyring_encode b.(bundle_keyring) = Ok b.(bundle_wire).(bw_signed_keyring);
  bf_policy : policy_encode b.(bundle_policy) = Ok b.(bundle_wire).(bw_signed_policy);
  bf_authority : ∃ a, authorize_policy_signer b.(bundle_keyring) b.(bundle_wire).(bw_signer_key_id)
                        b.(bundle_wire).(bw_purpose) = Ok a ∧ policy_verify b.(bundle_policy) a = Ok tt;
  bf_purpose : purpose_for_disposition b.(bundle_policy).(policy_content).(rp_disposition)
               = b.(bundle_wire).(bw_purpose)
}.

Lemma bundle_validate_ok b : bundle_validate_internal b = Ok tt ↔ bundle_wf b.
Proof.
  unfold bundle_validate_internal, bundle_policy_authority. cbn zeta. split.
  - intros [Hv%fail_if_ok%negb_false_iff%bool_decide_eq_true H]%rbind_unit_ok.
    apply rbind_ok in H as (d & Hd & [->%fail_if_ok H]%rbind_unit_ok).
    apply rbind_ok in Hd as (id & Hid%map_err_ok & Hd). destruct (bool_decide (id = _)) eqn:H1; cbn [negb] in Hd; [|done].
    apply rbind_ok in Hd as (ke & Hke%map_err_ok & Hd). destruct (bool_decide (ke = _)) eqn:H2; cbn [negb] in Hd; [|done].
    apply rbind_ok in Hd as (pe & Hpe%map_err_ok & H3%Ok_inj%negb_false_iff%bool_decide_eq_true).
    apply rbind_ok in H as (a & Ha%map_err_ok & [Hp%map_err_ok Hpp%fail_if_ok%negb_false_iff%bool_decide_eq_true]%rbind_unit_ok).
    apply bool_decide_eq_true in H1, H2. subst. split; try done. by exists a.
  - intros [Hv Hid Hke Hpe (a & Ha & Hp) Hpp]. rewrite Hv, Hid, Hke, Hpe, Ha, Hpp, !bool_decide_true by done.
    cbn [map_err negb fail_if rbind]. rewrite Hp, (bool_decide_true (_ = bw_keyring_id _)), (bool_decide_true (_ = bw_signed_keyring _)), (bool_decide_true (_ = bw_signed_policy _)) by done. done.
Qed.

Lemma bundle_encode_ok b bs :
  bundle_encode b = Ok bs ↔ bundle_wf b ∧ to_allocvec b.(bundle_wire) = Some bs ∧
  (0 < len bs <= MAX_TRUSTED_RELEASE_POLICY_BUNDLE_BYTES)%N.
Proof.
  unfold bundle_encode. split.
  - intros [Hv%bundle_validate_ok H]%rbind_unit_ok. apply rbind_ok in H as (x & Hx%ok_or_ok & H).
    apply rbind_unit_ok in H as [Hl%length_check_ok H%Ok_inj]. by subst.
  - intros (Hv & Hb & Hl). apply rbind_unit_ok. split; [by apply bundle_validate_ok|]. apply rbind_ok. exists bs.
    split; [by apply ok_or_ok|]. apply rbind_unit_ok. split; [by apply length_check_ok|done].
Qed.

(** The size limits of the parts keep a bundle within its own. *)
Lemma bundle_encode_total b : bundle_wf b → ∃ bs, bundle_encode b = Ok bs.
Proof.
  intros Hw. destruct (postcard_total b.(bundle_wire)) as [bs Hbs]. exists bs. apply bundle_encode_ok.
  split; [done|]. split; [done|]. pose proof (bundle_size _ _ Hbs) as Hz.
  pose proof (proj1 (keyring_encode_ok _ _) (bf_keyring _ Hw)) as (_ & _ & Hk).
  pose proof (proj1 (policy_encode_ok _ _) (bf_policy _ Hw)) as (_ & _ & Hp).
  unfold MAX_SIGNED_RELEASE_KEYRING_BYTES, MAX_SIGNED_RELEASE_POLICY_BYTES, MAX_TRUSTED_RELEASE_POLICY_BUNDLE_BYTES in *.
  assert (4096 < U64_BOUND)%N by done. lia.
Qed.

Lemma bundle_encode_inj b b' bs : bundle_encode b = Ok bs → bundle_encode b' = Ok bs → b = b'.
Proof.
  rewrite !bundle_encode_ok. intros (Hw & H1 & _) (Hw' & H2 & _). apply postcard_roundtrip in H1, H2.
  rewrite H1 in H2. apply (inj Some) in H2. destruct b as [w k p], b' as [w' k' p']. cbn [bundle_wire] in H2. subst w'. f_equal.
  - eapply keyring_encode_inj; [apply (bf_keyring _ Hw)|apply (bf_keyring _ Hw')].
  - eapply policy_encode_inj; [apply (bf_policy _ Hw)|apply (bf_policy _ Hw')].
Qed.

(** A well-formed bundle whose keyring the root signed. *)
Definition trusted root b : Prop := bundle_wf b ∧ keyring_verify b.(bundle_keyring) root = Ok tt.

Lemma bundle_decode_ok bs root b :
  bundle_decode_and_verify bs root = Ok b ↔ bundle_encode b = Ok bs ∧ keyring_verify b.(bundle_keyring) root = Ok tt.
Proof.
  unfold bundle_decode_and_verify. split.
  - intros [_ H]%rbind_unit_ok. apply rbind_ok in H as (w & Hw%ok_or_ok & [_ H]%rbind_unit_ok).
    apply rbind_ok in H as (k & [_ Hk]%map_err_ok%keyring_decode_ok & H).
    apply rbind_ok in H as (id & _ & [_ H]%rbind_unit_ok). apply rbind_ok in H as (a & _ & H).
    apply rbind_ok in H as (p & _ & [_ [_ H]%rbind_unit_ok]%rbind_unit_ok).
    apply rbind_ok in H as (again & Ha & [Hb%fail_if_ok%negb_false_iff%bool_decide_eq_true <-%Ok_inj]%rbind_unit_ok).
    by subst.
  - intros [He Hk]. pose proof (proj1 (bundle_encode_ok _ _) He) as (Hw & Hb & Hl).
    apply rbind_unit_ok. split; [by apply length_check_ok|]. apply rbind_ok. exists b.(bundle_wire).
    split; [by apply ok_or_ok, postcard_roundtrip|]. destruct Hw as [Hv Hid Hke Hpe (a & Ha & Hp) Hpp].
    apply rbind_unit_ok. split; [by rewrite bool_decide_true|].
    apply rbind_ok. exists b.(bundle_keyring). split; [by apply map_err_ok, keyring_decode_ok|].
    apply rbind_ok. eexists. split; [by apply map_err_ok|]. apply rbind_unit_ok. split; [by rewrite bool_decide_true|].
    apply rbind_ok. exists a. split; [by apply map_err_ok|]. apply rbind_ok. exists b.(bundle_policy).
    split; [by apply map_err_ok, policy_decode_ok|]. apply rbind_unit_ok. split; [by rewrite bool_decide_true|].
    apply rbind_unit_ok. split; [apply bundle_validate_ok; split; try done; by exists a|].
    apply rbind_ok. exists bs. split; [done|]. apply rbind_unit_ok. split; [by rewrite bool_decide_true|done].
Qed.

Lemma bundle_verify_ok b root : bundle_verify b root = Ok tt ↔ trusted root b.
Proof.
  unfold bundle_verify, trusted. split.
  - intros H. apply rbind_ok in H as (bs & He & H). apply rbind_ok in H as (b' & [Hb Hk]%bundle_decode_ok & H).
    apply fail_if_ok, negb_false_iff, bool_decide_eq_true in H. subst b'. split; [|done].
    by apply bundle_encode_ok in He as (? & _).
  - intros [Hw Hk]. destruct (bundle_encode_total _ Hw) as [bs Hbs]. apply rbind_ok. exists bs. split; [done|].
    apply rbind_ok. exists b. split; [by apply bundle_decode_ok|]. by rewrite bool_decide_true.
Qed.

Lemma bundle_id_total b : bundle_wf b → ∃ id, bundle_id b = Ok id.
Proof. intros [bs Hbs]%bundle_encode_total. unfold bundle_id. rewrite Hbs. by eexists. Qed.

Lemma bundle_successor_ok b prev :
  bundle_wf b → bundle_wf prev →
  bundle_verify_successor_of b prev = Ok tt ↔
  verify_successor_of b.(bundle_policy) prev.(bundle_policy) = Ok tt ∧
  (keyring_id b.(bundle_keyring) = keyring_id prev.(bundle_keyring) ∨
   keyring_id b.(bundle_keyring) ≠ keyring_id prev.(bundle_keyring) ∧
   keyring_verify_successor_of b.(bundle_keyring) prev.(bundle_keyring) = Ok tt).
Proof.
  intros Hw Hw'. unfold bundle_verify_successor_of. rewrite (bf_id _ Hw), (bf_id _ Hw'). cbn [map_err rbind].
  rewrite rbind_unit_ok, map_err_ok. case_bool_decide as Hi; cbn [negb].
  - rewrite Hi. naive_solver.
  - rewrite map_err_ok. split; [intros [? ?]; split; [done|right]; split; [congruence|done]|].
    intros [? [?|[_ ?]]]; [congruence|done].
Qed.

(** * Theorems on bundles *)

Lemma bundle_assemble_ok keyring signer purpose policy b :
  bundle_assemble keyring signer purpose policy = Ok b →
  bundle_wf b ∧ b.(bundle_keyring) = keyring ∧ b.(bundle_policy) = policy ∧
  b.(bundle_wire).(bw_signer_key_id) = signer ∧ b.(bundle_wire).(bw_purpose) = purpose.
Proof.
  unfold bundle_assemble. intros [_ H]%rbind_unit_ok. apply rbind_ok in H as (id & _ & H).
  apply rbind_ok in H as (ke & _ & H). apply rbind_ok in H as (pe & _ & [Hv%bundle_validate_ok <-%Ok_inj]%rbind_unit_ok).
  done.
Qed.

Lemma bundle_issue_successor_ok root keyring key prev artifact phase disposition cohort b :
  bundle_issue_successor root keyring key prev artifact phase disposition cohort = Ok b →
  trusted root b ∧ trusted root prev ∧ bundle_verify_successor_of b prev = Ok tt ∧
  b.(bundle_policy).(policy_content).(rp_phase) = phase ∧
  b.(bundle_policy).(policy_content).(rp_disposition) = disposition.
Proof.
  unfold bundle_issue_successor, bundle_verify_successor_of, issue_successor_with_previous_authority.
  intros [Hk%map_err_ok [Hp%bundle_verify_ok H]%rbind_unit_ok]%rbind_unit_ok.
  apply rbind_ok in H as (id & Hid & H). apply rbind_ok in H as (id' & Hid' & [Hs H]%rbind_unit_ok).
  apply rbind_ok in H as (signer & _ & H). apply rbind_ok in H as (a & _ & H). apply rbind_ok in H as (pa & _ & H).
  apply rbind_ok in H as (p & (_ & Ht & Hph & Hd & _)%map_err_ok%policy_issue_ok & [_ H]%rbind_unit_ok).
  apply bundle_assemble_ok in H as (Hw & Ek & Ep & _). rewrite Ek, Ep, Hid, Hid'. cbn [rbind].
  split; [split; [done|by rewrite Ek]|]. split; [done|]. split_and!; [|done..].
  apply rbind_unit_ok. split; [|done]. by apply map_err_ok.
Qed.

(** Strict decoding accepts exactly the canonical encodings of bundles
    whose keyring the root signed, a bundle has one encoding, and every bundle
    that is issued encodes within the limit, reads back under the root, and, if
    it was issued after another, is accepted after it. *)
Theorem bundle_codec_exact root bs b :
  (bundle_decode_and_verify bs root = Ok b ↔ bundle_encode b = Ok bs ∧ bundle_verify b root = Ok tt) ∧
  (∀ b', bundle_encode b = Ok bs → bundle_encode b' = Ok bs → b = b') ∧
  (∀ keyring key artifact,
     bundle_issue_genesis_hold root keyring key artifact = Ok b →
     ∃ sent, bundle_encode b = Ok sent ∧ bundle_decode_and_verify sent root = Ok b) ∧
  (∀ keyring key prev artifact phase disposition cohort,
     bundle_issue_successor root keyring key prev artifact phase disposition cohort = Ok b →
     bundle_verify_successor_of b prev = Ok tt ∧
     ∃ sent, bundle_encode b = Ok sent ∧ bundle_decode_and_verify sent root = Ok b).
Proof.
  assert (Hsent : trusted root b → ∃ sent, bundle_encode b = Ok sent ∧ bundle_decode_and_verify sent root = Ok b).
  { intros [Hw Hk]. destruct (bundle_encode_total _ Hw) as [sent Hs]. exists sent. split; [done|]. by apply bundle_decode_ok. }
  split_and!.
  - rewrite bundle_decode_ok, bundle_verify_ok. unfold trusted. split; [|tauto]. intros [He Hk]. split_and!; [done| |done].
    by apply bundle_encode_ok in He as [? _].
  - intros b'. apply bundle_encode_inj.
  - intros keyring key artifact. unfold bundle_issue_genesis_hold. intros [Hk%map_err_ok H]%rbind_unit_ok.
    apply rbind_ok in H as (signer & _ & H). apply rbind_ok in H as (a & _ & H). apply rbind_ok in H as (p & _ & [_ H]%rbind_unit_ok).
    apply bundle_assemble_ok in H as (Hw & Ek & _). apply Hsent. split; [done|]. by rewrite Ek.
  - intros keyring key prev artifact phase disposition cohort (Ht & _ & Hs & _)%bundle_issue_successor_ok. auto.
Qed.

(** C35: A decoded bundle is a policy signed by a key that its keyring, signed
    by the root, lists as active and permits to sign policies of that kind:
    a containment-only key never carries a normal policy, and a revoked key
    carries none. *)
Theorem bundle_sound root bs b :
  bundle_decode_and_verify bs root = Ok b →
  keyring_verify b.(bundle_keyring) root = Ok tt ∧
  ∃ c, c ∈ b.(bundle_keyring).(keyring_content).(kr_keys) ∧
    c.(kc_key_id) = b.(bundle_wire).(bw_signer_key_id) ∧ c.(kc_revoked) = None ∧
    policy_verify b.(bundle_policy) c.(kc_public_key) = Ok tt ∧
    match b.(bundle_policy).(policy_content).(rp_disposition) with
    | NormalPolicy => c.(kc_permissions).(normal_policy) = true
    | Containment => c.(kc_permissions).(containment_policy) = true
    end.
Proof.
  intros [(Hw & _)%bundle_encode_ok Hk]%bundle_decode_ok. split; [done|].
  pose proof (keyring_verify_wf _ _ Hk) as Hkw. destruct (bf_authority _ Hw) as (a & Ha & Hp).
  apply authorize_ok in Ha as (c & Hc & Hi & <- & Hact & Hperm); [|done]. exists c.
  apply wf_active in Hact; [|done..]. split_and!; [done..|].
  rewrite <-(bf_purpose _ Hw) in Hperm. by destruct (rp_disposition _).
Qed.

End bundles.

(** * The store *)

Section store.
Context {E : Ed25519} {SH : Sha256} {RP : RolloutPostcard} {TP : TrustPostcard} {BP : BundlePostcard} {R : Redb}.
Context {RPL : RolloutPostcardLaws RP} {TPL : TrustPostcardLaws TP} {BPL : BundlePostcardLaws BP} {RL : RedbLaws R}.
Implicit Types (b prev : TrustedReleasePolicyBundle) (root : ReleaseTrustRoot) (bs : bytes).
Implicit Types (chain : list TrustedReleasePolicyBundle) (st : TrustedPolicyStore).

(** ** The abstract store: the list of accepted bundles, oldest first *)

Definition same_id b prev : bool :=
  match bundle_id b, bundle_id prev with Ok id, Ok id' => bool_decide (id = id') | _, _ => false end.

Definition spec_append chain b : result TrustedPolicyStoreError (TrustedPolicyImportOutcome * list TrustedReleasePolicyBundle) :=
  fail_if (MAX_DURABLE_TRUSTED_POLICY_BUNDLES <=? len chain)%N BundleCapacity ;?
  fail_if (existsb (same_id b) chain) BundleIdCollision ;?
  let? o := tp_outcome true b in
  Ok (o, chain ++ [b]).

Definition spec_import chain b : result TrustedPolicyStoreError (TrustedPolicyImportOutcome * list TrustedReleasePolicyBundle) :=
  match last chain with
  | Some current =>
      if same_id b current then
        fail_if (negb (bool_decide (b = current))) BundleIdCollision ;?
        let? o := tp_outcome false b in
        Ok (o, chain)
      else
        map_err StoreTrustedPolicy (bundle_verify_successor_of b current) ;?
        spec_append chain b
  | None =>
      fail_if (negb (uint_val (epoch_of b) =? 1)%N || not_genesis b) InvalidGenesisBundle ;?
      spec_append chain b
  end.

(** A chain that was accepted. *)
Definition accepted root chain : Prop :=
  Forall (trusted root) chain ∧ verify_chain_from 0 None chain = Ok tt.

(** The row of a bundle, and the identifier the head names. *)
Definition row_of b : bytes * bytes :=
  match bundle_id b, bundle_encode b with Ok id, Ok bs => (arr_bytes id, bs) | _, _ => ([], []) end.
Definition head_of chain : option TrustedPolicyBundleId :=
  match last chain with
  | Some b => match bundle_id b with Ok id => Some id | Err _ => None end
  | None => None
  end.

Record tp_refines root st chain : Prop := {
  tpr_root : st.(tp_trust_root) = root;
  tpr_schema : table_get TP_SCHEMA_KEY st.(tp_database).(TP_META) = Some [TP_SCHEMA_VERSION];
  tpr_pin : table_get TP_TRUST_ROOT_KEY st.(tp_database).(TP_META) = Some (arr_bytes root);
  tpr_head : table_get TP_HEAD_KEY st.(tp_database).(TP_META) = option_map (fun id : arr 32 => arr_bytes id) (head_of chain);
  tpr_rows : table_iter st.(tp_database).(TP_BUNDLES) ≡ₚ map row_of chain;
  tpr_chain : accepted root chain;
  tpr_bound : (len chain <= MAX_DURABLE_TRUSTED_POLICY_BUNDLES)%N
}.

(** ** Chains *)

Lemma verify_chain_app i previous chain chain' :
  verify_chain_from i previous (chain ++ chain') = Ok tt ↔
  verify_chain_from i previous chain = Ok tt ∧
  verify_chain_from (i + len chain) (match last chain with Some b => Some b | None => previous end) chain' = Ok tt.
Proof.
  revert i previous. induction chain as [|b chain IH]; intros i previous.
  { cbn [app last verify_chain_from]. change (len []) with 0%N. rewrite N.add_0_r. naive_solver. }
  cbn [app verify_chain_from]. setoid_rewrite rbind_ok. setoid_rewrite rbind_unit_ok. setoid_rewrite rbind_unit_ok.
  setoid_rewrite IH. rewrite len_cons, N.add_assoc.
  replace (match last (b :: chain) with Some b0 => Some b0 | None => previous end)
    with (match last chain with Some b0 => Some b0 | None => Some b end).
  2:{ destruct chain as [|b' chain]; [done|]. rewrite last_cons_cons. by destruct (last (b' :: chain)) eqn:El; [|by apply last_None in El]. }
  naive_solver.
Qed.

(** What the next bundle of a chain must be. *)
Definition continues chain b : Prop :=
  uint_val (epoch_of b) = (len chain + 1)%N ∧
  match last chain with
  | Some prev => bundle_verify_successor_of b prev = Ok tt
  | None => not_genesis b = false
  end.

Lemma accepted_snoc root chain b :
  (len chain + 1 < U64_BOUND)%N →
  accepted root (chain ++ [b]) ↔ accepted root chain ∧ trusted root b ∧ continues chain b.
Proof.
  intros Hl. unfold accepted, continues. rewrite Forall_app, Forall_singleton, verify_chain_app.
  cbn [verify_chain_from]. change (0 + len chain)%N with (len chain).
  assert (u64_checked_add (as_u64 (len chain)) (as_u64 1) = Some (as_u64 (len chain + 1))) as Ha.
  { apply u64_checked_add_Some. by rewrite !as_u64_small by (done || lia). }
  rewrite Ha. cbn [ok_or rbind]. rewrite !rbind_unit_ok, fail_if_ok, negb_false_iff, u64_eqb_eq.
  assert (epoch_of b = as_u64 (len chain + 1) ↔ uint_val (epoch_of b) = (len chain + 1)%N) as ->.
  { split; [intros ->; by rewrite as_u64_small|]. intros He. apply uint_eq. by rewrite He, as_u64_small. }
  destruct (last chain) as [prev|]; [rewrite map_err_ok|rewrite fail_if_ok]; tauto.
Qed.

Lemma accepted_app_l root chain chain' : accepted root (chain ++ chain') → accepted root chain.
Proof. unfold accepted. rewrite Forall_app, verify_chain_app. tauto. Qed.

Lemma accepted_epoch root chain i b :
  accepted root chain → (len chain + 1 < U64_BOUND)%N → chain !! i = Some b →
  uint_val (epoch_of b) = (N.of_nat i + 1)%N.
Proof.
  revert i. induction chain as [|x chain IH] using rev_ind; intros i Ha Hl Hi; [done|].
  rewrite len_app in Hl. change (len [x]) with 1%N in Hl.
  apply accepted_snoc in Ha as (Ha & _ & He & _); [|lia].
  destruct (decide (i < length chain)) as [Hlt|Hge].
  - rewrite lookup_app_l in Hi by done. apply IH; [done|lia|done].
  - pose proof (lookup_lt_Some _ _ _ Hi) as Hb. rewrite length_app in Hb. cbn in Hb.
    assert (i = length chain) as -> by lia. rewrite list_lookup_middle in Hi by done. by injection Hi as <-.
Qed.

Lemma accepted_sorted root chain :
  accepted root chain → (len chain + 1 < U64_BOUND)%N → StronglySorted ord_lt (map (fun b => epoch_of b) chain).
Proof.
  induction chain as [|x chain IH] using rev_ind; intros Ha Hl; [constructor|].
  pose proof (accepted_app_l _ _ _ Ha) as Ha'. pose proof Hl as Hl'. rewrite len_app in Hl'. change (len [x]) with 1%N in Hl'.
  rewrite map_app. apply StronglySorted_app_2; [|apply IH; [done|lia]|by repeat constructor].
  intros e e' (b & -> & [i Hi]%list_elem_of_lookup_1)%list_elem_of_fmap ->%list_elem_of_singleton.
  apply N.compare_lt_iff. rewrite (accepted_epoch _ _ i b Ha' ltac:(lia) Hi).
  rewrite (accepted_epoch _ _ (length chain) x Ha Hl) by by apply list_lookup_middle.
  apply lookup_lt_Some in Hi. lia.
Qed.

(** ** Reading *)

Lemma row_of_trusted root b :
  trusted root b → ∃ id bs, bundle_id b = Ok id ∧ bundle_encode b = Ok bs ∧ row_of b = (arr_bytes id, bs).
Proof.
  intros [Hw _]. destruct (bundle_id_total _ Hw) as [id Hid]. destruct (bundle_encode_total _ Hw) as [bs Hbs].
  exists id, bs. unfold row_of. by rewrite Hid, Hbs.
Qed.

Lemma read_rows root chain :
  Forall (trusted root) chain → try_map (read_bundle_row root) (map row_of chain) = Ok chain.
Proof.
  induction 1 as [|b chain Hb _ IH]; [done|]. cbn [map try_map].
  destruct (row_of_trusted _ _ Hb) as (id & bs & Hid & Hbs & ->). unfold read_bundle_row at 1.
  rewrite (proj2 (bundle_decode_ok _ _ _) (conj Hbs (proj2 Hb))). cbn [map_err rbind]. rewrite Hid. cbn [map_err rbind].
  rewrite bool_decide_true by done. cbn [negb fail_if rbind]. by rewrite IH.
Qed.

Lemma head_of_trusted root chain b :
  Forall (trusted root) chain → last chain = Some b → ∃ id, bundle_id b = Ok id ∧ head_of chain = Some id.
Proof.
  intros Hf Hl. unfold head_of. rewrite Hl. rewrite Forall_forall in Hf.
  destruct (bundle_id_total b) as [id Hid]; [by apply Hf, last_Some_elem_of|]. rewrite Hid. by exists id.
Qed.

Lemma tp_head_read root st chain :
  tp_refines root st chain → tp_read_head_id st.(tp_database).(TP_META) = Ok (head_of chain).
Proof.
  intros HR. unfold tp_read_head_id. rewrite (tpr_head _ _ _ HR). destruct (head_of chain); [|done].
  cbn [option_map]. by rewrite arr_try_from_bytes.
Qed.

Lemma tp_len_read root st chain :
  tp_refines root st chain → uint_val (table_len st.(tp_database).(TP_BUNDLES)) = len chain.
Proof.
  intros HR. pose proof (tpr_bound _ _ _ HR) as Hb.
  assert (len (table_iter st.(tp_database).(TP_BUNDLES)) = len chain) as Hl.
  { rewrite (len_perm _ _ (tpr_rows _ _ _ HR)). unfold len. by rewrite length_map. }
  rewrite table_len_iter; [done|]. rewrite Hl. unfold MAX_DURABLE_TRUSTED_POLICY_BUNDLES in Hb.
  assert (32 < U64_BOUND)%N by done. lia.
Qed.

Lemma bound_small n : (n <= MAX_DURABLE_TRUSTED_POLICY_BUNDLES)%N → (n + 1 < U64_BOUND)%N.
Proof. unfold MAX_DURABLE_TRUSTED_POLICY_BUNDLES. assert (40 < U64_BOUND)%N by done. lia. Qed.

(** The store reads back exactly the chain it accepted. *)
Lemma chain_read root st chain :
  tp_refines root st chain → bundle_chain_from_read st.(tp_database) root = Ok chain.
Proof.
  intros HR. pose proof (tpr_bound _ _ _ HR) as Hb. destruct (tpr_chain _ _ _ HR) as [Hf Hv].
  unfold bundle_chain_from_read, tp_verify_meta. rewrite (tpr_schema _ _ _ HR), (tpr_pin _ _ _ HR). cbn [ok_or rbind].
  rewrite !bool_decide_true by done. cbn [negb fail_if rbind].
  rewrite (tp_head_read _ _ _ HR), (tp_len_read _ _ _ HR). cbn [rbind].
  rewrite (proj2 (N.ltb_ge _ _) Hb). cbn [fail_if rbind].
  destruct (N.eqb_spec (len chain) 0) as [Hz|Hz].
  { destruct chain; [done|]. rewrite len_cons in Hz. lia. }
  destruct (last chain) as [b|] eqn:El; [|apply last_None in El as ->; done].
  destruct (head_of_trusted _ _ _ Hf El) as (id & Hid & ->). cbn [ok_or rbind].
  destruct (Permutation_map_inv _ _ (tpr_rows _ _ _ HR)) as (chain' & -> & Hp).
  rewrite read_rows by by rewrite <-Hp. cbn [rbind].
  rewrite (sort_by_key_unique _ _ chain); [|apply (accepted_sorted root); [done|by apply bound_small]|by symmetry].
  rewrite Hv, El. cbn [rbind ok_or]. rewrite Hid. cbn [map_err rbind]. by rewrite bool_decide_true by done.
Qed.

Lemma current_read root st chain :
  tp_refines root st chain → tp_current_bundle st = Ok (last chain).
Proof.
  intros HR. unfold tp_current_bundle, current_bundle_from_read. rewrite (tpr_root _ _ _ HR).
  by rewrite (chain_read _ _ _ HR).
Qed.

(** ** Importing *)

Lemma same_id_true b prev id : bundle_id b = Ok id → same_id b prev = true ↔ bundle_id prev = Ok id.
Proof.
  intros Hb. unfold same_id. rewrite Hb. destruct (bundle_id prev) as [id'|]; [|done].
  rewrite bool_decide_eq_true. naive_solver.
Qed.

Definition plan_for chain b bs id : import_plan := {|
  plan_bytes := bs; plan_bundle := b; plan_id := id; plan_expected_head := head_of chain
|}.

(** The part before the transaction: an outcome, or a plan for a bundle that
    continues the chain. *)
Lemma prepare_spec root st chain file bs b id :
  tp_refines root st chain → read_bounded_real_file file = Ok bs → bundle_decode_and_verify bs root = Ok b →
  bundle_id b = Ok id →
  import_prepare st file ImportRequested =
  match last chain with
  | Some current =>
      if same_id b current then
        fail_if (negb (bool_decide (b = current))) BundleIdCollision ;?
        let? o := tp_outcome false b in
        Ok (inl o)
      else
        map_err StoreTrustedPolicy (bundle_verify_successor_of b current) ;?
        Ok (inr (plan_for chain b bs id))
  | None =>
      fail_if (negb (uint_val (epoch_of b) =? 1)%N || not_genesis b) InvalidGenesisBundle ;?
      Ok (inr (plan_for chain b bs id))
  end.
Proof.
  intros HR Hf Hd Hid. unfold import_prepare. rewrite Hf, (tpr_root _ _ _ HR). cbn [rbind]. rewrite Hd. cbn [rbind map_err].
  rewrite Hid. cbn [rbind map_err]. rewrite (current_read _ _ _ HR). cbn [rbind].
  destruct (last chain) as [cur|] eqn:El.
  2:{ destruct (fail_if _ _); [|done]. cbn [rbind]. unfold plan_for, head_of. by rewrite El. }
  destruct (tpr_chain _ _ _ HR) as [Hall _]. destruct (head_of_trusted _ _ _ Hall El) as (cid & Hcid & Hh).
  rewrite Hcid. cbn [rbind map_err].
  assert (same_id b cur = bool_decide (cid = id)) as ->.
  { unfold same_id. rewrite Hid, Hcid. apply bool_decide_ext. naive_solver. }
  case_bool_decide as He.
  - rewrite Forall_forall in Hall. destruct (Hall cur) as [Hcw _]; [by apply last_Some_elem_of|].
    destruct (bundle_encode_total _ Hcw) as [cbs Hcbs]. rewrite Hcbs. cbn [rbind map_err].
    assert (bool_decide (b = cur) = bool_decide (cbs = bs)) as ->.
    { apply bool_decide_ext. apply bundle_decode_ok in Hd as [Hbs _]. split; [intros ->; congruence|].
      intros ->. by eapply bundle_encode_inj. }
    destruct (fail_if _ _); [|done]. cbn [rbind]. by destruct (tp_outcome false b).
  - destruct (bundle_verify_successor_of b cur) as [[]|e]; [|done]. cbn [rbind map_err]. unfold plan_for. by rewrite Hh.
Qed.

Lemma elem_of_rows root st chain k bs :
  tp_refines root st chain →
  table_get k st.(tp_database).(TP_BUNDLES) = Some bs ↔
  ∃ b id, b ∈ chain ∧ bundle_id b = Ok id ∧ bundle_encode b = Ok bs ∧ k = arr_bytes id.
Proof.
  intros HR. rewrite table_get_iter, (tpr_rows _ _ _ HR), list_elem_of_fmap.
  pose proof (proj1 (Forall_forall _ _) (proj1 (tpr_chain _ _ _ HR))) as Hf. split.
  - intros (b & Hr & Hb). destruct (row_of_trusted _ _ (Hf _ Hb)) as (id & bs' & Hid & Hbs & Hrow).
    rewrite Hrow in Hr. injection Hr as -> ->. by exists b, id.
  - intros (b & id & Hb & Hid & Hbs & ->). exists b. split; [|done]. unfold row_of. by rewrite Hid, Hbs.
Qed.

Lemma continues_not_in root chain b :
  accepted root chain → (len chain + 1 < U64_BOUND)%N → continues chain b → b ∉ chain.
Proof.
  intros Ha Hl [He _] [i Hi]%list_elem_of_lookup_1. pose proof (lookup_lt_Some _ _ _ Hi).
  rewrite (accepted_epoch _ _ _ _ Ha Hl Hi) in He. unfold len in He. lia.
Qed.

(** The transaction appends the planned bundle. *)
Lemma commit_spec root st chain b bs id :
  tp_refines root st chain → bundle_decode_and_verify bs root = Ok b → bundle_id b = Ok id → continues chain b →
  match spec_append chain b with
  | Err e => import_commit st (plan_for chain b bs id) = Err e
  | Ok (o, chain') => ∃ st', import_commit st (plan_for chain b bs id) = Ok (o, st') ∧ tp_refines root st' chain'
  end.
Proof.
  intros HR [Hbs Hk]%bundle_decode_ok Hid Hc. pose proof (tpr_bound _ _ _ HR) as Hb.
  pose proof (tpr_chain _ _ _ HR) as Ha. unfold spec_append, import_commit, plan_for. cbn [plan_bytes plan_bundle plan_id plan_expected_head].
  rewrite (tp_head_read _ _ _ HR), (tp_len_read _ _ _ HR). cbn [rbind]. rewrite bool_decide_true by done. cbn [negb fail_if rbind].
  destruct (N.leb_spec MAX_DURABLE_TRUSTED_POLICY_BUNDLES (len chain)) as [|Hlt]; [done|]. cbn [fail_if rbind].
  assert (trusted root b) as Ht by (split; [by apply bundle_encode_ok in Hbs as [? _]|done]).
  destruct (existsb (same_id b) chain) eqn:Ex.
  { apply existsb_exists in Ex as (b' & Hin%list_elem_of_In & Hs). apply (same_id_true _ _ _ Hid) in Hs as Hid'.
    destruct (bundle_encode_total b') as [bs' Hbs']; [by apply (proj1 (Forall_forall _ _) (proj1 Ha) b')|].
    rewrite (proj2 (elem_of_rows _ _ _ (arr_bytes id) bs' HR)) by (by exists b', id).
    rewrite bool_decide_false; [done|]. intros ->. destruct (continues_not_in _ _ _ Ha (bound_small _ Hb) Hc).
    by rewrite (bundle_encode_inj _ _ _ Hbs Hbs'). }
  assert (table_get (arr_bytes id) st.(tp_database).(TP_BUNDLES) = None) as Hn.
  { destruct (table_get _ _) as [bs'|] eqn:Eg; [|done]. apply (elem_of_rows _ _ _ _ _ HR) in Eg as (b' & id' & Hin & Hid' & _ & Heq%arr_eq).
    subst id'. rewrite <-not_true_iff_false, existsb_exists in Ex. destruct Ex. exists b'.
    rewrite <-list_elem_of_In. split; [done|]. by apply (same_id_true _ _ _ Hid). }
  rewrite Hn. unfold tp_outcome. rewrite Hid. cbn [fail_if rbind map_err]. eexists. split; [done|].
  destruct HR as [H1 H2 H3 H4 H5 _ _]. split; cbn [tp_database tp_trust_root TP_META TP_BUNDLES]; [done|..].
  - by rewrite table_get_insert_ne.
  - by rewrite table_get_insert_ne.
  - rewrite table_get_insert_eq. unfold head_of. by rewrite last_snoc, Hid.
  - assert (row_of b = (arr_bytes id, bs)) as Hr by (unfold row_of; by rewrite Hid, Hbs).
    rewrite table_iter_insert by done. rewrite map_app. cbn [map]. by rewrite Hr, H5, Permutation_app_comm.
  - apply accepted_snoc; [by apply bound_small|done].
  - rewrite len_app. change (len [b]) with 1%N. lia.
Qed.

(** The bundle that passes the check against the current one continues the chain. *)
Lemma continues_next root chain b current :
  accepted root chain → (len chain + 1 < U64_BOUND)%N → trusted root b → last chain = Some current →
  bundle_verify_successor_of b current = Ok tt → continues chain b.
Proof.
  intros Ha Hl [Hw _] El Hs. split; [|by rewrite El]. destruct (last_Some chain current) as [[l Hc] _]; [done|].
  assert (trusted root current) as [Hcw _].
  { apply (proj1 (Forall_forall _ _) (proj1 Ha)). by apply last_Some_elem_of. }
  apply bundle_successor_ok in Hs as [(_ & He & _)%transition_some _]; [|done..]. rewrite He.
  rewrite (accepted_epoch _ _ (length l) current Ha Hl) by (rewrite Hc; by apply list_lookup_middle).
  rewrite Hc, len_app. change (len [current]) with 1%N. unfold len. lia.
Qed.

Lemma chain_starts chain b :
  last chain = None → fail_if (negb (uint_val (epoch_of b) =? 1)%N || not_genesis b) InvalidGenesisBundle = Ok tt →
  continues chain b.
Proof.
  intros El [He%negb_false_iff%N.eqb_eq Hg]%fail_if_ok%orb_false_iff. apply last_None in El as ->. done.
Qed.

Lemma import_spec root st chain file :
  tp_refines root st chain →
  match (let? bs := read_bounded_real_file file in
         let? b := map_err StoreTrustedPolicy (bundle_decode_and_verify bs root) in
         spec_import chain b) with
  | Err e => import_explicit_file st file ImportRequested = Err e
  | Ok (o, chain') => ∃ st', import_explicit_file st file ImportRequested = Ok (o, st') ∧ tp_refines root st' chain'
  end.
Proof.
  intros HR. unfold import_explicit_file. destruct (read_bounded_real_file file) as [bs|e] eqn:Ef; cbn [rbind].
  2:{ unfold import_prepare. by rewrite Ef. }
  destruct (bundle_decode_and_verify bs root) as [b|e] eqn:Ed; cbn [map_err rbind].
  2:{ unfold import_prepare. rewrite Ef, (tpr_root _ _ _ HR). cbn [rbind]. by rewrite Ed. }
  pose proof (proj1 (bundle_decode_ok _ _ _) Ed) as [Hbs Hk].
  assert (trusted root b) as Ht by (split; [by apply bundle_encode_ok in Hbs as [? _]|done]).
  destruct (bundle_id_total b (proj1 Ht)) as [id Hid]. rewrite (prepare_spec _ _ _ _ _ _ _ HR Ef Ed Hid).
  unfold spec_import. destruct (last chain) as [cur|] eqn:El.
  - destruct (same_id b cur) eqn:Es.
    + destruct (fail_if _ _); [|done]. cbn [rbind]. destruct (tp_outcome false b); [|done]. by exists st.
    + destruct (bundle_verify_successor_of b cur) as [[]|e] eqn:Ev; [|done]. cbn [rbind map_err].
      apply (commit_spec _ _ _ _ _ _ HR Ed Hid). eapply continues_next; eauto using tpr_chain, bound_small, tpr_bound.
  - destruct (fail_if _ _) as [[]|e] eqn:Eg; [|done]. cbn [rbind].
    apply (commit_spec _ _ _ _ _ _ HR Ed Hid). by apply chain_starts.
Qed.

(** ** Opening *)

Lemma open_new_total root : ∃ st, tp_open root tp_create = Ok st ∧ tp_refines root st [].
Proof.
  unfold tp_open, tp_initialize, tp_create. cbn [TP_META TP_BUNDLES].
  assert (∀ k, table_get k (@table_new R bytes bytes _) = None) as Hn.
  { intros k. apply table_get_None. intros v. rewrite table_new_iter. apply not_elem_of_nil. }
  rewrite Hn. cbn [rbind]. rewrite table_get_insert_ne, Hn by done. cbn [rbind].
  set (st := Build_TrustedPolicyStore _ _). assert (tp_refines root st []) as HR.
  { subst st. split; cbn [tp_database tp_trust_root TP_META TP_BUNDLES]; [done|..].
    - by rewrite table_get_insert_ne, table_get_insert_eq.
    - by rewrite table_get_insert_eq.
    - by rewrite !table_get_insert_ne, Hn.
    - by rewrite table_new_iter.
    - by split; [constructor|].
    - done. }
  exists st. by rewrite (current_read _ _ _ HR).
Qed.

Lemma open_new_chain root st : tp_open root tp_create = Ok st → tp_refines root st [].
Proof. destruct (open_new_total root) as (st' & -> & HR). by intros <-%Ok_inj. Qed.

(** Reopening changes nothing, and needs the pinned root. *)
Lemma reopen_chain root st chain root' :
  tp_refines root st chain →
  tp_open root' st.(tp_database) = (if bool_decide (root' = root) then Ok st else Err TrustRootMismatch).
Proof.
  intros HR. unfold tp_open, tp_initialize. rewrite (tpr_schema _ _ _ HR). rewrite bool_decide_true by done.
  cbn [negb fail_if rbind]. rewrite (tpr_pin _ _ _ HR). destruct (decide (root' = root)) as [->|He].
  - rewrite !bool_decide_true by done. cbn [negb fail_if rbind].
    assert ({| tp_database := {| TP_META := TP_META (tp_database st); TP_BUNDLES := TP_BUNDLES (tp_database st) |};
               tp_trust_root := root |} = st) as ->.
    { pose proof (tpr_root _ _ _ HR). destruct st as [[] ?]. by cbn in *; subst. }
    by rewrite (current_read _ _ _ HR).
  - rewrite (bool_decide_false (root' = root)) by done. rewrite bool_decide_false; [done|]. intros Heq%arr_eq. by subst.
Qed.

Inductive tp_reachable root : TrustedPolicyStore → Prop :=
| tp_reach_open st : tp_open root tp_create = Ok st → tp_reachable root st
| tp_reach_import st file authorization o st' :
    tp_reachable root st → import_explicit_file st file authorization = Ok (o, st') → tp_reachable root st'
| tp_reach_reopen st root' st' :
    tp_reachable root st → tp_open root' st.(tp_database) = Ok st' → tp_reachable root st'.

(** A step keeps or extends the chain. *)
Lemma import_extends root st chain file authorization o st' :
  tp_refines root st chain → import_explicit_file st file authorization = Ok (o, st') →
  ∃ more, tp_refines root st' (chain ++ more).
Proof.
  intros HR Hi. destruct authorization; [done|]. pose proof (import_spec _ _ _ file HR) as H.
  destruct (let? bs := _ in _) as [[o' chain']|e] eqn:Es; [|congruence].
  destruct H as (st'' & Hi' & HR'). rewrite Hi in Hi'. apply Ok_pair_inj in Hi' as [-> ->].
  apply rbind_ok in Es as (bs & _ & Es). apply rbind_ok in Es as (b & _ & Es). unfold spec_import in Es.
  assert (∀ r, spec_append chain b = Ok r → r.2 = chain ++ [b]) as Happ.
  { intros r [_ [_ H]%rbind_unit_ok]%rbind_unit_ok. by apply rbind_ok in H as (? & _ & <-%Ok_inj). }
  destruct (last chain) as [cur|]; [destruct (same_id b cur)|].
  - apply rbind_unit_ok in Es as [_ Es]. apply rbind_ok in Es as (? & _ & Es). apply Ok_pair_inj in Es as [_ <-].
    exists []. by rewrite app_nil_r.
  - apply rbind_unit_ok in Es as [_ Es%Happ]. cbn in Es. subst. by exists [b].
  - apply rbind_unit_ok in Es as [_ Es%Happ]. cbn in Es. subst. by exists [b].
Qed.

Lemma tp_reachable_refines root st : tp_reachable root st → ∃ chain, tp_refines root st chain.
Proof.
  induction 1 as [st Ho|st file a o st' _ [chain HR] Hi|st root' st' _ [chain HR] Ho].
  - exists []. by apply open_new_chain.
  - destruct (import_extends _ _ _ _ _ _ _ HR Hi) as [more HR']. by eexists.
  - rewrite (reopen_chain _ _ _ _ HR) in Ho. case_bool_decide; [|done]. apply Ok_inj in Ho as <-. by exists chain.
Qed.

(** ** Facts on accepted chains *)

Lemma accepted_next root chain i b b' :
  accepted root chain → (len chain + 1 < U64_BOUND)%N → chain !! i = Some b → chain !! S i = Some b' →
  bundle_verify_successor_of b' b = Ok tt.
Proof.
  intros Ha Hl Hi Hj. pose proof (lookup_lt_Some _ _ _ Hj) as Hlen.
  rewrite <-(take_drop (S (S i)) chain) in Ha. apply accepted_app_l in Ha.
  rewrite (take_S_r _ _ _ Hj) in Ha. apply accepted_snoc in Ha as (_ & _ & _ & Hs).
  - rewrite (take_S_r _ _ _ Hi), last_snoc in Hs. done.
  - unfold len in *. rewrite length_take. lia.
Qed.

Lemma accepted_trusted root chain b : accepted root chain → b ∈ chain → trusted root b.
Proof. intros [Hf _]. by apply Forall_forall. Qed.

Lemma keyring_extends_refl k : keyring_extends k k.
Proof. split; auto. Qed.

(** Identifiers tell the keyrings of a chain apart. *)
Definition keyrings_distinct chain : Prop :=
  ∀ b b', b ∈ chain → b' ∈ chain → keyring_id b.(bundle_keyring) = keyring_id b'.(bundle_keyring) →
  b.(bundle_keyring) = b'.(bundle_keyring).

(** Later bundles have later keyrings and later phases. *)
Lemma accepted_monotone root chain i j b b' :
  accepted root chain → (len chain + 1 < U64_BOUND)%N → keyrings_distinct chain → i <= j →
  chain !! i = Some b → chain !! j = Some b' →
  keyring_extends b'.(bundle_keyring) b.(bundle_keyring) ∧
  (phase_ordinal b.(bundle_policy).(policy_content).(rp_phase)
   <= phase_ordinal b'.(bundle_policy).(policy_content).(rp_phase)
   <= phase_ordinal b.(bundle_policy).(policy_content).(rp_phase) + N.of_nat (j - i))%N.
Proof.
  intros Ha Hl Hd Hij Hi. revert b'. induction Hij as [|j Hij IH]; intros b' Hj.
  { rewrite Hi in Hj. injection Hj as <-. split; [apply keyring_extends_refl|lia]. }
  destruct (lookup_lt_is_Some_2 chain j) as [m Hm]; [apply lookup_lt_Some in Hj; lia|].
  destruct (IH m Hm) as [Hext Hph]. pose proof (accepted_next _ _ _ _ _ Ha Hl Hm Hj) as Hs.
  pose proof (list_elem_of_lookup_2 _ _ _ Hm) as Hmin. pose proof (list_elem_of_lookup_2 _ _ _ Hj) as Hjin.
  destruct (accepted_trusted _ _ _ Ha Hmin) as [Hmw Hmk]. destruct (accepted_trusted _ _ _ Ha Hjin) as [Hjw Hjk].
  apply bundle_successor_ok in Hs as [(_ & _ & _ & Ho)%transition_some Hk]; [|done..]. split; [|lia].
  eapply keyring_extends_trans; [|exact Hext]. destruct Hk as [Hid|[_ Hk]].
  - rewrite (Hd _ _ Hjin Hmin Hid). apply keyring_extends_refl.
  - pose proof (keyring_verify_wf _ _ Hjk) as Hjf. apply keyring_successor_ok in Hk as (_ & _ & Hk); [|by apply wf_ids_NoDup].
    apply keyring_step_extends; [done|by eapply keyring_verify_wf|done].
Qed.

(** ** Theorems on the store *)

(** C31: Importing a file refines an append-only list of bundles: a file that
    is not a stable regular file with a verified bundle is refused, the bundle
    of the head is acknowledged, a bundle that continues the chain is appended
    unless thirty-two are kept or its identifier is taken, and everything else
    is refused with the error of the abstract store; without the user's request
    nothing is read. *)
Theorem import_refines root st chain file :
  tp_refines root st chain →
  import_explicit_file st file ImportNotAuthorized = Err ExplicitImportRequired ∧
  match (let? bs := read_bounded_real_file file in
         let? b := map_err StoreTrustedPolicy (bundle_decode_and_verify bs root) in
         spec_import chain b) with
  | Err e => import_explicit_file st file ImportRequested = Err e
  | Ok (o, chain') =>
      ∃ st', import_explicit_file st file ImportRequested = Ok (o, st') ∧ tp_refines root st' chain'
  end.
Proof. intros HR. split; [done|by apply import_spec]. Qed.

(** A reachable store always reads: it returns a chain of at most
    thirty-two bundles that verify under its root, whose policy epochs count
    from one and each of which is the verified successor of the one before; the
    current bundle is the last of them, the read-only inspection agrees, and
    every other root is refused. *)
Theorem trusted_store_invariant root st :
  tp_reachable root st →
  ∃ chain, tp_bundle_chain st = Ok chain ∧ tp_current_bundle st = Ok (last chain) ∧
    inspect_existing_trusted_policy_store (Some st.(tp_database)) root = Ok (Some (last chain)) ∧
    (∀ root', root' ≠ root → tp_open root' st.(tp_database) = Err TrustRootMismatch ∧
       inspect_existing_trusted_policy_store (Some st.(tp_database)) root' = Err TrustRootMismatch) ∧
    length chain <= 32 ∧
    (∀ i b, chain !! i = Some b → bundle_verify b root = Ok tt ∧ uint_val (epoch_of b) = (N.of_nat i + 1)%N) ∧
    (∀ b, head chain = Some b → not_genesis b = false) ∧
    ∀ i b b', chain !! i = Some b → chain !! S i = Some b' → bundle_verify_successor_of b' b = Ok tt.
Proof.
  intros [chain HR]%tp_reachable_refines. exists chain. pose proof (tpr_bound _ _ _ HR) as Hb. pose proof (bound_small _ Hb) as Hl.
  pose proof (tpr_chain _ _ _ HR) as Ha. split_and!.
  - unfold tp_bundle_chain. rewrite (tpr_root _ _ _ HR). by apply chain_read.
  - by apply (current_read root).
  - unfold inspect_existing_trusted_policy_store, current_bundle_from_read. by rewrite (chain_read _ _ _ HR).
  - intros root' Hne. split; [rewrite (reopen_chain _ _ _ _ HR); by rewrite bool_decide_false|].
    unfold inspect_existing_trusted_policy_store, current_bundle_from_read, bundle_chain_from_read, tp_verify_meta.
    rewrite (tpr_schema _ _ _ HR), (tpr_pin _ _ _ HR). cbn [ok_or rbind]. rewrite bool_decide_true by done. cbn [negb fail_if rbind].
    rewrite bool_decide_false; [done|]. intros He%arr_eq. by subst.
  - unfold len, MAX_DURABLE_TRUSTED_POLICY_BUNDLES in Hb. lia.
  - intros i b Hi. split; [|by eapply accepted_epoch]. apply bundle_verify_ok. eapply accepted_trusted; [done|].
    by eapply list_elem_of_lookup_2.
  - intros b Hh. destruct chain as [|x l]; [done|]. injection Hh as ->.
    apply (accepted_app_l root [b] l) in Ha. apply (accepted_snoc root [] b) in Ha; [|done]. apply Ha.
  - intros i b b'. by eapply accepted_next.
Qed.

(** C33: Once a keyring of the chain revokes a key, no later bundle is signed
    by it, and a later signer was either unknown to an earlier keyring or
    already had that authority; phases never rewind and advance at most one
    step per bundle.  Keyrings are identified by their hash: the chain's
    keyrings are assumed not to collide. *)
Theorem revoked_signer_stays_out root st chain i j b b' :
  tp_reachable root st → tp_bundle_chain st = Ok chain → keyrings_distinct chain →
  i < j → chain !! i = Some b → chain !! j = Some b' →
  let signer := b'.(bundle_wire).(bw_signer_key_id) in
  (∀ purpose, authorize_policy_signer b.(bundle_keyring) signer purpose ≠ Err RevokedSigningKey) ∧
  (∃ a, policy_verify b'.(bundle_policy) a = Ok tt ∧
     (authorize_policy_signer b.(bundle_keyring) signer b'.(bundle_wire).(bw_purpose) = Ok a ∨
      authorize_policy_signer b.(bundle_keyring) signer b'.(bundle_wire).(bw_purpose) = Err UnknownSigningKey)) ∧
  (phase_ordinal b.(bundle_policy).(policy_content).(rp_phase)
   <= phase_ordinal b'.(bundle_policy).(policy_content).(rp_phase)
   <= phase_ordinal b.(bundle_policy).(policy_content).(rp_phase) + N.of_nat (j - i))%N.
Proof.
  intros [chain' HR]%tp_reachable_refines Hc Hd Hij Hi Hj. cbn zeta.
  assert (chain' = chain) as ->.
  { unfold tp_bundle_chain in Hc. rewrite (tpr_root _ _ _ HR), (chain_read _ _ _ HR) in Hc. by apply Ok_inj in Hc. }
  pose proof (bound_small _ (tpr_bound _ _ _ HR)) as Hl. pose proof (tpr_chain _ _ _ HR) as Ha.
  destruct (accepted_monotone _ _ i j _ _ Ha Hl Hd (Nat.lt_le_incl _ _ Hij) Hi Hj) as [Hext Hph].
  destruct (accepted_trusted root chain b' Ha) as [Hw _]; [by eapply list_elem_of_lookup_2|].
  destruct (bf_authority _ Hw) as (a & Hau & Hp). split_and!; [|exists a; split; [done|by apply (ke_authorized _ _ Hext)]|apply Hph..].
  intros purpose Hr. destruct (accepted_trusted root chain b Ha) as [_ Hk]; [by eapply list_elem_of_lookup_2|].
  assert (authorize_policy_signer (bundle_keyring b) (bw_signer_key_id (bundle_wire b')) (bw_purpose (bundle_wire b')) = Err RevokedSigningKey) as Hr'.
  { apply authorize_revoked; [by eapply keyring_verify_wf|]. apply authorize_revoked in Hr; [done|by eapply keyring_verify_wf]. }
  apply (ke_revoked _ _ Hext) in Hr'. congruence.
Qed.

(** ** Two writers *)

(** A step of another writer on the same database. *)
Definition tp_step st st' : Prop :=
  (∃ file authorization o, import_explicit_file st file authorization = Ok (o, st')) ∨
  tp_open st.(tp_trust_root) st.(tp_database) = Ok st'.

Lemma tp_steps_extend root st st' chain :
  rtc tp_step st st' → tp_refines root st chain → ∃ more, tp_refines root st' (chain ++ more).
Proof.
  intros Hs. revert chain. induction Hs as [st|st st1 st' Hs _ IH]; intros chain HR; [exists []; by rewrite app_nil_r|].
  assert (∃ more, tp_refines root st1 (chain ++ more)) as [more HR1].
  { destruct Hs as [(file & a & o & Hi)|Ho]; [by eapply import_extends|]. exists [].
    rewrite (reopen_chain _ _ _ _ HR), (tpr_root _ _ _ HR), bool_decide_true in Ho by done.
    apply Ok_inj in Ho as <-. by rewrite app_nil_r. }
  destruct (IH _ HR1) as [more' HR']. exists (more ++ more'). by rewrite app_assoc.
Qed.

(** The rows have distinct keys, so a longer chain has another head. *)
Lemma head_changes root st chain more :
  tp_refines root st (chain ++ more) → more ≠ [] → head_of (chain ++ more) ≠ head_of chain.
Proof.
  intros HR Hne Heq. destruct (tpr_chain _ _ _ HR) as [Hf _]. rewrite Forall_forall in Hf.
  pose proof (table_iter_NoDup st.(tp_database).(TP_BUNDLES)) as Hn.
  rewrite (Permutation_map fst (tpr_rows _ _ _ HR)), map_app, map_app, NoDup_app in Hn. destruct Hn as (_ & Hn & _).
  destruct (last more) as [b|] eqn:El; [|by apply last_None in El]. unfold head_of in Heq. rewrite last_app, El in Heq.
  assert (Hb : b ∈ more) by by apply last_Some_elem_of.
  destruct (row_of_trusted root b) as (id & bs & Hid & _ & Hrow); [apply Hf, elem_of_app; by right|]. rewrite Hid in Heq.
  destruct (last chain) as [c|] eqn:Elc; [|done]. assert (Hc : c ∈ chain) by by apply last_Some_elem_of.
  destruct (row_of_trusted root c) as (id' & bs' & Hid' & _ & Hrow'); [apply Hf, elem_of_app; by left|]. rewrite Hid' in Heq.
  injection Heq as ->. apply (Hn (arr_bytes id')); apply list_elem_of_fmap.
  - exists (row_of c). split; [by rewrite Hrow'|]. by apply list_elem_of_fmap_2.
  - exists (row_of b). split; [by rewrite Hrow|]. by apply list_elem_of_fmap_2.
Qed.

(** C32: Two writers can not overwrite one another: a plan made on one state of
    the store and committed on a later one does what an import at that moment
    would do if nothing was installed in between, and is refused with
    [ConcurrentHeadChanged] if anything was. *)
Theorem import_interleaved root st st' file p :
  tp_reachable root st → rtc tp_step st st' → import_prepare st file ImportRequested = Ok (inr p) →
  (tp_bundle_chain st' = tp_bundle_chain st ∧
   import_commit st' p = import_explicit_file st' file ImportRequested) ∨
  (tp_bundle_chain st' ≠ tp_bundle_chain st ∧ import_commit st' p = Err ConcurrentHeadChanged).
Proof.
  intros [chain HR]%tp_reachable_refines Hs Hp. destruct (tp_steps_extend _ _ _ _ Hs HR) as [more HR'].
  unfold tp_bundle_chain. rewrite (tpr_root _ _ _ HR), (tpr_root _ _ _ HR'), (chain_read _ _ _ HR), (chain_read _ _ _ HR').
  assert (Hplan : plan_expected_head p = head_of chain ∧ (more = [] → import_prepare st' file ImportRequested = Ok (inr p))).
  { pose proof Hp as H. unfold import_prepare in H. cbn [rbind] in H. apply rbind_ok in H as (bs & Hf & H).
    rewrite (tpr_root _ _ _ HR) in H. apply rbind_ok in H as (b & Hd%map_err_ok & H).
    apply rbind_ok in H as (id & Hid%map_err_ok & _). pose proof Hp as Hq. rewrite (prepare_spec _ _ _ _ _ _ _ HR Hf Hd Hid) in Hq.
    split.
    - destruct (last chain) as [cur|]; [destruct (same_id b cur)|].
      + apply rbind_unit_ok in Hq as [_ Hq]. by apply rbind_ok in Hq as (? & _ & ?).
      + apply rbind_unit_ok in Hq as [_ Hq%Ok_inj]. by injection Hq as <-.
      + apply rbind_unit_ok in Hq as [_ Hq%Ok_inj]. by injection Hq as <-.
    - intros ->. rewrite app_nil_r in HR'. by rewrite (prepare_spec _ _ _ _ _ _ _ HR' Hf Hd Hid). }
  destruct Hplan as [Hh Hre]. destruct more as [|m more].
  - left. rewrite app_nil_r. split; [done|]. unfold import_explicit_file. by rewrite Hre.
  - right. split.
    + intros He%Ok_inj. apply (f_equal length) in He. rewrite length_app in He. cbn in He. lia.
    + unfold import_commit. rewrite (tp_head_read _ _ _ HR'). cbn [rbind]. rewrite Hh, bool_decide_false; [done|].
      by eapply head_changes.
Qed.

(** ** Emergencies *)

Context {EL : Ed25519Laws E}.

(** A policy after the hold can be followed by a containment of its phase,
    signed by any key. *)
Lemma containment_issued key (prev : SignedReleasePolicy) a id :
  policy_verify prev a = Ok tt → policy_id prev = Ok id →
  (uint_val prev.(policy_content).(rp_epoch) + 1 < U64_BOUND)%N → prev.(policy_content).(rp_phase) ≠ LegacyOnlyHold →
  ∃ p, issue_successor_with_previous_authority key prev a prev.(policy_content).(rp_artifact)
         prev.(policy_content).(rp_phase) Containment (as_u16 0) = Ok p.
Proof.
  intros Hv Hid He Hph. unfold issue_successor_with_previous_authority, policy_issue, authority_from_bytes.
  rewrite derived_key_ok. cbn [negb fail_if rbind ok_or]. rewrite Hv. cbn [rbind].
  destruct (u64_checked_add _ _) as [e|] eqn:Ee.
  2:{ unfold u64_checked_add in Ee. change (uint_val (as_u64 1)) with 1%N in Ee. by rewrite (proj2 (N.ltb_lt _ _) He) in Ee. }
  cbn [ok_or rbind]. rewrite Hid. cbn [rbind]. set (content := Build_ReleasePolicyContent _ _ _ _ _ _ _).
  apply rbind_unit_ok in Hv as [Hvc _]. pose proof (content_cases _ Hvc) as (Hart & _).
  assert (Hc : validate_policy_content content = Ok tt).
  { unfold validate_policy_content, content. cbn [rp_version rp_artifact rp_cohort rp_phase rp_disposition].
    rewrite bool_decide_true, bool_decide_false by done. by destruct (rp_phase (policy_content prev)). }
  rewrite Hc. cbn [rbind].
  assert (Ht : validate_policy_transition content (Some prev) = Ok tt).
  { apply (transition_some {| policy_content := content; policy_signature := [] |}). cbn [policy_content].
    apply u64_checked_add_Some in Ee. split_and!; [done| |by exists id|cbn; lia|cbn; lia].
    change (rp_epoch content) with e. exact Ee. }
  rewrite Ht. cbn [rbind]. destruct (postcard_total content) as [m Hm]. unfold policy_signing_bytes. rewrite Hm. cbn [ok_or rbind].
  unfold policy_verify. cbn [policy_content policy_signature]. rewrite Hc, made_signature_ok, derived_key_ok. cbn [negb fail_if rbind].
  unfold policy_signing_bytes. rewrite Hm. cbn [ok_or rbind]. rewrite signed_verifies. by eexists.
Qed.

Lemma containment_bundle_issued root current c key :
  trusted root current → c ∈ current.(bundle_keyring).(keyring_content).(kr_keys) → c.(kc_revoked) = None →
  c.(kc_permissions).(containment_policy) = true → verifying_key_of key = c.(kc_public_key) →
  (uint_val (epoch_of current) + 1 < U64_BOUND)%N → current.(bundle_policy).(policy_content).(rp_phase) ≠ LegacyOnlyHold →
  ∃ b, bundle_issue_successor root current.(bundle_keyring) key current
         current.(bundle_policy).(policy_content).(rp_artifact) current.(bundle_policy).(policy_content).(rp_phase)
         Containment (as_u16 0) = Ok b.
Proof.
  intros Ht Hc Hr Hperm Hkey He Hph. pose proof Ht as [Hw Hk]. pose proof (keyring_verify_wf _ _ Hk) as Hkw.
  destruct (bf_authority _ Hw) as (a & Ha & Hp). unfold bundle_issue_successor, bundle_policy_authority.
  rewrite Hk, (proj2 (bundle_verify_ok _ _) Ht), (bf_id _ Hw), Ha. cbn [map_err rbind purpose_for_disposition].
  rewrite bool_decide_true by done. cbn [negb rbind]. rewrite Hkey.
  pose proof (proj1 (Forall_forall _ _) (kw_keys _ Hkw) c Hc) as [_ Hid _ _]. rewrite Hid. cbn [map_err rbind].
  assert (authorize_policy_signer (bundle_keyring current) (kc_key_id c) PurposeContainment = Ok (kc_public_key c)) as Hauth.
  { apply authorize_ok; [done|]. exists c. by rewrite wf_active. }
  rewrite Hauth. cbn [map_err rbind].
  destruct (containment_issued key (bundle_policy current) a (sha256 (RELEASE_POLICY_ID_DOMAIN ++ bw_signed_policy (bundle_wire current))))
    as [p Hissue]; [done| |done|done|].
  { apply policy_id_ok. eexists. split; [apply (bf_policy _ Hw)|done]. }
  rewrite Hissue. cbn [map_err rbind]. apply policy_issue_ok in Hissue as (Hv & _ & _ & Hd & Hl). rewrite Hkey in Hv.
  rewrite Hv. cbn [map_err rbind]. destruct (signed_policy_encodes _ _ Hv) as [sent Hs]; [lia|].
  unfold bundle_assemble. rewrite Hd, bool_decide_true by done. cbn [negb fail_if rbind].
  rewrite (bf_id _ Hw), (bf_keyring _ Hw), Hs. cbn [map_err rbind].
  set (b := Build_TrustedReleasePolicyBundle _ _ _). exists b. apply rbind_unit_ok. split; [|done].
  apply bundle_validate_ok. split; [done|apply (bf_id _ Hw)|apply (bf_keyring _ Hw)|done| |by unfold b; cbn; rewrite Hd].
  by exists (kc_public_key c).
Qed.

(** C34: An emergency stop is always possible: in a reachable store past the
    hold and below its capacity, the keyring of the current bundle has a key
    whose owner can issue a containment of the current phase, and importing its
    encoding makes it the current bundle unless its identifier is taken. *)
Theorem containment_always_possible root st chain current :
  tp_reachable root st → tp_bundle_chain st = Ok chain → last chain = Some current → length chain < 32 →
  current.(bundle_policy).(policy_content).(rp_phase) ≠ LegacyOnlyHold →
  ∃ c, c ∈ current.(bundle_keyring).(keyring_content).(kr_keys) ∧
    ∀ key, verifying_key_of key = c.(kc_public_key) →
    ∃ b sent, bundle_issue_successor root current.(bundle_keyring) key current
        current.(bundle_policy).(policy_content).(rp_artifact) current.(bundle_policy).(policy_content).(rp_phase)
        Containment (as_u16 0) = Ok b ∧ bundle_encode b = Ok sent ∧
      (existsb (same_id b) chain = false → ∀ file, read_bounded_real_file file = Ok sent →
       ∃ o st', import_explicit_file st file ImportRequested = Ok (o, st') ∧ tp_current_bundle st' = Ok (Some b)).
Proof.
  intros [chain' HR]%tp_reachable_refines Hch El Hlen Hph. assert (chain' = chain) as ->.
  { unfold tp_bundle_chain in Hch. rewrite (tpr_root _ _ _ HR), (chain_read _ _ _ HR) in Hch. by apply Ok_inj in Hch. }
  pose proof (bound_small _ (tpr_bound _ _ _ HR)) as Hl. pose proof (tpr_chain _ _ _ HR) as Ha.
  assert (Hin : current ∈ chain) by by apply last_Some_elem_of. pose proof (accepted_trusted _ _ _ Ha Hin) as Ht.
  pose proof (keyring_verify_wf _ _ (proj2 Ht)) as Hkw. destruct (kw_containment _ Hkw) as (c & Hc & [Hact Hperm]%andb_true_iff).
  apply wf_active in Hact; [|done..]. exists c. split; [done|]. intros key Hkey.
  destruct (containment_bundle_issued root current c key) as [b Hb]; [done..| |done|].
  { destruct (list_elem_of_lookup_1 _ _ Hin) as [i Hi]. rewrite (accepted_epoch _ _ _ _ Ha Hl Hi). apply lookup_lt_Some in Hi.
    unfold len in Hl. lia. }
  pose proof (bundle_issue_successor_ok _ _ _ _ _ _ _ _ _ Hb) as ([Hbw Hbk] & _ & Hs & _).
  destruct (bundle_encode_total _ Hbw) as [sent Hsent]. exists b, sent. split; [done|]. split; [done|]. intros Hx file Hf.
  pose proof (import_spec _ _ _ file HR) as Hi. rewrite Hf in Hi. cbn [rbind] in Hi.
  rewrite (proj2 (bundle_decode_ok _ _ _) (conj Hsent Hbk)) in Hi. cbn [map_err rbind] in Hi.
  unfold spec_import in Hi. rewrite El in Hi. destruct (same_id b current) eqn:Esame.
  { rewrite <-not_true_iff_false, existsb_exists in Hx. destruct Hx. exists current. by rewrite <-list_elem_of_In. }
  rewrite Hs in Hi. cbn [map_err rbind] in Hi. unfold spec_append in Hi.
  rewrite (proj2 (N.leb_gt _ _)) in Hi by (unfold len, MAX_DURABLE_TRUSTED_POLICY_BUNDLES; lia). cbn [fail_if rbind] in Hi.
  rewrite Hx in Hi. cbn [fail_if rbind] in Hi. destruct (bundle_id_total _ Hbw) as [id Hid]. unfold tp_outcome in Hi. rewrite Hid in Hi.
  cbn [map_err rbind] in Hi. destruct Hi as (st' & Hi & HR'). eexists _, st'. split; [exact Hi|].
  rewrite (current_read _ _ _ HR'). by rewrite last_snoc.
Qed.

End store.

(** * An example store *)

Module BundleExample.
Import TrustExample.
#[local] Existing Instances Toy.ed25519_instance Toy.ed25519_laws Toy.sha256_instance.
#[local] Existing Instances SortedTable.redb_instance SortedTable.redb_laws.

#[export] Instance purpose_codec : Codec ReleasePolicyPurpose :=
  iso_codec (fun p => match p with PurposeNormal => x00 | PurposeContainment => x01 end)
    (fun x => match x with x01 => PurposeContainment | _ => PurposeNormal end) ltac:(by intros []).

#[export] Instance wire_codec : Codec TrustedReleasePolicyBundleWire :=
  iso_codec (fun w => (bw_version w, (bw_keyring_id w, (bw_signer_key_id w, (bw_purpose w, (bw_signed_keyring w, bw_signed_policy w))))))
    (fun '(v, (i, (s, (p, (k, q))))) => Build_TrustedReleasePolicyBundleWire v i s p k q) ltac:(by intros []).

#[export] Instance bundle_postcard : BundlePostcard := {| pc_bundle := codec_postcard |}.

#[export] Instance bundle_postcard_laws : BundlePostcardLaws bundle_postcard.
Proof.
  split; [apply codec_postcard_laws|].
  intros [v i s p k q] bs Hb%(inj Some) Hk Hq. cbn [bw_signed_keyring bw_signed_policy] in *. subst bs.
  change (codec_enc (Build_TrustedReleasePolicyBundleWire v i s p k q))
    with (codec_enc v ++ codec_enc i ++ codec_enc s ++ codec_enc p ++ codec_enc k ++ codec_enc q).
  rewrite !len_app, !RolloutExample.len_arr_enc. change (len (codec_enc v)) with 1%N. change (len (codec_enc p)) with 1%N.
  cbn [codec_enc vec_codec]. rewrite (proj2 (N.ltb_lt _ _) Hk), (proj2 (N.ltb_lt _ _) Hq), !len_cons, !len_app.
  assert (∀ n, len (to_be_bytes 8 n) = 8%N) as Hl by (intros n; unfold len; by rewrite length_to_be_bytes). rewrite !Hl. lia.
Qed.

Definition root : arr 32 := verifying_key_of root_key.
Definition artifact : arr 32 := arr_repeat 32 x05.

Definition no_bundle : TrustedReleasePolicyBundle := {|
  bundle_wire := {| bw_version := x00; bw_keyring_id := zero32; bw_signer_key_id := zero32; bw_purpose := PurposeNormal;
                    bw_signed_keyring := []; bw_signed_policy := [] |};
  bundle_keyring := no_keyring; bundle_policy := RolloutExample.hold
|}.
Definition bundle_or (r : result TrustedPolicyError TrustedReleasePolicyBundle) : TrustedReleasePolicyBundle :=
  match r with Ok b => b | Err _ => no_bundle end.

(** A hold, a canary, and, after the operational key was revoked, a stop
    signed by the emergency key. *)
Definition hold : TrustedReleasePolicyBundle :=
  Eval vm_compute in bundle_or (bundle_issue_genesis_hold root genesis operational artifact).
Definition canary : TrustedReleasePolicyBundle :=
  Eval vm_compute in bundle_or (bundle_issue_successor root genesis operational hold artifact AdvertiseCanary NormalPolicy (as_u16 50)).
Definition stop : TrustedReleasePolicyBundle :=
  Eval vm_compute in bundle_or (bundle_issue_successor root rotated emergency canary artifact AdvertiseCanary Containment (as_u16 0)).

Definition encoded (b : TrustedReleasePolicyBundle) : bytes := match bundle_encode b with Ok bs => bs | Err _ => [] end.
Definition file_of (bs : bytes) : input_file :=
  let m := Some {| is_real_file := true; file_len := as_u64 (len bs) |} in
  {| input_metadata := m; input_bytes := Some bs; input_after := m |}.

Lemma hold_bundle_issued : bundle_issue_genesis_hold root genesis operational artifact = Ok hold.
Proof. vm_cast_no_check (eq_refl (Ok (E:=TrustedPolicyError) hold)). Qed.
Lemma stop_issued :
  bundle_issue_successor root rotated emergency canary artifact AdvertiseCanary Containment (as_u16 0) = Ok stop.
Proof. vm_cast_no_check (eq_refl (Ok (E:=TrustedPolicyError) stop)). Qed.

(** Importing an example bundle, in the abstract store and in the store. *)
Lemma example_import st chain b chain' :
  tp_reachable root st → tp_refines root st chain →
  read_bounded_real_file (file_of (encoded b)) = Ok (encoded b) →
  bundle_encode b = Ok (encoded b) → keyring_verify b.(bundle_keyring) root = Ok tt →
  match spec_import chain b with Ok (_, l) => bool_decide (l = chain') | Err _ => false end = true →
  ∃ o st', import_explicit_file st (file_of (encoded b)) ImportRequested = Ok (o, st') ∧
    tp_reachable root st' ∧ tp_refines root st' chain'.
Proof.
  intros Hr HR Hf He Hk Hs. pose proof (import_spec _ _ _ (file_of (encoded b)) HR) as H. rewrite Hf in H. cbn [rbind] in H.
  rewrite (proj2 (bundle_decode_ok _ _ _) (conj He Hk)) in H. cbn [map_err rbind] in H.
  destruct (spec_import chain b) as [[o l]|]; [|done]. apply bool_decide_eq_true in Hs. subst l. destruct H as (st' & Hi & HR'). exists o, st'.
  split_and!; [done| |done]. by eapply tp_reach_import.
Qed.

(** The stores with no bundle and with the first one, two and three. *)
Lemma opened : ∃ st, tp_open root tp_create = Ok st.
Proof.
  assert (is_ok (tp_open root tp_create) = true) as Ho by (by vm_compute).
  destruct (tp_open root tp_create) as [st|]; [|discriminate Ho]. by exists st.
Qed.
Lemma store0 : ∃ st, tp_reachable root st ∧ tp_refines root st [].
Proof. destruct opened as [st Ho]. exists st. split; [by constructor|by apply open_new_chain]. Qed.
Lemma store1 : ∃ st o st', tp_reachable root st ∧ tp_refines root st [] ∧
  import_explicit_file st (file_of (encoded hold)) ImportRequested = Ok (o, st') ∧ tp_reachable root st' ∧ tp_refines root st' [hold].
Proof.
  destruct store0 as (st & Hr & HR). destruct (example_import st [] hold [hold]) as (o & st' & Hi & Hr' & HR');
    [assumption|assumption|by vm_compute|by vm_compute|by vm_compute|by vm_compute|]. exists st, o, st'. split_and!; assumption.
Qed.
Lemma store2 : ∃ st, tp_reachable root st ∧ tp_refines root st [hold; canary].
Proof.
  destruct store1 as (_ & _ & st & _ & _ & _ & Hr & HR). destruct (example_import st [hold] canary [hold; canary]) as (o & st' & _ & Hr' & HR');
    [assumption|assumption|by vm_compute|by vm_compute|by vm_compute|by vm_compute|]. exists st'. split; assumption.
Qed.
Lemma store3 : ∃ st, tp_reachable root st ∧ tp_refines root st [hold; canary; stop].
Proof.
  destruct store2 as (st & Hr & HR). destruct (example_import st [hold; canary] stop [hold; canary; stop]) as (o & st' & _ & Hr' & HR');
    [assumption|assumption|by vm_compute|by vm_compute|by vm_compute|by vm_compute|]. exists st'. split; assumption.
Qed.

Lemma hold_file : read_bounded_real_file (file_of (encoded hold)) = Ok (encoded hold).
Proof. vm_cast_no_check (eq_refl (Ok (E:=TrustedPolicyStoreError) (encoded hold))). Qed.
Lemma hold_bundle_encodes : bundle_encode hold = Ok (encoded hold).
Proof. vm_cast_no_check (eq_refl (Ok (E:=TrustedPolicyError) (encoded hold))). Qed.
Lemma hold_bundle_decodes : bundle_decode_and_verify (encoded hold) root = Ok hold.
Proof. apply bundle_decode_ok. split; [exact hold_bundle_encodes|vm_cast_no_check (eq_refl (Ok (E:=ReleaseTrustError) tt))]. Qed.
Lemma hold_appended : ∃ o, spec_import [] hold = Ok (o, [hold]).
Proof.
  assert (match spec_import [] hold with Ok (_, l) => bool_decide (l = [hold]) | Err _ => false end = true) as Hs by (by vm_compute).
  destruct (spec_import [] hold) as [[o l]|]; [|discriminate Hs]. apply bool_decide_eq_true in Hs. subst l. by exists o.
Qed.
Lemma hold_imports :
  ∃ o, (let? bs := read_bounded_real_file (file_of (encoded hold)) in
        let? b := map_err StoreTrustedPolicy (bundle_decode_and_verify bs root) in
        spec_import [] b) = Ok (o, [hold]).
Proof.
  destruct hold_appended as [o Hs]. exists o. rewrite hold_file. cbn [rbind]. rewrite hold_bundle_decodes. exact Hs.
Qed.
Lemma stop_encodes : bundle_encode stop = Ok (encoded stop).
Proof. vm_cast_no_check (eq_refl (Ok (E:=TrustedPolicyError) (encoded stop))). Qed.
Lemma stop_decodes : bundle_decode_and_verify (encoded stop) root = Ok stop.
Proof. apply bundle_decode_ok. split; [exact stop_encodes|vm_cast_no_check (eq_refl (Ok (E:=ReleaseTrustError) tt))]. Qed.

Lemma bundle_codec_exact_witness :
  bundle_verify_successor_of stop canary = Ok tt ∧
  ∃ sent, bundle_encode stop = Ok sent ∧ bundle_decode_and_verify sent root = Ok stop.
Proof.
  destruct (bundle_codec_exact root [] stop) as (_ & _ & _ & H). exact (H _ _ _ _ _ _ _ stop_issued).
Defined.

Lemma bundle_sound_witness :
  ∃ c, c ∈ stop.(bundle_keyring).(keyring_content).(kr_keys) ∧ policy_verify stop.(bundle_policy) c.(kc_public_key) = Ok tt.
Proof.
  destruct (bundle_sound root (encoded stop) stop stop_decodes) as (_ & c & Hc & _ & _ & Hp & _).
  exists c. split; [exact Hc|exact Hp].
Defined.

Lemma import_refines_witness :
  ∃ st file o st', tp_refines root st [] ∧
    import_explicit_file st file ImportRequested = Ok (o, st') ∧ tp_refines root st' [hold].
Proof.
  destruct store0 as (st & _ & HR). exists st, (file_of (encoded hold)).
  destruct (import_refines root st [] (file_of (encoded hold)) HR) as [_ H].
  destruct hold_imports as [o Hs]. rewrite Hs in H.
  destruct H as (st' & Hi & HR'). exists o, st'. split_and!; assumption.
Defined.

(** What a store that refines a chain reads. *)
Lemma reads_chain st chain : tp_refines root st chain → tp_bundle_chain st = Ok chain.
Proof. intros HR. unfold tp_bundle_chain. rewrite (tpr_root _ _ _ HR). by apply chain_read. Qed.

Lemma trusted_store_invariant_witness :
  ∃ st chain, tp_reachable root st ∧ tp_bundle_chain st = Ok chain ∧ length chain = 3 ∧
    (∀ i b, chain !! i = Some b → bundle_verify b root = Ok tt).
Proof.
  destruct store3 as (st & Hr & HR). exists st, [hold; canary; stop].
  destruct (trusted_store_invariant root st Hr) as (chain & Hc & _ & _ & _ & _ & Hv & _).
  rewrite (reads_chain _ _ HR) in Hc. apply Ok_inj in Hc. subst chain.
  split_and!; [assumption|exact (reads_chain _ _ HR)|reflexivity|]. intros i b Hi. exact (proj1 (Hv i b Hi)).
Defined.

Lemma example_keyrings_distinct : keyrings_distinct [hold; canary; stop].
Proof.
  intros b b' Hb Hb' He. apply (bool_decide_eq_true (b.(bundle_keyring) = b'.(bundle_keyring))).
  assert (forallb (fun b => forallb (fun b' =>
      negb (match keyring_id (bundle_keyring b), keyring_id (bundle_keyring b') with
            | Ok i, Ok j => bool_decide (i = j) | _, _ => true end)
      || bool_decide (bundle_keyring b = bundle_keyring b')) [hold; canary; stop]) [hold; canary; stop] = true) as Hall by (by vm_compute).
  rewrite forallb_forall in Hall. specialize (Hall b (proj1 (list_elem_of_In _ _) Hb)). cbn beta in Hall.
  rewrite forallb_forall in Hall. specialize (Hall b' (proj1 (list_elem_of_In _ _) Hb')). cbn beta in Hall.
  rewrite He in Hall. destruct (keyring_id (bundle_keyring b')); [rewrite bool_decide_true in Hall by done|]; exact Hall.
Qed.

Lemma revoked_signer_stays_out_witness :
  ∃ st, tp_reachable root st ∧ tp_bundle_chain st = Ok [hold; canary; stop] ∧
    authorize_policy_signer stop.(bundle_keyring) hold.(bundle_wire).(bw_signer_key_id) PurposeNormal = Err RevokedSigningKey ∧
    (∀ purpose, authorize_policy_signer hold.(bundle_keyring) stop.(bundle_wire).(bw_signer_key_id) purpose ≠ Err RevokedSigningKey).
Proof.
  destruct store3 as (st & Hr & HR). exists st. split; [exact Hr|]. split; [exact (reads_chain _ _ HR)|].
  split; [vm_compute; reflexivity|].
  exact (proj1 (revoked_signer_stays_out root st [hold; canary; stop] 0 2 hold stop Hr (reads_chain _ _ HR)
    example_keyrings_distinct ltac:(lia) eq_refl eq_refl)).
Defined.

Lemma import_interleaved_witness :
  ∃ st st' p, tp_reachable root st ∧ import_prepare st (file_of (encoded hold)) ImportRequested = Ok (inr p) ∧
    rtc tp_step st st' ∧ import_commit st' p = Err ConcurrentHeadChanged.
Proof.
  destruct store1 as (st & o & st' & Hr & HR & Hi & Hr' & HR').
  destruct (bundle_id_total hold) as [id Hid]; [by apply (proj1 (bundle_encode_ok _ _) hold_bundle_encodes)|].
  assert (Hp : import_prepare st (file_of (encoded hold)) ImportRequested = Ok (inr (plan_for [] hold (encoded hold) id))).
  { rewrite (prepare_spec _ _ _ _ _ _ _ HR hold_file hold_bundle_decodes Hid). cbn [last].
    assert ((negb (uint_val (epoch_of hold) =? 1)%N || not_genesis hold) = false) as -> by (by vm_compute). reflexivity. }
  assert (Hs : rtc tp_step st st') by (apply rtc_once; left; eexists _, _, _; exact Hi).
  exists st, st', (plan_for [] hold (encoded hold) id). split_and!; [exact Hr|exact Hp|exact Hs|].
  destruct (import_interleaved root st st' _ _ Hr Hs Hp) as [[He _]|[_ H]]; [|exact H].
  rewrite (reads_chain _ _ HR), (reads_chain _ _ HR') in He. discriminate He.
Defined.

Lemma containment_always_possible_witness :
  ∃ st c, tp_reachable root st ∧ tp_bundle_chain st = Ok [hold; canary] ∧
    c ∈ canary.(bundle_keyring).(keyring_content).(kr_keys) ∧
    ∀ key, verifying_key_of key = c.(kc_public_key) →
    ∃ b, bundle_issue_successor root canary.(bundle_keyring) key canary artifact AdvertiseCanary Containment (as_u16 0) = Ok b.
Proof.
  destruct store2 as (st & Hr & HR).
  destruct (containment_always_possible root st [hold; canary] canary Hr (reads_chain _ _ HR) eq_refl) as (c & Hc & H);
    [cbn; lia|discriminate|].
  exists st, c. split_and!; [exact Hr|exact (reads_chain _ _ HR)|exact Hc|]. intros key Hk.
  destruct (H key Hk) as (b & _ & Hb & _). exists b. exact Hb.
Defined.

(** A first bundle whose policy is not a hold: an operational key signs a
    canary of epoch one. *)
Definition eager_content : ReleasePolicyContent := {|
  rp_version := RELEASE_POLICY_VERSION; rp_epoch := as_u64 1; rp_previous := None; rp_artifact := artifact;
  rp_phase := AdvertiseCanary; rp_disposition := NormalPolicy; rp_cohort := as_u16 100
|}.
Definition eager_policy : SignedReleasePolicy := {|
  policy_content := eager_content;
  policy_signature := arr_bytes (sign operational (match policy_signing_bytes eager_content with Ok m => m | Err _ => [] end))
|}.
Definition eager : TrustedReleasePolicyBundle :=
  Eval vm_compute in bundle_or (bundle_assemble genesis (key_id_of operational) PurposeNormal eager_policy).

(** The store accepts a first bundle whose policy starts a canary, which
    the check of a first policy refuses: the first policy of a chain of bundles
    need not be a hold. *)
Lemma genesis_need_not_hold :
  validate_policy_transition eager.(bundle_policy).(policy_content) None = Err InvalidGenesisPolicy ∧
  eager.(bundle_policy).(policy_content).(rp_phase) = AdvertiseCanary ∧
  ∃ st o st', tp_open root tp_create = Ok st ∧
    import_explicit_file st (file_of (encoded eager)) ImportRequested = Ok (o, st') ∧
    tp_current_bundle st' = Ok (Some eager).
Proof.
  split; [vm_compute; reflexivity|]. split; [reflexivity|].
  destruct opened as [st Ho].
  destruct (example_import st [] eager [eager]) as (o & st' & Hi & _ & HR');
    [exact (tp_reach_open _ _ Ho)|exact (open_new_chain _ _ Ho)|by vm_compute|by vm_compute|by vm_compute|by vm_compute|].
  exists st, o, st'. split; [exact Ho|]. split; [exact Hi|]. exact (current_read _ _ _ HR').
Qed.

End BundleExample.
