(* ===== verification/Activation.v ===== *)
(** The activation authority of a device for canonical sync v2,
    [crates/kilogram-session/src/canonical_sync_v2_activation.rs], with the
    migration states and the transport permissions of
    [canonical_sync_v2_adapter.rs].

    A device moves from the legacy protocol to the canonical one by an
    append-only chain of records it signs itself.  [record_verify_transition]
    is the whole check of a record against its predecessor,
    [verify_chain] the verification of a set of records, and
    [verify_authority] adds the signed high-water mark. *)

From stdpp Require Import base tactics list numbers strings.
From Stdlib Require Import Strings.Byte.
From S2P Require Import Prelude Crypto Text Identity.

(** * Constants *)

Definition ACTIVATION_RECORD_MAGIC : bytes := b_str "KILOGRAM-CSAP-V1".
Definition ACTIVATION_HIGH_WATER_MAGIC : bytes := b_str "KILOGRAM-CSHW-V1".
Definition ACTIVATION_RECORD_VERSION : byte := x01.
Definition ACTIVATION_HIGH_WATER_VERSION : byte := x01.
Definition ACTIVATION_RECORD_SIGNATURE_DOMAIN : bytes :=
  b_str "kilogram:canonical-sync-v2:activation-record:v1" ++ [x00].
Definition ACTIVATION_HIGH_WATER_SIGNATURE_DOMAIN : bytes :=
  b_str "kilogram:canonical-sync-v2:activation-high-water:v1" ++ [x00].
Definition ACTIVATION_RECORD_ID_CONTEXT : bytes :=
  b_str "kilogram canonical sync v2 activation record id v1".
Definition ACTIVATION_RECORD_FIXED_BYTES : usize := 192.
Definition ACTIVATION_HIGH_WATER_BYTES : usize := 153.
Definition MAX_ACTIVATION_REASON_BYTES : usize := 256.
Definition MAX_ACTIVATION_RECORD_BYTES : usize :=
  ACTIVATION_RECORD_FIXED_BYTES + MAX_ACTIVATION_REASON_BYTES.

(** * Migration states and permissions *)

Inductive MigrationState :=
| LegacyOnly | AdvertiseCanonicalV2 | DualReaderPreferLegacy | DualReaderPreferCanonical
| CanonicalRequired.

Inductive Disposition := Normal | EmergencyContainment.

Inductive Actor := ExplicitLocal | ReleasePolicy.

#[export] Instance MigrationState_eq_dec : EqDecision MigrationState.
Proof. solve_decision. Defined.
#[export] Instance Disposition_eq_dec : EqDecision Disposition.
Proof. solve_decision. Defined.
#[export] Instance Actor_eq_dec : EqDecision Actor.
Proof. solve_decision. Defined.

Definition actor_as_str (a : Actor) : string :=
  match a with ExplicitLocal => "explicit-local" | ReleasePolicy => "release-policy" end.

Record Permissions := {
  legacy_reader_enabled : bool;
  publish_canonical_capability : bool;
  register_canonical_alpn : bool;
  accept_new_canonical_session : bool;
  initiate_new_canonical_session : bool;
  resume_selected_canonical_session : bool
}.

(** The errors of [CanonicalSyncV2SessionError] this evaluation returns. *)
Inductive PermissionError :=
| ActivationStateConflictsWithCanonicalEvidence
| ContainmentRequiresCanonicalEvidence.

Definition evaluate_permissions (state : MigrationState) (disposition : Disposition)
    (persisted_canonical_evidence : bool) : result PermissionError Permissions :=
  fail_if (persisted_canonical_evidence
           && match state with LegacyOnly | AdvertiseCanonicalV2 => true | _ => false end)
    ActivationStateConflictsWithCanonicalEvidence ;?
  if bool_decide (disposition = EmergencyContainment) then
    fail_if (negb persisted_canonical_evidence) ContainmentRequiresCanonicalEvidence ;?
    Ok {| legacy_reader_enabled := bool_decide (state ≠ CanonicalRequired);
          publish_canonical_capability := false;
          register_canonical_alpn := true;
          accept_new_canonical_session := false;
          initiate_new_canonical_session := false;
          resume_selected_canonical_session := true |}
  else
    Ok match state with
    | LegacyOnly =>
        {| legacy_reader_enabled := true; publish_canonical_capability := false;
           register_canonical_alpn := false; accept_new_canonical_session := false;
           initiate_new_canonical_session := false; resume_selected_canonical_session := false |}
    | AdvertiseCanonicalV2 =>
        {| legacy_reader_enabled := true; publish_canonical_capability := true;
           register_canonical_alpn := true; accept_new_canonical_session := false;
           initiate_new_canonical_session := false; resume_selected_canonical_session := false |}
    | DualReaderPreferLegacy =>
        {| legacy_reader_enabled := true; publish_canonical_capability := true;
           register_canonical_alpn := true; accept_new_canonical_session := true;
           initiate_new_canonical_session := false; resume_selected_canonical_session := true |}
    | DualReaderPreferCanonical =>
        {| legacy_reader_enabled := true; publish_canonical_capability := true;
           register_canonical_alpn := true; accept_new_canonical_session := true;
           initiate_new_canonical_session := true; resume_selected_canonical_session := true |}
    | CanonicalRequired =>
        {| legacy_reader_enabled := false; publish_canonical_capability := true;
           register_canonical_alpn := true; accept_new_canonical_session := true;
           initiate_new_canonical_session := true; resume_selected_canonical_session := true |}
    end.

(** * Errors *)

Inductive ActivationError :=
| RecordLength (n : usize)
| RecordMagic
| RecordVersion (v : byte)
| NonCanonicalRecord
| HighWaterLength (n : usize)
| HighWaterMagic
| HighWaterVersion (v : byte)
| NonCanonicalHighWater
| WrongDevice (expected found : DeviceId)
| SignatureError (error : IdentityError)
| OptionalIdentifierFlag (flag : byte)
| NonCanonicalAbsentIdentifier
| MigrationStateCode (code : byte)
| DispositionCode (code : byte)
| ActorCode (code : byte)
| ReasonUtf8
| ReasonLength (n : usize)
| ReasonInvalid
| EpochOverflow
| EpochGap (expected found : u64)
| PreviousRecordMismatch
| InvalidTransition
| NoEffectiveChange
| RollbackAfterCanonicalEvidence
| CanonicalEvidenceChanged
| PermissionCombination
| HighWaterMissing
| HighWaterWithoutChain
| HighWaterMismatch
| FixedWidthField.

(** * Helpers *)

Definition validate_reason (reason : str) : result ActivationError unit :=
  let n := len reason in
  fail_if (negb ((1 <=? n) && (n <=? MAX_ACTIVATION_REASON_BYTES)))%N (ReasonLength n) ;?
  fail_if (bool_decide (trim reason ≠ reason) || existsb is_control (chars reason)) ReasonInvalid.

(** [encoded[i]] and [encoded[a..b]].  An index out of range, at which the
    source panics, is a short slice here: [decode_in_range] shows that the
    length checks exclude it. *)
Definition index (encoded : bytes) (i : nat) : bytes := take 1 (drop i encoded).
Definition slice (encoded : bytes) (a b : nat) : bytes := take (b - a) (drop a encoded).

Definition copy_array (n : nat) (bs : bytes) : result ActivationError (arr n) :=
  ok_or (arr_try_from n bs) FixedWidthField.

(** The single byte [encoded[i]]. *)
Definition byte_at (encoded : bytes) (i : nat) : result ActivationError byte :=
  match index encoded i with [b] => Ok b | _ => Err FixedWidthField end.

Definition encode_optional_id (value : option (arr 32)) (encoded : bytes) : bytes :=
  match value with
  | Some value => encoded ++ [x01] ++ arr_bytes value
  | None => encoded ++ [x00] ++ repeat x00 32
  end.

Definition decode_optional_id (flag : byte) (bs : bytes) : result ActivationError (option (arr 32)) :=
  let? value := copy_array 32 bs in
  if (byte_val flag =? 0)%N then
    if bool_decide (arr_bytes value = repeat x00 32) then Ok None
    else Err NonCanonicalAbsentIdentifier
  else if (byte_val flag =? 1)%N then Ok (Some value)
  else Err (OptionalIdentifierFlag flag).

Definition migration_state_rank (s : MigrationState) : N :=
  match s with
  | LegacyOnly => 0
  | AdvertiseCanonicalV2 => 1
  | DualReaderPreferLegacy => 2
  | DualReaderPreferCanonical => 3
  | CanonicalRequired => 4
  end.

Definition migration_state_code (s : MigrationState) : byte := as_u8 (migration_state_rank s + 1).

Definition migration_state_from_code (code : byte) : result ActivationError MigrationState :=
  match byte_val code with
  | 1 => Ok LegacyOnly
  | 2 => Ok AdvertiseCanonicalV2
  | 3 => Ok DualReaderPreferLegacy
  | 4 => Ok DualReaderPreferCanonical
  | 5 => Ok CanonicalRequired
  | _ => Err (MigrationStateCode code)
  end%N.

Definition disposition_code (d : Disposition) : byte :=
  match d with Normal => x01 | EmergencyContainment => x02 end.

Definition disposition_from_code (code : byte) : result ActivationError Disposition :=
  match byte_val code with
  | 1 => Ok Normal
  | 2 => Ok EmergencyContainment
  | _ => Err (DispositionCode code)
  end%N.

Definition actor_code (a : Actor) : byte :=
  match a with ExplicitLocal => x01 | ReleasePolicy => x02 end.

Definition actor_from_code (code : byte) : result ActivationError Actor :=
  match byte_val code with
  | 1 => Ok ExplicitLocal
  | 2 => Ok ReleasePolicy
  | _ => Err (ActorCode code)
  end%N.

(** * Records *)

Record ActivationRecord := {
  local_device_id : DeviceId;
  migration_epoch : u64;
  previous_record_id : option (arr 32);
  migration_state : MigrationState;
  disposition : Disposition;
  actor : Actor;
  canonical_evidence_id : option (arr 32);
  reason : str;
  signature : arr 64
}.

#[export] Instance ActivationRecord_eq_dec : EqDecision ActivationRecord.
Proof. solve_decision. Defined.

Section records.
Context `{Ed25519} `{Blake3Derive}.

Definition record_content_bytes (r : ActivationRecord) : result ActivationError bytes :=
  validate_reason r.(reason) ;?
  let bs := as_bytes r.(reason) in
  fail_if (65536 <=? len bs)%N (ReasonLength (len bs)) ;?
  Ok (ACTIVATION_RECORD_MAGIC ++ [ACTIVATION_RECORD_VERSION] ++ arr_bytes r.(local_device_id)
      ++ to_be_bytes 8 (uint_val r.(migration_epoch))
      |> encode_optional_id r.(previous_record_id)
      |> (.++ [migration_state_code r.(migration_state)])
      |> (.++ [disposition_code r.(disposition)])
      |> (.++ [actor_code r.(actor)])
      |> encode_optional_id r.(canonical_evidence_id)
      |> (.++ to_be_bytes 2 (len bs))
      |> (.++ bs)).

Definition record_signing_bytes (r : ActivationRecord) : result ActivationError bytes :=
  let? content := record_content_bytes r in
  Ok (ACTIVATION_RECORD_SIGNATURE_DOMAIN ++ content).

Definition record_verify_signature (r : ActivationRecord) : result ActivationError unit :=
  let? message := record_signing_bytes r in
  map_err SignatureError (device_verify r.(local_device_id) message (arr_bytes r.(signature))).

Definition record_encode (r : ActivationRecord) : result ActivationError bytes :=
  record_verify_signature r ;?
  let? encoded := record_content_bytes r in
  Ok (encoded ++ arr_bytes r.(signature)).

Definition record_id (r : ActivationRecord) : result ActivationError (arr 32) :=
  let? encoded := record_encode r in
  Ok (derive_key ACTIVATION_RECORD_ID_CONTEXT encoded).

(** [previous.map(Self::record_id).transpose()]. *)
Definition record_id_of (previous : option ActivationRecord) : result ActivationError (option (arr 32)) :=
  match previous with
  | Some p => let? id := record_id p in Ok (Some id)
  | None => Ok None
  end.

Definition next_epoch (p : ActivationRecord) : result ActivationError u64 :=
  ok_or (u64_checked_add p.(migration_epoch) (as_u64 1)) EpochOverflow.

(** What a record must continue: the expected epoch and identifier, and the
    state, disposition and evidence before it. *)
Definition record_expected (r : ActivationRecord) (previous : option ActivationRecord)
  : result ActivationError
      (u64 * option (arr 32) * MigrationState * Disposition * option (arr 32)) :=
  match previous with
  | Some p =>
      record_verify_signature p ;?
      fail_if (bool_decide (p.(local_device_id) ≠ r.(local_device_id)))
        (WrongDevice p.(local_device_id) r.(local_device_id)) ;?
      let? epoch := next_epoch p in
      let? id := record_id p in
      Ok (epoch, Some id, p.(migration_state), p.(disposition), p.(canonical_evidence_id))
  | None => Ok (as_u64 1, None, LegacyOnly, Normal, None)
  end.

Definition is_some {A} (o : option A) : bool := match o with Some _ => true | None => false end.

(** Neither of the two states in which no canonical session exists. *)
Definition canonical_state (s : MigrationState) : bool :=
  bool_decide (s ≠ LegacyOnly) && bool_decide (s ≠ AdvertiseCanonicalV2).

(** The match on the difference of the ranks. *)
Definition check_transition (r : ActivationRecord) (previous_state : MigrationState)
    (previous_disposition : Disposition) (old_evidence : option (arr 32))
  : result ActivationError unit :=
  let state_delta := (Z.of_N (migration_state_rank r.(migration_state))
                      - Z.of_N (migration_state_rank previous_state))%Z in
  let disposition_changed := bool_decide (r.(disposition) ≠ previous_disposition) in
  let evidence_added := negb (is_some old_evidence) && is_some r.(canonical_evidence_id) in
  match state_delta with
  | 1 =>
      fail_if (bool_decide (r.(disposition) ≠ Normal) || disposition_changed || evidence_added)
        InvalidTransition
  | -1 =>
      fail_if (is_some old_evidence || is_some r.(canonical_evidence_id)
               || bool_decide (r.(disposition) ≠ Normal))
        RollbackAfterCanonicalEvidence
  | 0 =>
      let containment_change :=
        disposition_changed && is_some r.(canonical_evidence_id)
        && canonical_state r.(migration_state) in
      let evidence_observation :=
        negb disposition_changed && bool_decide (previous_disposition = Normal) && evidence_added
        && canonical_state r.(migration_state) in
      fail_if (negb containment_change && negb evidence_observation) NoEffectiveChange
  | _ => Err InvalidTransition
  end%Z.

Definition record_verify_transition (r : ActivationRecord) (previous : option ActivationRecord)
  : result ActivationError unit :=
  validate_reason r.(reason) ;?
  let? _ := map_err (fun _ => PermissionCombination)
    (evaluate_permissions r.(migration_state) r.(disposition)
       (is_some r.(canonical_evidence_id))) in
  let? (expected_epoch, expected_previous_id, previous_state, previous_disposition, old_evidence) :=
    record_expected r previous in
  fail_if (bool_decide (r.(migration_epoch) ≠ expected_epoch))
    (EpochGap expected_epoch r.(migration_epoch)) ;?
  fail_if (bool_decide (r.(previous_record_id) ≠ expected_previous_id)) PreviousRecordMismatch ;?
  fail_if (is_some old_evidence && bool_decide (r.(canonical_evidence_id) ≠ old_evidence))
    CanonicalEvidenceChanged ;?
  check_transition r previous_state previous_disposition old_evidence.

Definition record_permissions (r : ActivationRecord) : result ActivationError Permissions :=
  map_err (fun _ => PermissionCombination)
    (evaluate_permissions r.(migration_state) r.(disposition)
       (is_some r.(canonical_evidence_id))).

Definition with_signature (r : ActivationRecord) (s : arr 64) : ActivationRecord :=
  {| local_device_id := r.(local_device_id); migration_epoch := r.(migration_epoch);
     previous_record_id := r.(previous_record_id); migration_state := r.(migration_state);
     disposition := r.(disposition); actor := r.(actor);
     canonical_evidence_id := r.(canonical_evidence_id); reason := r.(reason); signature := s |}.

Definition record_issue (identity : DeviceIdentity) (previous : option ActivationRecord)
    (state : MigrationState) (disposition : Disposition) (actor : Actor)
    (evidence : option (arr 32)) (reason : str) : result ActivationError ActivationRecord :=
  validate_reason reason ;?
  let? epoch := match previous with Some p => next_epoch p | None => Ok (as_u64 1) end in
  let? previous_id := record_id_of previous in
  let record := {| local_device_id := device_id identity; migration_epoch := epoch;
                   previous_record_id := previous_id; migration_state := state;
                   disposition := disposition; actor := actor;
                   canonical_evidence_id := evidence; reason := reason;
                   signature := arr_repeat 64 x00 |} in
  record_verify_transition record previous ;?
  let? message := record_signing_bytes record in
  let record := with_signature record (device_sign identity message) in
  record_verify_signature record ;?
  Ok record.

Definition record_decode_and_verify (encoded : bytes) (expected_device_id : DeviceId)
  : result ActivationError ActivationRecord :=
  fail_if ((len encoded <? ACTIVATION_RECORD_FIXED_BYTES)
           || (MAX_ACTIVATION_RECORD_BYTES <? len encoded))%N (RecordLength (len encoded)) ;?
  fail_if (bool_decide (slice encoded 0 16 ≠ ACTIVATION_RECORD_MAGIC)) RecordMagic ;?
  let? version := byte_at encoded 16 in
  fail_if (bool_decide (version ≠ ACTIVATION_RECORD_VERSION)) (RecordVersion version) ;?
  let? device := copy_array 32 (slice encoded 17 49) in
  fail_if (bool_decide (device ≠ expected_device_id)) (WrongDevice expected_device_id device) ;?
  let? epoch := copy_array 8 (slice encoded 49 57) in
  let? previous_flag := byte_at encoded 57 in
  let? previous_id := decode_optional_id previous_flag (slice encoded 58 90) in
  let? state_byte := byte_at encoded 90 in
  let? state := migration_state_from_code state_byte in
  let? disposition_byte := byte_at encoded 91 in
  let? disposition := disposition_from_code disposition_byte in
  let? actor_byte := byte_at encoded 92 in
  let? actor := actor_from_code actor_byte in
  let? evidence_flag := byte_at encoded 93 in
  let? evidence := decode_optional_id evidence_flag (slice encoded 94 126) in
  let? reason_len := copy_array 2 (slice encoded 126 128) in
  let reason_len := from_be_bytes reason_len in
  let? reason_end := ok_or (usize_checked_add 128 reason_len) (RecordLength (len encoded)) in
  fail_if (negb (reason_end + 64 =? len encoded))%N (RecordLength (len encoded)) ;?
  let? reason := ok_or (from_utf8 (slice encoded 128 (N.to_nat reason_end))) ReasonUtf8 in
  validate_reason reason ;?
  let? signature := copy_array 64 (drop (N.to_nat reason_end) encoded) in
  let record := {| local_device_id := device;
                   migration_epoch := as_u64 (from_be_bytes epoch);
                   previous_record_id := previous_id; migration_state := state;
                   disposition := disposition; actor := actor;
                   canonical_evidence_id := evidence; reason := reason;
                   signature := signature |} in
  record_verify_signature record ;?
  let? again := record_encode record in
  fail_if (bool_decide (again ≠ encoded)) NonCanonicalRecord ;?
  Ok record.

(** * High-water marks *)

Record HighWater := {
  hw_device_id : DeviceId;
  hw_epoch : u64;
  hw_head_record_id : arr 32;
  hw_signature : arr 64
}.

Definition hw_content_bytes (w : HighWater) : bytes :=
  ACTIVATION_HIGH_WATER_MAGIC ++ [ACTIVATION_HIGH_WATER_VERSION] ++ arr_bytes w.(hw_device_id)
  ++ to_be_bytes 8 (uint_val w.(hw_epoch)) ++ arr_bytes w.(hw_head_record_id).

Definition hw_signing_bytes (w : HighWater) : bytes :=
  ACTIVATION_HIGH_WATER_SIGNATURE_DOMAIN ++ hw_content_bytes w.

Definition hw_verify_signature (w : HighWater) : result ActivationError unit :=
  map_err SignatureError
    (device_verify w.(hw_device_id) (hw_signing_bytes w) (arr_bytes w.(hw_signature))).

Definition hw_encode (w : HighWater) : bytes := hw_content_bytes w ++ arr_bytes w.(hw_signature).

Definition hw_with_signature (w : HighWater) (s : arr 64) : HighWater :=
  {| hw_device_id := w.(hw_device_id); hw_epoch := w.(hw_epoch);
     hw_head_record_id := w.(hw_head_record_id); hw_signature := s |}.

Definition hw_issue (identity : DeviceIdentity) (head : ActivationRecord)
  : result ActivationError HighWater :=
  fail_if (bool_decide (device_id identity ≠ head.(local_device_id)))
    (WrongDevice head.(local_device_id) (device_id identity)) ;?
  let? id := record_id head in
  let value := {| hw_device_id := device_id identity; hw_epoch := head.(migration_epoch);
                  hw_head_record_id := id; hw_signature := arr_repeat 64 x00 |} in
  let value := hw_with_signature value (device_sign identity (hw_signing_bytes value)) in
  hw_verify_signature value ;?
  Ok value.

Definition hw_decode_and_verify (encoded : bytes) (expected_device_id : DeviceId)
  : result ActivationError HighWater :=
  fail_if (negb (len encoded =? ACTIVATION_HIGH_WATER_BYTES))%N (HighWaterLength (len encoded)) ;?
  fail_if (bool_decide (slice encoded 0 16 ≠ ACTIVATION_HIGH_WATER_MAGIC)) HighWaterMagic ;?
  let? version := byte_at encoded 16 in
  fail_if (bool_decide (version ≠ ACTIVATION_HIGH_WATER_VERSION)) (HighWaterVersion version) ;?
  let? device := copy_array 32 (slice encoded 17 49) in
  fail_if (bool_decide (device ≠ expected_device_id)) (WrongDevice expected_device_id device) ;?
  let? epoch := copy_array 8 (slice encoded 49 57) in
  let? head := copy_array 32 (slice encoded 57 89) in
  let? signature := copy_array 64 (slice encoded 89 153) in
  let value := {| hw_device_id := device; hw_epoch := as_u64 (from_be_bytes epoch);
                  hw_head_record_id := head; hw_signature := signature |} in
  hw_verify_signature value ;?
  fail_if (bool_decide (hw_encode value ≠ encoded)) NonCanonicalHighWater ;?
  Ok value.

(** * Chains *)

(** The loop over the sorted records; the accumulator is [previous]. *)
Fixpoint verify_records (expected_device_id : DeviceId) (previous : option ActivationRecord)
    (records : list ActivationRecord) : result ActivationError unit :=
  match records with
  | [] => Ok tt
  | r :: records =>
      fail_if (bool_decide (r.(local_device_id) ≠ expected_device_id))
        (WrongDevice expected_device_id r.(local_device_id)) ;?
      record_verify_signature r ;?
      record_verify_transition r previous ;?
      verify_records expected_device_id (Some r) records
  end.

(** [verify_canonical_sync_v2_activation_chain]. *)
Definition verify_chain (records : list ActivationRecord) (expected_device_id : DeviceId)
  : result ActivationError (option ActivationRecord) :=
  match records with
  | [] => Ok None
  | _ =>
      let ordered := sort_by_key migration_epoch records in
      verify_records expected_device_id None ordered ;?
      Ok (last ordered)
  end.

(** [verify_canonical_sync_v2_activation_authority]. *)
Definition verify_authority (records : list ActivationRecord) (high_water : option HighWater)
    (expected_device_id : DeviceId) : result ActivationError (option ActivationRecord) :=
  let? head := verify_chain records expected_device_id in
  match head, high_water with
  | None, None => Ok None
  | None, Some _ => Err HighWaterWithoutChain
  | Some _, None => Err HighWaterMissing
  | Some head, Some w =>
      hw_verify_signature w ;?
      fail_if (bool_decide (w.(hw_device_id) ≠ expected_device_id))
        (WrongDevice expected_device_id w.(hw_device_id)) ;?
      fail_if (bool_decide (w.(hw_epoch) ≠ head.(migration_epoch))) HighWaterMismatch ;?
      let? id := record_id head in
      fail_if (bool_decide (w.(hw_head_record_id) ≠ id)) HighWaterMismatch ;?
      Ok (Some head)
  end.

End records.
