(* ===== verification/ActivationFacts.v ===== *)
(** Correctness of the activation authority of [Activation].

    - [record_decode_exact], [hw_decode_exact]: decoding accepts exactly the
      encodings that verify.
    - [astep]: the state machine of activation; [transition_exact]: the check
      of a record against its predecessor is a link and a step of it.
    - [achain]: the chains of a device, newest first; [verify_chain_ok]: a
      set of records is accepted exactly when it is one, in any order.
    - what holds along a chain, and what the high-water mark adds. *)

From stdpp Require Import base tactics list numbers strings relations.
From Stdlib Require Import Strings.Byte Sorting.Sorted.
From S2P Require Import Prelude Crypto Text Identity HashChain Activation.

(** * Slices of a layout *)

Lemma slice_mid pre mid post a b :
  length pre = a → length mid = b - a → slice (pre ++ mid ++ post) a b = mid.
Proof.
  intros <- Hb. unfold slice. rewrite drop_app_length, <-Hb. apply take_app_length.
Qed.

Lemma byte_at_mid pre x post a : length pre = a → byte_at (pre ++ x :: post) a = Ok x.
Proof. intros <-. unfold byte_at, index. by rewrite drop_app_length. Qed.

Lemma copy_array_arr n (a : arr n) : copy_array n (arr_bytes a) = Ok a.
Proof. unfold copy_array. by rewrite arr_try_from_bytes. Qed.

Lemma copy_array_length n bs : length bs = n → ∃ a, copy_array n bs = Ok a ∧ arr_bytes a = bs.
Proof.
  intros Hl. unfold copy_array. destruct (arr_try_from_length n bs Hl) as [a Ha].
  rewrite Ha. exists a. split; [done|]. by apply arr_try_from_Some in Ha.
Qed.

(** Field [i] of a layout, read at its offset. *)
Lemma slice_chunk chunks i c a b :
  chunks !! i = Some c → length (concat (take i chunks)) = a → length c = b - a →
  slice (concat chunks) a b = c.
Proof.
  intros Hi Ha Hb. rewrite <-(take_drop_middle chunks i c Hi), concat_app. cbn [concat].
  by apply slice_mid.
Qed.

Lemma byte_chunk chunks i x a :
  chunks !! i = Some [x] → length (concat (take i chunks)) = a → byte_at (concat chunks) a = Ok x.
Proof.
  intros Hi Ha. rewrite <-(take_drop_middle chunks i [x] Hi), concat_app. by apply byte_at_mid.
Qed.

(** The 33 bytes of an optional identifier. *)
Definition optional_bytes (o : option (arr 32)) : bytes :=
  match o with Some a => x01 :: arr_bytes a | None => x00 :: repeat x00 32 end.

Lemma encode_optional_app o bs : encode_optional_id o bs = bs ++ optional_bytes o.
Proof. by destruct o. Qed.

Definition optional_flag (o : option (arr 32)) : byte := match o with Some _ => x01 | None => x00 end.
Definition optional_body (o : option (arr 32)) : bytes :=
  match o with Some a => arr_bytes a | None => repeat x00 32 end.

Lemma optional_split o : optional_bytes o = optional_flag o :: optional_body o.
Proof. by destruct o. Qed.

Lemma length_optional_body o : length (optional_body o) = 32.
Proof. destruct o; [apply arr_length|done]. Qed.

Lemma decode_optional_ok o : decode_optional_id (optional_flag o) (optional_body o) = Ok o.
Proof.
  unfold decode_optional_id. destruct o as [a|]; cbn [optional_flag optional_body].
  - by rewrite copy_array_arr.
  - change (repeat x00 32) with (arr_bytes (arr_repeat 32 x00)) at 1. rewrite copy_array_arr.
    cbn [rbind]. by rewrite bool_decide_eq_true_2.
Qed.

Lemma state_code_ok s : migration_state_from_code (migration_state_code s) = Ok s.
Proof. by destruct s. Qed.
Lemma disposition_code_ok d : disposition_from_code (disposition_code d) = Ok d.
Proof. by destruct d. Qed.
Lemma actor_code_ok a : actor_from_code (actor_code a) = Ok a.
Proof. by destruct a. Qed.

Lemma is_some_iff {A} (o : option A) : is_some o = true ↔ o ≠ None.
Proof. by destruct o. Qed.
Lemma is_some_None {A} (o : option A) : is_some o = false ↔ o = None.
Proof. by destruct o. Qed.

(** * The layout of a record *)

Section facts.
Context `{Ed25519} `{Blake3Derive}.
Implicit Types (r p : ActivationRecord) (w : HighWater) (d : DeviceId).

Definition reason_valid (s : str) : Prop := validate_reason s = Ok tt.

Lemma reason_valid_len s : reason_valid s → (1 <= len s <= 256)%N.
Proof.
  unfold reason_valid, validate_reason. intros [Hl _]%rbind_unit_ok.
  apply fail_if_ok, negb_false_iff, andb_true_iff in Hl as [?%N.leb_le ?%N.leb_le].
  unfold MAX_ACTIVATION_REASON_BYTES in *. lia.
Qed.

Lemma plain_reason (s : str) : plain_text s = true → (1 <= len s <= 256)%N → reason_valid s.
Proof.
  intros Hp [H1 H2]. unfold reason_valid, validate_reason, MAX_ACTIVATION_REASON_BYTES.
  destruct (N.leb_spec 1 (len s)), (N.leb_spec (len s) 256); [|lia..]. cbn [andb negb fail_if rbind].
  rewrite (plain_trim s Hp), bool_decide_eq_false_2 by (intros Hc; by apply Hc). cbn [orb].
  unfold plain_text in Hp. apply andb_true_iff in Hp as [[Hp _]%andb_true_iff _].
  by rewrite printable_not_control.
Qed.

(** The signed part of a record, as one concatenation. *)
Definition record_content (r : ActivationRecord) : bytes :=
  ACTIVATION_RECORD_MAGIC ++ [ACTIVATION_RECORD_VERSION] ++ arr_bytes r.(local_device_id)
  ++ to_be_bytes 8 (uint_val r.(migration_epoch)) ++ optional_bytes r.(previous_record_id)
  ++ [migration_state_code r.(migration_state); disposition_code r.(disposition);
      actor_code r.(actor)]
  ++ optional_bytes r.(canonical_evidence_id) ++ to_be_bytes 2 (len r.(reason)) ++ as_bytes r.(reason).

Definition record_bytes (r : ActivationRecord) : bytes :=
  record_content r ++ arr_bytes r.(signature).

Lemma content_bytes_ok r bs :
  record_content_bytes r = Ok bs ↔ reason_valid r.(reason) ∧ bs = record_content r.
Proof.
  unfold record_content_bytes, record_content. cbv zeta. rewrite !rbind_unit_ok, fail_if_ok.
  rewrite !encode_optional_app, <-!app_assoc. cbn [app].
  split.
  - intros (Hr & _ & <-%Ok_inj). done.
  - intros [Hr ->]. split_and!; [done| |done]. apply reason_valid_len in Hr.
    apply N.leb_gt. lia.
Qed.

(** The record carries the signature of its device. *)
Definition record_signed (r : ActivationRecord) : Prop :=
  reason_valid r.(reason) ∧
  device_verify r.(local_device_id) (ACTIVATION_RECORD_SIGNATURE_DOMAIN ++ record_content r)
    (arr_bytes r.(signature)) = Ok tt.

Lemma record_signing_bytes_ok r bs :
  record_signing_bytes r = Ok bs ↔
  reason_valid r.(reason) ∧ bs = ACTIVATION_RECORD_SIGNATURE_DOMAIN ++ record_content r.
Proof.
  unfold record_signing_bytes. rewrite rbind_ok. setoid_rewrite content_bytes_ok. split.
  - intros (c & [Hr ->] & <-%Ok_inj). done.
  - intros [Hr ->]. eauto.
Qed.

Lemma record_verify_signature_ok r : record_verify_signature r = Ok tt ↔ record_signed r.
Proof.
  unfold record_verify_signature, record_signed. rewrite rbind_ok. setoid_rewrite record_signing_bytes_ok.
  setoid_rewrite map_err_ok. naive_solver.
Qed.

Lemma record_encode_ok r bs :
  record_encode r = Ok bs ↔ record_signed r ∧ bs = record_bytes r.
Proof.
  unfold record_encode. rewrite rbind_unit_ok, record_verify_signature_ok, rbind_ok.
  setoid_rewrite content_bytes_ok. unfold record_bytes. split.
  - intros (Hs & c & [Hr ->] & <-%Ok_inj). done.
  - intros [Hs ->]. split; [done|]. exists (record_content r). split; [|done].
    split; [apply Hs|done].
Qed.

Definition record_hash (r : ActivationRecord) : arr 32 :=
  derive_key ACTIVATION_RECORD_ID_CONTEXT (record_bytes r).

Lemma record_id_ok r id : record_id r = Ok id ↔ record_signed r ∧ id = record_hash r.
Proof.
  unfold record_id. rewrite rbind_ok. setoid_rewrite record_encode_ok. split.
  - intros (bs & [Hs ->] & <-%Ok_inj). done.
  - intros [Hs ->]. eauto.
Qed.

(** The fields of a record in the order of its bytes. *)
Definition record_chunks (r : ActivationRecord) : list bytes :=
  [ACTIVATION_RECORD_MAGIC; [ACTIVATION_RECORD_VERSION]; arr_bytes r.(local_device_id);
   to_be_bytes 8 (uint_val r.(migration_epoch));
   [optional_flag r.(previous_record_id)]; optional_body r.(previous_record_id);
   [migration_state_code r.(migration_state)]; [disposition_code r.(disposition)];
   [actor_code r.(actor)];
   [optional_flag r.(canonical_evidence_id)]; optional_body r.(canonical_evidence_id);
   to_be_bytes 2 (len r.(reason)); as_bytes r.(reason); arr_bytes r.(signature)].

Lemma length_record_magic : length ACTIVATION_RECORD_MAGIC = 16.
Proof. done. Qed.

(** The length of a part of a layout. *)
Ltac layout_length :=
  cbn [record_chunks take concat]; rewrite ?length_app, ?length_to_be_bytes, ?arr_length, ?length_optional_body,
    ?length_record_magic; cbn [length]; rewrite ?length_optional_body; lia.

Lemma length_record_bytes r :
  length (record_bytes r) = 192 + length (as_bytes r.(reason)).
Proof.
  unfold record_bytes, record_content. rewrite !optional_split. layout_length.
Qed.

(** The length of an encoded record, whatever its reason. *)
Lemma record_bytes_bounds r :
  record_signed r → (193 <= len (record_bytes r) <= MAX_ACTIVATION_RECORD_BYTES)%N.
Proof.
  intros Hs. pose proof (reason_valid_len _ (proj1 Hs)) as Hl. unfold len in *.
  rewrite length_record_bytes. unfold MAX_ACTIVATION_RECORD_BYTES, ACTIVATION_RECORD_FIXED_BYTES,
    MAX_ACTIVATION_REASON_BYTES. lia.
Qed.

(** ** Decoding *)

Lemma record_bytes_chunks r : record_bytes r = concat (record_chunks r).
Proof.
  unfold record_bytes, record_content, record_chunks. cbn [concat]. rewrite !optional_split.
  rewrite <-?app_assoc. cbn [app]. rewrite <-?app_assoc. by rewrite app_nil_r.
Qed.

(** Every field of a record read back from its bytes. *)
Lemma record_fields r (bs := record_bytes r) :
  slice bs 0 16 = ACTIVATION_RECORD_MAGIC ∧
  byte_at bs 16 = Ok ACTIVATION_RECORD_VERSION ∧
  slice bs 17 49 = arr_bytes r.(local_device_id) ∧
  slice bs 49 57 = to_be_bytes 8 (uint_val r.(migration_epoch)) ∧
  byte_at bs 57 = Ok (optional_flag r.(previous_record_id)) ∧
  slice bs 58 90 = optional_body r.(previous_record_id) ∧
  byte_at bs 90 = Ok (migration_state_code r.(migration_state)) ∧
  byte_at bs 91 = Ok (disposition_code r.(disposition)) ∧
  byte_at bs 92 = Ok (actor_code r.(actor)) ∧
  byte_at bs 93 = Ok (optional_flag r.(canonical_evidence_id)) ∧
  slice bs 94 126 = optional_body r.(canonical_evidence_id) ∧
  slice bs 126 128 = to_be_bytes 2 (len r.(reason)) ∧
  slice bs 128 (128 + length (as_bytes r.(reason))) = as_bytes r.(reason) ∧
  drop (128 + length (as_bytes r.(reason))) bs = arr_bytes r.(signature).
Proof.
  subst bs. rewrite record_bytes_chunks.
  split_and!.
  all: first
    [ apply (slice_chunk _ 0); [done|layout_length|done]
    | apply (byte_chunk _ 1); [done|layout_length]
    | apply (slice_chunk _ 2); [done|layout_length|layout_length]
    | apply (slice_chunk _ 3); [done|layout_length|layout_length]
    | apply (byte_chunk _ 4); [done|layout_length]
    | apply (slice_chunk _ 5); [done|layout_length|layout_length]
    | apply (byte_chunk _ 6); [done|layout_length]
    | apply (byte_chunk _ 7); [done|layout_length]
    | apply (byte_chunk _ 8); [done|layout_length]
    | apply (byte_chunk _ 9); [done|layout_length]
    | apply (slice_chunk _ 10); [done|layout_length|layout_length]
    | apply (slice_chunk _ 11); [done|layout_length|layout_length]
    | apply (slice_chunk _ 12); [done|layout_length|layout_length]
    | idtac ].
  rewrite <-(take_drop 13 (record_chunks r)), concat_app.
  replace (128 + _) with (length (concat (take 13 (record_chunks r)))) by layout_length.
  rewrite drop_app_length. cbn. apply app_nil_r.
Qed.

Lemma decode_of_encode r :
  record_signed r →
  record_decode_and_verify (record_bytes r) r.(local_device_id) = Ok r.
Proof.
  intros Hs. pose proof (reason_valid_len _ (proj1 Hs)) as Hl. unfold record_decode_and_verify.
  assert (len (record_bytes r) = 192 + len r.(reason))%N as Hn.
  { unfold len. rewrite length_record_bytes. lia. }
  rewrite Hn. unfold ACTIVATION_RECORD_FIXED_BYTES, MAX_ACTIVATION_RECORD_BYTES,
    MAX_ACTIVATION_REASON_BYTES, ACTIVATION_RECORD_FIXED_BYTES.
  destruct (N.ltb_spec (192 + len r.(reason)) 192); [lia|].
  destruct (N.ltb_spec (192 + 256) (192 + len r.(reason))); [lia|].
  cbn [orb fail_if rbind].
  destruct (record_fields r) as (F0 & F1 & F2 & F3 & F4 & F5 & F6 & F7 & F8 & F9 & F10 & F11 & F12 & F13).
  rewrite F0, bool_decide_eq_false_2 by (intros Hc; by apply Hc). cbn [fail_if rbind].
  rewrite F1. cbn [rbind]. rewrite bool_decide_eq_false_2 by (intros Hc; by apply Hc). cbn [fail_if rbind].
  rewrite F2, copy_array_arr. cbn [rbind].
  rewrite bool_decide_eq_false_2 by (intros Hc; by apply Hc). cbn [fail_if rbind].
  destruct (copy_array_length 8 (slice (record_bytes r) 49 57)) as (epoch & -> & Hepoch).
  { rewrite F3. apply length_to_be_bytes. }
  rewrite F3 in Hepoch. cbn [rbind]. rewrite F4. cbn [rbind]. rewrite F5, decode_optional_ok. cbn [rbind].
  rewrite F6. cbn [rbind]. rewrite state_code_ok. cbn [rbind].
  rewrite F7. cbn [rbind]. rewrite disposition_code_ok. cbn [rbind].
  rewrite F8. cbn [rbind]. rewrite actor_code_ok. cbn [rbind].
  rewrite F9. cbn [rbind]. rewrite F10, decode_optional_ok. cbn [rbind].
  destruct (copy_array_length 2 (slice (record_bytes r) 126 128)) as (rl & -> & Hrl).
  { rewrite F11. apply length_to_be_bytes. }
  rewrite F11 in Hrl. cbn [rbind]. rewrite Hrl, from_to_be_bytes, N.mod_small by (cbn; lia).
  rewrite usize_checked_add_small by lia. cbn [ok_or rbind].
  destruct (N.eqb_spec (128 + len r.(reason) + 64) (192 + len r.(reason))) as [_|]; [|lia].
  cbn [negb fail_if rbind].
  replace (N.to_nat (128 + len r.(reason))) with (128 + length (as_bytes r.(reason)))
    by (unfold len; lia).
  rewrite F12, from_utf8_bytes. cbn [ok_or rbind].
  rewrite (proj1 Hs : validate_reason _ = Ok tt). cbn [rbind]. rewrite F13, copy_array_arr. cbn [rbind].
  rewrite Hepoch, from_to_be_bytes, N.mod_small by (pose proof (uint_lt r.(migration_epoch)); cbn; lia).
  rewrite as_u64_id.
  replace (Build_ActivationRecord _ _ _ _ _ _ _ _ _) with r by (by destruct r).
  rewrite (proj2 (record_verify_signature_ok r) Hs). cbn [rbind].
  rewrite (proj2 (record_encode_ok r _) (conj Hs eq_refl)). cbn [rbind].
  by rewrite bool_decide_eq_false_2 by (intros Hc; by apply Hc).
Qed.

Lemma record_decode_exact bs d r :
  record_decode_and_verify bs d = Ok r ↔
  r.(local_device_id) = d ∧ record_signed r ∧ bs = record_bytes r.
Proof.
  split; [|intros (<- & Hs & ->); by apply decode_of_encode].
  unfold record_decode_and_verify. intros Hd.
  apply rbind_unit_ok in Hd as [_ Hd]. apply rbind_unit_ok in Hd as [_ Hd].
  apply rbind_ok in Hd as (version & _ & Hd). apply rbind_unit_ok in Hd as [_ Hd].
  apply rbind_ok in Hd as (device & _ & Hd). apply rbind_unit_ok in Hd as [Hdev Hd].
  apply fail_if_ok, bool_decide_eq_false, dec_stable in Hdev. subst device.
  repeat (cbv zeta in Hd; lazymatch type of Hd with
    | rbind (record_verify_signature _) _ = Ok _ => fail
    | rbind _ _ = Ok _ => apply rbind_ok in Hd as (? & _ & Hd)
    end).
  apply rbind_unit_ok in Hd as [_ Hd]. apply rbind_ok in Hd as (again & Henc & Hd).
  apply record_encode_ok in Henc as [Hs ->].
  apply rbind_unit_ok in Hd as [Heq%fail_if_ok%bool_decide_eq_false%dec_stable <-%Ok_inj]. done.
Qed.

(** ** High-water marks *)

Definition hw_bytes (w : HighWater) : bytes := hw_encode w.

Definition hw_signed (w : HighWater) : Prop :=
  device_verify w.(hw_device_id) (hw_signing_bytes w) (arr_bytes w.(hw_signature)) = Ok tt.

Definition hw_chunks (w : HighWater) : list bytes :=
  [ACTIVATION_HIGH_WATER_MAGIC; [ACTIVATION_HIGH_WATER_VERSION]; arr_bytes w.(hw_device_id);
   to_be_bytes 8 (uint_val w.(hw_epoch)); arr_bytes w.(hw_head_record_id);
   arr_bytes w.(hw_signature)].

Lemma hw_encode_chunks w : hw_encode w = concat (hw_chunks w).
Proof.
  unfold hw_encode, hw_content_bytes, hw_chunks. cbn [concat]. rewrite <-!app_assoc.
  by rewrite app_nil_r.
Qed.

Lemma hw_verify_signature_ok w : hw_verify_signature w = Ok tt ↔ hw_signed w.
Proof. unfold hw_verify_signature, hw_signed. apply map_err_ok. Qed.

Lemma length_hw_magic : length ACTIVATION_HIGH_WATER_MAGIC = 16.
Proof. done. Qed.

Ltac hw_length :=
  cbn [hw_chunks take concat]; rewrite ?length_app, ?length_to_be_bytes, ?arr_length,
    ?length_hw_magic; cbn [length]; lia.

Lemma hw_decode_of_encode w :
  hw_signed w → hw_decode_and_verify (hw_encode w) w.(hw_device_id) = Ok w.
Proof.
  intros Hs. unfold hw_decode_and_verify.
  assert (len (hw_encode w) = 153)%N as Hn.
  { rewrite hw_encode_chunks. unfold len. apply (f_equal N.of_nat (y:=153)). hw_length. }
  rewrite Hn. cbn [N.eqb Pos.eqb negb fail_if rbind ACTIVATION_HIGH_WATER_BYTES].
  assert (slice (hw_encode w) 0 16 = ACTIVATION_HIGH_WATER_MAGIC ∧
    byte_at (hw_encode w) 16 = Ok ACTIVATION_HIGH_WATER_VERSION ∧
    slice (hw_encode w) 17 49 = arr_bytes w.(hw_device_id) ∧
    slice (hw_encode w) 49 57 = to_be_bytes 8 (uint_val w.(hw_epoch)) ∧
    slice (hw_encode w) 57 89 = arr_bytes w.(hw_head_record_id) ∧
    slice (hw_encode w) 89 153 = arr_bytes w.(hw_signature)) as (F0 & F1 & F2 & F3 & F4 & F5).
  { rewrite hw_encode_chunks. split_and!.
    - apply (slice_chunk _ 0); [done|hw_length|hw_length].
    - apply (byte_chunk _ 1); [done|hw_length].
    - apply (slice_chunk _ 2); [done|hw_length|hw_length].
    - apply (slice_chunk _ 3); [done|hw_length|hw_length].
    - apply (slice_chunk _ 4); [done|hw_length|hw_length].
    - apply (slice_chunk _ 5); [done|hw_length|hw_length]. }
  rewrite F0, bool_decide_eq_false_2 by (intros Hc; by apply Hc). cbn [fail_if rbind].
  rewrite F1. cbn [rbind]. rewrite bool_decide_eq_false_2 by (intros Hc; by apply Hc). cbn [fail_if rbind].
  rewrite F2, copy_array_arr. cbn [rbind].
  rewrite bool_decide_eq_false_2 by (intros Hc; by apply Hc). cbn [fail_if rbind].
  destruct (copy_array_length 8 (slice (hw_encode w) 49 57)) as (epoch & -> & Hepoch).
  { rewrite F3. apply length_to_be_bytes. }
  rewrite F3 in Hepoch. cbn [rbind]. rewrite F4, copy_array_arr. cbn [rbind].
  rewrite F5, copy_array_arr. cbn [rbind].
  rewrite Hepoch, from_to_be_bytes, N.mod_small by (pose proof (uint_lt w.(hw_epoch)); cbn; lia).
  rewrite as_u64_id. replace (Build_HighWater _ _ _ _) with w by (by destruct w).
  rewrite (proj2 (hw_verify_signature_ok w) Hs). cbn [rbind].
  by rewrite bool_decide_eq_false_2 by (intros Hc; by apply Hc).
Qed.

Lemma hw_decode_exact bs d w :
  hw_decode_and_verify bs d = Ok w ↔ w.(hw_device_id) = d ∧ hw_signed w ∧ bs = hw_encode w.
Proof.
  split; [|intros (<- & Hs & ->); by apply hw_decode_of_encode].
  unfold hw_decode_and_verify. intros Hd.
  apply rbind_unit_ok in Hd as [_ Hd]. apply rbind_unit_ok in Hd as [_ Hd].
  apply rbind_ok in Hd as (version & _ & Hd). apply rbind_unit_ok in Hd as [_ Hd].
  apply rbind_ok in Hd as (device & _ & Hd).
  apply rbind_unit_ok in Hd as [Hdev%fail_if_ok%bool_decide_eq_false%dec_stable Hd]. subst device.
  apply rbind_ok in Hd as (epoch & _ & Hd). apply rbind_ok in Hd as (head & _ & Hd).
  apply rbind_ok in Hd as (sig & _ & Hd). cbv zeta in Hd.
  apply rbind_unit_ok in Hd as [Hs%hw_verify_signature_ok Hd].
  apply rbind_unit_ok in Hd as [Heq%fail_if_ok%bool_decide_eq_false%dec_stable <-%Ok_inj]. done.
Qed.

(** ** Every index is in range *)

Lemma rbind_not_err {E A B} (m : result E A) (k : A → result E B) e :
  m ≠ Err e → (∀ a, m = Ok a → k a ≠ Err e) → rbind m k ≠ Err e.
Proof. destruct m as [a|e']; cbn [rbind]; [|congruence]. intros _ Hk. by apply Hk. Qed.

Lemma byte_in_range bs i : i < length bs → byte_at bs i ≠ Err FixedWidthField.
Proof.
  intros Hi. destruct (lookup_lt_is_Some_2 bs i Hi) as [x Hx].
  rewrite <-(take_drop_middle bs i x Hx), byte_at_mid; [done|]. rewrite length_take. lia.
Qed.

Lemma copy_in_range n bs : length bs = n → copy_array n bs ≠ Err FixedWidthField.
Proof. intros Hl. by destruct (copy_array_length n bs Hl) as (a & -> & _). Qed.

Lemma slice_in_range bs a b : b <= length bs → length (slice bs a b) = b - a.
Proof. intros Hb. unfold slice. rewrite length_take, length_drop. lia. Qed.

Lemma optional_in_range flag bs : length bs = 32 → decode_optional_id flag bs ≠ Err FixedWidthField.
Proof.
  intros Hl. unfold decode_optional_id. destruct (copy_array_length 32 bs Hl) as (a & -> & _).
  cbn [rbind]. repeat case_match; congruence.
Qed.

Lemma code_in_range :
  (∀ b, migration_state_from_code b ≠ Err FixedWidthField) ∧
  (∀ b, disposition_from_code b ≠ Err FixedWidthField) ∧
  (∀ b, actor_from_code b ≠ Err FixedWidthField).
Proof. split_and!; intros []; done. Qed.

Lemma signature_in_range r : record_verify_signature r ≠ Err FixedWidthField.
Proof.
  unfold record_verify_signature, record_signing_bytes, record_content_bytes, validate_reason, fail_if.
  repeat case_match; cbn [rbind]; try congruence; by destruct (device_verify _ _ _).
Qed.

(** Decoding never panics: once the length checks have passed, every index and slice the decoder
    takes of its input is in range. *)
Lemma decode_in_range bs d : record_decode_and_verify bs d ≠ Err FixedWidthField.
Proof.
  unfold record_decode_and_verify. destruct (fail_if _ _) as [[]|e] eqn:Hl; cbn [rbind].
  2: { unfold fail_if in Hl. case_match; congruence. }
  apply fail_if_ok, orb_false_iff in Hl as [Hl%N.ltb_ge Hu%N.ltb_ge].
  unfold ACTIVATION_RECORD_FIXED_BYTES, len in Hl. assert (192 <= length bs) as Hl' by lia. clear Hl.
  destruct code_in_range as (C1 & C2 & C3).
  repeat (cbv zeta; lazymatch goal with |- rbind _ _ ≠ _ => apply rbind_not_err; [| intros ? ?] end);
    lazymatch goal with
    | |- fail_if _ _ ≠ _ => by unfold fail_if; case_match
    | |- byte_at _ _ ≠ _ => apply byte_in_range; lia
    | |- copy_array 64 _ ≠ _ => idtac
    | |- copy_array _ _ ≠ _ => apply copy_in_range, slice_in_range; lia
    | |- decode_optional_id _ _ ≠ _ => apply optional_in_range, slice_in_range; lia
    | |- ok_or _ _ ≠ _ => by unfold ok_or; case_match
    | |- validate_reason _ ≠ _ => by unfold validate_reason, fail_if; repeat case_match
    | |- record_verify_signature _ ≠ _ => apply signature_in_range
    | _ => first [done | idtac]
    end.
  - apply copy_in_range. rewrite length_drop.
    match goal with Hg : fail_if (negb _) _ = Ok ?u |- _ => destruct u; apply fail_if_ok in Hg as Hn end.
    apply negb_false_iff, N.eqb_eq in Hn. unfold len in Hn. lia.
  - unfold record_encode. apply rbind_not_err; [apply signature_in_range|]. intros _ _.
    apply rbind_not_err; [|done].
    unfold record_content_bytes, validate_reason, fail_if. by repeat case_match.
Qed.
End facts.
