(* ===== verification/ActivationChain.v ===== *)
(** The activation state machine and its chains.

    [astep] is what the check of a record against its predecessor allows
    ([transition_exact]); [achain] are the record chains of a device, newest
    first.  A set of records verifies exactly when it is such a chain in some
    order ([verify_chain_ok]); a chain runs the state machine, so evidence
    once bound stays bound and a selected session can always be resumed; the
    device can issue exactly the steps of the machine ([issue_exact]); and the
    newest record, or the high-water mark of it, determines the whole chain. *)

From stdpp Require Import base tactics list numbers strings relations sorting.
From Stdlib Require Import Strings.Byte Sorting.Sorted.
From S2P Require Import Prelude Crypto Text Identity HashChain Activation ActivationFacts.

(** * The state machine *)

(** What a record says about the device: state, disposition, evidence. *)
Record view := { vw_state : MigrationState; vw_disposition : Disposition; vw_evidence : option (arr 32) }.

Definition initial_view : view :=
  {| vw_state := LegacyOnly; vw_disposition := Normal; vw_evidence := None |}.

Definition view_of (r : ActivationRecord) : view :=
  {| vw_state := r.(migration_state); vw_disposition := r.(disposition);
     vw_evidence := r.(canonical_evidence_id) |}.

Definition head_view (previous : option ActivationRecord) : view :=
  match previous with Some p => view_of p | None => initial_view end.

(** Combinations that have permissions. *)
Definition permitted (v : view) : Prop :=
  (v.(vw_evidence) ≠ None → canonical_state v.(vw_state) = true) ∧
  (v.(vw_disposition) = EmergencyContainment → v.(vw_evidence) ≠ None).

Definition next_state (s : MigrationState) : option MigrationState :=
  match s with
  | LegacyOnly => Some AdvertiseCanonicalV2
  | AdvertiseCanonicalV2 => Some DualReaderPreferLegacy
  | DualReaderPreferLegacy => Some DualReaderPreferCanonical
  | DualReaderPreferCanonical => Some CanonicalRequired
  | CanonicalRequired => None
  end.

Inductive astep : view → view → Prop :=
(** One state forward, in normal operation; the evidence is kept. *)
| step_advance s s' e :
    next_state s = Some s' →
    astep {| vw_state := s; vw_disposition := Normal; vw_evidence := e |}
          {| vw_state := s'; vw_disposition := Normal; vw_evidence := e |}
(** One state back, only before there is evidence. *)
| step_retreat s s' :
    next_state s' = Some s →
    astep {| vw_state := s; vw_disposition := Normal; vw_evidence := None |}
          {| vw_state := s'; vw_disposition := Normal; vw_evidence := None |}
(** The first canonical session binds its evidence. *)
| step_observe s e :
    canonical_state s = true →
    astep {| vw_state := s; vw_disposition := Normal; vw_evidence := None |}
          {| vw_state := s; vw_disposition := Normal; vw_evidence := Some e |}
(** Containment, with the evidence bound before or in the same record. *)
| step_contain s o e :
    canonical_state s = true → o = None ∨ o = Some e →
    astep {| vw_state := s; vw_disposition := Normal; vw_evidence := o |}
          {| vw_state := s; vw_disposition := EmergencyContainment; vw_evidence := Some e |}
(** Recovery from containment changes nothing else. *)
| step_recover s e :
    astep {| vw_state := s; vw_disposition := EmergencyContainment; vw_evidence := Some e |}
          {| vw_state := s; vw_disposition := Normal; vw_evidence := Some e |}.

Lemma next_state_rank s s' :
  next_state s = Some s' ↔ migration_state_rank s' = (migration_state_rank s + 1)%N.
Proof. destruct s, s'; cbn; split; try done; discriminate. Qed.

Lemma permissions_ok s d e :
  (∃ q, evaluate_permissions s d (is_some e) = Ok q) ↔
  permitted {| vw_state := s; vw_disposition := d; vw_evidence := e |}.
Proof.
  unfold permitted, evaluate_permissions; cbn [vw_state vw_disposition vw_evidence].
  destruct e as [e|], s, d; cbn; split; try (by intros []); try (by eauto);
    try (intros _; split; done); intros [H1 H2]; first [by eauto | by discriminate H1 | by destruct H2].
Qed.

(** The part of the check that looks at states, dispositions and evidence. *)
Definition view_check (r : ActivationRecord) (v : view) : Prop :=
  (v.(vw_evidence) ≠ None → r.(canonical_evidence_id) = v.(vw_evidence)) ∧
  check_transition r v.(vw_state) v.(vw_disposition) v.(vw_evidence) = Ok tt.

Lemma view_check_step r v :
  permitted v → permitted (view_of r) → view_check r v ↔ astep v (view_of r).
Proof.
  destruct v as [s d e], r as [dev ep prev s' d' a e' re sg]. unfold view_check, view_of, permitted.
  cbn [vw_state vw_disposition vw_evidence migration_state disposition canonical_evidence_id].
  intros [_ Hv2] [Hr1 Hr2]. split.
  - intros [He Hc]. destruct e as [x|].
    + rewrite (He ltac:(done)) in *.
      destruct s, s', d, d'; first
        [ discriminate Hc | by discriminate (Hr1 ltac:(done))
        | by apply step_advance | by apply step_contain; [|right] | by apply step_recover ].
    + destruct d; [|by destruct (Hv2 eq_refl)]. destruct e' as [x|].
      * destruct s, s', d'; first
          [ discriminate Hc | by discriminate (Hr1 ltac:(done))
          | by apply step_observe | by apply step_contain; [|left] ].
      * destruct d'; [|by destruct (Hr2 eq_refl)].
        destruct s, s'; first [discriminate Hc | by apply step_advance | by apply step_retreat].
  - intros Hs. inversion Hs as [? ? ? Hn|? ? Hn|? ? Hn|? ? x Hn Ho|]; subst.
    + split; [done|]. destruct s, s'; try discriminate Hn; by destruct e'.
    + split; [done|]. by destruct s, s'.
    + split; [done|]. by destruct s'.
    + split; [by destruct Ho as [-> | ->]|]. destruct Ho as [-> | ->]; by destruct s'.
    + split; [done|]. destruct s'; by first [discriminate (Hr1 ltac:(done)) | done].
Qed.

Lemma initial_permitted : permitted initial_view.
Proof. by split. Qed.

Lemma next_canonical s s' : next_state s = Some s' → canonical_state s = true → canonical_state s' = true.
Proof. by destruct s, s'. Qed.

Lemma astep_permitted v v' : permitted v → astep v v' → permitted v'.
Proof.
  unfold permitted. intros [H1 H2] Hs.
  destruct Hs; cbn in *; split; try done; eauto using next_canonical.
Qed.

(** ** The transition check *)

Section chain.
Context `{Ed25519} `{Blake3Derive}.
Implicit Types (r p : ActivationRecord) (l : list ActivationRecord) (d : DeviceId).

(** The record names its predecessor and continues its count. *)
Definition linked (r : ActivationRecord) (previous : option ActivationRecord) : Prop :=
  match previous with
  | Some p =>
      record_signed p ∧ p.(local_device_id) = r.(local_device_id) ∧
      uint_val r.(migration_epoch) = (uint_val p.(migration_epoch) + 1)%N ∧
      r.(previous_record_id) = Some (record_hash p)
  | None => uint_val r.(migration_epoch) = 1%N ∧ r.(previous_record_id) = None
  end.

Lemma as_u64_one : uint_val (as_u64 1) = 1%N.
Proof. done. Qed.

Lemma next_epoch_ok p e : next_epoch p = Ok e ↔ uint_val e = (uint_val p.(migration_epoch) + 1)%N.
Proof.
  unfold next_epoch. rewrite ok_or_ok. unfold u64_checked_add. rewrite as_u64_one.
  destruct (N.ltb_spec (uint_val p.(migration_epoch) + 1) U64_BOUND) as [Hl|Hl].
  - split; [intros [= <-]; by apply as_u64_small|]. intros E. f_equal. apply uint_eq.
    by rewrite as_u64_small.
  - split; [done|]. intros E. pose proof (uint_lt e). lia.
Qed.

Lemma record_expected_ok r previous x :
  record_expected r previous = Ok x ↔
  match previous with
  | Some p =>
      record_signed p ∧ p.(local_device_id) = r.(local_device_id) ∧
      ∃ e, uint_val e = (uint_val p.(migration_epoch) + 1)%N ∧
           x = (e, Some (record_hash p), p.(migration_state), p.(disposition),
                p.(canonical_evidence_id))
  | None => x = (as_u64 1, None, LegacyOnly, Normal, None)
  end.
Proof.
  destruct previous as [p|]; cbn [record_expected]; [|split; [by intros <-%Ok_inj|by intros ->]].
  rewrite !rbind_unit_ok, record_verify_signature_ok, fail_if_ok, bool_decide_eq_false, rbind_ok.
  split.
  - intros (Hs & Hd%dec_stable & e & He%next_epoch_ok & Hi).
    apply rbind_ok in Hi as (id & [_ ->]%record_id_ok & <-%Ok_inj). eauto.
  - intros (Hs & Hd & e & He & ->). split_and!; [done|by intros Hc; apply Hc|]. exists e.
    split; [by apply next_epoch_ok|]. rewrite (proj2 (record_id_ok p _) (conj Hs eq_refl)). done.
Qed.

Lemma transition_checks r previous :
  record_verify_transition r previous = Ok tt ↔
  reason_valid r.(reason) ∧ permitted (view_of r) ∧ linked r previous ∧
  view_check r (head_view previous).
Proof.
  unfold record_verify_transition. rewrite rbind_unit_ok, rbind_ok. setoid_rewrite map_err_ok.
  unfold view_of at 1. rewrite <-permissions_ok. split.
  - intros (Hr & q & Hq & Hx). apply rbind_ok in Hx as (x & Hx & Hc).
    destruct x as [[[[e id] s] d'] ev].
    apply rbind_unit_ok in Hc as [Hep%fail_if_ok%bool_decide_eq_false%dec_stable Hc].
    apply rbind_unit_ok in Hc as [Hid%fail_if_ok%bool_decide_eq_false%dec_stable Hc].
    apply rbind_unit_ok in Hc as [Hev%fail_if_ok Hc].
    split_and!; [done|by eauto| |].
    + apply record_expected_ok in Hx. destruct previous as [p|]; cbn [linked].
      * destruct Hx as (Hs & Hd & e' & He & [= -> -> -> -> ->]). rewrite Hep. done.
      * injection Hx as -> -> -> -> ->. rewrite Hep. done.
    + unfold view_check. apply andb_false_iff in Hev.
      apply record_expected_ok in Hx. destruct previous as [p|]; cbn [head_view view_of vw_state vw_disposition vw_evidence initial_view].
      * destruct Hx as (_ & _ & e' & _ & [= -> -> -> -> ->]). split; [|done]. intros Hn.
        destruct Hev as [Hev|Hev%bool_decide_eq_false%dec_stable]; [|done].
        by apply is_some_None in Hev.
      * injection Hx as -> -> -> -> ->. done.
  - intros (Hr & [q Hq] & Hl & Hv). split; [done|]. exists q. split; [done|]. apply rbind_ok.
    destruct previous as [p|]; cbn [linked head_view] in Hl, Hv; destruct Hv as [Hv1 Hv2].
    + destruct Hl as (Hs & Hd & He & Hid).
      exists (r.(migration_epoch), Some (record_hash p), p.(migration_state), p.(disposition),
              p.(canonical_evidence_id)). split; [apply record_expected_ok; eauto|].
      rewrite bool_decide_eq_false_2 by (intros Hc; by apply Hc). cbn [fail_if rbind].
      rewrite Hid, bool_decide_eq_false_2 by (intros Hc; by apply Hc). cbn [fail_if rbind].
      cbn [view_of vw_evidence vw_state vw_disposition] in *. rewrite Hv2.
      destruct p.(canonical_evidence_id) as [x|]; [|done].
      rewrite (Hv1 ltac:(done)), bool_decide_eq_false_2 by (intros Hc; by apply Hc). done.
    + destruct Hl as [He Hid]. exists (as_u64 1, None, LegacyOnly, Normal, None). split; [done|].
      rewrite bool_decide_eq_false_2 by (intros Hc; apply Hc; by apply uint_eq). cbn [fail_if rbind].
      rewrite Hid. done.
Qed.

Lemma transition_exact r previous :
  permitted (head_view previous) →
  record_verify_transition r previous = Ok tt ↔
  reason_valid r.(reason) ∧ linked r previous ∧ astep (head_view previous) (view_of r).
Proof.
  intros Hp. rewrite transition_checks. split.
  - intros (Hr & Hpr & Hl & Hv). split_and!; [done..|]. by apply view_check_step.
  - intros (Hr & Hl & Hs). assert (permitted (view_of r)) as Hpr by eauto using astep_permitted.
    split_and!; [done..|]. by apply view_check_step.
Qed.

(** * Chains *)

(** The record chains of device [d], newest first. *)
Inductive achain (d : DeviceId) : list ActivationRecord → Prop :=
| achain_nil : achain d []
| achain_cons r l :
    achain d l → r.(local_device_id) = d → record_signed r → linked r (head l) →
    astep (head_view (head l)) (view_of r) → achain d (r :: l).

Lemma achain_permitted d l : achain d l → permitted (head_view (head l)).
Proof.
  induction 1; [apply initial_permitted|]. cbn [head head_view]. by eapply astep_permitted.
Qed.

Lemma achain_transition d r l :
  achain d l → r.(local_device_id) = d → record_signed r →
  record_verify_transition r (head l) = Ok tt ↔ achain d (r :: l).
Proof.
  intros Hl Hd Hs. rewrite transition_exact by by eapply achain_permitted. split.
  - intros (_ & Hk & Ha). by constructor.
  - inversion 1; subst. split_and!; [|done..]. apply Hs.
Qed.

Lemma verify_records_chain d rs l :
  achain d l → verify_records d (head l) rs = Ok tt ↔ achain d (rev rs ++ l).
Proof.
  revert l. induction rs as [|r rs IH]; intros l Hl; cbn [verify_records rev app].
  { split; [done|]. by intros _. }
  rewrite !rbind_unit_ok, fail_if_ok, bool_decide_eq_false, record_verify_signature_ok, <-app_assoc.
  cbn [app]. split.
  - intros (Hd%dec_stable & Hs & Ht & Hr). apply (achain_transition d) in Ht; [|done..].
    by apply (IH (r :: l)).
  - intros Hc. assert (achain d (r :: l)) as Hr.
    { clear -Hc. induction (rev rs) as [|x t IHt]; [done|]. inversion Hc; subst. by apply IHt. }
    inversion Hr as [|? ? ? Hd Hs]; subst. split_and!; [by intros Hx; apply Hx|done| |by apply (IH (r :: l))].
    by apply (achain_transition r.(local_device_id)).
Qed.

(** The epoch of a record is its position. *)
Lemma achain_epoch d r l : achain d (r :: l) → uint_val r.(migration_epoch) = len (r :: l).
Proof.
  revert r. induction l as [|p l IH]; inversion 1 as [|? ? Hl Hd Hs Hk]; subst; cbn [head linked] in Hk.
  - by destruct Hk as [-> _].
  - destruct Hk as (_ & _ & -> & _). rewrite (IH p Hl), !len_cons. lia.
Qed.

Lemma achain_suffix d l1 l2 : achain d (l1 ++ l2) → achain d l2.
Proof. induction l1 as [|x l1 IH]; [done|]. inversion 1; subst. by apply IH. Qed.

Lemma achain_epochs_below d r l :
  achain d (r :: l) → Forall (fun p => ord_lt p.(migration_epoch) r.(migration_epoch)) l.
Proof.
  intros Hc. apply Forall_forall. intros p Hp. apply list_elem_of_split in Hp as (l1 & l2 & ->).
  pose proof (achain_epoch _ _ _ Hc) as E1.
  pose proof (achain_epoch _ _ _ (achain_suffix d (r :: l1) _ Hc)) as E2.
  apply N.compare_lt_iff. rewrite E1, E2, !len_cons, len_app, len_cons. lia.
Qed.

Lemma achain_sorted d l :
  achain d l → StronglySorted ord_lt (map migration_epoch (rev l)).
Proof.
  induction l as [|r l IH]; intros Hc; [constructor|]. cbn [rev]. rewrite map_app.
  pose proof (achain_epochs_below _ _ _ Hc) as Hb. inversion Hc; subst.
  apply StronglySorted_app_2; [|by apply IH|by repeat constructor].
  intros e e' (p & -> & Hp)%list_elem_of_fmap ->%list_elem_of_singleton.
  rewrite Forall_forall in Hb. apply Hb. by rewrite <-(Permutation_rev l) in Hp.
Qed.

(** [verify_chain] accepts a set of records exactly when it is a chain. *)
Lemma verify_chain_ok records d h :
  verify_chain records d = Ok h ↔ ∃ l, records ≡ₚ l ∧ achain d l ∧ h = head l.
Proof.
  assert (∀ l, head l = last (rev l)) as Hlast.
  { intros l. rewrite <-head_rev_last. by rewrite rev_involutive. }
  split.
  - unfold verify_chain. destruct records as [|x records]; [intros <-%Ok_inj; exists []; by repeat constructor|].
    intros [Hv <-%Ok_inj]%rbind_unit_ok. set (ordered := sort_by_key _ _) in *.
    exists (rev ordered). split_and!.
    + rewrite <-Permutation_rev. symmetry. apply sort_by_key_perm.
    + apply (verify_records_chain d _ []) in Hv; [|constructor]. by rewrite app_nil_r in Hv.
    + by rewrite Hlast, rev_involutive.
  - intros (l & Hp & Hc & ->). unfold verify_chain.
    destruct records as [|x records]; [apply Permutation_nil in Hp as ->; done|].
    rewrite (sort_by_key_unique migration_epoch _ (rev l)); [|by eapply achain_sorted|by rewrite <-Permutation_rev].
    assert (verify_records d None (rev l) = Ok tt) as ->.
    { apply (verify_records_chain d (rev l) []); [constructor|]. by rewrite rev_involutive, app_nil_r. }
    cbn [rbind]. by rewrite <-Hlast.
Qed.

(** ** What holds along a chain *)

Lemma astep_rank v v' :
  astep v v' → (migration_state_rank v'.(vw_state) <= migration_state_rank v.(vw_state) + 1)%N.
Proof.
  destruct 1 as [? ? ? Hn|? ? Hn| | |]; cbn [vw_state]; try apply next_state_rank in Hn; lia.
Qed.

(** Evidence stays, and the state does not fall below the one it was seen in. *)
Lemma astep_evidence v v' e :
  astep v v' → v.(vw_evidence) = Some e →
  v'.(vw_evidence) = Some e ∧ (migration_state_rank v.(vw_state) <= migration_state_rank v'.(vw_state))%N.
Proof.
  destruct 1 as [? ? ? Hn|? ? Hn| |? ? ? ? Ho|]; cbn; try done.
  - intros ->. apply next_state_rank in Hn. split; [done|lia].
  - intros ->. by destruct Ho as [|[= ->]].
Qed.

Lemma achain_steps d newer l :
  achain d (newer ++ l) → rtc astep (head_view (head l)) (head_view (head (newer ++ l))).
Proof.
  induction newer as [|r newer IH]; [done|]. inversion 1; subst. eapply rtc_r; [by apply IH|done].
Qed.

Lemma steps_evidence v v' e :
  rtc astep v v' → v.(vw_evidence) = Some e →
  v'.(vw_evidence) = Some e ∧ (migration_state_rank v.(vw_state) <= migration_state_rank v'.(vw_state))%N.
Proof.
  induction 1 as [|v v1 v2 Hs _ IH]; [done|]. intros He. destruct (astep_evidence _ _ _ Hs He) as [He1 Hr1].
  destruct (IH He1) as [He2 Hr2]. split; [done|lia].
Qed.

Lemma achain_rank d l :
  achain d l → (migration_state_rank (head_view (head l)).(vw_state) <= len l)%N.
Proof.
  induction 1 as [|r l Hl IH Hd Hs Hk Ha]; [done|]. apply astep_rank in Ha. rewrite len_cons.
  cbn [head head_view]. lia.
Qed.

(** Evidence allows a selected session to be resumed, in every state. *)
Lemma evidence_resume r :
  permitted (view_of r) → r.(canonical_evidence_id) ≠ None →
  ∃ q, record_permissions r = Ok q ∧ q.(resume_selected_canonical_session) = true ∧
       q.(register_canonical_alpn) = true.
Proof.
  intros [Hp _] He. specialize (Hp He). cbn [view_of vw_state] in Hp. unfold record_permissions.
  destruct (r.(canonical_evidence_id)); [|done].
  destruct r.(migration_state), r.(disposition); try discriminate Hp; by eexists.
Qed.

(** ** Issuing *)

Lemma linked_with_signature r sg previous : linked (with_signature r sg) previous ↔ linked r previous.
Proof. by destruct previous. Qed.

Lemma previous_id_ok d l id :
  achain d l → record_id_of (head l) = Ok id ↔ id = option_map record_hash (head l).
Proof.
  intros Hc. destruct l as [|p l]; cbn [head record_id_of option_map]; [split; [by intros <-%Ok_inj|by intros ->]|].
  inversion Hc as [|? ? ? ? Hs]; subst. rewrite (proj2 (record_id_ok p _) (conj Hs eq_refl)). cbn [rbind].
  split; [by intros <-%Ok_inj|by intros ->].
Qed.

Lemma issue_inv i l s dp a e re r :
  achain (device_id i) l → record_issue i (head l) s dp a e re = Ok r →
  achain (device_id i) (r :: l) ∧
  view_of r = {| vw_state := s; vw_disposition := dp; vw_evidence := e |} ∧
  r.(actor) = a ∧ r.(reason) = re.
Proof.
  intros Hc Hi. unfold record_issue in Hi. apply rbind_unit_ok in Hi as [Hr Hi].
  apply rbind_ok in Hi as (ep & _ & Hi). apply rbind_ok in Hi as (id & _ & Hi). cbv zeta in Hi.
  apply rbind_unit_ok in Hi as [Ht Hi]. apply rbind_ok in Hi as (m & _ & Hi).
  apply rbind_unit_ok in Hi as [Hs%record_verify_signature_ok <-%Ok_inj].
  apply transition_exact in Ht as (_ & Hk & Ha); [|by eapply achain_permitted].
  split; [|done]. by constructor.
Qed.

Lemma issue_ok `{!Ed25519Laws H} i l v a re :
  achain (device_id i) l → (len l + 1 < U64_BOUND)%N → reason_valid re →
  astep (head_view (head l)) v →
  ∃ r, record_issue i (head l) v.(vw_state) v.(vw_disposition) a v.(vw_evidence) re = Ok r.
Proof.
  intros Hc Hl Hr Ha. unfold record_issue. rewrite (Hr : validate_reason re = Ok tt). cbn [rbind].
  assert (∃ ep, match head l with Some p => next_epoch p | None => Ok (as_u64 1) end = Ok ep ∧
    uint_val ep = (len l + 1)%N) as (ep & -> & Hep).
  { destruct l as [|p l]; cbn [head]; [by exists (as_u64 1)|].
    exists (as_u64 (len (p :: l) + 1)). rewrite as_u64_small by done. split; [|done].
    apply next_epoch_ok. by rewrite as_u64_small, (achain_epoch _ _ _ Hc). }
  cbn [rbind]. rewrite (proj2 (previous_id_ok _ _ _ Hc) eq_refl). cbn [rbind].
  set (record := Build_ActivationRecord _ _ _ _ _ _ _ _ _).
  assert (record_verify_transition record (head l) = Ok tt) as ->.
  { apply transition_exact; [by eapply achain_permitted|]. split_and!; [done| |by destruct v].
    destruct l as [|p l]; cbn [head linked option_map]; [by split; [exact Hep|]|].
    inversion Hc as [|? ? ? Hd Hs]; subst. split_and!; [done|done| |done].
    rewrite (achain_epoch _ _ _ Hc). exact Hep. }
  cbn [rbind]. rewrite (proj2 (record_signing_bytes_ok record _) (conj Hr eq_refl)). cbn [rbind].
  set (signed := with_signature _ _).
  assert (record_verify_signature signed = Ok tt) as ->; [|by eexists].
  apply record_verify_signature_ok. split; [done|]. apply device_signed_verifies.
Qed.

(** ** The newest record determines the chain *)

Lemma record_bytes_inj r r' :
  record_signed r → record_signed r' → record_bytes r = record_bytes r' → r = r'.
Proof.
  intros Hs Hs' E. pose proof (decode_of_encode r Hs) as D. pose proof (decode_of_encode r' Hs') as D'.
  assert (r.(local_device_id) = r'.(local_device_id)) as Ed.
  { apply arr_eq. destruct (record_fields r) as (_ & _ & <- & _).
    destruct (record_fields r') as (_ & _ & <- & _). by rewrite E. }
  rewrite E, Ed in D. congruence.
Qed.

#[local] Instance record_blake3 : Blake3 := {| blake3 := derive_key ACTIVATION_RECORD_ID_CONTEXT |}.

#[local, refine] Instance activation_hash_chain : HashChain ActivationRecord := {|
  chain_valid := fun r => record_signed r ∧ (1 <= uint_val r.(migration_epoch))%N;
  chain_successor := fun p s =>
    (record_signed p ∧ (1 <= uint_val p.(migration_epoch))%N) ∧ linked s (Some p);
  chain_sequence := migration_epoch;
  chain_link := previous_record_id;
  chain_preimage := record_bytes
|}.
Proof.
  - by intros p s [? _].
  - by intros p s (_ & _ & _ & ? & _).
  - by intros p s (_ & _ & _ & _ & ?).
  - by intros r [_ ?].
  - intros r r' [? _] [? _]. by apply record_bytes_inj.
Defined.

Lemma achain_history d r l : achain d (r :: l) → history (r :: l).
Proof.
  revert r. induction l as [|p l IH]; intros r Hc; pose proof (achain_epoch _ _ _ Hc) as He;
    inversion Hc as [|? ? Hl Hd Hs Hk]; subst.
  - apply history_first; [split; [done|by rewrite He]|exact He].
  - apply history_next; [by apply IH|]. split; [|done]. split; [by inversion Hl|].
    rewrite (achain_epoch _ _ _ Hl), len_cons. lia.
Qed.

(** No two of these records have the same identifier. *)
Definition ids_distinct (l l' : list ActivationRecord) : Prop :=
  ∀ p q, p ∈ l → q ∈ l' → record_hash p = record_hash q → record_bytes p = record_bytes q.

Lemma chain_unique d d' r l l' :
  achain d (r :: l) → achain d' (r :: l') → ids_distinct l l' → l = l'.
Proof.
  intros Hl Hl' Hi. eapply history_unique; [by eapply achain_history..|]. exact Hi.
Qed.

(** ** High-water marks *)

(** The mark of the newest record of a chain. *)
Definition marks (w : HighWater) (r : ActivationRecord) : Prop :=
  hw_signed w ∧ w.(hw_device_id) = r.(local_device_id) ∧ w.(hw_epoch) = r.(migration_epoch) ∧
  w.(hw_head_record_id) = record_hash r.

Definition marked (hw : option HighWater) (h : option ActivationRecord) : Prop :=
  match h, hw with
  | None, None => True
  | Some r, Some w => marks w r
  | _, _ => False
  end.

Lemma hw_issue_ok `{!Ed25519Laws H} i r :
  record_signed r → r.(local_device_id) = device_id i → ∃ w, hw_issue i r = Ok w ∧ marks w r.
Proof.
  intros Hs Hd. unfold hw_issue. rewrite bool_decide_eq_false_2 by (intros Hc; by apply Hc).
  cbn [fail_if rbind]. rewrite (proj2 (record_id_ok r _) (conj Hs eq_refl)). cbn [rbind].
  set (v := Build_HighWater _ _ _ _). set (w := hw_with_signature _ _).
  assert (hw_signed w) as Hw by apply device_signed_verifies.
  rewrite (proj2 (hw_verify_signature_ok w) Hw). exists w. split; [done|]. by split_and!.
Qed.

Lemma verify_authority_ok records hw d h :
  verify_authority records hw d = Ok h ↔
  ∃ l, records ≡ₚ l ∧ achain d l ∧ h = head l ∧ marked hw (head l).
Proof.
  unfold verify_authority. rewrite rbind_ok. setoid_rewrite verify_chain_ok. split.
  - intros (h' & (l & Hp & Hc & ->) & Hm). exists l. split_and!; [done|done| |];
      destruct l as [|r l], hw as [w|]; cbn [head marked] in *; try discriminate Hm; try (by injection Hm as <-).
    + apply rbind_unit_ok in Hm as [_ Hm]. apply rbind_unit_ok in Hm as [_ Hm].
      apply rbind_unit_ok in Hm as [_ Hm]. apply rbind_ok in Hm as (id & _ & Hm).
      by apply rbind_unit_ok in Hm as [_ <-%Ok_inj].
    + inversion Hc as [|? ? ? Hd Hs]; subst.
      apply rbind_unit_ok in Hm as [Hw%hw_verify_signature_ok Hm].
      apply rbind_unit_ok in Hm as [He%fail_if_ok%bool_decide_eq_false%dec_stable Hm].
      apply rbind_unit_ok in Hm as [Hep%fail_if_ok%bool_decide_eq_false%dec_stable Hm].
      apply rbind_ok in Hm as (id & [_ ->]%record_id_ok & Hm).
      apply rbind_unit_ok in Hm as [Hid%fail_if_ok%bool_decide_eq_false%dec_stable _]. by split_and!.
  - intros (l & Hp & Hc & -> & Hm). exists (head l). split; [by exists l|].
    destruct l as [|r l], hw as [w|]; cbn [head marked] in *; try done.
    destruct Hm as (Hw & Hd & He & Hid). inversion Hc as [|? ? ? Hdr Hs]; subst.
    rewrite (proj2 (hw_verify_signature_ok w) Hw). cbn [rbind].
    rewrite Hd, bool_decide_eq_false_2 by (intros Hx; by apply Hx). cbn [fail_if rbind].
    rewrite He, bool_decide_eq_false_2 by (intros Hx; by apply Hx). cbn [fail_if rbind].
    rewrite (proj2 (record_id_ok r _) (conj Hs eq_refl)). cbn [rbind].
    by rewrite Hid, bool_decide_eq_false_2 by (intros Hx; by apply Hx).
Qed.

Lemma achain_by_check d rs : verify_records d None rs = Ok tt → achain d (rev rs).
Proof.
  intros Hv. apply (verify_records_chain d rs []) in Hv; [|constructor]. by rewrite app_nil_r in Hv.
Qed.

Lemma achain_signed d r l : achain d (r :: l) → record_signed r ∧ r.(local_device_id) = d.
Proof. by inversion 1. Qed.

(** * The properties *)

(** C11: The authority of a device accepts a set of records, in any order and with the high-water mark
    beside it, exactly when the records are a chain of signed records of that device that runs the
    activation state machine from legacy-only, each naming its predecessor by its identifier and
    counting one epoch further, and the mark is the device's signature over the newest record; the
    answer is that record. *)
Theorem activation_authority_exact records hw d h :
  verify_authority records hw d = Ok h ↔
  ∃ l, records ≡ₚ l ∧ achain d l ∧ h = head l ∧ marked hw (head l).
Proof. apply verify_authority_ok. Qed.

(** Reading an activation record accepts exactly the encodings of the records the device signed:
    the encoder and the strict decoder are inverse, and no other byte string is accepted. *)
Theorem activation_record_roundtrip bs d r :
  record_decode_and_verify bs d = Ok r ↔ r.(local_device_id) = d ∧ record_encode r = Ok bs.
Proof.
  rewrite record_decode_exact, record_encode_ok. tauto.
Qed.

(** C40: The values of the record type are well formed.  A record that was read encodes to the bytes
    it was read from, between 193 and 448 of them; a record that was issued has a permitted combination
    of state, disposition and evidence, encodes within the same limits and reads back as itself; and
    the decoder never indexes past the end of its input.  Reading checks no combination: that is the
    check of a chain. *)
Theorem record_values_wellformed :
  (∀ bs d, record_decode_and_verify bs d ≠ Err FixedWidthField) ∧
  (∀ bs d r, record_decode_and_verify bs d = Ok r →
     record_encode r = Ok bs ∧ (193 <= len bs <= MAX_ACTIVATION_RECORD_BYTES)%N) ∧
  (∀ i previous s dp a e re r, record_issue i previous s dp a e re = Ok r →
     is_ok (record_permissions r) = true ∧
     ∃ bs, record_encode r = Ok bs ∧ (193 <= len bs <= MAX_ACTIVATION_RECORD_BYTES)%N ∧
           record_decode_and_verify bs (device_id i) = Ok r).
Proof.
  split_and!.
  - apply decode_in_range.
  - intros bs d r (_ & Hs & ->)%record_decode_exact. split; [by apply record_encode_ok|by apply record_bytes_bounds].
  - intros i previous s dp a e re r Hi. unfold record_issue in Hi. apply rbind_unit_ok in Hi as [Hr Hi].
    apply rbind_ok in Hi as (ep & _ & Hi). apply rbind_ok in Hi as (id & _ & Hi). cbv zeta in Hi.
    apply rbind_unit_ok in Hi as [Ht Hi]. apply rbind_ok in Hi as (m & _ & Hi).
    apply rbind_unit_ok in Hi as [Hs%record_verify_signature_ok <-%Ok_inj].
    apply transition_checks in Ht as (_ & Hp & _). unfold view_of in Hp. split.
    + apply permissions_ok in Hp as [q Hq]. unfold record_permissions.
      cbn [with_signature migration_state disposition canonical_evidence_id] in *. by rewrite Hq.
    + eexists. split; [by apply record_encode_ok|]. split; [by apply record_bytes_bounds|].
      by apply record_decode_exact.
Qed.

(** A device can sign exactly the steps of the state machine: whatever its chain is, issuing a record
    for a state, disposition and evidence succeeds if and only if the machine has that step from the
    newest record, and the record then extends the chain. *)
Theorem issue_exact `{!Ed25519Laws H} i l v a re :
  achain (device_id i) l → (len l + 1 < U64_BOUND)%N → reason_valid re →
  (∃ r, record_issue i (head l) v.(vw_state) v.(vw_disposition) a v.(vw_evidence) re = Ok r ∧
        achain (device_id i) (r :: l) ∧ view_of r = v) ↔
  astep (head_view (head l)) v.
Proof.
  intros Hc Hl Hr. split.
  - intros (r & Hi & Hc' & <-). by inversion Hc'.
  - intros Ha. destruct (issue_ok i l v a re Hc Hl Hr Ha) as [r Hi]. exists r. split; [done|].
    destruct (issue_inv _ _ _ _ _ _ _ _ Hc Hi) as (Hc' & Hv & _). split; [done|]. by destruct v.
Qed.

(** Once a record of an accepted chain has bound the evidence of a canonical session, every later
    record carries the same evidence, no later record falls back to an earlier state, and every later
    record still registers the protocol and lets the selected session resume, containment included. *)
Theorem evidence_is_forever records d h p e :
  verify_chain records d = Ok h → p ∈ records → p.(canonical_evidence_id) = Some e →
  ∃ r q, h = Some r ∧ r.(canonical_evidence_id) = Some e ∧
    (migration_state_rank p.(migration_state) <= migration_state_rank r.(migration_state))%N ∧
    record_permissions r = Ok q ∧ q.(resume_selected_canonical_session) = true ∧
    q.(register_canonical_alpn) = true.
Proof.
  intros (l & Hp & Hc & ->)%verify_chain_ok Hin He. rewrite Hp in Hin.
  apply list_elem_of_split in Hin as (newer & older & El). rewrite El in Hc.
  destruct (steps_evidence _ _ e (achain_steps d newer _ Hc) He) as [He' Hr].
  rewrite <-El in *. destruct l as [|r l]; [by destruct newer|]. cbn [head head_view] in *.
  destruct (evidence_resume r) as (q & Hq & Hres & Halpn);
    [exact (achain_permitted _ _ Hc)|by rewrite (He' : r.(canonical_evidence_id) = _)|].
  exists r, q. by split_and!.
Qed.

(** Containment and the early states forbid new canonical sessions: a record of an accepted chain
    that lets the device accept a new session is at least the second, one that lets it initiate is at
    least the third, and neither is in containment. *)
Theorem new_sessions_need_steps records d r q :
  verify_chain records d = Ok (Some r) → record_permissions r = Ok q →
  (q.(accept_new_canonical_session) = true →
     (2 <= len records)%N ∧ r.(disposition) = Normal) ∧
  (q.(initiate_new_canonical_session) = true →
     (3 <= len records)%N ∧ r.(disposition) = Normal) ∧
  (q.(legacy_reader_enabled) = false → (4 <= len records)%N).
Proof.
  intros ([|r' l] & Hp & Hc & [= <-])%verify_chain_ok Hq. pose proof (achain_rank _ _ Hc) as Hr.
  unfold len in *. rewrite (Permutation_length Hp).
  cbn [head head_view view_of vw_state] in Hr. unfold record_permissions in Hq. revert Hr Hq.
  destruct r.(migration_state), r.(disposition), r.(canonical_evidence_id); intros Hr Hq;
    first [discriminate Hq | injection Hq as <-]; cbn in *; split_and!; intros; try done;
    try (split; [|done]); lia.
Qed.

(** The high-water mark detects every truncated or altered tail: beside the mark of the newest record
    of a chain, only that whole chain is accepted, provided no two of the records share an identifier. *)
Theorem truncation_detected records full r l w d h :
  full = r :: l → achain d full → marks w r → verify_authority records (Some w) d = Ok h →
  ids_distinct full records → records ≡ₚ full ∧ h = Some r.
Proof.
  intros -> Hc (_ & _ & _ & Hid) (l' & Hp & Hc' & -> & Hm)%verify_authority_ok Hi.
  destruct l' as [|r' l']; cbn [head marked] in Hm; [done|]. destruct Hm as (_ & _ & _ & Hid').
  assert (r = r') as <-.
  { apply record_bytes_inj; [by eapply achain_signed..|]. apply Hi; [by left|rewrite Hp; by left|congruence]. }
  assert (l = l') as <-; [|done].
  apply (chain_unique d d r); [done..|]. intros x y Hx Hy. apply Hi; [by right|rewrite Hp; by right].
Qed.

End chain.

(** * A device's chain *)

Module ActivationExample.

#[export] Existing Instance Toy.ed25519_instance.
#[export] Existing Instance Toy.derive_instance.
#[export] Existing Instance Toy.ed25519_laws.

Definition key : DeviceIdentity := arr_repeat 32 x07.
Definition why : str := mk_str (b_str "operator approved") eq_refl.
Definition evidence : arr 32 := arr_repeat 32 x09.

(** The record issued after [previous]; the default is never reached. *)
Definition issued (previous : option ActivationRecord) (s : MigrationState) (dp : Disposition)
    (e : option (arr 32)) : ActivationRecord :=
  match record_issue key previous s dp ExplicitLocal e why with
  | Ok r => r
  | Err _ =>
      {| local_device_id := key; migration_epoch := as_u64 0; previous_record_id := None;
         migration_state := s; disposition := dp; actor := ExplicitLocal;
         canonical_evidence_id := e; reason := why; signature := arr_repeat 64 x00 |}
  end.

Definition advertise : ActivationRecord := Eval vm_compute in issued None AdvertiseCanonicalV2 Normal None.
Definition accept : ActivationRecord := Eval vm_compute in
  issued (Some advertise) DualReaderPreferLegacy Normal None.
Definition observe : ActivationRecord := Eval vm_compute in
  issued (Some accept) DualReaderPreferLegacy Normal (Some evidence).
Definition contain : ActivationRecord := Eval vm_compute in
  issued (Some observe) DualReaderPreferLegacy EmergencyContainment (Some evidence).
Definition recover : ActivationRecord := Eval vm_compute in
  issued (Some contain) DualReaderPreferLegacy Normal (Some evidence).

Definition records : list ActivationRecord := [advertise; accept; observe; contain; recover].

Lemma records_checked : verify_records key None records = Ok tt.
Proof. vm_compute. reflexivity. Qed.

Lemma records_chain : achain key (rev records).
Proof. apply achain_by_check, records_checked. Qed.

(** The records in another order; the answer is the newest. *)
Lemma shuffled_checked : verify_chain [observe; recover; advertise; contain; accept] key = Ok (Some recover).
Proof. vm_compute. reflexivity. Qed.

Lemma head_permissions :
  record_permissions recover =
  Ok {| legacy_reader_enabled := true; publish_canonical_capability := true;
        register_canonical_alpn := true; accept_new_canonical_session := true;
        initiate_new_canonical_session := false; resume_selected_canonical_session := true |}.
Proof. reflexivity. Qed.

Definition mark : HighWater := Eval vm_compute in
  match hw_issue key recover with
  | Ok w => w
  | Err _ => {| hw_device_id := key; hw_epoch := as_u64 0; hw_head_record_id := key;
                hw_signature := arr_repeat 64 x00 |}
  end.

Lemma mark_marks : marks mark recover.
Proof. split_and!; vm_compute; reflexivity. Qed.

Lemma authority_checked : verify_authority records (Some mark) key = Ok (Some recover).
Proof. vm_compute. reflexivity. Qed.

Lemma records_distinct : ids_distinct (rev records) records.
Proof.
  assert (Forall (fun p => Forall (fun q => record_hash p = record_hash q → record_bytes p = record_bytes q)
    records) (rev records)) as HF.
  { repeat (constructor; [repeat (constructor;
      [first [intros _; reflexivity | intros Hx; exfalso; revert Hx; apply (bool_decide_unpack _);
              vm_compute; exact I]|]); constructor|]). constructor. }
  intros p q Hp Hq. rewrite Forall_forall in HF. specialize (HF p Hp). rewrite Forall_forall in HF. by apply HF.
Qed.

Lemma why_valid : reason_valid why.
Proof. vm_compute. reflexivity. Qed.

Lemma issue_exact_witness :
  ∃ r, record_issue key (head (rev records)) DualReaderPreferCanonical Normal ExplicitLocal
         (Some evidence) why = Ok r ∧
       achain (device_id key) (r :: rev records) ∧
       view_of r = {| vw_state := DualReaderPreferCanonical; vw_disposition := Normal;
                      vw_evidence := Some evidence |}.
Proof.
  apply (proj2 (issue_exact key (rev records)
    {| vw_state := DualReaderPreferCanonical; vw_disposition := Normal; vw_evidence := Some evidence |}
    ExplicitLocal why records_chain eq_refl why_valid)).
  exact (step_advance DualReaderPreferLegacy DualReaderPreferCanonical (Some evidence) eq_refl).
Defined.

Lemma evidence_is_forever_witness :
  ∃ r q, Some recover = Some r ∧ r.(canonical_evidence_id) = Some evidence ∧
    (migration_state_rank observe.(migration_state) <= migration_state_rank r.(migration_state))%N ∧
    record_permissions r = Ok q ∧ q.(resume_selected_canonical_session) = true ∧
    q.(register_canonical_alpn) = true.
Proof.
  apply (evidence_is_forever _ key _ observe evidence shuffled_checked); [by left|reflexivity].
Defined.

Lemma new_sessions_need_steps_witness : (2 <= 5)%N ∧ recover.(disposition) = Normal.
Proof.
  exact (proj1 (new_sessions_need_steps _ key recover _ shuffled_checked head_permissions) eq_refl).
Defined.

Lemma truncation_detected_witness : records ≡ₚ rev records ∧ Some recover = Some recover.
Proof.
  exact (truncation_detected records (rev records) recover _ mark key _ eq_refl records_chain
    mark_marks authority_checked records_distinct).
Defined.

(** Without its newest record the chain is refused beside the mark. *)
Example truncated_refused :
  verify_authority [advertise; accept; observe; contain] (Some mark) key = Err HighWaterMismatch.
Proof. vm_compute. reflexivity. Qed.

End ActivationExample.
