(* ===== verification/RolloutApproval.v ===== *)
(** Device-signed approvals of rollout proposals,
    [crates/kilogram-rollout/src/rollout_approval.rs].

    The rollout controller of [Rollout] only proposes.  An approval is the
    device's signature over one proposal and over the activation record that
    carries it out, prepared against the newest record of the device's chain;
    [approval_apply] returns that record when it still fits.  Nothing here
    touches storage. *)

From stdpp Require Import base tactics list numbers strings.
From Stdlib Require Import Strings.Byte.
From S2P Require Import Prelude Crypto Text Identity Postcard Rollout TrustedPolicy Activation.

(** * Constants and data *)

Definition APPROVAL_VERSION : byte := x01.
Definition APPROVAL_SIGNATURE_DOMAIN : bytes := b_str "kilogram:rollout:device-approval:v1" ++ [x00].
Definition APPROVAL_ID_DOMAIN : bytes := b_str "kilogram:rollout:device-approval-id:v1" ++ [x00].
Definition MAX_DEVICE_ROLLOUT_APPROVAL_BYTES : usize := 2048.

Inductive ExplicitDeviceRolloutApproval := NotAuthorized | UserOrTestOperatorApproved.

#[export] Instance ExplicitDeviceRolloutApproval_eq_dec : EqDecision ExplicitDeviceRolloutApproval.
Proof. solve_decision. Defined.

Record DeviceRolloutApprovalContent := {
  ap_version : byte;
  ap_trusted_policy_bundle_id : arr 32;
  ap_policy_id : arr 32;
  ap_policy_epoch : u64;
  ap_target : byte;
  ap_disposition : byte;
  ap_local_device_id : arr 32;
  ap_expected_previous_record_id : option (arr 32);
  ap_expected_previous_epoch : u64;
  ap_candidate_activation_record : bytes;
  ap_nonce : arr 32
}.

(** [SignedDeviceRolloutApproval]; its wire form has the same fields. *)
Record SignedDeviceRolloutApproval := {
  approval_content : DeviceRolloutApprovalContent;
  approval_signature : bytes
}.

Inductive ApplyOutcome :=
| Ready (r : ActivationRecord)
| AlreadyApplied (r : ActivationRecord).

Inductive DeviceRolloutApprovalError :=
| ExplicitApprovalRequired
| ControllerDidNotPropose
| ContainmentEvidenceRequired
| ApprovalWrongDevice
| ProposalBinding
| CandidateBinding
| StaleActivationHead
| ApprovalLength (n : usize)
| CandidateLength (n : usize)
| ApprovalVersionUnsupported (v : byte)
| InvalidContent
| ApprovalCodec
| NonCanonicalApproval
| ApprovalSignature (error : IdentityError)
| ApprovalSecureRandom
| ApprovalActivation (error : ActivationError).

(** [postcard] at the types of an approval. *)
Class ApprovalPostcard := {
  pc_approval_content :: Postcard DeviceRolloutApprovalContent;
  pc_approval :: Postcard SignedDeviceRolloutApproval
}.

Record RolloutProposal := {
  pr_policy_id : ReleasePolicyId;
  pr_policy_epoch : u64;
  pr_target : RolloutActivationTarget;
  pr_disposition : RolloutActivationDisposition
}.

(** * Conversions *)

Definition migration_state_of (t : RolloutActivationTarget) : MigrationState :=
  match t with
  | Rollout.LegacyOnly => LegacyOnly
  | Rollout.AdvertiseCanonicalV2 => AdvertiseCanonicalV2
  | Rollout.DualReaderPreferLegacy => DualReaderPreferLegacy
  | Rollout.DualReaderPreferCanonical => DualReaderPreferCanonical
  end.

Definition activation_disposition (d : RolloutActivationDisposition) : Disposition :=
  match d with
  | NormalActivation => Normal
  | Rollout.EmergencyContainment => EmergencyContainment
  end.

Definition target_code (t : RolloutActivationTarget) : byte :=
  match t with
  | Rollout.LegacyOnly => x01
  | Rollout.AdvertiseCanonicalV2 => x02
  | Rollout.DualReaderPreferLegacy => x03
  | Rollout.DualReaderPreferCanonical => x04
  end.

Definition target_from_code (code : byte) : result DeviceRolloutApprovalError RolloutActivationTarget :=
  match byte_val code with
  | 1 => Ok Rollout.LegacyOnly
  | 2 => Ok Rollout.AdvertiseCanonicalV2
  | 3 => Ok Rollout.DualReaderPreferLegacy
  | 4 => Ok Rollout.DualReaderPreferCanonical
  | _ => Err InvalidContent
  end%N.

Definition approval_disposition_code (d : RolloutActivationDisposition) : byte :=
  match d with NormalActivation => x01 | Rollout.EmergencyContainment => x02 end.

Definition approval_disposition_from_code (code : byte)
  : result DeviceRolloutApprovalError RolloutActivationDisposition :=
  match byte_val code with
  | 1 => Ok NormalActivation
  | 2 => Ok Rollout.EmergencyContainment
  | _ => Err InvalidContent
  end%N.

Definition HEX : bytes := b_str "0123456789abcdef".

Definition hex_lower (bs : bytes) : bytes :=
  flat_map (fun b => [nth (N.to_nat (N.shiftr (byte_val b) 4)) HEX x00;
                      nth (N.to_nat (N.land (byte_val b) 15)) HEX x00]) bs.

(** A [format!] of ASCII pieces; [ascii_str_bytes] shows that nothing is lost. *)
Definition ascii_str (l : bytes) : str :=
  match from_utf8 l with Some s => s | None => mk_str [] eq_refl end.

Definition approval_reason (policy_id bundle_id : arr 32) : str :=
  ascii_str (b_str "device-approved rollout policy " ++ hex_lower policy_id
             ++ b_str " bundle " ++ hex_lower bundle_id).

Definition proposal_from_decision (decision : RolloutControllerDecision)
  : result DeviceRolloutApprovalError RolloutProposal :=
  match decision with
  | ProposeDeviceActivation policy_id policy_epoch target disposition true false =>
      Ok {| pr_policy_id := policy_id; pr_policy_epoch := policy_epoch; pr_target := target;
            pr_disposition := disposition |}
  | _ => Err ControllerDidNotPropose
  end.

Definition approval_validate_content (c : DeviceRolloutApprovalContent)
  : result DeviceRolloutApprovalError unit :=
  fail_if (bool_decide (c.(ap_version) ≠ APPROVAL_VERSION))
    (ApprovalVersionUnsupported c.(ap_version)) ;?
  fail_if (bool_decide (c.(ap_trusted_policy_bundle_id) = zero32)
           || bool_decide (c.(ap_policy_id) = zero32)
           || (uint_val c.(ap_policy_epoch) =? 0)%N
           || bool_decide (c.(ap_local_device_id) = zero32)
           || bool_decide (c.(ap_nonce) = zero32)) InvalidContent ;?
  let? target := target_from_code c.(ap_target) in
  let? disposition := approval_disposition_from_code c.(ap_disposition) in
  fail_if (bool_decide (target = Rollout.LegacyOnly) && bool_decide (disposition = NormalActivation))
    InvalidContent ;?
  fail_if ((len c.(ap_candidate_activation_record) =? 0)
           || (MAX_ACTIVATION_RECORD_BYTES <? len c.(ap_candidate_activation_record)))%N
    (CandidateLength (len c.(ap_candidate_activation_record))).

Definition validate_current_device (expected : DeviceId) (current : option ActivationRecord)
  : result DeviceRolloutApprovalError unit :=
  match current with
  | Some r => fail_if (bool_decide (r.(local_device_id) ≠ expected)) ApprovalWrongDevice
  | None => Ok tt
  end.

(** [current.map_or(0, ..::migration_epoch)]. *)
Definition current_epoch (current : option ActivationRecord) : u64 :=
  match current with Some r => r.(migration_epoch) | None => as_u64 0 end.

(** * Approvals *)

Section approvals.
Context `{Ed25519} `{Blake3Derive} `{Sha256} `{ApprovalPostcard}.

Definition approval_signing_bytes (c : DeviceRolloutApprovalContent)
  : result DeviceRolloutApprovalError bytes :=
  approval_validate_content c ;?
  let? encoded := ok_or (to_allocvec c) ApprovalCodec in
  Ok (APPROVAL_SIGNATURE_DOMAIN ++ encoded).

Definition approval_verify_signature (a : SignedDeviceRolloutApproval)
  : result DeviceRolloutApprovalError unit :=
  approval_validate_content a.(approval_content) ;?
  let? message := approval_signing_bytes a.(approval_content) in
  map_err ApprovalSignature
    (device_verify a.(approval_content).(ap_local_device_id) message a.(approval_signature)).

Definition approval_encode (a : SignedDeviceRolloutApproval) : result DeviceRolloutApprovalError bytes :=
  approval_validate_content a.(approval_content) ;?
  approval_verify_signature a ;?
  let? encoded := ok_or (to_allocvec a) ApprovalCodec in
  fail_if ((len encoded =? 0) || (MAX_DEVICE_ROLLOUT_APPROVAL_BYTES <? len encoded))%N
    (ApprovalLength (len encoded)) ;?
  Ok encoded.

Definition approval_decode_and_verify (encoded : bytes) (expected_device_id : DeviceId)
  : result DeviceRolloutApprovalError SignedDeviceRolloutApproval :=
  fail_if ((len encoded =? 0) || (MAX_DEVICE_ROLLOUT_APPROVAL_BYTES <? len encoded))%N
    (ApprovalLength (len encoded)) ;?
  let? approval := ok_or (from_bytes encoded) ApprovalCodec in
  fail_if (bool_decide (approval.(approval_content).(ap_local_device_id) ≠ expected_device_id))
    ApprovalWrongDevice ;?
  approval_verify_signature approval ;?
  let? again := approval_encode approval in
  fail_if (bool_decide (again ≠ encoded)) NonCanonicalApproval ;?
  Ok approval.

Definition approval_id (a : SignedDeviceRolloutApproval) : result DeviceRolloutApprovalError (arr 32) :=
  let? encoded := approval_encode a in
  Ok (sha256 (APPROVAL_ID_DOMAIN ++ encoded)).

Definition issue_with_nonce (identity : DeviceIdentity) (bundle_id : TrustedPolicyBundleId)
    (proposal : RolloutProposal) (current : option ActivationRecord) (candidate : ActivationRecord)
    (nonce : arr 32) : result DeviceRolloutApprovalError SignedDeviceRolloutApproval :=
  let? previous_id := map_err ApprovalActivation (record_id_of current) in
  let? encoded := map_err ApprovalActivation (record_encode candidate) in
  let content := {|
    ap_version := APPROVAL_VERSION;
    ap_trusted_policy_bundle_id := bundle_id;
    ap_policy_id := proposal.(pr_policy_id);
    ap_policy_epoch := proposal.(pr_policy_epoch);
    ap_target := target_code proposal.(pr_target);
    ap_disposition := approval_disposition_code proposal.(pr_disposition);
    ap_local_device_id := device_id identity;
    ap_expected_previous_record_id := previous_id;
    ap_expected_previous_epoch := current_epoch current;
    ap_candidate_activation_record := encoded;
    ap_nonce := nonce |} in
  approval_validate_content content ;?
  let? message := approval_signing_bytes content in
  let approval := {| approval_content := content;
                     approval_signature := device_sign identity message |} in
  approval_verify_signature approval ;?
  Ok approval.

(** [SignedDeviceRolloutApproval::prepare]; [random] is the answer of
    [getrandom]. *)
Definition approval_prepare (identity : DeviceIdentity) (bundle_id : TrustedPolicyBundleId)
    (decision : RolloutControllerDecision) (current : option ActivationRecord)
    (authorization : ExplicitDeviceRolloutApproval) (random : option (arr 32))
  : result DeviceRolloutApprovalError SignedDeviceRolloutApproval :=
  fail_if (bool_decide (authorization ≠ UserOrTestOperatorApproved)) ExplicitApprovalRequired ;?
  let? proposal := proposal_from_decision decision in
  validate_current_device (device_id identity) current ;?
  let evidence := match current with Some r => r.(canonical_evidence_id) | None => None end in
  fail_if (bool_decide (proposal.(pr_disposition) = Rollout.EmergencyContainment)
           && negb (is_some evidence)) ContainmentEvidenceRequired ;?
  let? candidate := map_err ApprovalActivation
    (record_issue identity current (migration_state_of proposal.(pr_target))
       (activation_disposition proposal.(pr_disposition)) ReleasePolicy evidence
       (approval_reason proposal.(pr_policy_id) bundle_id)) in
  let? nonce := ok_or random ApprovalSecureRandom in
  issue_with_nonce identity bundle_id proposal current candidate nonce.

(** The candidate is the record the codes of the content describe. *)
Definition candidate_differs (c : DeviceRolloutApprovalContent) (candidate : ActivationRecord)
  : result DeviceRolloutApprovalError bool :=
  let? target := target_from_code c.(ap_target) in
  if bool_decide (candidate.(migration_state) ≠ migration_state_of target) then Ok true else
  let? expected := approval_disposition_from_code c.(ap_disposition) in
  Ok (bool_decide (candidate.(disposition) ≠ activation_disposition expected)
      || bool_decide (candidate.(actor) ≠ ReleasePolicy)).

(** The proposal is the one the content was signed for. *)
Definition proposal_differs (c : DeviceRolloutApprovalContent) (p : RolloutProposal)
  : result DeviceRolloutApprovalError bool :=
  if bool_decide (c.(ap_policy_id) ≠ p.(pr_policy_id)) then Ok true else
  if bool_decide (c.(ap_policy_epoch) ≠ p.(pr_policy_epoch)) then Ok true else
  let? target := target_from_code c.(ap_target) in
  if bool_decide (target ≠ p.(pr_target)) then Ok true else
  let? disposition := approval_disposition_from_code c.(ap_disposition) in
  Ok (bool_decide (disposition ≠ p.(pr_disposition))).

(** [current] is the candidate itself. *)
Definition already_current (c : DeviceRolloutApprovalContent) (candidate : ActivationRecord)
    (current : option ActivationRecord) : result DeviceRolloutApprovalError bool :=
  match current with
  | None => Ok false
  | Some r =>
      let? id := map_err ApprovalActivation (record_id r) in
      let? candidate_id := map_err ApprovalActivation (record_id candidate) in
      if bool_decide (id = candidate_id) then
        let? encoded := map_err ApprovalActivation (record_encode r) in
        fail_if (bool_decide (encoded ≠ c.(ap_candidate_activation_record))) CandidateBinding ;?
        Ok true
      else Ok false
  end.

Definition approval_apply (a : SignedDeviceRolloutApproval) (bundle_id : TrustedPolicyBundleId)
    (decision : RolloutControllerDecision) (current : option ActivationRecord)
  : result DeviceRolloutApprovalError ApplyOutcome :=
  let c := a.(approval_content) in
  approval_verify_signature a ;?
  fail_if (bool_decide (c.(ap_trusted_policy_bundle_id) ≠ bundle_id)) ProposalBinding ;?
  let? candidate := map_err ApprovalActivation
    (record_decode_and_verify c.(ap_candidate_activation_record) c.(ap_local_device_id)) in
  let? differs := candidate_differs c candidate in
  fail_if differs CandidateBinding ;?
  let? already := already_current c candidate current in
  if already then Ok (AlreadyApplied candidate) else
  let? proposal := proposal_from_decision decision in
  let? differs := proposal_differs c proposal in
  fail_if differs ProposalBinding ;?
  fail_if (bool_decide (candidate.(migration_state) ≠ migration_state_of proposal.(pr_target))
           || bool_decide (candidate.(disposition) ≠ activation_disposition proposal.(pr_disposition))
           || bool_decide (candidate.(actor) ≠ ReleasePolicy)) CandidateBinding ;?
  validate_current_device c.(ap_local_device_id) current ;?
  let? current_id := map_err ApprovalActivation (record_id_of current) in
  fail_if (bool_decide (current_id ≠ c.(ap_expected_previous_record_id))
           || bool_decide (current_epoch current ≠ c.(ap_expected_previous_epoch)))
    StaleActivationHead ;?
  map_err ApprovalActivation (record_verify_transition candidate current) ;?
  Ok (Ready candidate).

(** [candidate_activation_record]. *)
Definition approval_candidate (a : SignedDeviceRolloutApproval)
  : result DeviceRolloutApprovalError ActivationRecord :=
  map_err ApprovalActivation
    (record_decode_and_verify a.(approval_content).(ap_candidate_activation_record)
       a.(approval_content).(ap_local_device_id)).

End approvals.
