(* ===== verification/ContainmentRecovery.v ===== *)
(** Device-signed recovery from containment,
    [crates/kilogram-rollout/src/containment_recovery.rs].

    Leaving emergency containment needs a healthy normal policy, healthy local
    counters and a ceremony of its own: the device signs the record that
    returns to normal operation in the same state with the same evidence. *)

From stdpp Require Import base tactics list numbers strings.
From Stdlib Require Import Strings.Byte.
From S2P Require Import Prelude Crypto Text Identity Postcard Rollout ReleaseTrust TrustedPolicy Activation.
From S2P Require Import RolloutApproval.

(** * Constants and data *)

Definition RECOVERY_VERSION : byte := x01.
Definition RECOVERY_SIGNATURE_DOMAIN : bytes := b_str "kilogram:rollout:containment-recovery:v1" ++ [x00].
Definition RECOVERY_ID_DOMAIN : bytes := b_str "kilogram:rollout:containment-recovery-id:v1" ++ [x00].
Definition MAX_CONTAINMENT_RECOVERY_APPROVAL_BYTES : usize := 4096.

Inductive ExplicitContainmentRecoveryApproval := RecoveryNotAuthorized | RecoveryApproved.

#[export] Instance ExplicitContainmentRecoveryApproval_eq_dec : EqDecision ExplicitContainmentRecoveryApproval.
Proof. solve_decision. Defined.

Record RecoveryHealthBinding := {
  hb_policy_id : arr 32;
  hb_release_artifact_id : arr 32;
  hb_phase : RolloutPhase;
  hb_cohort : u16;
  hb_counters : RolloutHealthCounters
}.

#[export] Instance RecoveryHealthBinding_eq_dec : EqDecision RecoveryHealthBinding.
Proof. solve_decision. Defined.

Record ContainmentRecoveryContent := {
  rc_version : byte;
  rc_trusted_policy_bundle_id : arr 32;
  rc_health : RecoveryHealthBinding;
  rc_local_device_id : arr 32;
  rc_containment_record_id : arr 32;
  rc_containment_epoch : u64;
  rc_canonical_evidence_id : arr 32;
  rc_candidate_activation_record : bytes;
  rc_nonce : arr 32
}.

(** [SignedContainmentRecoveryApproval]; its wire form has the same fields. *)
Record SignedContainmentRecoveryApproval := {
  recovery_content : ContainmentRecoveryContent;
  recovery_signature : bytes
}.

Inductive ContainmentRecoveryError :=
| RecoveryExplicitApprovalRequired
| ContainmentRequired
| CanonicalEvidenceRequired
| NormalRecoveryPolicyRequired
| HealthyRecoveryEvidenceRequired
| PolicyHealthBinding
| PolicyBelowContainedState
| UnmanagedCanonicalRequired
| RecoveryWrongDevice
| StaleContainmentHead
| RecoveryCandidateBinding
| RecoveryLength (n : usize)
| RecoveryVersionUnsupported (v : byte)
| RecoveryInvalidContent
| RecoveryCodec
| NonCanonicalRecovery
| RecoverySignature (error : IdentityError)
| RecoverySecureRandom
| RecoveryTrustedPolicy (error : TrustedPolicyError)
| RecoveryRollout (error : RolloutError)
| RecoveryActivation (error : ActivationError).

(** [postcard] at the types of a recovery. *)
Class RecoveryPostcard := {
  pc_recovery_content :: Postcard ContainmentRecoveryContent;
  pc_recovery :: Postcard SignedContainmentRecoveryApproval
}.

(** * Checks *)

Definition activation_target (s : MigrationState)
  : result ContainmentRecoveryError RolloutActivationTarget :=
  match s with
  | LegacyOnly => Ok Rollout.LegacyOnly
  | AdvertiseCanonicalV2 => Ok Rollout.AdvertiseCanonicalV2
  | DualReaderPreferLegacy => Ok Rollout.DualReaderPreferLegacy
  | DualReaderPreferCanonical => Ok Rollout.DualReaderPreferCanonical
  | CanonicalRequired => Err UnmanagedCanonicalRequired
  end.

Definition health_binding (h : RolloutHealthSnapshot) : RecoveryHealthBinding :=
  {| hb_policy_id := h.(hs_policy_id); hb_release_artifact_id := h.(hs_artifact);
     hb_phase := h.(hs_phase); hb_cohort := h.(hs_cohort); hb_counters := h.(hs_counters) |}.

Definition recovery_validate_content (c : ContainmentRecoveryContent)
  : result ContainmentRecoveryError unit :=
  fail_if (bool_decide (c.(rc_version) ≠ RECOVERY_VERSION))
    (RecoveryVersionUnsupported c.(rc_version)) ;?
  fail_if (bool_decide (c.(rc_trusted_policy_bundle_id) = zero32)
           || bool_decide (c.(rc_health).(hb_policy_id) = zero32)
           || bool_decide (c.(rc_health).(hb_release_artifact_id) = zero32)
           || bool_decide (c.(rc_local_device_id) = zero32)
           || bool_decide (c.(rc_containment_record_id) = zero32)
           || (uint_val c.(rc_containment_epoch) =? 0)%N
           || bool_decide (c.(rc_canonical_evidence_id) = zero32)
           || bool_decide (c.(rc_nonce) = zero32)
           || (len c.(rc_candidate_activation_record) =? 0)%N
           || (MAX_ACTIVATION_RECORD_BYTES <? len c.(rc_candidate_activation_record))%N)
    RecoveryInvalidContent.

Section recovery.
Context `{Ed25519} `{Blake3Derive} `{Sha256} `{RolloutPostcard, TrustPostcard, BundlePostcard}
  `{RecoveryPostcard}.

Definition recovery_signing_bytes (c : ContainmentRecoveryContent)
  : result ContainmentRecoveryError bytes :=
  recovery_validate_content c ;?
  let? encoded := ok_or (to_allocvec c) RecoveryCodec in
  Ok (RECOVERY_SIGNATURE_DOMAIN ++ encoded).

(** [zero] of the counters that must not have counted. *)
Definition counters_healthy (c : RolloutHealthCounters) : result ContainmentRecoveryError bool :=
  if (uint_val c.(runtime_start_succeeded) =? 0)%N
     || (uint_val c.(canonical_sync_completed) =? 0)%N
     || negb (uint_val c.(runtime_start_failed) =? 0)%N
     || negb (uint_val c.(legacy_sync_failed) =? 0)%N
     || negb (uint_val c.(canonical_sync_failed) =? 0)%N
     || negb (uint_val c.(canonical_sync_paused) =? 0)%N
     || negb (uint_val c.(canonical_sync_interrupted) =? 0)%N
  then Ok false
  else let? n := map_err RecoveryRollout (zero_tolerance_events c) in Ok (uint_val n =? 0)%N.

Definition validate_health (b : TrustedReleasePolicyBundle) (h : RolloutHealthSnapshot)
  : result ContainmentRecoveryError unit :=
  let policy := b.(bundle_policy).(policy_content) in
  fail_if (bool_decide (policy.(rp_disposition) ≠ NormalPolicy)
           || bool_decide (policy.(rp_phase) = LegacyOnlyHold)) NormalRecoveryPolicyRequired ;?
  let? id := map_err RecoveryRollout (policy_id b.(bundle_policy)) in
  fail_if (bool_decide (h.(hs_policy_id) ≠ id)
           || bool_decide (h.(hs_artifact) ≠ policy.(rp_artifact))
           || bool_decide (h.(hs_phase) ≠ policy.(rp_phase))
           || bool_decide (h.(hs_cohort) ≠ policy.(rp_cohort))) PolicyHealthBinding ;?
  let? healthy := counters_healthy h.(hs_counters) in
  fail_if (negb healthy) HealthyRecoveryEvidenceRequired.

Definition validate_containment (expected_device_id : DeviceId) (r : ActivationRecord)
    (policy_phase : RolloutPhase) : result ContainmentRecoveryError unit :=
  map_err RecoveryActivation (record_verify_signature r) ;?
  fail_if (bool_decide (r.(local_device_id) ≠ expected_device_id)) RecoveryWrongDevice ;?
  fail_if (bool_decide (r.(disposition) ≠ EmergencyContainment)) ContainmentRequired ;?
  fail_if (negb (is_some r.(canonical_evidence_id))) CanonicalEvidenceRequired ;?
  let? target := activation_target r.(migration_state) in
  fail_if (target_ordinal (rollout_phase_target policy_phase) <? target_ordinal target)%N
    PolicyBelowContainedState.

(** * Recoveries *)

Definition recovery_verify_signature (a : SignedContainmentRecoveryApproval)
  : result ContainmentRecoveryError unit :=
  recovery_validate_content a.(recovery_content) ;?
  let? message := recovery_signing_bytes a.(recovery_content) in
  map_err RecoverySignature
    (device_verify a.(recovery_content).(rc_local_device_id) message a.(recovery_signature)).

Definition recovery_encode (a : SignedContainmentRecoveryApproval) : result ContainmentRecoveryError bytes :=
  recovery_validate_content a.(recovery_content) ;?
  recovery_verify_signature a ;?
  let? encoded := ok_or (to_allocvec a) RecoveryCodec in
  fail_if ((len encoded =? 0) || (MAX_CONTAINMENT_RECOVERY_APPROVAL_BYTES <? len encoded))%N
    (RecoveryLength (len encoded)) ;?
  Ok encoded.

Definition recovery_decode_and_verify (encoded : bytes) (expected_device_id : DeviceId)
  : result ContainmentRecoveryError SignedContainmentRecoveryApproval :=
  fail_if ((len encoded =? 0) || (MAX_CONTAINMENT_RECOVERY_APPROVAL_BYTES <? len encoded))%N
    (RecoveryLength (len encoded)) ;?
  let? approval := ok_or (from_bytes encoded) RecoveryCodec in
  fail_if (bool_decide (approval.(recovery_content).(rc_local_device_id) ≠ expected_device_id))
    RecoveryWrongDevice ;?
  recovery_verify_signature approval ;?
  let? again := recovery_encode approval in
  fail_if (bool_decide (again ≠ encoded)) NonCanonicalRecovery ;?
  Ok approval.

Definition recovery_id (a : SignedContainmentRecoveryApproval) : result ContainmentRecoveryError (arr 32) :=
  let? encoded := recovery_encode a in
  Ok (sha256 (RECOVERY_ID_DOMAIN ++ encoded)).

Definition recovery_reason (policy_id bundle_id : arr 32) : str :=
  ascii_str (b_str "explicit containment recovery policy " ++ hex_lower policy_id
             ++ b_str " bundle " ++ hex_lower bundle_id).

(** [SignedContainmentRecoveryApproval::prepare]; [random] is the answer of
    [getrandom]. *)
Definition recovery_prepare (identity : DeviceIdentity) (trust_root : ReleaseTrustRoot)
    (bundle : TrustedReleasePolicyBundle) (health : RolloutHealthSnapshot)
    (containment : ActivationRecord) (authorization : ExplicitContainmentRecoveryApproval)
    (random : option (arr 32)) : result ContainmentRecoveryError SignedContainmentRecoveryApproval :=
  fail_if (bool_decide (authorization ≠ RecoveryApproved)) RecoveryExplicitApprovalRequired ;?
  map_err RecoveryTrustedPolicy (bundle_verify bundle trust_root) ;?
  validate_health bundle health ;?
  validate_containment (device_id identity) containment bundle.(bundle_policy).(policy_content).(rp_phase) ;?
  let? evidence := ok_or containment.(canonical_evidence_id) CanonicalEvidenceRequired in
  let? bid := map_err RecoveryTrustedPolicy (bundle_id bundle) in
  let? pid := map_err RecoveryRollout (policy_id bundle.(bundle_policy)) in
  let? candidate := map_err RecoveryActivation
    (record_issue identity (Some containment) containment.(migration_state) Normal ExplicitLocal
       (Some evidence) (recovery_reason pid bid)) in
  let? nonce := ok_or random RecoverySecureRandom in
  let? containment_id := map_err RecoveryActivation (record_id containment) in
  let? encoded := map_err RecoveryActivation (record_encode candidate) in
  let content := {|
    rc_version := RECOVERY_VERSION;
    rc_trusted_policy_bundle_id := bid;
    rc_health := health_binding health;
    rc_local_device_id := device_id identity;
    rc_containment_record_id := containment_id;
    rc_containment_epoch := containment.(migration_epoch);
    rc_canonical_evidence_id := evidence;
    rc_candidate_activation_record := encoded;
    rc_nonce := nonce |} in
  recovery_validate_content content ;?
  let? message := recovery_signing_bytes content in
  let approval := {| recovery_content := content;
                     recovery_signature := device_sign identity message |} in
  recovery_verify_signature approval ;?
  Ok approval.

Definition recovery_apply (a : SignedContainmentRecoveryApproval) (trust_root : ReleaseTrustRoot)
    (bundle : TrustedReleasePolicyBundle) (health : RolloutHealthSnapshot) (current : ActivationRecord)
  : result ContainmentRecoveryError ApplyOutcome :=
  let c := a.(recovery_content) in
  recovery_verify_signature a ;?
  map_err RecoveryTrustedPolicy (bundle_verify bundle trust_root) ;?
  validate_health bundle health ;?
  let? bid := map_err RecoveryTrustedPolicy (bundle_id bundle) in
  fail_if (bool_decide (c.(rc_trusted_policy_bundle_id) ≠ bid)
           || bool_decide (c.(rc_health) ≠ health_binding health)) PolicyHealthBinding ;?
  let? candidate := map_err RecoveryActivation
    (record_decode_and_verify c.(rc_candidate_activation_record) c.(rc_local_device_id)) in
  let? current_id := map_err RecoveryActivation (record_id current) in
  let? candidate_id := map_err RecoveryActivation (record_id candidate) in
  if bool_decide (current_id = candidate_id) then
    let? encoded := map_err RecoveryActivation (record_encode current) in
    fail_if (bool_decide (encoded ≠ c.(rc_candidate_activation_record))) RecoveryCandidateBinding ;?
    Ok (AlreadyApplied candidate)
  else
    validate_containment c.(rc_local_device_id) current bundle.(bundle_policy).(policy_content).(rp_phase) ;?
    fail_if (bool_decide (current_id ≠ c.(rc_containment_record_id))
             || bool_decide (current.(migration_epoch) ≠ c.(rc_containment_epoch))
             || bool_decide (current.(canonical_evidence_id) ≠ Some c.(rc_canonical_evidence_id)))
      StaleContainmentHead ;?
    fail_if (bool_decide (candidate.(migration_state) ≠ current.(migration_state))
             || bool_decide (candidate.(disposition) ≠ Normal)
             || bool_decide (candidate.(actor) ≠ ExplicitLocal)
             || bool_decide (candidate.(canonical_evidence_id) ≠ current.(canonical_evidence_id)))
      RecoveryCandidateBinding ;?
    map_err RecoveryActivation (record_verify_transition candidate (Some current)) ;?
    Ok (Ready candidate).

(** [candidate_activation_record]. *)
Definition recovery_candidate (a : SignedContainmentRecoveryApproval)
  : result ContainmentRecoveryError ActivationRecord :=
  map_err RecoveryActivation
    (record_decode_and_verify a.(recovery_content).(rc_candidate_activation_record)
       a.(recovery_content).(rc_local_device_id)).

End recovery.
