(* ===== verification/RolloutApprovalFacts.v ===== *)
(** Correctness of approvals and recoveries: [RolloutApproval] and
    [ContainmentRecovery] over the chains of [ActivationChain].

    - the codecs accept exactly what the device signed;
    - applying one extends the device's chain by exactly the step it names,
      on the head it was prepared for, and at most once;
    - every proposal of the controller can be approved and applied. *)

From stdpp Require Import base tactics list numbers strings.
From Stdlib Require Import Strings.Byte.
From S2P Require Import Prelude Crypto Text Identity Postcard Rollout RolloutFacts ReleaseTrust.
From S2P Require Import ReleaseTrustFacts TrustedPolicy TrustedPolicyFacts Activation ActivationFacts.
From S2P Require Import ActivationChain RolloutApproval ContainmentRecovery.

(** [postcard]'s laws at these types, with the size of its output. *)
Class ApprovalPostcardLaws (P : ApprovalPostcard) : Prop := {
  al_content :: PostcardLaws DeviceRolloutApprovalContent;
  al_approval :: PostcardLaws SignedDeviceRolloutApproval;
  approval_size (a : SignedDeviceRolloutApproval) bs :
    to_allocvec a = Some bs →
    (len a.(approval_content).(ap_candidate_activation_record) <= 1024)%N →
    (len a.(approval_signature) <= 1024)%N →
    (0 < len bs <= len a.(approval_content).(ap_candidate_activation_record)
                   + len a.(approval_signature) + 512)%N
}.

Class RecoveryPostcardLaws (P : RecoveryPostcard) : Prop := {
  rcl_content :: PostcardLaws ContainmentRecoveryContent;
  rcl_recovery :: PostcardLaws SignedContainmentRecoveryApproval;
  recovery_size (a : SignedContainmentRecoveryApproval) bs :
    to_allocvec a = Some bs →
    (len a.(recovery_content).(rc_candidate_activation_record) <= 1024)%N →
    (len a.(recovery_signature) <= 1024)%N →
    (0 < len bs <= len a.(recovery_content).(rc_candidate_activation_record)
                   + len a.(recovery_signature) + 1024)%N
}.

(** * The reasons *)

Lemma hex_digit_printable n : (n < 16)%N → printable (nth (N.to_nat n) HEX x00) = true ∧ nth (N.to_nat n) HEX x00 ≠ x20.
Proof.
  intros Hn.
  assert (n = 0 ∨ n = 1 ∨ n = 2 ∨ n = 3 ∨ n = 4 ∨ n = 5 ∨ n = 6 ∨ n = 7 ∨ n = 8 ∨ n = 9 ∨ n = 10 ∨
          n = 11 ∨ n = 12 ∨ n = 13 ∨ n = 14 ∨ n = 15)%N as Hc by lia.
  by repeat destruct Hc as [-> | Hc]; [..|subst n].
Qed.

Lemma high_nibble b : (N.shiftr (byte_val b) 4 < 16)%N.
Proof.
  rewrite N.shiftr_div_pow2. apply N.Div0.div_lt_upper_bound. pose proof (byte_val_lt b). cbn. lia.
Qed.

Lemma low_nibble b : (N.land (byte_val b) 15 < 16)%N.
Proof.
  change 15%N with (N.ones 4). rewrite N.land_ones. apply N.mod_lt. done.
Qed.

Lemma hex_lower_printable bs : forallb printable (hex_lower bs) = true.
Proof.
  induction bs as [|b bs IH]; [done|]. cbn [hex_lower flat_map app forallb].
  rewrite (proj1 (hex_digit_printable _ (high_nibble b))), (proj1 (hex_digit_printable _ (low_nibble b))).
  exact IH.
Qed.

Lemma hex_lower_last bs : last (hex_lower bs) ≠ Some x20.
Proof.
  induction bs as [|b bs IH] using rev_ind; [done|]. unfold hex_lower. rewrite flat_map_app. cbn [flat_map app].
  change (flat_map _ bs ++ [?x; ?y]) with (flat_map (fun b => [nth (N.to_nat (N.shiftr (byte_val b) 4)) HEX x00;
    nth (N.to_nat (N.land (byte_val b) 15)) HEX x00]) bs ++ [x] ++ [y]).
  rewrite app_assoc, last_snoc. intros [= E]. by destruct (hex_digit_printable _ (low_nibble b)) as [_ Hn].
Qed.

Lemma length_hex_lower bs : length (hex_lower bs) = 2 * length bs.
Proof. induction bs as [|b bs IH]; [done|]. cbn [hex_lower flat_map app length] in *. unfold hex_lower in IH. lia. Qed.

(** A reason made of an ASCII prefix, two identifiers and a separator. *)
Lemma formatted_reason (prefix : bytes) (x y : arr 32) :
  forallb printable prefix = true → head prefix ≠ Some x20 → (1 <= length prefix <= 100) →
  let s := prefix ++ hex_lower x ++ b_str " bundle " ++ hex_lower y in
  as_bytes (ascii_str s) = s ∧ reason_valid (ascii_str s).
Proof.
  intros Hp Hh Hl s.
  assert (forallb printable s = true) as Hs.
  { subst s. rewrite !forallb_app, Hp, !hex_lower_printable. done. }
  assert (as_bytes (ascii_str s) = s) as Hb.
  { unfold ascii_str. destruct (from_utf8_valid s) as [t Ht]; [by apply ascii_utf8, printable_ascii|].
    rewrite Ht. by apply from_utf8_Some. }
  split; [done|]. apply plain_reason; rewrite Hb.
  - unfold plain_text. rewrite Hs, !andb_true_iff, !bool_decide_eq_true. split_and!; [done| |].
    + subst s. by destruct prefix; [cbn in Hl; lia|].
    + subst s. rewrite !app_assoc, last_app. destruct (last (hex_lower y)) as [c|] eqn:E.
      * intros [= ->]. by apply (hex_lower_last y).
      * apply last_None in E. apply (f_equal length) in E. rewrite length_hex_lower, arr_length in E. done.
  - subst s. unfold len. rewrite !length_app, !length_hex_lower, !arr_length. cbn [length b_str]. 
    change (length (b_str " bundle ")) with 8. lia.
Qed.

Lemma approval_reason_valid x y : reason_valid (approval_reason x y).
Proof. apply (formatted_reason (b_str "device-approved rollout policy ")); [done|done|cbn; lia]. Qed.

Lemma recovery_reason_valid x y : reason_valid (recovery_reason x y).
Proof. apply (formatted_reason (b_str "explicit containment recovery policy ")); [done|done|cbn; lia]. Qed.

(** * Approvals *)

Section approvals.
Context {E : Ed25519} {D : Blake3Derive} {SH : Sha256} {P : ApprovalPostcard} {PL : ApprovalPostcardLaws P}.
Implicit Types (a : SignedDeviceRolloutApproval) (r : ActivationRecord) (l : list ActivationRecord).

Abbreviation content_of a := a.(approval_content).
Abbreviation device_of a := a.(approval_content).(ap_local_device_id).

(** The content is valid and carries the device's signature. *)
Definition approval_signed a : Prop :=
  approval_validate_content (content_of a) = Ok tt ∧
  ∃ bs, to_allocvec (content_of a) = Some bs ∧
    device_verify (device_of a) (APPROVAL_SIGNATURE_DOMAIN ++ bs) a.(approval_signature) = Ok tt.

Lemma approval_signing_ok (c : DeviceRolloutApprovalContent) m :
  approval_signing_bytes c = Ok m ↔
  approval_validate_content c = Ok tt ∧
  ∃ bs, to_allocvec c = Some bs ∧ m = APPROVAL_SIGNATURE_DOMAIN ++ bs.
Proof.
  unfold approval_signing_bytes. rewrite rbind_unit_ok, rbind_ok. setoid_rewrite ok_or_ok. split.
  - intros (Hv & bs & Hb & <-%Ok_inj). eauto.
  - intros (Hv & bs & Hb & ->). eauto.
Qed.

Lemma approval_verify_ok a : approval_verify_signature a = Ok tt ↔ approval_signed a.
Proof.
  unfold approval_verify_signature, approval_signed. rewrite rbind_unit_ok, rbind_ok.
  setoid_rewrite approval_signing_ok. setoid_rewrite map_err_ok. split.
  - intros (Hv & m & (_ & bs & Hb & ->) & Hs). eauto.
  - intros (Hv & bs & Hb & Hs). split; [done|]. eauto 10.
Qed.

Lemma approval_encode_ok a bs :
  approval_encode a = Ok bs ↔
  approval_signed a ∧ to_allocvec a = Some bs ∧ (0 < len bs <= MAX_DEVICE_ROLLOUT_APPROVAL_BYTES)%N.
Proof.
  unfold approval_encode. rewrite !rbind_unit_ok, approval_verify_ok, rbind_ok.
  setoid_rewrite ok_or_ok. split.
  - intros (_ & Hs & x & Hx & [Hl%length_check_ok <-%Ok_inj]%rbind_unit_ok). done.
  - intros (Hs & Hb & Hl). split; [apply Hs|]. split; [done|]. exists bs. split; [done|].
    apply rbind_unit_ok. split; [by apply length_check_ok|done].
Qed.

Lemma approval_decode_exact bs d a :
  approval_decode_and_verify bs d = Ok a ↔ device_of a = d ∧ approval_encode a = Ok bs.
Proof.
  unfold approval_decode_and_verify. split.
  - intros [_ Hd]%rbind_unit_ok. apply rbind_ok in Hd as (a' & _ & Hd).
    apply rbind_unit_ok in Hd as [Hdev%fail_if_ok%bool_decide_eq_false%dec_stable Hd].
    apply rbind_unit_ok in Hd as [_ Hd]. apply rbind_ok in Hd as (again & He & Hd).
    apply rbind_unit_ok in Hd as [Ha%fail_if_ok%bool_decide_eq_false%dec_stable <-%Ok_inj]. by subst.
  - intros [Hd He]. pose proof (proj1 (approval_encode_ok _ _) He) as (Hs & Hb & Hl).
    apply rbind_unit_ok. split; [by apply length_check_ok|]. apply rbind_ok. exists a.
    split; [by apply ok_or_ok, postcard_roundtrip|]. apply rbind_unit_ok.
    split; [apply fail_if_ok, bool_decide_eq_false; intros Hc; by apply Hc|]. apply rbind_unit_ok.
    split; [by apply approval_verify_ok|]. apply rbind_ok. exists bs. split; [done|]. apply rbind_unit_ok.
    split; [apply fail_if_ok, bool_decide_eq_false; intros Hc; by apply Hc|done].
Qed.

(** What the content says about its candidate. *)
Definition describes (c : DeviceRolloutApprovalContent) r : Prop :=
  ∃ t dp, target_from_code c.(ap_target) = Ok t ∧
    approval_disposition_from_code c.(ap_disposition) = Ok dp ∧
    r.(migration_state) = migration_state_of t ∧ r.(disposition) = activation_disposition dp ∧
    r.(actor) = ReleasePolicy.

Lemma candidate_differs_ok (c : DeviceRolloutApprovalContent) r :
  candidate_differs c r = Ok false ↔ describes c r.
Proof.
  unfold candidate_differs, describes. rewrite rbind_ok. split.
  - intros (t & Ht & Hc). case_bool_decide as Hs; [done|].
    apply rbind_ok in Hc as (dp & Hd & [H1 H2]%Ok_inj%orb_false_iff).
    apply bool_decide_eq_false, dec_stable in H1, H2. eauto 10.
  - intros (t & dp & Ht & Hd & Hs & H1 & H2). exists t. split; [done|].
    rewrite bool_decide_eq_false_2 by (intros Hc; by apply Hc). apply rbind_ok. exists dp. split; [done|].
    by rewrite !bool_decide_eq_false_2 by (intros Hc; by apply Hc).
Qed.

(** The content was signed for this proposal. *)
Definition signed_for (c : DeviceRolloutApprovalContent) (p : RolloutProposal) : Prop :=
  c.(ap_policy_id) = p.(pr_policy_id) ∧ c.(ap_policy_epoch) = p.(pr_policy_epoch) ∧
  target_from_code c.(ap_target) = Ok p.(pr_target) ∧
  approval_disposition_from_code c.(ap_disposition) = Ok p.(pr_disposition).

Lemma proposal_differs_ok (c : DeviceRolloutApprovalContent) p :
  proposal_differs c p = Ok false ↔ signed_for c p.
Proof.
  unfold proposal_differs, signed_for. split.
  - case_bool_decide as H1; [done|]. case_bool_decide as H2; [done|].
    intros Hc. apply rbind_ok in Hc as (t & Ht & Hc). case_bool_decide as H3; [done|].
    apply rbind_ok in Hc as (dp & Hd & H4%Ok_inj%bool_decide_eq_false%dec_stable). by subst.
  - intros (-> & -> & Ht & Hd). rewrite !bool_decide_eq_false_2 by (intros Hc; by apply Hc).
    rewrite Ht. cbn [rbind]. rewrite bool_decide_eq_false_2 by (intros Hc; by apply Hc).
    rewrite Hd. cbn [rbind]. by rewrite bool_decide_eq_false_2 by (intros Hc; by apply Hc).
Qed.

Lemma validate_device_ok d l :
  achain d l → validate_current_device d (head l) = Ok tt.
Proof.
  destruct 1 as [|r l Hl Hd]; [done|]. cbn [head validate_current_device]. apply fail_if_ok, bool_decide_eq_false.
  intros Hc. by apply Hc.
Qed.

Lemma current_epoch_len d l : achain d l → uint_val (current_epoch (head l)) = len l.
Proof. destruct l as [|r l]; [done|]. apply achain_epoch. Qed.

(** When the answer is [Ready]. *)
Definition applies a bid decision l r : Prop :=
  approval_signed a ∧ (content_of a).(ap_trusted_policy_bundle_id) = bid ∧
  record_decode_and_verify (content_of a).(ap_candidate_activation_record) (device_of a) = Ok r ∧
  describes (content_of a) r ∧
  (∃ p, proposal_from_decision decision = Ok p ∧ signed_for (content_of a) p) ∧
  (content_of a).(ap_expected_previous_record_id) = option_map record_hash (head l) ∧
  uint_val (content_of a).(ap_expected_previous_epoch) = len l ∧
  achain (device_of a) (r :: l).

Lemma apply_ready a bid decision l r :
  achain (device_of a) l →
  approval_apply a bid decision (head l) = Ok (Ready r) ↔
  applies a bid decision l r ∧ already_current (content_of a) r (head l) = Ok false.
Proof.
  intros Hl. unfold approval_apply, applies. cbv zeta. split.
  - intros [Hs%approval_verify_ok H]%rbind_unit_ok.
    apply rbind_unit_ok in H as [Hb%fail_if_ok%bool_decide_eq_false%dec_stable H].
    apply rbind_ok in H as (r' & Hr%map_err_ok & H). apply rbind_ok in H as (x & Hx & H).
    apply rbind_unit_ok in H as [->%fail_if_ok H]. apply candidate_differs_ok in Hx.
    apply rbind_ok in H as ([] & Ha & H); [done|]. apply rbind_ok in H as (p & Hp & H).
    apply rbind_ok in H as (y & Hy & H). apply rbind_unit_ok in H as [->%fail_if_ok H].
    apply proposal_differs_ok in Hy. apply rbind_unit_ok in H as [_ H]. apply rbind_unit_ok in H as [_ H].
    apply rbind_ok in H as (id & Hid%map_err_ok & H). apply (previous_id_ok _ _ _ Hl) in Hid as ->.
    apply rbind_unit_ok in H as [[H1 H2]%fail_if_ok%orb_false_iff H].
    apply bool_decide_eq_false, dec_stable in H1, H2.
    apply rbind_unit_ok in H as [Ht%map_err_ok [= <-]%Ok_inj].
    apply record_decode_exact in Hr as (Hd & Hrs & Hbs).
    split; [|done]. split_and!; [done|done|by apply record_decode_exact|done|by eauto|done| |].
    + rewrite <-H2. by eapply current_epoch_len.
    + by apply achain_transition.
  - intros [(Hs & Hb & Hr & Hx & (p & Hp & Hy) & H1 & H2 & Hc) Ha].
    rewrite (proj2 (approval_verify_ok a) Hs). cbn [rbind].
    rewrite Hb, bool_decide_eq_false_2 by (intros Hc'; by apply Hc'). cbn [fail_if rbind]. rewrite Hr. cbn [map_err rbind].
    rewrite (proj2 (candidate_differs_ok _ _) Hx). cbn [rbind fail_if]. rewrite Ha. cbn [rbind].
    rewrite Hp. cbn [rbind]. rewrite (proj2 (proposal_differs_ok _ _) Hy). cbn [rbind fail_if].
    destruct Hx as (t & dp & Ht & Hd & -> & -> & ->). destruct Hy as (_ & _ & Ht' & Hd').
    rewrite Ht in Ht'. apply Ok_inj in Ht'. rewrite Hd in Hd'. apply Ok_inj in Hd'. subst t dp.
    rewrite !bool_decide_eq_false_2 by (intros Hc'; by apply Hc'). cbn [orb fail_if rbind].
    rewrite (validate_device_ok _ _ Hl). cbn [rbind]. rewrite (proj2 (previous_id_ok _ _ _ Hl) eq_refl).
    cbn [map_err rbind]. rewrite H1, bool_decide_eq_false_2 by (intros Hc'; by apply Hc').
    rewrite bool_decide_eq_false_2.
    2: { intros Hc'. apply Hc'. apply uint_eq. rewrite H2. by eapply current_epoch_len. }
    cbn [orb fail_if rbind].
    rewrite (proj2 (achain_transition _ r l Hl (proj2 (achain_signed _ _ _ Hc)) (proj1 (achain_signed _ _ _ Hc))) Hc).
    done.
Qed.

Lemma apply_again a bid decision r :
  approval_signed a → (content_of a).(ap_trusted_policy_bundle_id) = bid →
  record_decode_and_verify (content_of a).(ap_candidate_activation_record) (device_of a) = Ok r →
  describes (content_of a) r → approval_apply a bid decision (Some r) = Ok (AlreadyApplied r).
Proof.
  intros Hs Hb Hr Hx. unfold approval_apply. cbv zeta. rewrite (proj2 (approval_verify_ok a) Hs). cbn [rbind].
  rewrite Hb, bool_decide_eq_false_2 by (intros Hc'; by apply Hc'). cbn [fail_if rbind]. rewrite Hr. cbn [map_err rbind].
  rewrite (proj2 (candidate_differs_ok _ _) Hx). cbn [rbind fail_if already_current].
  apply record_decode_exact in Hr as (_ & Hrs & Hbs).
  rewrite (proj2 (record_id_ok r _) (conj Hrs eq_refl)). cbn [map_err rbind]. rewrite bool_decide_true by done.
  rewrite (proj2 (record_encode_ok r _) (conj Hrs eq_refl)). cbn [map_err rbind].
  rewrite Hbs, bool_decide_eq_false_2 by (intros Hc'; by apply Hc'). done.
Qed.

(** The candidate has another epoch than the head, so it is not the head. *)
Lemma not_already a d l r :
  achain d (r :: l) →
  ids_distinct [r] l →
  already_current (content_of a) r (head l) = Ok false.
Proof.
  intros Hc Hi. destruct l as [|p l]; [done|]. cbn [head already_current].
  inversion Hc as [|? ? Hl Hd Hs Hk]; subst. destruct (achain_signed _ _ _ Hl) as [Hps _].
  rewrite (proj2 (record_id_ok p _) (conj Hps eq_refl)), (proj2 (record_id_ok r _) (conj Hs eq_refl)).
  cbn [map_err rbind]. case_bool_decide as Heq; [|done]. exfalso.
  assert (r = p) as Hrp.
  { apply record_bytes_inj; [done|done|]. apply Hi; [by left|by left|done]. }
  subst p. cbn [head linked] in Hk. destruct Hk as (_ & _ & Hk & _). lia.
Qed.

(** ** Preparing *)

Lemma target_code_ok t : target_from_code (target_code t) = Ok t.
Proof. by destruct t. Qed.
Lemma approval_disposition_code_ok dp : approval_disposition_from_code (approval_disposition_code dp) = Ok dp.
Proof. by destruct dp. Qed.

(** The step of the state machine a proposal asks for. *)
Definition proposed_view (p : RolloutProposal) (v : view) : view :=
  {| vw_state := migration_state_of p.(pr_target);
     vw_disposition := activation_disposition p.(pr_disposition); vw_evidence := v.(vw_evidence) |}.

Lemma head_evidence (current : option ActivationRecord) :
  match current with Some r => r.(canonical_evidence_id) | None => None end
  = (head_view current).(vw_evidence).
Proof. by destruct current. Qed.

Lemma prepare_applies `{!Ed25519Laws E} i bid decision l p nonce :
  achain (device_id i) l → (len l + 1 < U64_BOUND)%N → proposal_from_decision decision = Ok p →
  astep (head_view (head l)) (proposed_view p (head_view (head l))) → p.(pr_target) ≠ Rollout.LegacyOnly →
  bid ≠ zero32 → p.(pr_policy_id) ≠ zero32 → uint_val p.(pr_policy_epoch) ≠ 0%N →
  device_id i ≠ zero32 → nonce ≠ zero32 →
  ∃ a r, approval_prepare i bid decision (head l) UserOrTestOperatorApproved (Some nonce) = Ok a ∧
    device_of a = device_id i ∧ applies a bid decision l r.
Proof.
  intros Hc Hl Hp Ha Ht Hb Hpi Hpe Hd Hn. unfold approval_prepare. cbv zeta.
  rewrite bool_decide_eq_false_2 by (intros Hx; by apply Hx). cbn [fail_if rbind]. rewrite Hp. cbn [rbind].
  rewrite (validate_device_ok _ _ Hc). cbn [rbind]. rewrite head_evidence.
  assert (bool_decide (p.(pr_disposition) = Rollout.EmergencyContainment)
          && negb (is_some (head_view (head l)).(vw_evidence)) = false) as ->.
  { apply andb_false_iff. rewrite bool_decide_eq_false, negb_false_iff, is_some_iff.
    destruct p.(pr_disposition) eqn:Edp; [by left|right].
    apply (astep_permitted _ _ (achain_permitted _ _ Hc)) in Ha as [_ Ha]. apply Ha.
    unfold proposed_view. cbn [vw_disposition]. by rewrite Edp. }
  cbn [fail_if rbind].
  destruct (issue_ok i l (proposed_view p (head_view (head l))) ReleasePolicy
    (approval_reason p.(pr_policy_id) bid) Hc Hl (approval_reason_valid _ _) Ha) as [r Hi].
  destruct (issue_inv _ _ _ _ _ _ _ _ Hc Hi) as (Hc' & Hv & Hact & _).
  cbn [proposed_view vw_state vw_disposition vw_evidence] in Hi. rewrite Hi. cbn [map_err rbind ok_or].
  destruct (achain_signed _ _ _ Hc') as [Hrs Hrd]. unfold issue_with_nonce.
  rewrite (proj2 (previous_id_ok _ _ _ Hc) eq_refl), (proj2 (record_encode_ok r _) (conj Hrs eq_refl)).
  cbn [map_err rbind]. cbv zeta. set (c := Build_DeviceRolloutApprovalContent _ _ _ _ _ _ _ _ _ _ _).
  assert (approval_validate_content c = Ok tt) as Hvc.
  { unfold approval_validate_content. subst c. cbn [ap_version ap_trusted_policy_bundle_id ap_policy_id
      ap_policy_epoch ap_target ap_disposition ap_local_device_id ap_nonce ap_candidate_activation_record].
    rewrite !bool_decide_eq_false_2 by first [done | intros Hx; by apply Hx]. rewrite (proj2 (N.eqb_neq _ _) Hpe).
    cbn [orb fail_if rbind]. rewrite target_code_ok. cbn [rbind]. rewrite approval_disposition_code_ok. cbn [rbind].
    rewrite (bool_decide_eq_false_2 (p.(pr_target) = _)) by done. cbn [andb fail_if rbind].
    destruct (record_bytes_bounds r Hrs) as [H1 H2]. unfold fail_if.
    destruct (N.eqb_spec (len (record_bytes r)) 0); [lia|].
    by destruct (N.ltb_spec MAX_ACTIVATION_RECORD_BYTES (len (record_bytes r))); [lia|]. }
  rewrite Hvc. cbn [rbind]. destruct (postcard_total c) as [cb Hcb].
  rewrite (proj2 (approval_signing_ok c _) (conj Hvc (ex_intro _ cb (conj Hcb eq_refl)))). cbn [rbind].
  set (a := Build_SignedDeviceRolloutApproval _ _).
  assert (approval_signed a) as Hsa.
  { split; [done|]. exists cb. split; [done|]. apply device_signed_verifies. }
  rewrite (proj2 (approval_verify_ok a) Hsa). cbn [rbind]. exists a, r. split; [done|]. split; [done|].
  unfold applies. injection Hv as Hv1 Hv2 Hv3. split_and!; [done|done| | | | | |done].
  - apply record_decode_exact. by split_and!.
  - exists p.(pr_target), p.(pr_disposition). split_and!;
      [apply target_code_ok|apply approval_disposition_code_ok|done..].
  - exists p. split; [done|]. split_and!; [done|done|apply target_code_ok|apply approval_disposition_code_ok].
  - done.
  - by eapply current_epoch_len.
Qed.

(** Prepared approvals are encoded within the limit. *)
Lemma approval_encodes a : approval_signed a → (len a.(approval_signature) <= 64)%N → ∃ bs, approval_encode a = Ok bs.
Proof.
  intros Hs Hl. destruct (postcard_total a) as [bs Hb]. exists bs. apply approval_encode_ok.
  split; [done|]. split; [done|]. destruct Hs as [Hv _]. unfold approval_validate_content in Hv.
  apply rbind_unit_ok in Hv as [_ Hv]. apply rbind_unit_ok in Hv as [_ Hv].
  apply rbind_ok in Hv as (? & _ & Hv). apply rbind_ok in Hv as (? & _ & Hv).
  apply rbind_unit_ok in Hv as [_ [_ Hv]%length_check_ok].
  assert (MAX_ACTIVATION_RECORD_BYTES = 448%N) as Hm by done. rewrite Hm in Hv.
  pose proof (approval_size a bs Hb ltac:(lia) ltac:(lia)). unfold MAX_DEVICE_ROLLOUT_APPROVAL_BYTES. lia.
Qed.

End approvals.

(** * Recoveries *)

Section recoveries.
Context {E : Ed25519} {D : Blake3Derive} {SH : Sha256} {RP : RolloutPostcard} {TP : TrustPostcard}.
Context {BP : BundlePostcard} {P : RecoveryPostcard}.
Context {RPL : RolloutPostcardLaws RP} {TPL : TrustPostcardLaws TP} {BPL : BundlePostcardLaws BP}.
Context {PL : RecoveryPostcardLaws P}.
Implicit Types (a : SignedContainmentRecoveryApproval) (r : ActivationRecord) (l : list ActivationRecord).
Implicit Types (b : TrustedReleasePolicyBundle) (h : RolloutHealthSnapshot) (root : ReleaseTrustRoot).

Abbreviation rcontent_of a := a.(recovery_content).
Abbreviation rdevice_of a := a.(recovery_content).(rc_local_device_id).
Abbreviation phase_of b := b.(bundle_policy).(policy_content).(rp_phase).

Definition recovery_signed a : Prop :=
  recovery_validate_content (rcontent_of a) = Ok tt ∧
  ∃ bs, to_allocvec (rcontent_of a) = Some bs ∧
    device_verify (rdevice_of a) (RECOVERY_SIGNATURE_DOMAIN ++ bs) a.(recovery_signature) = Ok tt.

Lemma recovery_signing_ok (c : ContainmentRecoveryContent) m :
  recovery_signing_bytes c = Ok m ↔
  recovery_validate_content c = Ok tt ∧
  ∃ bs, to_allocvec c = Some bs ∧ m = RECOVERY_SIGNATURE_DOMAIN ++ bs.
Proof.
  unfold recovery_signing_bytes. rewrite rbind_unit_ok, rbind_ok. setoid_rewrite ok_or_ok. split.
  - intros (Hv & bs & Hb & <-%Ok_inj). eauto.
  - intros (Hv & bs & Hb & ->). eauto.
Qed.

Lemma recovery_verify_ok a : recovery_verify_signature a = Ok tt ↔ recovery_signed a.
Proof.
  unfold recovery_verify_signature, recovery_signed. rewrite rbind_unit_ok, rbind_ok.
  setoid_rewrite recovery_signing_ok. setoid_rewrite map_err_ok. split.
  - intros (Hv & m & (_ & bs & Hb & ->) & Hs). eauto.
  - intros (Hv & bs & Hb & Hs). split; [done|]. eauto 10.
Qed.

Lemma recovery_encode_ok a bs :
  recovery_encode a = Ok bs ↔
  recovery_signed a ∧ to_allocvec a = Some bs ∧ (0 < len bs <= MAX_CONTAINMENT_RECOVERY_APPROVAL_BYTES)%N.
Proof.
  unfold recovery_encode. rewrite !rbind_unit_ok, recovery_verify_ok, rbind_ok.
  setoid_rewrite ok_or_ok. split.
  - intros (_ & Hs & x & Hx & [Hl%length_check_ok <-%Ok_inj]%rbind_unit_ok). done.
  - intros (Hs & Hb & Hl). split; [apply Hs|]. split; [done|]. exists bs. split; [done|].
    apply rbind_unit_ok. split; [by apply length_check_ok|done].
Qed.

Lemma recovery_decode_exact bs d a :
  recovery_decode_and_verify bs d = Ok a ↔ rdevice_of a = d ∧ recovery_encode a = Ok bs.
Proof.
  unfold recovery_decode_and_verify. split.
  - intros [_ Hd]%rbind_unit_ok. apply rbind_ok in Hd as (a' & _ & Hd).
    apply rbind_unit_ok in Hd as [Hdev%fail_if_ok%bool_decide_eq_false%dec_stable Hd].
    apply rbind_unit_ok in Hd as [_ Hd]. apply rbind_ok in Hd as (again & He & Hd).
    apply rbind_unit_ok in Hd as [Ha%fail_if_ok%bool_decide_eq_false%dec_stable <-%Ok_inj]. by subst.
  - intros [Hd He]. pose proof (proj1 (recovery_encode_ok _ _) He) as (Hs & Hb & Hl).
    apply rbind_unit_ok. split; [by apply length_check_ok|]. apply rbind_ok. exists a.
    split; [by apply ok_or_ok, postcard_roundtrip|]. apply rbind_unit_ok.
    split; [apply fail_if_ok, bool_decide_eq_false; intros Hc; by apply Hc|]. apply rbind_unit_ok.
    split; [by apply recovery_verify_ok|]. apply rbind_ok. exists bs. split; [done|]. apply rbind_unit_ok.
    split; [apply fail_if_ok, bool_decide_eq_false; intros Hc; by apply Hc|done].
Qed.

(** The policy and the counters under which a device may recover. *)
Definition healthy b h : Prop :=
  let p := b.(bundle_policy).(policy_content) in
  p.(rp_disposition) = NormalPolicy ∧ p.(rp_phase) ≠ LegacyOnlyHold ∧
  policy_id b.(bundle_policy) = Ok h.(hs_policy_id) ∧ h.(hs_artifact) = p.(rp_artifact) ∧
  h.(hs_phase) = p.(rp_phase) ∧ h.(hs_cohort) = p.(rp_cohort) ∧
  counters_healthy h.(hs_counters) = Ok true.

Lemma validate_health_ok b h : validate_health b h = Ok tt ↔ healthy b h.
Proof.
  unfold validate_health, healthy. cbv zeta. split.
  - intros [[H1 H2]%fail_if_ok%orb_false_iff H]%rbind_unit_ok.
    apply bool_decide_eq_false, dec_stable in H1. apply bool_decide_eq_false in H2.
    apply rbind_ok in H as (id & Hid%map_err_ok & H).
    apply rbind_unit_ok in H as [Hb%fail_if_ok H].
    apply orb_false_iff in Hb as [[[H3 H4]%orb_false_iff H5]%orb_false_iff H6].
    apply bool_decide_eq_false, dec_stable in H3, H4, H5, H6.
    apply rbind_ok in H as (x & Hx & H%fail_if_ok%negb_false_iff). subst x id. done.
  - intros (H1 & H2 & H3 & H4 & H5 & H6 & H7).
    rewrite !bool_decide_eq_false_2 by first [assumption | intros Hc; apply Hc; assumption]. cbn [orb fail_if rbind].
    rewrite H3. cbn [map_err rbind]. rewrite !bool_decide_eq_false_2 by (intros Hc; apply Hc; first [assumption | reflexivity]).
    cbn [orb fail_if rbind]. by rewrite H7.
Qed.

(** The head is a containment record the policy reaches. *)
Definition contained d r (ph : RolloutPhase) : Prop :=
  record_signed r ∧ r.(local_device_id) = d ∧ r.(disposition) = EmergencyContainment ∧
  r.(canonical_evidence_id) ≠ None ∧
  ∃ t, activation_target r.(migration_state) = Ok t ∧
    (target_ordinal t <= target_ordinal (rollout_phase_target ph))%N.

Lemma validate_containment_ok d r ph : validate_containment d r ph = Ok tt ↔ contained d r ph.
Proof.
  unfold validate_containment, contained.
  rewrite !rbind_unit_ok, map_err_ok, record_verify_signature_ok, !fail_if_ok, !bool_decide_eq_false,
    negb_false_iff, is_some_iff, rbind_ok.
  setoid_rewrite fail_if_ok. setoid_rewrite N.ltb_ge. split.
  - intros (H1 & H2%dec_stable & H3%dec_stable & H4 & H5). done.
  - intros (H1 & H2 & H3 & H4 & H5). split_and!; [done|intros Hc; by apply Hc..|done|done].
Qed.

Definition recovers a root b h l r : Prop :=
  recovery_signed a ∧ trusted root b ∧ healthy b h ∧
  bundle_id b = Ok (rcontent_of a).(rc_trusted_policy_bundle_id) ∧
  (rcontent_of a).(rc_health) = health_binding h ∧
  record_decode_and_verify (rcontent_of a).(rc_candidate_activation_record) (rdevice_of a) = Ok r ∧
  ∃ p, head l = Some p ∧ contained (rdevice_of a) p (phase_of b) ∧
    (rcontent_of a).(rc_containment_record_id) = record_hash p ∧
    (rcontent_of a).(rc_containment_epoch) = p.(migration_epoch) ∧
    p.(canonical_evidence_id) = Some (rcontent_of a).(rc_canonical_evidence_id) ∧
    view_of r = {| vw_state := p.(migration_state); vw_disposition := Normal;
                   vw_evidence := p.(canonical_evidence_id) |} ∧
    r.(actor) = ExplicitLocal ∧ achain (rdevice_of a) (r :: l).

Lemma recovery_ready a root b h l p r :
  achain (rdevice_of a) l → head l = Some p →
  recovery_apply a root b h p = Ok (Ready r) ↔ recovers a root b h l r ∧ record_hash p ≠ record_hash r.
Proof.
  intros Hl Hp. unfold recovery_apply, recovers. cbv zeta.
  assert (record_signed p) as Hps. { destruct l as [|q l]; [done|]. injection Hp as ->. by inversion Hl. }
  split.
  - intros [Hs%recovery_verify_ok H]%rbind_unit_ok.
    apply rbind_unit_ok in H as [Ht%map_err_ok%bundle_verify_ok H].
    apply rbind_unit_ok in H as [Hh%validate_health_ok H].
    apply rbind_ok in H as (bid & Hbid%map_err_ok & H).
    apply rbind_unit_ok in H as [[H1 H2]%fail_if_ok%orb_false_iff H].
    apply bool_decide_eq_false, dec_stable in H1, H2.
    apply rbind_ok in H as (r' & Hr%map_err_ok & H).
    apply rbind_ok in H as (id & [_ ->]%map_err_ok%record_id_ok & H).
    apply rbind_ok in H as (id' & [_ ->]%map_err_ok%record_id_ok & H).
    case_bool_decide as Hne.
    { apply rbind_ok in H as (x & _ & H). by apply rbind_unit_ok in H as [_ H]. }
    apply rbind_unit_ok in H as [Hcn%validate_containment_ok H].
    apply rbind_unit_ok in H as [[[H3 H4]%orb_false_iff H5]%fail_if_ok%orb_false_iff H].
    apply bool_decide_eq_false, dec_stable in H3, H4, H5.
    apply rbind_unit_ok in H as [[[[H6 H7]%orb_false_iff H8]%orb_false_iff H9]%fail_if_ok%orb_false_iff H].
    apply bool_decide_eq_false, dec_stable in H6, H7, H8, H9.
    apply rbind_unit_ok in H as [Htr%map_err_ok [= <-]%Ok_inj].
    split; [|done]. subst bid. split_and!; [done..|]. exists p. split_and!; [done|done|done|done|done| |done|].
    + unfold view_of. by rewrite H6, H7, H9.
    + apply record_decode_exact in Hr as (Hd & Hrs & _). apply achain_transition; [done..|]. by rewrite Hp.
  - intros [(Hs & Ht & Hh & Hb & Hhb & Hr & p' & Hp' & Hcn & H3 & H4 & H5 & Hv & H8 & Hc) Hne].
    rewrite Hp in Hp'. injection Hp' as <-.
    rewrite (proj2 (recovery_verify_ok a) Hs). cbn [rbind]. rewrite (proj2 (bundle_verify_ok b root) Ht). cbn [map_err rbind].
    rewrite (proj2 (validate_health_ok b h) Hh). cbn [rbind]. rewrite Hb. cbn [map_err rbind].
    rewrite Hhb, !bool_decide_eq_false_2 by (intros Hx; by apply Hx). cbn [orb fail_if rbind]. rewrite Hr. cbn [map_err rbind].
    pose proof (proj1 (record_decode_exact _ _ _) Hr) as (Hd & Hrs & _).
    rewrite (proj2 (record_id_ok p _) (conj Hps eq_refl)), (proj2 (record_id_ok r _) (conj Hrs eq_refl)). cbn [map_err rbind].
    rewrite bool_decide_eq_false_2 by done. rewrite (proj2 (validate_containment_ok _ _ _) Hcn). cbn [rbind].
    rewrite !bool_decide_eq_false_2
      by (intros Hx; apply Hx; first [assumption | symmetry; assumption]). cbn [orb fail_if rbind].
    unfold view_of in Hv. injection Hv as Hv1 Hv2 Hv3.
    rewrite !bool_decide_eq_false_2 by (intros Hx; apply Hx; assumption). cbn [orb fail_if rbind].
    apply (achain_transition _ r l Hl Hd Hrs) in Hc. rewrite Hp in Hc. by rewrite Hc.
Qed.

Lemma recovery_again a root b h r :
  recovery_signed a → trusted root b → healthy b h →
  bundle_id b = Ok (rcontent_of a).(rc_trusted_policy_bundle_id) →
  (rcontent_of a).(rc_health) = health_binding h →
  record_decode_and_verify (rcontent_of a).(rc_candidate_activation_record) (rdevice_of a) = Ok r →
  recovery_apply a root b h r = Ok (AlreadyApplied r).
Proof.
  intros Hs Ht Hh Hb Hhb Hr. unfold recovery_apply. cbv zeta.
  rewrite (proj2 (recovery_verify_ok a) Hs). cbn [rbind]. rewrite (proj2 (bundle_verify_ok b root) Ht). cbn [map_err rbind].
  rewrite (proj2 (validate_health_ok b h) Hh). cbn [rbind]. rewrite Hb. cbn [map_err rbind].
  rewrite Hhb, !bool_decide_eq_false_2 by (intros Hx; by apply Hx). cbn [orb fail_if rbind]. rewrite Hr. cbn [map_err rbind].
  pose proof (proj1 (record_decode_exact _ _ _) Hr) as (Hd & Hrs & Hbs).
  rewrite (proj2 (record_id_ok r _) (conj Hrs eq_refl)). cbn [map_err rbind]. rewrite bool_decide_true by done.
  rewrite (proj2 (record_encode_ok r _) (conj Hrs eq_refl)). cbn [map_err rbind].
  by rewrite Hbs, bool_decide_eq_false_2 by (intros Hx; by apply Hx).
Qed.

Lemma recovery_prepare_recovers `{!Ed25519Laws E} i root b h l p e bid nonce :
  achain (device_id i) l → (len l + 1 < U64_BOUND)%N → head l = Some p →
  trusted root b → healthy b h → contained (device_id i) p (phase_of b) →
  p.(canonical_evidence_id) = Some e → bundle_id b = Ok bid →
  bid ≠ zero32 → h.(hs_policy_id) ≠ zero32 → h.(hs_artifact) ≠ zero32 → device_id i ≠ zero32 →
  record_hash p ≠ zero32 → e ≠ zero32 → nonce ≠ zero32 →
  ∃ a r, recovery_prepare i root b h p RecoveryApproved (Some nonce) = Ok a ∧
    rdevice_of a = device_id i ∧ recovers a root b h l r.
Proof.
  intros Hc Hl Hp Ht Hh Hcn He Hb Z1 Z2 Z3 Z4 Z5 Z6 Z7. unfold recovery_prepare. cbv zeta.
  rewrite bool_decide_eq_false_2 by (intros Hx; by apply Hx). cbn [fail_if rbind].
  rewrite (proj2 (bundle_verify_ok b root) Ht). cbn [map_err rbind].
  rewrite (proj2 (validate_health_ok b h) Hh). cbn [rbind].
  rewrite (proj2 (validate_containment_ok _ _ _) Hcn). cbn [rbind]. rewrite He. cbn [ok_or rbind].
  rewrite Hb. cbn [map_err rbind]. destruct Hh as (Hh1 & Hh2 & Hpid & Hh3) eqn:Ehh. rewrite Hpid. cbn [map_err rbind].
  pose proof Hcn as (Hps & Hpd & Hdisp & _).
  assert (astep (head_view (head l)) {| vw_state := p.(migration_state); vw_disposition := Normal; vw_evidence := Some e |}) as Ha.
  { rewrite Hp. cbn [head_view]. unfold view_of. rewrite Hdisp, He. constructor. }
  destruct (issue_ok i l _ ExplicitLocal (recovery_reason h.(hs_policy_id) bid) Hc Hl (recovery_reason_valid _ _) Ha) as [r Hi].
  destruct (issue_inv _ _ _ _ _ _ _ _ Hc Hi) as (Hc' & Hv & Hact & _). cbn [vw_state vw_disposition vw_evidence] in Hi, Hv.
  rewrite Hp in Hi. rewrite Hi. cbn [map_err rbind ok_or]. destruct (achain_signed _ _ _ Hc') as [Hrs Hrd].
  rewrite (proj2 (record_id_ok p _) (conj Hps eq_refl)), (proj2 (record_encode_ok r _) (conj Hrs eq_refl)). cbn [map_err rbind].
  set (c := Build_ContainmentRecoveryContent _ _ _ _ _ _ _ _ _).
  assert (recovery_validate_content c = Ok tt) as Hvc.
  { unfold recovery_validate_content. subst c. cbn [rc_version rc_trusted_policy_bundle_id rc_health
      rc_local_device_id rc_containment_record_id rc_containment_epoch rc_canonical_evidence_id rc_nonce
      rc_candidate_activation_record hb_policy_id hb_release_artifact_id health_binding].
    rewrite !bool_decide_eq_false_2 by first [assumption | intros Hx; by apply Hx].
    assert (uint_val p.(migration_epoch) ≠ 0%N) as Hep.
    { destruct l as [|q l]; [done|]. injection Hp as ->. rewrite (achain_epoch _ _ _ Hc), len_cons. lia. }
    rewrite (proj2 (N.eqb_neq _ _) Hep). cbn [orb fail_if rbind]. destruct (record_bytes_bounds r Hrs) as [H1 H2].
    unfold fail_if. destruct (N.eqb_spec (len (record_bytes r)) 0); [lia|].
    by destruct (N.ltb_spec MAX_ACTIVATION_RECORD_BYTES (len (record_bytes r))); [lia|]. }
  rewrite Hvc. cbn [rbind]. destruct (postcard_total c) as [cb Hcb].
  rewrite (proj2 (recovery_signing_ok c _) (conj Hvc (ex_intro _ cb (conj Hcb eq_refl)))). cbn [rbind].
  set (a := Build_SignedContainmentRecoveryApproval _ _).
  assert (recovery_signed a) as Hsa.
  { split; [done|]. exists cb. split; [done|]. apply device_signed_verifies. }
  rewrite (proj2 (recovery_verify_ok a) Hsa). cbn [rbind]. exists a, r. split; [done|]. split; [done|].
  unfold recovers. split_and!; [done|done|done|done|done| |].
  - apply record_decode_exact. by split_and!.
  - exists p. rewrite He. by split_and!.
Qed.

End recoveries.
