(* ===== verification/TrustedHealth.v ===== *)
(** The health store of trusted bundles,
    [crates/kilogram-rollout/src/trusted_health_store.rs].

    An installation counts health events per trusted bundle.  Each record
    holds the whole bundle and its counters under a MAC keyed with a private
    seed, so that reading the store verifies the chain of bundles again.
    [activate_bundle] appends a bundle with fresh counters,
    [synchronize_bundle_chain] appends what is missing of a chain, and
    [record_health] counts an event for the current bundle only.

    The file checks of [open] and of the inspection, and failures of the
    storage device, are not modelled. *)

From stdpp Require Import base tactics list numbers strings.
From Stdlib Require Import Strings.Byte.
From S2P Require Import Prelude Crypto Postcard Redb Rollout ReleaseTrust TrustedPolicy.

(** * Constants and data *)

Definition TH_SCHEMA_KEY : bytes := b_str "schema-version".
Definition TH_TRUST_ROOT_KEY : bytes := b_str "release-trust-root".
Definition TH_INSTALLATION_SEED_KEY : bytes := b_str "installation-seed".
Definition TH_HEAD_KEY : bytes := b_str "trusted-health-head".
Definition TH_SCHEMA_VERSION : byte := x01.
Definition TH_RECORD_VERSION : byte := x01.
Definition RECORD_MAC_DOMAIN : bytes := b_str "kilogram:rollout:trusted-health-record:v1" ++ [x00].
Definition MAX_TRUSTED_HEALTH_RECORDS : N := 32.
Definition MAX_TRUSTED_HEALTH_RECORD_BYTES : usize := 12 * 1024.

Record TrustedHealthContent := {
  th_version : byte;
  th_trusted_policy_bundle : bytes;
  th_counters : RolloutHealthCounters
}.

Record StoredTrustedHealthRecord := {
  th_content : TrustedHealthContent;
  th_mac : arr 32
}.

Inductive TrustedHealthActivationOutcome :=
| HealthInstalled (bundle_id : TrustedPolicyBundleId) (evaluation : CohortEvaluation)
    (health : RolloutHealthSnapshot)
| HealthAlreadyCurrent (bundle_id : TrustedPolicyBundleId) (evaluation : CohortEvaluation)
    (health : RolloutHealthSnapshot).

Record TrustedRolloutHealthReadOnlySnapshot := {
  ts_bundle_id : TrustedPolicyBundleId;
  ts_evaluation : CohortEvaluation;
  ts_health : RolloutHealthSnapshot
}.

Inductive TrustedHealthError :=
| HealthDatabaseSchema
| HealthTrustRootMismatch
| HealthMissingInstallationSeed
| HealthInstallationSeedLength
| HealthMissingHead
| HealthInvalidHeadLength
| HealthMissingHeadRecord
| HealthHeadIsNotChainTip
| RecordIdBinding
| HealthRecordBytes (n : usize)
| InvalidRecord
| RecordAuthentication
| HealthNonCanonicalRecord
| HealthRecordCodec
| RecordCapacity
| InvalidBundleChainLength (n : usize)
| HealthPolicyChainGap
| HealthInvalidGenesisBundle
| ExpectedBundleMismatch
| CurrentBundleNotInChain
| StaleBundle
| HealthBundleIdCollision
| UnexpectedRetainedRecord
| HealthConcurrentHeadChanged
| HealthRandom
| HealthRollout (error : RolloutError)
| HealthTrustedPolicy (error : TrustedPolicyError).

(** [postcard] at the types of a record. *)
Class HealthPostcard := {
  pc_th_content :: Postcard TrustedHealthContent;
  pc_th_record :: Postcard StoredTrustedHealthRecord
}.

Section health.
Context `{Ed25519, Sha256, Blake3Keyed, RolloutPostcard, TrustPostcard, BundlePostcard, HealthPostcard, Redb}.

Record TrustedHealthDatabase := {
  TH_META : table bytes bytes;
  TH_HEALTH : table bytes bytes
}.

Record TrustedRolloutHealthStore := {
  th_database : TrustedHealthDatabase;
  th_trust_root : ReleaseTrustRoot
}.

Definition th_create : TrustedHealthDatabase := {| TH_META := table_new; TH_HEALTH := table_new |}.

(** * Records *)

Definition health_snapshot (b : TrustedReleasePolicyBundle) (counters : RolloutHealthCounters)
  : result TrustedHealthError RolloutHealthSnapshot :=
  let? _ := map_err HealthRollout (zero_tolerance_events counters) in
  let? id := map_err HealthRollout (policy_id b.(bundle_policy)) in
  let policy := b.(bundle_policy).(policy_content) in
  Ok {| hs_policy_id := id; hs_artifact := policy.(rp_artifact); hs_phase := policy.(rp_phase);
        hs_cohort := policy.(rp_cohort); hs_counters := counters |}.

Definition activation_outcome (installed : bool) (seed : arr 32) (b : TrustedReleasePolicyBundle)
    (counters : RolloutHealthCounters) : result TrustedHealthError TrustedHealthActivationOutcome :=
  let? id := map_err HealthTrustedPolicy (bundle_id b) in
  let? pid := map_err HealthRollout (policy_id b.(bundle_policy)) in
  let evaluation := evaluate_cohort seed b.(bundle_policy) pid in
  let? health := health_snapshot b counters in
  Ok (if installed then HealthInstalled id evaluation health
      else HealthAlreadyCurrent id evaluation health).

Definition th_validate_content (c : TrustedHealthContent) : result TrustedHealthError unit :=
  fail_if (bool_decide (c.(th_version) ≠ TH_RECORD_VERSION)
           || (len c.(th_trusted_policy_bundle) =? 0)%N) InvalidRecord ;?
  let? _ := map_err HealthRollout (zero_tolerance_events c.(th_counters)) in
  Ok tt.

Definition record_mac (seed : arr 32) (c : TrustedHealthContent) : result TrustedHealthError (arr 32) :=
  let? encoded := ok_or (to_allocvec c) HealthRecordCodec in
  Ok (keyed_hash seed (RECORD_MAC_DOMAIN ++ encoded)).

Definition th_encode_record (c : TrustedHealthContent) (seed : arr 32) : result TrustedHealthError bytes :=
  th_validate_content c ;?
  let? mac := record_mac seed c in
  let? encoded := ok_or (to_allocvec {| th_content := c; th_mac := mac |}) HealthRecordCodec in
  fail_if ((len encoded =? 0) || (MAX_TRUSTED_HEALTH_RECORD_BYTES <? len encoded))%N
    (HealthRecordBytes (len encoded)) ;?
  Ok encoded.

Definition th_decode_record (encoded : bytes) (seed : arr 32) (trust_root : ReleaseTrustRoot)
  : result TrustedHealthError (StoredTrustedHealthRecord * TrustedReleasePolicyBundle) :=
  fail_if ((len encoded =? 0) || (MAX_TRUSTED_HEALTH_RECORD_BYTES <? len encoded))%N
    (HealthRecordBytes (len encoded)) ;?
  let? record := ok_or (from_bytes encoded) HealthRecordCodec in
  th_validate_content record.(th_content) ;?
  let? mac := record_mac seed record.(th_content) in
  fail_if (bool_decide (record.(th_mac) ≠ mac)) RecordAuthentication ;?
  let? again := ok_or (to_allocvec record) HealthRecordCodec in
  fail_if (bool_decide (again ≠ encoded)) HealthNonCanonicalRecord ;?
  let? bundle := map_err HealthTrustedPolicy
    (bundle_decode_and_verify record.(th_content).(th_trusted_policy_bundle) trust_root) in
  Ok (record, bundle).

(** * Meta data *)

Definition th_verify_meta (meta : table bytes bytes) (trust_root : ReleaseTrustRoot)
  : result TrustedHealthError unit :=
  let? schema := ok_or (table_get TH_SCHEMA_KEY meta) HealthDatabaseSchema in
  fail_if (bool_decide (schema ≠ [TH_SCHEMA_VERSION])) HealthDatabaseSchema ;?
  let? pinned := ok_or (table_get TH_TRUST_ROOT_KEY meta) HealthTrustRootMismatch in
  fail_if (bool_decide (pinned ≠ arr_bytes trust_root)) HealthTrustRootMismatch.

Definition th_read_seed (meta : table bytes bytes) : result TrustedHealthError (arr 32) :=
  let? bs := ok_or (table_get TH_INSTALLATION_SEED_KEY meta) HealthMissingInstallationSeed in
  ok_or (arr_try_from 32 bs) HealthInstallationSeedLength.

Definition th_read_head_id (meta : table bytes bytes)
  : result TrustedHealthError (option TrustedPolicyBundleId) :=
  match table_get TH_HEAD_KEY meta with
  | None => Ok None
  | Some bs => let? id := ok_or (arr_try_from 32 bs) HealthInvalidHeadLength in Ok (Some id)
  end.

(** * Reading *)

(** The body of the loop over the rows, and the loop over the sorted chain. *)
Definition read_health_row (seed : arr 32) (trust_root : ReleaseTrustRoot) (row : bytes * bytes)
  : result TrustedHealthError (TrustedReleasePolicyBundle * RolloutHealthCounters) :=
  let '(key, value) := row in
  let? (record, bundle) := th_decode_record value seed trust_root in
  let? id := map_err HealthTrustedPolicy (bundle_id bundle) in
  fail_if (bool_decide (key ≠ arr_bytes id)) RecordIdBinding ;?
  Ok (bundle, record.(th_content).(th_counters)).

Fixpoint verify_health_chain (index : N) (previous : option TrustedReleasePolicyBundle)
    (chain : list TrustedReleasePolicyBundle) : result TrustedHealthError unit :=
  match chain with
  | [] => Ok tt
  | bundle :: rest =>
      let? expected_epoch := ok_or (u64_checked_add (as_u64 index) (as_u64 1)) RecordCapacity in
      fail_if (negb (u64_eqb bundle.(bundle_policy).(policy_content).(rp_epoch) expected_epoch))
        HealthPolicyChainGap ;?
      match previous with
      | Some previous => map_err HealthTrustedPolicy (bundle_verify_successor_of bundle previous)
      | None => fail_if (not_genesis bundle) HealthInvalidGenesisBundle
      end ;?
      verify_health_chain (index + 1) (Some bundle) rest
  end.

Definition read_snapshot (db : TrustedHealthDatabase) (trust_root : ReleaseTrustRoot)
    (expected_bundle : option TrustedReleasePolicyBundle)
  : result TrustedHealthError (option TrustedRolloutHealthReadOnlySnapshot) :=
  th_verify_meta db.(TH_META) trust_root ;?
  let? seed := th_read_seed db.(TH_META) in
  let count := uint_val (table_len db.(TH_HEALTH)) in
  let? head := th_read_head_id db.(TH_META) in
  match head with
  | None => if (count =? 0)%N then Ok None else Err HealthMissingHead
  | Some head =>
      fail_if (count =? 0)%N HealthMissingHeadRecord ;?
      fail_if (MAX_TRUSTED_HEALTH_RECORDS <? count)%N RecordCapacity ;?
      let? chain := try_map (read_health_row seed trust_root) (table_iter db.(TH_HEALTH)) in
      let chain := sort_by_key (fun e => (fst e).(bundle_policy).(policy_content).(rp_epoch)) chain in
      verify_health_chain 0 None (map fst chain) ;?
      let? (current, counters) := ok_or (last chain) HealthMissingHeadRecord in
      let? current_id := map_err HealthTrustedPolicy (bundle_id current) in
      fail_if (bool_decide (current_id ≠ head)) HealthHeadIsNotChainTip ;?
      match expected_bundle with
      | None => Ok tt
      | Some expected =>
          let? expected_id := map_err HealthTrustedPolicy (bundle_id expected) in
          if bool_decide (expected_id ≠ head) then Err ExpectedBundleMismatch else
          let? a := map_err HealthTrustedPolicy (bundle_encode expected) in
          let? b := map_err HealthTrustedPolicy (bundle_encode current) in
          fail_if (bool_decide (a ≠ b)) ExpectedBundleMismatch
      end ;?
      let? pid := map_err HealthRollout (policy_id current.(bundle_policy)) in
      let? health := health_snapshot current counters in
      Ok (Some {| ts_bundle_id := current_id;
                  ts_evaluation := evaluate_cohort seed current.(bundle_policy) pid;
                  ts_health := health |})
  end.

Definition th_current_snapshot (self : TrustedRolloutHealthStore)
  : result TrustedHealthError (option TrustedRolloutHealthReadOnlySnapshot) :=
  read_snapshot self.(th_database) self.(th_trust_root) None.

(** The record the head names. *)
Definition th_head_record (db : TrustedHealthDatabase) (trust_root : ReleaseTrustRoot) (seed : arr 32)
    (head : TrustedPolicyBundleId)
  : result TrustedHealthError (StoredTrustedHealthRecord * TrustedReleasePolicyBundle) :=
  let? bs := ok_or (table_get (arr_bytes head) db.(TH_HEALTH)) HealthMissingHeadRecord in
  let? (record, bundle) := th_decode_record bs seed trust_root in
  let? id := map_err HealthTrustedPolicy (bundle_id bundle) in
  fail_if (bool_decide (id ≠ head)) RecordIdBinding ;?
  Ok (record, bundle).

Definition th_current_record (self : TrustedRolloutHealthStore)
  : result TrustedHealthError (option (TrustedReleasePolicyBundle * RolloutHealthCounters)) :=
  let db := self.(th_database) in
  th_verify_meta db.(TH_META) self.(th_trust_root) ;?
  let? seed := th_read_seed db.(TH_META) in
  let? head := th_read_head_id db.(TH_META) in
  match head with
  | None =>
      fail_if (negb (uint_val (table_len db.(TH_HEALTH)) =? 0)%N) HealthMissingHead ;?
      Ok None
  | Some head =>
      let? (record, bundle) := th_head_record db self.(th_trust_root) seed head in
      Ok (Some (bundle, record.(th_content).(th_counters)))
  end.

Definition th_seed (self : TrustedRolloutHealthStore) : result TrustedHealthError (arr 32) :=
  th_verify_meta self.(th_database).(TH_META) self.(th_trust_root) ;?
  th_read_seed self.(th_database).(TH_META).

(** * Opening *)

Definition th_initialize (trust_root : ReleaseTrustRoot) (random : option (arr 32))
    (db : TrustedHealthDatabase) : result TrustedHealthError TrustedHealthDatabase :=
  let? meta :=
    match table_get TH_SCHEMA_KEY db.(TH_META) with
    | Some value =>
        fail_if (bool_decide (value ≠ [TH_SCHEMA_VERSION])) HealthDatabaseSchema ;?
        Ok db.(TH_META)
    | None => Ok (table_insert TH_SCHEMA_KEY [TH_SCHEMA_VERSION] db.(TH_META))
    end in
  let? meta :=
    match table_get TH_TRUST_ROOT_KEY meta with
    | Some value =>
        fail_if (bool_decide (value ≠ arr_bytes trust_root)) HealthTrustRootMismatch ;?
        Ok meta
    | None => Ok (table_insert TH_TRUST_ROOT_KEY (arr_bytes trust_root) meta)
    end in
  let? meta :=
    match table_get TH_INSTALLATION_SEED_KEY meta with
    | Some _ => Ok meta
    | None =>
        let? seed := ok_or random HealthRandom in
        Ok (table_insert TH_INSTALLATION_SEED_KEY (arr_bytes seed) meta)
    end in
  Ok {| TH_META := meta; TH_HEALTH := db.(TH_HEALTH) |}.

Definition th_open (trust_root : ReleaseTrustRoot) (random : option (arr 32))
    (db : TrustedHealthDatabase) : result TrustedHealthError TrustedRolloutHealthStore :=
  let? db := th_initialize trust_root random db in
  let store := {| th_database := db; th_trust_root := trust_root |} in
  let? _ := th_current_snapshot store in
  Ok store.

(** * Activating bundles *)

(** [activate_bundle] up to the write transaction: an outcome, or the head the
    transaction expects. *)
Definition activate_prepare (self : TrustedRolloutHealthStore) (b : TrustedReleasePolicyBundle)
  : result TrustedHealthError (TrustedHealthActivationOutcome + option TrustedPolicyBundleId) :=
  map_err HealthTrustedPolicy (bundle_verify b self.(th_trust_root)) ;?
  let? candidate_id := map_err HealthTrustedPolicy (bundle_id b) in
  let? encoded := map_err HealthTrustedPolicy (bundle_encode b) in
  let? current := th_current_record self in
  match current with
  | Some (current, counters) =>
      let? current_id := map_err HealthTrustedPolicy (bundle_id current) in
      if bool_decide (current_id = candidate_id) then
        let? current_encoded := map_err HealthTrustedPolicy (bundle_encode current) in
        fail_if (bool_decide (current_encoded ≠ encoded)) HealthBundleIdCollision ;?
        let? seed := th_seed self in
        let? o := activation_outcome false seed b counters in
        Ok (inl o)
      else
        map_err HealthTrustedPolicy (bundle_verify_successor_of b current) ;?
        Ok (inr (Some current_id))
  | None =>
      fail_if (negb (uint_val b.(bundle_policy).(policy_content).(rp_epoch) =? 1)%N || not_genesis b)
        HealthInvalidGenesisBundle ;?
      Ok (inr None)
  end.

(** The write transaction.  The answer is computed after the commit, from a
    bundle that has been verified; it cannot fail then
    ([activation_outcome_total] of [TrustedHealthFacts]), so an error of
    [activate_commit] is one from before the commit. *)
Definition activate_commit (self : TrustedRolloutHealthStore) (b : TrustedReleasePolicyBundle)
    (expected_head : option TrustedPolicyBundleId)
  : result TrustedHealthError (TrustedHealthActivationOutcome * TrustedRolloutHealthStore) :=
  let db := self.(th_database) in
  let? candidate_id := map_err HealthTrustedPolicy (bundle_id b) in
  let? encoded_bundle := map_err HealthTrustedPolicy (bundle_encode b) in
  let? actual := th_read_head_id db.(TH_META) in
  fail_if (bool_decide (actual ≠ expected_head)) HealthConcurrentHeadChanged ;?
  let? seed := th_read_seed db.(TH_META) in
  fail_if (MAX_TRUSTED_HEALTH_RECORDS <=? uint_val (table_len db.(TH_HEALTH)))%N RecordCapacity ;?
  fail_if (match table_get (arr_bytes candidate_id) db.(TH_HEALTH) with Some _ => true | None => false end)
    UnexpectedRetainedRecord ;?
  let? encoded := th_encode_record
    {| th_version := TH_RECORD_VERSION; th_trusted_policy_bundle := encoded_bundle;
       th_counters := counters_default |} seed in
  let store := {|
    th_database := {| TH_META := table_insert TH_HEAD_KEY (arr_bytes candidate_id) db.(TH_META);
                      TH_HEALTH := table_insert (arr_bytes candidate_id) encoded db.(TH_HEALTH) |};
    th_trust_root := self.(th_trust_root) |} in
  let? o := activation_outcome true seed b counters_default in
  Ok (o, store).

Definition activate_bundle (self : TrustedRolloutHealthStore) (b : TrustedReleasePolicyBundle)
  : result TrustedHealthError (TrustedHealthActivationOutcome * TrustedRolloutHealthStore) :=
  let? planned := activate_prepare self b in
  match planned with
  | inl o => Ok (o, self)
  | inr expected_head => activate_commit self b expected_head
  end.

(** * Synchronizing *)

Fixpoint validate_chain_from (trust_root : ReleaseTrustRoot) (index : N)
    (previous : option TrustedReleasePolicyBundle) (chain : list TrustedReleasePolicyBundle)
  : result TrustedHealthError unit :=
  match chain with
  | [] => Ok tt
  | bundle :: rest =>
      map_err HealthTrustedPolicy (bundle_verify bundle trust_root) ;?
      let? expected_epoch := ok_or (u64_checked_add (as_u64 index) (as_u64 1)) RecordCapacity in
      fail_if (negb (u64_eqb bundle.(bundle_policy).(policy_content).(rp_epoch) expected_epoch))
        HealthPolicyChainGap ;?
      match previous with
      | Some previous => map_err HealthTrustedPolicy (bundle_verify_successor_of bundle previous)
      | None => fail_if (not_genesis bundle) HealthInvalidGenesisBundle
      end ;?
      validate_chain_from trust_root (index + 1) (Some bundle) rest
  end.

Definition validate_bundle_chain (bundles : list TrustedReleasePolicyBundle) (trust_root : ReleaseTrustRoot)
  : result TrustedHealthError unit :=
  fail_if ((len bundles =? 0) || (MAX_TRUSTED_HEALTH_RECORDS <? len bundles))%N
    (InvalidBundleChainLength (len bundles)) ;?
  validate_chain_from trust_root 0 None bundles.

(** [bundles.iter().position(..)]. *)
Fixpoint position_of (id : TrustedPolicyBundleId) (bundles : list TrustedReleasePolicyBundle) : option nat :=
  match bundles with
  | [] => None
  | b :: rest =>
      if match bundle_id b with Ok i => bool_decide (i = id) | Err _ => false end then Some 0
      else option_map S (position_of id rest)
  end.

(** [for bundle in &bundles[start..] { activate_bundle(bundle)?; }]; an error
    leaves the store with the bundles activated before it. *)
Fixpoint activate_all (self : TrustedRolloutHealthStore) (bundles : list TrustedReleasePolicyBundle)
  : result TrustedHealthError unit * TrustedRolloutHealthStore :=
  match bundles with
  | [] => (Ok tt, self)
  | b :: rest =>
      match activate_bundle self b with
      | Ok (_, self) => activate_all self rest
      | Err e => (Err e, self)
      end
  end.

Definition synchronize_bundle_chain (self : TrustedRolloutHealthStore)
    (bundles : list TrustedReleasePolicyBundle)
  : result TrustedHealthError TrustedRolloutHealthReadOnlySnapshot * TrustedRolloutHealthStore :=
  match
    (validate_bundle_chain bundles self.(th_trust_root) ;?
     let? snapshot := th_current_snapshot self in
     match snapshot with
     | None => Ok 0
     | Some snapshot =>
         let? i := ok_or (position_of snapshot.(ts_bundle_id) bundles) CurrentBundleNotInChain in
         Ok (S i)
     end)
  with
  | Err e => (Err e, self)
  | Ok start =>
      let '(r, self) := activate_all self (drop start bundles) in
      (r ;?
       let? snapshot := th_current_snapshot self in
       ok_or snapshot HealthMissingHead, self)
  end.

(** * Counting *)

Definition th_record_health (self : TrustedRolloutHealthStore) (expected_bundle_id : TrustedPolicyBundleId)
    (event : RolloutHealthEvent)
  : result TrustedHealthError (RolloutHealthSnapshot * TrustedRolloutHealthStore) :=
  let db := self.(th_database) in
  th_verify_meta db.(TH_META) self.(th_trust_root) ;?
  let? seed := th_read_seed db.(TH_META) in
  let? head := th_read_head_id db.(TH_META) in
  let? head := ok_or head HealthMissingHead in
  fail_if (bool_decide (head ≠ expected_bundle_id)) StaleBundle ;?
  let? (record, bundle) := th_head_record db self.(th_trust_root) seed head in
  let? counters := map_err HealthRollout (counters_increment record.(th_content).(th_counters) event) in
  let content := {| th_version := record.(th_content).(th_version);
                    th_trusted_policy_bundle := record.(th_content).(th_trusted_policy_bundle);
                    th_counters := counters |} in
  let? encoded := th_encode_record content seed in
  let store := {|
    th_database := {| TH_META := db.(TH_META);
                      TH_HEALTH := table_insert (arr_bytes head) encoded db.(TH_HEALTH) |};
    th_trust_root := self.(th_trust_root) |} in
  let? snapshot := health_snapshot bundle counters in
  Ok (snapshot, store).

(** [inspect_existing_trusted_rollout_health_store]: [None] is a missing
    directory or database. *)
Definition inspect_existing_trusted_rollout_health_store (db : option TrustedHealthDatabase)
    (trust_root : ReleaseTrustRoot) (expected : TrustedReleasePolicyBundle)
  : result TrustedHealthError (option TrustedRolloutHealthReadOnlySnapshot) :=
  map_err HealthTrustedPolicy (bundle_verify expected trust_root) ;?
  match db with
  | None => Ok None
  | Some db => read_snapshot db trust_root (Some expected)
  end.

End health.
