(* ===== verification/TrustedHealthFacts.v ===== *)
(** Correctness of the health store of [TrustedHealth]: it refines a list of
    bundles with their counters, oldest first.  Activating appends a bundle
    with fresh counters, counting changes the counters of the newest bundle
    only, and synchronizing brings the store from any prefix of a chain of
    bundles to its tip. *)

From stdpp Require Import base tactics list numbers strings.
From Stdlib Require Import Strings.Byte Sorting.Sorted.
From S2P Require Import Prelude Crypto Postcard Redb Rollout RolloutFacts ReleaseTrust ReleaseTrustFacts.
From S2P Require Import TrustedPolicy TrustedPolicyFacts TrustedHealth.

(** What the model relies on: [postcard]'s laws and the size of its output. *)
Class HealthPostcardLaws (P : HealthPostcard) : Prop := {
  hl_content :: PostcardLaws TrustedHealthContent;
  hl_record :: PostcardLaws StoredTrustedHealthRecord;
  health_size (r : StoredTrustedHealthRecord) bs :
    to_allocvec r = Some bs → (len r.(th_content).(th_trusted_policy_bundle) <= 8192)%N →
    (0 < len bs <= len r.(th_content).(th_trusted_policy_bundle) + 1024)%N
}.

Section facts.
Context {E : Ed25519} {SH : Sha256} {K : Blake3Keyed} {RP : RolloutPostcard} {TP : TrustPostcard}.
Context {BP : BundlePostcard} {HP : HealthPostcard} {R : Redb}.
Context {RPL : RolloutPostcardLaws RP} {TPL : TrustPostcardLaws TP} {BPL : BundlePostcardLaws BP}.
Context {HPL : HealthPostcardLaws HP} {RL : RedbLaws R}.
Implicit Types (b : TrustedReleasePolicyBundle) (c : RolloutHealthCounters) (root : ReleaseTrustRoot).
Implicit Types (seed : arr 32) (st : TrustedRolloutHealthStore).
Implicit Types (chain : list (TrustedReleasePolicyBundle * RolloutHealthCounters)).

(** * Records *)

(** Counters whose sum of severe events does not overflow. *)
Definition counted c : Prop := ∃ n, zero_tolerance_events c = Ok n.

Definition content_for (bs : bytes) c : TrustedHealthContent :=
  {| th_version := TH_RECORD_VERSION; th_trusted_policy_bundle := bs; th_counters := c |}.

Lemma th_validate_ok (t : TrustedHealthContent) :
  th_validate_content t = Ok tt ↔
  t.(th_version) = TH_RECORD_VERSION ∧ t.(th_trusted_policy_bundle) ≠ [] ∧ counted t.(th_counters).
Proof.
  unfold th_validate_content, counted. rewrite rbind_unit_ok, fail_if_ok, orb_false_iff, bool_decide_eq_false, rbind_ok.
  setoid_rewrite map_err_ok. rewrite N.eqb_neq. split.
  - intros [[Hv%dec_stable Hl] (n & Hn & _)]. split_and!; [done| |by eauto]. by intros Hb; rewrite Hb in Hl.
  - intros (Hv & Hl & n & Hn). split; [split; [intros Hc; by apply Hc|]|by eauto].
    unfold len. destruct (th_trusted_policy_bundle t); [done|]. cbn. lia.
Qed.

Definition mac_of seed (t : TrustedHealthContent) : arr 32 :=
  keyed_hash seed (RECORD_MAC_DOMAIN ++ match to_allocvec t with Some bs => bs | None => [] end).

Lemma record_mac_ok seed t : record_mac seed t = Ok (mac_of seed t).
Proof. unfold record_mac, mac_of. by destruct (postcard_total t) as [bs ->]. Qed.

Lemma th_encode_ok t seed bs :
  th_encode_record t seed = Ok bs ↔
  th_validate_content t = Ok tt ∧ to_allocvec {| th_content := t; th_mac := mac_of seed t |} = Some bs ∧
  (0 < len bs <= MAX_TRUSTED_HEALTH_RECORD_BYTES)%N.
Proof.
  unfold th_encode_record. rewrite rbind_unit_ok, record_mac_ok. cbn [rbind]. rewrite rbind_ok.
  setoid_rewrite ok_or_ok. split.
  - intros (Hv & x & Hx & [Hl%length_check_ok <-%Ok_inj]%rbind_unit_ok). done.
  - intros (Hv & Hb & Hl). split; [done|]. exists bs. split; [done|]. apply rbind_unit_ok.
    split; [by apply length_check_ok|done].
Qed.

Lemma th_decode_ok bs seed root t mac b :
  th_decode_record bs seed root = Ok ({| th_content := t; th_mac := mac |}, b) ↔
  th_encode_record t seed = Ok bs ∧ mac = mac_of seed t ∧
  bundle_decode_and_verify t.(th_trusted_policy_bundle) root = Ok b.
Proof.
  unfold th_decode_record. rewrite th_encode_ok. split.
  - intros [Hl%length_check_ok H]%rbind_unit_ok. apply rbind_ok in H as (r & Hr%ok_or_ok & H).
    apply rbind_unit_ok in H as [Hv H]. rewrite record_mac_ok in H. cbn [rbind] in H.
    apply rbind_unit_ok in H as [Hm%fail_if_ok%bool_decide_eq_false%dec_stable H].
    apply rbind_ok in H as (again & Ha%ok_or_ok & H).
    apply rbind_unit_ok in H as [He%fail_if_ok%bool_decide_eq_false%dec_stable H].
    apply rbind_ok in H as (b' & Hb%map_err_ok & [Hr' ->]%Ok_pair_inj). subst again r. cbn [th_content th_mac] in *.
    subst mac. done.
  - intros ((Hv & Hb & Hl) & -> & Hd). apply rbind_unit_ok. split; [by apply length_check_ok|].
    apply rbind_ok. eexists. split; [by apply ok_or_ok, postcard_roundtrip|]. cbn [th_content th_mac].
    rewrite Hv, record_mac_ok. cbn [rbind]. rewrite bool_decide_eq_false_2 by (intros Hc; by apply Hc). cbn [fail_if rbind].
    rewrite Hb. cbn [ok_or rbind]. rewrite bool_decide_eq_false_2 by (intros Hc; by apply Hc). cbn [fail_if rbind].
    by rewrite Hd.
Qed.

(** A trusted bundle with counters is always encoded. *)
Lemma th_encode_total root b c bs seed :
  trusted root b → counted c → bundle_encode b = Ok bs → ∃ e, th_encode_record (content_for bs c) seed = Ok e.
Proof.
  intros Ht Hc Hb. destruct (postcard_total {| th_content := content_for bs c; th_mac := mac_of seed (content_for bs c) |}) as [e He].
  exists e. apply th_encode_ok. pose proof (proj1 (bundle_encode_ok _ _) Hb) as (_ & _ & Hl).
  unfold MAX_TRUSTED_RELEASE_POLICY_BUNDLE_BYTES in Hl. split_and!; [|done| |].
  - apply th_validate_ok. split_and!; [done| |done]. cbn. intros ->. by destruct Hl.
  - by apply (health_size _ _ He); cbn; lia.
  - pose proof (health_size _ _ He) as Hz. cbn in Hz. specialize (Hz ltac:(lia)). unfold MAX_TRUSTED_HEALTH_RECORD_BYTES. lia.
Qed.

(** * The abstract store *)

(** The row of a bundle and its counters. *)
Definition hrow seed (x : TrustedReleasePolicyBundle * RolloutHealthCounters) : bytes * bytes :=
  match bundle_id x.1, bundle_encode x.1 with
  | Ok id, Ok bs =>
      (arr_bytes id, match th_encode_record (content_for bs x.2) seed with Ok e => e | Err _ => [] end)
  | _, _ => ([], [])
  end.

Record th_refines root seed st chain : Prop := {
  thr_root : st.(th_trust_root) = root;
  thr_schema : table_get TH_SCHEMA_KEY st.(th_database).(TH_META) = Some [TH_SCHEMA_VERSION];
  thr_pin : table_get TH_TRUST_ROOT_KEY st.(th_database).(TH_META) = Some (arr_bytes root);
  thr_seed : table_get TH_INSTALLATION_SEED_KEY st.(th_database).(TH_META) = Some (arr_bytes seed);
  thr_head : table_get TH_HEAD_KEY st.(th_database).(TH_META)
             = option_map (fun id : arr 32 => arr_bytes id) (head_of (map fst chain));
  thr_rows : table_iter st.(th_database).(TH_HEALTH) ≡ₚ map (hrow seed) chain;
  thr_chain : accepted root (map fst chain);
  thr_counted : Forall (fun x => counted x.2) chain;
  thr_bound : (len chain <= MAX_TRUSTED_HEALTH_RECORDS)%N
}.

Lemma thr_trusted root seed st chain x : th_refines root seed st chain → x ∈ chain → trusted root x.1.
Proof.
  intros HR Hx. apply (accepted_trusted root (map fst chain)); [by eapply thr_chain|].
  apply list_elem_of_fmap. by exists x.
Qed.

Lemma hrow_of root seed x :
  trusted root x.1 → counted x.2 →
  ∃ id bs e, bundle_id x.1 = Ok id ∧ bundle_encode x.1 = Ok bs ∧
    th_encode_record (content_for bs x.2) seed = Ok e ∧ hrow seed x = (arr_bytes id, e).
Proof.
  intros Ht Hc. destruct (row_of_trusted _ _ Ht) as (id & bs & Hid & Hbs & _).
  destruct (th_encode_total root x.1 x.2 bs seed Ht Hc Hbs) as [e He]. exists id, bs, e.
  unfold hrow. by rewrite Hid, Hbs, He.
Qed.

Lemma decode_hrow root seed x bs e :
  trusted root x.1 → bundle_encode x.1 = Ok bs → th_encode_record (content_for bs x.2) seed = Ok e →
  th_decode_record e seed root =
  Ok ({| th_content := content_for bs x.2; th_mac := mac_of seed (content_for bs x.2) |}, x.1).
Proof.
  intros [_ Hk] Hb He. apply th_decode_ok. split_and!; [done|done|]. by apply bundle_decode_ok.
Qed.

Lemma read_hrow root seed x :
  trusted root x.1 → counted x.2 → read_health_row seed root (hrow seed x) = Ok x.
Proof.
  intros Ht Hc. destruct (hrow_of root seed x Ht Hc) as (id & bs & e & Hid & Hbs & He & ->). unfold read_health_row.
  rewrite (decode_hrow root seed x bs e Ht Hbs He). cbn [rbind]. rewrite Hid. cbn [map_err rbind].
  rewrite bool_decide_eq_false_2 by (intros Hx; by apply Hx). cbn [fail_if rbind]. by destruct x.
Qed.

Lemma read_hrows root seed st chain l :
  th_refines root seed st chain → l ≡ₚ chain → try_map (read_health_row seed root) (map (hrow seed) l) = Ok l.
Proof.
  intros HR Hp. assert (Forall (fun x => trusted root x.1 ∧ counted x.2) l) as Hl.
  { rewrite Hp, Forall_forall. intros x Hx. split; [by eapply thr_trusted|].
    by apply (proj1 (Forall_forall _ _) (thr_counted _ _ _ _ HR)). }
  clear Hp. induction Hl as [|x l [Ht Hc] _ IH]; [done|]. cbn [map try_map]. rewrite (read_hrow _ _ _ Ht Hc).
  cbn [rbind]. by rewrite IH.
Qed.

(** ** Meta data *)

Lemma th_meta_read root seed st chain :
  th_refines root seed st chain →
  th_verify_meta st.(th_database).(TH_META) root = Ok tt ∧ th_read_seed st.(th_database).(TH_META) = Ok seed ∧
  th_read_head_id st.(th_database).(TH_META) = Ok (head_of (map fst chain)) ∧
  uint_val (table_len st.(th_database).(TH_HEALTH)) = len chain.
Proof.
  intros HR. split_and!.
  - unfold th_verify_meta. rewrite (thr_schema _ _ _ _ HR), (thr_pin _ _ _ _ HR). cbn [ok_or rbind].
    by rewrite !bool_decide_eq_false_2 by (intros Hx; by apply Hx).
  - unfold th_read_seed. rewrite (thr_seed _ _ _ _ HR). cbn [ok_or rbind]. by rewrite arr_try_from_bytes.
  - unfold th_read_head_id. rewrite (thr_head _ _ _ _ HR). destruct (head_of _); [|done]. cbn [option_map].
    by rewrite arr_try_from_bytes.
  - pose proof (thr_bound _ _ _ _ HR) as Hb. unfold MAX_TRUSTED_HEALTH_RECORDS in Hb.
    assert (len (table_iter st.(th_database).(TH_HEALTH)) = len chain) as Hl.
    { rewrite (len_perm _ _ (thr_rows _ _ _ _ HR)). apply len_map. }
    rewrite table_len_iter; [done|]. rewrite Hl. assert (32 < U64_BOUND)%N by done. lia.
Qed.

(** The health chain loop makes the checks of the policy store's. *)
Lemma verify_health_chain_ok i prev bundles :
  verify_health_chain i prev bundles = Ok tt ↔ verify_chain_from i prev bundles = Ok tt.
Proof.
  revert i prev. induction bundles as [|b bundles IH]; intros i prev; [done|].
  cbn [verify_health_chain verify_chain_from].
  destruct (u64_checked_add _ _) as [e|]; cbn [ok_or rbind]; [|by split].
  destruct (negb _); cbn [fail_if rbind]; [by split|].
  destruct prev as [p|]; [destruct (bundle_verify_successor_of b p) as [[]|]|destruct (not_genesis b)];
    cbn [map_err fail_if rbind]; by first [apply IH | split].
Qed.

Lemma last_map {A B} (f : A → B) l : last (map f l) = option_map f (last l).
Proof.
  induction l as [|x l IH] using rev_ind; [done|]. rewrite map_app. cbn [map].
  by rewrite !last_snoc.
Qed.

Lemma epochs_sorted root seed st chain :
  th_refines root seed st chain →
  StronglySorted ord_lt (map (fun x : TrustedReleasePolicyBundle * RolloutHealthCounters => epoch_of (fst x)) chain).
Proof.
  intros HR. pose proof (accepted_sorted root (map fst chain) (thr_chain _ _ _ _ HR)) as Hs. rewrite len_map in Hs.
  pose proof (thr_bound _ _ _ _ HR) as Hb. unfold MAX_TRUSTED_HEALTH_RECORDS in Hb.
  assert (40 < U64_BOUND)%N by done. specialize (Hs ltac:(lia)). by rewrite map_map in Hs.
Qed.

(** ** Reading *)

(** What the store says about its newest bundle. *)
Definition snapshot_of seed chain : option TrustedRolloutHealthReadOnlySnapshot :=
  match last chain with
  | None => None
  | Some (b, c) =>
      match bundle_id b, policy_id b.(bundle_policy), health_snapshot b c with
      | Ok id, Ok pid, Ok h =>
          Some {| ts_bundle_id := id; ts_evaluation := evaluate_cohort seed b.(bundle_policy) pid; ts_health := h |}
      | _, _, _ => None
      end
  end.

Lemma policy_id_total root b : trusted root b → ∃ pid, policy_id b.(bundle_policy) = Ok pid.
Proof. intros [Hw _]. unfold policy_id. rewrite (bf_policy _ Hw). by eexists. Qed.

Lemma health_snapshot_total root b c : trusted root b → counted c → ∃ h, health_snapshot b c = Ok h.
Proof.
  intros Ht [n Hn]. destruct (policy_id_total _ _ Ht) as [pid Hp]. unfold health_snapshot. rewrite Hn, Hp. by eexists.
Qed.

Lemma last_of root seed st chain b c :
  th_refines root seed st chain → last chain = Some (b, c) →
  trusted root b ∧ counted c ∧ head_of (map fst chain) = match bundle_id b with Ok id => Some id | Err _ => None end.
Proof.
  intros HR El. pose proof (last_Some_elem_of _ _ El) as Hin. split_and!.
  - by apply (thr_trusted _ _ _ _ _ HR Hin).
  - by apply (proj1 (Forall_forall _ _) (thr_counted _ _ _ _ HR) _ Hin).
  - unfold head_of. by rewrite last_map, El.
Qed.

Lemma snapshot_read root seed st chain :
  th_refines root seed st chain → th_current_snapshot st = Ok (snapshot_of seed chain).
Proof.
  intros HR. destruct (th_meta_read _ _ _ _ HR) as (Hm & Hs & Hh & Hl).
  unfold th_current_snapshot, read_snapshot. rewrite (thr_root _ _ _ _ HR), Hm, Hs, Hh, Hl. cbn [rbind].
  unfold snapshot_of. destruct (last chain) as [[b c]|] eqn:El.
  2:{ apply last_None in El as ->. done. }
  destruct (last_of _ _ _ _ _ _ HR El) as (Ht & Hc & Hhd). destruct (bundle_id_total _ (proj1 Ht)) as [id Hid].
  rewrite Hhd, Hid. destruct (N.eqb_spec (len chain) 0) as [Hz|_].
  { destruct chain; [done|]. rewrite len_cons in Hz. lia. }
  cbn [fail_if rbind]. rewrite (proj2 (N.ltb_ge _ _) (thr_bound _ _ _ _ HR)). cbn [fail_if rbind].
  destruct (Permutation_map_inv _ _ (thr_rows _ _ _ _ HR)) as (l & -> & Hp).
  rewrite (read_hrows _ _ _ _ l HR) by by symmetry. cbn [rbind].
  rewrite (sort_by_key_unique _ _ chain); [|by eapply epochs_sorted|by symmetry].
  rewrite (proj2 (verify_health_chain_ok _ _ _) (proj2 (thr_chain _ _ _ _ HR))). cbn [rbind]. rewrite El. cbn [ok_or rbind].
  rewrite Hid. cbn [map_err rbind]. rewrite bool_decide_eq_false_2 by (intros Hx; by apply Hx). cbn [fail_if rbind].
  destruct (policy_id_total _ _ Ht) as [pid ->]. cbn [map_err rbind].
  by destruct (health_snapshot_total _ _ _ Ht Hc) as [h ->].
Qed.

(** With the bundle the caller expects, the snapshot is the same or refused. *)
Lemma inspect_read root seed st chain b c expected id :
  th_refines root seed st chain → last chain = Some (b, c) → trusted root expected → bundle_id expected = Ok id →
  (b ≠ expected → bundle_id b ≠ Ok id) →
  inspect_existing_trusted_rollout_health_store (Some st.(th_database)) root expected =
  if bool_decide (b = expected) then Ok (snapshot_of seed chain) else Err ExpectedBundleMismatch.
Proof.
  intros HR El Hte Hide Hcol. destruct (th_meta_read _ _ _ _ HR) as (Hm & Hs & Hh & Hl).
  unfold inspect_existing_trusted_rollout_health_store, read_snapshot.
  rewrite (proj2 (bundle_verify_ok _ _) Hte), Hm, Hs, Hh, Hl. cbn [map_err rbind].
  unfold snapshot_of. rewrite El.
  destruct (last_of _ _ _ _ _ _ HR El) as (Ht & Hc & Hhd). destruct (bundle_id_total _ (proj1 Ht)) as [bid Hid].
  rewrite Hhd, Hid. destruct (N.eqb_spec (len chain) 0) as [Hz|_].
  { destruct chain; [done|]. rewrite len_cons in Hz. lia. }
  cbn [fail_if rbind]. rewrite (proj2 (N.ltb_ge _ _) (thr_bound _ _ _ _ HR)). cbn [fail_if rbind].
  destruct (Permutation_map_inv _ _ (thr_rows _ _ _ _ HR)) as (l & -> & Hp).
  rewrite (read_hrows _ _ _ _ l HR) by by symmetry. cbn [rbind].
  rewrite (sort_by_key_unique _ _ chain); [|by eapply epochs_sorted|by symmetry].
  rewrite (proj2 (verify_health_chain_ok _ _ _) (proj2 (thr_chain _ _ _ _ HR))). cbn [rbind]. rewrite El. cbn [ok_or rbind].
  rewrite Hid. cbn [map_err rbind]. rewrite bool_decide_eq_false_2 by (intros Hx; by apply Hx). cbn [fail_if rbind].
  rewrite Hide. cbn [map_err rbind]. destruct (decide (b = expected)) as [<-|Hne].
  - rewrite (bool_decide_eq_true_2 (b = b)) by done. rewrite Hid in Hide. apply Ok_inj in Hide. subst id.
    rewrite bool_decide_eq_false_2 by (intros Hx; by apply Hx).
    destruct (bundle_encode_total _ (proj1 Ht)) as [bs ->]. cbn [map_err rbind].
    rewrite bool_decide_eq_false_2 by (intros Hx; by apply Hx). cbn [fail_if rbind].
    destruct (policy_id_total _ _ Ht) as [pid ->]. cbn [map_err rbind].
    by destruct (health_snapshot_total _ _ _ Ht Hc) as [h ->].
  - rewrite (bool_decide_eq_false_2 (b = expected)) by done. rewrite bool_decide_eq_true_2; [done|].
    intros ->. by apply (Hcol Hne).
Qed.

(** ** The row of the head *)

Lemma hrow_get root seed st chain x id :
  th_refines root seed st chain → x ∈ chain → bundle_id x.1 = Ok id →
  ∃ bs e, bundle_encode x.1 = Ok bs ∧ th_encode_record (content_for bs x.2) seed = Ok e ∧
    table_get (arr_bytes id) st.(th_database).(TH_HEALTH) = Some e.
Proof.
  intros HR Hx Hid. pose proof (thr_trusted _ _ _ _ _ HR Hx) as Ht.
  pose proof (proj1 (Forall_forall _ _) (thr_counted _ _ _ _ HR) _ Hx) as Hc.
  destruct (hrow_of root seed x Ht Hc) as (id' & bs & e & Hid' & Hbs & He & Hr). rewrite Hid in Hid'.
  apply Ok_inj in Hid'. subst id'. exists bs, e. split_and!; [done|done|].
  apply table_get_iter. rewrite (thr_rows _ _ _ _ HR). apply list_elem_of_fmap. by exists x.
Qed.

Lemma head_record_read root seed st chain b c id :
  th_refines root seed st chain → last chain = Some (b, c) → bundle_id b = Ok id →
  ∃ bs, bundle_encode b = Ok bs ∧
    th_head_record st.(th_database) root seed id =
    Ok ({| th_content := content_for bs c; th_mac := mac_of seed (content_for bs c) |}, b).
Proof.
  intros HR El Hid. destruct (last_of _ _ _ _ _ _ HR El) as (Ht & Hc & _).
  destruct (hrow_get _ _ _ _ (b, c) id HR (last_Some_elem_of _ _ El) Hid) as (bs & e & Hbs & He & Hg).
  exists bs. split; [done|]. unfold th_head_record. rewrite Hg. cbn [ok_or rbind].
  pose proof (decode_hrow root seed (b, c) bs e Ht Hbs He) as ->. cbn [rbind fst snd]. rewrite Hid. cbn [map_err rbind].
  by rewrite bool_decide_eq_false_2 by (intros Hx; by apply Hx).
Qed.

Lemma current_record_read root seed st chain :
  th_refines root seed st chain → th_current_record st = Ok (last chain).
Proof.
  intros HR. destruct (th_meta_read _ _ _ _ HR) as (Hm & Hs & Hh & Hl). unfold th_current_record.
  rewrite (thr_root _ _ _ _ HR), Hm, Hs, Hh. cbn [rbind]. destruct (last chain) as [[b c]|] eqn:El.
  - destruct (last_of _ _ _ _ _ _ HR El) as (Ht & Hc & ->). destruct (bundle_id_total _ (proj1 Ht)) as [id Hid].
    rewrite Hid. destruct (head_record_read _ _ _ _ _ _ _ HR El Hid) as (bs & _ & ->). done.
  - apply last_None in El as ->. cbn [map head_of last]. by rewrite Hl.
Qed.

(** ** Activating *)

Definition spec_health_append seed chain b
  : result TrustedHealthError (TrustedHealthActivationOutcome * list (TrustedReleasePolicyBundle * RolloutHealthCounters)) :=
  fail_if (MAX_TRUSTED_HEALTH_RECORDS <=? len chain)%N RecordCapacity ;?
  fail_if (existsb (same_id b) (map fst chain)) UnexpectedRetainedRecord ;?
  let? o := activation_outcome true seed b counters_default in
  Ok (o, chain ++ [(b, counters_default)]).

(** What activating a trusted bundle does to the list. *)
Definition spec_activate seed chain b
  : result TrustedHealthError (TrustedHealthActivationOutcome * list (TrustedReleasePolicyBundle * RolloutHealthCounters)) :=
  match last chain with
  | Some (current, counters) =>
      if same_id b current then
        fail_if (negb (bool_decide (b = current))) HealthBundleIdCollision ;?
        let? o := activation_outcome false seed b counters in
        Ok (o, chain)
      else
        map_err HealthTrustedPolicy (bundle_verify_successor_of b current) ;?
        spec_health_append seed chain b
  | None =>
      fail_if (negb (uint_val (epoch_of b) =? 1)%N || not_genesis b) HealthInvalidGenesisBundle ;?
      spec_health_append seed chain b
  end.

Lemma default_counted : counted counters_default.
Proof. eexists. vm_compute. reflexivity. Qed.

Lemma activation_outcome_total root installed seed b c :
  trusted root b → counted c → ∃ o, activation_outcome installed seed b c = Ok o.
Proof.
  intros Ht Hc. destruct (bundle_id_total _ (proj1 Ht)) as [id Hid]. destruct (policy_id_total _ _ Ht) as [pid Hp].
  destruct (health_snapshot_total _ _ _ Ht Hc) as [h Hh]. unfold activation_outcome. rewrite Hid, Hp, Hh. by eexists.
Qed.

Lemma bound_fits n : (n <= MAX_TRUSTED_HEALTH_RECORDS)%N → (n + 1 < U64_BOUND)%N.
Proof. unfold MAX_TRUSTED_HEALTH_RECORDS. assert (40 < U64_BOUND)%N by done. lia. Qed.

Lemma health_row_absent root seed st chain b id :
  th_refines root seed st chain → bundle_id b = Ok id →
  (match table_get (arr_bytes id) st.(th_database).(TH_HEALTH) with Some _ => true | None => false end)
  = existsb (same_id b) (map fst chain).
Proof.
  intros HR Hid. apply Bool.eq_iff_eq_true. rewrite existsb_exists. split.
  - destruct (table_get _ _) as [e|] eqn:Eg; [|done]. intros _. rewrite table_get_iter, (thr_rows _ _ _ _ HR) in Eg.
    apply list_elem_of_fmap in Eg as (x & Hr & Hx). pose proof (thr_trusted _ _ _ _ _ HR Hx) as Ht.
    pose proof (proj1 (Forall_forall _ _) (thr_counted _ _ _ _ HR) _ Hx) as Hc.
    destruct (hrow_of root seed x Ht Hc) as (id' & bs & e' & Hid' & _ & _ & Hr'). rewrite Hr' in Hr.
    injection Hr as Hi _. apply arr_eq in Hi. subst id'. exists x.1. split; [apply in_map_iff; exists x; split; [done|by apply list_elem_of_In]|].
    by apply (same_id_true _ _ _ Hid).
  - intros (b' & Hin & Hs). apply in_map_iff in Hin as (x & <- & Hx%list_elem_of_In).
    apply (same_id_true _ _ _ Hid) in Hs. destruct (hrow_get _ _ _ _ x id HR Hx Hs) as (bs & e & _ & _ & ->). done.
Qed.

Lemma activate_commit_spec root seed st chain b :
  th_refines root seed st chain → trusted root b → continues (map fst chain) b →
  match spec_health_append seed chain b with
  | Err e => activate_commit st b (head_of (map fst chain)) = Err e
  | Ok (o, chain') => ∃ st', activate_commit st b (head_of (map fst chain)) = Ok (o, st') ∧ th_refines root seed st' chain'
  end.
Proof.
  intros HR Ht Hc. destruct (th_meta_read _ _ _ _ HR) as (Hm & Hs & Hh & Hl). pose proof (thr_bound _ _ _ _ HR) as Hb.
  destruct (bundle_id_total _ (proj1 Ht)) as [id Hid]. destruct (bundle_encode_total _ (proj1 Ht)) as [bs Hbs].
  unfold spec_health_append, activate_commit. rewrite Hid, Hbs. cbn [map_err rbind]. rewrite Hh. cbn [rbind].
  rewrite bool_decide_eq_false_2 by (intros Hx; by apply Hx). cbn [fail_if rbind]. rewrite Hs. cbn [rbind]. rewrite Hl.
  destruct (N.leb_spec MAX_TRUSTED_HEALTH_RECORDS (len chain)) as [|Hlt]; [done|]. cbn [fail_if rbind].
  rewrite (health_row_absent _ _ _ _ _ _ HR Hid). destruct (existsb _ _) eqn:Ex; [done|]. cbn [fail_if rbind].
  destruct (th_encode_total root b counters_default bs seed Ht default_counted Hbs) as [e He].
  unfold content_for in He. rewrite He. cbn [rbind].
  destruct (activation_outcome_total root true seed b _ Ht default_counted) as [o Ho]. rewrite Ho. cbn [rbind].
  eexists. split; [done|]. pose proof (health_row_absent _ _ _ _ _ _ HR Hid) as Hn. rewrite Ex in Hn.
  destruct (table_get (arr_bytes id) _) eqn:Hg; [done|]. clear Hn.
  destruct HR as [H1 H2 H3 H4 H5 H6 H7 H8 H9]. split; cbn [th_database th_trust_root TH_META TH_HEALTH].
  - done.
  - by rewrite table_get_insert_ne.
  - by rewrite table_get_insert_ne.
  - by rewrite table_get_insert_ne.
  - rewrite table_get_insert_eq, map_app. unfold head_of. cbn [map fst]. by rewrite last_snoc, Hid.
  - assert (hrow seed (b, counters_default) = (arr_bytes id, e)) as Hr.
    { unfold hrow. cbn [fst snd]. rewrite Hid, Hbs. unfold content_for. by rewrite He. }
    rewrite table_iter_insert by done. rewrite map_app. cbn [map]. by rewrite Hr, H6, Permutation_app_comm.
  - rewrite map_app. cbn [map fst]. apply accepted_snoc; [rewrite len_map; by apply bound_fits|done].
  - rewrite Forall_app. split; [done|]. constructor; [apply default_counted|constructor].
  - rewrite len_app. change (len [(b, counters_default)]) with 1%N. lia.
Qed.

Lemma activate_spec root seed st chain b :
  th_refines root seed st chain → trusted root b →
  match spec_activate seed chain b with
  | Err e => activate_bundle st b = Err e
  | Ok (o, chain') => ∃ st', activate_bundle st b = Ok (o, st') ∧ th_refines root seed st' chain'
  end.
Proof.
  intros HR Ht. destruct (th_meta_read _ _ _ _ HR) as (Hm & Hs & Hh & Hl).
  destruct (bundle_id_total _ (proj1 Ht)) as [id Hid]. destruct (bundle_encode_total _ (proj1 Ht)) as [bs Hbs].
  pose proof (thr_chain _ _ _ _ HR) as Ha. pose proof (bound_fits _ (thr_bound _ _ _ _ HR)) as Hfit.
  rewrite <-(len_map fst) in Hfit.
  unfold activate_bundle, activate_prepare, spec_activate. rewrite (thr_root _ _ _ _ HR), (proj2 (bundle_verify_ok b root) Ht).
  cbn [map_err rbind]. rewrite Hid, Hbs. cbn [map_err rbind]. rewrite (current_record_read _ _ _ _ HR). cbn [rbind].
  destruct (last chain) as [[cur c]|] eqn:El.
  - destruct (last_of _ _ _ _ _ _ HR El) as (Htc & Hcc & Hhd). destruct (bundle_id_total _ (proj1 Htc)) as [cid Hcid].
    rewrite Hcid. cbn [map_err rbind].
    assert (same_id b cur = bool_decide (cid = id)) as ->.
    { unfold same_id. rewrite Hid, Hcid. apply bool_decide_ext. naive_solver. }
    case_bool_decide as He.
    + destruct (bundle_encode_total _ (proj1 Htc)) as [cbs Hcbs]. rewrite Hcbs. cbn [map_err rbind].
      destruct (decide (b = cur)) as [<-|Hne].
      * rewrite Hbs in Hcbs. apply Ok_inj in Hcbs as <-. rewrite (bool_decide_eq_true_2 (b = b)) by done.
        rewrite bool_decide_eq_false_2 by (intros Hx; by apply Hx). cbn [negb fail_if rbind].
        unfold th_seed. rewrite (thr_root _ _ _ _ HR), Hm, Hs. cbn [rbind].
        destruct (activation_outcome_total root false seed b c Ht Hcc) as [o ->]. cbn [rbind]. by exists st.
      * rewrite (bool_decide_eq_false_2 (b = cur)) by done. rewrite bool_decide_eq_true_2; [done|].
        intros ->. apply Hne. by eapply bundle_encode_inj.
    + destruct (bundle_verify_successor_of b cur) as [[]|e] eqn:Ev; cbn [map_err rbind]; [|done].
      replace (Some cid) with (head_of (map fst chain)) by (by rewrite Hhd, Hcid).
      apply activate_commit_spec; [done..|]. eapply continues_next; [done|done|done| |done]. by rewrite last_map, El.
  - destruct (fail_if _ _) as [[]|e] eqn:Eg; cbn [rbind]; [|done].
    replace None with (head_of (map fst chain)).
    2:{ unfold head_of. by rewrite last_map, El. }
    apply activate_commit_spec; [done..|].
    apply fail_if_ok, orb_false_iff in Eg as [He%negb_false_iff%N.eqb_eq Hg]. apply last_None in El as ->.
    by split.
Qed.

(** ** Counting *)

(** The newest bundle's counters, one event further. *)
Definition spec_record chain (id : TrustedPolicyBundleId) event
  : result TrustedHealthError (RolloutHealthSnapshot * list (TrustedReleasePolicyBundle * RolloutHealthCounters)) :=
  match last chain with
  | None => Err HealthMissingHead
  | Some (b, c) =>
      fail_if (negb (match bundle_id b with Ok i => bool_decide (i = id) | Err _ => false end)) StaleBundle ;?
      let? c' := map_err HealthRollout (counters_increment c event) in
      let? h := health_snapshot b c' in
      Ok (h, removelast chain ++ [(b, c')])
  end.

Lemma table_iter_replace {V} (t : table bytes V) k v v' l :
  table_iter t ≡ₚ l ++ [(k, v)] → table_iter (table_insert k v' t) ≡ₚ l ++ [(k, v')].
Proof.
  intros Hp. assert (k ∉ l.*1) as Hk.
  { pose proof (table_iter_NoDup t) as Hn. rewrite Hp, fmap_app in Hn. apply NoDup_app in Hn as (_ & Hn & _).
    intros Hin. apply (Hn k Hin). by left. }
  apply NoDup_Permutation.
  - apply NoDup_fst_NoDup, table_iter_NoDup.
  - apply NoDup_fst_NoDup. pose proof (table_iter_NoDup t) as Hn. rewrite Hp, fmap_app in Hn. by rewrite fmap_app.
  - intros [k' w]. rewrite table_insert_iter, Hp, !elem_of_app, !list_elem_of_singleton. split.
    + intros [[-> ->]|[Hne [Hin|[= -> ->]]]]; [by right|by left|done].
    + intros [Hin|[= -> ->]]; [right|by left]. split; [|by left]. intros ->. apply Hk.
      apply list_elem_of_fmap. by exists (k, w).
Qed.

Lemma count_spec root seed st chain id event :
  th_refines root seed st chain →
  match spec_record chain id event with
  | Err e => th_record_health st id event = Err e
  | Ok (h, chain') => ∃ st', th_record_health st id event = Ok (h, st') ∧ th_refines root seed st' chain'
  end.
Proof.
  intros HR. destruct (th_meta_read _ _ _ _ HR) as (Hm & Hs & Hh & Hl). unfold spec_record, th_record_health.
  rewrite (thr_root _ _ _ _ HR), Hm, Hs, Hh. cbn [rbind]. destruct (last chain) as [[b c]|] eqn:El.
  2:{ apply last_None in El as ->. done. }
  destruct (last_of _ _ _ _ _ _ HR El) as (Ht & Hc & Hhd). destruct (bundle_id_total _ (proj1 Ht)) as [bid Hid].
  rewrite Hhd, Hid. cbn [ok_or rbind]. destruct (decide (bid = id)) as [->|Hne].
  2:{ rewrite bool_decide_eq_false_2, bool_decide_eq_true_2 by done. done. }
  rewrite bool_decide_eq_true_2 by done. rewrite bool_decide_eq_false_2 by (intros Hx; by apply Hx).
  cbn [negb fail_if rbind]. destruct (head_record_read _ _ _ _ _ _ _ HR El Hid) as (bs & Hbs & ->). cbn [rbind th_content th_counters content_for th_version th_trusted_policy_bundle].
  destruct (counters_increment c event) as [c'|e] eqn:Ei; cbn [map_err rbind]; [|done].
  destruct (zero_tolerance_events c') as [n|e] eqn:Ez.
  2:{ unfold health_snapshot, th_encode_record, th_validate_content. cbn [th_version th_trusted_policy_bundle th_counters].
      rewrite Ez. cbn [map_err rbind]. rewrite bool_decide_eq_false_2 by (intros Hx; by apply Hx).
      pose proof (proj1 (bundle_encode_ok _ _) Hbs) as (_ & _ & Hlen). destruct (N.eqb_spec (len bs) 0); [lia|]. done. }
  assert (counted c') as Hc' by by eexists.
  destruct (th_encode_total root b c' bs seed Ht Hc' Hbs) as [e He]. unfold content_for in He. rewrite He. cbn [rbind].
  destruct (health_snapshot_total root b c' Ht Hc') as [h Hhs]. rewrite Hhs. cbn [rbind].
  eexists. split; [done|]. apply last_Some in El as [l ->]. rewrite removelast_last.
  destruct HR as [H1 H2 H3 H4 H5 H6 H7 H8 H9]. split; cbn [th_database th_trust_root TH_META TH_HEALTH]; try done.
  - rewrite H5, !map_app. unfold head_of. cbn [map fst]. by rewrite !last_snoc.
  - rewrite map_app. cbn [map].
    assert (hrow seed (b, c') = (arr_bytes id, e)) as ->.
    { unfold hrow. cbn [fst snd]. rewrite Hid, Hbs. unfold content_for. by rewrite He. }
    rewrite map_app in H6. cbn [map] in H6. destruct (hrow_of root seed (b, c) Ht Hc) as (id' & bs' & e0 & Hid' & _ & _ & Hr0).
    cbn [fst] in Hid'. rewrite Hid in Hid'. apply Ok_inj in Hid'. subst id'. rewrite Hr0 in H6.
    by eapply table_iter_replace.
  - rewrite map_app in H7 |- *. exact H7.
  - rewrite Forall_app in H8 |- *. destruct H8 as [H8 _]. split; [done|]. by constructor.
  - rewrite len_app in H9 |- *. exact H9.
Qed.

(** ** Opening *)

Lemma open_fresh_total root seed : ∃ st, th_open root (Some seed) th_create = Ok st ∧ th_refines root seed st [].
Proof.
  unfold th_open, th_initialize, th_create. cbn [TH_META TH_HEALTH].
  assert (∀ k, table_get k (@table_new R bytes bytes _) = None) as Hn.
  { intros k. apply table_get_None. intros v. rewrite table_new_iter. apply not_elem_of_nil. }
  rewrite Hn. cbn [rbind]. rewrite table_get_insert_ne, Hn by done. cbn [rbind].
  rewrite !table_get_insert_ne, Hn by done. cbn [ok_or rbind].
  set (st := Build_TrustedRolloutHealthStore _ _). assert (th_refines root seed st []) as HR.
  { subst st. split; cbn [th_database th_trust_root TH_META TH_HEALTH]; [done|..].
    - by rewrite 2!table_get_insert_ne, table_get_insert_eq.
    - by rewrite table_get_insert_ne, table_get_insert_eq.
    - by rewrite table_get_insert_eq.
    - by rewrite !table_get_insert_ne, Hn.
    - by rewrite table_new_iter.
    - by split; [constructor|].
    - constructor.
    - done. }
  exists st. by rewrite (snapshot_read _ _ _ _ HR).
Qed.

Lemma open_fresh_health root seed st : th_open root (Some seed) th_create = Ok st → th_refines root seed st [].
Proof. destruct (open_fresh_total root seed) as (st' & -> & HR). by intros <-%Ok_inj. Qed.

(** Reopening keeps the installation's seed, whatever the generator offers. *)
Lemma reopen_health root seed st chain root' random :
  th_refines root seed st chain →
  th_open root' random st.(th_database) = (if bool_decide (root' = root) then Ok st else Err HealthTrustRootMismatch).
Proof.
  intros HR. unfold th_open, th_initialize. rewrite (thr_schema _ _ _ _ HR).
  rewrite bool_decide_eq_false_2 by (intros Hx; by apply Hx). cbn [fail_if rbind]. rewrite (thr_pin _ _ _ _ HR).
  destruct (decide (root' = root)) as [->|Hne].
  - rewrite (bool_decide_eq_true_2 (root = root)) by done. rewrite bool_decide_eq_false_2 by (intros Hx; by apply Hx).
    cbn [fail_if rbind]. rewrite (thr_seed _ _ _ _ HR). cbn [rbind].
    assert ({| th_database := {| TH_META := TH_META (th_database st); TH_HEALTH := TH_HEALTH (th_database st) |};
               th_trust_root := root |} = st) as ->.
    { pose proof (thr_root _ _ _ _ HR). destruct st as [[] ?]. by cbn in *; subst. }
    by rewrite (snapshot_read _ _ _ _ HR).
  - rewrite (bool_decide_eq_false_2 (root' = root)) by done. rewrite bool_decide_eq_true_2; [done|]. by intros Heq%arr_eq.
Qed.

(** ** Synchronizing *)

Lemma validate_chain_from_ok root i prev bundles :
  validate_chain_from root i prev bundles = Ok tt ↔
  Forall (trusted root) bundles ∧ verify_chain_from i prev bundles = Ok tt.
Proof.
  revert i prev. induction bundles as [|b bundles IH]; intros i prev; [by split|].
  cbn [validate_chain_from verify_chain_from]. rewrite rbind_unit_ok, map_err_ok, bundle_verify_ok, Forall_cons.
  destruct (u64_checked_add _ _) as [e|]; cbn [ok_or rbind]; [|naive_solver].
  destruct (negb _); cbn [fail_if rbind]; [naive_solver|].
  destruct prev as [p|]; [destruct (bundle_verify_successor_of b p) as [[]|]|destruct (not_genesis b)];
    cbn [map_err fail_if rbind]; rewrite ?IH; naive_solver.
Qed.

Lemma validate_bundle_chain_ok root bundles :
  validate_bundle_chain bundles root = Ok tt ↔
  accepted root bundles ∧ (0 < len bundles <= MAX_TRUSTED_HEALTH_RECORDS)%N.
Proof. unfold validate_bundle_chain. rewrite rbind_unit_ok, length_check_ok, validate_chain_from_ok. unfold accepted. tauto. Qed.

(** Bundles with counters that start at zero. *)
Definition fresh (bundles : list TrustedReleasePolicyBundle) : list (TrustedReleasePolicyBundle * RolloutHealthCounters) :=
  map (fun b => (b, counters_default)) bundles.

Lemma fresh_bundles bundles : map fst (fresh bundles) = bundles.
Proof. unfold fresh. rewrite map_map. apply map_id. Qed.

Lemma NoDup_not_same (bundles rest : list TrustedReleasePolicyBundle) b :
  NoDup (map bundle_id (bundles ++ b :: rest)) → existsb (same_id b) bundles = false.
Proof.
  rewrite map_app. intros (_ & Hd & _)%NoDup_app. apply not_true_iff_false. rewrite existsb_exists.
  intros (x & Hx & Hs). unfold same_id in Hs. destruct (bundle_id b) as [i|] eqn:Hb; [|done].
  destruct (bundle_id x) as [j|] eqn:Hj; [|done]. apply bool_decide_eq_true in Hs. subst j.
  apply (Hd (Ok i)); [|cbn [map]; rewrite Hb; by left]. apply list_elem_of_fmap. exists x. by rewrite list_elem_of_In.
Qed.

(** The next bundle of a chain is appended. *)
Lemma activate_next root seed st chain b rest :
  th_refines root seed st chain → accepted root (map fst chain ++ b :: rest) →
  (len (map fst chain ++ b :: rest) <= MAX_TRUSTED_HEALTH_RECORDS)%N → NoDup (map bundle_id (map fst chain ++ b :: rest)) →
  ∃ o st', activate_bundle st b = Ok (o, st') ∧ th_refines root seed st' (chain ++ fresh [b]).
Proof.
  intros HR Ha Hl Hd. pose proof (NoDup_not_same _ _ _ Hd) as Hx.
  rewrite (cons_middle b (map fst chain) rest), app_assoc in Ha. apply accepted_app_l in Ha.
  rewrite len_app, len_cons, len_map in Hl. pose proof (bound_fits _ (thr_bound _ _ _ _ HR)) as Hfit.
  apply accepted_snoc in Ha as (Ha & Ht & Hc); [|by rewrite len_map].
  pose proof (activate_spec _ _ _ _ _ HR Ht) as Hspec.
  destruct (activation_outcome_total root true seed b _ Ht default_counted) as [o Ho].
  assert (spec_activate seed chain b = Ok (o, chain ++ fresh [b])) as Hs.
  { assert (spec_health_append seed chain b = Ok (o, chain ++ fresh [b])) as Happ.
    { unfold spec_health_append. rewrite (proj2 (N.leb_gt _ _)) by lia. rewrite Hx. cbn [fail_if rbind]. by rewrite Ho. }
    unfold spec_activate. destruct Hc as [He Hc]. rewrite last_map in Hc. destruct (last chain) as [[cur c]|] eqn:El; cbn [option_map fst] in Hc.
    - assert (same_id b cur = false) as ->.
      { apply not_true_iff_false. intros Hsame. rewrite <-not_true_iff_false, existsb_exists in Hx. apply Hx. exists cur.
        split; [|done]. apply in_map_iff. exists (cur, c). split; [done|]. by apply list_elem_of_In, last_Some_elem_of. }
      rewrite Hc. done.
    - apply last_None in El as ->. rewrite He, Hc. done. }
  rewrite Hs in Hspec. destruct Hspec as (st' & Hst & HR'). by exists o, st'.
Qed.

(** Activating the next bundles of a chain in order. *)
Lemma activate_all_next root seed st chain more rest :
  th_refines root seed st chain → accepted root (map fst chain ++ more ++ rest) →
  (len (map fst chain ++ more ++ rest) <= MAX_TRUSTED_HEALTH_RECORDS)%N → NoDup (map bundle_id (map fst chain ++ more ++ rest)) →
  ∃ st', activate_all st more = (Ok tt, st') ∧ th_refines root seed st' (chain ++ fresh more).
Proof.
  revert st chain. induction more as [|b more IH]; intros st chain HR Ha Hl Hd.
  { exists st. rewrite app_nil_r. done. }
  destruct (activate_next _ _ _ _ _ _ HR Ha Hl Hd) as (o & st1 & Hact & HR1). cbn [activate_all]. rewrite Hact.
  assert (map fst (chain ++ fresh [b]) ++ more ++ rest = map fst chain ++ (b :: more) ++ rest) as Heq
    by (by rewrite map_app, fresh_bundles, <-app_assoc).
  destruct (IH st1 (chain ++ fresh [b]) HR1) as (st2 & H2 & HR2); [by rewrite Heq..|].
  exists st2. split; [done|]. by rewrite <-app_assoc in HR2.
Qed.

Lemma position_of_middle l b r id :
  bundle_id b = Ok id → NoDup (map bundle_id (l ++ b :: r)) → position_of id (l ++ b :: r) = Some (length l).
Proof.
  intros Hb. induction l as [|x l IH]; intros Hd.
  { cbn [app position_of length]. rewrite Hb. by rewrite bool_decide_eq_true_2. }
  cbn [app map] in Hd. apply NoDup_cons in Hd as [Hx Hd]. cbn [app position_of length]. rewrite (IH Hd).
  destruct (bundle_id x) as [i|] eqn:Hi; [|done]. rewrite bool_decide_eq_false_2; [done|]. intros ->. apply Hx.
  rewrite map_app. cbn [map]. rewrite Hb. apply elem_of_app. right. by left.
Qed.

Lemma position_of_absent id bundles : Ok id ∉ map bundle_id bundles → position_of id bundles = None.
Proof.
  induction bundles as [|x l IH]; [done|]. cbn [map position_of]. rewrite not_elem_of_cons. intros [Hx Hl]. rewrite (IH Hl).
  destruct (bundle_id x) as [i|] eqn:Hi; [|done]. rewrite bool_decide_eq_false_2; [done|]. intros ->. done.
Qed.

Lemma snapshot_of_last root seed st chain b c :
  th_refines root seed st chain → last chain = Some (b, c) →
  ∃ snap, snapshot_of seed chain = Some snap ∧ bundle_id b = Ok snap.(ts_bundle_id).
Proof.
  intros HR El. destruct (last_of _ _ _ _ _ _ HR El) as (Ht & Hc & _). unfold snapshot_of. rewrite El.
  destruct (bundle_id_total _ (proj1 Ht)) as [id ->]. destruct (policy_id_total _ _ Ht) as [pid ->].
  destruct (health_snapshot_total _ _ _ Ht Hc) as [h ->]. by eexists.
Qed.

(** A test for distinct identifiers. *)
Fixpoint distinct_ids (bundles : list TrustedReleasePolicyBundle) : bool :=
  match bundles with
  | [] => true
  | b :: rest => is_ok (bundle_id b) && negb (existsb (same_id b) rest) && distinct_ids rest
  end.

Lemma distinct_ids_NoDup bundles : distinct_ids bundles = true → NoDup (map bundle_id bundles).
Proof.
  induction bundles as [|b bundles IH]; [constructor|]. cbn [distinct_ids map].
  rewrite !andb_true_iff, negb_true_iff. intros [[Hb Hx] Hr]. constructor; [|by apply IH]. intros (x & He & Hin)%list_elem_of_fmap.
  rewrite <-not_true_iff_false, existsb_exists in Hx. apply Hx. exists x. split; [by apply list_elem_of_In|].
  unfold same_id. rewrite <-He. destruct (bundle_id b); [|done]. by apply bool_decide_eq_true.
Qed.

(** From the bundles a store has, the rest of a chain is appended. *)
Lemma synchronize_spec root seed st chain bundles rest :
  th_refines root seed st chain → validate_bundle_chain bundles root = Ok tt →
  NoDup (map bundle_id bundles) → bundles = map fst chain ++ rest →
  ∃ snap st', synchronize_bundle_chain st bundles = (Ok snap, st') ∧
    th_refines root seed st' (chain ++ fresh rest) ∧ snapshot_of seed (chain ++ fresh rest) = Some snap.
Proof.
  intros HR Hv Hd Hb. unfold synchronize_bundle_chain. rewrite (thr_root _ _ _ _ HR), Hv. cbn [rbind].
  rewrite (snapshot_read _ _ _ _ HR). cbn [rbind]. apply validate_bundle_chain_ok in Hv as [Ha Hl].
  assert (∃ start, match snapshot_of seed chain with
      | None => Ok 0
      | Some snapshot => let? i := ok_or (position_of snapshot.(ts_bundle_id) bundles) CurrentBundleNotInChain in Ok (S i)
      end = Ok (E:=TrustedHealthError) start ∧ drop start bundles = rest) as (start & -> & ->).
  { destruct (last chain) as [[cur c]|] eqn:El.
    - destruct (snapshot_of_last _ _ _ _ _ _ HR El) as (snap & -> & Hid). apply last_Some in El as [l ->].
      rewrite map_app in Hb. cbn [map fst] in Hb. rewrite <-app_assoc in Hb. cbn [app] in Hb. rewrite Hb in Hd |- *.
      rewrite (position_of_middle _ _ _ _ Hid Hd). cbn [ok_or rbind]. eexists. split; [done|].
      rewrite cons_middle, app_assoc. apply drop_app_length'. rewrite length_app. cbn. lia.
    - apply last_None in El as ->. exists 0. cbn [snapshot_of last map app] in Hb |- *. by subst. }
  destruct (activate_all_next root seed st chain rest []) as (st' & Hall & HR').
  { done. } { by rewrite app_nil_r, <-Hb. } { rewrite app_nil_r, <-Hb. lia. } { by rewrite app_nil_r, <-Hb. }
  rewrite Hall. cbn [rbind]. rewrite (snapshot_read _ _ _ _ HR'). cbn [rbind].
  destruct (last (chain ++ fresh rest)) as [[b c]|] eqn:El.
  - destruct (snapshot_of_last _ _ _ _ _ _ HR' El) as (snap & Hs & _). rewrite Hs. by exists snap, st'.
  - apply last_None, app_eq_nil in El as [-> El]. destruct rest; [|done]. subst bundles. by destruct Hl.
Qed.

(** A chain without the store's current bundle is refused. *)
Lemma synchronize_foreign root seed st chain bundles b c :
  th_refines root seed st chain → validate_bundle_chain bundles root = Ok tt → last chain = Some (b, c) →
  bundle_id b ∉ map bundle_id bundles → synchronize_bundle_chain st bundles = (Err CurrentBundleNotInChain, st).
Proof.
  intros HR Hv El Hb. unfold synchronize_bundle_chain. rewrite (thr_root _ _ _ _ HR), Hv. cbn [rbind].
  rewrite (snapshot_read _ _ _ _ HR). cbn [rbind]. destruct (snapshot_of_last _ _ _ _ _ _ HR El) as (snap & -> & Hid).
  rewrite Hid in Hb. by rewrite (position_of_absent _ _ Hb).
Qed.

(** * The properties *)

(** C16: The health store refines a list of trusted bundles with their
    counters: its snapshot is the newest bundle's evaluation and counters; a
    bundle is activated exactly when the root trusts it and it continues the
    list, with fresh counters; an event counts for the newest bundle only, and
    only when the caller names it; reopening needs the pinned root and changes
    nothing.  Every error is the list's. *)
Theorem health_store_refines root seed st chain :
  th_refines root seed st chain →
  th_current_snapshot st = Ok (snapshot_of seed chain) ∧
  (∀ b, match (map_err HealthTrustedPolicy (bundle_verify b root) ;? spec_activate seed chain b) with
        | Err e => activate_bundle st b = Err e
        | Ok (o, chain') => ∃ st', activate_bundle st b = Ok (o, st') ∧ th_refines root seed st' chain'
        end) ∧
  (∀ id event, match spec_record chain id event with
        | Err e => th_record_health st id event = Err e
        | Ok (h, chain') => ∃ st', th_record_health st id event = Ok (h, st') ∧ th_refines root seed st' chain'
        end) ∧
  (∀ root' random, th_open root' random st.(th_database) =
                   if bool_decide (root' = root) then Ok st else Err HealthTrustRootMismatch).
Proof.
  intros HR. split_and!.
  - by apply snapshot_read with root.
  - intros b. destruct (bundle_verify b root) as [[]|e] eqn:Ev; cbn [map_err rbind].
    + apply bundle_verify_ok in Ev. by apply activate_spec.
    + unfold activate_bundle, activate_prepare. by rewrite (thr_root _ _ _ _ HR), Ev.
  - intros id event. by apply count_spec.
  - intros root' random. by eapply reopen_health.
Qed.

(** C21: Synchronizing reaches the tip and may be interrupted: a store that
    holds a prefix of a valid chain of bundles with distinct identifiers,
    stopped after any number of further activations, is brought to the whole
    chain by synchronizing again; the counters it had are kept, the new bundles
    start at zero, and the snapshot returned is the tip's. *)
Theorem synchronize_restartable root seed st chain before after :
  let bundles := map fst chain ++ before ++ after in
  th_refines root seed st chain → validate_bundle_chain bundles root = Ok tt → NoDup (map bundle_id bundles) →
  ∃ st1 snap st2, activate_all st before = (Ok tt, st1) ∧
    synchronize_bundle_chain st1 bundles = (Ok snap, st2) ∧
    th_current_snapshot st2 = Ok (Some snap) ∧
    option_map bundle_id (last bundles) = Some (Ok snap.(ts_bundle_id)) ∧
    th_refines root seed st2 (chain ++ fresh (before ++ after)).
Proof.
  intros bundles HR Hv Hd. pose proof (proj1 (validate_bundle_chain_ok _ _) Hv) as [Ha Hl].
  destruct (activate_all_next root seed st chain before after HR Ha (proj2 Hl) Hd) as (st1 & H1 & HR1).
  destruct (synchronize_spec root seed st1 (chain ++ fresh before) bundles after HR1 Hv Hd) as (snap & st2 & H2 & HR2 & Hs).
  { by rewrite map_app, fresh_bundles, <-app_assoc. }
  assert (chain ++ fresh (before ++ after) = (chain ++ fresh before) ++ fresh after) as Heq.
  { unfold fresh. by rewrite map_app, app_assoc. }
  exists st1, snap, st2. rewrite Heq. split_and!; [done|done| | |done].
  - by rewrite (snapshot_read _ _ _ _ HR2), Hs.
  - assert (bundles = map fst ((chain ++ fresh before) ++ fresh after)) as ->.
    { by rewrite !map_app, !fresh_bundles, <-app_assoc. }
    rewrite last_map. destruct (last _) as [[b c]|] eqn:El.
    + destruct (snapshot_of_last _ _ _ _ _ _ HR2 El) as (snap' & Hs' & Hid). rewrite Hs in Hs'. injection Hs' as <-.
      cbn. by rewrite Hid.
    + apply last_None in El. by rewrite El in Hs.
Qed.

(** C39: A chain of bundles without the store's current bundle is refused and
    the store is kept: a health store never follows a chain that rolls it back
    or leaves its history. *)
Theorem synchronize_refuses_rollback root seed st chain bundles b c :
  th_refines root seed st chain → last chain = Some (b, c) → bundle_id b ∉ map bundle_id bundles →
  ∃ e, synchronize_bundle_chain st bundles = (Err e, st) ∧
    (validate_bundle_chain bundles root = Ok tt → e = CurrentBundleNotInChain).
Proof.
  intros HR El Hb. destruct (validate_bundle_chain bundles root) as [[]|e] eqn:Hv.
  - exists CurrentBundleNotInChain. split; [|done]. by eapply synchronize_foreign.
  - exists e. split; [|done]. unfold synchronize_bundle_chain. by rewrite (thr_root _ _ _ _ HR), Hv.
Qed.
End facts.

(** * An example store *)

Module HealthExample.
Import RolloutExample TrustExample BundleExample.
#[local] Existing Instances Toy.ed25519_instance Toy.ed25519_laws Toy.sha256_instance Toy.keyed_instance.
#[local] Existing Instances SortedTable.redb_instance SortedTable.redb_laws counters_codec.

#[export] Instance th_content_codec : Codec TrustedHealthContent :=
  iso_codec (fun c => (th_version c, (th_trusted_policy_bundle c, th_counters c)))
    (fun '(v, (b, c)) => Build_TrustedHealthContent v b c) ltac:(by intros []).
#[export] Instance th_record_codec : Codec StoredTrustedHealthRecord :=
  iso_codec (fun r => (th_content r, th_mac r)) (fun '(c, m) => Build_StoredTrustedHealthRecord c m) ltac:(by intros []).
#[export] Instance health_postcard : HealthPostcard :=
  {| pc_th_content := codec_postcard; pc_th_record := codec_postcard |}.

#[export] Instance health_postcard_laws : HealthPostcardLaws health_postcard.
Proof.
  split; try apply codec_postcard_laws.
  intros [[v b [c1 c2 c3 c4 c5 c6 c7 c8 c9 c10 c11 c12 c13 c14]] mac] bs Hb%(inj Some) Hl.
  cbn [th_content th_trusted_policy_bundle] in *. subst bs.
  change (codec_enc (Build_StoredTrustedHealthRecord _ _)) with ((codec_enc v ++ codec_enc b ++
    codec_enc c1 ++ codec_enc c2 ++ codec_enc c3 ++ codec_enc c4 ++ codec_enc c5 ++ codec_enc c6 ++ codec_enc c7 ++
    codec_enc c8 ++ codec_enc c9 ++ codec_enc c10 ++ codec_enc c11 ++ codec_enc c12 ++ codec_enc c13 ++ codec_enc c14)
    ++ codec_enc mac).
  rewrite !len_app, !len_u64_enc, !len_arr_enc. change (len (codec_enc v)) with 1%N.
  cbn [codec_enc vec_codec]. assert (8192 < U64_BOUND)%N by done.
  rewrite (proj2 (N.ltb_lt _ _)) by lia. rewrite len_cons, len_app.
  assert (len (to_be_bytes 8 (len b)) = 8%N) as -> by (unfold len; by rewrite length_to_be_bytes). lia.
Qed.

Definition installation_seed : arr 32 := arr_repeat 32 x31.

Lemma health_opened : ∃ st, th_open root (Some installation_seed) th_create = Ok st.
Proof.
  assert (is_ok (th_open root (Some installation_seed) th_create) = true) as Ho by (by vm_compute).
  destruct (th_open root (Some installation_seed) th_create) as [st|]; [|discriminate Ho]. by exists st.
Qed.
Lemma health0 : ∃ st, th_refines root installation_seed st [].
Proof. destruct health_opened as [st Ho]. exists st. by apply open_fresh_health. Qed.

Lemma example_chain_valid : validate_bundle_chain [hold; canary; stop] root = Ok tt.
Proof. vm_cast_no_check (eq_refl (Ok (E:=TrustedHealthError) tt)). Qed.
Lemma example_ids_distinct : NoDup (map bundle_id [hold; canary; stop]).
Proof. apply distinct_ids_NoDup. vm_compute. reflexivity. Qed.

Lemma synchronize_restartable_witness :
  ∃ st st1 snap st2, th_refines root installation_seed st [] ∧ activate_all st [hold; canary] = (Ok tt, st1) ∧
    synchronize_bundle_chain st1 [hold; canary; stop] = (Ok snap, st2) ∧
    th_refines root installation_seed st2 (fresh [hold; canary; stop]).
Proof.
  destruct health0 as [st HR].
  destruct (synchronize_restartable root installation_seed st [] [hold; canary] [stop] HR example_chain_valid example_ids_distinct)
    as (st1 & snap & st2 & H1 & H2 & _ & _ & HR2).
  exists st, st1, snap, st2. split; [exact HR|]. split; [exact H1|]. split; [exact H2|exact HR2].
Defined.

Lemma health2 : ∃ st, th_refines root installation_seed st (fresh [hold; canary]).
Proof.
  destruct health0 as [st HR].
  destruct (activate_all_next root installation_seed st [] [hold; canary] [stop] HR) as (st1 & _ & HR1).
  - exact (proj1 (proj1 (validate_bundle_chain_ok _ _) example_chain_valid)).
  - exact (proj2 (proj2 (proj1 (validate_bundle_chain_ok _ _) example_chain_valid))).
  - exact example_ids_distinct.
  - exists st1. exact HR1.
Qed.

Lemma canary_counts :
  ∃ id h, bundle_id canary = Ok id ∧
    spec_record (fresh [hold; canary]) id CanonicalSyncFailed =
    Ok (h, fresh [hold] ++ [(canary, with_counter CanonicalSyncFailed (as_u64 1) counters_default)]).
Proof.
  assert (match bundle_id canary with
          | Ok id => match spec_record (fresh [hold; canary]) id CanonicalSyncFailed with
                     | Ok (_, l) => bool_decide (l = fresh [hold] ++ [(canary, with_counter CanonicalSyncFailed (as_u64 1) counters_default)])
                     | Err _ => false end
          | Err _ => false end = true) as Hs by (by vm_compute).
  destruct (bundle_id canary) as [id|]; [|discriminate Hs]. destruct (spec_record _ id _) as [[h l]|] eqn:Er; [|discriminate Hs].
  apply bool_decide_eq_true in Hs. subst l. exists id, h. split; [reflexivity|exact Er].
Qed.

Lemma health_store_refines_witness :
  ∃ st id h st', th_refines root installation_seed st (fresh [hold; canary]) ∧
    th_record_health st id CanonicalSyncFailed = Ok (h, st') ∧
    th_refines root installation_seed st'
      (fresh [hold] ++ [(canary, with_counter CanonicalSyncFailed (as_u64 1) counters_default)]).
Proof.
  destruct health2 as [st HR]. destruct canary_counts as (id & h & _ & Hs).
  destruct (health_store_refines root installation_seed st _ HR) as (_ & _ & Hc & _). specialize (Hc id CanonicalSyncFailed).
  rewrite Hs in Hc. destruct Hc as (st' & H1 & HR1). exists st, id, h, st'. split; [exact HR|]. split; [exact H1|exact HR1].
Defined.

Lemma hold_only_valid : validate_bundle_chain [hold] root = Ok tt.
Proof. vm_cast_no_check (eq_refl (Ok (E:=TrustedHealthError) tt)). Qed.
Lemma canary_not_hold : bundle_id canary ∉ map bundle_id [hold].
Proof.
  intros Hin. apply list_elem_of_singleton in Hin. pose proof example_ids_distinct as Hd. cbn [map] in Hd.
  apply NoDup_cons in Hd as [Hd _]. apply Hd. apply elem_of_cons. left. symmetry. exact Hin.
Qed.

Lemma synchronize_refuses_rollback_witness :
  ∃ st, th_refines root installation_seed st (fresh [hold; canary]) ∧
    synchronize_bundle_chain st [hold] = (Err CurrentBundleNotInChain, st).
Proof.
  destruct health2 as [st HR]. exists st. split; [exact HR|].
  destruct (synchronize_refuses_rollback root installation_seed st _ [hold] canary counters_default HR eq_refl canary_not_hold)
    as (e & H & He). rewrite (He hold_only_valid) in H. exact H.
Defined.

End HealthExample.
