(* ===== verification/RolloutOperator.v ===== *)
(** The rollout operator of the command line, [apps/kilogram-cli/src/main.rs].

    The commands read the device's activation records and high-water mark from
    its state directory, the trusted bundle and its health from their two
    stores, and ask the controller of [Rollout]; planning writes a signed
    artifact, and applying it writes the record it carries and then the mark.
    A command that stopped between the two writes is repaired by running it
    again.

    A [command] runs on a state directory and gives its answer together with
    the directory after each durable write, so that a stop at any point is a
    prefix of its writes.  The device's identity is an argument; how the
    directory stores its files (the encrypted vault or plain files), failures
    of the storage device and what the commands print are not modelled. *)

From stdpp Require Import base tactics list numbers strings.
From Stdlib Require Import Strings.Byte.
From S2P Require Import Prelude Crypto Text Identity Postcard Redb Rollout ReleaseTrust TrustedPolicy.
From S2P Require Import TrustedHealth Activation RolloutApproval ContainmentRecovery.

(** * Constants and data *)

Definition RUNTIME_STATE_DIRECTORY : bytes := b_str "runtime".
Definition RUNTIME_CANONICAL_SYNC_V2_ACTIVATION_DIRECTORY : bytes := b_str "canonical-sync-v2-activation".
Definition ACTIVATION_SUFFIX : bytes := b_str ".csv2-activation".
Definition MAX_RUNTIME_RECORD_BYTES : usize := 8 * 1024 * 1024.

(** The components of a relative path. *)
Abbreviation path := (list bytes).

(** What the commands use of the state directory: the runtime records, in the
    order they are read, and the high-water file. *)
Record StateDirectory := {
  runtime_records : list (path * bytes);
  high_water_file : option bytes
}.

Inductive StoreOutcome := Inserted | AlreadyPresent.

(** What [apply] reports about the record. *)
Inductive ActivationStore := Stored (outcome : StoreOutcome) | AlreadyAuthoritative.

Record CanonicalSyncV2RuntimePolicy := {
  rt_record_id : option (arr 32);
  rt_migration_state : MigrationState;
  rt_disposition : Disposition;
  rt_migration_epoch : u64;
  rt_canonical_evidence_id : option (arr 32);
  rt_permissions : Permissions
}.

Record RequiredRolloutPolicyHealth := {
  ph_bundle : TrustedReleasePolicyBundle;
  ph_evaluation : CohortEvaluation;
  ph_health : RolloutHealthSnapshot
}.

Record RequiredRolloutOperatorContext := {
  ctx_bundle : TrustedReleasePolicyBundle;
  ctx_health : RolloutHealthSnapshot;
  ctx_decision : RolloutControllerDecision;
  ctx_activation_head : option ActivationRecord
}.

(** The errors the commands return, one per check. *)
Inductive OperatorError :=
| HexLength
| HexDigit
| FilenameNotUtf8
| ActivationFilename
| ActivationHighWaterTooLarge
| RecordTooLarge
| RecordExists
| CanonicalRequiredOutsideController
| InboxAbsent
| InboxEmpty
| HealthStoreAbsent
| EvaluationBinding
| NoHeadToRepair
| InterruptedMismatch
| PredecessorMissing
| FirstRecordHighWater
| HighWaterNotPredecessor
| StaleTrustedPolicyBundle
| PrecedesItsCandidate
| CandidateChanged
| ConfirmationRequired
| ControllerHolds
| NotAwaitingRecovery
| HeadRequired
| ConfirmationMismatch
| PlanChanged
| CandidateWrongDevice
| ArtifactExists
| ArtifactUnsafe
| ArtifactLength
| ArtifactChanged
| OperatorActivation (error : ActivationError)
| OperatorPermissions (error : PermissionError)
| OperatorApproval (error : DeviceRolloutApprovalError)
| OperatorRecovery (error : ContainmentRecoveryError)
| OperatorRollout (error : RolloutError)
| OperatorTrust (error : ReleaseTrustError)
| OperatorTrustedPolicy (error : TrustedPolicyError)
| OperatorPolicyStore (error : TrustedPolicyStoreError)
| OperatorHealthStore (error : TrustedHealthError).

(** * Commands *)

Record run (A : Type) := { answer : result OperatorError A; writes : list StateDirectory }.
Arguments answer {A}. Arguments writes {A}. Arguments Build_run {A}.

Definition command (A : Type) : Type := StateDirectory → run A.

(** The directory when a run has ended. *)
Definition final {A} (dir : StateDirectory) (r : run A) : StateDirectory :=
  match last r.(writes) with Some d => d | None => dir end.

(** A computation that only reads. *)
Definition reads {A} (f : StateDirectory → result OperatorError A) : command A :=
  fun dir => {| answer := f dir; writes := [] |}.
Definition returns {A} (r : result OperatorError A) : command A := reads (fun _ => r).

Definition cbind {A B} (m : command A) (k : A → command B) : command B := fun dir =>
  let r := m dir in
  match r.(answer) with
  | Err e => {| answer := Err e; writes := r.(writes) |}
  | Ok a => let r' := k a (final dir r) in {| answer := r'.(answer); writes := r.(writes) ++ r'.(writes) |}
  end.

Notation "'let!' x ':=' m 'in' k" := (cbind m (fun x => k)) (at level 200, x pattern, right associativity) : kg_scope.

(** * Hexadecimal *)

(** [encode_hex]. *)
Definition encode_hex (bs : bytes) : bytes := hex_lower bs.

Definition hex_digit (b : byte) : option N :=
  let v := byte_val b in
  (if (48 <=? v) && (v <=? 57) then Some (v - 48)
   else if (97 <=? v) && (v <=? 102) then Some (v - 87)
   else if (65 <=? v) && (v <=? 70) then Some (v - 55)
   else None)%N.

(** [u8::from_str_radix(.., 16)] on two characters: a leading plus sign is
    accepted and skipped. *)
Definition from_str_radix_16 (a b : byte) : option byte :=
  if bool_decide (a = x2b) then option_map as_u8 (hex_digit b)
  else match hex_digit a, hex_digit b with
       | Some h, Some l => Some (as_u8 (16 * h + l))
       | _, _ => None
       end.

Fixpoint decode_hex_pairs (value : bytes) : option bytes :=
  match value with
  | a :: b :: rest =>
      match from_str_radix_16 a b, decode_hex_pairs rest with
      | Some x, Some xs => Some (x :: xs)
      | _, _ => None
      end
  | _ => Some []
  end.

(** [decode_hex_32]. *)
Definition decode_hex_32 (value : str) : result OperatorError (arr 32) :=
  fail_if (negb ((len (as_bytes value) =? 64)%N && is_ascii (as_bytes value))) HexLength ;?
  let? bs := ok_or (decode_hex_pairs (as_bytes value)) HexDigit in
  ok_or (arr_try_from 32 bs) HexDigit.

(** * Activation records on disk *)

(** [format!("{:020}", n)]: a 64-bit number has at most twenty digits. *)
Fixpoint padded_decimal (width : nat) (n : N) : bytes :=
  match width with
  | O => []
  | S width => padded_decimal width (n / 10) ++ [as_u8 (48 + n mod 10)]
  end.

(** [runtime_canonical_sync_v2_activation_relative_path]. *)
Definition activation_relative_path (migration_epoch : u64) (id : arr 32) : path :=
  [RUNTIME_STATE_DIRECTORY; RUNTIME_CANONICAL_SYNC_V2_ACTIVATION_DIRECTORY;
   padded_decimal 20 (uint_val migration_epoch) ++ b_str "-" ++ encode_hex id ++ ACTIVATION_SUFFIX].

Definition ends_with (s suffix : bytes) : bool :=
  bool_decide (drop (length s - length suffix) s = suffix).

Section operator.
Context `{Ed25519} `{Blake3Derive} `{Sha256} `{Blake3Keyed} `{RolloutPostcard} `{TrustPostcard}.
Context `{BundlePostcard} `{HealthPostcard} `{ApprovalPostcard} `{RecoveryPostcard} `{Redb}.

(** The body of the loop of [load_canonical_sync_v2_activation_records]. *)
Definition load_activation_record (local_device_id : DeviceId) (file : path * bytes)
  : result OperatorError (option ActivationRecord) :=
  let '(relative_path, bs) := file in
  let? file_name := ok_or (match last relative_path with Some n => from_utf8 n | None => None end) FilenameNotUtf8 in
  if negb (ends_with (as_bytes file_name) ACTIVATION_SUFFIX) then Ok None else
  let? record := map_err OperatorActivation (record_decode_and_verify bs local_device_id) in
  let? id := map_err OperatorActivation (record_id record) in
  fail_if (bool_decide (relative_path ≠ activation_relative_path record.(migration_epoch) id)) ActivationFilename ;?
  Ok (Some record).

Definition load_activation_records (dir : StateDirectory) (local_device_id : DeviceId)
  : result OperatorError (list ActivationRecord) :=
  let? records := try_map (load_activation_record local_device_id) dir.(runtime_records) in
  Ok (omap id records).

Definition load_activation_high_water (dir : StateDirectory) (local_device_id : DeviceId)
  : result OperatorError (option HighWater) :=
  match dir.(high_water_file) with
  | None => Ok None
  | Some encoded =>
      fail_if (1024 <? len encoded)%N ActivationHighWaterTooLarge ;?
      let? w := map_err OperatorActivation (hw_decode_and_verify encoded local_device_id) in
      Ok (Some w)
  end.

Definition load_authoritative_activation_head (dir : StateDirectory) (local_device_id : DeviceId)
  : result OperatorError (option ActivationRecord) :=
  let? records := load_activation_records dir local_device_id in
  let? high_water := load_activation_high_water dir local_device_id in
  map_err OperatorActivation (verify_authority records high_water local_device_id).

(** [CanonicalSyncV2RuntimePolicy::legacy_default]. *)
Definition legacy_default : result OperatorError CanonicalSyncV2RuntimePolicy :=
  let? permissions := map_err OperatorPermissions (evaluate_permissions LegacyOnly Normal false) in
  Ok {| rt_record_id := None; rt_migration_state := LegacyOnly; rt_disposition := Normal;
        rt_migration_epoch := as_u64 0; rt_canonical_evidence_id := None; rt_permissions := permissions |}.

(** [load_canonical_sync_v2_runtime_policy]: what the runtime is permitted. *)
Definition load_runtime_policy (dir : StateDirectory) (local_device_id : DeviceId)
  : result OperatorError CanonicalSyncV2RuntimePolicy :=
  let? records := load_activation_records dir local_device_id in
  let? high_water := load_activation_high_water dir local_device_id in
  let? head := map_err OperatorActivation (verify_authority records high_water local_device_id) in
  match head with
  | None => legacy_default
  | Some head =>
      let? id := map_err OperatorActivation (record_id head) in
      let? permissions := map_err OperatorActivation (record_permissions head) in
      Ok {| rt_record_id := Some id; rt_migration_state := head.(migration_state);
            rt_disposition := head.(disposition); rt_migration_epoch := head.(migration_epoch);
            rt_canonical_evidence_id := head.(canonical_evidence_id); rt_permissions := permissions |}
  end.

(** [persist_runtime_record] in its own state transaction. *)
Definition persist_runtime_record (relative_path : path) (bs : bytes) : command StoreOutcome := fun dir =>
  if (MAX_RUNTIME_RECORD_BYTES <? len bs)%N then {| answer := Err RecordTooLarge; writes := [] |}
  else match list_find (fun f => f.1 = relative_path) dir.(runtime_records) with
       | Some (_, (_, existing)) =>
           {| answer := if bool_decide (existing = bs) then Ok AlreadyPresent else Err RecordExists; writes := [] |}
       | None =>
           {| answer := Ok Inserted;
              writes := [{| runtime_records := dir.(runtime_records) ++ [(relative_path, bs)];
                            high_water_file := dir.(high_water_file) |}] |}
       end.

(** [publish_canonical_sync_v2_activation_high_water]: the mark is replaced in
    one step. *)
Definition publish_high_water (w : HighWater) : command unit := fun dir =>
  {| answer := Ok tt;
     writes := [{| runtime_records := dir.(runtime_records); high_water_file := Some (hw_encode w) |}] |}.

(** * Policy and health *)

(** The directories of the trusted bundles and of their health. *)
Record OperatorStores := {
  trusted_policy_dir : option TrustedPolicyDatabase;
  rollout_dir : option TrustedHealthDatabase
}.

Definition rollout_current_state_from_head (head : option ActivationRecord)
  : result OperatorError RolloutControllerCurrentState :=
  match head with
  | None =>
      Ok {| cs_target := Rollout.LegacyOnly; cs_disposition := NormalActivation;
            has_authenticated_canonical_evidence := false |}
  | Some head =>
      let? target :=
        match head.(migration_state) with
        | LegacyOnly => Ok Rollout.LegacyOnly
        | AdvertiseCanonicalV2 => Ok Rollout.AdvertiseCanonicalV2
        | DualReaderPreferLegacy => Ok Rollout.DualReaderPreferLegacy
        | DualReaderPreferCanonical => Ok Rollout.DualReaderPreferCanonical
        | CanonicalRequired => Err CanonicalRequiredOutsideController
        end in
      let disposition :=
        match head.(disposition) with
        | Normal => NormalActivation
        | EmergencyContainment => Rollout.EmergencyContainment
        end in
      Ok {| cs_target := target; cs_disposition := disposition;
            has_authenticated_canonical_evidence := is_some head.(canonical_evidence_id) |}
  end.

Definition verify_bundle_evaluation_binding (b : TrustedReleasePolicyBundle) (e : CohortEvaluation)
  : result OperatorError unit :=
  let policy := b.(bundle_policy).(policy_content) in
  let? pid := map_err OperatorRollout (policy_id b.(bundle_policy)) in
  fail_if (negb (bool_decide (e.(ce_policy_id) = pid) && u64_eqb e.(ce_policy_epoch) policy.(rp_epoch)
                 && bool_decide (e.(ce_artifact) = policy.(rp_artifact))
                 && bool_decide (e.(ce_phase) = policy.(rp_phase))
                 && bool_decide (e.(ce_disposition) = policy.(rp_disposition))
                 && (uint_val e.(ce_cohort) =? uint_val policy.(rp_cohort))%N)) EvaluationBinding.

Definition load_required_rollout_policy_health (stores : OperatorStores) (trust_root : ReleaseTrustRoot)
  : result OperatorError RequiredRolloutPolicyHealth :=
  let? trusted := map_err OperatorPolicyStore
    (inspect_existing_trusted_policy_store stores.(trusted_policy_dir) trust_root) in
  let? current := ok_or trusted InboxAbsent in
  let? bundle := ok_or current InboxEmpty in
  let? rollout := map_err OperatorHealthStore
    (inspect_existing_trusted_rollout_health_store stores.(rollout_dir) trust_root bundle) in
  let? rollout := ok_or rollout HealthStoreAbsent in
  verify_bundle_evaluation_binding bundle rollout.(ts_evaluation) ;?
  Ok {| ph_bundle := bundle; ph_evaluation := rollout.(ts_evaluation); ph_health := rollout.(ts_health) |}.

Definition load_required_rollout_operator_context (stores : OperatorStores) (trust_root : ReleaseTrustRoot)
    (local_device_id : DeviceId) (dir : StateDirectory)
  : result OperatorError RequiredRolloutOperatorContext :=
  let? ph := load_required_rollout_policy_health stores trust_root in
  let? head := load_authoritative_activation_head dir local_device_id in
  let? current := rollout_current_state_from_head head in
  let? decision := map_err OperatorRollout
    (evaluate_rollout_controller (Some ph.(ph_evaluation)) (Some ph.(ph_health)) current) in
  Ok {| ctx_bundle := ph.(ph_bundle); ctx_health := ph.(ph_health); ctx_decision := decision;
        ctx_activation_head := head |}.

Definition parse_release_trust_root (value : str) : result OperatorError ReleaseTrustRoot :=
  let? bs := decode_hex_32 value in
  map_err OperatorTrust (trust_root_from_bytes bs).

(** * Interrupted commands *)

(** [records.iter().find(|record| record.migration_epoch() + 1 == epoch)]; the
    sum does not overflow below a record of the chain. *)
Definition find_predecessor (records : list ActivationRecord) (head : ActivationRecord) : option ActivationRecord :=
  option_map snd (list_find (fun r => (uint_val r.(migration_epoch) + 1 = uint_val head.(migration_epoch))%N) records).

(** The check both repairs make of a mark that is present. *)
Definition high_water_is_predecessor (high_water : option HighWater) (previous : option ActivationRecord)
  : result OperatorError unit :=
  match high_water with
  | None => Ok tt
  | Some w =>
      let? previous := ok_or previous FirstRecordHighWater in
      let? id := map_err OperatorActivation (record_id previous) in
      fail_if (negb (u64_eqb w.(hw_epoch) previous.(migration_epoch)
                     && bool_decide (w.(hw_head_record_id) = id))) HighWaterNotPredecessor
  end.

(** Errors of the authority after which a repair is tried. *)
Definition repairable (e : ActivationError) : bool :=
  match e with HighWaterMissing | HighWaterMismatch => true | _ => false end.

(** [inspect_interrupted_rollout_activation]: [None] when nothing was
    interrupted, otherwise the record before the candidate. *)
Definition inspect_interrupted_rollout_activation (identity : DeviceIdentity) (expected : ActivationRecord)
    (dir : StateDirectory) : result OperatorError (option (option ActivationRecord)) :=
  let device := device_id identity in
  let? records := load_activation_records dir device in
  let? raw_head := map_err OperatorActivation (verify_chain records device) in
  let? high_water := load_activation_high_water dir device in
  match verify_authority records high_water device with
  | Ok _ => Ok None
  | Err e =>
      fail_if (negb (repairable e)) (OperatorActivation e) ;?
      let? raw_head := ok_or raw_head NoHeadToRepair in
      let? id := map_err OperatorActivation (record_id raw_head) in
      let? expected_id := map_err OperatorActivation (record_id expected) in
      fail_if (bool_decide (id ≠ expected_id)) InterruptedMismatch ;?
      let? encoded := map_err OperatorActivation (record_encode raw_head) in
      let? expected_encoded := map_err OperatorActivation (record_encode expected) in
      fail_if (bool_decide (encoded ≠ expected_encoded)) InterruptedMismatch ;?
      let? previous :=
        (if (uint_val raw_head.(migration_epoch) =? 1)%N then Ok None
         else let? p := ok_or (find_predecessor records raw_head) PredecessorMissing in Ok (Some p)) in
      high_water_is_predecessor high_water previous ;?
      map_err OperatorActivation (record_verify_transition expected previous) ;?
      Ok (Some previous)
  end.

Definition ready_candidate (o : ApplyOutcome) : result OperatorError ActivationRecord :=
  match o with Ready r => Ok r | AlreadyApplied _ => Err PrecedesItsCandidate end.

Definition repair_interrupted_rollout_approval (identity : DeviceIdentity) (ph : RequiredRolloutPolicyHealth)
    (approval : SignedDeviceRolloutApproval) : command bool :=
  let! plan := reads (fun dir =>
    let? bid := map_err OperatorTrustedPolicy (bundle_id ph.(ph_bundle)) in
    fail_if (bool_decide (approval.(approval_content).(ap_trusted_policy_bundle_id) ≠ bid)) StaleTrustedPolicyBundle ;?
    let? candidate := map_err OperatorApproval (approval_candidate approval) in
    let? interrupted := inspect_interrupted_rollout_activation identity candidate dir in
    match interrupted with
    | None => Ok None
    | Some previous =>
        let? current := rollout_current_state_from_head previous in
        let? decision := map_err OperatorRollout
          (evaluate_rollout_controller (Some ph.(ph_evaluation)) (Some ph.(ph_health)) current) in
        let? outcome := map_err OperatorApproval (approval_apply approval bid decision previous) in
        let? validated := ready_candidate outcome in
        let? a := map_err OperatorActivation (record_encode validated) in
        let? b := map_err OperatorActivation (record_encode candidate) in
        fail_if (bool_decide (a ≠ b)) CandidateChanged ;?
        let? w := map_err OperatorActivation (hw_issue identity candidate) in
        Ok (Some w)
    end) in
  match plan with
  | None => returns (Ok false)
  | Some w => let! _ := publish_high_water w in returns (Ok true)
  end.

Definition awaits_recovery (decision : RolloutControllerDecision) : bool :=
  match decision with Hold ContainmentRequiresExplicitRecovery _ => true | _ => false end.

Definition repair_interrupted_rollout_recovery (identity : DeviceIdentity) (trust_root : ReleaseTrustRoot)
    (ph : RequiredRolloutPolicyHealth) (recovery : SignedContainmentRecoveryApproval) : command bool :=
  let! plan := reads (fun dir =>
    let? bid := map_err OperatorTrustedPolicy (bundle_id ph.(ph_bundle)) in
    fail_if (bool_decide (recovery.(recovery_content).(rc_trusted_policy_bundle_id) ≠ bid)) StaleTrustedPolicyBundle ;?
    let? candidate := map_err OperatorRecovery (recovery_candidate recovery) in
    let? interrupted := inspect_interrupted_rollout_activation identity candidate dir in
    match interrupted with
    | None => Ok None
    | Some previous =>
        let? previous := ok_or previous HeadRequired in
        let? current := rollout_current_state_from_head (Some previous) in
        let? decision := map_err OperatorRollout
          (evaluate_rollout_controller (Some ph.(ph_evaluation)) (Some ph.(ph_health)) current) in
        fail_if (negb (awaits_recovery decision)) NotAwaitingRecovery ;?
        let? outcome := map_err OperatorRecovery
          (recovery_apply recovery trust_root ph.(ph_bundle) ph.(ph_health) previous) in
        let? validated := ready_candidate outcome in
        let? a := map_err OperatorActivation (record_encode validated) in
        let? b := map_err OperatorActivation (record_encode candidate) in
        fail_if (bool_decide (a ≠ b)) CandidateChanged ;?
        let? w := map_err OperatorActivation (hw_issue identity candidate) in
        Ok (Some w)
    end) in
  match plan with
  | None => returns (Ok false)
  | Some w => let! _ := publish_high_water w in returns (Ok true)
  end.

(** * Artifacts *)

(** [read_bounded_operator_artifact]. *)
Definition read_bounded_operator_artifact (f : input_file) (maximum : usize) : result OperatorError bytes :=
  let? metadata := ok_or f.(input_metadata) ArtifactUnsafe in
  fail_if (negb metadata.(is_real_file)) ArtifactUnsafe ;?
  let? declared := ok_or (usize_try_from metadata.(file_len)) ArtifactLength in
  fail_if (negb ((1 <=? declared) && (declared <=? maximum)))%N ArtifactLength ;?
  let? bs := ok_or f.(input_bytes) ArtifactUnsafe in
  let? after := ok_or f.(input_after) ArtifactUnsafe in
  fail_if (negb (after.(is_real_file) && u64_eqb after.(file_len) metadata.(file_len)
                 && (len bs =? declared)%N)) ArtifactChanged ;?
  Ok bs.

(** [write_new_authority_file]: the content of the new file. *)
Definition write_new_authority_file (existing : option bytes) (bs : bytes) : result OperatorError bytes :=
  match existing with Some _ => Err ArtifactExists | None => Ok bs end.

Definition is_proposal (decision : RolloutControllerDecision) : bool :=
  match decision with ProposeDeviceActivation _ _ _ _ _ _ => true | Hold _ _ => false end.

(** * Approvals *)

(** The answer of a plan is the artifact file it wrote. *)
Definition plan_rollout_approval (identity : DeviceIdentity) (stores : OperatorStores) (release_trust_root : str)
    (approval_file : option bytes) (confirm_device_approval : bool) (random : option (arr 32))
    (dir : StateDirectory) : result OperatorError bytes :=
  fail_if (negb confirm_device_approval) ConfirmationRequired ;?
  let? trust_root := parse_release_trust_root release_trust_root in
  let? context := load_required_rollout_operator_context stores trust_root (device_id identity) dir in
  fail_if (negb (is_proposal context.(ctx_decision))) ControllerHolds ;?
  let? bid := map_err OperatorTrustedPolicy (bundle_id context.(ctx_bundle)) in
  let? approval := map_err OperatorApproval
    (approval_prepare identity bid context.(ctx_decision) context.(ctx_activation_head)
       UserOrTestOperatorApproved random) in
  let? _ := map_err OperatorApproval (approval_id approval) in
  let? _ := map_err OperatorApproval (approval_candidate approval) in
  let? encoded := map_err OperatorApproval (approval_encode approval) in
  write_new_authority_file approval_file encoded.

Definition persist_rollout_activation_candidate (identity : DeviceIdentity) (current : option ActivationRecord)
    (candidate : ActivationRecord) : command StoreOutcome :=
  let! plan := returns (
    fail_if (bool_decide (candidate.(local_device_id) ≠ device_id identity)) CandidateWrongDevice ;?
    map_err OperatorActivation (record_verify_transition candidate current) ;?
    let? id := map_err OperatorActivation (record_id candidate) in
    let? encoded := map_err OperatorActivation (record_encode candidate) in
    Ok (activation_relative_path candidate.(migration_epoch) id, encoded)) in
  let! outcome := persist_runtime_record plan.1 plan.2 in
  let! w := returns (map_err OperatorActivation (hw_issue identity candidate)) in
  let! _ := publish_high_water w in
  returns (Ok outcome).

(** What [apply] does with the outcome of an approval or a recovery. *)
Definition persist_outcome (identity : DeviceIdentity) (current : option ActivationRecord) (o : ApplyOutcome)
  : command (ActivationRecord * ActivationStore) :=
  match o with
  | Ready candidate =>
      let! outcome := persist_rollout_activation_candidate identity current candidate in
      returns (Ok (candidate, Stored outcome))
  | AlreadyApplied candidate => returns (Ok (candidate, AlreadyAuthoritative))
  end.

(** The answer: the record, what happened to it, and whether the mark was
    repaired first. *)
Definition apply_rollout_approval (identity : DeviceIdentity) (stores : OperatorStores) (release_trust_root : str)
    (approval_file : input_file) (expected_approval_id : str)
  : command (ActivationRecord * ActivationStore * bool) :=
  let! plan := returns (
    let? trust_root := parse_release_trust_root release_trust_root in
    let? bs := read_bounded_operator_artifact approval_file MAX_DEVICE_ROLLOUT_APPROVAL_BYTES in
    let? approval := map_err OperatorApproval (approval_decode_and_verify bs (device_id identity)) in
    let? id := map_err OperatorApproval (approval_id approval) in
    let? expected := decode_hex_32 expected_approval_id in
    fail_if (bool_decide (id ≠ expected)) ConfirmationMismatch ;?
    let? ph := load_required_rollout_policy_health stores trust_root in
    Ok (trust_root, approval, ph)) in
  let '(trust_root, approval, ph) := plan in
  let! repaired := repair_interrupted_rollout_approval identity ph approval in
  let! plan := reads (fun dir =>
    let? context := load_required_rollout_operator_context stores trust_root (device_id identity) dir in
    let? bid := map_err OperatorTrustedPolicy (bundle_id context.(ctx_bundle)) in
    let? outcome := map_err OperatorApproval
      (approval_apply approval bid context.(ctx_decision) context.(ctx_activation_head)) in
    Ok (context.(ctx_activation_head), outcome)) in
  let! done := persist_outcome identity plan.1 plan.2 in
  returns (Ok (done, repaired)).

(** * Recoveries *)

Definition plan_rollout_recovery (identity : DeviceIdentity) (stores : OperatorStores) (release_trust_root : str)
    (recovery_file : option bytes) (confirm_device_recovery : bool) (random : option (arr 32))
    (dir : StateDirectory) : result OperatorError bytes :=
  fail_if (negb confirm_device_recovery) ConfirmationRequired ;?
  let? trust_root := parse_release_trust_root release_trust_root in
  let? context := load_required_rollout_operator_context stores trust_root (device_id identity) dir in
  fail_if (negb (awaits_recovery context.(ctx_decision))) NotAwaitingRecovery ;?
  let? containment := ok_or context.(ctx_activation_head) HeadRequired in
  let? recovery := map_err OperatorRecovery
    (recovery_prepare identity trust_root context.(ctx_bundle) context.(ctx_health) containment
       RecoveryApproved random) in
  let? _ := map_err OperatorRecovery (recovery_id recovery) in
  let? _ := map_err OperatorRecovery (recovery_candidate recovery) in
  let? encoded := map_err OperatorRecovery (recovery_encode recovery) in
  write_new_authority_file recovery_file encoded.

Definition apply_rollout_recovery (identity : DeviceIdentity) (stores : OperatorStores) (release_trust_root : str)
    (recovery_file : input_file) (expected_recovery_id : str)
  : command (ActivationRecord * ActivationStore * bool) :=
  let! plan := returns (
    let? trust_root := parse_release_trust_root release_trust_root in
    let? bs := read_bounded_operator_artifact recovery_file MAX_CONTAINMENT_RECOVERY_APPROVAL_BYTES in
    let? recovery := map_err OperatorRecovery (recovery_decode_and_verify bs (device_id identity)) in
    let? id := map_err OperatorRecovery (recovery_id recovery) in
    let? expected := decode_hex_32 expected_recovery_id in
    fail_if (bool_decide (id ≠ expected)) ConfirmationMismatch ;?
    let? ph := load_required_rollout_policy_health stores trust_root in
    Ok (trust_root, recovery, ph)) in
  let '(trust_root, recovery, ph) := plan in
  let! repaired := repair_interrupted_rollout_recovery identity trust_root ph recovery in
  let! plan := reads (fun dir =>
    let? context := load_required_rollout_operator_context stores trust_root (device_id identity) dir in
    let? current := ok_or context.(ctx_activation_head) HeadRequired in
    let? outcome := map_err OperatorRecovery
      (recovery_apply recovery trust_root context.(ctx_bundle) context.(ctx_health) current) in
    Ok (Some current, outcome)) in
  let! done := persist_outcome identity plan.1 plan.2 in
  returns (Ok (done, repaired)).

(** * Direct activation *)

Record ActivationRequest := {
  rq_migration_state : MigrationState;
  rq_disposition : Disposition;
  rq_actor : Actor;
  rq_evidence : option str;
  rq_reason : str
}.

Definition request_evidence (rq : ActivationRequest) : result OperatorError (option (arr 32)) :=
  match rq.(rq_evidence) with
  | None => Ok None
  | Some value => let? e := decode_hex_32 value in Ok (Some e)
  end.

Definition issue_requested (identity : DeviceIdentity) (previous : option ActivationRecord)
    (rq : ActivationRequest) (evidence : option (arr 32)) : result OperatorError ActivationRecord :=
  map_err OperatorActivation
    (record_issue identity previous rq.(rq_migration_state) rq.(rq_disposition) rq.(rq_actor) evidence rq.(rq_reason)).

(** [plan_canonical_sync_v2_activation]; the answer is the record it prints. *)
Definition plan_activation (identity : DeviceIdentity) (rq : ActivationRequest) (dir : StateDirectory)
  : result OperatorError ActivationRecord :=
  let device := device_id identity in
  let? records := load_activation_records dir device in
  let? high_water := load_activation_high_water dir device in
  let? head := map_err OperatorActivation (verify_authority records high_water device) in
  let? evidence := request_evidence rq in
  issue_requested identity head rq evidence.

(** [repair_interrupted_canonical_sync_v2_activation_apply] up to its write. *)
Definition plan_activation_repair (identity : DeviceIdentity) (records : list ActivationRecord)
    (raw_head : option ActivationRecord) (high_water : option HighWater) (rq : ActivationRequest)
    (evidence : option (arr 32)) (expected_record_id : arr 32) : result OperatorError HighWater :=
  let? raw_head := ok_or raw_head NoHeadToRepair in
  let? id := map_err OperatorActivation (record_id raw_head) in
  fail_if (bool_decide (id ≠ expected_record_id)) InterruptedMismatch ;?
  let first := (uint_val raw_head.(migration_epoch) =? 1)%N in
  let previous := if first then None else find_predecessor records raw_head in
  fail_if (negb (first || is_some previous)) PredecessorMissing ;?
  high_water_is_predecessor high_water previous ;?
  let? recomputed := issue_requested identity previous rq evidence in
  let? a := map_err OperatorActivation (record_encode recomputed) in
  let? b := map_err OperatorActivation (record_encode raw_head) in
  fail_if (bool_decide (a ≠ b)) CandidateChanged ;?
  map_err OperatorActivation (hw_issue identity raw_head).

(** [apply_canonical_sync_v2_activation]; the answer is [None] after a
    repair. *)
Definition apply_activation (identity : DeviceIdentity) (rq : ActivationRequest) (expected_record_id : str)
  : command (option StoreOutcome) :=
  let device := device_id identity in
  let! plan := reads (fun dir =>
    let? expected := decode_hex_32 expected_record_id in
    let? evidence := request_evidence rq in
    let? records := load_activation_records dir device in
    let? raw_head := map_err OperatorActivation (verify_chain records device) in
    let? high_water := load_activation_high_water dir device in
    match verify_authority records high_water device with
    | Ok head =>
        let? candidate := issue_requested identity head rq evidence in
        let? id := map_err OperatorActivation (record_id candidate) in
        fail_if (bool_decide (id ≠ expected)) PlanChanged ;?
        let? encoded := map_err OperatorActivation (record_encode candidate) in
        Ok (inl (candidate, activation_relative_path candidate.(migration_epoch) id, encoded))
    | Err e =>
        fail_if (negb (repairable e)) (OperatorActivation e) ;?
        let? w := plan_activation_repair identity records raw_head high_water rq evidence expected in
        Ok (inr w)
    end) in
  match plan with
  | inl (candidate, relative_path, encoded) =>
      let! outcome := persist_runtime_record relative_path encoded in
      let! w := returns (map_err OperatorActivation (hw_issue identity candidate)) in
      let! _ := publish_high_water w in
      returns (Ok (Some outcome))
  | inr w =>
      let! _ := publish_high_water w in
      returns (Ok None)
  end.

(** * Importing a bundle *)

(** [import_rollout_trusted_policy]: the bundle is imported, and the health
    store follows the whole chain.  The stores are those after the command,
    also when it fails; an open that fails is taken to leave its database as it
    was.  [random] is the answer of [getrandom]. *)
Definition import_rollout_trusted_policy (stores : OperatorStores) (release_trust_root : str)
    (policy_file : input_file) (confirm_import : bool) (random : option (arr 32))
  : result OperatorError (TrustedPolicyImportOutcome * TrustedRolloutHealthReadOnlySnapshot) * OperatorStores :=
  match
    (fail_if (negb confirm_import) ConfirmationRequired ;?
     let? trust_root := parse_release_trust_root release_trust_root in
     let? store := map_err OperatorPolicyStore
       (tp_open trust_root (match stores.(trusted_policy_dir) with Some db => db | None => tp_create end)) in
     Ok (trust_root, store))
  with
  | Err e => (Err e, stores)
  | Ok (trust_root, store) =>
      let opened := {| trusted_policy_dir := Some store.(tp_database); rollout_dir := stores.(rollout_dir) |} in
      match map_err OperatorPolicyStore (import_explicit_file store policy_file ImportRequested) with
      | Err e => (Err e, opened)
      | Ok (outcome, store) =>
          let imported := {| trusted_policy_dir := Some store.(tp_database); rollout_dir := stores.(rollout_dir) |} in
          match
            (let? chain := map_err OperatorPolicyStore (tp_bundle_chain store) in
             let? health := map_err OperatorHealthStore
               (th_open trust_root random (match stores.(rollout_dir) with Some db => db | None => th_create end)) in
             Ok (chain, health))
          with
          | Err e => (Err e, imported)
          | Ok (chain, health) =>
              let '(r, health) := synchronize_bundle_chain health chain in
              (let? snapshot := map_err OperatorHealthStore r in Ok (outcome, snapshot),
               {| trusted_policy_dir := Some store.(tp_database); rollout_dir := Some health.(th_database) |})
          end
      end
  end.

End operator.
