(* ===== verification/RolloutOperatorFacts.v ===== *)
(** Correctness of the operator's commands of [RolloutOperator]: what a state
    directory that the authority accepts holds ([settled]), that a command
    writes the record and then the mark, that between the two writes the
    runtime refuses the directory, and that running the command again ends in
    the same directory. *)

From stdpp Require Import base tactics list numbers strings.
From Stdlib Require Import Strings.Byte.
From S2P Require Import Prelude Crypto Text Identity Postcard Redb Rollout RolloutFacts ReleaseTrust ReleaseTrustFacts.
From S2P Require Import TrustedPolicy TrustedPolicyFacts TrustedHealth TrustedHealthFacts Activation ActivationFacts.
From S2P Require Import ActivationChain RolloutApproval ContainmentRecovery RolloutApprovalFacts RolloutOperator.

(** * Names *)

Lemma length_padded w n : length (padded_decimal w n) = w.
Proof. revert n. induction w as [|w IH]; intros n; [done|]. cbn [padded_decimal]. rewrite length_app, IH. cbn. lia. Qed.

Lemma padded_decimal_inj w n m :
  (n < 10 ^ N.of_nat w)%N → (m < 10 ^ N.of_nat w)%N → padded_decimal w n = padded_decimal w m → n = m.
Proof.
  revert n m. induction w as [|w IH]; intros n m Hn Hm He; [cbn in *; lia|].
  cbn [padded_decimal] in He. apply app_inj_tail in He as [He Hd].
  rewrite Nat2N.inj_succ, N.pow_succ_r' in Hn, Hm.
  assert (n / 10 = m / 10)%N as Hq by (apply IH; [apply N.Div0.div_lt_upper_bound; lia..|done]).
  pose proof (N.mod_lt n 10 ltac:(done)). pose proof (N.mod_lt m 10 ltac:(done)).
  apply (f_equal byte_val) in Hd. rewrite !as_u8_small in Hd by lia.
  rewrite (N.div_mod' n 10), (N.div_mod' m 10). lia.
Qed.

Lemma padded_decimal_printable w n : forallb printable (padded_decimal w n) = true.
Proof.
  revert n. induction w as [|w IH]; intros n; [done|]. cbn [padded_decimal]. rewrite forallb_app, IH. cbn [forallb andb].
  rewrite andb_true_r. pose proof (N.mod_lt n 10 ltac:(done)) as Hm. revert Hm. generalize (n mod 10)%N. intros k Hk. unfold printable, in_range.
  rewrite as_u8_small by lia. apply andb_true_iff. split; apply N.leb_le; lia.
Qed.

(** Records of different epochs have different files. *)
Lemma activation_path_epoch e id e' id' :
  activation_relative_path e id = activation_relative_path e' id' → e = e'.
Proof.
  intros He%(f_equal last). cbn [activation_relative_path last] in He. apply (inj Some) in He.
  apply app_inj_1 in He as [He _]; [|by rewrite !length_padded].
  apply uint_eq, (padded_decimal_inj 20); [| |done].
  all: pose proof (uint_lt e); pose proof (uint_lt e'); assert (U64_BOUND < 10 ^ N.of_nat 20)%N by done; lia.
Qed.

Lemma ends_with_app s suffix : ends_with (s ++ suffix) suffix = true.
Proof.
  unfold ends_with. rewrite length_app. replace (length s + length suffix - length suffix) with (length s) by lia.
  rewrite drop_app_length. by apply bool_decide_eq_true.
Qed.

(** The name of an activation file is text and has the suffix. *)
Lemma activation_file_name e id :
  ∃ name : str, match last (activation_relative_path e id) with Some n => from_utf8 n | None => None end = Some name ∧
    ends_with (as_bytes name) ACTIVATION_SUFFIX = true.
Proof.
  cbn [activation_relative_path last]. destruct (from_utf8_valid (padded_decimal 20 (uint_val e) ++ b_str "-" ++ encode_hex id ++ ACTIVATION_SUFFIX)) as [s Hs].
  - apply ascii_utf8, printable_ascii. rewrite !forallb_app, padded_decimal_printable. unfold encode_hex. by rewrite hex_lower_printable.
  - exists s. split; [done|]. apply from_utf8_Some in Hs as ->. rewrite !app_assoc. apply ends_with_app.
Qed.

(** ** Hexadecimal *)

Lemma hex_digit_nibble n : (n < 16)%N → hex_digit (nth (N.to_nat n) HEX x00) = Some n ∧ nth (N.to_nat n) HEX x00 ≠ x2b.
Proof.
  intros Hn.
  assert (n = 0 ∨ n = 1 ∨ n = 2 ∨ n = 3 ∨ n = 4 ∨ n = 5 ∨ n = 6 ∨ n = 7 ∨ n = 8 ∨ n = 9 ∨ n = 10 ∨
          n = 11 ∨ n = 12 ∨ n = 13 ∨ n = 14 ∨ n = 15)%N as Hc by lia.
  by repeat destruct Hc as [-> | Hc]; [..|subst n].
Qed.

Lemma decode_encode_hex bs : decode_hex_pairs (encode_hex bs) = Some bs.
Proof.
  induction bs as [|b bs IH]; [done|]. unfold encode_hex, hex_lower in *. cbn [flat_map app decode_hex_pairs]. rewrite IH.
  unfold from_str_radix_16. destruct (hex_digit_nibble _ (high_nibble b)) as [-> Hp]. destruct (hex_digit_nibble _ (low_nibble b)) as [-> _].
  rewrite bool_decide_eq_false_2 by done. do 2 f_equal. rewrite <-(as_u8_id b) at 3. f_equal.
  rewrite N.shiftr_div_pow2. change 15%N with (N.ones 4). rewrite N.land_ones. change (2 ^ 4)%N with 16%N.
  rewrite (N.div_mod' (byte_val b) 16) at 3. lia.
Qed.

Lemma decode_hex_id (id : arr 32) (value : str) : as_bytes value = encode_hex id → decode_hex_32 value = Ok id.
Proof.
  intros Hv. unfold decode_hex_32. rewrite Hv, decode_encode_hex. cbn [ok_or rbind].
  assert (len (encode_hex id) = 64)%N as ->.
  { unfold len, encode_hex. by rewrite length_hex_lower, arr_length. }
  assert (is_ascii (encode_hex id) = true) as -> by (apply printable_ascii; unfold encode_hex; by rewrite hex_lower_printable).
  cbn [andb negb N.eqb fail_if rbind]. by rewrite arr_try_from_bytes.
Qed.

(** * State directories *)

Section directories.
Context {E : Ed25519} {D : Blake3Derive}.
Implicit Types (r p : ActivationRecord) (l : list ActivationRecord) (d : DeviceId) (dir : StateDirectory).
Implicit Types (w : HighWater).

Definition file_of_record r : path * bytes :=
  (activation_relative_path r.(migration_epoch) (record_hash r), record_bytes r).

(** A runtime record of another kind. *)
Definition inert (f : path * bytes) : Prop :=
  ∃ name : str, match last f.1 with Some n => from_utf8 n | None => None end = Some name ∧
    ends_with (as_bytes name) ACTIVATION_SUFFIX = false.

(** The directory has the files of a chain, and others. *)
Definition holds d dir l : Prop :=
  achain d l ∧ ∃ other, dir.(runtime_records) ≡ₚ map file_of_record l ++ other ∧ Forall inert other.

Definition marked_file dir (h : option ActivationRecord) : Prop :=
  match h with
  | None => dir.(high_water_file) = None
  | Some r => ∃ w, dir.(high_water_file) = Some (hw_encode w) ∧ marks w r
  end.

(** The authority accepts the directory; a command stopped after its first
    write. *)
Definition settled d dir l : Prop := holds d dir l ∧ marked_file dir (head l).
Definition interrupted d dir r l : Prop := holds d dir (r :: l) ∧ marked_file dir (head l).

(** ** Loading *)

Lemma load_record_ok d f o :
  load_activation_record d f = Ok o ↔
  (inert f ∧ o = None) ∨ (∃ r, o = Some r ∧ r.(local_device_id) = d ∧ record_signed r ∧ f = file_of_record r).
Proof.
  destruct f as [fp bs]. unfold load_activation_record, inert. cbn [fst]. split.
  - intros H. apply rbind_ok in H as (name & Hn%ok_or_ok & H). destruct (ends_with (as_bytes name) ACTIVATION_SUFFIX) eqn:Es; cbn [negb] in H.
    + right. apply rbind_ok in H as (r & (Hd & Hs & ->)%map_err_ok%record_decode_exact & H).
      apply rbind_ok in H as (id & [_ ->]%map_err_ok%record_id_ok & H).
      apply rbind_unit_ok in H as [Hp%fail_if_ok%bool_decide_eq_false%dec_stable <-%Ok_inj]. exists r. by subst.
    + left. apply Ok_inj in H. split; [|done]. by exists name.
  - intros [[(name & Hn & Es) ->]|(r & -> & Hd & Hs & Hf)].
    + rewrite Hn. cbn [ok_or rbind]. by rewrite Es.
    + unfold file_of_record in Hf. injection Hf as -> ->. destruct (activation_file_name r.(migration_epoch) (record_hash r)) as (name & Hn & Es).
      rewrite Hn. cbn [ok_or rbind]. rewrite Es. cbn [negb].
      rewrite (proj2 (record_decode_exact _ d r) (conj Hd (conj Hs eq_refl))). cbn [map_err rbind].
      rewrite (proj2 (record_id_ok r _) (conj Hs eq_refl)). cbn [map_err rbind].
      by rewrite bool_decide_eq_false_2 by (intros Hx; by apply Hx).
Qed.

Lemma try_map_perm {Er A B} (f : A → result Er B) (l l' : list A) os' :
  l ≡ₚ l' → try_map f l' = Ok os' → ∃ os, try_map f l = Ok os ∧ os ≡ₚ os'.
Proof.
  intros Hp. revert os'. induction Hp as [|x ? ? _ IH|x y ?|? ? ? _ IH1 _ IH2]; intros os' Ho.
  - by exists os'.
  - cbn [try_map] in Ho |- *. apply rbind_ok in Ho as (b & Hb & Ho). apply rbind_ok in Ho as (bs & Hbs & <-%Ok_inj).
    destruct (IH _ Hbs) as (os & Hos & Hpo). rewrite Hb. cbn [rbind]. rewrite Hos. cbn [rbind]. exists (b :: os). split; [done|]. by constructor.
  - cbn [try_map] in Ho |- *. apply rbind_ok in Ho as (b & Hb & Ho). apply rbind_ok in Ho as (bs & Hbs & <-%Ok_inj).
    apply rbind_ok in Hbs as (c & Hc & Hbs). apply rbind_ok in Hbs as (cs & Hcs & <-%Ok_inj).
    rewrite Hc. cbn [rbind]. rewrite Hb. cbn [rbind]. rewrite Hcs. cbn [rbind]. exists (c :: b :: cs). split; [done|]. constructor.
  - destruct (IH2 _ Ho) as (os & Hos & H2). destruct (IH1 _ Hos) as (os1 & Hos1 & H1). exists os1. split; [done|]. by rewrite H1.
Qed.

Lemma try_map_app {Er A B} (f : A → result Er B) (l l' : list A) a b :
  try_map f l = Ok a → try_map f l' = Ok b → try_map f (l ++ l') = Ok (a ++ b).
Proof.
  revert a. induction l as [|x l IH]; intros a Ha Hb; cbn [try_map app] in *; [by apply Ok_inj in Ha as <-|].
  apply rbind_ok in Ha as (y & Hy & Ha). apply rbind_ok in Ha as (ys & Hys & <-%Ok_inj). rewrite Hy. cbn [rbind].
  by rewrite (IH _ Hys Hb).
Qed.

Lemma achain_records d l : achain d l → Forall (fun r => r.(local_device_id) = d ∧ record_signed r) l.
Proof. induction 1; by constructor. Qed.

Lemma load_records d dir l : holds d dir l → ∃ rs, load_activation_records dir d = Ok rs ∧ rs ≡ₚ l.
Proof.
  intros [Hc (other & Hp & Ho)]. unfold load_activation_records.
  assert (try_map (load_activation_record d) (map file_of_record l) = Ok (map Some l)) as H1.
  { pose proof (achain_records _ _ Hc) as Hr. clear -Hr. induction Hr as [|r l [Hd Hs] _ IH]; [done|]. cbn [map try_map].
    rewrite (proj2 (load_record_ok d _ (Some r))) by (right; by exists r). cbn [rbind]. by rewrite IH. }
  assert (try_map (load_activation_record d) other = Ok (map (fun _ => None) other)) as H2.
  { clear -Ho. induction Ho as [|f other Hf _ IH]; [done|]. cbn [map try_map].
    rewrite (proj2 (load_record_ok d f None)) by by left. cbn [rbind]. by rewrite IH. }
  destruct (try_map_perm _ _ _ _ Hp (try_map_app _ _ _ _ _ H1 H2)) as (os & -> & Hos). cbn [rbind]. eexists. split; [done|].
  rewrite Hos, omap_app. assert (omap id (map (fun _ : path * bytes => @None ActivationRecord) other) = []) as ->.
  { clear. induction other as [|f other IH]; [done|]. exact IH. }
  rewrite app_nil_r. clear. induction l as [|r l IH]; [done|]. cbn. by rewrite IH.
Qed.

Lemma load_mark d dir l :
  achain d l → marked_file dir (head l) → ∃ hw, load_activation_high_water dir d = Ok hw ∧ marked hw (head l).
Proof.
  intros Hc Hm. unfold load_activation_high_water. destruct l as [|r l]; cbn [head marked_file] in Hm |- *.
  { rewrite Hm. by exists None. }
  destruct Hm as (w & -> & Hw). pose proof Hw as (Hs & Hd & _). destruct (achain_signed _ _ _ Hc) as [_ Hr].
  rewrite Hr in Hd. assert (len (hw_encode w) = 153%N) as Hl.
  { pose proof (proj2 (hw_decode_exact _ d w) (conj Hd (conj Hs eq_refl))) as He. unfold hw_decode_and_verify in He.
    apply rbind_unit_ok in He as [He%fail_if_ok%negb_false_iff%N.eqb_eq _]. exact He. }
  rewrite Hl. cbn [N.ltb N.compare fail_if rbind]. rewrite (proj2 (hw_decode_exact _ d w) (conj Hd (conj Hs eq_refl))). by exists (Some w).
Qed.

Lemma authority_read d dir l : settled d dir l → load_authoritative_activation_head dir d = Ok (head l).
Proof.
  intros [Hh Hm]. pose proof (proj1 Hh) as Hc. unfold load_authoritative_activation_head.
  destruct (load_records _ _ _ Hh) as (rs & -> & Hp). cbn [rbind]. destruct (load_mark _ _ _ Hc Hm) as (hw & -> & Hmk). cbn [rbind].
  rewrite (proj2 (verify_authority_ok rs hw d (head l))); [done|]. by exists l.
Qed.

(** What was loaded is what the directory holds. *)
Lemma loaded_files d files os :
  try_map (load_activation_record d) files = Ok os →
  ∃ other, files ≡ₚ map file_of_record (omap id os) ++ other ∧ Forall inert other.
Proof.
  revert os. induction files as [|f files IH]; intros os Ho; cbn [try_map] in Ho.
  { apply Ok_inj in Ho as <-. exists []. by split; [|constructor]. }
  apply rbind_ok in Ho as (o & Hf & Ho). apply rbind_ok in Ho as (os' & Hos & <-%Ok_inj).
  destruct (IH _ Hos) as (other & Hp & Hi). apply load_record_ok in Hf as [[Hf ->]|(r & -> & _ & _ & ->)].
  - exists (f :: other). split; [|by constructor]. cbn. rewrite Hp. by rewrite Permutation_middle.
  - exists other. split; [|done]. cbn. by constructor.
Qed.

(** The authority accepts exactly the settled directories. *)
Lemma settled_exact d dir h :
  load_authoritative_activation_head dir d = Ok h ↔ ∃ l, settled d dir l ∧ h = head l.
Proof.
  split; [|intros (l & Hs & ->); by apply authority_read].
  unfold load_authoritative_activation_head, load_activation_records. intros H.
  apply rbind_ok in H as (rs & Hrs & H). apply rbind_ok in Hrs as (os & Hos & <-%Ok_inj).
  apply rbind_ok in H as (hw & Hhw & (l & Hp & Hc & -> & Hm)%map_err_ok%verify_authority_ok).
  exists l. split; [|done]. destruct (loaded_files _ _ _ Hos) as (other & Hf & Hi). split.
  - split; [done|]. exists other. split; [|done]. rewrite Hf. apply Permutation_app_tail, Permutation_map, Hp.
  - unfold load_activation_high_water in Hhw. destruct (head l) as [r|], dir.(high_water_file) as [bs|] eqn:Ef; cbn [marked_file].
    + apply rbind_unit_ok in Hhw as [_ Hhw]. apply rbind_ok in Hhw as (w & (_ & _ & ->)%map_err_ok%hw_decode_exact & <-%Ok_inj).
      by exists w.
    + apply Ok_inj in Hhw as <-. done.
    + apply rbind_unit_ok in Hhw as [_ Hhw]. by apply rbind_ok in Hhw as (w & _ & <-%Ok_inj).
    + done.
Qed.

(** ** Interrupted directories *)

Lemma interrupted_loads d dir r l :
  interrupted d dir r l → ∃ rs hw e, load_activation_records dir d = Ok rs ∧ rs ≡ₚ r :: l ∧
    load_activation_high_water dir d = Ok hw ∧ marked hw (head l) ∧
    verify_chain rs d = Ok (Some r) ∧ verify_authority rs hw d = Err e ∧ repairable e = true.
Proof.
  intros [Hh Hm]. pose proof (proj1 Hh) as Hc. destruct (load_records _ _ _ Hh) as (rs & Hrs & Hp).
  assert (achain d l) as Hl by by inversion Hc. destruct (load_mark _ _ _ Hl Hm) as (hw & Hhw & Hmk).
  assert (verify_chain rs d = Ok (Some r)) as Hv by (apply verify_chain_ok; by exists (r :: l)).
  exists rs, hw. destruct l as [|p l]; cbn [head marked] in Hmk.
  - destruct hw; [done|]. exists HighWaterMissing. split_and!; try done. unfold verify_authority. by rewrite Hv.
  - destruct hw as [w|]; [|done]. pose proof Hmk as (Hs & Hd & He & _). exists HighWaterMismatch.
    split_and!; try done. unfold verify_authority. rewrite Hv. cbn [rbind]. rewrite (proj2 (hw_verify_signature_ok w) Hs). cbn [rbind].
    destruct (achain_signed _ _ _ Hl) as [_ Hpd].
    rewrite bool_decide_eq_false_2 by (intros Hx; apply Hx; by rewrite Hd). cbn [fail_if rbind].
    rewrite bool_decide_eq_true_2; [done|]. intros Heq. apply (f_equal uint_val) in Heq. rewrite He in Heq.
    rewrite (achain_epoch _ _ _ Hc), (achain_epoch _ _ _ Hl), !len_cons in Heq. lia.
Qed.

(** The runtime refuses an interrupted directory. *)
Lemma interrupted_refused d dir r l :
  interrupted d dir r l → ∃ e, repairable e = true ∧ load_runtime_policy dir d = Err (OperatorActivation e) ∧
    load_authoritative_activation_head dir d = Err (OperatorActivation e).
Proof.
  intros Hi. destruct (interrupted_loads _ _ _ _ Hi) as (rs & hw & e & Hrs & _ & Hhw & _ & _ & Hv & He).
  exists e. unfold load_runtime_policy, load_authoritative_activation_head. rewrite Hrs, Hhw. cbn [rbind]. by rewrite Hv.
Qed.

(** The predecessor that is found is the record below the head. *)
Lemma find_predecessor_ok d rs r l :
  achain d (r :: l) → rs ≡ₚ r :: l → find_predecessor rs r = head l.
Proof.
  intros Hc Hp. pose proof (achain_epoch _ _ _ Hc) as Er. unfold find_predecessor.
  destruct (list_find _ rs) as [[i x]|] eqn:Ef; cbn [option_map snd].
  - apply list_find_Some in Ef as (Hi & Hx & _). apply list_elem_of_lookup_2 in Hi. rewrite Hp in Hi.
    apply elem_of_cons in Hi as [->|Hi]; [lia|]. destruct l as [|p l]; [by apply not_elem_of_nil in Hi|]. cbn [head].
    apply elem_of_cons in Hi as [->|Hi]; [done|]. exfalso. assert (achain d (p :: l)) as Hl by by inversion Hc.
    pose proof (achain_epochs_below _ _ _ Hl) as Hb. rewrite Forall_forall in Hb. specialize (Hb x Hi).
    apply (proj1 (N.compare_lt_iff _ _)) in Hb. rewrite (achain_epoch _ _ _ Hl) in Hb. rewrite !len_cons in Er, Hb. rewrite Er, len_cons in Hx. lia.
  - destruct l as [|p l]; [done|]. exfalso. apply list_find_None in Ef. rewrite Forall_forall in Ef. apply (Ef p).
    + rewrite Hp. right. by left.
    + assert (achain d (p :: l)) as Hl by by inversion Hc. rewrite Er, (achain_epoch _ _ _ Hl), !len_cons. lia.
Qed.

Lemma predecessor_found d rs r l :
  achain d (r :: l) → rs ≡ₚ r :: l →
  (if (uint_val r.(migration_epoch) =? 1)%N then Ok None
   else let? p := ok_or (find_predecessor rs r) PredecessorMissing in Ok (Some p)) = Ok (head l).
Proof.
  intros Hc Hp. rewrite (find_predecessor_ok _ _ _ _ Hc Hp), (achain_epoch _ _ _ Hc), len_cons.
  destruct l as [|p l]; [done|]. rewrite (proj2 (N.eqb_neq _ _)) by (rewrite len_cons; lia). done.
Qed.

Lemma mark_is_predecessor d hw l :
  achain d l → marked hw (head l) → high_water_is_predecessor hw (head l) = Ok tt.
Proof.
  intros Hc Hm. destruct l as [|p l], hw as [w|]; cbn [head marked high_water_is_predecessor] in *; try done.
  destruct Hm as (_ & _ & He & Hi). destruct (achain_signed _ _ _ Hc) as [Hs _]. cbn [ok_or rbind].
  rewrite (proj2 (record_id_ok p _) (conj Hs eq_refl)). cbn [map_err rbind].
  rewrite He, Hi, (proj2 (u64_eqb_eq _ _) eq_refl), bool_decide_eq_true_2 by done. done.
Qed.

Lemma inspect_interrupted i dir r l :
  interrupted (device_id i) dir r l → inspect_interrupted_rollout_activation i r dir = Ok (Some (head l)).
Proof.
  intros Hi. pose proof (proj1 (proj1 Hi)) as Hc. destruct (achain_signed _ _ _ Hc) as [Hs Hd].
  assert (achain (device_id i) l) as Hl by by inversion Hc.
  destruct (interrupted_loads _ _ _ _ Hi) as (rs & hw & e & Hrs & Hp & Hhw & Hmk & Hch & Hv & He).
  unfold inspect_interrupted_rollout_activation. rewrite Hrs. cbn [rbind]. rewrite Hch. cbn [map_err rbind]. rewrite Hhw.
  cbn [rbind]. rewrite Hv, He. cbn [negb fail_if rbind ok_or].
  rewrite (proj2 (record_id_ok r _) (conj Hs eq_refl)). cbn [map_err rbind].
  rewrite bool_decide_eq_false_2 by (intros Hx; by apply Hx). cbn [fail_if rbind].
  rewrite (proj2 (record_encode_ok r _) (conj Hs eq_refl)). cbn [map_err rbind].
  rewrite bool_decide_eq_false_2 by (intros Hx; by apply Hx). cbn [fail_if rbind].
  rewrite (predecessor_found _ _ _ _ Hc Hp). cbn [rbind]. rewrite (mark_is_predecessor _ _ _ Hl Hmk). cbn [rbind].
  by rewrite (proj2 (achain_transition _ r l Hl Hd Hs) Hc).
Qed.

(** A directory that was interrupted at another record is not repaired. *)
Lemma inspect_other i dir r l x :
  interrupted (device_id i) dir r l → record_signed x → record_bytes x ≠ record_bytes r →
  inspect_interrupted_rollout_activation i x dir = Err InterruptedMismatch.
Proof.
  intros Hi Hx Hne. pose proof (proj1 (proj1 Hi)) as Hc. destruct (achain_signed _ _ _ Hc) as [Hs Hd].
  destruct (interrupted_loads _ _ _ _ Hi) as (rs & hw & e & Hrs & Hp & Hhw & Hmk & Hch & Hv & He).
  unfold inspect_interrupted_rollout_activation. rewrite Hrs. cbn [rbind]. rewrite Hch. cbn [map_err rbind]. rewrite Hhw.
  cbn [rbind]. rewrite Hv, He. cbn [negb fail_if rbind ok_or].
  rewrite (proj2 (record_id_ok r _) (conj Hs eq_refl)), (proj2 (record_id_ok x _) (conj Hx eq_refl)). cbn [map_err rbind].
  case_bool_decide; [done|]. cbn [fail_if rbind].
  rewrite (proj2 (record_encode_ok r _) (conj Hs eq_refl)), (proj2 (record_encode_ok x _) (conj Hx eq_refl)). cbn [map_err rbind].
  by rewrite bool_decide_eq_true_2 by done.
Qed.

Lemma inspect_settled i dir l r :
  settled (device_id i) dir l → inspect_interrupted_rollout_activation i r dir = Ok None.
Proof.
  intros [Hh Hm]. pose proof (proj1 Hh) as Hc. unfold inspect_interrupted_rollout_activation.
  destruct (load_records _ _ _ Hh) as (rs & -> & Hp). cbn [rbind]. destruct (load_mark _ _ _ Hc Hm) as (hw & -> & Hmk).
  rewrite (proj2 (verify_chain_ok rs (device_id i) (head l))) by by exists l. cbn [map_err rbind].
  by rewrite (proj2 (verify_authority_ok rs hw (device_id i) (head l))) by by exists l.
Qed.

(** ** Writing *)

(** The directory after the record and after the mark. *)
Definition with_record dir r : StateDirectory :=
  {| runtime_records := dir.(runtime_records) ++ [file_of_record r]; high_water_file := dir.(high_water_file) |}.
Definition with_mark dir w : StateDirectory :=
  {| runtime_records := dir.(runtime_records); high_water_file := Some (hw_encode w) |}.

Lemma no_file_yet d dir r l :
  holds d dir l → achain d (r :: l) →
  list_find (fun f => f.1 = activation_relative_path r.(migration_epoch) (record_hash r)) dir.(runtime_records) = None.
Proof.
  intros [Hl (other & Hp & Ho)] Hc. apply list_find_None. rewrite Hp, Forall_app. split.
  - apply Forall_forall. intros f (p & -> & Hin)%list_elem_of_fmap Heq. cbn [file_of_record fst] in Heq.
    apply activation_path_epoch in Heq. pose proof (achain_epochs_below _ _ _ Hc) as Hb. rewrite Forall_forall in Hb.
    specialize (Hb p Hin). rewrite Heq in Hb. apply (proj1 (N.compare_lt_iff _ _)) in Hb. lia.
  - eapply Forall_impl; [exact Ho|]. intros f (name & Hn & Hs) Heq. cbn beta in Heq.
    destruct (activation_file_name r.(migration_epoch) (record_hash r)) as (name' & Hn' & Hs').
    rewrite Heq in Hn. congruence.
Qed.

Lemma persist_record d dir r l :
  holds d dir l → achain d (r :: l) →
  persist_runtime_record (activation_relative_path r.(migration_epoch) (record_hash r)) (record_bytes r) dir =
  {| answer := Ok Inserted; writes := [with_record dir r] |}.
Proof.
  intros Hh Hc. unfold persist_runtime_record. rewrite (no_file_yet _ _ _ _ Hh Hc).
  destruct (achain_signed _ _ _ Hc) as [Hs _]. destruct (record_bytes_bounds r Hs) as [_ Hb].
  assert (MAX_ACTIVATION_RECORD_BYTES = 448%N) as Hm by done. rewrite Hm in Hb.
  rewrite (proj2 (N.ltb_ge _ _)); [done|]. unfold MAX_RUNTIME_RECORD_BYTES. lia.
Qed.

Lemma record_written d dir r l :
  settled d dir l → achain d (r :: l) → interrupted d (with_record dir r) r l.
Proof.
  intros [[Hl (other & Hp & Ho)] Hm] Hc. split; [|done]. split; [done|]. exists other. split; [|done].
  cbn [with_record runtime_records map app]. rewrite Hp, (Permutation_app_comm _ [_]). done.
Qed.

Lemma mark_written d dir r l w :
  interrupted d dir r l → marks w r → settled d (with_mark dir w) (r :: l).
Proof. intros [[Hc Hf] _] Hw. split; [by split|]. by exists w. Qed.
End directories.

(** * Runs *)

Lemma cbind_reads {A B} (f : StateDirectory → result OperatorError A) (k : A → command B) dir :
  cbind (reads f) k dir = match f dir with Ok a => k a dir | Err e => {| answer := Err e; writes := [] |} end.
Proof. unfold cbind, reads. cbn [answer writes]. destruct (f dir) as [a|e]; [|done]. cbn [final last writes app]. by destruct (k a dir). Qed.

Lemma cbind_returns {A B} (r : result OperatorError A) (k : A → command B) dir :
  cbind (returns r) k dir = match r with Ok a => k a dir | Err e => {| answer := Err e; writes := [] |} end.
Proof. apply (cbind_reads (fun _ => r)). Qed.

(** The rest of a command runs on the directory that was written last. *)
Lemma cbind_wrote {A B} (m : command A) (k : A → command B) dir a ws dir' :
  m dir = {| answer := Ok a; writes := ws |} → last ws = Some dir' →
  cbind m k dir = {| answer := (k a dir').(answer); writes := ws ++ (k a dir').(writes) |}.
Proof. intros Hm Hl. unfold cbind. rewrite Hm. cbn [answer]. unfold final. cbn [writes]. by rewrite Hl. Qed.

Lemma cbind_quiet {A B} (m : command A) (k : A → command B) dir a :
  m dir = {| answer := Ok a; writes := [] |} → cbind m k dir = k a dir.
Proof. intros Hm. unfold cbind. rewrite Hm. cbn [answer writes final last app]. by destruct (k a dir). Qed.

Lemma cbind_failed {A B} (m : command A) (k : A → command B) dir e :
  (m dir).(answer) = Err e → cbind m k dir = {| answer := Err e; writes := (m dir).(writes) |}.
Proof. intros Hm. unfold cbind. by rewrite Hm. Qed.

Section commands.
Context {E : Ed25519} {EL : Ed25519Laws E} {D : Blake3Derive} {SH : Sha256} {K : Blake3Keyed}.
Context {RP : RolloutPostcard} {TP : TrustPostcard} {BP : BundlePostcard} {HP : HealthPostcard}.
Context {AP : ApprovalPostcard} {CP : RecoveryPostcard} {R : Redb}.
Context {RPL : RolloutPostcardLaws RP} {TPL : TrustPostcardLaws TP} {BPL : BundlePostcardLaws BP}.
Context {APL : ApprovalPostcardLaws AP} {CPL : RecoveryPostcardLaws CP}.
Implicit Types (i : DeviceIdentity) (r p : ActivationRecord) (l : list ActivationRecord) (dir : StateDirectory).
Implicit Types (w : HighWater) (stores : OperatorStores) (ph : RequiredRolloutPolicyHealth).

Lemma persist_candidate i dir r l :
  settled (device_id i) dir l → achain (device_id i) (r :: l) →
  ∃ w, hw_issue i r = Ok w ∧ marks w r ∧
    persist_rollout_activation_candidate i (head l) r dir =
    {| answer := Ok Inserted; writes := [with_record dir r; with_mark (with_record dir r) w] |}.
Proof.
  intros Hs Hc. assert (achain (device_id i) l) as Hl by by inversion Hc. destruct (achain_signed _ _ _ Hc) as [Hrs Hd].
  destruct (hw_issue_ok i r Hrs Hd) as (w & Hw & Hm). exists w. split; [done|]. split; [done|].
  unfold persist_rollout_activation_candidate. rewrite cbind_returns.
  rewrite bool_decide_eq_false_2 by (intros Hx; by apply Hx). cbn [fail_if rbind].
  rewrite (proj2 (achain_transition _ r l Hl Hd Hrs) Hc). cbn [map_err rbind].
  rewrite (proj2 (record_id_ok r _) (conj Hrs eq_refl)). cbn [map_err rbind].
  rewrite (proj2 (record_encode_ok r _) (conj Hrs eq_refl)). cbn [map_err rbind fst snd].
  rewrite (cbind_wrote _ _ _ _ _ _ (persist_record _ _ _ _ (proj1 Hs) Hc) eq_refl). rewrite cbind_returns, Hw. cbn [map_err].
  done.
Qed.

(** ** What the commands start from *)

Lemma controller_defined e h c c' dec :
  evaluate_rollout_controller (Some e) (Some h) c = Ok dec →
  ∃ dec', evaluate_rollout_controller (Some e) (Some h) c' = Ok dec'.
Proof.
  unfold evaluate_rollout_controller. destruct (negb _ || _ || _ || _); [by eauto|]. intros H.
  apply rbind_ok in H as (x & -> & _). cbn [rbind]. repeat case_match; by eexists.
Qed.

Lemma current_state_of_target r t :
  r.(migration_state) = migration_state_of t → ∃ c, rollout_current_state_from_head (Some r) = Ok c.
Proof. intros Hs. cbn [rollout_current_state_from_head]. rewrite Hs. destruct t; by eexists. Qed.

Definition approval_inputs i stores (root_text : str) (file : input_file) (confirmation : str)
  : result OperatorError (ReleaseTrustRoot * SignedDeviceRolloutApproval * RequiredRolloutPolicyHealth) :=
  let? trust_root := parse_release_trust_root root_text in
  let? bs := read_bounded_operator_artifact file MAX_DEVICE_ROLLOUT_APPROVAL_BYTES in
  let? approval := map_err OperatorApproval (approval_decode_and_verify bs (device_id i)) in
  let? id := map_err OperatorApproval (approval_id approval) in
  let? expected := decode_hex_32 confirmation in
  fail_if (bool_decide (id ≠ expected)) ConfirmationMismatch ;?
  let? ph := load_required_rollout_policy_health stores trust_root in
  Ok (trust_root, approval, ph).

Lemma approval_inputs_inv i stores root_text file confirmation root a ph :
  approval_inputs i stores root_text file confirmation = Ok (root, a, ph) →
  a.(approval_content).(ap_local_device_id) = device_id i ∧ approval_signed a ∧
  load_required_rollout_policy_health stores root = Ok ph.
Proof.
  unfold approval_inputs. intros H. apply rbind_ok in H as (root' & _ & H). apply rbind_ok in H as (bs & _ & H).
  apply rbind_ok in H as (a' & [Hd He]%map_err_ok%approval_decode_exact & H). apply rbind_ok in H as (id & _ & H).
  apply rbind_ok in H as (x & _ & H). apply rbind_unit_ok in H as [_ H]. apply rbind_ok in H as (ph' & Hph & H).
  apply Ok_inj in H. injection H as -> -> ->. split; [done|]. split; [|done]. by apply approval_encode_ok in He as [Hs _].
Qed.

(** The context of a settled directory. *)
Lemma context_settled i dir l stores root ph current decision :
  settled (device_id i) dir l → load_required_rollout_policy_health stores root = Ok ph →
  rollout_current_state_from_head (head l) = Ok current →
  evaluate_rollout_controller (Some ph.(ph_evaluation)) (Some ph.(ph_health)) current = Ok decision →
  load_required_rollout_operator_context stores root (device_id i) dir =
  Ok {| ctx_bundle := ph.(ph_bundle); ctx_health := ph.(ph_health); ctx_decision := decision;
        ctx_activation_head := head l |}.
Proof.
  intros Hs Hph Hc Hd. unfold load_required_rollout_operator_context. rewrite Hph. cbn [rbind].
  rewrite (authority_read _ _ _ Hs). cbn [rbind]. rewrite Hc. cbn [rbind]. by rewrite Hd.
Qed.

(** ** Approvals *)

(** The approval may be carried out on a chain: what the controller says of its
    newest record, and the record it makes. *)
Definition approval_ready i a ph l r : Prop :=
  ∃ bid current decision, bundle_id ph.(ph_bundle) = Ok bid ∧
    rollout_current_state_from_head (head l) = Ok current ∧
    evaluate_rollout_controller (Some ph.(ph_evaluation)) (Some ph.(ph_health)) current = Ok decision ∧
    approval_apply a bid decision (head l) = Ok (Ready r) ∧
    a.(approval_content).(ap_local_device_id) = device_id i ∧ achain (device_id i) l.

Lemma approval_ready_inv i a ph l r :
  approval_ready i a ph l r →
  ∃ bid decision, bundle_id ph.(ph_bundle) = Ok bid ∧ applies a bid decision l r ∧
    approval_candidate a = Ok r ∧ achain (device_id i) (r :: l) ∧
    ∃ c d, rollout_current_state_from_head (Some r) = Ok c ∧
      evaluate_rollout_controller (Some ph.(ph_evaluation)) (Some ph.(ph_health)) c = Ok d ∧
      approval_apply a bid d (Some r) = Ok (AlreadyApplied r).
Proof.
  intros (bid & current & decision & Hb & Hc & Hd & Ha & Hdev & Hl). rewrite <-Hdev in Hl.
  apply (apply_ready _ _ _ _ _ Hl) in Ha as [Ha _]. exists bid, decision. split; [done|]. split; [done|].
  destruct Ha as (Hs & Hbid & Hr & Hx & _ & _ & _ & Hch). split; [|split; [by rewrite <-Hdev|]].
  - unfold approval_candidate. by rewrite Hr.
  - pose proof Hx as (t & dp & _ & _ & Hst & _). destruct (current_state_of_target r t Hst) as [c Hcr].
    destruct (controller_defined _ _ _ c _ Hd) as [d Hd']. exists c, d. split; [done|]. split; [done|].
    by apply apply_again.
Qed.

Lemma repair_settled i ph a dir l bid r :
  settled (device_id i) dir l → bundle_id ph.(ph_bundle) = Ok bid →
  a.(approval_content).(ap_trusted_policy_bundle_id) = bid → approval_candidate a = Ok r →
  repair_interrupted_rollout_approval i ph a dir = {| answer := Ok false; writes := [] |}.
Proof.
  intros Hs Hb Ha Hr. unfold repair_interrupted_rollout_approval. rewrite cbind_reads, Hb. cbn [map_err rbind].
  rewrite bool_decide_eq_false_2 by (intros Hx; by apply Hx). cbn [fail_if rbind]. rewrite Hr. cbn [map_err rbind].
  by rewrite (inspect_settled _ _ _ r Hs).
Qed.

Lemma repair_marks i ph a dir l r w :
  interrupted (device_id i) dir r l → approval_ready i a ph l r → hw_issue i r = Ok w →
  repair_interrupted_rollout_approval i ph a dir = {| answer := Ok true; writes := [with_mark dir w] |}.
Proof.
  intros Hi Hready Hw. destruct (approval_ready_inv _ _ _ _ _ Hready) as (bid & _ & Hb & (_ & Hbid & _) & Hr & Hc & _).
  destruct Hready as (bid' & current & decision & Hb' & Hcur & Hd & Ha & _). rewrite Hb in Hb'. apply Ok_inj in Hb'. subst bid'.
  unfold repair_interrupted_rollout_approval. rewrite cbind_reads, Hb. cbn [map_err rbind].
  rewrite bool_decide_eq_false_2 by (intros Hx; by apply Hx). cbn [fail_if rbind]. rewrite Hr. cbn [map_err rbind].
  rewrite (inspect_interrupted _ _ _ _ Hi). cbn [rbind]. rewrite Hcur. cbn [rbind]. rewrite Hd. cbn [map_err rbind].
  rewrite Ha. cbn [map_err rbind ready_candidate]. destruct (achain_signed _ _ _ Hc) as [Hs _].
  rewrite (proj2 (record_encode_ok r _) (conj Hs eq_refl)). cbn [map_err rbind].
  rewrite bool_decide_eq_false_2 by (intros Hx; by apply Hx). cbn [fail_if rbind]. rewrite Hw. done.
Qed.

(** The three stages of an approval. *)
Lemma apply_on_ready i stores root_text file confirmation root a ph dir l r :
  approval_inputs i stores root_text file confirmation = Ok (root, a, ph) →
  settled (device_id i) dir l → approval_ready i a ph l r →
  ∃ w, hw_issue i r = Ok w ∧ marks w r ∧
    apply_rollout_approval i stores root_text file confirmation dir =
    {| answer := Ok (r, Stored Inserted, false); writes := [with_record dir r; with_mark (with_record dir r) w] |}.
Proof.
  intros Hin Hs Hready. destruct (approval_inputs_inv _ _ _ _ _ _ _ _ Hin) as (Hdev & Hsig & Hph).
  destruct (approval_ready_inv _ _ _ _ _ Hready) as (bid & _ & Hb & (_ & Hbid & _) & Hr & Hc & _).
  destruct Hready as (bid' & current & decision & Hb' & Hcur & Hd & Ha & _). rewrite Hb in Hb'. apply Ok_inj in Hb'. subst bid'.
  destruct (persist_candidate _ _ _ _ Hs Hc) as (w & Hw & Hm & Hpc). exists w. split; [done|]. split; [done|].
  unfold apply_rollout_approval. rewrite cbind_returns. fold (approval_inputs i stores root_text file confirmation). rewrite Hin.
  rewrite (cbind_quiet _ _ _ _ (repair_settled _ _ _ _ _ _ _ Hs Hb Hbid Hr)).
  rewrite cbind_reads. rewrite (context_settled _ _ _ _ _ _ _ _ Hs Hph Hcur Hd). cbn [rbind ctx_bundle ctx_decision ctx_activation_head].
  rewrite Hb. cbn [map_err rbind]. rewrite Ha. cbn [map_err rbind fst snd persist_outcome].
  unfold cbind. rewrite Hpc. done.
Qed.

Lemma apply_on_interrupted i stores root_text file confirmation root a ph dir l r w :
  approval_inputs i stores root_text file confirmation = Ok (root, a, ph) →
  interrupted (device_id i) dir r l → approval_ready i a ph l r → hw_issue i r = Ok w → marks w r →
  apply_rollout_approval i stores root_text file confirmation dir =
  {| answer := Ok (r, AlreadyAuthoritative, true); writes := [with_mark dir w] |}.
Proof.
  intros Hin Hi Hready Hw Hm. destruct (approval_inputs_inv _ _ _ _ _ _ _ _ Hin) as (Hdev & Hsig & Hph).
  destruct (approval_ready_inv _ _ _ _ _ Hready) as (bid & _ & Hb & _ & Hr & Hc & c & d & Hcur & Hd & Ha).
  pose proof (mark_written _ _ _ _ _ Hi Hm) as Hs.
  unfold apply_rollout_approval. rewrite cbind_returns. fold (approval_inputs i stores root_text file confirmation). rewrite Hin.
  rewrite (cbind_wrote _ _ _ _ _ _ (repair_marks _ _ _ _ _ _ _ Hi Hready Hw) eq_refl).
  rewrite cbind_reads. rewrite (context_settled i _ (r :: l) _ _ _ _ _ Hs Hph Hcur Hd). cbn [rbind ctx_bundle ctx_decision ctx_activation_head].
  rewrite Hb. cbn [map_err rbind head]. rewrite Ha. done.
Qed.

Lemma apply_on_applied i stores root_text file confirmation root a ph dir l r :
  approval_inputs i stores root_text file confirmation = Ok (root, a, ph) →
  settled (device_id i) dir (r :: l) → approval_ready i a ph l r →
  apply_rollout_approval i stores root_text file confirmation dir =
  {| answer := Ok (r, AlreadyAuthoritative, false); writes := [] |}.
Proof.
  intros Hin Hs Hready. destruct (approval_inputs_inv _ _ _ _ _ _ _ _ Hin) as (Hdev & Hsig & Hph).
  destruct (approval_ready_inv _ _ _ _ _ Hready) as (bid & _ & Hb & (_ & Hbid & _) & Hr & Hc & c & d & Hcur & Hd & Ha).
  unfold apply_rollout_approval. rewrite cbind_returns. fold (approval_inputs i stores root_text file confirmation). rewrite Hin.
  rewrite (cbind_quiet _ _ _ _ (repair_settled _ _ _ _ _ _ _ Hs Hb Hbid Hr)).
  rewrite cbind_reads. rewrite (context_settled i _ (r :: l) _ _ _ _ _ Hs Hph Hcur Hd). cbn [rbind ctx_bundle ctx_decision ctx_activation_head].
  rewrite Hb. cbn [map_err rbind head]. rewrite Ha. done.
Qed.

(** ** Which runs write *)

Lemma repair_keeps i ph a dir l b :
  settled (device_id i) dir l → (repair_interrupted_rollout_approval i ph a dir).(answer) = Ok b →
  repair_interrupted_rollout_approval i ph a dir = {| answer := Ok false; writes := [] |} ∧
  ∃ bid, bundle_id ph.(ph_bundle) = Ok bid.
Proof.
  intros Hs. unfold repair_interrupted_rollout_approval. rewrite cbind_reads. destruct (bundle_id (ph_bundle ph)) as [bid|e]; [|done].
  cbn [map_err rbind]. destruct (bool_decide _); [done|]. cbn [fail_if rbind].
  destruct (map_err OperatorApproval (approval_candidate a)) as [r|e]; [|done]. cbn [rbind].
  rewrite (inspect_settled _ _ _ r Hs). by eauto.
Qed.

(** A run on a settled directory writes nothing, or carries the approval out. *)
Lemma apply_on_settled i stores root_text file confirmation dir l :
  settled (device_id i) dir l →
  let run := apply_rollout_approval i stores root_text file confirmation dir in
  (run.(writes) = [] ∧ ∀ r s b, run.(answer) = Ok (r, s, b) → s = AlreadyAuthoritative ∧ b = false ∧ head l = Some r) ∨
  (∃ root a ph r, approval_inputs i stores root_text file confirmation = Ok (root, a, ph) ∧ approval_ready i a ph l r).
Proof.
  intros Hs. pose proof (proj1 (proj1 Hs)) as Hl. unfold apply_rollout_approval. rewrite cbind_returns.
  fold (approval_inputs i stores root_text file confirmation).
  destruct (approval_inputs i stores root_text file confirmation) as [[[root a] ph]|e] eqn:Hin; [|by left].
  destruct (approval_inputs_inv _ _ _ _ _ _ _ _ Hin) as (Hdev & Hsig & Hph).
  assert ((repair_interrupted_rollout_approval i ph a dir).(writes) = []) as Hw.
  { unfold repair_interrupted_rollout_approval. rewrite cbind_reads. destruct (let? bid := _ in _) as [[w|]|e] eqn:Er; [|done..].
    exfalso. apply rbind_ok in Er as (bid & _ & Er). apply rbind_unit_ok in Er as [_ Er]. apply rbind_ok in Er as (c & _ & Er).
    by rewrite (inspect_settled _ _ _ c Hs) in Er. }
  destruct (answer (repair_interrupted_rollout_approval i ph a dir)) as [b|e] eqn:Eb.
  2:{ left. rewrite (cbind_failed _ _ _ _ Eb). cbn [writes answer]. by rewrite Hw. }
  destruct (repair_keeps _ _ _ _ _ _ Hs Eb) as [Hr [bid Hb]]. rewrite (cbind_quiet _ _ _ _ Hr).
  rewrite cbind_reads. destruct (let? context := _ in _) as [[cur o]|e] eqn:Ec; [|by left].
  apply rbind_ok in Ec as (ctx & Hctx & Ec). unfold load_required_rollout_operator_context in Hctx. rewrite Hph in Hctx.
  cbn [rbind] in Hctx. rewrite (authority_read _ _ _ Hs) in Hctx. cbn [rbind] in Hctx.
  apply rbind_ok in Hctx as (c & Hc & Hctx). apply rbind_ok in Hctx as (dec & Hd%map_err_ok & <-%Ok_inj).
  cbn [ctx_bundle ctx_decision ctx_activation_head] in Ec. rewrite Hb in Ec. cbn [map_err rbind] in Ec.
  apply rbind_ok in Ec as (o' & Ha%map_err_ok & [= <- <-]%Ok_inj). cbn [fst snd]. destruct o' as [r|r]; cbn [persist_outcome].
  - right. exists root, a, ph, r. split; [done|]. exists bid, c, dec. by split_and!.
  - left. rewrite cbind_returns. split; [done|]. intros r' s' b' [= <- <- <-]. split; [done|]. split; [done|].
    unfold approval_apply in Ha. apply rbind_unit_ok in Ha as [_ Ha]. apply rbind_unit_ok in Ha as [_ Ha].
    apply rbind_ok in Ha as (x & (_ & Hx & Hxb)%map_err_ok%record_decode_exact & Ha). apply rbind_ok in Ha as (df & _ & Ha).
    apply rbind_unit_ok in Ha as [_ Ha]. apply rbind_ok in Ha as ([] & Hal & Ha); [apply Ok_inj in Ha; injection Ha as <-|].
    + destruct l as [|p l]; [done|]. cbn [head already_current] in Hal. destruct (achain_signed _ _ _ Hl) as [Hp _].
      apply rbind_ok in Hal as (id & _ & Hal). apply rbind_ok in Hal as (id' & _ & Hal). destruct (bool_decide _); [|done].
      apply rbind_ok in Hal as (bs & [_ ->]%map_err_ok%record_encode_ok & Hal).
      apply rbind_unit_ok in Hal as [Hbs%fail_if_ok%bool_decide_eq_false%dec_stable _]. cbn [head]. f_equal.
      apply record_bytes_inj; [done..|]. by rewrite <-Hxb.
    + apply rbind_ok in Ha as (? & _ & Ha). apply rbind_ok in Ha as (? & _ & Ha). do 3 (apply rbind_unit_ok in Ha as [_ Ha]).
      apply rbind_ok in Ha as (? & _ & Ha). by do 2 (apply rbind_unit_ok in Ha as [_ Ha]).
Qed.

(** ** The controller's proposals are steps of the device's machine *)

Lemma proposal_inv e h c dec (p : RolloutProposal) :
  evaluate_rollout_controller (Some e) (Some h) c = Ok dec → proposal_from_decision dec = Ok p →
  p.(pr_policy_id) = e.(ce_policy_id) ∧ p.(pr_policy_epoch) = e.(ce_policy_epoch) ∧
  ((p.(pr_disposition) = NormalActivation ∧ p.(pr_target) = target_next c.(cs_target) ∧
    c.(cs_disposition) = NormalActivation ∧ (target_ordinal c.(cs_target) < 3)%N) ∨
   (p.(pr_disposition) = Rollout.EmergencyContainment ∧ p.(pr_target) = c.(cs_target) ∧
    c.(cs_disposition) = NormalActivation ∧ c.(cs_target) ≠ Rollout.LegacyOnly ∧
    c.(has_authenticated_canonical_evidence) = true)).
Proof.
  unfold evaluate_rollout_controller. destruct (negb _ || _ || _ || _); [by intros <-%Ok_inj|].
  fold (decide_matching e h c). intros Hd Hp. destruct dec as [|id ep t dp ap cs]; [done|].
  apply decide_proposes in Hd as (-> & -> & -> & -> & Hd). cbn [proposal_from_decision] in Hp. apply Ok_inj in Hp. subst p.
  cbn [pr_policy_id pr_policy_epoch pr_disposition pr_target]. split; [done|]. split; [done|].
  destruct Hd as [(-> & -> & _ & _ & Hn & _ & _ & Ho)|(-> & -> & _ & Hn & Hl & He)]; [left|right]; [|done].
  split_and!; try done. by destruct (ce_phase e), (cs_target c); cbn in Ho |- *; lia.
Qed.

(** The controller's view of the newest record. *)
Lemma current_state_view l c :
  rollout_current_state_from_head (head l) = Ok c →
  (head_view (head l)).(vw_state) = migration_state_of c.(cs_target) ∧
  (head_view (head l)).(vw_disposition) = activation_disposition c.(cs_disposition) ∧
  (c.(has_authenticated_canonical_evidence) = true ↔ (head_view (head l)).(vw_evidence) ≠ None).
Proof.
  destruct l as [|r l]; cbn [head rollout_current_state_from_head].
  { intros <-%Ok_inj. by split_and!. }
  intros H. apply rbind_ok in H as (t & Ht & <-%Ok_inj). cbn [cs_target cs_disposition has_authenticated_canonical_evidence].
  split_and!; cbn [head_view view_of vw_state vw_disposition vw_evidence].
  - destruct (migration_state r); by first [apply Ok_inj in Ht as <- | discriminate Ht].
  - by destruct (disposition r).
  - apply is_some_iff.
Qed.

(** Every proposal is a step of the device's state machine, and the only one
    with the proposed state and disposition. *)
Lemma proposal_steps l d c e h dec (p : RolloutProposal) :
  achain d l → rollout_current_state_from_head (head l) = Ok c →
  evaluate_rollout_controller (Some e) (Some h) c = Ok dec → proposal_from_decision dec = Ok p →
  let v := head_view (head l) in
  astep v (proposed_view p v) ∧ p.(pr_target) ≠ Rollout.LegacyOnly ∧
  ∀ v', astep v v' → v'.(vw_state) = migration_state_of p.(pr_target) →
    v'.(vw_disposition) = activation_disposition p.(pr_disposition) → v' = proposed_view p v.
Proof.
  intros Hl Hc Hd Hp. destruct (proposal_inv _ _ _ _ _ Hd Hp) as (_ & _ & Hcase). destruct (current_state_view _ _ Hc) as (Hs & Hdp & He).
  pose proof (achain_permitted _ _ Hl) as [Hp1 _]. cbv zeta. destruct (head_view (head l)) as [s dp ev]. unfold proposed_view.
  cbn [vw_state vw_disposition vw_evidence] in *. subst s dp.
  destruct Hcase as [(-> & -> & -> & Ho)|(-> & -> & -> & Ht & Hev)]; cbn [activation_disposition].
  - assert (next_state (migration_state_of c.(cs_target)) = Some (migration_state_of (target_next c.(cs_target)))) as Hn
      by (destruct (cs_target c); cbn in Ho |- *; [done..|lia]).
    split_and!; [by apply step_advance|by destruct (cs_target c)|].
    intros v' Ha. inversion Ha as [? ? ? Hn'|? ? Hn'|? ? Hn'|? ? ? Hn' Ho'|]; subst; cbn [vw_state vw_disposition]; intros H1 H2; try done.
    + by rewrite H1.
    + by rewrite H1.
    + exfalso. rewrite H1 in Hn. by destruct (cs_target c).
  - apply He in Hev as Hev'. destruct ev as [x|]; [|done].
    assert (canonical_state (migration_state_of c.(cs_target)) = true) as Hcan by (by apply Hp1).
    split_and!; [apply step_contain; [done|by right]|done|].
    intros v' Ha. inversion Ha as [| | |? ? ? Hn' [|]|]; subst; cbn [vw_state vw_disposition]; intros H1 H2; congruence.
Qed.

(** ** Planning *)

Lemma proposal_exists e h c dec :
  evaluate_rollout_controller (Some e) (Some h) c = Ok dec → is_proposal dec = true →
  ∃ p : RolloutProposal, proposal_from_decision dec = Ok p.
Proof.
  unfold evaluate_rollout_controller. destruct (negb _ || _ || _ || _); [by intros <-%Ok_inj|].
  fold (decide_matching e h c). intros Hd Hp. destruct dec as [|id ep t dp ap cs]; [done|].
  apply decide_proposes in Hd as (-> & -> & -> & -> & _). by eexists.
Qed.

Lemma prepared_signature i bid decision current authorization random a :
  approval_prepare i bid decision current authorization random = Ok a → len a.(approval_signature) = 64%N.
Proof.
  unfold approval_prepare, issue_with_nonce. intros [_ H]%rbind_unit_ok. apply rbind_ok in H as (? & _ & H).
  apply rbind_unit_ok in H as [_ H]. apply rbind_unit_ok in H as [_ H]. apply rbind_ok in H as (? & _ & H).
  apply rbind_ok in H as (? & _ & H). apply rbind_ok in H as (? & _ & H). apply rbind_ok in H as (? & _ & H).
  apply rbind_unit_ok in H as [_ H]. apply rbind_ok in H as (? & _ & H). apply rbind_unit_ok in H as [_ <-%Ok_inj].
  cbn [approval_signature]. by rewrite len_arr.
Qed.

(** A prepared approval carries the record the device issues for the proposal. *)
Lemma prepared_record i bid decision current authorization random a r :
  approval_prepare i bid decision current authorization random = Ok a → approval_candidate a = Ok r →
  ∃ p : RolloutProposal, proposal_from_decision decision = Ok p ∧
    record_issue i current (migration_state_of p.(pr_target)) (activation_disposition p.(pr_disposition)) ReleasePolicy
      match current with Some r => r.(canonical_evidence_id) | None => None end
      (approval_reason p.(pr_policy_id) bid) = Ok r.
Proof.
  unfold approval_prepare, issue_with_nonce. intros [_ H]%rbind_unit_ok Hc. apply rbind_ok in H as (p & Hp & H).
  apply rbind_unit_ok in H as [_ H]. apply rbind_unit_ok in H as [_ H]. apply rbind_ok in H as (x & Hx%map_err_ok & H).
  apply rbind_ok in H as (? & _ & H). apply rbind_ok in H as (? & _ & H). apply rbind_ok in H as (bs & [Hs ->]%map_err_ok%record_encode_ok & H).
  apply rbind_unit_ok in H as [_ H]. apply rbind_ok in H as (? & _ & H). apply rbind_unit_ok in H as [_ <-%Ok_inj].
  unfold approval_candidate in Hc. cbn [approval_content ap_candidate_activation_record ap_local_device_id] in Hc.
  apply map_err_ok, record_decode_exact in Hc as (_ & Hr & Hb). exists p. split; [done|].
  by rewrite <-(record_bytes_inj x r Hs Hr Hb).
Qed.

Lemma not_current_yet a d l r :
  achain d (r :: l) → (∀ p, head l = Some p → record_hash p ≠ record_hash r) →
  already_current a.(approval_content) r (head l) = Ok false.
Proof.
  intros Hc Hne. destruct l as [|p l]; [done|]. cbn [head already_current]. inversion Hc as [|? ? Hl Hd Hs Hk]; subst.
  destruct (achain_signed _ _ _ Hl) as [Hps _].
  rewrite (proj2 (record_id_ok p _) (conj Hps eq_refl)), (proj2 (record_id_ok r _) (conj Hs eq_refl)). cbn [map_err rbind].
  by rewrite bool_decide_eq_false_2 by (by apply Hne).
Qed.

(** The inputs of a planned approval, with the identifier the plan reported. *)
Lemma planned_inputs i stores root_text file confirmation root a bs id ph :
  parse_release_trust_root root_text = Ok root → load_required_rollout_policy_health stores root = Ok ph →
  a.(approval_content).(ap_local_device_id) = device_id i → approval_encode a = Ok bs → approval_id a = Ok id →
  read_bounded_operator_artifact file MAX_DEVICE_ROLLOUT_APPROVAL_BYTES = Ok bs → as_bytes confirmation = encode_hex id →
  approval_inputs i stores root_text file confirmation = Ok (root, a, ph).
Proof.
  intros Hroot Hph Hdev He Hid Hf Hc. unfold approval_inputs. rewrite Hroot, Hf. cbn [rbind].
  rewrite (proj2 (approval_decode_exact bs (device_id i) a) (conj Hdev He)). cbn [map_err rbind]. rewrite Hid. cbn [map_err rbind].
  rewrite (decode_hex_id id confirmation Hc). cbn [rbind]. rewrite bool_decide_eq_false_2 by (intros Hx; by apply Hx).
  cbn [fail_if rbind]. by rewrite Hph.
Qed.

(** Following a proposal of the controller. *)
Lemma follow_proposal i stores root_text root dir h ph current decision bid nonce :
  load_authoritative_activation_head dir (device_id i) = Ok h → parse_release_trust_root root_text = Ok root →
  load_required_rollout_policy_health stores root = Ok ph → rollout_current_state_from_head h = Ok current →
  evaluate_rollout_controller (Some ph.(ph_evaluation)) (Some ph.(ph_health)) current = Ok decision →
  is_proposal decision = true → bundle_id ph.(ph_bundle) = Ok bid →
  (uint_val (current_epoch h) + 1 < U64_BOUND)%N → uint_val ph.(ph_evaluation).(ce_policy_epoch) ≠ 0%N →
  Forall (fun id => id ≠ zero32) [bid; ph.(ph_evaluation).(ce_policy_id); device_id i; nonce] →
  ∃ bs a id r, plan_rollout_approval i stores root_text None true (Some nonce) dir = Ok bs ∧
    approval_decode_and_verify bs (device_id i) = Ok a ∧ approval_id a = Ok id ∧ approval_candidate a = Ok r ∧
    (∃ p : RolloutProposal, proposal_from_decision decision = Ok p ∧
       record_issue i h (migration_state_of p.(pr_target)) (activation_disposition p.(pr_disposition)) ReleasePolicy
         match h with Some r => r.(canonical_evidence_id) | None => None end
         (approval_reason p.(pr_policy_id) bid) = Ok r) ∧
    ∀ file confirmation, read_bounded_operator_artifact file MAX_DEVICE_ROLLOUT_APPROVAL_BYTES = Ok bs →
      as_bytes confirmation = encode_hex id → (∀ p, h = Some p → record_hash p ≠ record_hash r) →
      (apply_rollout_approval i stores root_text file confirmation dir).(answer) = Ok (r, Stored Inserted, false).
Proof.
  intros (l & Hs & ->)%settled_exact Hroot Hph Hcur Hd Hprop Hb Hlen Hep Hz.
  rewrite !Forall_cons in Hz. destruct Hz as (Z1 & Z2 & Z3 & Z4 & _). pose proof (proj1 (proj1 Hs)) as Hl.
  rewrite (current_epoch_len _ _ Hl) in Hlen. destruct (proposal_exists _ _ _ _ Hd Hprop) as [p Hp].
  destruct (proposal_inv _ _ _ _ _ Hd Hp) as (Hpi & Hpe & _). destruct (proposal_steps l _ _ _ _ _ _ Hl Hcur Hd Hp) as (Ha & Ht & _).
  destruct (prepare_applies i bid decision l p nonce) as (a & r & Hprep & Hdev & Happ); try done; [by rewrite Hpi|by rewrite Hpe|].
  pose proof Happ as (Hsig & Hbid & Hr & _ & _ & _ & _ & Hc).
  destruct (approval_encodes a Hsig) as [bs He]; [rewrite (prepared_signature _ _ _ _ _ _ _ Hprep); lia|].
  assert (approval_id a = Ok (sha256 (APPROVAL_ID_DOMAIN ++ bs))) as Hid by (unfold approval_id; by rewrite He).
  assert (approval_candidate a = Ok r) as Hcand by (unfold approval_candidate; by rewrite Hr).
  exists bs, a, (sha256 (APPROVAL_ID_DOMAIN ++ bs)), r. split_and!; [|by apply approval_decode_exact|done|done|by eapply prepared_record|].
  - unfold plan_rollout_approval. cbn [negb fail_if rbind]. rewrite Hroot. cbn [rbind].
    rewrite (context_settled _ _ _ _ _ _ _ _ Hs Hph Hcur Hd). cbn [rbind ctx_bundle ctx_decision ctx_activation_head].
    rewrite Hprop. cbn [negb fail_if rbind]. rewrite Hb. cbn [map_err rbind]. rewrite Hprep. cbn [map_err rbind].
    rewrite Hid, Hcand, He. done.
  - intros file confirmation Hf Hconf Hne.
    pose proof (planned_inputs i stores root_text file confirmation root a bs _ ph Hroot Hph Hdev He Hid Hf Hconf) as Hin.
    destruct (apply_on_ready i stores root_text file confirmation root a ph dir l r Hin Hs) as (w & _ & _ & ->); [|done].
    exists bid, current, decision. rewrite Hdev. split_and!; try done. rewrite <-Hdev in Hl.
    apply (apply_ready _ _ _ _ _ Hl). split; [done|]. by eapply not_current_yet.
Qed.
(** * The properties *)

(** C10: Carrying out an approval is restartable and idempotent: on a directory
    the device's authority accepts, the command either writes nothing, or it
    writes the record of the approval and then its mark.  Stopped between the
    two writes, the directory is refused by the runtime, and the same command
    again writes exactly the missing mark; run once more it writes nothing, and
    the new record is the authoritative head. *)
Theorem approval_apply_restartable i stores root_text file confirmation dir h :
  let apply := apply_rollout_approval i stores root_text file confirmation in
  load_authoritative_activation_head dir (device_id i) = Ok h →
  ((apply dir).(writes) = [] ∧
   ∀ r s b, (apply dir).(answer) = Ok (r, s, b) → s = AlreadyAuthoritative ∧ b = false ∧ h = Some r) ∨
  (∃ r mid fin,
    apply dir = {| answer := Ok (r, Stored Inserted, false); writes := [mid; fin] |} ∧
    (∃ e, load_runtime_policy mid (device_id i) = Err (OperatorActivation e)) ∧
    apply mid = {| answer := Ok (r, AlreadyAuthoritative, true); writes := [fin] |} ∧
    apply fin = {| answer := Ok (r, AlreadyAuthoritative, false); writes := [] |} ∧
    load_authoritative_activation_head fin (device_id i) = Ok (Some r)).
Proof.
  intros apply (l & Hs & ->)%settled_exact.
  destruct (apply_on_settled i stores root_text file confirmation dir l Hs) as [Hq|(root & a & ph & r & Hin & Hready)]; [by left|right].
  destruct (approval_ready_inv _ _ _ _ _ Hready) as (_ & _ & _ & _ & _ & Hc & _).
  destruct (apply_on_ready _ _ _ _ _ _ _ _ _ _ _ Hin Hs Hready) as (w & Hw & Hm & Hrun).
  pose proof (record_written _ _ _ _ Hs Hc) as Hi. pose proof (mark_written _ _ _ _ _ Hi Hm) as Hf.
  exists r, (with_record dir r), (with_mark (with_record dir r) w). split_and!; [done| | | |].
  - destruct (interrupted_refused _ _ _ _ Hi) as (e & _ & He & _). by exists e.
  - by eapply apply_on_interrupted.
  - by eapply apply_on_applied.
  - by apply (authority_read _ _ (r :: l)).
Qed.

(** C12: A device follows the controller and nothing else: when carrying out an
    approval writes a record, the artifact carries the device's signature and
    the identifier the operator confirmed, the policy trusted under the given
    root and its health make the controller propose an activation for the
    device's present state, and the record is exactly the proposed state and
    disposition with the evidence the device already had. *)
Theorem approval_follows_controller i stores root_text file confirmation dir h :
  let run := apply_rollout_approval i stores root_text file confirmation dir in
  load_authoritative_activation_head dir (device_id i) = Ok h → run.(writes) ≠ [] →
  ∃ r root bs a id ph current target disposition,
    run.(answer) = Ok (r, Stored Inserted, false) ∧
    parse_release_trust_root root_text = Ok root ∧
    read_bounded_operator_artifact file MAX_DEVICE_ROLLOUT_APPROVAL_BYTES = Ok bs ∧
    approval_decode_and_verify bs (device_id i) = Ok a ∧ approval_verify_signature a = Ok tt ∧
    approval_id a = Ok id ∧ decode_hex_32 confirmation = Ok id ∧
    load_required_rollout_policy_health stores root = Ok ph ∧
    rollout_current_state_from_head h = Ok current ∧
    evaluate_rollout_controller (Some ph.(ph_evaluation)) (Some ph.(ph_health)) current =
      Ok (ProposeDeviceActivation ph.(ph_evaluation).(ce_policy_id) ph.(ph_evaluation).(ce_policy_epoch)
            target disposition true false) ∧
    view_of r = {| vw_state := migration_state_of target; vw_disposition := activation_disposition disposition;
                   vw_evidence := (head_view h).(vw_evidence) |}.
Proof.
  intros run (l & Hs & ->)%settled_exact Hwr.
  destruct (apply_on_settled i stores root_text file confirmation dir l Hs) as [[Hq _]|(root & a & ph & r & Hin & Hready)]; [done|].
  destruct (apply_on_ready _ _ _ _ _ _ _ _ _ _ _ Hin Hs Hready) as (w & _ & _ & Hrun). subst run. rewrite Hrun. cbn [answer].
  destruct (approval_inputs_inv _ _ _ _ _ _ _ _ Hin) as (Hdev & Hsig & Hph).
  destruct Hready as (bid & current & decision & Hb & Hcur & Hd & Ha & _ & Hl). rewrite <-Hdev in Hl.
  apply (apply_ready _ _ _ _ _ Hl) in Ha as [(_ & _ & _ & Hx & (p & Hp & Hsf) & _ & _ & Hc) _].
  destruct (proposal_inv _ _ _ _ _ Hd Hp) as (Hi1 & Hi2 & _). destruct (proposal_steps l _ _ _ _ _ _ Hl Hcur Hd Hp) as (_ & _ & Hu).
  unfold approval_inputs in Hin. apply rbind_ok in Hin as (root' & Hroot & Hin). apply rbind_ok in Hin as (bs & Hbs & Hin).
  apply rbind_ok in Hin as (a' & Hdec%map_err_ok & Hin). apply rbind_ok in Hin as (id & Hid%map_err_ok & Hin).
  apply rbind_ok in Hin as (id' & Hid' & Hin). apply rbind_unit_ok in Hin as [Heq%fail_if_ok%bool_decide_eq_false%dec_stable Hin].
  apply rbind_ok in Hin as (ph' & _ & Hin). apply Ok_inj in Hin. injection Hin as -> -> ->. subst id'.
  exists r, root, bs, a, id, ph, current, p.(pr_target), p.(pr_disposition).
  split_and!; [done|done|done|done|by apply approval_verify_ok|done|done|done|done| |].
  - destruct decision as [|pid ep t dp ap cs]; [done|]. cbn [proposal_from_decision] in Hp.
    destruct ap, cs; try discriminate Hp. apply Ok_inj in Hp. subst p. cbn [pr_policy_id pr_policy_epoch pr_target pr_disposition] in *.
    by subst.
  - destruct Hsf as (_ & _ & Ht & Hdp). destruct Hx as (t & dp & Ht' & Hdp' & H1 & H2 & _). rewrite Ht in Ht'. apply Ok_inj in Ht'.
    rewrite Hdp in Hdp'. apply Ok_inj in Hdp'. subst t dp. apply (Hu (view_of r)); [by inversion Hc|done|done].
Qed.

End commands.
