(* ===== verification/OperatorRecovery.v ===== *)
(** More commands of [RolloutOperator]: carrying out a recovery from
    containment, and a direct activation.  Both write the record and then its
    mark, and both are repaired by running them again. *)

From stdpp Require Import base tactics list numbers strings.
From Stdlib Require Import Strings.Byte.
From S2P Require Import Prelude Crypto Text Identity Postcard Redb Rollout RolloutFacts ReleaseTrust ReleaseTrustFacts.
From S2P Require Import TrustedPolicy TrustedPolicyFacts TrustedHealth TrustedHealthFacts Activation ActivationFacts.
From S2P Require Import ActivationChain RolloutApproval ContainmentRecovery RolloutApprovalFacts RolloutOperator.
From S2P Require Import RolloutOperatorFacts.

Section recovery.
Context {E : Ed25519} {EL : Ed25519Laws E} {D : Blake3Derive} {SH : Sha256} {K : Blake3Keyed}.
Context {RP : RolloutPostcard} {TP : TrustPostcard} {BP : BundlePostcard} {HP : HealthPostcard}.
Context {AP : ApprovalPostcard} {CP : RecoveryPostcard} {R : Redb}.
Context {RPL : RolloutPostcardLaws RP} {TPL : TrustPostcardLaws TP} {BPL : BundlePostcardLaws BP}.
Context {APL : ApprovalPostcardLaws AP} {CPL : RecoveryPostcardLaws CP}.
Implicit Types (i : DeviceIdentity) (r p : ActivationRecord) (l : list ActivationRecord) (dir : StateDirectory).
Implicit Types (w : HighWater) (stores : OperatorStores) (ph : RequiredRolloutPolicyHealth).
Implicit Types (a : SignedContainmentRecoveryApproval) (root : ReleaseTrustRoot).

(** * Recoveries *)

(** What was loaded from the stores is bound to the bundle. *)
Lemma policy_health_bound stores root ph :
  load_required_rollout_policy_health stores root = Ok ph →
  let policy := ph.(ph_bundle).(bundle_policy).(policy_content) in
  policy_id ph.(ph_bundle).(bundle_policy) = Ok ph.(ph_evaluation).(ce_policy_id) ∧
  ph.(ph_evaluation).(ce_artifact) = policy.(rp_artifact) ∧ ph.(ph_evaluation).(ce_phase) = policy.(rp_phase) ∧
  ph.(ph_evaluation).(ce_disposition) = policy.(rp_disposition) ∧ ph.(ph_evaluation).(ce_cohort) = policy.(rp_cohort).
Proof.
  unfold load_required_rollout_policy_health. intros H. apply rbind_ok in H as (t & _ & H). apply rbind_ok in H as (c & _ & H).
  apply rbind_ok in H as (b & _ & H). apply rbind_ok in H as (x & _ & H). apply rbind_ok in H as (y & _ & H).
  apply rbind_unit_ok in H as [Hb <-%Ok_inj]. cbn [ph_bundle ph_evaluation]. unfold verify_bundle_evaluation_binding in Hb.
  apply rbind_ok in Hb as (pid & Hpid%map_err_ok & Hb%fail_if_ok%negb_false_iff). rewrite !andb_true_iff, !bool_decide_eq_true, N.eqb_eq in Hb.
  destruct Hb as [[[[[H1 _] H2] H3] H4] H5]. rewrite H1. split_and!; try done. by apply uint_eq.
Qed.

(** A healthy policy over a contained head awaits recovery. *)
Lemma recovery_awaited stores root ph p c :
  load_required_rollout_policy_health stores root = Ok ph → healthy ph.(ph_bundle) ph.(ph_health) →
  p.(disposition) = EmergencyContainment → rollout_current_state_from_head (Some p) = Ok c →
  ∃ dec, evaluate_rollout_controller (Some ph.(ph_evaluation)) (Some ph.(ph_health)) c = Ok dec ∧ awaits_recovery dec = true.
Proof.
  intros Hph (Hn & _ & Hpid & Ha & Hp & Hco & Hc) Hd Hcur. destruct (policy_health_bound _ _ _ Hph) as (B1 & B2 & B3 & B4 & B5).
  assert (health_matches ph.(ph_evaluation) ph.(ph_health)) as Hm.
  { rewrite B1 in Hpid. apply Ok_inj in Hpid. unfold health_matches. by rewrite <-Hpid, Ha, Hp, Hco, B2, B3, B5. }
  assert (zero_tolerance_events ph.(ph_health).(hs_counters) = Ok (as_u64 0)) as Hz.
  { unfold counters_healthy in Hc. destruct (_ || _); [done|]. apply rbind_ok in Hc as (n & Hn'%map_err_ok & Hz%Ok_inj%N.eqb_eq).
    rewrite Hn'. f_equal. apply uint_eq. by rewrite Hz. }
  unfold evaluate_rollout_controller. rewrite (proj2 (health_matches_bool _ _) Hm), B4, Hn, bool_decide_eq_false_2, Hz by done.
  cbn [rbind]. change (uint_val (as_u64 0)) with 0%N. cbn [N.ltb N.compare].
  cbn [rollout_current_state_from_head] in Hcur. apply rbind_ok in Hcur as (t & _ & <-%Ok_inj). cbn [cs_disposition]. rewrite Hd.
  rewrite bool_decide_eq_true_2 by done. by eexists.
Qed.

Definition recovery_inputs i stores (root_text : str) (file : input_file) (confirmation : str)
  : result OperatorError (ReleaseTrustRoot * SignedContainmentRecoveryApproval * RequiredRolloutPolicyHealth) :=
  let? trust_root := parse_release_trust_root root_text in
  let? bs := read_bounded_operator_artifact file MAX_CONTAINMENT_RECOVERY_APPROVAL_BYTES in
  let? recovery := map_err OperatorRecovery (recovery_decode_and_verify bs (device_id i)) in
  let? id := map_err OperatorRecovery (recovery_id recovery) in
  let? expected := decode_hex_32 confirmation in
  fail_if (bool_decide (id ≠ expected)) ConfirmationMismatch ;?
  let? ph := load_required_rollout_policy_health stores trust_root in
  Ok (trust_root, recovery, ph).

Lemma recovery_inputs_inv i stores root_text file confirmation root a ph :
  recovery_inputs i stores root_text file confirmation = Ok (root, a, ph) →
  a.(recovery_content).(rc_local_device_id) = device_id i ∧ load_required_rollout_policy_health stores root = Ok ph ∧
  parse_release_trust_root root_text = Ok root.
Proof.
  unfold recovery_inputs. intros H. apply rbind_ok in H as (root' & Hroot & H). apply rbind_ok in H as (bs & _ & H).
  apply rbind_ok in H as (a' & [Hd _]%map_err_ok%recovery_decode_exact & H). apply rbind_ok in H as (id & _ & H).
  apply rbind_ok in H as (x & _ & H). apply rbind_unit_ok in H as [_ H]. apply rbind_ok in H as (ph' & Hph & H).
  apply Ok_inj in H. injection H as -> -> ->. done.
Qed.

(** The recovery may be carried out on the chain. *)
Definition recovery_is_ready i a root ph l r : Prop :=
  a.(recovery_content).(rc_local_device_id) = device_id i ∧ achain (device_id i) l ∧
  ∃ p c, head l = Some p ∧ rollout_current_state_from_head (Some p) = Ok c ∧
    recovery_apply a root ph.(ph_bundle) ph.(ph_health) p = Ok (Ready r).

Lemma recovery_is_ready_inv i a root ph l r stores :
  load_required_rollout_policy_health stores root = Ok ph → recovery_is_ready i a root ph l r →
  recovers a root ph.(ph_bundle) ph.(ph_health) l r ∧ recovery_candidate a = Ok r ∧ achain (device_id i) (r :: l) ∧
  (∃ p c dec, head l = Some p ∧ rollout_current_state_from_head (Some p) = Ok c ∧
     evaluate_rollout_controller (Some ph.(ph_evaluation)) (Some ph.(ph_health)) c = Ok dec ∧ awaits_recovery dec = true) ∧
  ∃ c dec, rollout_current_state_from_head (Some r) = Ok c ∧
    evaluate_rollout_controller (Some ph.(ph_evaluation)) (Some ph.(ph_health)) c = Ok dec ∧
    recovery_apply a root ph.(ph_bundle) ph.(ph_health) r = Ok (AlreadyApplied r).
Proof.
  intros Hph (Hdev & Hl & p & c & Hp & Hc & Ha). rewrite <-Hdev in Hl.
  apply (recovery_ready _ _ _ _ _ _ _ Hl Hp) in Ha as [Ha _]. pose proof Ha as (Hs & Ht & Hh & Hb & Hhb & Hr & p' & Hp' & Hcn & _ & _ & _ & Hv & _ & Hch).
  rewrite Hp in Hp'. injection Hp' as <-. destruct Hcn as (_ & _ & Hd & _).
  destruct (recovery_awaited _ _ _ _ _ Hph Hh Hd Hc) as (dec & Hdec & Haw). split_and!.
  - done.
  - unfold recovery_candidate. by rewrite Hr.
  - by rewrite <-Hdev.
  - by exists p, c, dec.
  - unfold view_of in Hv. injection Hv as Hv1 Hv2 Hv3.
    assert (∃ c', rollout_current_state_from_head (Some r) = Ok c') as [c' Hc'].
    { cbn [rollout_current_state_from_head] in Hc |- *. rewrite Hv1. destruct (migration_state p); by eexists. }
    destruct (controller_defined _ _ _ c' _ Hdec) as [dec' Hdec']. exists c', dec'. split; [done|]. split; [done|].
    by apply recovery_again.
Qed.

Lemma recovery_repair_settled i root ph a dir l r :
  settled (device_id i) dir l → bundle_id ph.(ph_bundle) = Ok a.(recovery_content).(rc_trusted_policy_bundle_id) →
  recovery_candidate a = Ok r →
  repair_interrupted_rollout_recovery i root ph a dir = {| answer := Ok false; writes := [] |}.
Proof.
  intros Hs Hb Hr. unfold repair_interrupted_rollout_recovery. rewrite cbind_reads, Hb. cbn [map_err rbind].
  rewrite bool_decide_eq_false_2 by (intros Hx; by apply Hx). cbn [fail_if rbind]. rewrite Hr. cbn [map_err rbind].
  by rewrite (inspect_settled _ _ _ r Hs).
Qed.

Lemma recovery_repair_marks i stores root ph a dir l r w :
  load_required_rollout_policy_health stores root = Ok ph →
  interrupted (device_id i) dir r l → recovery_is_ready i a root ph l r → hw_issue i r = Ok w →
  repair_interrupted_rollout_recovery i root ph a dir = {| answer := Ok true; writes := [with_mark dir w] |}.
Proof.
  intros Hph Hi Hready Hw. destruct (recovery_is_ready_inv _ _ _ _ _ _ _ Hph Hready) as ((_ & _ & _ & Hb & _) & Hr & Hc & (p & c & dec & Hp & Hcur & Hd & Haw) & _).
  destruct Hready as (_ & _ & p' & c' & Hp' & _ & Ha). rewrite Hp in Hp'. injection Hp' as <-.
  unfold repair_interrupted_rollout_recovery. rewrite cbind_reads, Hb. cbn [map_err rbind].
  rewrite bool_decide_eq_false_2 by (intros Hx; by apply Hx). cbn [fail_if rbind]. rewrite Hr. cbn [map_err rbind].
  rewrite (inspect_interrupted _ _ _ _ Hi). cbn [rbind]. rewrite Hp. cbn [ok_or rbind]. rewrite Hcur. cbn [rbind]. rewrite Hd.
  cbn [map_err rbind]. rewrite Haw. cbn [negb fail_if rbind]. rewrite Ha. cbn [map_err rbind ready_candidate].
  destruct (achain_signed _ _ _ Hc) as [Hs _].
  rewrite (proj2 (record_encode_ok r _) (conj Hs eq_refl)). cbn [map_err rbind].
  rewrite bool_decide_eq_false_2 by (intros Hx; by apply Hx). cbn [fail_if rbind]. rewrite Hw. done.
Qed.

Lemma recover_on_ready i stores root_text file confirmation root a ph dir l r :
  recovery_inputs i stores root_text file confirmation = Ok (root, a, ph) →
  settled (device_id i) dir l → recovery_is_ready i a root ph l r →
  ∃ w, hw_issue i r = Ok w ∧ marks w r ∧
    apply_rollout_recovery i stores root_text file confirmation dir =
    {| answer := Ok (r, Stored Inserted, false); writes := [with_record dir r; with_mark (with_record dir r) w] |}.
Proof.
  intros Hin Hs Hready. destruct (recovery_inputs_inv _ _ _ _ _ _ _ _ Hin) as (Hdev & Hph & _).
  destruct (recovery_is_ready_inv _ _ _ _ _ _ _ Hph Hready) as ((_ & _ & _ & Hb & _) & Hr & Hc & (p & c & dec & Hp & Hcur & Hd & Haw) & _).
  destruct Hready as (_ & _ & p' & c' & Hp' & _ & Ha). rewrite Hp in Hp'. injection Hp' as <-.
  destruct (persist_candidate _ _ _ _ Hs Hc) as (w & Hw & Hm & Hpc). exists w. split; [done|]. split; [done|].
  unfold apply_rollout_recovery. rewrite cbind_returns. fold (recovery_inputs i stores root_text file confirmation). rewrite Hin.
  rewrite (cbind_quiet _ _ _ _ (recovery_repair_settled _ _ _ _ _ _ _ Hs Hb Hr)).
  rewrite cbind_reads. rewrite <-Hp in Hcur. rewrite (context_settled _ _ _ _ _ _ _ _ Hs Hph Hcur Hd). cbn [rbind ctx_bundle ctx_decision ctx_activation_head ctx_health].
  rewrite Hp. cbn [ok_or rbind]. rewrite Ha. cbn [map_err rbind fst snd persist_outcome]. rewrite Hp in Hpc.
  unfold cbind. rewrite Hpc. done.
Qed.

Lemma recover_on_interrupted i stores root_text file confirmation root a ph dir l r w :
  recovery_inputs i stores root_text file confirmation = Ok (root, a, ph) →
  interrupted (device_id i) dir r l → recovery_is_ready i a root ph l r → hw_issue i r = Ok w → marks w r →
  apply_rollout_recovery i stores root_text file confirmation dir =
  {| answer := Ok (r, AlreadyAuthoritative, true); writes := [with_mark dir w] |}.
Proof.
  intros Hin Hi Hready Hw Hm. destruct (recovery_inputs_inv _ _ _ _ _ _ _ _ Hin) as (Hdev & Hph & _).
  destruct (recovery_is_ready_inv _ _ _ _ _ _ _ Hph Hready) as (_ & Hr & Hc & _ & c & d & Hcur & Hd & Ha).
  pose proof (mark_written _ _ _ _ _ Hi Hm) as Hs.
  unfold apply_rollout_recovery. rewrite cbind_returns. fold (recovery_inputs i stores root_text file confirmation). rewrite Hin.
  rewrite (cbind_wrote _ _ _ _ _ _ (recovery_repair_marks _ _ _ _ _ _ _ _ _ Hph Hi Hready Hw) eq_refl).
  rewrite cbind_reads. rewrite (context_settled i _ (r :: l) _ _ _ _ _ Hs Hph Hcur Hd). cbn [rbind ctx_bundle ctx_decision ctx_activation_head ctx_health head ok_or].
  rewrite Ha. done.
Qed.

Lemma recover_on_applied i stores root_text file confirmation root a ph dir l r :
  recovery_inputs i stores root_text file confirmation = Ok (root, a, ph) →
  settled (device_id i) dir (r :: l) → recovery_is_ready i a root ph l r →
  apply_rollout_recovery i stores root_text file confirmation dir =
  {| answer := Ok (r, AlreadyAuthoritative, false); writes := [] |}.
Proof.
  intros Hin Hs Hready. destruct (recovery_inputs_inv _ _ _ _ _ _ _ _ Hin) as (Hdev & Hph & _).
  destruct (recovery_is_ready_inv _ _ _ _ _ _ _ Hph Hready) as ((_ & _ & _ & Hb & _) & Hr & Hc & _ & c & d & Hcur & Hd & Ha).
  unfold apply_rollout_recovery. rewrite cbind_returns. fold (recovery_inputs i stores root_text file confirmation). rewrite Hin.
  rewrite (cbind_quiet _ _ _ _ (recovery_repair_settled _ _ _ _ _ _ _ Hs Hb Hr)).
  rewrite cbind_reads. rewrite (context_settled i _ (r :: l) _ _ _ _ _ Hs Hph Hcur Hd). cbn [rbind ctx_bundle ctx_decision ctx_activation_head ctx_health head ok_or].
  rewrite Ha. done.
Qed.

Lemma recovery_applied_head a root b h p r :
  record_signed p → recovery_apply a root b h p = Ok (AlreadyApplied r) → p = r.
Proof.
  intros Hp. unfold recovery_apply. cbv zeta. intros [_ H]%rbind_unit_ok. do 2 (apply rbind_unit_ok in H as [_ H]).
  apply rbind_ok in H as (bid & _ & H). apply rbind_unit_ok in H as [_ H].
  apply rbind_ok in H as (x & (_ & Hx & Hxb)%map_err_ok%record_decode_exact & H).
  apply rbind_ok in H as (? & _ & H). apply rbind_ok in H as (? & _ & H). destruct (bool_decide _).
  - apply rbind_ok in H as (bs & [_ ->]%map_err_ok%record_encode_ok & H).
    apply rbind_unit_ok in H as [Hbs%fail_if_ok%bool_decide_eq_false%dec_stable H]. apply Ok_inj in H. injection H as <-.
    apply record_bytes_inj; [done..|]. by rewrite <-Hxb.
  - by do 4 (apply rbind_unit_ok in H as [_ H]).
Qed.

Lemma recover_on_settled i stores root_text file confirmation dir l :
  settled (device_id i) dir l →
  let run := apply_rollout_recovery i stores root_text file confirmation dir in
  (run.(writes) = [] ∧ ∀ r s b, run.(answer) = Ok (r, s, b) → s = AlreadyAuthoritative ∧ b = false ∧ head l = Some r) ∨
  (∃ root a ph r, recovery_inputs i stores root_text file confirmation = Ok (root, a, ph) ∧ recovery_is_ready i a root ph l r).
Proof.
  intros Hs. pose proof (proj1 (proj1 Hs)) as Hl. unfold apply_rollout_recovery. rewrite cbind_returns.
  fold (recovery_inputs i stores root_text file confirmation).
  destruct (recovery_inputs i stores root_text file confirmation) as [[[root a] ph]|e] eqn:Hin; [|by left].
  destruct (recovery_inputs_inv _ _ _ _ _ _ _ _ Hin) as (Hdev & Hph & _).
  assert ((∃ e, repair_interrupted_rollout_recovery i root ph a dir = {| answer := Err e; writes := [] |}) ∨
          repair_interrupted_rollout_recovery i root ph a dir = {| answer := Ok false; writes := [] |}) as [[e Hr]|Hr].
  { unfold repair_interrupted_rollout_recovery. rewrite cbind_reads. destruct (let? bid := _ in _) as [[w|]|e] eqn:Er; [|by right|left; by exists e].
    exfalso. apply rbind_ok in Er as (bid & _ & Er). apply rbind_unit_ok in Er as [_ Er]. apply rbind_ok in Er as (c & _ & Er).
    by rewrite (inspect_settled _ _ _ c Hs) in Er. }
  { left. rewrite (cbind_failed _ _ _ e) by (by rewrite Hr). by rewrite Hr. }
  rewrite (cbind_quiet _ _ _ _ Hr), cbind_reads. destruct (let? context := _ in _) as [[cur o]|e] eqn:Ec; [|by left].
  apply rbind_ok in Ec as (ctx & Hctx & Ec). unfold load_required_rollout_operator_context in Hctx. rewrite Hph in Hctx.
  cbn [rbind] in Hctx. rewrite (authority_read _ _ _ Hs) in Hctx. cbn [rbind] in Hctx.
  apply rbind_ok in Hctx as (c & Hc & Hctx). apply rbind_ok in Hctx as (dec & _ & <-%Ok_inj).
  cbn [ctx_bundle ctx_decision ctx_activation_head ctx_health] in Ec. apply rbind_ok in Ec as (p & Hp%ok_or_ok & Ec).
  apply rbind_ok in Ec as (o' & Ha%map_err_ok & [= <- <-]%Ok_inj). cbn [fst snd]. destruct o' as [r|r]; cbn [persist_outcome].
  - right. exists root, a, ph, r. split; [done|]. split; [done|]. split; [done|]. exists p, c. rewrite <-Hp. done.
  - left. rewrite cbind_returns. split; [done|]. intros r' s' b' [= <- <- <-]. split; [done|]. split; [done|].
    destruct l as [|q l]; [done|]. injection Hp as ->. destruct (achain_signed _ _ _ Hl) as [Hps _]. cbn [head]. f_equal.
    by eapply recovery_applied_head.
Qed.

(** ** Planning a recovery *)

Lemma recovery_prepared i root b h p random a :
  recovery_prepare i root b h p RecoveryApproved random = Ok a → len a.(recovery_signature) = 64%N.
Proof.
  unfold recovery_prepare. cbv zeta. intros [_ H]%rbind_unit_ok. do 3 (apply rbind_unit_ok in H as [_ H]).
  do 7 (apply rbind_ok in H as (? & _ & H)). apply rbind_unit_ok in H as [_ H]. apply rbind_ok in H as (? & _ & H).
  apply rbind_unit_ok in H as [_ <-%Ok_inj]. cbn [recovery_signature]. by rewrite len_arr.
Qed.

Lemma recovery_encodes a : recovery_signed a → (len a.(recovery_signature) <= 64)%N → ∃ bs, recovery_encode a = Ok bs.
Proof.
  intros Hs Hl. destruct (postcard_total a) as [bs Hb]. exists bs. apply recovery_encode_ok. split; [done|]. split; [done|].
  destruct Hs as [Hv _]. unfold recovery_validate_content in Hv. apply rbind_unit_ok in Hv as [_ Hv%fail_if_ok].
  rewrite !orb_false_iff in Hv. destruct Hv as [_ Hv%N.ltb_ge].
  assert (MAX_ACTIVATION_RECORD_BYTES = 448%N) as Hm by done. rewrite Hm in Hv.
  pose proof (recovery_size a bs Hb ltac:(lia) ltac:(lia)). assert (MAX_CONTAINMENT_RECOVERY_APPROVAL_BYTES = 4096%N) as -> by done. lia.
Qed.

(** A recovery of a contained device under a healthy policy. *)
Lemma follow_recovery i stores root_text root dir p c ph e bid nonce :
  load_authoritative_activation_head dir (device_id i) = Ok (Some p) → parse_release_trust_root root_text = Ok root →
  load_required_rollout_policy_health stores root = Ok ph → bundle_verify ph.(ph_bundle) root = Ok tt →
  validate_health ph.(ph_bundle) ph.(ph_health) = Ok tt →
  validate_containment (device_id i) p ph.(ph_bundle).(bundle_policy).(policy_content).(rp_phase) = Ok tt →
  rollout_current_state_from_head (Some p) = Ok c → p.(canonical_evidence_id) = Some e → bundle_id ph.(ph_bundle) = Ok bid →
  (uint_val p.(migration_epoch) + 1 < U64_BOUND)%N →
  Forall (fun id => id ≠ zero32) [bid; ph.(ph_health).(hs_policy_id); ph.(ph_health).(hs_artifact); device_id i; record_hash p; e; nonce] →
  ∃ bs a id r, plan_rollout_recovery i stores root_text None true (Some nonce) dir = Ok bs ∧
    recovery_decode_and_verify bs (device_id i) = Ok a ∧ recovery_id a = Ok id ∧ recovery_candidate a = Ok r ∧
    recovery_prepare i root ph.(ph_bundle) ph.(ph_health) p RecoveryApproved (Some nonce) = Ok a ∧
    ∀ file confirmation, read_bounded_operator_artifact file MAX_CONTAINMENT_RECOVERY_APPROVAL_BYTES = Ok bs →
      as_bytes confirmation = encode_hex id → record_hash p ≠ record_hash r →
      (apply_rollout_recovery i stores root_text file confirmation dir).(answer) = Ok (r, Stored Inserted, false).
Proof.
  intros (l & Hs & Hhd)%settled_exact Hroot Hph Ht%bundle_verify_ok Hh%validate_health_ok Hcn%validate_containment_ok Hcur He Hb Hlen Hz.
  symmetry in Hhd. rewrite !Forall_cons in Hz. destruct Hz as (Z1 & Z2 & Z3 & Z4 & Z5 & Z6 & Z7 & _). pose proof (proj1 (proj1 Hs)) as Hl.
  assert (len l + 1 < U64_BOUND)%N as Hll.
  { destruct l as [|q l]; [done|]. injection Hhd as ->. by rewrite (achain_epoch _ _ _ Hl) in Hlen. }
  destruct (recovery_prepare_recovers i root ph.(ph_bundle) ph.(ph_health) l p e bid nonce) as (a & r & Hprep & Hdev & Hrec); try done.
  pose proof Hrec as (Hsig & _ & _ & Hbid & _ & Hr & _).
  destruct (recovery_encodes a Hsig) as [bs Henc]; [rewrite (recovery_prepared _ _ _ _ _ _ _ Hprep); lia|].
  assert (recovery_id a = Ok (sha256 (RECOVERY_ID_DOMAIN ++ bs))) as Hid by (unfold recovery_id; by rewrite Henc).
  assert (recovery_candidate a = Ok r) as Hcand by (unfold recovery_candidate; by rewrite Hr).
  destruct (recovery_awaited _ _ _ _ _ Hph Hh (proj1 (proj2 (proj2 Hcn))) Hcur) as (dec & Hdec & Haw).
  exists bs, a, (sha256 (RECOVERY_ID_DOMAIN ++ bs)), r. split_and!; [|by apply recovery_decode_exact|done|done|done|].
  - unfold plan_rollout_recovery. cbn [negb fail_if rbind]. rewrite Hroot. cbn [rbind]. rewrite <-Hhd in Hcur.
    rewrite (context_settled _ _ _ _ _ _ _ _ Hs Hph Hcur Hdec). cbn [rbind ctx_bundle ctx_decision ctx_activation_head ctx_health].
    rewrite Haw, Hhd. cbn [negb fail_if rbind ok_or]. rewrite Hprep. cbn [map_err rbind]. rewrite Hid, Hcand, Henc. done.
  - intros file confirmation Hf Hconf Hne.
    assert (recovery_inputs i stores root_text file confirmation = Ok (root, a, ph)) as Hin.
    { unfold recovery_inputs. rewrite Hroot, Hf. cbn [rbind].
      rewrite (proj2 (recovery_decode_exact bs (device_id i) a) (conj Hdev Henc)). cbn [map_err rbind]. rewrite Hid. cbn [map_err rbind].
      rewrite (decode_hex_id _ confirmation Hconf). cbn [rbind]. rewrite bool_decide_eq_false_2 by (intros Hx; by apply Hx).
      cbn [fail_if rbind]. by rewrite Hph. }
    destruct (recover_on_ready i stores root_text file confirmation root a ph dir l r Hin Hs) as (w & _ & _ & ->); [|done].
    split; [done|]. split; [done|]. exists p, c. split; [done|]. split; [done|]. rewrite <-Hdev in Hl.
    by apply (recovery_ready _ _ _ _ _ _ _ Hl Hhd).
Qed.

(** Carrying out a recovery is restartable and idempotent, as an approval
    is: the record and then its mark are written, between the two writes the
    runtime refuses the directory, the same command again writes exactly the
    missing mark, and once more it writes nothing. *)
Theorem recovery_apply_restartable i stores root_text file confirmation dir h :
  let apply := apply_rollout_recovery i stores root_text file confirmation in
  load_authoritative_activation_head dir (device_id i) = Ok h →
  ((apply dir).(writes) = [] ∧
   ∀ r s b, (apply dir).(answer) = Ok (r, s, b) → s = AlreadyAuthoritative ∧ b = false ∧ h = Some r) ∨
  (∃ r mid fin,
    apply dir = {| answer := Ok (r, Stored Inserted, false); writes := [mid; fin] |} ∧
    (∃ e, load_runtime_policy mid (device_id i) = Err (OperatorActivation e)) ∧
    apply mid = {| answer := Ok (r, AlreadyAuthoritative, true); writes := [fin] |} ∧
    apply fin = {| answer := Ok (r, AlreadyAuthoritative, false); writes := [] |} ∧
    load_authoritative_activation_head fin (device_id i) = Ok (Some r)).
Proof.
  intros apply (l & Hs & ->)%settled_exact.
  destruct (recover_on_settled i stores root_text file confirmation dir l Hs) as [Hq|(root & a & ph & r & Hin & Hready)]; [by left|right].
  destruct (recovery_inputs_inv _ _ _ _ _ _ _ _ Hin) as (_ & Hph & _).
  destruct (recovery_is_ready_inv _ _ _ _ _ _ _ Hph Hready) as (_ & _ & Hc & _).
  destruct (recover_on_ready _ _ _ _ _ _ _ _ _ _ _ Hin Hs Hready) as (w & Hw & Hm & Hrun).
  pose proof (record_written _ _ _ _ Hs Hc) as Hi. pose proof (mark_written _ _ _ _ _ Hi Hm) as Hf.
  exists r, (with_record dir r), (with_mark (with_record dir r) w). split_and!; [done| | | |].
  - destruct (interrupted_refused _ _ _ _ Hi) as (e & _ & He & _). by exists e.
  - by eapply recover_on_interrupted.
  - by eapply recover_on_applied.
  - by apply (authority_read _ _ (r :: l)).
Qed.

(** The controller proposes nothing for a contained device. *)
Lemma approval_keeps_containment i stores root_text file confirmation dir p l :
  settled (device_id i) dir (p :: l) → p.(disposition) = EmergencyContainment →
  (apply_rollout_approval i stores root_text file confirmation dir).(writes) = [].
Proof.
  intros Hs Hd. destruct (apply_on_settled i stores root_text file confirmation dir (p :: l) Hs) as [[Hq _]|(root & a & ph & r & _ & Hready)]; [done|].
  exfalso. destruct Hready as (bid & current & decision & _ & Hcur & Hdec & Ha & Hdev & Hl). rewrite <-Hdev in Hl.
  apply (apply_ready _ _ _ _ _ Hl) in Ha as [(_ & _ & _ & _ & (pr & Hpr & _) & _) _].
  cbn [head rollout_current_state_from_head] in Hcur. rewrite Hd in Hcur. apply rbind_ok in Hcur as (t & _ & <-%Ok_inj).
  destruct (proposal_inv _ _ _ _ _ Hdec Hpr) as (_ & _ & [(_ & _ & Hx & _)|(_ & _ & Hx & _)]); discriminate Hx.
Qed.

(** C18: Of the two commands that follow the trusted policy, an approval does not
    touch a contained device, and a recovery writes only under a healthy
    trusted policy: when it writes a record, the head was a
    containment with evidence, the bundle is signed under the root, its policy
    is normal, past the hold and at or above the contained state, its counters
    show starts and completed sessions and no failure, and the new record
    restores normal operation with the state and the evidence unchanged.  A
    direct activation is not bound by any of this. *)
Theorem recovery_restores_exactly i stores root_text file confirmation dir h :
  let run := apply_rollout_recovery i stores root_text file confirmation dir in
  load_authoritative_activation_head dir (device_id i) = Ok h →
  (∀ p stores' root_text' file' confirmation', h = Some p → p.(disposition) = EmergencyContainment →
     (apply_rollout_approval i stores' root_text' file' confirmation' dir).(writes) = []) ∧
  (run.(writes) ≠ [] → ∃ r p root ph e, run.(answer) = Ok (r, Stored Inserted, false) ∧ h = Some p ∧
    p.(disposition) = EmergencyContainment ∧ p.(canonical_evidence_id) = Some e ∧
    parse_release_trust_root root_text = Ok root ∧
    load_required_rollout_policy_health stores root = Ok ph ∧ bundle_verify ph.(ph_bundle) root = Ok tt ∧
    ph.(ph_bundle).(bundle_policy).(policy_content).(rp_disposition) = NormalPolicy ∧
    ph.(ph_bundle).(bundle_policy).(policy_content).(rp_phase) ≠ LegacyOnlyHold ∧
    (∃ t, activation_target p.(migration_state) = Ok t ∧
       (target_ordinal t <=
        target_ordinal (rollout_phase_target ph.(ph_bundle).(bundle_policy).(policy_content).(rp_phase)))%N) ∧
    counters_healthy ph.(ph_health).(hs_counters) = Ok true ∧
    r.(actor) = ExplicitLocal ∧
    view_of r = {| vw_state := p.(migration_state); vw_disposition := Normal; vw_evidence := Some e |}).
Proof.
  intros run (l & Hs & ->)%settled_exact. split.
  { intros p stores' root_text' file' confirmation' Hp Hd. destruct l as [|q l]; [done|]. injection Hp as ->. by eapply approval_keeps_containment. }
  intros Hwr.
  destruct (recover_on_settled i stores root_text file confirmation dir l Hs) as [[Hq _]|(root & a & ph & r & Hin & Hready)]; [done|].
  destruct (recover_on_ready _ _ _ _ _ _ _ _ _ _ _ Hin Hs Hready) as (w & _ & _ & Hrun). subst run. rewrite Hrun. cbn [answer].
  destruct (recovery_inputs_inv _ _ _ _ _ _ _ _ Hin) as (_ & Hph & Hroot).
  destruct (recovery_is_ready_inv _ _ _ _ _ _ _ Hph Hready) as ((_ & Ht & (H1 & H2 & _ & _ & _ & _ & H3) & _ & _ & _ & p & Hp & (_ & _ & Hd & _ & Ht') & _ & _ & He & Hv & Hact & _) & _).
  exists r, p, root, ph, a.(recovery_content).(rc_canonical_evidence_id). rewrite He in Hv. split_and!; try done. by apply bundle_verify_ok.
Qed.

(** A contained device can always recover under a healthy trusted policy:
    planning writes a recovery, and applying it with the identifier the plan
    reported stores its record and mark.  The conditions are that no identifier
    is all zero and that the new record does not collide with the head's
    identifier. *)
Theorem operator_recovers i stores root_text root dir p c ph e bid nonce :
  load_authoritative_activation_head dir (device_id i) = Ok (Some p) → parse_release_trust_root root_text = Ok root →
  load_required_rollout_policy_health stores root = Ok ph → bundle_verify ph.(ph_bundle) root = Ok tt →
  validate_health ph.(ph_bundle) ph.(ph_health) = Ok tt →
  validate_containment (device_id i) p ph.(ph_bundle).(bundle_policy).(policy_content).(rp_phase) = Ok tt →
  rollout_current_state_from_head (Some p) = Ok c → p.(canonical_evidence_id) = Some e → bundle_id ph.(ph_bundle) = Ok bid →
  (uint_val p.(migration_epoch) + 1 < U64_BOUND)%N →
  Forall (fun id => id ≠ zero32) [bid; ph.(ph_health).(hs_policy_id); ph.(ph_health).(hs_artifact); device_id i; record_hash p; e; nonce] →
  ∃ bs a id r, plan_rollout_recovery i stores root_text None true (Some nonce) dir = Ok bs ∧
    recovery_decode_and_verify bs (device_id i) = Ok a ∧ recovery_id a = Ok id ∧ recovery_candidate a = Ok r ∧
    recovery_prepare i root ph.(ph_bundle) ph.(ph_health) p RecoveryApproved (Some nonce) = Ok a ∧
    ∀ file confirmation, read_bounded_operator_artifact file MAX_CONTAINMENT_RECOVERY_APPROVAL_BYTES = Ok bs →
      as_bytes confirmation = encode_hex id → record_hash p ≠ record_hash r →
      (apply_rollout_recovery i stores root_text file confirmation dir).(answer) = Ok (r, Stored Inserted, false).
Proof. apply follow_recovery. Qed.

(** * Direct activation *)

Lemma planned i rq dir l r :
  settled (device_id i) dir l → plan_activation i rq dir = Ok r →
  ∃ evidence, request_evidence rq = Ok evidence ∧ issue_requested i (head l) rq evidence = Ok r ∧
    achain (device_id i) (r :: l).
Proof.
  intros Hs H. pose proof (authority_read _ _ _ Hs) as Ha. unfold load_authoritative_activation_head in Ha.
  unfold plan_activation in H. apply rbind_ok in H as (rs & Hrs & H). apply rbind_ok in H as (hw & Hhw & H).
  rewrite Hrs in Ha. cbn [rbind] in Ha. rewrite Hhw in Ha. cbn [rbind] in Ha. rewrite Ha in H. cbn [rbind] in H.
  apply rbind_ok in H as (e & He & H). exists e. split; [done|]. split; [done|]. apply map_err_ok in H.
  by destruct (issue_inv _ _ _ _ _ _ _ _ (proj1 (proj1 Hs)) H) as (Hc & _).
Qed.

Lemma plan_settled i rq dir l r e :
  settled (device_id i) dir l → request_evidence rq = Ok e → issue_requested i (head l) rq e = Ok r → plan_activation i rq dir = Ok r.
Proof.
  intros Hs He Hissue. pose proof (authority_read _ _ _ Hs) as Ha. unfold load_authoritative_activation_head in Ha.
  apply rbind_ok in Ha as (rs & Hrs & Ha). apply rbind_ok in Ha as (hw & Hhw & Ha).
  unfold plan_activation. rewrite Hrs. cbn [rbind]. rewrite Hhw. cbn [rbind]. rewrite Ha. cbn [rbind]. by rewrite He.
Qed.

Lemma activate_settled i rq confirmation dir l r :
  settled (device_id i) dir l → plan_activation i rq dir = Ok r → as_bytes confirmation = encode_hex (record_hash r) →
  ∃ w, hw_issue i r = Ok w ∧ marks w r ∧
    apply_activation i rq confirmation dir =
    {| answer := Ok (Some Inserted); writes := [with_record dir r; with_mark (with_record dir r) w] |}.
Proof.
  intros Hs Hplan Hconf. destruct (planned _ _ _ _ _ Hs Hplan) as (e & He & Hissue & Hc). destruct (achain_signed _ _ _ Hc) as [Hrs Hd].
  destruct (hw_issue_ok i r Hrs Hd) as (w & Hw & Hm). exists w. split; [done|]. split; [done|].
  pose proof Hs as [Hh Hmk]. pose proof (proj1 Hh) as Hl. destruct (load_records _ _ _ Hh) as (rs & Hl1 & Hp).
  destruct (load_mark _ _ _ Hl Hmk) as (hw & Hl2 & Hmkd). unfold apply_activation. rewrite cbind_reads.
  rewrite (decode_hex_id _ _ Hconf). cbn [rbind]. rewrite He. cbn [rbind]. rewrite Hl1. cbn [rbind].
  rewrite (proj2 (verify_chain_ok rs (device_id i) (head l))) by by exists l. cbn [map_err rbind]. rewrite Hl2. cbn [rbind].
  rewrite (proj2 (verify_authority_ok rs hw (device_id i) (head l))) by by exists l. rewrite Hissue. cbn [rbind].
  rewrite (proj2 (record_id_ok r _) (conj Hrs eq_refl)). cbn [map_err rbind].
  rewrite bool_decide_eq_false_2 by (intros Hx; by apply Hx). cbn [fail_if rbind].
  rewrite (proj2 (record_encode_ok r _) (conj Hrs eq_refl)). cbn [map_err rbind].
  rewrite (cbind_wrote _ _ _ _ _ _ (persist_record _ _ _ _ Hh Hc) eq_refl), cbind_returns, Hw. done.
Qed.

(** The predecessor that the repair looks for. *)
Lemma interrupted_predecessor d r l rs :
  achain d (r :: l) → Permutation rs (r :: l) →
  (if (uint_val r.(migration_epoch) =? 1)%N then None else find_predecessor rs r) = head l.
Proof.
  intros Hc Hp. rewrite (find_predecessor_ok _ _ _ _ Hc Hp), (achain_epoch _ _ _ Hc), len_cons.
  destruct l as [|p l]; [done|]. by rewrite (proj2 (N.eqb_neq _ _)) by (rewrite len_cons; lia).
Qed.

Lemma interrupted_has_predecessor d r l :
  achain d (r :: l) → ((uint_val r.(migration_epoch) =? 1)%N || is_some (head l)) = true.
Proof.
  intros Hc. rewrite (achain_epoch _ _ _ Hc), len_cons. destruct l as [|p l]; [done|]. by rewrite orb_true_r.
Qed.

Lemma activate_interrupted i rq confirmation dir l r e w :
  interrupted (device_id i) dir r l → request_evidence rq = Ok e → issue_requested i (head l) rq e = Ok r →
  as_bytes confirmation = encode_hex (record_hash r) → hw_issue i r = Ok w →
  apply_activation i rq confirmation dir = {| answer := Ok None; writes := [with_mark dir w] |}.
Proof.
  intros Hi He Hissue Hconf Hw. pose proof (proj1 (proj1 Hi)) as Hc. destruct (achain_signed _ _ _ Hc) as [Hs Hd].
  assert (achain (device_id i) l) as Hl by by inversion Hc.
  destruct (interrupted_loads _ _ _ _ Hi) as (rs & hw & er & Hrs & Hp & Hhw & Hmk & Hch & Hv & Hrep).
  unfold apply_activation. rewrite cbind_reads, (decode_hex_id _ _ Hconf). cbn [rbind]. rewrite He. cbn [rbind]. rewrite Hrs. cbn [rbind].
  rewrite Hch. cbn [map_err rbind]. rewrite Hhw. cbn [rbind]. rewrite Hv, Hrep. cbn [negb fail_if rbind].
  unfold plan_activation_repair. cbn [ok_or rbind]. rewrite (proj2 (record_id_ok r _) (conj Hs eq_refl)). cbn [map_err rbind].
  rewrite bool_decide_eq_false_2 by (intros Hx; by apply Hx). cbn [fail_if rbind].
  rewrite (interrupted_predecessor _ _ _ _ Hc Hp), (interrupted_has_predecessor _ _ _ Hc). cbn [negb fail_if rbind]. rewrite (mark_is_predecessor _ _ _ Hl Hmk). cbn [rbind]. rewrite Hissue. cbn [rbind].
  rewrite (proj2 (record_encode_ok r _) (conj Hs eq_refl)). cbn [map_err rbind].
  rewrite bool_decide_eq_false_2 by (intros Hx; by apply Hx). cbn [fail_if rbind]. rewrite Hw. done.
Qed.

(** Only a request for the same record is repaired. *)
Lemma activate_other i rq confirmation dir l r w :
  interrupted (device_id i) dir r l → hw_issue i r = Ok w →
  let run := apply_activation i rq confirmation dir in
  run.(writes) = [] ∨
  run.(writes) = [with_mark dir w] ∧ decode_hex_32 confirmation = Ok (record_hash r) ∧
    ∃ e, request_evidence rq = Ok e ∧ issue_requested i (head l) rq e = Ok r.
Proof.
  intros Hi Hw. pose proof (proj1 (proj1 Hi)) as Hc. destruct (achain_signed _ _ _ Hc) as [Hs Hd].
  assert (achain (device_id i) l) as Hl by by inversion Hc.
  destruct (interrupted_loads _ _ _ _ Hi) as (rs & hw & er & Hrs & Hp & Hhw & Hmk & Hch & Hv & Hrep).
  unfold apply_activation. rewrite cbind_reads. destruct (decode_hex_32 confirmation) as [id|]; [|by left]. cbn [rbind].
  destruct (request_evidence rq) as [e|]; [|by left]. cbn [rbind].
  rewrite Hrs. cbn [rbind]. rewrite Hch. cbn [map_err rbind]. rewrite Hhw. cbn [rbind]. rewrite Hv, Hrep. cbn [negb fail_if rbind].
  unfold plan_activation_repair. cbn [ok_or rbind]. rewrite (proj2 (record_id_ok r _) (conj Hs eq_refl)). cbn [map_err rbind].
  case_bool_decide as Hid; [by left|]. subst id. cbn [fail_if rbind].
  rewrite (interrupted_predecessor _ _ _ _ Hc Hp), (interrupted_has_predecessor _ _ _ Hc). cbn [negb fail_if rbind].
  rewrite (mark_is_predecessor _ _ _ Hl Hmk). cbn [rbind]. destruct (issue_requested i (head l) rq e) as [r'|] eqn:Hr; [|by left]. cbn [rbind].
  destruct (achain_signed (device_id i) r' l) as [Hs' _]; [by apply map_err_ok, (issue_inv _ _ _ _ _ _ _ _ Hl) in Hr as [Hx _]|].
  rewrite (proj2 (record_encode_ok r' _) (conj Hs' eq_refl)), (proj2 (record_encode_ok r _) (conj Hs eq_refl)). cbn [map_err rbind].
  case_bool_decide as Hb; [by left|]. apply record_bytes_inj in Hb as ->; [|done..]. right. cbn [fail_if rbind]. rewrite Hw.
  split; [done|]. split; [done|]. by exists e.
Qed.

(** C19: A direct activation stores exactly the record its plan printed, and is
    repaired by running it again: with the identifier the plan reported, the
    record and then its mark are written; stopped in between, the runtime
    refuses the directory and the same command writes the missing mark; a direct
    activation writes something there only if it names that identifier and its
    request plans that very record, and then it writes that mark. *)
Theorem activation_apply_restartable i rq confirmation dir h r :
  let apply := apply_activation i rq confirmation in
  load_authoritative_activation_head dir (device_id i) = Ok h → plan_activation i rq dir = Ok r →
  as_bytes confirmation = encode_hex (record_hash r) →
  ∃ mid fin, apply dir = {| answer := Ok (Some Inserted); writes := [mid; fin] |} ∧
    (∃ e, load_runtime_policy mid (device_id i) = Err (OperatorActivation e)) ∧
    apply mid = {| answer := Ok None; writes := [fin] |} ∧
    (∀ rq' other, let run := apply_activation i rq' other mid in
       run.(writes) = [] ∨
       run.(writes) = [fin] ∧ decode_hex_32 other = Ok (record_hash r) ∧ plan_activation i rq' dir = Ok r) ∧
    load_authoritative_activation_head fin (device_id i) = Ok (Some r).
Proof.
  intros apply (l & Hs & ->)%settled_exact Hplan Hconf. destruct (planned _ _ _ _ _ Hs Hplan) as (e & He & Hissue & Hc).
  destruct (activate_settled _ _ _ _ _ _ Hs Hplan Hconf) as (w & Hw & Hm & Hrun).
  pose proof (record_written _ _ _ _ Hs Hc) as Hi. pose proof (mark_written _ _ _ _ _ Hi Hm) as Hf.
  exists (with_record dir r), (with_mark (with_record dir r) w). split_and!; [done| | | |].
  - destruct (interrupted_refused _ _ _ _ Hi) as (er & _ & Her & _). by exists er.
  - by eapply activate_interrupted.
  - intros rq' other run. destruct (activate_other i rq' other _ _ _ _ Hi Hw) as [Hq|(Hwr & Hid & e' & He' & Hissue')]; [by left|right].
    split; [done|]. split; [done|]. by eapply plan_settled.
  - by apply (authority_read _ _ (r :: l)).
Qed.

(** A contained head has evidence, and the state machine lets it recover. *)
Lemma contained_may_recover d p l :
  achain d (p :: l) → p.(disposition) = EmergencyContainment →
  astep (view_of p) {| vw_state := p.(migration_state); vw_disposition := Normal; vw_evidence := p.(canonical_evidence_id) |}.
Proof.
  intros Hc Hd. assert (∃ v, astep v (view_of p)) as [v Ha] by (inversion Hc; by eexists).
  unfold view_of in *. rewrite Hd in *. inversion Ha; subst. apply step_recover.
Qed.

(** C24: A direct activation leaves containment without a policy: whatever the
    stores hold, a contained device plans and stores a record of normal
    operation with the contained state and its evidence, in the name of any
    actor; the command reads neither a trusted policy nor its health.  RFC-0221
    says that only the recovery ceremony may clear a containment. *)
Theorem direct_activation_leaves_containment i rq dir p :
  load_authoritative_activation_head dir (device_id i) = Ok (Some p) → p.(disposition) = EmergencyContainment →
  (uint_val p.(migration_epoch) + 1 < U64_BOUND)%N →
  rq.(rq_migration_state) = p.(migration_state) → rq.(rq_disposition) = Normal →
  request_evidence rq = Ok p.(canonical_evidence_id) → reason_valid rq.(rq_reason) →
  ∃ r, plan_activation i rq dir = Ok r ∧ r.(actor) = rq.(rq_actor) ∧
    view_of r = {| vw_state := p.(migration_state); vw_disposition := Normal; vw_evidence := p.(canonical_evidence_id) |} ∧
    ∀ confirmation, as_bytes confirmation = encode_hex (record_hash r) →
      ∃ mid fin, apply_activation i rq confirmation dir = {| answer := Ok (Some Inserted); writes := [mid; fin] |} ∧
        load_authoritative_activation_head fin (device_id i) = Ok (Some r).
Proof.
  intros (l & Hs & Hhd)%settled_exact Hd Hep Hst Hdp He Hre. destruct l as [|p' l]; [done|]. injection Hhd as ->.
  pose proof (proj1 (proj1 Hs)) as Hl. rewrite (achain_epoch _ _ _ Hl) in Hep.
  destruct (issue_ok i (p' :: l) {| vw_state := p'.(migration_state); vw_disposition := Normal; vw_evidence := p'.(canonical_evidence_id) |}
    rq.(rq_actor) rq.(rq_reason) Hl Hep Hre) as [r Hr]; [by eapply contained_may_recover|]. cbn [vw_state vw_disposition vw_evidence] in Hr.
  destruct (issue_inv _ _ _ _ _ _ _ _ Hl Hr) as (Hc & Hv & Ha & _). rewrite <-Hst, <-Hdp in Hr.
  assert (plan_activation i rq dir = Ok r) as Hplan by (eapply plan_settled; [done..|]; unfold issue_requested; by rewrite Hr).
  exists r. split_and!; [done..|]. intros confirmation Hconf. destruct (activate_settled _ _ _ _ _ _ Hs Hplan Hconf) as (w & _ & Hm & Hrun).
  do 2 eexists. split; [done|]. apply (authority_read _ _ (r :: p' :: l)). apply mark_written; [by apply record_written|done].
Qed.
End recovery.
