(* ===== verification/OperatorImport.v ===== *)
(** Importing a trusted bundle with the command of [RolloutOperator]: the
    policy store and the health store are two databases, the second follows the
    first, and an import that stopped between them is completed by importing
    again.  After an import the other commands find their policy and health. *)

From stdpp Require Import base tactics list numbers strings.
From Stdlib Require Import Strings.Byte.
From S2P Require Import Prelude Crypto Text Identity Postcard Redb Rollout RolloutFacts ReleaseTrust ReleaseTrustFacts.
From S2P Require Import TrustedPolicy TrustedPolicyFacts TrustedHealth TrustedHealthFacts Activation ActivationFacts.
From S2P Require Import ActivationChain RolloutApproval ContainmentRecovery RolloutApprovalFacts RolloutOperator.

Section import.
Context {E : Ed25519} {D : Blake3Derive} {SH : Sha256} {K : Blake3Keyed}.
Context {RP : RolloutPostcard} {TP : TrustPostcard} {BP : BundlePostcard} {HP : HealthPostcard}.
Context {AP : ApprovalPostcard} {CP : RecoveryPostcard} {R : Redb}.
Context {RPL : RolloutPostcardLaws RP} {TPL : TrustPostcardLaws TP} {BPL : BundlePostcardLaws BP}.
Context {HPL : HealthPostcardLaws HP} {RL : RedbLaws R}.
Implicit Types (stores : OperatorStores) (root : ReleaseTrustRoot) (b : TrustedReleasePolicyBundle).
Implicit Types (bundles : list TrustedReleasePolicyBundle) (seed : arr 32).
Implicit Types (counted_chain : list (TrustedReleasePolicyBundle * RolloutHealthCounters)).

(** The two stores: the bundles of the policy store, and those of them the
    health store has, with their counters.  The second list is shorter when an
    import stopped between the stores. *)
Record stores_hold root seed stores bundles counted_chain : Prop := {
  sh_policy : match stores.(trusted_policy_dir) with
              | Some db => tp_refines root {| tp_database := db; tp_trust_root := root |} bundles
              | None => bundles = []
              end;
  sh_health : match stores.(rollout_dir) with
              | Some db => th_refines root seed {| th_database := db; th_trust_root := root |} counted_chain
              | None => counted_chain = []
              end;
  sh_prefix : ∃ rest, bundles = map fst counted_chain ++ rest
}.

Lemma policy_opens root seed stores bundles chain :
  stores_hold root seed stores bundles chain →
  ∃ st, tp_open root (match stores.(trusted_policy_dir) with Some db => db | None => tp_create end) = Ok st ∧
    tp_refines root st bundles.
Proof.
  intros HS. pose proof (sh_policy _ _ _ _ _ HS) as Hp. destruct (trusted_policy_dir stores) as [db|].
  - pose proof (reopen_chain root _ _ root Hp) as Hr. cbn [tp_database] in Hr. rewrite bool_decide_eq_true_2 in Hr by done.
    by eexists.
  - subst bundles. apply open_new_total.
Qed.

Lemma health_opens root seed stores bundles chain random :
  stores_hold root seed stores bundles chain → (stores.(rollout_dir) = None → random = Some seed) →
  ∃ st, th_open root random (match stores.(rollout_dir) with Some db => db | None => th_create end) = Ok st ∧
    th_refines root seed st chain.
Proof.
  intros HS Hr. pose proof (sh_health _ _ _ _ _ HS) as Hh. destruct (rollout_dir stores) as [db|].
  - pose proof (reopen_health root seed _ _ root random Hh) as Ho. cbn [th_database] in Ho. rewrite bool_decide_eq_true_2 in Ho by done.
    by eexists.
  - subst chain. rewrite Hr by done. apply open_fresh_total.
Qed.

Lemma store_eta (st : TrustedPolicyStore) root : st.(tp_trust_root) = root → {| tp_database := tp_database st; tp_trust_root := root |} = st.
Proof. intros <-. by destruct st. Qed.
Lemma health_eta (st : TrustedRolloutHealthStore) root : st.(th_trust_root) = root → {| th_database := th_database st; th_trust_root := root |} = st.
Proof. intros <-. by destruct st. Qed.

(** The import keeps or extends the chain of bundles. *)
Lemma spec_import_extends bundles b o bundles' :
  spec_import bundles b = Ok (o, bundles') → ∃ more, bundles' = bundles ++ more ∧ bundles' ≠ [].
Proof.
  unfold spec_import. destruct (last bundles) as [cur|] eqn:El.
  - destruct (same_id b cur).
    + intros [_ H]%rbind_unit_ok. apply rbind_ok in H as (x & _ & H). apply Ok_inj in H. injection H as _ <-.
      exists []. split; [by rewrite app_nil_r|]. by intros ->.
    + intros [_ H]%rbind_unit_ok. unfold spec_append in H. do 2 (apply rbind_unit_ok in H as [_ H]).
      apply rbind_ok in H as (x & _ & H). apply Ok_inj in H. injection H as _ <-. exists [b]. split; [done|]. by destruct bundles.
  - intros [_ H]%rbind_unit_ok. unfold spec_append in H. do 2 (apply rbind_unit_ok in H as [_ H]).
    apply rbind_ok in H as (x & _ & H). apply Ok_inj in H. injection H as _ <-. exists [b]. split; [done|]. by destruct bundles.
Qed.

Lemma chain_validates root bundles :
  accepted root bundles → bundles ≠ [] → (len bundles <= MAX_DURABLE_TRUSTED_POLICY_BUNDLES)%N →
  validate_bundle_chain bundles root = Ok tt.
Proof.
  intros Ha Hn Hl. apply validate_bundle_chain_ok. split; [done|]. split.
  - destruct bundles; [done|]. rewrite len_cons. lia.
  - exact Hl.
Qed.

(** What the commands load from two stores with the same bundles. *)
Lemma policy_health_loads root seed stores bundles chain b :
  stores_hold root seed stores bundles chain → bundles = map fst chain → last bundles = Some b →
  ∃ ph snap, load_required_rollout_policy_health stores root = Ok ph ∧ snapshot_of seed chain = Some snap ∧
    ph.(ph_bundle) = b ∧ ph.(ph_evaluation) = snap.(ts_evaluation) ∧ ph.(ph_health) = snap.(ts_health).
Proof.
  intros HS Heq El. pose proof (sh_policy _ _ _ _ _ HS) as Hp. pose proof (sh_health _ _ _ _ _ HS) as Hh.
  unfold load_required_rollout_policy_health. destruct (trusted_policy_dir stores) as [pdb|]; [|by subst bundles; rewrite Hp in El].
  unfold inspect_existing_trusted_policy_store, current_bundle_from_read. pose proof (chain_read _ _ _ Hp) as Hc.
  cbn [tp_database] in Hc. rewrite Hc. cbn [map_err rbind ok_or]. rewrite El. cbn [ok_or rbind].
  destruct (rollout_dir stores) as [hdb|]; [|by subst chain; subst bundles].
  rewrite Heq, last_map in El. destruct (last chain) as [[b' c]|] eqn:El'; [|done]. injection El as <-.
  destruct (last_of _ _ _ _ _ _ Hh El') as (Ht & Hco & _). destruct (bundle_id_total _ (proj1 Ht)) as [id Hid].
  pose proof (inspect_read root seed _ chain b' c b' id Hh El' Ht Hid ltac:(done)) as Hi. cbn [th_database] in Hi. rewrite Hi.
  rewrite bool_decide_eq_true_2 by done. destruct (snapshot_of_last _ _ _ _ _ _ Hh El') as (snap & Hs & _). rewrite Hs.
  cbn [map_err rbind ok_or]. unfold snapshot_of in Hs. rewrite El', Hid in Hs. destruct (policy_id_total _ _ Ht) as [pid Hpid].
  rewrite Hpid in Hs. destruct (health_snapshot_total _ _ _ Ht Hco) as [hs Hhs]. rewrite Hhs in Hs. injection Hs as <-.
  cbn [ts_evaluation ts_health]. unfold verify_bundle_evaluation_binding. rewrite Hpid. cbn [map_err rbind].
  unfold evaluate_cohort. cbn [ce_policy_id ce_policy_epoch ce_artifact ce_phase ce_disposition ce_cohort].
  rewrite !bool_decide_eq_true_2 by done. rewrite (proj2 (u64_eqb_eq _ _) eq_refl), N.eqb_refl. cbn [andb negb fail_if rbind].
  by eexists _, _.
Qed.

(** C20: Importing a bundle brings both stores to the same chain: whatever part
    of the policy store's chain the health store has, importing a bundle the
    chain accepts, or its newest one again, ends with both stores holding the
    whole chain, the counters that were there kept and the others zero, and the
    operator's commands then find the newest bundle and its snapshot. *)
Theorem import_settles_stores root seed stores bundles chain root_text file bs b o bundles' random :
  stores_hold root seed stores bundles chain → parse_release_trust_root root_text = Ok root →
  read_bounded_real_file file = Ok bs → bundle_decode_and_verify bs root = Ok b →
  spec_import bundles b = Ok (o, bundles') → NoDup (map bundle_id bundles') →
  (stores.(rollout_dir) = None → random = Some seed) →
  ∃ rest snap stores' ph, map fst chain ++ rest = bundles' ∧
    import_rollout_trusted_policy stores root_text file true random = (Ok (o, snap), stores') ∧
    stores_hold root seed stores' bundles' (chain ++ fresh rest) ∧
    load_required_rollout_policy_health stores' root = Ok ph ∧
    last bundles' = Some ph.(ph_bundle) ∧ bundle_id ph.(ph_bundle) = Ok snap.(ts_bundle_id) ∧
    ph.(ph_evaluation) = snap.(ts_evaluation) ∧ ph.(ph_health) = snap.(ts_health).
Proof.
  intros HS Hroot Hf Hdec Hspec Hd Hrand. destruct (sh_prefix _ _ _ _ _ HS) as [rest0 Hb].
  destruct (spec_import_extends _ _ _ _ Hspec) as (more & Hb' & Hne).
  destruct (policy_opens _ _ _ _ _ HS) as (pst & Hpo & Hpr). destruct (health_opens _ _ _ _ _ random HS Hrand) as (hst & Hho & Hhr).
  pose proof (import_spec _ _ _ file Hpr) as Himp. rewrite Hf in Himp. cbn [rbind] in Himp. rewrite Hdec in Himp. cbn [map_err rbind] in Himp.
  rewrite Hspec in Himp. destruct Himp as (pst' & Himp & Hpr').
  assert (validate_bundle_chain bundles' root = Ok tt) as Hv by (apply chain_validates; [apply (tpr_chain _ _ _ Hpr')|done|apply (tpr_bound _ _ _ Hpr')]).
  assert (bundles' = map fst chain ++ rest0 ++ more) as Hsplit by (by rewrite Hb', Hb, app_assoc).
  destruct (synchronize_spec root seed hst chain bundles' (rest0 ++ more) Hhr Hv Hd Hsplit) as (snap & hst' & Hsync & Hhr' & Hsnap).
  set (stores' := {| trusted_policy_dir := Some pst'.(tp_database); rollout_dir := Some hst'.(th_database) |}).
  assert (stores_hold root seed stores' bundles' (chain ++ fresh (rest0 ++ more))) as HS'.
  { split; cbn [trusted_policy_dir rollout_dir stores'].
    - by rewrite (store_eta _ _ (tpr_root _ _ _ Hpr')).
    - by rewrite (health_eta _ _ (thr_root _ _ _ _ Hhr')).
    - exists []. by rewrite app_nil_r, map_app, fresh_bundles. }
  destruct (last bundles') as [t|] eqn:El; [|by apply last_None in El].
  destruct (policy_health_loads _ _ _ _ _ t HS') as (ph & snap' & Hph & Hs' & H1 & H2 & H3);
    [by rewrite map_app, fresh_bundles|done|]. rewrite Hsnap in Hs'. injection Hs' as <-.
  exists (rest0 ++ more), snap, stores', ph. split; [done|]. split; [|split; [done|split; [done|split; [by rewrite H1|split; [|done]]]]].
  - unfold import_rollout_trusted_policy. cbn [negb fail_if rbind]. rewrite Hroot. cbn [rbind]. rewrite Hpo. cbn [map_err rbind].
    rewrite Himp. cbn [map_err]. unfold tp_bundle_chain. rewrite (tpr_root _ _ _ Hpr'), (chain_read _ _ _ Hpr'). cbn [map_err rbind].
    rewrite Hho. cbn [map_err rbind]. rewrite Hsync. done.
  - destruct (last (chain ++ fresh (rest0 ++ more))) as [[t' c]|] eqn:El'; [|by unfold snapshot_of in Hsnap; rewrite El' in Hsnap].
    destruct (snapshot_of_last _ _ _ _ _ _ Hhr' El') as (snap' & Hs' & Hid). rewrite Hsnap in Hs'. injection Hs' as <-.
    assert (t = t') as ->; [|by rewrite H1].
    rewrite Hsplit in El. rewrite <-(fresh_bundles (rest0 ++ more)), <-map_app, last_map, El' in El. by injection El.
Qed.
End import.
