(* ===== verification/OperatorExample.v ===== *)
(** Concrete runs of the operator's commands: an installation that imports
    three bundles, and a device that is contained and recovers. *)

From stdpp Require Import base tactics list numbers strings.
From Stdlib Require Import Strings.Byte.
From S2P Require Import Prelude Crypto Text Identity Postcard Redb Rollout RolloutFacts ReleaseTrust ReleaseTrustFacts.
From S2P Require Import TrustedPolicy TrustedPolicyFacts TrustedHealth TrustedHealthFacts Activation ActivationFacts.
From S2P Require Import ActivationChain RolloutApproval ContainmentRecovery RolloutApprovalFacts RolloutOperator.
From S2P Require Import RolloutOperatorFacts OperatorRecovery OperatorImport.

Import RolloutExample TrustExample BundleExample HealthExample ActivationExample.
#[local] Existing Instances Toy.sha256_instance Toy.keyed_instance.
#[local] Existing Instances SortedTable.redb_instance SortedTable.redb_laws counters_codec.

(** * Serializers *)

#[local] Instance approval_content_codec : Codec DeviceRolloutApprovalContent :=
  iso_codec (fun c => (ap_version c, (ap_trusted_policy_bundle_id c, (ap_policy_id c, (ap_policy_epoch c, (ap_target c,
      (ap_disposition c, (ap_local_device_id c, (ap_expected_previous_record_id c, (ap_expected_previous_epoch c,
      (ap_candidate_activation_record c, ap_nonce c)))))))))))
    (fun '(v, (b, (p, (e, (t, (d, (l, (r, (pe, (c, n)))))))))) => Build_DeviceRolloutApprovalContent v b p e t d l r pe c n)
    ltac:(by intros []).
#[local] Instance approval_codec : Codec SignedDeviceRolloutApproval :=
  iso_codec (fun a => (approval_content a, approval_signature a)) (fun '(c, s) => Build_SignedDeviceRolloutApproval c s)
    ltac:(by intros []).
#[local] Instance approval_postcard : ApprovalPostcard :=
  {| pc_approval_content := codec_postcard; pc_approval := codec_postcard |}.

Lemma len_vec_enc (b : bytes) : (len b <= 1024)%N → len (codec_enc b) = (9 + len b)%N.
Proof.
  intros Hl. cbn [codec_enc vec_codec]. assert (1024 < U64_BOUND)%N by done. rewrite (proj2 (N.ltb_lt _ _)) by lia.
  rewrite len_cons, len_app. assert (len (to_be_bytes 8 (len b)) = 8%N) as -> by (unfold len; by rewrite length_to_be_bytes). lia.
Qed.

#[local] Instance approval_postcard_laws : ApprovalPostcardLaws approval_postcard.
Proof.
  split; try apply codec_postcard_laws.
  intros [[v b p e t d l r pe c n] s] bs Hb%(inj Some) Hc Hs. cbn [approval_content ap_candidate_activation_record approval_signature] in *. subst bs.
  change (codec_enc (Build_SignedDeviceRolloutApproval _ _)) with ((codec_enc v ++ codec_enc b ++ codec_enc p ++ codec_enc e ++
    codec_enc t ++ codec_enc d ++ codec_enc l ++ codec_enc r ++ codec_enc pe ++ codec_enc c ++ codec_enc n) ++ codec_enc s).
  pose proof (len_option_enc r). rewrite !len_app, !len_u64_enc, !len_arr_enc, !len_vec_enc by done.
  change (len (codec_enc v)) with 1%N. change (len (codec_enc t)) with 1%N. change (len (codec_enc d)) with 1%N. lia.
Qed.

#[local] Instance binding_codec : Codec RecoveryHealthBinding :=
  iso_codec (fun b => (hb_policy_id b, (hb_release_artifact_id b, (hb_phase b, (hb_cohort b, hb_counters b)))))
    (fun '(p, (a, (ph, (c, k)))) => Build_RecoveryHealthBinding p a ph c k) ltac:(by intros []).
#[local] Instance recovery_content_codec : Codec ContainmentRecoveryContent :=
  iso_codec (fun c => (rc_version c, (rc_trusted_policy_bundle_id c, (rc_health c, (rc_local_device_id c, (rc_containment_record_id c,
      (rc_containment_epoch c, (rc_canonical_evidence_id c, (rc_candidate_activation_record c, rc_nonce c)))))))))
    (fun '(v, (b, (h, (l, (r, (e, (ev, (c, n)))))))) => Build_ContainmentRecoveryContent v b h l r e ev c n)
    ltac:(by intros []).
#[local] Instance recovery_codec : Codec SignedContainmentRecoveryApproval :=
  iso_codec (fun a => (recovery_content a, recovery_signature a)) (fun '(c, s) => Build_SignedContainmentRecoveryApproval c s)
    ltac:(by intros []).
#[local] Instance recovery_postcard : RecoveryPostcard :=
  {| pc_recovery_content := codec_postcard; pc_recovery := codec_postcard |}.

#[local] Instance recovery_postcard_laws : RecoveryPostcardLaws recovery_postcard.
Proof.
  split; try apply codec_postcard_laws.
  intros [[v b [hp ha hph hc [c1 c2 c3 c4 c5 c6 c7 c8 c9 c10 c11 c12 c13 c14]] l r e ev c n] s] bs Hb%(inj Some) Hc Hs.
  cbn [recovery_content rc_candidate_activation_record recovery_signature] in *. subst bs.
  change (codec_enc (Build_SignedContainmentRecoveryApproval _ _)) with ((codec_enc v ++ codec_enc b ++
    (codec_enc hp ++ codec_enc ha ++ codec_enc hph ++ codec_enc hc ++
     codec_enc c1 ++ codec_enc c2 ++ codec_enc c3 ++ codec_enc c4 ++ codec_enc c5 ++ codec_enc c6 ++ codec_enc c7 ++
     codec_enc c8 ++ codec_enc c9 ++ codec_enc c10 ++ codec_enc c11 ++ codec_enc c12 ++ codec_enc c13 ++ codec_enc c14) ++
    codec_enc l ++ codec_enc r ++ codec_enc e ++ codec_enc ev ++ codec_enc c ++ codec_enc n) ++ codec_enc s).
  rewrite !len_app, !len_u64_enc, !len_u16_enc, !len_arr_enc, !len_vec_enc by done.
  change (len (codec_enc v)) with 1%N. change (len (codec_enc hph)) with 1%N. lia.
Qed.

(** * The installation *)

Definition hex_text (id : arr 32) : str := ascii_str (encode_hex id).
Definition root_text : str := hex_text root.

Lemma hex_text_bytes id : as_bytes (hex_text id) = encode_hex id.
Proof.
  unfold hex_text, ascii_str. destruct (from_utf8_valid (encode_hex id)) as [t Ht].
  - apply ascii_utf8, printable_ascii. unfold encode_hex. apply hex_lower_printable.
  - rewrite Ht. by apply from_utf8_Some.
Qed.

Lemma root_parses : parse_release_trust_root root_text = Ok root.
Proof. unfold parse_release_trust_root. rewrite (decode_hex_id root root_text (hex_text_bytes root)). done. Qed.

Lemma artifact_reads bs maximum :
  (0 < len bs <= maximum)%N → (maximum < U64_BOUND)%N → read_bounded_operator_artifact (file_of bs) maximum = Ok bs.
Proof.
  intros Hl Hm. unfold read_bounded_operator_artifact, file_of. cbn [input_metadata input_bytes input_after is_real_file file_len ok_or rbind negb fail_if].
  rewrite usize_try_from_id, as_u64_small by lia. cbn [ok_or rbind]. rewrite !(proj2 (N.leb_le _ _)) by lia. cbn [andb negb fail_if rbind].
  by rewrite (proj2 (u64_eqb_eq _ _) eq_refl), N.eqb_refl.
Qed.

(** A policy that lets devices accept sessions. *)
Definition accepting : TrustedReleasePolicyBundle :=
  Eval vm_compute in bundle_or (bundle_issue_successor root genesis operational canary artifact AcceptCanary NormalPolicy (as_u16 60)).

Lemma both_stores pst hst bundles chain :
  tp_refines root pst bundles → th_refines root installation_seed hst chain → bundles = map fst chain →
  ∃ stores, stores_hold root installation_seed stores bundles chain.
Proof.
  intros Hp Hh Hb. exists {| trusted_policy_dir := Some pst.(tp_database); rollout_dir := Some hst.(th_database) |}.
  split; cbn [trusted_policy_dir rollout_dir].
  - by rewrite (store_eta _ _ (tpr_root _ _ _ Hp)).
  - by rewrite (health_eta _ _ (thr_root _ _ _ _ Hh)).
  - exists []. by rewrite app_nil_r.
Qed.

Lemma health_of bundles :
  validate_bundle_chain bundles root = Ok tt → distinct_ids bundles = true →
  ∃ st, th_refines root installation_seed st (fresh bundles).
Proof.
  intros Hv Hd. destruct health0 as [st HR]. destruct (proj1 (validate_bundle_chain_ok _ _) Hv) as [Ha Hl].
  destruct (activate_all_next root installation_seed st [] bundles [] HR) as (st' & _ & HR'); rewrite ?app_nil_r.
  - exact Ha.
  - exact (proj2 Hl).
  - exact (distinct_ids_NoDup _ Hd).
  - exists st'. exact HR'.
Qed.

(** A stop after the canary. *)
Lemma stop_stores : ∃ stores, stores_hold root installation_seed stores [hold; canary; stop] (fresh [hold; canary; stop]).
Proof.
  destruct store3 as (pst & _ & Hp).
  destruct (health_of [hold; canary; stop] example_chain_valid) as [hst Hh]; [vm_compute; reflexivity|].
  exact (both_stores pst hst _ _ Hp Hh eq_refl).
Qed.

(** The accepting policy, with a start and a completed session. *)
Definition well : RolloutHealthCounters :=
  Eval vm_compute in with_counter CanonicalSyncCompleted (as_u64 1) (with_counter RuntimeStartSucceeded (as_u64 1) counters_default).
Definition healthy_chain : list (TrustedReleasePolicyBundle * RolloutHealthCounters) := fresh [hold; canary] ++ [(accepting, well)].

Definition counts_to (chain : list (TrustedReleasePolicyBundle * RolloutHealthCounters)) (event : RolloutHealthEvent)
    (chain' : list (TrustedReleasePolicyBundle * RolloutHealthCounters)) : bool :=
  match bundle_id accepting with
  | Ok id => match spec_record chain id event with Ok (_, l) => bool_decide (l = chain') | Err _ => false end
  | Err _ => false
  end.

Lemma count st chain event chain' :
  th_refines root installation_seed st chain → counts_to chain event chain' = true →
  ∃ st', th_refines root installation_seed st' chain'.
Proof.
  intros HR Hc. unfold counts_to in Hc. destruct (bundle_id accepting) as [id|]; [|discriminate Hc].
  pose proof (count_spec root installation_seed st chain id event HR) as Hr. destruct (spec_record chain id event) as [[h l]|]; [|discriminate Hc].
  apply bool_decide_eq_true in Hc. subst l. destruct Hr as (st' & _ & HR'). exists st'. exact HR'.
Qed.

Lemma healthy_stores : ∃ stores, stores_hold root installation_seed stores [hold; canary; accepting] healthy_chain.
Proof.
  destruct store2 as (st & Hr & HR). destruct (example_import st [hold; canary] accepting [hold; canary; accepting]) as (o & pst & _ & _ & Hp);
    [assumption|assumption|by vm_compute|by vm_compute|by vm_compute|by vm_compute|].
  destruct (health_of [hold; canary; accepting]) as [h0 H0]; [vm_cast_no_check (eq_refl (Ok (E:=TrustedHealthError) tt))|vm_compute; reflexivity|].
  destruct (count _ _ RuntimeStartSucceeded (fresh [hold; canary] ++ [(accepting, with_counter RuntimeStartSucceeded (as_u64 1) counters_default)]) H0)
    as [h1 H1]; [vm_compute; reflexivity|].
  destruct (count _ _ CanonicalSyncCompleted healthy_chain H1) as [h2 H2]; [vm_compute; reflexivity|].
  exact (both_stores pst h2 _ _ Hp H2 eq_refl).
Qed.

(** * The device *)

Definition contact : path * bytes := ([RUNTIME_STATE_DIRECTORY; b_str "contacts"; b_str "peer.contact"], b_str "x").
Definition directory_of (l : list ActivationRecord) : StateDirectory := {|
  runtime_records := map file_of_record l ++ [contact];
  high_water_file := match head l with
                     | Some r => match hw_issue key r with Ok w => Some (hw_encode w) | Err _ => None end
                     | None => None
                     end
|}.

Lemma directory_settled l : achain key l → settled key (directory_of l) l.
Proof.
  intros Hc. split.
  - split; [done|]. exists [contact]. split; [done|]. constructor; [|constructor]. exists (ascii_str (b_str "peer.contact")). by split.
  - destruct l as [|r l]; [done|]. destruct (achain_signed _ _ _ Hc) as [Hs Hd]. destruct (hw_issue_ok key r Hs Hd) as (w & Hw & Hm).
    exists w. split; [|done]. cbn [directory_of high_water_file head]. by rewrite Hw.
Qed.

Definition serving : StateDirectory := directory_of [observe; accept; advertise].
Definition contained_dir : StateDirectory := directory_of [contain; observe; accept; advertise].
Definition nonce : arr 32 := arr_repeat 32 x44.

Lemma serving_settled : settled key serving [observe; accept; advertise].
Proof. apply directory_settled. exact (achain_suffix key [recover; contain] _ records_chain). Qed.
Lemma contained_settled : settled key contained_dir [contain; observe; accept; advertise].
Proof. apply directory_settled. exact (achain_suffix key [recover] _ records_chain). Qed.
Lemma serving_head : load_authoritative_activation_head serving (device_id key) = Ok (Some observe).
Proof. exact (authority_read _ _ _ serving_settled). Qed.
Lemma contained_head : load_authoritative_activation_head contained_dir (device_id key) = Ok (Some contain).
Proof. exact (authority_read _ _ _ contained_settled). Qed.

(** ** The approval *)

(** What [operator_follows_proposal] asks of the newest bundle and its health. *)
Definition can_follow (b : TrustedReleasePolicyBundle) chain (h : ActivationRecord) : bool :=
  match snapshot_of installation_seed chain, rollout_current_state_from_head (Some h), bundle_id b with
  | Some snap, Ok current, Ok bid =>
      match evaluate_rollout_controller (Some snap.(ts_evaluation)) (Some snap.(ts_health)) current with
      | Ok decision =>
          is_proposal decision && negb (uint_val snap.(ts_evaluation).(ce_policy_epoch) =? 0)%N &&
          bool_decide (Forall (fun id => id ≠ zero32) [bid; snap.(ts_evaluation).(ce_policy_id); device_id key; nonce]) &&
          match proposal_from_decision decision with
          | Ok p =>
              match record_issue key (Some h) (migration_state_of p.(pr_target)) (activation_disposition p.(pr_disposition))
                      ReleasePolicy h.(canonical_evidence_id) (approval_reason p.(pr_policy_id) bid) with
              | Ok r => bool_decide (record_hash h ≠ record_hash r)
              | Err _ => false
              end
          | Err _ => false
          end
      | Err _ => false
      end
  | _, _, _ => false
  end.

Lemma stop_followed : can_follow stop (fresh [hold; canary; stop]) observe = true.
Proof. vm_compute. reflexivity. Qed.

(** The conditions of the liveness property for a record and a decision. *)
Definition follows stores ph (h : ActivationRecord) current decision bid : Prop :=
  load_required_rollout_policy_health stores root = Ok ph ∧
  rollout_current_state_from_head (Some h) = Ok current ∧
  evaluate_rollout_controller (Some ph.(ph_evaluation)) (Some ph.(ph_health)) current = Ok decision ∧
  is_proposal decision = true ∧ bundle_id ph.(ph_bundle) = Ok bid ∧ uint_val ph.(ph_evaluation).(ce_policy_epoch) ≠ 0%N ∧
  Forall (fun id => id ≠ zero32) [bid; ph.(ph_evaluation).(ce_policy_id); device_id key; nonce] ∧
  (∀ r p, proposal_from_decision decision = Ok p →
    record_issue key (Some h) (migration_state_of p.(pr_target)) (activation_disposition p.(pr_disposition))
      ReleasePolicy h.(canonical_evidence_id) (approval_reason p.(pr_policy_id) bid) = Ok r →
    record_hash h ≠ record_hash r).

Lemma follow_setup stores bundles chain b h :
  stores_hold root installation_seed stores bundles chain → bundles = map fst chain → last bundles = Some b →
  can_follow b chain h = true → ∃ ph current decision bid, follows stores ph h current decision bid.
Proof.
  intros HS Heq El Hf. destruct (policy_health_loads _ _ _ _ _ b HS Heq El) as (ph & snap & Hph & Hs & Hb & He & Hh).
  unfold can_follow in Hf. rewrite Hs in Hf.
  destruct (rollout_current_state_from_head (Some h)) as [current|] eqn:Hc; [|discriminate Hf].
  destruct (bundle_id b) as [bid|] eqn:Hbid; [|discriminate Hf]. rewrite <-He, <-Hh in Hf.
  destruct (evaluate_rollout_controller (Some ph.(ph_evaluation)) (Some ph.(ph_health)) current) as [decision|] eqn:Hd; [|discriminate Hf].
  apply andb_true_iff in Hf as [Hf Hr]. apply andb_true_iff in Hf as [Hf Hz%bool_decide_eq_true].
  apply andb_true_iff in Hf as [Hp Hep%negb_true_iff%N.eqb_neq].
  exists ph, current, decision, bid. unfold follows. rewrite Hb. split_and!; try done.
  intros r p Hp' Hi. rewrite Hp', Hi in Hr. by apply bool_decide_eq_true in Hr.
Qed.

Lemma approval_setup : ∃ stores ph current decision bid, follows stores ph observe current decision bid.
Proof. destruct stop_stores as [stores HS]. exists stores. exact (follow_setup _ _ _ _ _ HS eq_refl eq_refl stop_followed). Qed.

Lemma approval_limit : (MAX_DEVICE_ROLLOUT_APPROVAL_BYTES < U64_BOUND)%N.
Proof. vm_compute. reflexivity. Qed.

(** The planned approval, applied. *)
Lemma approval_carried_out :
  ∃ stores file confirmation r,
    (apply_rollout_approval key stores root_text file confirmation serving).(answer) = Ok (r, Stored Inserted, false).
Proof.
  destruct approval_setup as (stores & ph & current & decision & bid & Hph & Hc & Hd & Hp & Hb & He & Hz & Hr).
  destruct (follow_proposal key stores root_text root serving (Some observe) ph current decision bid nonce
    serving_head root_parses Hph Hc Hd Hp Hb ltac:(vm_compute; reflexivity) He Hz) as (bs & a & id & r & _ & Hdec & _ & _ & (p & Hp' & Hi) & Happ).
  exists stores, (file_of bs), (hex_text id), r. apply Happ; [|apply hex_text_bytes|].
  - apply approval_decode_exact in Hdec as [_ Henc]. apply approval_encode_ok in Henc as (_ & _ & Hl). exact (artifact_reads _ _ Hl approval_limit).
  - intros q [= <-]. exact (Hr r p Hp' Hi).
Qed.


Lemma approval_apply_restartable_witness :
  ∃ stores file confirmation r mid fin,
    apply_rollout_approval key stores root_text file confirmation serving =
      {| answer := Ok (r, Stored Inserted, false); writes := [mid; fin] |} ∧
    apply_rollout_approval key stores root_text file confirmation mid =
      {| answer := Ok (r, AlreadyAuthoritative, true); writes := [fin] |} ∧
    load_authoritative_activation_head fin (device_id key) = Ok (Some r).
Proof.
  destruct approval_carried_out as (stores & file & confirmation & r & Hrun). exists stores, file, confirmation.
  destruct (approval_apply_restartable key stores root_text file confirmation serving (Some observe) serving_head)
    as [[_ Hq]|(r' & mid & fin & H1 & _ & H2 & _ & H3)].
  - destruct (Hq _ _ _ Hrun) as [Hx _]. discriminate Hx.
  - exists r', mid, fin. split; [exact H1|]. split; [exact H2|exact H3].
Defined.

Lemma approval_follows_controller_witness :
  ∃ stores file confirmation r target disposition,
    (apply_rollout_approval key stores root_text file confirmation serving).(answer) = Ok (r, Stored Inserted, false) ∧
    view_of r = {| vw_state := migration_state_of target; vw_disposition := activation_disposition disposition;
                   vw_evidence := Some evidence |}.
Proof.
  destruct approval_carried_out as (stores & file & confirmation & r & Hrun). exists stores, file, confirmation.
  destruct (approval_follows_controller key stores root_text file confirmation serving (Some observe) serving_head)
    as (r' & root' & bs & a & id & ph & current & target & disp & H1 & _ & _ & _ & _ & _ & _ & _ & _ & _ & H2).
  - intros Hw. destruct (apply_on_settled key stores root_text file confirmation serving _ serving_settled) as [[_ Hq]|(r0 & a & ph & r' & Hin & Hready)].
    + destruct (Hq _ _ _ Hrun) as [Hx _]. discriminate Hx.
    + destruct (apply_on_ready _ _ _ _ _ _ _ _ _ _ _ Hin serving_settled Hready) as (w & _ & _ & Hr). rewrite Hr in Hw. discriminate Hw.
  - exists r', target, disp. split; [exact H1|exact H2].
Defined.

(** ** The recovery *)

Definition can_recover (b : TrustedReleasePolicyBundle) chain (h : ActivationRecord) : bool :=
  match snapshot_of installation_seed chain, rollout_current_state_from_head (Some h), bundle_id b with
  | Some snap, Ok _, Ok bid =>
      match validate_health b snap.(ts_health), validate_containment (device_id key) h b.(bundle_policy).(policy_content).(rp_phase),
            recovery_prepare key root b snap.(ts_health) h RecoveryApproved (Some nonce) with
      | Ok _, Ok _, Ok a =>
          bool_decide (Forall (fun id => id ≠ zero32)
            [bid; snap.(ts_health).(hs_policy_id); snap.(ts_health).(hs_artifact); device_id key; record_hash h; evidence; nonce]) &&
          match recovery_candidate a with Ok r => bool_decide (record_hash h ≠ record_hash r) | Err _ => false end
      | _, _, _ => false
      end
  | _, _, _ => false
  end.

Lemma accepting_recovers : can_recover accepting healthy_chain contain = true.
Proof. vm_compute. reflexivity. Qed.
Lemma accepting_verifies : bundle_verify accepting root = Ok tt.
Proof. vm_cast_no_check (eq_refl (Ok (E:=TrustedPolicyError) tt)). Qed.

Definition may_recover stores ph (h : ActivationRecord) current bid : Prop :=
  load_required_rollout_policy_health stores root = Ok ph ∧ bundle_verify ph.(ph_bundle) root = Ok tt ∧
  validate_health ph.(ph_bundle) ph.(ph_health) = Ok tt ∧
  validate_containment (device_id key) h ph.(ph_bundle).(bundle_policy).(policy_content).(rp_phase) = Ok tt ∧
  rollout_current_state_from_head (Some h) = Ok current ∧ bundle_id ph.(ph_bundle) = Ok bid ∧
  Forall (fun id => id ≠ zero32)
    [bid; ph.(ph_health).(hs_policy_id); ph.(ph_health).(hs_artifact); device_id key; record_hash h; evidence; nonce] ∧
  ∀ a r, recovery_prepare key root ph.(ph_bundle) ph.(ph_health) h RecoveryApproved (Some nonce) = Ok a →
    recovery_candidate a = Ok r → record_hash h ≠ record_hash r.

Lemma recover_setup stores bundles chain b h :
  stores_hold root installation_seed stores bundles chain → bundles = map fst chain → last bundles = Some b →
  bundle_verify b root = Ok tt → can_recover b chain h = true → ∃ ph current bid, may_recover stores ph h current bid.
Proof.
  intros HS Heq El Hv Hf. destruct (policy_health_loads _ _ _ _ _ b HS Heq El) as (ph & snap & Hph & Hs & Hb & He & Hh).
  unfold can_recover in Hf. rewrite Hs in Hf.
  destruct (rollout_current_state_from_head (Some h)) as [current|] eqn:Hc; [|discriminate Hf].
  destruct (bundle_id b) as [bid|] eqn:Hbid; [|discriminate Hf]. rewrite <-Hh in Hf.
  destruct (validate_health b ph.(ph_health)) as [[]|] eqn:H1; [|discriminate Hf].
  destruct (validate_containment _ _ _) as [[]|] eqn:H2; [|discriminate Hf].
  destruct (recovery_prepare _ _ _ _ _ _ _) as [a|] eqn:H3; [|discriminate Hf].
  apply andb_true_iff in Hf as [Hz%bool_decide_eq_true Hr].
  exists ph, current, bid. unfold may_recover. rewrite Hb. split_and!; try done.
  intros a' r Ha Hcand. rewrite H3 in Ha. apply Ok_inj in Ha. subst a'. rewrite Hcand in Hr. by apply bool_decide_eq_true in Hr.
Qed.

Lemma recovery_setup : ∃ stores ph current bid, may_recover stores ph contain current bid.
Proof.
  destruct healthy_stores as [stores HS]. exists stores.
  exact (recover_setup _ _ _ _ _ HS eq_refl eq_refl accepting_verifies accepting_recovers).
Qed.

Lemma recovery_limit : (MAX_CONTAINMENT_RECOVERY_APPROVAL_BYTES < U64_BOUND)%N.
Proof. vm_compute. reflexivity. Qed.

Lemma recovery_carried_out :
  ∃ stores file confirmation r,
    (apply_rollout_recovery key stores root_text file confirmation contained_dir).(answer) = Ok (r, Stored Inserted, false).
Proof.
  destruct recovery_setup as (stores & ph & current & bid & Hph & Hv & Hh & Hcn & Hc & Hb & Hz & Hr).
  destruct (follow_recovery key stores root_text root contained_dir contain current ph evidence bid nonce
    contained_head root_parses Hph Hv Hh Hcn Hc eq_refl Hb ltac:(vm_compute; reflexivity) Hz) as (bs & a & id & r & _ & Hdec & _ & Hcand & Hp & Happ).
  exists stores, (file_of bs), (hex_text id), r. apply Happ; [|apply hex_text_bytes|exact (Hr a r Hp Hcand)].
  apply recovery_decode_exact in Hdec as [_ Henc]. apply recovery_encode_ok in Henc as (_ & _ & Hl). exact (artifact_reads _ _ Hl recovery_limit).
Qed.

Lemma operator_recovers_witness :
  ∃ stores bs a id r, plan_rollout_recovery key stores root_text None true (Some nonce) contained_dir = Ok bs ∧
    recovery_decode_and_verify bs (device_id key) = Ok a ∧ recovery_id a = Ok id ∧
    (apply_rollout_recovery key stores root_text (file_of bs) (hex_text id) contained_dir).(answer) = Ok (r, Stored Inserted, false).
Proof.
  destruct recovery_setup as (stores & ph & current & bid & Hph & Hv & Hh & Hcn & Hc & Hb & Hz & Hr).
  destruct (operator_recovers key stores root_text root contained_dir contain current ph evidence bid nonce
    contained_head root_parses Hph Hv Hh Hcn Hc eq_refl Hb ltac:(vm_compute; reflexivity) Hz) as (bs & a & id & r & Hplan & Hdec & Hid & Hcand & Hp & Happ).
  exists stores, bs, a, id, r. split; [exact Hplan|]. split; [exact Hdec|]. split; [exact Hid|].
  apply Happ; [|apply hex_text_bytes|exact (Hr a r Hp Hcand)].
  apply recovery_decode_exact in Hdec as [_ Henc]. apply recovery_encode_ok in Henc as (_ & _ & Hl). exact (artifact_reads _ _ Hl recovery_limit).
Defined.

Lemma recovery_apply_restartable_witness :
  ∃ stores file confirmation r mid fin,
    apply_rollout_recovery key stores root_text file confirmation contained_dir =
      {| answer := Ok (r, Stored Inserted, false); writes := [mid; fin] |} ∧
    apply_rollout_recovery key stores root_text file confirmation mid =
      {| answer := Ok (r, AlreadyAuthoritative, true); writes := [fin] |} ∧
    load_authoritative_activation_head fin (device_id key) = Ok (Some r).
Proof.
  destruct recovery_carried_out as (stores & file & confirmation & r & Hrun). exists stores, file, confirmation.
  destruct (recovery_apply_restartable key stores root_text file confirmation contained_dir (Some contain) contained_head)
    as [[_ Hq]|(r' & mid & fin & H1 & _ & H2 & _ & H3)].
  - destruct (Hq _ _ _ Hrun) as [Hx _]. discriminate Hx.
  - exists r', mid, fin. split; [exact H1|]. split; [exact H2|exact H3].
Defined.

Lemma recovery_restores_exactly_witness :
  ∃ stores file confirmation r,
    (apply_rollout_recovery key stores root_text file confirmation contained_dir).(answer) = Ok (r, Stored Inserted, false) ∧
    view_of r = {| vw_state := DualReaderPreferLegacy; vw_disposition := Normal; vw_evidence := Some evidence |}.
Proof.
  destruct recovery_carried_out as (stores & file & confirmation & r & Hrun). exists stores, file, confirmation.
  destruct (proj2 (recovery_restores_exactly key stores root_text file confirmation contained_dir (Some contain) contained_head))
    as (r' & p & root' & ph & e & H1 & Hp & _ & He & _ & _ & _ & _ & _ & _ & _ & _ & H2).
  - intros Hw. destruct (recover_on_settled key stores root_text file confirmation contained_dir _ contained_settled) as [[_ Hq]|(r0 & a & ph & r' & Hin & Hready)].
    + destruct (Hq _ _ _ Hrun) as [Hx _]. discriminate Hx.
    + destruct (recover_on_ready _ _ _ _ _ _ _ _ _ _ _ Hin contained_settled Hready) as (w & _ & _ & Hr). rewrite Hr in Hw. discriminate Hw.
  - exists r'. split; [exact H1|]. injection Hp as <-. injection He as <-. exact H2.
Defined.

(** ** A direct activation *)

Definition request : ActivationRequest := {|
  rq_migration_state := DualReaderPreferCanonical; rq_disposition := Normal; rq_actor := ExplicitLocal;
  rq_evidence := Some (hex_text evidence); rq_reason := why
|}.

Lemma activation_planned : ∃ r, plan_activation key request serving = Ok r.
Proof.
  assert (is_ok (plan_activation key request serving) = true) as H by (vm_compute; reflexivity).
  destruct (plan_activation key request serving) as [r|]; [exists r; reflexivity|discriminate H].
Qed.

Lemma activation_apply_restartable_witness :
  ∃ r mid fin, plan_activation key request serving = Ok r ∧
    apply_activation key request (hex_text (record_hash r)) serving = {| answer := Ok (Some Inserted); writes := [mid; fin] |} ∧
    apply_activation key request (hex_text (record_hash r)) mid = {| answer := Ok None; writes := [fin] |}.
Proof.
  destruct activation_planned as [r Hr].
  destruct (activation_apply_restartable key request (hex_text (record_hash r)) serving (Some observe) r serving_head Hr (hex_text_bytes _))
    as (mid & fin & H1 & _ & H2 & _ & _).
  exists r, mid, fin. split; [exact Hr|]. split; [exact H1|exact H2].
Defined.

(** The contained device, activated directly. *)
Definition normal_request : ActivationRequest := {|
  rq_migration_state := DualReaderPreferLegacy; rq_disposition := Normal; rq_actor := ReleasePolicy;
  rq_evidence := Some (hex_text evidence); rq_reason := why
|}.

Lemma direct_activation_leaves_containment_witness :
  ∃ r mid fin, plan_activation key normal_request contained_dir = Ok r ∧ r.(disposition) = Normal ∧
    apply_activation key normal_request (hex_text (record_hash r)) contained_dir =
      {| answer := Ok (Some Inserted); writes := [mid; fin] |} ∧
    load_authoritative_activation_head fin (device_id key) = Ok (Some r).
Proof.
  assert (request_evidence normal_request = Ok contain.(canonical_evidence_id)) as He.
  { unfold request_evidence, normal_request. cbn [rq_evidence]. by rewrite (decode_hex_id evidence _ (hex_text_bytes evidence)). }
  destruct (direct_activation_leaves_containment key normal_request contained_dir contain contained_head)
    as (r & Hplan & _ & Hv & Happ); [vm_compute; reflexivity..|exact He|vm_compute; reflexivity|].
  destruct (Happ (hex_text (record_hash r)) (hex_text_bytes _)) as (mid & fin & Hrun & Hfin).
  exists r, mid, fin. injection Hv as _ Hd _. by split_and!.
Defined.

(** ** An import that was interrupted *)

(** The policy store has the canary, the health store only the hold. *)
Lemma behind_stores : ∃ stores, stores_hold root installation_seed stores [hold; canary] (fresh [hold]) ∧ stores.(rollout_dir) ≠ None.
Proof.
  destruct store2 as (pst & _ & Hp). destruct (health_of [hold] hold_only_valid) as [hst Hh]; [vm_compute; reflexivity|].
  exists {| trusted_policy_dir := Some pst.(tp_database); rollout_dir := Some hst.(th_database) |}. split; [|discriminate].
  split; cbn [trusted_policy_dir rollout_dir].
  - rewrite (store_eta _ _ (tpr_root _ _ _ Hp)). exact Hp.
  - rewrite (health_eta _ _ (thr_root _ _ _ _ Hh)). exact Hh.
  - exists [canary]. reflexivity.
Qed.

Lemma stop_appended : ∃ o, spec_import [hold; canary] stop = Ok (o, [hold; canary; stop]).
Proof.
  assert (match spec_import [hold; canary] stop with Ok (_, l) => bool_decide (l = [hold; canary; stop]) | Err _ => false end = true) as Hs by (by vm_compute).
  destruct (spec_import [hold; canary] stop) as [[o l]|]; [|discriminate Hs]. apply bool_decide_eq_true in Hs. subst l. by exists o.
Qed.
Lemma stop_file : read_bounded_real_file (file_of (encoded stop)) = Ok (encoded stop).
Proof. vm_cast_no_check (eq_refl (Ok (E:=TrustedPolicyStoreError) (encoded stop))). Qed.

Lemma import_settles_stores_witness :
  ∃ stores o snap stores' ph, stores_hold root installation_seed stores [hold; canary] (fresh [hold]) ∧
    import_rollout_trusted_policy stores root_text (file_of (encoded stop)) true None = (Ok (o, snap), stores') ∧
    load_required_rollout_policy_health stores' root = Ok ph ∧ ph.(ph_evaluation) = snap.(ts_evaluation).
Proof.
  destruct behind_stores as (stores & HS & Hn). destruct stop_appended as [o Ho].
  destruct (import_settles_stores root installation_seed stores _ _ root_text _ _ stop o _ None HS root_parses stop_file stop_decodes Ho
    example_ids_distinct) as (rest & snap & stores' & ph & _ & H1 & _ & H2 & _ & _ & H3 & _).
  - intros Hx. destruct (Hn Hx).
  - exists stores, o, snap, stores', ph. split; [exact HS|]. split; [exact H1|]. split; [exact H2|exact H3].
Defined.

(** A confirmation is not read as strictly as its message says: a plus sign
    passes for a digit. *)
Lemma plus_sign_accepted :
  ∃ value : str, decode_hex_32 value = Ok (arr_repeat 32 x0f) ∧ as_bytes value ≠ encode_hex (arr_repeat 32 x0f) ∧
    hd x00 (as_bytes value) = x2b.
Proof.
  exists (ascii_str (concat (repeat [x2b; x66] 32))). split; [|split; [|reflexivity]].
  - assert (match decode_hex_32 (ascii_str (concat (repeat [x2b; x66] 32))) with Ok v => bool_decide (v = arr_repeat 32 x0f) | Err _ => false end = true)
      as H by (vm_compute; reflexivity).
    destruct (decode_hex_32 _) as [v|]; [|discriminate H]. apply bool_decide_eq_true in H. by subst v.
  - by vm_compute.
Qed.
