(* ===== verification/FileTree.v ===== *)
(** The file system as the state transactions of [kilogram-state] see it.

    A [tree] maps the paths below the state directory to directories and
    files; the directory itself is the path [[]] and always exists.  An
    [action] reads the tree and lists the operations it performs, in their
    order.  A file that [kilogram-state] has written it makes durable with
    [sync_all] before it goes on; creations and removals become durable in the
    order in which they are made, as on a file system that journals its
    metadata.  A crash therefore leaves the operations before some point done,
    and at most the one at that point torn ([crashed]).  The order in which
    [read_dir] lists a directory and in which [remove_dir_all] removes a tree is
    the platform's ([FileSystem]); the laws are what the standard library
    documents.  There are no symbolic links in a tree, and the storage device
    does not fail. *)

From stdpp Require Import base tactics list numbers strings gmap.
From Stdlib Require Import Strings.Byte.
From S2P Require Import Prelude.

(** * Trees *)

Abbreviation name := bytes.
Abbreviation path := (list name).

#[export] Instance path_eq_dec : EqDecision path | 0 := list_eq_dec.
#[export] Instance path_countable : Countable path | 0 := list_countable.

Inductive node := Dir | File (content : bytes).

#[export] Instance node_eq_dec : EqDecision node.
Proof. solve_decision. Defined.

Abbreviation tree := (gmap path node).

Definition lookup_node (t : tree) (p : path) : option node :=
  match p with [] => Some Dir | _ => t !! p end.

Definition parent (p : path) : path := take (length p - 1) p.

Definition is_child (p q : path) : bool := bool_decide (p = parent q) && negb (bool_decide (q = [])).

(** The names in a directory. *)
Definition children (t : tree) (p : path) : list name :=
  omap (fun kv => if is_child p kv.1 then last kv.1 else None) (map_to_list t).

(** The paths of a subtree. *)
Definition subtree (t : tree) (p : path) : list path :=
  filter (fun q => p `prefix_of` q) (map_to_list t).*1.

(** * Durable operations *)

Inductive fsop :=
| Mkdir (p : path)
| Write (p : path) (content : bytes)
| Replace (p : path) (content : bytes)
| Remove (p : path).

Definition perform (op : fsop) (t : tree) : tree :=
  match op with
  | Mkdir p => <[p := Dir]> t
  | Write p c | Replace p c => <[p := File c]> t
  | Remove p => delete p t
  end.

Definition perform_all (ops : list fsop) (t : tree) : tree := foldl (fun t op => perform op t) t ops.

(** The names [NamedTempFile] gives its files. *)
Definition is_temporary (n : name) : Prop := b_str ".tmp" `prefix_of` n.

(** What an interrupted write leaves in a file it was writing from its start:
    a part of it, in which the bytes that did not reach the device are zero. *)
Definition torn_content (c c' : bytes) : Prop :=
  Forall2 (fun b a => b = a ∨ b = x00) c' (take (length c') c).

(** An operation that was interrupted: a file that was being written in place
    has a torn content, and a file that was to replace another may be left
    under its temporary name. *)
Inductive torn : fsop → tree → tree → Prop :=
| torn_write p c c' t : torn_content c c' → torn (Write p c) t (<[p := File c']> t)
| torn_replace p c n c' t :
    is_temporary n → t !! (parent p ++ [n]) = None →
    torn (Replace p c) t (<[parent p ++ [n] := File c']> t).

(** The trees a crash may leave. *)
Inductive crashed : list fsop → tree → tree → Prop :=
| crash_now ops t : crashed ops t t
| crash_torn op ops t t' : torn op t t' → crashed (op :: ops) t t'
| crash_later op ops t t' : crashed ops (perform op t) t' → crashed (op :: ops) t t'.

(** The same, with the operations that were done before the crash. *)
Inductive crashed_after : list fsop → list fsop → tree → tree → Prop :=
| after_none ops t : crashed_after [] ops t t
| after_torn op ops t t' : torn op t t' → crashed_after [] (op :: ops) t t'
| after_op op done ops t t' :
    crashed_after done ops (perform op t) t' → crashed_after (op :: done) (op :: ops) t t'.

(** * Actions *)

Record run (E A : Type) := { answer : result E A; ops : list fsop }.
Arguments answer {E A}. Arguments ops {E A}. Arguments Build_run {E A}.

Definition action (E A : Type) : Type := tree → run E A.

Definition final {E A : Type} (t : tree) (r : run E A) : tree := perform_all r.(ops) t.

Definition reads {E A : Type} (f : tree → result E A) : action E A := fun t => {| answer := f t; ops := [] |}.
Definition returns {E A : Type} (r : result E A) : action E A := reads (fun _ => r).
Definition emit {E} (op : fsop) : action E unit := fun _ => {| answer := Ok tt; ops := [op] |}.

Definition abind {E A B : Type} (m : action E A) (k : A → action E B) : action E B := fun t =>
  let r := m t in
  match r.(answer) with
  | Err e => {| answer := Err e; ops := r.(ops) |}
  | Ok a => let r' := k a (final t r) in {| answer := r'.(answer); ops := r.(ops) ++ r'.(ops) |}
  end.

Notation "'let*' x ':=' m 'in' k" := (abind m (fun x => k))
  (at level 10, x pattern, m at level 100, k at level 200,
   format "'let*'  x  ':='  m  'in' '//' k") : kg_scope.
Notation "m ;* k" := (abind m (fun _ => k))
  (at level 100, k at level 200, right associativity, format "m  ;* '//' k") : kg_scope.

(** A [for] loop. *)
Fixpoint for_each {E A : Type} (f : A → action E unit) (l : list A) : action E unit :=
  match l with
  | [] => returns (Ok tt)
  | a :: l => f a ;* for_each f l
  end.

(** * The platform *)

Class FileSystem := {
  (** The order in which [read_dir] lists the entries of a directory. *)
  read_order : tree → path → list name → list name;
  (** The order in which [remove_dir_all] removes a directory and what it
      holds. *)
  removal_order : tree → path → list path;
  (** [metadata.len()] of a directory. *)
  directory_len : N
}.

Class FileSystemLaws `{FileSystem} : Prop := {
  read_order_perm : ∀ t p l, read_order t p l ≡ₚ l;
  removal_order_perm : ∀ t p, removal_order t p ≡ₚ subtree t p;
  (** Only an empty directory can be removed. *)
  removal_order_leaves : ∀ t p i j q q',
    removal_order t p !! i = Some q → removal_order t p !! j = Some q' →
    q `prefix_of` q' → q ≠ q' → j < i
}.

(** * Calls of [std::fs] *)

Section calls.
Context {E : Type} (io : path → E) `{FileSystem}.

Definition path_exists (p : path) : action E bool :=
  reads (fun t => Ok (match lookup_node t p with Some _ => true | None => false end)).

Definition read_file (p : path) : action E bytes :=
  reads (fun t => match lookup_node t p with Some (File c) => Ok c | _ => Err (io p) end).

Definition is_file (p : path) : action E bool :=
  reads (fun t => match lookup_node t p with
                  | Some (File _) => Ok true | Some Dir => Ok false | None => Err (io p) end).

(** [read_dir]: each name with the kind of its entry. *)
Definition read_dir (p : path) : action E (list (name * node)) :=
  reads (fun t =>
    match lookup_node t p with
    | Some Dir =>
        Ok (omap (fun n => option_map (pair n) (t !! (p ++ [n]))) (read_order t p (children t p)))
    | _ => Err (io p)
    end).

Definition create_dir (p : path) : action E unit := fun t =>
  match lookup_node t (parent p), lookup_node t p with
  | Some Dir, None => emit (Mkdir p) t
  | _, _ => returns (Err (io p)) t
  end.

Fixpoint create_dir_all_from (base rest : path) : action E unit :=
  match rest with
  | [] => returns (Ok tt)
  | n :: rest =>
      let* entry := reads (fun t => Ok (lookup_node t (base ++ [n]))) in
      match entry with
      | Some Dir => create_dir_all_from (base ++ [n]) rest
      | Some (File _) => returns (Err (io (base ++ [n])))
      | None => create_dir (base ++ [n]) ;* create_dir_all_from (base ++ [n]) rest
      end
  end.
Definition create_dir_all (p : path) : action E unit := create_dir_all_from [] p.

(** Opens the file for writing, creating or truncating it, and writes. *)
Definition write_file (p : path) (content : bytes) : action E unit := fun t =>
  match lookup_node t (parent p), lookup_node t p with
  | Some Dir, (None | Some (File _)) => emit (Write p content) t
  | _, _ => returns (Err (io p)) t
  end.

(** [OpenOptions::create_new], and writes. *)
Definition write_new_file (p : path) (content : bytes) : action E unit := fun t =>
  match lookup_node t (parent p), lookup_node t p with
  | Some Dir, None => emit (Write p content) t
  | _, _ => returns (Err (io p)) t
  end.

(** [NamedTempFile::new_in(parent)], write, [persist(path)]. *)
Definition replace_file (p : path) (content : bytes) : action E unit := fun t =>
  match lookup_node t (parent p), lookup_node t p with
  | Some Dir, (None | Some (File _)) => emit (Replace p content) t
  | _, _ => returns (Err (io p)) t
  end.

Definition remove_file (p : path) : action E unit := fun t =>
  match lookup_node t p with
  | Some (File _) => emit (Remove p) t
  | _ => returns (Err (io p)) t
  end.

Definition remove_dir (p : path) : action E unit := fun t =>
  match p, lookup_node t p, children t p with
  | _ :: _, Some Dir, [] => emit (Remove p) t
  | _, _, _ => returns (Err (io p)) t
  end.

Definition remove_dir_all (p : path) : action E unit := fun t =>
  match p, lookup_node t p with
  | _ :: _, Some Dir => {| answer := Ok tt; ops := map Remove (removal_order t p) |}
  | _, _ => returns (Err (io p)) t
  end.
End calls.
