(* ===== verification/FileTreeFacts.v ===== *)
(** Reasoning about [action]s of [FileTree] under crashes.

    [wp I m Q t] says that the action [m], run on the tree [t], succeeds with a
    result and a tree that satisfy [Q], and that every tree a crash may leave
    on the way satisfies [I]: the crash condition of a crash Hoare logic.  The
    rules below cover the control structures and every call of [FileTree]. *)

From stdpp Require Import base tactics list numbers strings gmap.
From Stdlib Require Import Strings.Byte.
From S2P Require Import Prelude FileTree.

(** * Paths *)

Lemma parent_snoc p n : parent (p ++ [n]) = p.
Proof. unfold parent. rewrite length_app. cbn. by rewrite Nat.add_sub, take_app_length. Qed.

Lemma snoc_cases (q : path) : q = [] ∨ ∃ p n, q = p ++ [n].
Proof. destruct q as [|n q _] using rev_ind; [by left|right; by exists q, n]. Qed.

Lemma is_child_spec p q : is_child p q = true ↔ ∃ n, q = p ++ [n].
Proof.
  unfold is_child. rewrite andb_true_iff, negb_true_iff, bool_decide_eq_true, bool_decide_eq_false. split.
  - intros [-> Hq]. destruct (snoc_cases q) as [->|(p & n & ->)]; [done|]. rewrite parent_snoc. by exists n.
  - intros [n ->]. rewrite parent_snoc. split; [done|]. by destruct p.
Qed.

Lemma prefix_snoc_cases (p q : path) n : p `prefix_of` q ++ [n] → p `prefix_of` q ∨ p = q ++ [n].
Proof.
  intros [r Hr]. destruct (snoc_cases r) as [->|(r' & m & ->)]; [right; by rewrite app_nil_r in Hr|left].
  rewrite app_assoc in Hr. apply app_inj_tail in Hr as [-> _]. by exists r'.
Qed.

Lemma not_prefix_below (p : path) q : q ≠ [] → ¬ p ++ q `prefix_of` p.
Proof. intros Hq [r Hr]. rewrite <-app_assoc in Hr. rewrite <-(app_nil_r p) in Hr at 1. apply app_inv_head in Hr. by destruct q. Qed.

Lemma elem_of_children t p n : n ∈ children t p ↔ is_Some (t !! (p ++ [n])).
Proof.
  unfold children. rewrite list_elem_of_omap. split.
  - intros ([q x] & Hin & Hc). cbn in Hc. destruct (is_child p q) eqn:E; [|done].
    apply is_child_spec in E as [m ->]. rewrite last_snoc in Hc. injection Hc as ->.
    apply elem_of_map_to_list in Hin. by exists x.
  - intros [x Hx]. exists (p ++ [n], x). rewrite elem_of_map_to_list. split; [done|]. cbn.
    rewrite (proj2 (is_child_spec p (p ++ [n]))) by by exists n. by rewrite last_snoc.
Qed.

Lemma children_NoDup t p : NoDup (children t p).
Proof.
  unfold children. pose proof (NoDup_map_to_list t) as Hd. apply NoDup_fmap_fst in Hd; [|].
  - induction (map_to_list t) as [|[q x] l IH]; [constructor|]. cbn in *. apply NoDup_cons in Hd as [Hn Hd].
    destruct (is_child p q) eqn:E; [|by apply IH]. apply is_child_spec in E as [n ->]. rewrite last_snoc.
    apply NoDup_cons. split; [|by apply IH]. intros Hin. apply list_elem_of_omap in Hin as ([q' x'] & Hin & Hc). cbn in Hc.
    destruct (is_child p q') eqn:E'; [|done]. apply is_child_spec in E' as [n' ->]. rewrite last_snoc in Hc.
    injection Hc as ->. apply Hn, list_elem_of_fmap. by exists (p ++ [n], x').
  - intros q x y Hx Hy. apply elem_of_map_to_list in Hx, Hy. congruence.
Qed.

Lemma elem_of_subtree t p q : q ∈ subtree t p ↔ p `prefix_of` q ∧ is_Some (t !! q).
Proof.
  unfold subtree. rewrite list_elem_of_filter, list_elem_of_fmap. apply and_iff_compat_l. split.
  - intros ([q' x] & -> & Hin). apply elem_of_map_to_list in Hin. by exists x.
  - intros [x Hx]. exists (q, x). by rewrite elem_of_map_to_list.
Qed.

(** * Well-formed trees *)

Definition wf (t : tree) : Prop :=
  t !! [] = None ∧ ∀ p, is_Some (t !! p) → lookup_node t (parent p) = Some Dir.

Lemma lookup_node_ne t p : p ≠ [] → lookup_node t p = t !! p.
Proof. by destruct p. Qed.

Lemma lookup_node_snoc t p n : lookup_node t (p ++ [n]) = t !! (p ++ [n]).
Proof. by destruct p. Qed.

Lemma wf_prefix t p q : wf t → is_Some (lookup_node t (p ++ q)) → q ≠ [] → lookup_node t p = Some Dir.
Proof.
  intros [_ Hw] Hs Hq. induction q as [|n q IH] using rev_ind; [done|]. clear Hq.
  rewrite app_assoc in Hs. rewrite lookup_node_snoc in Hs. apply Hw in Hs as Hd. rewrite parent_snoc in Hd.
  destruct q as [|x q]; [by rewrite app_nil_r in Hd|]. apply IH; [by rewrite Hd|done].
Qed.

Lemma wf_parent t p n : wf t → is_Some (t !! (p ++ [n])) → lookup_node t p = Some Dir.
Proof. intros Hw Hs. apply (wf_prefix t p [n] Hw); [by rewrite lookup_node_snoc|done]. Qed.

Lemma wf_insert t p x :
  wf t → p ≠ [] → lookup_node t (parent p) = Some Dir → (t !! p = Some Dir → x = Dir) → wf (<[p := x]> t).
Proof.
  intros [Hn Hw] Hp Hd Hx. split; [by rewrite lookup_insert_ne|]. intros q Hq.
  assert (lookup_node t (parent q) = Some Dir) as Hdq.
  { destruct (decide (q = p)) as [->|]; [done|]. rewrite lookup_insert_ne in Hq by done. by apply Hw. }
  destruct (parent q) as [|a r] eqn:E; [done|]. cbn in Hdq |- *. destruct (decide (p = a :: r)) as [->|].
  - rewrite lookup_insert_eq. f_equal. by apply Hx.
  - by rewrite lookup_insert_ne.
Qed.

Lemma wf_delete t p : wf t → (∀ n, t !! (p ++ [n]) = None) → wf (delete p t).
Proof.
  intros [Hn Hw] Hc. split; [by rewrite lookup_delete_None; right|]. intros q [x [Hqp Hq]%lookup_delete_Some].
  assert (lookup_node t (parent q) = Some Dir) as Hd by (apply Hw; by eexists).
  destruct (snoc_cases q) as [->|(r & n & ->)]; [by rewrite Hn in Hq|]. rewrite parent_snoc in *.
  destruct r as [|a r]; [done|]. cbn in Hd |- *. rewrite lookup_delete_ne; [done|]. intros ->. by rewrite Hc in Hq.
Qed.

Lemma no_children t p : children t p = [] ↔ ∀ n, t !! (p ++ [n]) = None.
Proof.
  split.
  - intros Hc n. destruct (t !! (p ++ [n])) eqn:E; [|done]. assert (n ∈ children t p) as Hin by by apply elem_of_children.
    rewrite Hc in Hin. by apply elem_of_nil in Hin.
  - intros Hn. destruct (children t p) as [|n l] eqn:E; [done|]. assert (n ∈ children t p) as Hin by (rewrite E; by left).
    apply elem_of_children in Hin as [x Hx]. by rewrite Hn in Hx.
Qed.

(** * Crashes *)

Lemma perform_all_app a b t : perform_all (a ++ b) t = perform_all b (perform_all a t).
Proof. apply foldl_app. Qed.

Lemma crashed_app a b t t' : crashed (a ++ b) t t' → crashed a t t' ∨ crashed b (perform_all a t) t'.
Proof.
  revert t. induction a as [|op a IH]; intros t Hc; [by right|]. cbn in Hc. inversion Hc as [| |? ? ? ? Hn]; subst.
  - left. constructor.
  - left. by apply crash_torn.
  - destruct (IH _ Hn) as [H'|H']; [left; by apply crash_later|by right].
Qed.

Lemma crashed_after_crashed done ops t t' : crashed_after done ops t t' → crashed ops t t'.
Proof. induction 1; by econstructor. Qed.

Lemma crashed_after_app done a b t t' :
  crashed_after done (a ++ b) t t' →
  crashed a t t' ∨ ∃ rest, done = a ++ rest ∧ crashed_after rest b (perform_all a t) t'.
Proof.
  revert done t. induction a as [|op a IH]; intros done t Hc; [right; by exists done|]. cbn in Hc.
  inversion Hc as [| |? done' ? ? ? Hn]; subst; [left; constructor|left; by apply crash_torn|].
  destruct (IH _ _ Hn) as [H'|(rest & -> & H')]; [left; by apply crash_later|right; by exists rest].
Qed.

Lemma crashed_nil t t' : crashed [] t t' → t' = t.
Proof. by inversion 1. Qed.

(** * The logic *)

Section wp.
Context {E : Type}.

Definition wp {A : Type} (I : tree → Prop) (m : action E A) (Q : A → tree → Prop) (t : tree) : Prop :=
  ∃ a, (m t).(answer) = Ok a ∧ Q a (final t (m t)) ∧ ∀ t', crashed (m t).(ops) t t' → I t'.

Implicit Types (I : tree → Prop).

Lemma wp_now {A : Type} I (m : action E A) Q t : wp I m Q t → I t.
Proof. intros (a & _ & _ & Hc). apply Hc. constructor. Qed.

Lemma wp_mono {A : Type} I I' (m : action E A) Q Q' t :
  (∀ a t', Q a t' → Q' a t') → (∀ t', I t' → I' t') → wp I m Q t → wp I' m Q' t.
Proof. intros HQ HI (a & Ha & Hq & Hc). exists a. split; [done|]. split; [by apply HQ|]. intros t' Ht. by apply HI, Hc. Qed.

Lemma wp_conseq {A : Type} I (m : action E A) Q Q' t :
  wp I m Q t → (∀ a t', Q a t' → Q' a t') → wp I m Q' t.
Proof. intros Hw HQ. by eapply wp_mono; [apply HQ|intros t'; exact id|]. Qed.

Lemma wp_reads {A : Type} I (f : tree → result E A) (a : A) (Q : A → tree → Prop) t :
  f t = Ok a → I t → Q a t → wp I (reads f) Q t.
Proof. intros Hf Hi Hq. exists a. cbn. split; [done|]. split; [done|]. by intros t' ->%crashed_nil. Qed.

Lemma wp_returns {A : Type} I (a : A) (Q : A → tree → Prop) t : I t → Q a t → wp I (returns (Ok a)) Q t.
Proof. intros. by eapply wp_reads. Qed.

Lemma wp_emit I op (Q : unit → tree → Prop) t :
  I t → I (perform op t) → (∀ t', torn op t t' → I t') → Q tt (perform op t) → wp I (emit op) Q t.
Proof.
  intros Hi Hp Ht Hq. exists tt. cbn. split; [done|]. split; [done|]. intros t' Hc.
  inversion Hc as [| |? ? ? ? Hn]; subst; auto. by apply crashed_nil in Hn as ->.
Qed.

Lemma wp_bind {A B : Type} I (m : action E A) (k : A → action E B) Q t :
  wp I m (fun a => wp I (k a) Q) t → wp I (abind m k) Q t.
Proof.
  intros (a & Ha & (b & Hb & Hq & Hc') & Hc). exists b. unfold abind, final in *. rewrite Ha. cbn [answer ops].
  split; [done|]. rewrite perform_all_app. split; [done|]. intros t' [H|H]%crashed_app; auto.
Qed.

Lemma wp_for_each {A : Type} I (f : A → action E unit) (J : list A → tree → Prop) l t :
  (∀ a l t, J (a :: l) t → wp I (f a) (fun _ t' => J l t') t) → (∀ t, J [] t → I t) → J l t →
  wp I (for_each f l) (fun _ t' => J [] t') t.
Proof.
  intros Hf HI. revert t. induction l as [|a l IH]; intros t HJ; cbn [for_each].
  - apply wp_returns; auto.
  - apply wp_bind. eapply wp_conseq; [by apply Hf|]. cbn. intros _ t'. apply IH.
Qed.

(** The same, but for the crashes that [X] excepts, by what was done before them
    and the tree they leave. *)
Definition wp_except {A : Type} (X : list fsop → tree → Prop) I (m : action E A) (Q : A → tree → Prop) (t : tree) : Prop :=
  ∃ a, (m t).(answer) = Ok a ∧ Q a (final t (m t)) ∧
    ∀ done t', crashed_after done (m t).(ops) t t' → ¬ X done t' → I t'.

Lemma wp_except_wp {A : Type} X I (m : action E A) Q t : wp I m Q t → wp_except X I m Q t.
Proof.
  intros (a & Ha & Hq & Hc). exists a. split; [done|]. split; [done|]. intros done t' Hd _. by eapply Hc, crashed_after_crashed.
Qed.

Lemma wp_except_mono {A : Type} X I I' (m : action E A) Q t :
  (∀ t', I t' → I' t') → wp_except X I m Q t → wp_except X I' m Q t.
Proof. intros HI (a & Ha & Hq & Hc). exists a. split; [done|]. split; [done|]. intros done t' Hd Hx. by eapply HI, Hc. Qed.

Lemma wp_except_bind {A B : Type} X I (m : action E A) (k : A → action E B) Q t :
  (∀ l done t', X done t' → X (l ++ done) t') →
  wp I m (fun a => wp_except X I (k a) Q) t → wp_except X I (abind m k) Q t.
Proof.
  intros HX (a & Ha & (b & Hb & Hq & Hc') & Hc). exists b. unfold abind, final in *. rewrite Ha. cbn [answer ops].
  split; [done|]. rewrite perform_all_app. split; [done|].
  intros done t' [H|(rest & -> & H)]%crashed_after_app Hx; [by apply Hc|]. eapply Hc'; [done|]. intros Hr. by apply Hx, HX.
Qed.
End wp.

(** * Invariants that are open to changes *)

(** [I] survives the insertion of a node that [R] allows at a place that
    exists, and the removal of one without children. *)
Definition grows (I : tree → Prop) (R : path → node → Prop) : Prop :=
  ∀ t q x, I t → R q x → q ≠ [] → lookup_node t (parent q) = Some Dir → (t !! q = Some Dir → x = Dir) →
  I (<[q := x]> t).

Definition shrinks (I : tree → Prop) (R : path → node → Prop) : Prop :=
  ∀ t q x, I t → t !! q = Some x → R q x → (∀ n, t !! (q ++ [n]) = None) → I (delete q t).

Lemma grows_mono I (R R' : path → node → Prop) : (∀ q x, R' q x → R q x) → grows I R → grows I R'.
Proof. intros HR Hg t q x Hi Hr. by apply Hg, HR. Qed.

Lemma shrinks_mono I (R R' : path → node → Prop) : (∀ q x, R' q x → R q x) → shrinks I R → shrinks I R'.
Proof. intros HR Hg t q x Hi Hl Hr. by eapply Hg, HR. Qed.

(** * The calls *)

Section calls.
Context {E : Type} (io : path → E).
Implicit Types (I : tree → Prop) (Q : unit → tree → Prop).

Lemma wp_path_exists I p (Q : bool → tree → Prop) t :
  I t → Q (match lookup_node t p with Some _ => true | None => false end) t → wp I (path_exists (E:=E) p) Q t.
Proof. intros. by eapply wp_reads. Qed.

Lemma wp_read_file I p c (Q : bytes → tree → Prop) t :
  t !! p = Some (File c) → p ≠ [] → I t → Q c t → wp I (read_file io p) Q t.
Proof. intros Hp Hn Hi Hq. eapply wp_reads; [|done..]. by rewrite lookup_node_ne, Hp. Qed.

Lemma torn_write_inv p c t t' : torn (Write p c) t t' → ∃ c', torn_content c c' ∧ t' = <[p := File c']> t.
Proof. inversion 1. by eexists. Qed.

Lemma torn_content_refl c : torn_content c c.
Proof. unfold torn_content. rewrite firstn_all. apply Forall2_same_length_lookup. split; [done|]. intros i b a Hb Ha. left. congruence. Qed.

Lemma wp_write_at I p c Q t :
  I t → (∀ c', torn_content c c' → I (<[p := File c']> t)) → Q tt (<[p := File c]> t) → wp I (emit (E:=E) (Write p c)) Q t.
Proof.
  intros Hi Hc Hq. apply wp_emit; [done|apply Hc, torn_content_refl| |done]. intros t' (c' & Hx & ->)%torn_write_inv. by apply Hc.
Qed.

Lemma wp_replace_at I p c Q t :
  I t → I (<[p := File c]> t) →
  (∀ n c', is_temporary n → t !! (parent p ++ [n]) = None → I (<[parent p ++ [n] := File c']> t)) →
  Q tt (<[p := File c]> t) → wp I (emit (E:=E) (Replace p c)) Q t.
Proof. intros Hi Hc Ht Hq. apply wp_emit; [done..| |done]. intros t' Hx. inversion Hx; subst. by apply Ht. Qed.

Lemma wp_write_file I (R : path → node → Prop) p c Q t :
  I t → grows I R → (∀ c', torn_content c c' → R p (File c')) → p ≠ [] → lookup_node t (parent p) = Some Dir → t !! p ≠ Some Dir →
  Q tt (<[p := File c]> t) → wp I (write_file io p c) Q t.
Proof.
  intros Hi Hg HR Hp Hd Hn Hq. unfold write_file, wp. rewrite Hd, lookup_node_ne by done.
  assert (wp I (emit (E:=E) (Write p c)) Q t) as Hw.
  { apply wp_write_at; [done| |done]. intros c' Hx. apply (Hg t p (File c')); auto; done. }
  destruct (t !! p) as [[|c0]|]; [done|exact Hw..].
Qed.

Lemma wp_write_new I p c Q t :
  lookup_node t (parent p) = Some Dir → lookup_node t p = None → I t →
  (∀ c', torn_content c c' → I (<[p := File c']> t)) → Q tt (<[p := File c]> t) → wp I (write_new_file io p c) Q t.
Proof. intros Hd Hn Hi Hc Hq. unfold write_new_file, wp. rewrite Hd, Hn. by apply (wp_write_at I p c Q t). Qed.

Lemma wp_write_new_file I (R : path → node → Prop) p c Q t :
  I t → grows I R → (∀ c', torn_content c c' → R p (File c')) → p ≠ [] → lookup_node t (parent p) = Some Dir → t !! p = None →
  Q tt (<[p := File c]> t) → wp I (write_new_file io p c) Q t.
Proof.
  intros Hi Hg HR Hp Hd Hn Hq. apply wp_write_new; [done|by rewrite lookup_node_ne|done| |done]. intros c' Hx. apply (Hg t p (File c')); [done|by apply HR|done|done|]. by rewrite Hn.
Qed.

Lemma wp_replace I p c Q t :
  lookup_node t (parent p) = Some Dir → lookup_node t p ≠ Some Dir → I t → I (<[p := File c]> t) →
  (∀ n c', is_temporary n → t !! (parent p ++ [n]) = None → I (<[parent p ++ [n] := File c']> t)) →
  Q tt (<[p := File c]> t) → wp I (replace_file io p c) Q t.
Proof.
  intros Hd Hn Hi Hc Ht Hq. unfold replace_file, wp. rewrite Hd. destruct (lookup_node t p) as [[|c0]|]; [done|by apply (wp_replace_at I p c Q t)..].
Qed.

Lemma wp_replace_file I (R : path → node → Prop) p c Q t :
  I t → grows I R → R p (File c) → (∀ n c', is_temporary n → R (parent p ++ [n]) (File c')) →
  p ≠ [] → lookup_node t (parent p) = Some Dir → t !! p ≠ Some Dir →
  Q tt (<[p := File c]> t) → wp I (replace_file io p c) Q t.
Proof.
  intros Hi Hg HR HT Hp Hd Hn Hq. apply wp_replace; [done|by rewrite lookup_node_ne|done|by apply (Hg t p (File c))| |done].
  intros n c' Hnt Hnone. apply (Hg t _ (File c')); [done|by apply HT|by destruct (parent p)|by rewrite parent_snoc|by rewrite Hnone].
Qed.

Lemma wp_remove_at I p Q t : I t → I (delete p t) → Q tt (delete p t) → wp I (emit (E:=E) (Remove p)) Q t.
Proof. intros. apply wp_emit; [done..| |done]. by inversion 1. Qed.

Lemma wp_remove_file I (R : path → node → Prop) p c Q t :
  wf t → I t → shrinks I R → t !! p = Some (File c) → R p (File c) → p ≠ [] → Q tt (delete p t) →
  wp I (remove_file io p) Q t.
Proof.
  intros Hw Hi Hs Hl HR Hp Hq. unfold remove_file, wp. rewrite lookup_node_ne, Hl by done.
  apply (wp_remove_at I p Q t); [done| |done]. apply (Hs t p (File c)); [done..|]. intros n.
  destruct (t !! (p ++ [n])) eqn:Ex; [|done]. assert (lookup_node t p = Some Dir) as Hd by (eapply wf_parent; [done|by rewrite Ex]).
  by rewrite lookup_node_ne, Hl in Hd.
Qed.

Lemma wp_remove_dir I (R : path → node → Prop) p Q t :
  I t → shrinks I R → t !! p = Some Dir → R p Dir → p ≠ [] → (∀ n, t !! (p ++ [n]) = None) → Q tt (delete p t) →
  wp I (remove_dir io p) Q t.
Proof.
  intros Hi Hs Hl HR Hp Hc Hq. destruct p as [|a p]; [done|]. unfold remove_dir, wp. cbn [lookup_node].
  rewrite Hl, (proj2 (no_children t _)) by done. apply (wp_remove_at I _ Q t); [done| |done]. by apply (Hs t _ Dir).
Qed.

(** Removing a list of paths, each after what is below it. *)
Definition leaves_first (l : list path) : Prop :=
  ∀ i j q q', l !! i = Some q → l !! j = Some q' → q `prefix_of` q' → q ≠ q' → j < i.

Lemma wp_remove_list I (R : path → node → Prop) p l Q t :
  I t → shrinks I R → (∀ q x, p `prefix_of` q → R q x) → NoDup l → leaves_first l →
  (∀ q, p `prefix_of` q → q ∈ l ↔ is_Some (t !! q)) → (∀ q, q ∈ l → p `prefix_of` q) →
  (∀ t', (∀ q, t' !! q = if decide (p `prefix_of` q) then None else t !! q) → I t' → Q tt t') →
  wp I (fun _ => Build_run (E:=E) (Ok tt) (map Remove l)) Q t.
Proof.
  intros Hi Hs HR. revert t Hi. induction l as [|q l IH]; intros t Hi Hd Hl Hin Hp HQ.
  - exists tt. split; [done|]. split; [|by intros t' ->%crashed_nil]. apply HQ; [|done]. intros q. cbn.
    case_decide as Hpq; [|done]. destruct (t !! q) eqn:E1; [|done].
    assert (q ∈ []) as Hx by (apply Hin; [done|by rewrite E1]). by apply elem_of_nil in Hx.
  - apply NoDup_cons in Hd as [Hn Hd]. assert (p `prefix_of` q) as Hpq by (apply Hp; by left).
    assert (is_Some (t !! q)) as [x Hx] by (apply Hin; [done|by left]).
    assert (∀ n, t !! (q ++ [n]) = None) as Hc.
    { intros n. destruct (t !! (q ++ [n])) eqn:Ec; [|done]. exfalso.
      assert (q ++ [n] ∈ q :: l) as Hqn by (apply Hin; [by apply prefix_app_r|by rewrite Ec]).
      apply list_elem_of_lookup in Hqn as [j Hj]. pose proof (Hl 0 j q (q ++ [n]) eq_refl Hj) as Hlt.
      assert (q ≠ q ++ [n]) as Hne by (intros Hx2; rewrite <-(app_nil_r q) in Hx2 at 1; by apply app_inv_head in Hx2).
      specialize (Hlt ltac:(by apply prefix_app_r) Hne). lia. }
    assert (I (delete q t)) as Hi' by (eapply Hs; [done|done|by apply HR|done]).
    destruct (IH (delete q t) Hi' Hd) as ([] & _ & Hq & Hcr).
    + intros i j a b Ha Hb Hab Hne. enough (S j < S i) by lia. by apply (Hl (S i) (S j) a b).
    + intros a Ha. rewrite lookup_delete_is_Some, <-Hin, elem_of_cons by done. split; [|by intros [? [->|]]].
      intros Hal. split; [by intros ->|by right].
    + intros a Ha. apply Hp. by right.
    + intros t' Ht' Hit'. apply HQ; [|done]. intros a. rewrite Ht'. case_decide as Hpa; [done|].
      rewrite lookup_delete_ne; [done|]. by intros ->.
    + exists tt. split; [done|]. split; [exact Hq|]. intros t' Hcrash. cbn [ops map] in Hcrash.
      inversion Hcrash as [|? ? ? ? Ht|? ? ? ? Hlater]; subst; [done|by inversion Ht|by apply Hcr].
Qed.

(** Creating the directories on the way to a path. *)
Definition dirs_added (p : path) (t t' : tree) : Prop :=
  ∀ q, t' !! q = if decide (q `prefix_of` p ∧ q ≠ []) then Some Dir else t !! q.

Lemma wp_create_dir_all_from I (R : path → node → Prop) base rest Q t :
  wf t → I t → grows I R → (∀ q, q `prefix_of` base ++ rest → R q Dir) → lookup_node t base = Some Dir →
  (∀ q c, q `prefix_of` base ++ rest → t !! q ≠ Some (File c)) →
  (∀ t', wf t' → I t' →
     (∀ q, t' !! q = if decide (q `prefix_of` base ++ rest ∧ length base < length q) then Some Dir else t !! q) → Q tt t') →
  wp I (create_dir_all_from io base rest) Q t.
Proof.
  intros Hw Hi Hg. revert base t Hw Hi. induction rest as [|n rest IH]; intros base t Hw Hi HR Hb Hf HQ; cbn [create_dir_all_from].
  - apply wp_returns; [done|]. apply HQ; [done..|]. intros q. case_decide as Hq; [|done]. destruct Hq as [Hq Hl].
    apply prefix_length in Hq. rewrite length_app in Hq. cbn in Hq. lia.
  - assert (base ++ n :: rest = (base ++ [n]) ++ rest) as Heq by by rewrite <-app_assoc. rewrite Heq in HR, Hf, HQ.
    apply wp_bind. eapply wp_reads; [reflexivity|done|]. rewrite lookup_node_snoc.
    assert (∀ t1, t1 !! (base ++ [n]) = Some Dir → (∀ q, q ≠ base ++ [n] → t1 !! q = t !! q) → wf t1 → I t1 →
              wp I (create_dir_all_from io (base ++ [n]) rest) Q t1) as Hgo.
    { intros t1 H1 H2 Hw1 Hi1. apply IH; [done|done|done|by rewrite lookup_node_snoc| |].
      - intros q c Hq. destruct (decide (q = base ++ [n])) as [->|Hn]; [by rewrite H1|]. rewrite H2 by done. by apply Hf.
      - intros t' Hw' Hi' Ht'. apply HQ; [done..|]. intros q. rewrite Ht'. rewrite length_app. cbn [length].
        destruct (decide (q = base ++ [n])) as [->|Hn].
        + rewrite (decide_True (P:=_ ∧ length base < _)) by (split; [by apply prefix_app_r|rewrite length_app; cbn; lia]).
          case_decide; [done|]. done.
        + rewrite H2 by done. case_decide as Ha; case_decide as Hb'; try done; [exfalso; apply Hb'; split; [apply Ha|lia]|].
          exfalso. apply Ha. split; [apply Hb'|]. destruct Hb' as [Hp Hl]. destruct (decide (length q = S (length base))) as [Hlen|]; [|lia].
          exfalso. apply Hn. destruct Hp as [r Hr]. apply app_inj_1 in Hr as [-> _]; [done|]. rewrite length_app. cbn. lia. }
    destruct (t !! (base ++ [n])) as [[|c]|] eqn:Ex.
    + by apply Hgo.
    + exfalso. apply (Hf (base ++ [n]) c); [by apply prefix_app_r|done].
    + apply wp_bind. unfold create_dir, wp. rewrite parent_snoc, Hb, lookup_node_snoc, Ex.
      assert (base ++ [n] ≠ []) as Hne by by destruct base.
      assert (I (<[base ++ [n] := Dir]> t)) as Hi'.
      { apply Hg; [done|apply HR; by apply prefix_app_r|done|by rewrite parent_snoc|done]. }
      apply (wp_emit I (Mkdir (base ++ [n])) (fun _ => wp I (create_dir_all_from io (base ++ [n]) rest) Q) t); [done|done|by inversion 1|].
      cbn [perform]. apply Hgo; [by rewrite lookup_insert_eq|intros q Hq; by rewrite lookup_insert_ne| |done].
      apply wf_insert; [done|done|by rewrite parent_snoc|done].
Qed.

Lemma wp_create_dir_all I (R : path → node → Prop) p Q t :
  wf t → I t → grows I R → (∀ q, q `prefix_of` p → R q Dir) → (∀ q c, q `prefix_of` p → t !! q ≠ Some (File c)) →
  (∀ t', wf t' → I t' → dirs_added p t t' → Q tt t') → wp I (create_dir_all io p) Q t.
Proof.
  intros Hw Hi Hg HR Hf HQ. apply (wp_create_dir_all_from I R [] p); [done..|].
  intros t' Hw' Hi' Ht'. apply HQ; [done..|]. intros q. rewrite Ht'. cbn. apply decide_ext. destruct q; cbn; intuition (try done; lia).
Qed.

Lemma wp_remove_dir_all `{FileSystemLaws} I (R : path → node → Prop) p Q t :
  I t → shrinks I R → t !! p = Some Dir → p ≠ [] → (∀ q x, p `prefix_of` q → R q x) →
  (∀ t', (∀ q, t' !! q = if decide (p `prefix_of` q) then None else t !! q) → I t' → Q tt t') →
  wp I (remove_dir_all io p) Q t.
Proof.
  intros Hi Hs Hl Hp HR HQ. unfold remove_dir_all. destruct p as [|a p]; [done|]. unfold wp. cbn [lookup_node]. rewrite Hl.
  apply (wp_remove_list I R (a :: p)); [done|done|done| | | | |done].
  - rewrite removal_order_perm. unfold subtree. apply NoDup_filter, NoDup_fst_map_to_list.
  - intros i j q q'. apply removal_order_leaves.
  - intros q Hq. rewrite removal_order_perm, elem_of_subtree. tauto.
  - intros q. rewrite removal_order_perm, elem_of_subtree. by intros [? _].
Qed.

(** The entries of a directory. *)
Lemma wp_read_dir `{FileSystemLaws} I p (Q : list (name * node) → tree → Prop) t :
  lookup_node t p = Some Dir → I t →
  (∀ l, NoDup l.*1 → (∀ n x, (n, x) ∈ l ↔ t !! (p ++ [n]) = Some x) → Q l t) → wp I (read_dir io p) Q t.
Proof.
  intros Hp Hi HQ. eapply wp_reads; [by rewrite Hp|done|]. apply HQ.
  - assert (∀ l, NoDup l → (omap (fun n => option_map (pair n) (t !! (p ++ [n]))) l).*1 `sublist_of` l) as Hsub.
    { induction l as [|n l IH]; [done|]. intros [_ Hd]%NoDup_cons. cbn.
      destruct (t !! (p ++ [n])); cbn; [by apply sublist_skip, IH|by apply sublist_cons, IH]. }
    eapply sublist_NoDup; [|apply Hsub]; rewrite read_order_perm; apply children_NoDup.
  - intros n x. rewrite list_elem_of_omap. setoid_rewrite read_order_perm. setoid_rewrite elem_of_children. split.
    + intros (m & _ & Hm). destruct (t !! (p ++ [m])) eqn:Em; cbn in Hm; [|done]. injection Hm as -> ->. done.
    + intros Hx. exists n. split; [by rewrite Hx|]. by rewrite Hx.
Qed.
End calls.
