(* ===== verification/StateTransaction.v ===== *)
(** Crash-consistent transactions on the state directory:
    [crates/kilogram-state/src/lib.rs].

    A transaction copies the mutable state into its journal, the directory
    [.kilogram-transactions/active], lists the append-only files there are, and
    writes the marker [prepared]; a command then changes the state in place.
    [commit] writes the marker [committed] and removes the journal;
    [rollback] restores what the journal holds, writes [rolled-back] and removes
    it.  Opening the state directory runs [recover], which finishes whatever was
    interrupted.

    The definitions follow the source function by function as [action]s of
    [FileTree].  The manifest is JSON ([ManifestJson] is [serde_json] at its
    type), a [PathBuf] is the list of its components, and what the encrypted
    vault answers for a profile of ordered dialogs ([OrderedProfile]) is an
    argument: [begin] refuses such a profile. *)

From stdpp Require Import base tactics list numbers strings gmap.
From Stdlib Require Import Strings.Byte.
From S2P Require Import Prelude FileTree.

(** * Constants *)

Definition TRANSACTION_DIRECTORY : name := b_str ".kilogram-transactions".
Definition ACTIVE_DIRECTORY : name := b_str "active".
Definition BACKUP_DIRECTORY : name := b_str "backup".
Definition PRIMARY_BACKUP_DIRECTORY : name := b_str "primary-backup".
Definition APPEND_ONLY_COMPACTION_BACKUP_DIRECTORY : name := b_str "append-only-compaction-backup".
Definition MANIFEST_FILE : name := b_str "manifest.json".
Definition PREPARED_MARKER : name := b_str "prepared".
Definition COMMITTED_MARKER : name := b_str "committed".
Definition ROLLED_BACK_MARKER : name := b_str "rolled-back".
Definition RATCHET_DIRECTORY : name := b_str "ratchet".
Definition NEXT_SEQUENCE_FILE : name := b_str "next-sequence".
Definition TRUST_FILES : list name := [b_str "account-authority.snapshot"; b_str "device-certificate.cert"].
Definition TRUST_DIRECTORIES : list name :=
  [b_str "conversation-memberships"; b_str "peer-authority"; b_str "recovery-approval"; b_str "recovery-policy"].
Definition TRUST_PRIMARY_BACKUP_DIRECTORY : name := b_str "trust".
Definition APPEND_ONLY_ROOTS : list name :=
  [b_str "events"; b_str "local-messages"; b_str "history-rewraps"; b_str "history-recovery"; b_str "runtime"].
Definition MANIFEST_VERSION : byte := x01.
Definition ORDERED_ACCOUNT_FENCE : bytes := b_str "kilogram:ordered-dialog:account:v1" ++ [x0a].
Definition STATE_VAULT_FILE : name := b_str "state-vault.redb".

(** * Data *)

(** The components of a [Path]. *)
Inductive component := Normal (n : name) | RootDir | CurDir | ParentDir.

#[export] Instance component_eq_dec : EqDecision component.
Proof. solve_decision. Defined.

#[export] Instance component_countable : Countable component.
Proof.
  apply (inj_countable'
    (fun c => match c with Normal n => inl n | RootDir => inr 0 | CurDir => inr 1 | ParentDir => inr 2 end)
    (fun s : bytes + nat => match s with inl n => Normal n | inr 0 => RootDir | inr 1 => CurDir | inr _ => ParentDir end)).
  by intros [].
Defined.

Abbreviation pathbuf := (list component).

#[export] Instance pathbuf_eq_dec : EqDecision pathbuf | 0 := list_eq_dec.
#[export] Instance pathbuf_countable : Countable pathbuf | 0 := list_countable.

Definition path_of (p : path) : pathbuf := map Normal p.
(** The names of a path all of whose components are normal. *)
Definition names_of (p : pathbuf) : path :=
  omap (fun c => match c with Normal n => Some n | _ => None end) p.

Inductive StateRecordKind :=
| DeviceIdentity | Ratchet | Event | LocalProjection | HistoryRewrap | HistoryRecovery
| Trust | Sequence | Runtime | Other.

#[export] Instance StateRecordKind_eq_dec : EqDecision StateRecordKind.
Proof. solve_decision. Defined.

(** The errors the transactions return; the error of an I/O call is its path. *)
Inductive StateError :=
| Io (p : path)
| OrderedWriterRequired
| OrderedState
| InvalidManifest
| UnsupportedManifestVersion (version : byte)
| TransactionAlreadyActive
| UnsafeRelativePath (p : pathbuf)
| InvalidBackup (p : path)
| VaultDirectWriteDuplicatePath (p : pathbuf)
| AppendOnlyRecordRemoved (p : pathbuf)
| AppendOnlyCompactionNotAllowed (p : pathbuf)
| AppendOnlyRecordTypeChanged (p : pathbuf)
| AppendOnlyWriteKindNotAllowed (p : pathbuf)
| RatchetWorkspaceAlreadyPrepared
| RatchetWorkspaceRootMismatch
| RatchetWorkspaceKindMismatch
| SequenceWorkspaceAlreadyPrepared
| SequenceWorkspaceRootMismatch
| SequenceWorkspaceKindMismatch
| TrustWorkspaceAlreadyPrepared
| TrustWorkspaceRootMismatch
| TrustWorkspaceKindMismatch
| VaultError.

Record TransactionManifest := {
  version : byte;
  ratchet_existed : bool;
  next_sequence_existed : bool;
  append_only_files : list pathbuf;
  compacted_append_only_files : list pathbuf;
  ratchet_primary_existed : option bool;
  next_sequence_primary_existed : option bool;
  trust_primary_prepared : bool
}.

#[export] Instance TransactionManifest_eq_dec : EqDecision TransactionManifest.
Proof. solve_decision. Defined.

(** [serde_json::to_vec] and [serde_json::from_slice]. *)
Class ManifestJson := {
  to_json : TransactionManifest → option bytes;
  from_json : bytes → option TransactionManifest
}.

(** What the vault answers about a profile with ordered dialogs: whether it has
    an indexed anchor, and the restoration of its files from its records. *)
Class OrderedProfile := {
  indexed_anchor : tree → result StateError bool;
  restore_ordered_shadow : action StateError unit
}.

Record StateTransaction := {
  tx_root : pathbuf;
  ratchet_primary_baseline : option (gmap path bytes);
  sequence_primary_prepared : bool;
  trust_primary_baseline : option (gmap path bytes);
  append_only_writes : gset pathbuf;
  append_only_removals : gset pathbuf
}.

(** * Paths *)

(** [active_directory(root)]. *)
Definition active : path := [TRANSACTION_DIRECTORY; ACTIVE_DIRECTORY].
Definition backup : path := active ++ [BACKUP_DIRECTORY].
Definition primary_backup : path := active ++ [PRIMARY_BACKUP_DIRECTORY].
Definition compaction_backup : path := active ++ [APPEND_ONLY_COMPACTION_BACKUP_DIRECTORY].
Definition marker (n : name) : path := active ++ [n].
Definition ratchet : path := [RATCHET_DIRECTORY].
Definition next_sequence : path := [NEXT_SEQUENCE_FILE].

Definition is_normal (c : component) : bool := match c with Normal _ => true | _ => false end.

Definition validate_relative (p : pathbuf) : result StateError unit :=
  fail_if (bool_decide (p = []) || existsb (fun c => negb (is_normal c)) p) (UnsafeRelativePath p).

Definition state_record_kind_for_path (p : pathbuf) : StateRecordKind :=
  match p with
  | Normal first :: _ =>
      if bool_decide (first = RATCHET_DIRECTORY) then Ratchet
      else if bool_decide (first = b_str "events") then Event
      else if bool_decide (first = b_str "local-messages") then LocalProjection
      else if bool_decide (first = b_str "history-rewraps") then HistoryRewrap
      else if bool_decide (first = b_str "history-recovery") then HistoryRecovery
      else if bool_decide (first = b_str "runtime") then Runtime
      else if bool_decide (first ∈ TRUST_FILES) || bool_decide (first ∈ TRUST_DIRECTORIES) then Trust
      else if bool_decide (first = NEXT_SEQUENCE_FILE) then Sequence
      else Other
  | _ => Other
  end.

(** [BTreeMap] iterates in the order of its keys, a [PathBuf] being compared
    by its components. *)
Fixpoint list_cmp {A} `{Ord A} (p q : list A) : comparison :=
  match p, q with
  | [], [] => Eq
  | [], _ => Lt
  | _, [] => Gt
  | a :: p, b :: q => match cmp a b with Eq => list_cmp p q | c => c end
  end.

Definition list_ord {A} `{Ord A} : Ord (list A).
Proof.
  refine {| cmp := list_cmp |}.
  - induction a as [|a p IH]; intros [|b q]; cbn [list_cmp]; try done.
    destruct (cmp a b) eqn:Ec.
    + apply cmp_eq in Ec as ->. rewrite IH. split; [by intros ->|by intros [=]].
    + split; [done|]. intros [= -> ->]. by rewrite cmp_refl in Ec.
    + split; [done|]. intros [= -> ->]. by rewrite cmp_refl in Ec.
  - induction a as [|a p IH]; intros [|b q]; cbn [list_cmp]; try done. rewrite (cmp_opp a b). destruct (cmp a b); cbn [CompOpp]; auto.
  - induction a as [|a p IH]; intros [|b q] [|c r]; cbn [list_cmp]; try done.
    destruct (cmp a b) eqn:E1; try done.
    + apply cmp_eq in E1 as ->. destruct (cmp b c); try done. eauto.
    + intros _. destruct (cmp b c) eqn:E2; try done.
      * apply cmp_eq in E2 as ->. by rewrite E1.
      * intros _. by rewrite (cmp_lt_trans _ _ _ E1 E2).
Defined.

Definition component_cmp (a b : component) : comparison :=
  match a, b with
  | Normal n, Normal n' => cmp n n'
  | RootDir, RootDir | CurDir, CurDir | ParentDir, ParentDir => Eq
  | RootDir, _ => Lt | _, RootDir => Gt
  | CurDir, _ => Lt | _, CurDir => Gt
  | ParentDir, _ => Lt | _, ParentDir => Gt
  end.

#[export] Instance component_ord : Ord component.
Proof.
  refine {| cmp := component_cmp |}.
  - intros [n| | |] [n'| | |]; cbn [component_cmp]; try done. rewrite cmp_eq. split; congruence.
  - intros [n| | |] [n'| | |]; cbn [component_cmp]; try done. apply cmp_opp.
  - intros [n| | |] [n'| | |] [n''| | |]; cbn [component_cmp]; try done. apply cmp_lt_trans.
Defined.

#[export] Instance path_ord : Ord path := list_ord.
#[export] Instance pathbuf_ord : Ord pathbuf := list_ord.

Definition btree_entries {V} (m : gmap path V) : list (path * V) := sort_by_key fst (map_to_list m).
Definition btree_values {V} (m : gmap pathbuf V) : list V := map snd (sort_by_key fst (map_to_list m)).
Definition btree_keys (s : gset pathbuf) : list pathbuf := sort_by_key id (elements s).

Section transaction.
Context `{FileSystem} `{ManifestJson} `{OrderedProfile}.

Abbreviation act := (action StateError).

(** * Files *)

Definition reject_symlink (p : path) : act unit :=
  reads (fun t => match lookup_node t p with Some _ => Ok tt | None => Err (Io p) end).

Definition reject_relative_symlinks (p : pathbuf) : act unit :=
  returns (validate_relative p) ;*
  for_each (fun k =>
      let current := take (S k) (names_of p) in
      let* exists_ := path_exists current in
      if exists_ then reject_symlink current else returns (Ok tt))
    (seq 0 (length (names_of p))).

Definition remove_tree_if_present (p : path) : act unit :=
  let* present := path_exists p in
  if negb present then returns (Ok tt)
  else reject_symlink p ;* remove_dir_all Io p.

Definition remove_file_if_present (p : path) : act unit :=
  let* present := path_exists p in
  if present then reject_symlink p ;* remove_file Io p else returns (Ok tt).

Definition copy_file (source destination : path) : act unit :=
  reject_symlink source ;*
  create_dir_all Io (parent destination) ;*
  let* content := read_file Io source in
  write_file Io destination content.

(** The depth of the tree bounds the recursions over directories. *)
Definition depth (t : tree) : nat := foldr (fun q n => Nat.max (length q) n) 0 (map_to_list t).*1.

Fixpoint copy_tree (fuel : nat) (source destination : path) : act unit :=
  match fuel with
  | O => returns (Ok tt)
  | S fuel =>
      reject_symlink source ;*
      create_dir_all Io destination ;*
      let* entries := read_dir Io source in
      for_each (fun entry =>
          match entry.2 with
          | Dir => copy_tree fuel (source ++ [entry.1]) (destination ++ [entry.1])
          | File _ => copy_file (source ++ [entry.1]) (destination ++ [entry.1])
          end) entries
  end.

(** Runs a recursion over directories with enough fuel. *)
Definition fueled {A : Type} (f : nat → act A) : act A := fun t => f (S (depth t)) t.

(** A loop that appends what its body returns. *)
Fixpoint collect {A B : Type} (f : A → act (list B)) (l : list A) : act (list B) :=
  match l with
  | [] => returns (Ok [])
  | a :: l => let* bs := f a in let* rest := collect f l in returns (Ok (bs ++ rest))
  end.

(** [strip_prefix(root)] of a path in a tree below [root]. *)
Definition strip (root p : path) : path := drop (length root) p.

Fixpoint collect_relative_files (fuel : nat) (root directory : path) : act (list path) :=
  match fuel with
  | O => returns (Ok [])
  | S fuel =>
      let* present := path_exists directory in
      if negb present then returns (Ok []) else
      reject_symlink directory ;*
      let* entries := read_dir Io directory in
      collect (fun entry =>
          let p := directory ++ [entry.1] in
          match entry.2 with
          | Dir => collect_relative_files fuel root p
          | File _ => returns (validate_relative (path_of (strip root p)) ;? Ok [strip root p])
          end) entries
  end.

Fixpoint collect_tree_contents (fuel : nat) (directory relative_root : path) : act (list (path * bytes)) :=
  match fuel with
  | O => returns (Ok [])
  | S fuel =>
      let* present := path_exists directory in
      if negb present then returns (Ok []) else
      reject_symlink directory ;*
      let* entries := read_dir Io directory in
      collect (fun entry =>
          let p := directory ++ [entry.1] in
          match entry.2 with
          | Dir => collect_tree_contents fuel p relative_root
          | File _ =>
              returns (validate_relative (path_of (strip relative_root p))) ;*
              let* content := read_file Io p in
              returns (Ok [(strip relative_root p, content)])
          end) entries
  end.

(** The [BTreeMap] that [collect_tree_contents] fills. *)
Definition tree_contents (directory relative_root : path) : act (gmap path bytes) :=
  let* entries := fueled (fun fuel => collect_tree_contents fuel directory relative_root) in
  returns (Ok (list_to_map (reverse entries))).

Fixpoint remove_new_files (fuel : nat) (directory : path) (baseline : list pathbuf) : act unit :=
  match fuel with
  | O => returns (Ok tt)
  | S fuel =>
      let* present := path_exists directory in
      if negb present then returns (Ok tt) else
      reject_symlink directory ;*
      let* entries := read_dir Io directory in
      for_each (fun entry =>
          match entry.2 with
          | Dir => returns (Ok tt)
          | File _ =>
              let p := directory ++ [entry.1] in
              returns (validate_relative (path_of p)) ;*
              if bool_decide (path_of p ∈ baseline) then returns (Ok tt) else remove_file Io p
          end) entries ;*
      for_each (fun entry =>
          match entry.2 with
          | File _ => returns (Ok tt)
          | Dir =>
              let child := directory ++ [entry.1] in
              remove_new_files fuel child baseline ;*
              let* rest := read_dir Io child in
              match rest with [] => remove_dir Io child | _ => returns (Ok tt) end
          end) entries
  end.

Definition write_staged_file (p : path) (content : bytes) : act unit :=
  create_dir_all Io (parent p) ;*
  reject_symlink (parent p) ;*
  replace_file Io p content.

Definition write_marker (p : path) : act unit := write_new_file Io p [x31; x0a].

(** * The manifest *)

Definition write_manifest (m : TransactionManifest) : act unit :=
  let* encoded := returns (ok_or (to_json m) InvalidManifest) in
  replace_file Io (active ++ [MANIFEST_FILE]) encoded.

Definition parse_manifest (encoded : bytes) : result StateError TransactionManifest :=
  ok_or (from_json encoded) InvalidManifest.

Definition read_manifest : act TransactionManifest :=
  let* encoded := read_file Io (active ++ [MANIFEST_FILE]) in
  let* m := returns (parse_manifest encoded) in
  returns (fail_if (bool_decide (m.(version) ≠ MANIFEST_VERSION)) (UnsupportedManifestVersion m.(version)) ;?
           Ok m).

(** * Ordered profiles *)

(** [vault::has_ordered_fence]. *)
Definition has_ordered_fence : act bool :=
  reads (fun t =>
    match t !! [RATCHET_DIRECTORY; b_str "account.pickle"] with
    | None => Ok false
    | Some (File c) => Ok (bool_decide (c = ORDERED_ACCOUNT_FENCE))
    | Some Dir =>
        if (directory_len =? len ORDERED_ACCOUNT_FENCE)%N
        then Err (Io [RATCHET_DIRECTORY; b_str "account.pickle"]) else Ok false
    end).

(** [vault::has_indexed_anchor]. *)
Definition has_indexed_anchor : act bool :=
  let* fence := has_ordered_fence in
  if negb fence then returns (Ok false) else
  let* present := path_exists [STATE_VAULT_FILE] in
  if negb present then returns (Ok false) else
  reject_symlink [STATE_VAULT_FILE] ;*
  reads indexed_anchor.

(** [vault::recover_ordered_journal]. *)
Definition recover_ordered_journal : act unit :=
  let* present := path_exists [STATE_VAULT_FILE] in
  if negb present then returns (Ok tt) else restore_ordered_shadow.

(** * Beginning *)

Definition prepare_snapshot : act TransactionManifest :=
  let* ratchet_existed := path_exists ratchet in
  (if ratchet_existed then fueled (fun fuel => copy_tree fuel ratchet (backup ++ [RATCHET_DIRECTORY]))
   else returns (Ok tt)) ;*
  let* next_sequence_existed := path_exists next_sequence in
  (if next_sequence_existed then copy_file next_sequence (backup ++ [NEXT_SEQUENCE_FILE])
   else returns (Ok tt)) ;*
  let* files := collect (fun n => fueled (fun fuel => collect_relative_files fuel [] [n])) APPEND_ONLY_ROOTS in
  returns (Ok {| version := MANIFEST_VERSION; ratchet_existed := ratchet_existed;
                 next_sequence_existed := next_sequence_existed;
                 append_only_files := map path_of (sort_by_key id files);
                 compacted_append_only_files := []; ratchet_primary_existed := None;
                 next_sequence_primary_existed := None; trust_primary_prepared := false |}).

(** [StateTransaction::begin]. *)
Definition begin (root : pathbuf) : act StateTransaction :=
  let* fence := has_ordered_fence in
  returns (fail_if fence OrderedWriterRequired) ;*
  let* present := path_exists active in
  returns (fail_if present TransactionAlreadyActive) ;*
  create_dir_all Io backup ;*
  let* manifest := prepare_snapshot in
  write_manifest manifest ;*
  write_marker (marker PREPARED_MARKER) ;*
  returns (Ok {| tx_root := root; ratchet_primary_baseline := None; sequence_primary_prepared := false;
                 trust_primary_baseline := None; append_only_writes := ∅; append_only_removals := ∅ |}).

(** * Ending *)

(** [StateTransaction::commit]. *)
Definition commit : act unit :=
  write_marker (marker COMMITTED_MARKER) ;*
  remove_tree_if_present active.

Definition clear_trust_contents : act unit :=
  for_each (fun n => remove_file_if_present [n]) TRUST_FILES ;*
  for_each (fun n => remove_tree_if_present [n]) TRUST_DIRECTORIES.

(** The checks [rollback_active] makes of the manifest. *)
Definition check_append_only (p : pathbuf) : result StateError unit :=
  validate_relative p ;?
  fail_if (negb (match p with
                 | Normal first :: _ => bool_decide (first ∈ APPEND_ONLY_ROOTS)
                 | _ => false
                 end)) (UnsafeRelativePath p).

Definition check_compacted (m : TransactionManifest) (p : pathbuf) : act unit :=
  returns (validate_relative p ;?
    fail_if (bool_decide (state_record_kind_for_path p ≠ Runtime)
             || negb (bool_decide (p ∈ m.(append_only_files)))) (AppendOnlyCompactionNotAllowed p)) ;*
  let b := compaction_backup ++ names_of p in
  reject_symlink b ;*
  let* file := is_file Io b in
  returns (fail_if (negb file) (InvalidBackup b)).

(** The backup that a rollback restores, and whether there was anything. *)
Definition ratchet_backup (m : TransactionManifest) : bool * path :=
  match m.(ratchet_primary_existed) with
  | Some existed => (existed, primary_backup ++ [RATCHET_DIRECTORY])
  | None => (m.(ratchet_existed), backup ++ [RATCHET_DIRECTORY])
  end.

Definition next_sequence_backup (m : TransactionManifest) : bool * path :=
  match m.(next_sequence_primary_existed) with
  | Some existed => (existed, primary_backup ++ [NEXT_SEQUENCE_FILE])
  | None => (m.(next_sequence_existed), backup ++ [NEXT_SEQUENCE_FILE])
  end.

Definition check_backups (m : TransactionManifest) : act unit :=
  (let '(existed, b) := ratchet_backup m in
   if existed then
     let* present := path_exists b in
     returns (fail_if (negb present) (InvalidBackup b)) ;*
     let* _ := fueled (fun fuel => collect_relative_files fuel active b) in
     returns (Ok tt)
   else returns (Ok tt)) ;*
  (let '(existed, b) := next_sequence_backup m in
   if existed then
     let* present := path_exists b in
     returns (fail_if (negb present) (InvalidBackup b)) ;*
     reject_symlink b ;*
     let* file := is_file Io b in
     returns (fail_if (negb file) (InvalidBackup b))
   else returns (Ok tt)).

Definition restore_ratchet (m : TransactionManifest) : act unit :=
  let '(existed, b) := ratchet_backup m in
  remove_tree_if_present ratchet ;*
  if existed then fueled (fun fuel => copy_tree fuel b ratchet) else returns (Ok tt).

Definition restore_next_sequence (m : TransactionManifest) : act unit :=
  let '(existed, b) := next_sequence_backup m in
  remove_file_if_present next_sequence ;*
  if existed then copy_file b next_sequence else returns (Ok tt).

Definition trust_backup : path := primary_backup ++ [TRUST_PRIMARY_BACKUP_DIRECTORY].

Definition restore_trust (m : TransactionManifest) : act unit :=
  if negb m.(trust_primary_prepared) then returns (Ok tt) else
  let* present := path_exists trust_backup in
  returns (fail_if (negb present) (InvalidBackup trust_backup)) ;*
  clear_trust_contents ;*
  let* contents := tree_contents trust_backup trust_backup in
  for_each (fun entry =>
      returns (fail_if (bool_decide (state_record_kind_for_path (path_of entry.1) ≠ Trust))
                 TrustWorkspaceKindMismatch) ;*
      write_staged_file entry.1 entry.2) (btree_entries contents).

Definition restore_compacted (p : pathbuf) : act unit :=
  reject_relative_symlinks p ;*
  remove_file_if_present (names_of p) ;*
  copy_file (compaction_backup ++ names_of p) (names_of p).

Definition rollback_active : act unit :=
  let* encoded := read_file Io (active ++ [MANIFEST_FILE]) in
  let* m := returns (parse_manifest encoded) in
  returns (fail_if (bool_decide (m.(version) ≠ MANIFEST_VERSION)) (UnsupportedManifestVersion m.(version))) ;*
  returns (try_for check_append_only m.(append_only_files)) ;*
  for_each (check_compacted m) m.(compacted_append_only_files) ;*
  check_backups m ;*
  restore_ratchet m ;*
  restore_next_sequence m ;*
  restore_trust m ;*
  for_each (fun n => fueled (fun fuel => remove_new_files fuel [n] m.(append_only_files))) APPEND_ONLY_ROOTS ;*
  for_each restore_compacted m.(compacted_append_only_files) ;*
  write_marker (marker ROLLED_BACK_MARKER) ;*
  remove_tree_if_present active.

(** * Recovery *)

Definition recover : act unit :=
  let* present := path_exists active in
  if negb present then returns (Ok tt) else
  let* prepared := path_exists (marker PREPARED_MARKER) in
  let* committed := path_exists (marker COMMITTED_MARKER) in
  let* rolled_back := path_exists (marker ROLLED_BACK_MARKER) in
  if negb prepared || committed || rolled_back then remove_tree_if_present active else
  let manifest_path := active ++ [MANIFEST_FILE] in
  let* fence := has_ordered_fence in
  (if fence then
     let* size := reads (fun t =>
       match lookup_node t manifest_path with
       | Some (File c) => Ok (len c) | Some Dir => Ok directory_len | None => Err (Io manifest_path) end) in
     returns (fail_if (1024 <? size)%N OrderedState)
   else returns (Ok tt)) ;*
  let* raw := read_file Io manifest_path in
  let* anchor := has_indexed_anchor in
  returns (fail_if anchor OrderedWriterRequired) ;*
  let* m := returns (parse_manifest raw) in
  if bool_decide (m.(version) = x02) then recover_ordered_journal ;* remove_tree_if_present active
  else rollback_active.
End transaction.
