(* ===== verification/StateTransactionFacts.v ===== *)
(** The file operations of [StateTransaction], by the rules of
    [FileTreeFacts]: what each leaves in the tree, and that a crash on the way
    keeps every invariant that is open to its changes. *)

From stdpp Require Import base tactics list numbers strings gmap.
From Stdlib Require Import Strings.Byte.
From S2P Require Import Prelude FileTree FileTreeFacts StateTransaction.

Section files.
Context `{FileSystemLaws}.
Implicit Types (I : tree → Prop) (R : path → node → Prop) (t : tree).

Lemma wp_reject_symlink I p (Q : unit → tree → Prop) t :
  is_Some (lookup_node t p) → I t → Q tt t → wp I (reject_symlink p) Q t.
Proof. intros [x Hx] Hi Hq. eapply wp_reads; [by rewrite Hx|done..]. Qed.

Lemma nothing_below t p q : wf t → p ≠ [] → t !! p = None → p `prefix_of` q → t !! q = None.
Proof.
  intros Hw Hp Hn [r ->]. destruct (t !! (p ++ r)) eqn:E; [|done]. destruct r as [|a r]; [by rewrite app_nil_r, Hn in E|].
  assert (lookup_node t p = Some Dir) as Hd. { apply (wf_prefix t p (a :: r) Hw); [|done]. rewrite lookup_node_ne; [by rewrite E|by destruct p]. }
  by rewrite lookup_node_ne, Hn in Hd.
Qed.

Lemma nothing_below_file t p c n r : wf t → t !! p = Some (File c) → p ≠ [] → t !! (p ++ n :: r) = None.
Proof.
  intros Hw Hp Hn. destruct (t !! (p ++ n :: r)) eqn:E; [|done].
  assert (lookup_node t p = Some Dir) as Hd. { apply (wf_prefix t p (n :: r) Hw); [|done]. rewrite lookup_node_ne; [by rewrite E|by destruct p]. }
  by rewrite lookup_node_ne, Hp in Hd.
Qed.

(** ** Removing *)

Definition cut (p : path) (t t' : tree) : Prop := ∀ q, t' !! q = if decide (p `prefix_of` q) then None else t !! q.

Lemma wp_remove_tree I R p (Q : unit → tree → Prop) t :
  wf t → I t → shrinks I R → (∀ q x, p `prefix_of` q → R q x) → p ≠ [] → (∀ c, t !! p ≠ Some (File c)) →
  (∀ t', cut p t t' → I t' → Q tt t') → wp I (remove_tree_if_present p) Q t.
Proof.
  intros Hw Hi Hs HR Hp Hf HQ. unfold remove_tree_if_present. apply wp_bind, wp_path_exists; [done|].
  rewrite lookup_node_ne by done. destruct (t !! p) as [[|c]|] eqn:E; cbn [negb].
  - apply wp_bind, wp_reject_symlink; [by rewrite lookup_node_ne, E|done|]. by eapply wp_remove_dir_all.
  - by destruct (Hf c).
  - apply wp_returns; [done|]. apply HQ; [|done]. intros q. case_decide; [|done]. by eapply nothing_below.
Qed.

Lemma wp_remove_file_present I R p (Q : unit → tree → Prop) t :
  wf t → I t → shrinks I R → (∀ c, R p (File c)) → p ≠ [] → t !! p ≠ Some Dir →
  (∀ t', (∀ q, t' !! q = if decide (q = p) then None else t !! q) → I t' → Q tt t') →
  wp I (remove_file_if_present p) Q t.
Proof.
  intros Hw Hi Hs HR Hp Hd HQ. unfold remove_file_if_present. apply wp_bind, wp_path_exists; [done|].
  rewrite lookup_node_ne by done. destruct (t !! p) as [[|c]|] eqn:E; [done| |].
  - apply wp_bind, wp_reject_symlink; [by rewrite lookup_node_ne, E|done|].
    assert (∀ n, t !! (p ++ [n]) = None) as Hc.
    { intros n. destruct (t !! (p ++ [n])) eqn:Ex; [|done]. exfalso.
      assert (lookup_node t p = Some Dir) as Hx by (eapply wf_parent; [done|by rewrite Ex]). by rewrite lookup_node_ne, E in Hx. }
    eapply (wp_remove_file Io I R); [done..|by apply HR|done|]. apply HQ.
    + intros q. case_decide as Hq; [subst; by rewrite lookup_delete_eq|by rewrite lookup_delete_ne].
    + by eapply Hs.
  - apply wp_returns; [done|]. apply HQ; [|done]. intros q. by case_decide; subst.
Qed.

(** ** Copying *)

(** [dst] and the directories on the way to it. *)
Definition file_copied (dst : path) (c : bytes) (t t' : tree) : Prop :=
  ∀ q, t' !! q = if decide (q = dst) then Some (File c)
                 else if decide (q `prefix_of` parent dst ∧ q ≠ []) then Some Dir else t !! q.

Lemma parent_prefix (p : path) : parent p `prefix_of` p.
Proof. unfold parent. apply prefix_take. Qed.

Lemma parent_ne (p : path) : p ≠ [] → ¬ p `prefix_of` parent p.
Proof. intros Hp Hx%prefix_length. unfold parent in Hx. rewrite length_take in Hx. destruct p; [done|]. cbn in Hx. lia. Qed.

Lemma dirs_added_parent p t t' : wf t' → dirs_added p t t' → lookup_node t' p = Some Dir.
Proof. intros _ Ha. destruct p as [|a p]; [done|]. cbn. rewrite Ha, decide_True; [done|]. split; [done|done]. Qed.

Lemma wp_copy_file I R src dst c (Q : unit → tree → Prop) t :
  wf t → I t → grows I R → t !! src = Some (File c) → src ≠ [] → dst ≠ [] →
  (∀ q, q `prefix_of` parent dst → R q Dir) → (∀ c', torn_content c c' → R dst (File c')) →
  (∀ q c', q `prefix_of` parent dst → t !! q ≠ Some (File c')) → t !! dst ≠ Some Dir →
  (∀ t', wf t' → I t' → file_copied dst c t t' → Q tt t') → wp I (copy_file src dst) Q t.
Proof.
  intros Hw Hi Hg Hs Hsn Hdn HR1 HR2 Hf Hd HQ. unfold copy_file.
  apply wp_bind, wp_reject_symlink; [by rewrite lookup_node_ne, Hs|done|]. apply wp_bind.
  apply (wp_create_dir_all Io I R); [done..|]. intros t1 Hw1 Hi1 Ha.
  assert (t1 !! src = Some (File c)) as Hs1.
  { rewrite Ha, decide_False; [done|]. intros [Hp _]. by apply (Hf src c). }
  apply wp_bind. eapply wp_read_file; [done..|].
  assert (t1 !! dst = t !! dst) as Hdst.
  { rewrite Ha, decide_False; [done|]. intros [Hp _]. by apply (parent_ne dst). }
  assert (lookup_node t1 (parent dst) = Some Dir) as Hpar by by eapply dirs_added_parent.
  eapply (wp_write_file Io I R); [done|done|done|done|done|by rewrite Hdst|]. apply HQ.
  - apply wf_insert; [done..|]. by rewrite Hdst.
  - apply Hg; [done|by apply HR2, torn_content_refl|done|done|]. by rewrite Hdst.
  - intros q. case_decide as Hq; [subst; by rewrite lookup_insert_eq|]. rewrite lookup_insert_ne by done. apply Ha.
Qed.

Definition tree_copied (src dst : path) (t t' : tree) : Prop :=
  ∀ q, t' !! q = if decide (dst `prefix_of` q ∧ q ≠ dst) then t !! (src ++ strip dst q)
                 else if decide (q `prefix_of` dst ∧ q ≠ []) then Some Dir else t !! q.

Lemma strip_app (p q : path) : strip p (p ++ q) = q.
Proof. unfold strip. by rewrite drop_app_length. Qed.

(** What an invariant must be open to for the tree at [src] to be copied to
    [dst]. *)
Definition torn_node (x y : node) : Prop :=
  match x, y with Dir, Dir => True | File c, File c' => torn_content c c' | _, _ => False end.

Definition copy_region (t : tree) (src dst q : path) (x : node) : Prop :=
  (q `prefix_of` dst ∧ x = Dir) ∨
  ∃ n r y, q = dst ++ n :: r ∧ t !! (src ++ n :: r) = Some y ∧ torn_node y x.

Lemma copy_region_below t u src dst n q x :
  (∀ r, u !! (src ++ n :: r) = t !! (src ++ n :: r)) → t !! (src ++ [n]) = Some Dir →
  copy_region u (src ++ [n]) (dst ++ [n]) q x → copy_region t src dst q x.
Proof.
  intros Hu Hn [[[Hp| ->]%prefix_snoc_cases ->]|(m & r & y & -> & Hy & Hx)]; [by left|right..].
  - by exists n, [], Dir.
  - exists n, (m :: r), y. rewrite <-app_assoc in Hy |- *. cbn in *. by rewrite <-Hu.
Qed.

(** Neither path is below the other. *)
Definition apart (p q : path) : Prop := ¬ p `prefix_of` q ∧ ¬ q `prefix_of` p.

Lemma apart_below p q r s : apart p q → p ++ r ≠ q ++ s.
Proof.
  intros [H1 H2] Heq. destruct (prefix_weak_total p q (p ++ r)) as [Hx|Hx]; [by exists r| |done|done]. by exists s.
Qed.

Lemma apart_app p q r s : apart p q → apart (p ++ r) (q ++ s).
Proof.
  intros Ha. split; intros [x Hx].
  - rewrite <-app_assoc in Hx. by eapply apart_below in Hx; [|by destruct Ha].
  - rewrite <-app_assoc in Hx. by eapply apart_below in Hx.
Qed.

Lemma below_cases (p q : path) : p `prefix_of` q → q = p ∨ ∃ n r, q = p ++ n :: r.
Proof. intros [[|n r] ->]; [left; by rewrite app_nil_r|right; by exists n, r]. Qed.

Lemma cons_ne (p : path) n r : p ++ n :: r ≠ p.
Proof. intros Hx. rewrite <-(app_nil_r p) in Hx at 2. by apply app_inv_head in Hx. Qed.

Lemma tree_copied_below src dst t t' n r : tree_copied src dst t t' → t' !! (dst ++ n :: r) = t !! (src ++ n :: r).
Proof. intros Hc. rewrite Hc, decide_True by (split; [by apply prefix_app_r|apply cons_ne]). by rewrite strip_app. Qed.

(** The copy of a directory when the entries [rest] are still to be copied;
    [t1] is the tree with the directory itself. *)
Definition partly_copied (src dst : path) (t t1 : tree) (rest : list (name * node)) (u : tree) : Prop :=
  wf u ∧ NoDup rest.*1 ∧ (∀ n x, (n, x) ∈ rest → t !! (src ++ [n]) = Some x) ∧
  (∀ n r, u !! (dst ++ n :: r) = if decide (n ∈ rest.*1) then None else t !! (src ++ n :: r)) ∧
  (∀ q, ¬ (dst `prefix_of` q ∧ q ≠ dst) → u !! q = t1 !! q).

(** One entry, whatever copied it. *)
Lemma partly_copied_step src dst t t1 n x rest u u' :
  dirs_added dst t t1 → partly_copied src dst t t1 ((n, x) :: rest) u → wf u' →
  (∀ r, u' !! (dst ++ n :: r) = t !! (src ++ n :: r)) →
  (∀ q, ¬ (dst ++ [n]) `prefix_of` q → u' !! q = if decide (q `prefix_of` dst ∧ q ≠ []) then Some Dir else u !! q) →
  partly_copied src dst t t1 rest u'.
Proof.
  intros Ha (Hw & Hd & Hin & Hb & Ho) Hw' Hn Hq. cbn in Hd. apply NoDup_cons in Hd as [Hnr Hd]. split_and!; [done|done| | |].
  - intros m y Hm. apply Hin. by right.
  - intros m r. destruct (decide (m = n)) as [->|Hmn].
    + rewrite Hn. by rewrite decide_False.
    + rewrite Hq. 2:{ intros [s Hs]. rewrite <-app_assoc in Hs. apply app_inv_head in Hs. by injection Hs as ->. }
      rewrite decide_False. 2:{ intros [[s Hs] _]. rewrite <-app_assoc in Hs. by apply (cons_ne dst m (r ++ s)). }
      rewrite Hb. cbn. apply decide_ext. rewrite elem_of_cons. intuition congruence.
  - intros q Hnot. rewrite Hq.
    + case_decide as Hp; [by rewrite Ha, decide_True|by apply Ho].
    + intros Hp. apply Hnot. split; [by etrans; [apply prefix_app_r|]|]. intros ->. apply prefix_length in Hp. rewrite length_app in Hp. cbn in Hp. lia.
Qed.

Lemma prefix_below_not (dst q : path) n : q `prefix_of` dst ++ [n] → ¬ (dst ++ [n]) `prefix_of` q → q `prefix_of` dst.
Proof. intros [Hp| ->]%prefix_snoc_cases Hn; [done|]. by destruct Hn. Qed.

Section entries.
Context (I : tree → Prop) (src dst : path) (t t1 : tree).
Context (Hap : apart src dst) (Hsn : src ≠ []) (Hdn : dst ≠ []).
Context (Hf : ∀ q c, q `prefix_of` dst → t !! q ≠ Some (File c)).
Context (Ha : dirs_added dst t t1) (Hg : grows I (copy_region t src dst)).

Lemma dirs_added_apart q : t1 !! (src ++ q) = t !! (src ++ q).
Proof.
  rewrite Ha, decide_False; [done|]. intros [[r Hr] _]. apply (apart_below src dst (q ++ r) [] Hap).
  by rewrite app_nil_r, app_assoc.
Qed.

Lemma partly_copied_source n x rest u q :
  partly_copied src dst t t1 ((n, x) :: rest) u → u !! (src ++ q) = t !! (src ++ q).
Proof.
  intros (_ & _ & _ & _ & Ho). rewrite Ho, dirs_added_apart; [done|]. intros [[r Hr] _]. by apply (apart_below src dst q r Hap).
Qed.

Lemma partly_copied_target n x rest u q : partly_copied src dst t t1 ((n, x) :: rest) u → u !! (dst ++ n :: q) = None.
Proof. intros (_ & _ & _ & Hb & _). rewrite Hb, decide_True; [done|]. by left. Qed.

Lemma partly_copied_above n x rest u q c :
  partly_copied src dst t t1 ((n, x) :: rest) u → q `prefix_of` dst → u !! q ≠ Some (File c).
Proof.
  intros (_ & _ & _ & _ & Ho) Hq. rewrite Ho. 2:{ intros [Hq' Hne]. apply Hne. by apply (anti_symm prefix). }
  rewrite Ha. case_decide; [done|by apply Hf].
Qed.

Lemma copy_file_entry n c rest u :
  I u → partly_copied src dst t t1 ((n, File c) :: rest) u →
  wp I (copy_file (src ++ [n]) (dst ++ [n])) (fun _ u' => I u' ∧ partly_copied src dst t t1 rest u') u.
Proof.
  intros Hi Hu. pose proof Hu as (Hwu & _ & Hin & _). assert (t !! (src ++ [n]) = Some (File c)) as Hx by (apply Hin; by left).
  assert (u !! (src ++ [n]) = Some (File c)) as Hxu by by erewrite partly_copied_source.
  apply (wp_copy_file I (copy_region t src dst) (src ++ [n]) (dst ++ [n]) c); [done|done|done|done|by destruct src|by destruct dst|..].
  - rewrite parent_snoc. intros q Hq. by left.
  - intros c' Hc. right. by exists n, [], (File c).
  - rewrite parent_snoc. intros q c'. by eapply partly_copied_above.
  - by erewrite (partly_copied_target _ _ _ _ []).
  - intros u' Hwu' Hiu' Hc. split; [done|]. eapply partly_copied_step; [done..| |].
    + intros [|m r]; rewrite Hc; [by rewrite decide_True, Hx|]. rewrite decide_False, decide_False.
      * rewrite (partly_copied_target _ _ _ _ _ Hu). symmetry. rewrite <-(partly_copied_source _ _ _ _ (n :: m :: r) Hu).
        replace (src ++ n :: m :: r) with ((src ++ [n]) ++ m :: r) by by rewrite <-app_assoc.
        apply (nothing_below_file u _ c); [done..|by destruct src].
      * rewrite parent_snoc. intros [Hp _]. by apply (not_prefix_below dst (n :: m :: r)) in Hp.
      * intros Hx'. by apply app_inv_head in Hx'.
    + intros q Hq. rewrite Hc. rewrite decide_False by (by intros ->; apply Hq). by rewrite parent_snoc.
Qed.

Lemma tree_copied_entry n rest u u' :
  t !! (src ++ [n]) = Some Dir → partly_copied src dst t t1 ((n, Dir) :: rest) u → wf u' →
  tree_copied (src ++ [n]) (dst ++ [n]) u u' → partly_copied src dst t t1 rest u'.
Proof.
  intros Hx Hu Hw Hc. eapply partly_copied_step; [done..| |].
  - intros [|m r].
    + rewrite Hc, decide_False by (by intros [_ []]). rewrite decide_True; [by rewrite Hx|]. split; [done|by destruct dst].
    + pose proof (tree_copied_below _ _ _ _ m r Hc) as Hx'. rewrite <-!app_assoc in Hx'. cbn in Hx'.
      by rewrite Hx', (partly_copied_source _ _ _ _ _ Hu).
  - intros q Hq. rewrite Hc. rewrite decide_False by (by intros [? _]). apply decide_ext. split; intros [H1 H2]; (split; [|done]).
    + by eapply prefix_below_not.
    + by etrans; [|apply prefix_app_r].
Qed.
End entries.

Lemma wp_copy_tree I fuel src dst (Q : unit → tree → Prop) t :
  wf t → I t → grows I (copy_region t src dst) → t !! src = Some Dir → src ≠ [] → dst ≠ [] → apart src dst →
  (∀ q, q ≠ [] → t !! (dst ++ q) = None) → (∀ q c, q `prefix_of` dst → t !! q ≠ Some (File c)) →
  (∀ q, is_Some (t !! (src ++ q)) → length q < fuel) →
  (∀ t', wf t' → I t' → tree_copied src dst t t' → Q tt t') → wp I (copy_tree fuel src dst) Q t.
Proof.
  revert src dst Q t. induction fuel as [|fuel IH]; intros src dst Q t Hw Hi Hg Hs Hsn Hdn Hap Hempty Hf Hfuel HQ.
  { assert (length ([] : path) < 0) by (apply Hfuel; by rewrite app_nil_r, Hs). cbn in *; lia. }
  cbn [copy_tree]. apply wp_bind. apply wp_reject_symlink; [rewrite lookup_node_ne by done; by rewrite Hs|done|]. apply wp_bind.
  eapply (wp_create_dir_all Io I (copy_region t src dst)); [done..| |done|]. { intros q Hq. by left. }
  intros t1 Hw1 Hi1 Ha. pose proof (dirs_added_apart src dst t t1 Hap Ha) as Hsrc.
  assert (t1 !! src = Some Dir) as Hs1 by (rewrite <-(app_nil_r src), Hsrc, app_nil_r; done).
  apply wp_bind. apply (wp_read_dir Io I src); [by destruct src|done|]. intros l Hld Hl.
  eapply wp_conseq.
  - apply (wp_for_each I _ (fun rest u => I u ∧ partly_copied src dst t t1 rest u)); [|by intros ? [? _]|].
    + intros [n [|c]] rest u [Hiu Hu]; cbn [fst snd]; [|by eapply copy_file_entry].
      pose proof Hu as (Hwu & _ & Hin & _). assert (t !! (src ++ [n]) = Some Dir) as Hx by (apply Hin; by left).
      pose proof (partly_copied_source src dst t t1 Hap Ha n Dir rest u) as Hus.
      pose proof (partly_copied_target src dst t t1 n Dir rest u) as Hun.
      apply IH; [done|done| |by rewrite Hus|by destruct src|by destruct dst|by apply apart_app|..].
      * eapply grows_mono; [|done]. intros q x. apply copy_region_below; [|done]. intros r. by apply Hus.
      * intros q _. rewrite <-app_assoc. by apply Hun.
      * intros q c [Hp| ->]%prefix_snoc_cases; [by eapply partly_copied_above|by rewrite (Hun [])].
      * intros q. rewrite <-app_assoc, Hus by done. cbn. intros Hq. apply Hfuel in Hq. cbn in Hq. lia.
      * intros u' Hwu' Hiu' Hc. split; [done|]. by eapply tree_copied_entry.
    + split; [done|]. split_and!; [done|done|intros n x; rewrite Hl; by rewrite Hsrc| |done].
      intros n r. rewrite Ha, decide_False by (intros [Hp _]; by apply (not_prefix_below dst (n :: r)) in Hp). rewrite Hempty by done.
      case_decide as Hn; [done|]. symmetry. destruct (t !! (src ++ [n])) as [x|] eqn:Ex.
      * destruct Hn. apply list_elem_of_fmap. exists (n, x). split; [done|]. apply Hl. by rewrite Hsrc.
      * replace (src ++ n :: r) with ((src ++ [n]) ++ r) by by rewrite <-app_assoc.
        apply (nothing_below t (src ++ [n])); [done|by destruct src|done|by apply prefix_app_r].
  - cbn. intros [] u [Hiu (Hwu & _ & _ & Hb & Ho)]. apply HQ; [done..|]. intros q. case_decide as Hq.
    + destruct Hq as [Hp Hn]. apply below_cases in Hp as [->|(n & r & ->)]; [done|]. rewrite Hb, strip_app. done.
    + rewrite Ho by done. apply Ha.
Qed.

(** ** Fuel *)

Lemma depth_bound t q : is_Some (t !! q) → length q ≤ depth t.
Proof.
  intros [x Hx%elem_of_map_to_list]. unfold depth. assert (q ∈ (map_to_list t).*1) as Hin by (apply list_elem_of_fmap; by exists (q, x)).
  induction (map_to_list t).*1 as [|r l IH]; [by apply elem_of_nil in Hin|]. cbn. apply elem_of_cons in Hin as [->|Hin]; [lia|].
  specialize (IH Hin). lia.
Qed.

Lemma depth_enough t p q : is_Some (t !! (p ++ q)) → length q < S (depth t).
Proof. intros Hq%depth_bound. rewrite length_app in Hq. lia. Qed.

Lemma wp_fueled {A} I (f : nat → action StateError A) (Q : A → tree → Prop) t :
  wp I (f (S (depth t))) Q t → wp I (fueled f) Q t.
Proof. done. Qed.

(** ** Reading directories *)

Lemma wp_collect {A B} I (f : A → action StateError (list B)) (P : A → list B → Prop) t l :
  I t → (∀ a, a ∈ l → wp I (f a) (fun bs t' => t' = t ∧ P a bs) t) →
  wp I (collect f l) (fun bs t' => t' = t ∧ ∃ bss, bs = concat bss ∧ Forall2 P l bss) t.
Proof.
  intros Hi Hf. induction l as [|a l IH]; cbn [collect].
  - apply wp_returns; [done|]. split; [done|]. exists []. by split.
  - apply wp_bind. eapply wp_conseq; [apply Hf; by left|]. cbn. intros bs t' [-> Hbs]. apply wp_bind.
    eapply wp_conseq; [apply IH; intros b Hb; apply Hf; by right|]. cbn. intros rest t' [-> (bss & -> & Hr)].
    apply wp_returns; [done|]. split; [done|]. exists (bs :: bss). split; [done|by constructor].
Qed.

Lemma validate_relative_ok (p : path) : p ≠ [] → validate_relative (path_of p) = Ok tt.
Proof.
  intros Hp. unfold validate_relative. apply fail_if_ok. rewrite orb_false_iff. split; [by destruct p|].
  clear Hp. induction p; cbn; auto.
Qed.

(** The files below a directory, each as [g] shows it. *)
Definition listed {B} (g : path → bytes → B) (t : tree) (p : path) (bs : list B) : Prop :=
  ∀ b, b ∈ bs ↔ ∃ r c, t !! (p ++ r) = Some (File c) ∧ b = g (p ++ r) c.

Lemma listed_none {B} (g : path → bytes → B) t p : wf t → p ≠ [] → t !! p = None → listed g t p [].
Proof.
  intros Hw Hp Hn b. split; [by intros ?%elem_of_nil|]. intros (r & c & Hr & _).
  rewrite (nothing_below t p) in Hr; [done..|by apply prefix_app_r].
Qed.

Lemma listed_file {B} (g : path → bytes → B) t p c : wf t → p ≠ [] → t !! p = Some (File c) → listed g t p [g p c].
Proof.
  intros Hw Hp Hc b. rewrite list_elem_of_singleton. split.
  - intros ->. exists [], c. by rewrite !app_nil_r.
  - intros ([|n r] & c' & Hr & ->); [rewrite app_nil_r in *; congruence|]. by rewrite (nothing_below_file t p c) in Hr.
Qed.

Lemma listed_entries {B} (g : path → bytes → B) t p (l : list (name * node)) (bss : list (list B)) :
  wf t → p ≠ [] → t !! p = Some Dir → (∀ n x, (n, x) ∈ l ↔ t !! (p ++ [n]) = Some x) →
  Forall2 (fun entry bs => listed g t (p ++ [entry.1]) bs) l bss → listed g t p (concat bss).
Proof.
  intros Hw Hp Hd Hl Hb b. rewrite list_elem_of_In, in_concat. split.
  - intros (bs & Hbs & Hin). apply list_elem_of_In in Hbs, Hin. apply list_elem_of_lookup in Hbs as [i Hi].
    destruct (Forall2_lookup_r _ _ _ _ _ Hb Hi) as ([n x] & Hn & Hx). destruct (proj1 (Hx b) Hin) as (r & c & Hr & ->).
    exists (n :: r), c. rewrite <-app_assoc in Hr |- *. done.
  - intros (r & c & Hr & ->). destruct r as [|n r]; [rewrite app_nil_r in Hr; congruence|].
    assert (is_Some (t !! (p ++ [n]))) as [x Hx].
    { destruct (t !! (p ++ [n])) eqn:E; [done|]. rewrite (nothing_below t (p ++ [n])) in Hr; [done|done|by destruct p|done|].
      exists r. by rewrite <-app_assoc. }
    apply Hl in Hx. apply list_elem_of_lookup in Hx as [i Hi]. destruct (Forall2_lookup_l _ _ _ _ _ Hb Hi) as (bs & Hbs & Hin).
    exists bs. rewrite <-!list_elem_of_In. split; [by eapply list_elem_of_lookup_2|]. apply Hin. exists r, c.
    rewrite <-app_assoc. done.
Qed.

Lemma strip_ne (root p : path) n : root `prefix_of` p → strip root (p ++ [n]) ≠ [].
Proof. intros [r ->]. rewrite <-app_assoc, strip_app. by destruct r. Qed.

(** Both recursions list the files below a directory. *)
Lemma wp_directory {B} I (g : path → bytes → B) (f : name * node → action StateError (list B)) p t (Q : list B → tree → Prop) :
  wf t → I t → p ≠ [] → (∀ c, t !! p ≠ Some (File c)) →
  (t !! p = Some Dir → ∀ n x, t !! (p ++ [n]) = Some x → wp I (f (n, x)) (fun bs t' => t' = t ∧ listed g t (p ++ [n]) bs) t) →
  (∀ bs, listed g t p bs → Q bs t) →
  wp I (let* present := path_exists p in
        if negb present then returns (Ok []) else
        reject_symlink p ;* let* entries := read_dir Io p in collect f entries) Q t.
Proof.
  intros Hw Hi Hp Hf He HQ. apply wp_bind, wp_path_exists; [done|]. rewrite lookup_node_ne by done.
  destruct (t !! p) as [[|c]|] eqn:E; cbn [negb]; [|by destruct (Hf c)|apply wp_returns; [done|]; by apply HQ, listed_none].
  apply wp_bind. apply wp_reject_symlink; [rewrite lookup_node_ne by done; by rewrite E|done|].
  apply wp_bind. apply (wp_read_dir Io I p); [rewrite lookup_node_ne by done; by rewrite E|done|]. intros l _ Hl.
  eapply wp_conseq.
  - apply (wp_collect I f (fun entry bs => listed g t (p ++ [entry.1]) bs)); [done|]. intros [n x] Hn. apply He; [done|]. by apply Hl.
  - cbn. intros bs t' [-> (bss & -> & Hb)]. apply HQ. by eapply listed_entries.
Qed.

Lemma wp_collect_relative_files I fuel root p (Q : list path → tree → Prop) t :
  wf t → I t → p ≠ [] → root `prefix_of` p → (∀ c, t !! p ≠ Some (File c)) →
  (∀ q, is_Some (t !! (p ++ q)) → length q < fuel) →
  (∀ l, listed (fun q _ => strip root q) t p l → Q l t) → wp I (collect_relative_files fuel root p) Q t.
Proof.
  intros Hw Hi. revert p Q. induction fuel as [|fuel IH]; intros p Q Hp Hr Hf Hfuel HQ.
  { cbn. apply wp_returns; [done|]. apply HQ, listed_none; [done..|]. destruct (t !! p) eqn:E; [|done].
    assert (length ([] : path) < 0) by (apply Hfuel; by rewrite app_nil_r, E). lia. }
  cbn [collect_relative_files]. apply (wp_directory I (fun q _ => strip root q)); [done..| |done]. intros Hd n [|c] Hx; cbn [fst snd].
  - apply IH; [by destruct p|by apply prefix_app_r|by rewrite Hx| |done]. intros q Hq. rewrite <-app_assoc in Hq. apply Hfuel in Hq. cbn in Hq. lia.
  - rewrite validate_relative_ok by by apply strip_ne. apply wp_returns; [done|]. split; [done|].
    apply (listed_file (fun q _ => strip root q) t _ c); [done|by destruct p|done].
Qed.

Lemma wp_collect_tree_contents I fuel root p (Q : list (path * bytes) → tree → Prop) t :
  wf t → I t → p ≠ [] → root `prefix_of` p → (∀ c, t !! p ≠ Some (File c)) →
  (∀ q, is_Some (t !! (p ++ q)) → length q < fuel) →
  (∀ l, listed (fun q c => (strip root q, c)) t p l → Q l t) → wp I (collect_tree_contents fuel p root) Q t.
Proof.
  intros Hw Hi. revert p Q. induction fuel as [|fuel IH]; intros p Q Hp Hr Hf Hfuel HQ.
  { cbn. apply wp_returns; [done|]. apply HQ, listed_none; [done..|]. destruct (t !! p) eqn:E; [|done].
    assert (length ([] : path) < 0) by (apply Hfuel; by rewrite app_nil_r, E). lia. }
  cbn [collect_tree_contents]. apply (wp_directory I (fun q c => (strip root q, c))); [done..| |done]. intros Hd n [|c] Hx; cbn [fst snd].
  - apply IH; [by destruct p|by apply prefix_app_r|by rewrite Hx| |done]. intros q Hq. rewrite <-app_assoc in Hq. apply Hfuel in Hq. cbn in Hq. lia.
  - rewrite validate_relative_ok by by apply strip_ne. apply wp_bind, wp_returns; [done|]. apply wp_bind.
    apply (wp_read_file Io I _ c); [done|by destruct p|done|]. apply wp_returns; [done|]. split; [done|].
    apply (listed_file (fun q c => (strip root q, c)) t _ c); [done|by destruct p|done].
Qed.

Lemma wp_tree_contents I p (Q : gmap path bytes → tree → Prop) t :
  wf t → I t → p ≠ [] → t !! p = Some Dir →
  (∀ m : gmap path bytes, (∀ q c, m !! q = Some c ↔ t !! (p ++ q) = Some (File c)) → Q m t) → wp I (tree_contents p p) Q t.
Proof.
  intros Hw Hi Hp Hd HQ. unfold tree_contents. apply wp_bind, wp_fueled.
  apply wp_collect_tree_contents; [done..|by rewrite Hd|by apply depth_enough|]. intros l Hl. apply wp_returns; [done|]. apply HQ.
  assert (∀ q c, (q, c) ∈ reverse l ↔ t !! (p ++ q) = Some (File c)) as Hrev.
  { intros q c. rewrite elem_of_reverse, (Hl (q, c)). split; [|intros Hq; exists q, c; by rewrite strip_app].
    intros (r & c' & Hr & [= -> ->]). by rewrite strip_app. }
  intros q c. split.
  - intros Hq%elem_of_list_to_map_2. by apply Hrev.
  - intros Hq. apply elem_of_list_to_map_1'; [|by apply Hrev]. intros c' Hc'%Hrev. congruence.
Qed.

(** ** Removing the files that are not listed *)

Definition below (p q : path) : Prop := p `prefix_of` q ∧ q ≠ p.

Lemma below_cons p n r : below p (p ++ n :: r).
Proof. split; [by apply prefix_app_r|apply cons_ne]. Qed.

Lemma below_snoc p n q : (p ++ [n]) `prefix_of` q → below p q.
Proof. intros [r ->]. rewrite <-app_assoc. apply below_cons. Qed.

Section new_files.
Context (I : tree → Prop) (R : path → node → Prop) (baseline : list pathbuf) (Hs : shrinks I R).

(** [u] is [t] without some nodes below [p], none of them a listed file. *)
Definition kept (p : path) (t u : tree) : Prop :=
  (∀ q x, u !! q = Some x → t !! q = Some x) ∧
  (∀ q x, t !! q = Some x → ¬ below p q ∨ (∃ c, x = File c) ∧ path_of q ∈ baseline → u !! q = Some x).

(** Only listed files are left at the paths of [S]. *)
Definition clean (S : path → Prop) (u : tree) : Prop := ∀ q c, u !! q = Some (File c) → S q → path_of q ∈ baseline.

Lemma kept_refl p t : kept p t t.
Proof. by split. Qed.

Lemma kept_trans p p' t u v : (∀ q, below p' q → below p q) → kept p t u → kept p' u v → kept p t v.
Proof.
  intros Hb [H1 H2] [H3 H4]. split; [auto|]. intros q x Hq Hc. apply H4; [by apply H2|]. destruct Hc as [Hc|Hc]; [left|by right]. auto.
Qed.

Lemma kept_delete p t u q x :
  kept p t u → u !! q = Some x → below p q → (x = Dir ∨ path_of q ∉ baseline) → kept p t (delete q u).
Proof.
  intros Hk Hq Hb Hx. eapply (kept_trans p p); [done..|]. split; [intros r y [_ ?]%lookup_delete_Some; done|].
  intros r y Hr Hc. rewrite lookup_delete_ne; [done|]. intros <-. rewrite Hq in Hr. injection Hr as <-.
  destruct Hc as [Hc|[[c ->] Hc]]; [done|]. by destruct Hx.
Qed.

Lemma clean_kept p S u v : kept p u v → clean S u → clean S v.
Proof. intros [Hk _] Hc q c Hq. by eapply Hc, Hk. Qed.

(** The state of the first loop, over the files. *)
Definition removing_files (p : path) (t : tree) (rest : list (name * node)) (u : tree) : Prop :=
  wf u ∧ I u ∧ kept p t u ∧ NoDup rest.*1 ∧ (∀ n x, (n, x) ∈ rest → u !! (p ++ [n]) = Some x) ∧
  (∀ q, t !! q = Some Dir → u !! q = Some Dir) ∧ clean (fun q => ∃ n, q = p ++ [n] ∧ n ∉ rest.*1) u.

Lemma removing_files_skip p t n x rest u :
  removing_files p t ((n, x) :: rest) u → (∀ c, x = File c → path_of (p ++ [n]) ∈ baseline) → removing_files p t rest u.
Proof.
  intros (Hw & Hi & Hk & Hd & Hr & Hdir & Hc) Hx. cbn in Hd. apply NoDup_cons in Hd as [Hn Hd].
  split_and!; [done..|intros m y Hm; apply Hr; by right|done|]. intros q c Hq (m & -> & Hm). destruct (decide (m = n)) as [->|Hmn].
  - apply (Hx c). rewrite (Hr n x) in Hq by left. congruence.
  - apply (Hc _ c Hq). exists m. split; [done|]. cbn. rewrite elem_of_cons. by intros [?|?].
Qed.

Lemma removing_files_delete p t n c rest u :
  p ≠ [] → (∀ q x, below p q → x = Dir ∨ path_of q ∉ baseline → R q x) →
  removing_files p t ((n, File c) :: rest) u → path_of (p ++ [n]) ∉ baseline →
  removing_files p t rest (delete (p ++ [n]) u).
Proof.
  intros Hp HR (Hw & Hi & Hk & Hd & Hr & Hdir & Hc) Hx. cbn in Hd. apply NoDup_cons in Hd as [Hn Hd].
  assert (u !! (p ++ [n]) = Some (File c)) as Hu by (apply Hr; by left).
  assert (∀ m, u !! ((p ++ [n]) ++ [m]) = None) as Hnone by (intros m; apply (nothing_below_file u _ c); [done|done|by destruct p]).
  assert (below p (p ++ [n])) as Hb by apply below_cons. split_and!; [by apply wf_delete| | |done| | |].
  - eapply Hs; [done|done|apply HR; [done|by right]|done].
  - eapply kept_delete; [done..|by right].
  - intros m y Hm. rewrite lookup_delete_ne; [apply Hr; by right|]. intros [_ [= ->]]%app_inj_tail. apply Hn.
    apply list_elem_of_fmap. by exists (m, y).
  - intros q Hq%Hdir. rewrite lookup_delete_ne; [done|]. intros <-. congruence.
  - intros q c' [Hq Hl]%lookup_delete_Some (m & -> & Hm). apply (Hc _ c' Hl). exists m. split; [done|]. cbn.
    rewrite elem_of_cons. intros [->|?]; done.
Qed.

(** The state of the second loop, over the directories. *)
Definition removing_dirs (p : path) (t : tree) (rest : list (name * node)) (u : tree) : Prop :=
  wf u ∧ I u ∧ kept p t u ∧ NoDup rest.*1 ∧ (∀ n x, (n, x) ∈ rest → t !! (p ++ [n]) = Some x) ∧
  (∀ n, (n, Dir) ∈ rest → u !! (p ++ [n]) = Some Dir) ∧
  clean (fun q => ∃ n r, q = p ++ n :: r ∧ (r = [] ∨ n ∉ rest.*1)) u.

Lemma removing_dirs_start p t (l : list (name * node)) u :
  wf t → p ≠ [] → NoDup l.*1 → (∀ n x, (n, x) ∈ l ↔ t !! (p ++ [n]) = Some x) →
  removing_files p t [] u → removing_dirs p t l u.
Proof.
  intros Hw Hp Hd Hl (Hwu & Hi & Hk & _ & _ & Hdir & Hc). split_and!; [done..|by intros n x ?%Hl|by intros n Hn%Hl; apply Hdir|].
  intros q c Hq (n & r & -> & [->|Hn]); [apply (Hc _ c Hq); exists n; split; [done|apply not_elem_of_nil]|].
  exfalso. apply Hk in Hq. destruct (t !! (p ++ [n])) as [x|] eqn:E.
  - apply Hn, list_elem_of_fmap. exists (n, x). split; [done|by apply Hl].
  - rewrite (nothing_below t (p ++ [n])) in Hq; [done|done|by destruct p|done|]. exists r. by rewrite <-app_assoc.
Qed.

Lemma clean_step p n x (rest : list (name * node)) u :
  clean (fun q => ∃ m r, q = p ++ m :: r ∧ (r = [] ∨ m ∉ ((n, x) :: rest).*1)) u →
  clean (fun q => (p ++ [n]) `prefix_of` q) u →
  clean (fun q => ∃ m r, q = p ++ m :: r ∧ (r = [] ∨ m ∉ rest.*1)) u.
Proof.
  intros Hc Hn q c Hq (m & r & -> & Hm). destruct (decide (m = n)) as [->|Hmn].
  - apply (Hn _ c Hq). exists r. by rewrite <-app_assoc.
  - apply (Hc _ c Hq). exists m, r. split; [done|]. destruct Hm as [Hm|Hm]; [by left|right]. cbn. rewrite elem_of_cons. by intros [?|?].
Qed.

Lemma removing_dirs_skip p t n c rest u :
  wf t → p ≠ [] → removing_dirs p t ((n, File c) :: rest) u → removing_dirs p t rest u.
Proof.
  intros Hwt Hp (Hw & Hi & Hk & Hd & Hr & Hdir & Hc). cbn in Hd. apply NoDup_cons in Hd as [Hn Hd].
  split_and!; [done..|intros m y Hm; apply Hr; by right|intros m Hm; apply Hdir; by right|]. eapply clean_step; [done|].
  intros q c' Hq [[|m r] ->].
  - apply (Hc _ c' Hq). exists n, []. rewrite app_nil_r. split; [done|by left].
  - apply Hk in Hq. rewrite (nothing_below_file t (p ++ [n]) c) in Hq; [done|done|apply Hr; by left|by destruct p].
Qed.

(** One directory: its own new files were removed, and it may be removed. *)
Lemma removing_dirs_step p t n rest u v :
  wf v → I v → removing_dirs p t ((n, Dir) :: rest) u → kept (p ++ [n]) u v ∨ kept p u v →
  (∀ m, (m, Dir) ∈ rest → v !! (p ++ [m]) = u !! (p ++ [m])) →
  clean (fun q => (p ++ [n]) `prefix_of` q) v → removing_dirs p t rest v.
Proof.
  intros Hwv Hiv (Hw & Hi & Hk & Hd & Hr & Hdir & Hc) Hkv Hsame Hv. cbn in Hd. apply NoDup_cons in Hd as [Hn Hd].
  assert (kept p u v) as Hkp.
  { destruct Hkv as [Hkv|]; [|done]. eapply (kept_trans p (p ++ [n])); [|apply kept_refl|done]. intros q [Hq _]. by eapply below_snoc. }
  split_and!; [done..|by eapply (kept_trans p p)|done|intros m y Hm; apply Hr; by right| |].
  - intros m Hm. rewrite Hsame by done. apply Hdir. by right.
  - eapply clean_step; [|done]. by eapply clean_kept.
Qed.

Lemma wp_file_loop p t l u :
  p ≠ [] → (∀ q x, below p q → x = Dir ∨ path_of q ∉ baseline → R q x) → removing_files p t l u →
  wp I (for_each (fun entry =>
          match entry.2 with
          | Dir => returns (Ok tt)
          | File _ =>
              let q := p ++ [entry.1] in
              returns (validate_relative (path_of q)) ;*
              if bool_decide (path_of q ∈ baseline) then returns (Ok tt) else remove_file Io q
          end) l) (fun _ => removing_files p t []) u.
Proof.
  intros Hp HR. apply (wp_for_each I _ (removing_files p t)); [|by intros v (_ & ? & _)].
  intros [n [|c]] rest v Hv; cbn [fst snd]; pose proof Hv as (Hw & Hi & _ & _ & Hr & _).
  - apply wp_returns; [done|]. by eapply removing_files_skip.
  - rewrite validate_relative_ok by by destruct p. apply wp_bind, wp_returns; [done|]. case_bool_decide as Hb.
    + apply wp_returns; [done|]. by eapply removing_files_skip.
    + apply (wp_remove_file Io I R _ c); [done..|apply Hr; by left| |by destruct p|by eapply removing_files_delete].
      apply HR; [apply below_cons|by right].
Qed.

Lemma kept_none p t u q : kept p t u → t !! q = None → u !! q = None.
Proof. intros [Hk _] Hn. destruct (u !! q) eqn:E; [|done]. apply Hk in E. congruence. Qed.

Lemma clean_dir p u : u !! p = Some Dir → clean (below p) u → clean (fun q => p `prefix_of` q) u.
Proof. intros Hd Hc q c Hq Hp. apply (Hc _ c Hq). split; [done|]. intros ->. congruence. Qed.

(** The end of one round of the second loop: an empty directory goes. *)
Lemma wp_child_done p t n rest v w (es : list (name * node)) :
  p ≠ [] → (∀ q x, below p q → x = Dir ∨ path_of q ∉ baseline → R q x) → n ∉ rest.*1 →
  removing_dirs p t ((n, Dir) :: rest) v → wf w → I w → kept (p ++ [n]) v w → clean (below (p ++ [n])) w →
  w !! (p ++ [n]) = Some Dir → (∀ m x, (m, x) ∈ es ↔ w !! ((p ++ [n]) ++ [m]) = Some x) →
  wp I (match es with [] => remove_dir Io (p ++ [n]) | _ => returns (Ok tt) end) (fun _ => removing_dirs p t rest) w.
Proof.
  intros Hp HR Hn Hv Hw Hi Hk Hc Hwn Hes. pose proof Hv as (_ & _ & _ & _ & _ & Hdir & _).
  assert (∀ m, (m, Dir) ∈ rest → m ≠ n ∧ w !! (p ++ [m]) = v !! (p ++ [m])) as Hsame.
  { intros m Hm. assert (m ≠ n) as Hmn by (intros ->; apply Hn, list_elem_of_fmap; by exists (n, Dir)). split; [done|].
    rewrite Hdir by (by right). apply Hk; [apply Hdir; by right|]. left. intros [[s Hs'] _]. rewrite <-app_assoc in Hs'.
    apply app_inv_head in Hs'. by injection Hs' as ->. }
  destruct es as [|[m x] es].
  - assert (∀ m, w !! ((p ++ [n]) ++ [m]) = None) as Hnone.
    { intros m. destruct (w !! ((p ++ [n]) ++ [m])) as [x|] eqn:E; [|done]. by apply Hes, elem_of_nil in E. }
    assert (I (delete (p ++ [n]) w)) as Hi'. { eapply Hs; [done|done|apply HR; [apply below_cons|by left]|done]. }
    apply (wp_remove_dir Io I R); [done|done|done|apply HR; [apply below_cons|by left]|by destruct p|done|].
    eapply removing_dirs_step; [by apply wf_delete|done|done|right| |].
    + eapply (kept_delete p v w); [|done|apply below_cons|by left]. eapply (kept_trans p (p ++ [n])); [|apply kept_refl|done].
      intros q [Hq _]. by eapply below_snoc.
    + intros m Hm. apply Hsame in Hm as [Hmn <-]. rewrite lookup_delete_ne; [done|]. intros [_ [= ->]]%app_inj_tail. done.
    + intros q c [Hne Hq]%lookup_delete_Some Hpre. apply (Hc _ c Hq). by split.
  - apply wp_returns; [done|]. eapply removing_dirs_step; [done..|by left|intros m' Hm'; by apply Hsame|]. by apply clean_dir.
Qed.

Lemma wp_remove_new_files fuel p (Q : unit → tree → Prop) t :
  wf t → I t → p ≠ [] → (∀ q x, below p q → x = Dir ∨ path_of q ∉ baseline → R q x) → (∀ c, t !! p ≠ Some (File c)) →
  (∀ q, is_Some (t !! (p ++ q)) → length q < fuel) →
  (∀ u, wf u → I u → kept p t u → clean (below p) u → Q tt u) → wp I (remove_new_files fuel p baseline) Q t.
Proof.
  revert p Q t. induction fuel as [|fuel IH]; intros p Q t Hw Hi Hp HR Hf Hfuel HQ; cbn [remove_new_files].
  { apply wp_returns; [done|]. apply HQ; [done..|apply kept_refl|]. intros q c Hq [[r ->] _].
    assert (length r < 0) by (apply Hfuel; by rewrite Hq). lia. }
  apply wp_bind, wp_path_exists; [done|]. rewrite lookup_node_ne by done.
  destruct (t !! p) as [[|c]|] eqn:E; cbn [negb]; [|by destruct (Hf c)|].
  2:{ apply wp_returns; [done|]. apply HQ; [done..|apply kept_refl|]. intros q c Hq [Hpre _]. by rewrite (nothing_below t p) in Hq. }
  apply wp_bind. apply wp_reject_symlink; [rewrite lookup_node_ne by done; by rewrite E|done|].
  apply wp_bind. apply (wp_read_dir Io I p); [rewrite lookup_node_ne by done; by rewrite E|done|]. intros l Hd Hl.
  apply wp_bind. eapply wp_conseq.
  { apply (wp_file_loop p t l); [done..|]. split_and!; [done..|apply kept_refl|done|by intros n x ?%Hl|done|].
    intros q c' Hq (n & -> & Hn). destruct Hn. apply list_elem_of_fmap. exists (n, File c'). split; [done|by apply Hl]. }
  cbn. intros _ u Hu%(removing_dirs_start p t l); [|done..]. eapply wp_conseq.
  - apply (wp_for_each I _ (removing_dirs p t)); [|by intros v (_ & ? & _)|exact Hu].
    intros [n [|c']] rest v Hv; cbn [fst snd]; pose proof Hv as (Hwv & Hiv & Hkv & Hdv & Hrv & Hdir & _).
    2:{ apply wp_returns; [done|]. by eapply removing_dirs_skip. }
    assert (v !! (p ++ [n]) = Some Dir) as Hn by (apply Hdir; by left). apply wp_bind.
    apply IH; [done|done|by destruct p| |by rewrite Hn| |].
    + intros q x [Hq _] Hx. apply HR; [by eapply below_snoc|done].
    + intros q Hq. rewrite <-app_assoc in Hq. destruct Hq as [x Hx%Hkv]. assert (length (n :: q) < S fuel) by by apply Hfuel. cbn in *. lia.
    + intros w Hww Hiw Hkw Hcw. cbn in Hdv. apply NoDup_cons in Hdv as [Hnn _].
      assert (w !! (p ++ [n]) = Some Dir) as Hwn by (apply Hkw; [done|left; by intros [_ []]]).
      apply wp_bind. apply (wp_read_dir Io I); [by rewrite lookup_node_snoc|done|]. intros es _ Hes.
      eapply wp_child_done; eauto.
  - cbn. intros [] v (Hwv & Hiv & Hkv & _ & _ & _ & Hc). apply HQ; [done..|]. intros q c Hq [Hpre Hne]. apply (Hc _ c Hq).
    apply below_cases in Hpre as [->|(n & r & ->)]; [done|]. exists n, r. split; [done|right; apply not_elem_of_nil].
Qed.
End new_files.

(** ** Writing *)

Lemma wp_write_staged_file I R p c (Q : unit → tree → Prop) t :
  wf t → I t → grows I R → p ≠ [] → (∀ q, q `prefix_of` parent p → R q Dir) → R p (File c) →
  (∀ n c', is_temporary n → R (parent p ++ [n]) (File c')) →
  (∀ q c', q `prefix_of` parent p → t !! q ≠ Some (File c')) → t !! p ≠ Some Dir →
  (∀ t', wf t' → I t' → file_copied p c t t' → Q tt t') → wp I (write_staged_file p c) Q t.
Proof.
  intros Hw Hi Hg Hp HR1 HR2 HT Hf Hd HQ. unfold write_staged_file. apply wp_bind.
  apply (wp_create_dir_all Io I R); [done..|]. intros t1 Hw1 Hi1 Ha.
  assert (lookup_node t1 (parent p) = Some Dir) as Hpar by by eapply dirs_added_parent.
  assert (t1 !! p = t !! p) as Hpt.
  { rewrite Ha, decide_False; [done|]. intros [Hx _]. by apply (parent_ne p). }
  apply wp_bind. apply wp_reject_symlink; [by rewrite Hpar|done|].
  eapply (wp_replace_file Io I R); [done..|by rewrite Hpt|]. apply HQ.
  - apply wf_insert; [done..|]. by rewrite Hpt.
  - apply Hg; [done..|]. by rewrite Hpt.
  - intros q. case_decide as Hq; [subst; by rewrite lookup_insert_eq|]. rewrite lookup_insert_ne by done. apply Ha.
Qed.
End files.
