(* ===== verification/StateJournal.v ===== *)
(** The journal of a state transaction: what makes it valid, what rolling it
    back is to produce, and the invariant under which the state may change while
    it is there.

    Every path belongs to an [area] by its first name, and each phase of
    [rollback_active] works in one area.  [outcome m t] is the content every
    file has after a rollback with the manifest [m] in the tree [t]; [guarded]
    is the invariant that keeps the journal valid and the outcome as it is. *)

From stdpp Require Import base tactics list numbers strings gmap.
From Stdlib Require Import Strings.Byte.
From S2P Require Import Prelude FileTree FileTreeFacts StateTransaction StateTransactionFacts.

(** * Areas *)

Inductive Area := AJournal | ARatchet | ASequence | ATrust | AAppend | AOther.

#[export] Instance Area_eq_dec : EqDecision Area.
Proof. solve_decision. Defined.

Definition area (n : name) : Area :=
  if bool_decide (n = TRANSACTION_DIRECTORY) then AJournal
  else if bool_decide (n = RATCHET_DIRECTORY) then ARatchet
  else if bool_decide (n = NEXT_SEQUENCE_FILE) then ASequence
  else if bool_decide (n ∈ TRUST_FILES) || bool_decide (n ∈ TRUST_DIRECTORIES) then ATrust
  else if bool_decide (n ∈ APPEND_ONLY_ROOTS) then AAppend
  else AOther.

Lemma area_ratchet n : area n = ARatchet ↔ n = RATCHET_DIRECTORY.
Proof. split; [|by intros ->]. unfold area. repeat (case_bool_decide; cbn; try done). Qed.

Lemma area_sequence n : area n = ASequence ↔ n = NEXT_SEQUENCE_FILE.
Proof. split; [|by intros ->]. unfold area. repeat (case_bool_decide; cbn; try done). Qed.

Lemma area_trust n : area n = ATrust ↔ n ∈ TRUST_FILES ∨ n ∈ TRUST_DIRECTORIES.
Proof.
  split.
  - unfold area. repeat (case_bool_decide; cbn; try done); auto.
  - cbv [TRUST_FILES TRUST_DIRECTORIES]. rewrite !elem_of_cons, !elem_of_nil. intuition (subst; reflexivity).
Qed.

Lemma area_append n : area n = AAppend ↔ n ∈ APPEND_ONLY_ROOTS.
Proof.
  split.
  - unfold area. repeat (case_bool_decide; cbn; try done).
  - cbv [APPEND_ONLY_ROOTS]. rewrite !elem_of_cons, !elem_of_nil. intuition (subst; reflexivity).
Qed.

Lemma trust_file_not_directory n : n ∈ TRUST_FILES → n ∉ TRUST_DIRECTORIES.
Proof.
  cbv [TRUST_FILES TRUST_DIRECTORIES]. rewrite !elem_of_cons, !elem_of_nil. intros Hn Hd.
  destruct Hn as [->|[->|[]]]; by repeat destruct Hd as [Hd|Hd].
Qed.

(** A temporary file is in no area of its own. *)
Lemma area_temporary n : is_temporary n → area n = AOther.
Proof.
  intros [r ->]. unfold area. rewrite bool_decide_false by by cbn. rewrite bool_decide_false by by cbn.
  rewrite bool_decide_false by by cbn. rewrite bool_decide_false, bool_decide_false, bool_decide_false; [done|..];
    cbv [TRUST_FILES TRUST_DIRECTORIES APPEND_ONLY_ROOTS]; rewrite !elem_of_cons, !elem_of_nil; cbn; intuition discriminate.
Qed.

(** * Files *)

Definition file_at (t : tree) (q : path) : option bytes :=
  match t !! q with Some (File c) => Some c | _ => None end.

Lemma file_at_same t t' q q' : t !! q = t' !! q' → file_at t q = file_at t' q'.
Proof. unfold file_at. by intros ->. Qed.

(** The files of the state: all but the journal and the temporary files an
    interrupted replacement left beside the trust files. *)
Definition state_file (q : path) : Prop :=
  match q with
  | [] => False
  | n :: r => area n ≠ AJournal ∧ ¬ (r = [] ∧ is_temporary n)
  end.

Definition PICKLE : name := b_str "account.pickle".

(** A file that is not, and cannot be torn into, the fence of an ordered
    profile. *)
Definition unfenced (x : node) : Prop :=
  match x with File c => ¬ ORDERED_ACCOUNT_FENCE `prefix_of` c | Dir => False end.

Lemma torn_prefix (f c c' : bytes) : (∀ b, b ∈ f → b ≠ x00) → torn_content c c' → f `prefix_of` c' → f `prefix_of` c.
Proof.
  unfold torn_content. intros Hf Ht [r ->]. revert c Ht. induction f as [|a f IH]; intros c Ht; [apply prefix_nil|].
  destruct c as [|b c]; cbn in Ht; [by inversion Ht|]. inversion Ht as [|? ? ? ? Hab Hrest]; subst.
  destruct Hab as [->|Hz]; [|exfalso; apply (Hf a); [by left|done]]. apply prefix_cons, IH; [|done]. intros b' Hb'. apply Hf. by right.
Qed.

Lemma unfenced_torn x y : unfenced x → torn_node x y → unfenced y.
Proof.
  destruct x as [|c], y as [|c']; cbn; try done. intros Hn Ht Hp. apply Hn. eapply torn_prefix; [|done..].
  intros b Hb ->. revert Hb. apply (bool_decide_unpack _). by vm_compute.
Qed.

(** * What rolling back is to produce *)

Section journal.
Context `{FileSystem} `{ManifestJson}.
Implicit Types (m : TransactionManifest) (t : tree) (q : path).

(** The nodes that may be at a path while the journal of [m] is there. *)
Definition legal m q (x : node) : Prop :=
  match q with
  | [] => True
  | n :: r =>
      match area n with
      | AJournal | AOther => True
      | ARatchet => (r = [] → x = Dir) ∧ (r = [PICKLE] → unfenced x)
      | ASequence => r = [] → x ≠ Dir
      | ATrust => r = [] → (n ∈ TRUST_FILES → x ≠ Dir) ∧ (n ∈ TRUST_DIRECTORIES → x = Dir)
      | AAppend =>
          (r = [] → x = Dir) ∧ (path_of q ∈ m.(append_only_files) → x ≠ Dir) ∧
          (∀ p, path_of p ∈ m.(append_only_files) → below q p → x = Dir)
      end
  end.

(** The paths that must not change. *)
Definition frozen m q : Prop :=
  match q with
  | [] => False
  | n :: r =>
      match area n with
      | AJournal => True
      | ARatchet | ASequence => False
      | ATrust => m.(trust_primary_prepared) = false
      | AAppend => path_of q ∈ m.(append_only_files) ∧ path_of q ∉ m.(compacted_append_only_files)
      | AOther => ¬ (r = [] ∧ is_temporary n)
      end
  end.

Definition outcome m t q : option bytes :=
  match q with
  | [] => None
  | n :: r =>
      match area n with
      | AJournal => None
      | ARatchet => let '(existed, b) := ratchet_backup m in if existed then file_at t (b ++ r) else None
      | ASequence =>
          let '(existed, b) := next_sequence_backup m in
          if existed && bool_decide (r = []) then file_at t b else None
      | ATrust => if m.(trust_primary_prepared) then file_at t (trust_backup ++ q) else file_at t q
      | AAppend =>
          if bool_decide (path_of q ∈ m.(compacted_append_only_files)) then file_at t (compaction_backup ++ q)
          else if bool_decide (path_of q ∈ m.(append_only_files)) then file_at t q else None
      | AOther => file_at t q
      end
  end.

(** The nodes that may be in the backup of the compacted files. *)
Definition shadow m q (x : node) : Prop :=
  (path_of q ∈ m.(append_only_files) → x ≠ Dir) ∧ (∀ p, path_of p ∈ m.(append_only_files) → below q p → x = Dir).

(** * Valid journals *)

Record valid m t : Prop := {
  v_wf : wf t;
  v_legal : ∀ q x, t !! q = Some x → legal m q x;
  v_prepared : is_Some (t !! marker PREPARED_MARKER);
  v_committed : t !! marker COMMITTED_MARKER = None;
  v_rolled_back : t !! marker ROLLED_BACK_MARKER = None;
  v_manifest : ∃ encoded, t !! (active ++ [MANIFEST_FILE]) = Some (File encoded) ∧ from_json encoded = Some m;
  v_version : m.(version) = MANIFEST_VERSION;
  v_append : ∀ p, p ∈ m.(append_only_files) → check_append_only p = Ok tt;
  v_nested : ∀ n, path_of [n] ∉ m.(append_only_files);
  v_flat : ∀ p q, path_of p ∈ m.(append_only_files) → path_of q ∈ m.(append_only_files) → ¬ below p q;
  v_compacted : ∀ p, p ∈ m.(compacted_append_only_files) →
    state_record_kind_for_path p = Runtime ∧ p ∈ m.(append_only_files) ∧
    ∃ c, t !! (compaction_backup ++ names_of p) = Some (File c);
  v_ratchet : (ratchet_backup m).1 = true →
    t !! (ratchet_backup m).2 = Some Dir ∧ ∀ x, t !! ((ratchet_backup m).2 ++ [PICKLE]) = Some x → unfenced x;
  v_sequence : (next_sequence_backup m).1 = true → ∃ c, t !! (next_sequence_backup m).2 = Some (File c);
  v_trust : m.(trust_primary_prepared) = true →
    t !! trust_backup = Some Dir ∧
    (∀ q c, t !! (trust_backup ++ q) = Some (File c) → ∃ n r, q = n :: r ∧ area n = ATrust) ∧
    (∀ n x, t !! (trust_backup ++ [n]) = Some x → legal m [n] x);
  v_shadow : ∀ q x, t !! (compaction_backup ++ q) = Some x → shadow m q x
}.

(** * Changes under a journal *)

(** [t] differs from [t0] only where a rollback can undo it. *)
Definition guarded m t0 t : Prop :=
  wf t ∧ (∀ q x, t !! q = Some x → legal m q x) ∧ (∀ q, frozen m q → t !! q = t0 !! q).

Definition allowed m q (x : node) : Prop := q = [] ∨ (legal m q x ∧ ¬ frozen m q).

Lemma guarded_grows m t0 : grows (guarded m t0) (allowed m).
Proof.
  intros t q x (Hw & Hl & Hf) [->|[Hx Hn]] Hq Hp Hd; [done|]. split_and!; [by apply wf_insert| |].
  - intros r y [[<- <-]|[_ Hr]]%lookup_insert_Some; [done|by apply Hl].
  - intros r Hr. rewrite lookup_insert_ne; [by apply Hf|]. by intros ->.
Qed.

Lemma guarded_shrinks m t0 : shrinks (guarded m t0) (fun q x => legal m q x → ¬ frozen m q).
Proof.
  intros t q x (Hw & Hl & Hf) Hq Hx Hc. split_and!; [by apply wf_delete| |].
  - intros r y [_ Hr]%lookup_delete_Some. by apply Hl.
  - intros r Hr. rewrite lookup_delete_ne; [by apply Hf|]. intros ->. apply Hx in Hr; [done|by apply Hl].
Qed.

Lemma guarded_refl m t : wf t → (∀ q x, t !! q = Some x → legal m q x) → guarded m t t.
Proof. intros Hw Hl. by split_and!. Qed.

Lemma valid_guarded_refl m t : valid m t → guarded m t t.
Proof. intros Hv. apply guarded_refl; apply Hv. Qed.

Lemma guarded_trans m t0 t1 t2 : guarded m t0 t1 → guarded m t1 t2 → guarded m t0 t2.
Proof. intros (_ & _ & H1) (Hw & Hl & H2). split_and!; [done..|]. intros q Hq. rewrite H2, H1 by done. done. Qed.

Lemma guarded_journal m t0 t q : guarded m t0 t → t !! (TRANSACTION_DIRECTORY :: q) = t0 !! (TRANSACTION_DIRECTORY :: q).
Proof. intros (_ & _ & Hf). by apply Hf. Qed.

Lemma ratchet_backup_journal m : ∃ q, (ratchet_backup m).2 = TRANSACTION_DIRECTORY :: q.
Proof. unfold ratchet_backup. destruct (ratchet_primary_existed m); by eexists. Qed.

Lemma next_sequence_backup_journal m : ∃ q, (next_sequence_backup m).2 = TRANSACTION_DIRECTORY :: q.
Proof. unfold next_sequence_backup. destruct (next_sequence_primary_existed m); by eexists. Qed.

Lemma valid_guarded m t0 t : valid m t0 → guarded m t0 t → valid m t.
Proof.
  intros Hv Hg. pose proof (fun q => guarded_journal m t0 t q Hg) as Hj. pose proof Hg as (Hw & Hl & _). destruct Hv.
  destruct (ratchet_backup_journal m) as [rb Hrb]. destruct (next_sequence_backup_journal m) as [sb Hsb].
  split; try done.
  all: cbv [marker compaction_backup active trust_backup primary_backup] in *; cbn [app] in *; try (rewrite ?Hj; done).
  - setoid_rewrite Hj. done.
  - rewrite Hrb in *. cbn [app] in *. setoid_rewrite Hj. done.
  - rewrite Hsb in *. setoid_rewrite Hj. done.
  - setoid_rewrite Hj. done.
  - setoid_rewrite Hj. done.
Qed.

Lemma outcome_guarded m t0 t q : guarded m t0 t → state_file q → outcome m t q = outcome m t0 q.
Proof.
  intros Hg. pose proof (fun q => guarded_journal m t0 t q Hg) as Hj. pose proof Hg as (_ & _ & Hf).
  destruct q as [|n r]; [done|]. cbn. intros [Hn Ht]. specialize (Hf (n :: r)). cbn in Hf.
  destruct (ratchet_backup_journal m) as [rb Hrb]. destruct (next_sequence_backup_journal m) as [sb Hsb].
  destruct (area n); try done.
  - destruct (ratchet_backup m) as [[] b]; cbn in *; [|done]. subst. apply file_at_same, Hj.
  - destruct (next_sequence_backup m) as [[] b]; cbn in *; [|done]. case_bool_decide; [|done]. subst. apply file_at_same, Hj.
  - destruct (trust_primary_prepared m); apply file_at_same; [apply Hj|by apply Hf].
  - case_bool_decide; [apply file_at_same, Hj|]. case_bool_decide; [|done]. by apply file_at_same, Hf.
  - by apply file_at_same, Hf.
Qed.
End journal.
