(* ===== verification/StateRecovery.v ===== *)
(** Rolling a journal back: each phase of [rollback_active] settles its area and
    keeps the journal valid at every crash, so that the rollback can be run
    again, and from the start, whenever it is interrupted. *)

From stdpp Require Import base tactics list numbers strings gmap.
From Stdlib Require Import Strings.Byte.
From S2P Require Import Prelude FileTree FileTreeFacts StateTransaction StateTransactionFacts StateJournal.

Section rollback.
Context `{FileSystemLaws} `{ManifestJson} (m : TransactionManifest) (t0 : tree) (Hv : valid m t0).
Implicit Types (t u : tree).

Abbreviation I := (guarded m t0).

(** The files of an area are what the rollback is to produce. *)
Definition settled (a : Area) t : Prop := ∀ n r, area n = a → file_at t (n :: r) = outcome m t0 (n :: r).

(** A phase settles its area and leaves the others alone. *)
Definition phase (a : Area) t t' : Prop :=
  I t' ∧ settled a t' ∧ ∀ n r, area n ≠ a → t' !! (n :: r) = t !! (n :: r).

Lemma guarded_legal t q x : I t → t !! q = Some x → legal m q x.
Proof. intros (_ & Hl & _). apply Hl. Qed.

Lemma grows_allowed (R : path → node → Prop) : (∀ q x, R q x → allowed m q x) → grows I R.
Proof. intros HR. eapply grows_mono; [exact HR|apply guarded_grows]. Qed.

Lemma shrinks_allowed (R : path → node → Prop) : (∀ q x, R q x → legal m q x → ¬ frozen m q) → shrinks I R.
Proof. intros HR. eapply shrinks_mono; [exact HR|apply guarded_shrinks]. Qed.

Lemma prefix_singleton (q : path) n : q `prefix_of` [n] → q = [] ∨ q = [n].
Proof. intros Hq. destruct q as [|a q]; [by left|right]. apply prefix_cons_inv_1 in Hq as Ha. apply prefix_cons_inv_2 in Hq. subst. by apply prefix_nil_inv in Hq as ->. Qed.

Lemma below_singleton n (q : path) : [n] `prefix_of` q → ∃ r, q = n :: r.
Proof. intros [r ->]. by exists r. Qed.

Lemma heads_apart n n' r r' : n ≠ n' → apart (n :: r) (n' :: r').
Proof. intros Hn. split; intros Hp%prefix_cons_inv_1; congruence. Qed.

Lemma cons_app_singleton (n : name) (r : path) : n :: r = [n] ++ r.
Proof. done. Qed.

(** ** The ratchet *)

Lemma ratchet_not_file t c : I t → t !! ratchet ≠ Some (File c).
Proof. intros Hi Hc. apply (guarded_legal t) in Hc; [|done]. destruct Hc as [Hc _]. by specialize (Hc eq_refl). Qed.

Lemma copy_ratchet_allowed t b q x :
  (∀ y, t !! (b ++ [PICKLE]) = Some y → unfenced y) → copy_region t b ratchet q x → allowed m q x.
Proof.
  intros Hp [[[->|Hq]%prefix_singleton ->]|(n & r & y & -> & Hy & Hx)]; [by left|right; rewrite Hq..|right]; (split; [|by intros []]).
  - by split.
  - split; [done|]. intros [= -> ->]. eapply unfenced_torn; [by apply Hp|done].
Qed.

Lemma wp_restore_ratchet t : I t → wp I (restore_ratchet m) (fun _ => phase ARatchet t) t.
Proof.
  intros Hi. unfold restore_ratchet. pose proof (v_ratchet m t0 Hv) as Hb. pose proof (ratchet_backup_journal m) as [bj Hbj].
  assert (∀ n r, area n = ARatchet → outcome m t0 (n :: r) = if (ratchet_backup m).1 then file_at t0 ((ratchet_backup m).2 ++ r) else None) as Hout.
  { intros n r Hn. cbn. rewrite Hn. by destruct (ratchet_backup m). }
  unfold phase, settled. destruct (ratchet_backup m) as [existed b]. cbn [fst snd] in *.
  assert (I t) as (Hw & _ & _) by done. apply wp_bind.
  apply (wp_remove_tree I (fun q _ => ratchet `prefix_of` q)); [done..| |done|done|by intros c; apply ratchet_not_file|].
  { apply shrinks_allowed. intros q x [r ->]%below_singleton _. by intros []. }
  intros t1 Hcut Hi1. pose proof Hi1 as (Hw1 & _ & _).
  assert (∀ r, t1 !! (RATCHET_DIRECTORY :: r) = None) as Hnone.
  { intros r. rewrite Hcut, decide_True; [done|]. by exists r. }
  assert (∀ n r, area n ≠ ARatchet → t1 !! (n :: r) = t !! (n :: r)) as Hother.
  { intros n r Hn. rewrite Hcut, decide_False; [done|]. intros Hp%prefix_cons_inv_1. by subst. }
  destruct existed; cycle 1.
  { apply wp_returns; [done|]. split_and!; [done| |done]. intros n r Hn. rewrite Hout by done. apply area_ratchet in Hn as ->.
    unfold file_at. by rewrite Hnone. }
  destruct (Hb eq_refl) as [Hbd Hpk]. subst b.
  assert (∀ q, t1 !! ((TRANSACTION_DIRECTORY :: bj) ++ q) = t0 !! ((TRANSACTION_DIRECTORY :: bj) ++ q)) as Hback.
  { intros q. by apply (guarded_journal m). }
  apply wp_fueled, wp_copy_tree; [done|done| | |done|done|by apply heads_apart|intros q _; apply Hnone| |by apply depth_enough|].
  - apply grows_allowed. intros q x. apply copy_ratchet_allowed. setoid_rewrite Hback. done.
  - specialize (Hback []). rewrite !app_nil_r in Hback. by rewrite Hback.
  - intros q c [->| ->]%prefix_singleton; [by rewrite (proj1 Hw1)|by apply ratchet_not_file].
  - intros t2 Hw2 Hi2 Hc. split_and!; [done| |].
    + intros n r Hn. rewrite Hout by done. apply area_ratchet in Hn as ->. destruct r as [|a r].
      * unfold file_at. rewrite Hc, decide_False, decide_True, app_nil_r, Hbd; [done|by split|by intros [_ []]].
      * apply file_at_same. rewrite <-Hback. exact (tree_copied_below _ _ _ _ a r Hc).
    + intros n r Hn. rewrite Hc, !decide_False; [by apply Hother|..].
      * intros [Hp _]. apply prefix_singleton in Hp as [|[= -> ->]]; done.
      * intros [Hp%prefix_cons_inv_1 _]. by subst.
Qed.

(** ** The sequence number *)

Lemma sequence_not_dir t : I t → t !! next_sequence ≠ Some Dir.
Proof. intros Hi Hc. apply (guarded_legal t) in Hc; [|done]. by apply Hc. Qed.

Lemma sequence_below t a r : I t → t !! (NEXT_SEQUENCE_FILE :: a :: r) = None.
Proof.
  intros Hi. pose proof Hi as (Hw & _ & _). destruct (t !! next_sequence) as [[|c]|] eqn:E.
  - by apply sequence_not_dir in E.
  - by apply (nothing_below_file t next_sequence c).
  - apply (nothing_below t next_sequence); [done..|]. by exists (a :: r).
Qed.

Lemma wp_restore_next_sequence t : I t → wp I (restore_next_sequence m) (fun _ => phase ASequence t) t.
Proof.
  intros Hi. unfold restore_next_sequence. pose proof (v_sequence m t0 Hv) as Hb. pose proof (next_sequence_backup_journal m) as [bj Hbj].
  assert (∀ t' n r, I t' → area n = ASequence →
            file_at t' next_sequence = (if (next_sequence_backup m).1 then file_at t0 (next_sequence_backup m).2 else None) →
            file_at t' (n :: r) = outcome m t0 (n :: r)) as Hout.
  { intros t' n r Hi' Hn Hf. cbn. rewrite Hn. apply area_sequence in Hn as ->. destruct (next_sequence_backup m) as [e b].
    destruct r as [|a r]; [rewrite bool_decide_true, andb_true_r by done; exact Hf|]. unfold file_at at 1. rewrite sequence_below by done.
    rewrite bool_decide_false, andb_false_r by done. done. }
  unfold phase, settled. destruct (next_sequence_backup m) as [existed b]. cbn [fst snd] in *.
  pose proof Hi as (Hw & _ & _). apply wp_bind.
  apply (wp_remove_file_present I (fun q _ => q = next_sequence)); [done..| |done|done|by apply sequence_not_dir|].
  { apply shrinks_allowed. intros q x -> _ []. }
  intros t1 Hcut Hi1. pose proof Hi1 as (Hw1 & _ & _).
  assert (∀ n r, area n ≠ ASequence → t1 !! (n :: r) = t !! (n :: r)) as Hother.
  { intros n r Hn. rewrite Hcut, decide_False; [done|]. by intros [= -> ->]. }
  destruct existed; cycle 1.
  { apply wp_returns; [done|]. split_and!; [done| |done]. intros n r Hn. apply Hout; [done..|]. unfold file_at. by rewrite Hcut, decide_True. }
  destruct (Hb eq_refl) as [c Hc]. subst b.
  assert (t1 !! (TRANSACTION_DIRECTORY :: bj) = Some (File c)) as Hc1 by by rewrite (guarded_journal m t0).
  apply (wp_copy_file I (allowed m) _ _ c); [done|done|by apply grows_allowed|done|done|done| | | |by apply sequence_not_dir|].
  - intros q Hq. left. by apply prefix_nil_inv in Hq.
  - intros c' _. right. split; [done|intros []].
  - intros q c' Hq. apply prefix_nil_inv in Hq as ->. by rewrite (proj1 Hw1).
  - intros t2 Hw2 Hi2 Hcp. split_and!; [done| |].
    + intros n r Hn. apply Hout; [done..|]. unfold file_at. by rewrite Hcp, decide_True, Hc.
    + intros n r Hn. rewrite Hcp, !decide_False; [by apply Hother|..].
      * intros [Hq _]. by apply prefix_nil_inv in Hq.
      * by intros [= -> ->].
Qed.

(** ** The trust files *)

Lemma kind_trust n r : area n = ATrust → state_record_kind_for_path (path_of (n :: r)) = Trust.
Proof.
  rewrite area_trust. cbv [TRUST_FILES TRUST_DIRECTORIES]. rewrite !elem_of_cons, !elem_of_nil. intuition (subst; reflexivity).
Qed.

(** Clearing a list of names, whatever clears one. *)
Lemma wp_clear (f : name → action StateError unit) (l : list name) t :
  (∀ n u, n ∈ l → I u → wp I (f n) (fun _ u' => I u' ∧ cut [n] u u') u) → I t →
  wp I (for_each f l) (fun _ u => I u ∧ ∀ n r, u !! (n :: r) = if decide (n ∈ l) then None else t !! (n :: r)) t.
Proof.
  revert t. induction l as [|a l IH]; intros t Hf Hi; cbn [for_each].
  - apply wp_returns; [done|]. by split.
  - apply wp_bind. eapply wp_conseq; [apply Hf; [by left|done]|]. cbn. intros _ u [Hu Hcut].
    eapply wp_conseq; [apply IH; [intros n v Hn; apply Hf; by right|done]|]. cbn. intros _ v [Hv' Hl]. split; [done|]. intros n r.
    rewrite Hl, Hcut. destruct (decide (n = a)) as [->|Hn].
    + rewrite (decide_True (P:=_ `prefix_of` _)) by by exists r. rewrite (decide_True (P:=a ∈ a :: l)) by left. by case_decide.
    + rewrite (decide_False (P:=_ `prefix_of` _)) by by intros ?%prefix_cons_inv_1. apply decide_ext. rewrite elem_of_cons. tauto.
Qed.

Lemma trust_free n r : m.(trust_primary_prepared) = true → area n = ATrust → ¬ frozen m (n :: r).
Proof. intros Hp Hn. cbn. rewrite Hn, Hp. done. Qed.

Lemma wp_clear_trust_file n t :
  m.(trust_primary_prepared) = true → n ∈ TRUST_FILES → I t →
  wp I (remove_file_if_present [n]) (fun _ u => I u ∧ cut [n] t u) t.
Proof.
  intros Hp Hn Hi. pose proof Hi as (Hw & _ & _). assert (area n = ATrust) as Ha by (apply area_trust; by left).
  assert (t !! [n] ≠ Some Dir) as Hd.
  { intros Hd%(guarded_legal t); [|done]. cbn in Hd. rewrite Ha in Hd. by apply Hd. }
  apply (wp_remove_file_present I (fun q _ => q = [n])); [done..| |done|done|done|].
  { apply shrinks_allowed. intros q x -> _. by apply trust_free. }
  intros u Hu Hiu. split; [done|]. intros q. rewrite Hu. case_decide as Hq; [subst; by rewrite decide_True|].
  case_decide as Hpre; [|done]. apply below_singleton in Hpre as [[|a r] ->]; [done|].
  destruct (t !! [n]) as [[|c]|] eqn:E; [done|by apply (nothing_below_file t [n] c)|].
  apply (nothing_below t [n]); [done..|]. by exists (a :: r).
Qed.

Lemma wp_clear_trust_directory n t :
  m.(trust_primary_prepared) = true → n ∈ TRUST_DIRECTORIES → I t →
  wp I (remove_tree_if_present [n]) (fun _ u => I u ∧ cut [n] t u) t.
Proof.
  intros Hp Hn Hi. pose proof Hi as (Hw & _ & _). assert (area n = ATrust) as Ha by (apply area_trust; by right).
  apply (wp_remove_tree I (fun q _ => [n] `prefix_of` q)); [done..| |done|done| |by auto].
  - apply shrinks_allowed. intros q x [r ->]%below_singleton _. by apply trust_free.
  - intros c Hc%(guarded_legal t); [|done]. cbn in Hc. rewrite Ha in Hc. by apply Hc in Hn.
Qed.

Definition trust_cleared t u : Prop :=
  I u ∧ ∀ n r, u !! (n :: r) = if decide (area n = ATrust) then None else t !! (n :: r).

Lemma wp_clear_trust_contents t :
  m.(trust_primary_prepared) = true → I t → wp I clear_trust_contents (fun _ => trust_cleared t) t.
Proof.
  intros Hp Hi. unfold clear_trust_contents. apply wp_bind. eapply wp_conseq.
  { apply wp_clear; [|done]. intros n u Hn Hu. by apply wp_clear_trust_file. }
  cbv beta. intros _ u [Hu Hl]. eapply wp_conseq.
  { apply wp_clear; [|done]. intros n v Hn Hv'. by apply wp_clear_trust_directory. }
  cbv beta. intros _ v [Hv' Hl']. split; [done|]. intros n r. rewrite Hl', Hl.
  rewrite (decide_ext (area n = ATrust) (n ∈ TRUST_FILES ∨ n ∈ TRUST_DIRECTORIES)) by apply area_trust.
  repeat case_decide; tauto.
Qed.

(** The trust files while the entries [rest] of the backup are still to be
    written. *)
Definition trust_written t (rest : list (path * bytes)) u : Prop :=
  I u ∧ (∀ n r, area n ≠ ATrust → u !! (n :: r) = t !! (n :: r)) ∧
  (∀ n r x, area n = ATrust → u !! (n :: r) = Some x → t0 !! (trust_backup ++ n :: r) = Some x) ∧
  (∀ q c, t0 !! (trust_backup ++ q) = Some (File c) → (q, c) ∉ rest → u !! q = Some (File c)) ∧
  (∀ q c, (q, c) ∈ rest → t0 !! (trust_backup ++ q) = Some (File c)).

Section trust.
Context (Hp : m.(trust_primary_prepared) = true).

Lemma trust_backup_area q c : t0 !! (trust_backup ++ q) = Some (File c) → ∃ n r, q = n :: r ∧ area n = ATrust.
Proof. apply (v_trust m t0 Hv Hp). Qed.

(** What is at a path above a file of the backup. *)
Lemma trust_backup_above q p c :
  t0 !! (trust_backup ++ q) = Some (File c) → p `prefix_of` parent q → t0 !! (trust_backup ++ p) = Some Dir.
Proof.
  intros Hq Hpre. assert (q ≠ []) as Hne by by destruct (trust_backup_area q c Hq) as (n & r & -> & _).
  assert (below p q) as [[s ->] Hpq].
  { split; [etrans; [done|apply parent_prefix]|]. intros ->. by apply (parent_ne p). }
  rewrite <-(lookup_node_ne t0) by done. apply (wf_prefix t0 _ s (v_wf m t0 Hv)); [|intros ->; by rewrite app_nil_r in Hpq].
  rewrite <-app_assoc, lookup_node_ne by done. by rewrite Hq.
Qed.

Lemma trust_entry_allowed q c p x :
  t0 !! (trust_backup ++ q) = Some (File c) → (p `prefix_of` parent q ∧ x = Dir) ∨ (p = q ∧ ∃ c', x = File c') → allowed m p x.
Proof.
  intros Hq Hx. destruct (trust_backup_area q c Hq) as (n & r & -> & Ha). destruct p as [|a p]; [by left|right].
  assert (a = n) as ->.
  { destruct Hx as [[Hpre _]|[[= -> ->] _]]; [|done]. assert (a :: p `prefix_of` n :: r) as Hz by (etrans; [done|apply parent_prefix]). by eapply prefix_cons_inv_1. }
  split; [|by apply trust_free]. cbn. rewrite Ha. intros ->.
  assert (∀ y, t0 !! (trust_backup ++ [n]) = Some y → (n ∈ TRUST_FILES → y ≠ Dir) ∧ (n ∈ TRUST_DIRECTORIES → y = Dir)) as Hlegal.
  { intros y Hy%(v_trust m t0 Hv Hp). cbn in Hy. rewrite Ha in Hy. by apply Hy. }
  destruct Hx as [[Hpre ->]|[[= <-] [c' ->]]]; [apply Hlegal; by eapply trust_backup_above|]. apply Hlegal in Hq as [Hl1 Hl2].
  split; [done|]. intros Hd. by apply Hl2 in Hd.
Qed.

Lemma trust_temporary_allowed q c n x :
  t0 !! (trust_backup ++ q) = Some (File c) → is_temporary n → allowed m (parent q ++ [n]) x.
Proof.
  intros Hq Hn. right. destruct (trust_backup_area q c Hq) as (a & r & -> & Ha). destruct (parent (a :: r)) as [|b s] eqn:E.
  - cbn. rewrite (area_temporary n Hn). tauto.
  - assert (b = a) as ->. { assert (b :: s `prefix_of` a :: r) as Hz by (rewrite <-E; apply parent_prefix). by eapply prefix_cons_inv_1. }
    split; [|by apply trust_free]. cbn. rewrite Ha. by destruct s.
Qed.

Lemma wp_trust_entry t q c rest u :
  trust_written t ((q, c) :: rest) u → wp I (write_staged_file q c) (fun _ => trust_written t rest) u.
Proof.
  intros (Hi & Ho & Hs & Hdone & Hr). pose proof Hi as (Hw & _ & _). assert (t0 !! (trust_backup ++ q) = Some (File c)) as Hq by (apply Hr; by left).
  assert (∀ p x, u !! p = Some x → p `prefix_of` q → t0 !! (trust_backup ++ p) = Some x) as Hsame.
  { intros p x Hpx Hpq. destruct (trust_backup_area q c Hq) as (n & r & -> & Ha). destruct p as [|a p]; [by rewrite (proj1 Hw) in Hpx|].
    apply prefix_cons_inv_1 in Hpq as ->. by apply Hs. }
  assert (q ≠ []) as Hne by by destruct (trust_backup_area q c Hq) as (n & r & -> & _).
  apply (wp_write_staged_file I (allowed m)); [done|done|by apply grows_allowed|done|..].
  - intros p Hpre. eapply trust_entry_allowed; [done|by left].
  - eapply trust_entry_allowed; [done|right; by eauto].
  - intros n c' Hn. by eapply trust_temporary_allowed.
  - intros p c' Hpre Hpc. apply Hsame in Hpc; [|by etrans; [|apply parent_prefix]]. rewrite (trust_backup_above q p c) in Hpc; done.
  - intros Hd%Hsame; [|done]. congruence.
  - intros v Hwv Hiv Hc. split_and!; [done| | | |intros p c' Hpc; apply Hr; by right].
    + intros n r Hn. rewrite <-Ho by done. destruct (trust_backup_area q c Hq) as (a & s & -> & Ha). rewrite Hc, !decide_False; [done|..].
      * intros [Hpre _]. assert (n :: r `prefix_of` a :: s) as Hx by (etrans; [done|apply parent_prefix]). apply prefix_cons_inv_1 in Hx as ->. done.
      * by intros [= -> ->].
    + intros n r x Hn. rewrite Hc. case_decide as Heq; [intros [= <-]; by subst|]. case_decide as Hpre; [|by apply Hs].
      intros [= <-]. by eapply trust_backup_above; [|apply Hpre].
    + intros p c' Hpc Hpr. rewrite Hc. case_decide as Heq; [subst; congruence|]. rewrite decide_False; [apply Hdone; [done|]|].
      * rewrite elem_of_cons. intros [[= -> ->]|?]; done.
      * intros [Hpre _]. rewrite (trust_backup_above q p c) in Hpc; done.
Qed.
End trust.

Lemma wp_restore_trust t : I t → wp I (restore_trust m) (fun _ => phase ATrust t) t.
Proof.
  intros Hi. unfold restore_trust. destruct (trust_primary_prepared m) eqn:Hp; cbn [negb].
  2:{ apply wp_returns; [done|]. split_and!; [done| |done]. intros n r Hn. cbn. rewrite Hn, Hp. apply file_at_same, Hi. cbn. by rewrite Hn. }
  destruct (v_trust m t0 Hv Hp) as (Hb & _).
  assert (∀ u q, I u → u !! (trust_backup ++ q) = t0 !! (trust_backup ++ q)) as Hback by (intros u q Hu; by apply (guarded_journal m)).
  assert (∀ u, I u → u !! trust_backup = Some Dir) as Hbu by (intros u Hu; rewrite <-(app_nil_r trust_backup), Hback, app_nil_r; done).
  apply wp_bind, wp_path_exists; [done|]. rewrite lookup_node_ne, Hbu by done. apply wp_bind, wp_returns; [done|].
  apply wp_bind. eapply wp_conseq; [by apply wp_clear_trust_contents|]. cbv beta. intros _ t1 [Hi1 Hcl]. pose proof Hi1 as (Hw1 & _ & _).
  apply wp_bind, wp_tree_contents; [done..|by apply Hbu|]. intros contents Hcont. setoid_rewrite (fun q => Hback t1 q Hi1) in Hcont.
  assert (∀ q c, (q, c) ∈ btree_entries contents ↔ t0 !! (trust_backup ++ q) = Some (File c)) as Hent.
  { intros q c. unfold btree_entries. by rewrite sort_by_key_perm, elem_of_map_to_list. }
  eapply wp_conseq.
  - apply (wp_for_each I _ (trust_written t)); [|by intros u [? _]|].
    + intros [q c] rest u Hu. cbn [fst snd]. pose proof Hu as (Hiu & _ & _ & _ & Hr).
      assert (t0 !! (trust_backup ++ q) = Some (File c)) as Hq by (apply Hr; by left).
      destruct (trust_backup_area Hp q c Hq) as (n & r & -> & Ha). rewrite bool_decide_false by (rewrite kind_trust; auto).
      apply wp_bind, wp_returns; [done|]. by apply wp_trust_entry.
    + split_and!; [done| | | |by intros q c ?%Hent].
      * intros n r Hn. by rewrite Hcl, decide_False.
      * intros n r x Hn. by rewrite Hcl, decide_True.
      * intros q c Hq%Hent Hn. done.
  - cbv beta. intros _ u (Hiu & Ho & Hs & Hd & _). split_and!; [done| |done]. intros n r Hn. cbn [outcome]. rewrite Hn, Hp. unfold file_at.
    destruct (u !! (n :: r)) as [x|] eqn:E; [by rewrite (Hs n r x)|]. destruct (t0 !! (trust_backup ++ n :: r)) as [[|c]|] eqn:E2; [done| |done].
    rewrite (Hd _ c) in E; [done|done|apply not_elem_of_nil].
Qed.

(** ** The append-only files *)

Lemma names_path_of (q : path) : names_of (path_of q) = q.
Proof. unfold names_of, path_of. induction q as [|n q IH]; [done|]. cbn. by rewrite IH. Qed.

Lemma path_names_of p : validate_relative p = Ok tt → p = path_of (names_of p).
Proof.
  unfold validate_relative. rewrite fail_if_ok, orb_false_iff. intros [_ Hp]. induction p as [|c p IH]; [done|].
  cbn in Hp. apply orb_false_iff in Hp as [Hc Hp]. destruct c; try done. cbn. f_equal. by apply IH.
Qed.

Lemma append_path p : p ∈ m.(append_only_files) → ∃ n a r, p = path_of (n :: a :: r) ∧ area n = AAppend.
Proof.
  intros Hp. pose proof (v_append m t0 Hv p Hp) as Hc. unfold check_append_only in Hc. apply rbind_ok in Hc as ([] & Hr & Hc).
  apply path_names_of in Hr. rewrite Hr in Hc, Hp. rewrite fail_if_ok in Hc. apply negb_false_iff in Hc.
  destruct (names_of p) as [|n [|a r]]; [done|by apply (v_nested m t0 Hv) in Hp|]. cbn in Hc. apply bool_decide_eq_true in Hc.
  exists n, a, r. split; [done|by apply area_append].
Qed.

Lemma root_not_file t n c : I t → area n = AAppend → t !! [n] ≠ Some (File c).
Proof. intros Hi Hn Hc%(guarded_legal t); [|done]. cbn in Hc. rewrite Hn in Hc. destruct Hc as [Hc _]. by specialize (Hc eq_refl). Qed.

Lemma new_files_free n q x :
  area n = AAppend → below [n] q → x = Dir ∨ path_of q ∉ m.(append_only_files) → legal m q x → ¬ frozen m q.
Proof.
  intros Hn [[r ->] _] Hx. cbn. rewrite Hn. intros (_ & Hl & _) [Hin _]. destruct Hx as [->|Hx]; [by apply Hl|done].
Qed.

(** No new file is left. *)
Definition no_new_files u : Prop :=
  ∀ n r c, area n = AAppend → u !! (n :: r) = Some (File c) → path_of (n :: r) ∈ m.(append_only_files).

Lemma wp_remove_all_new_files t :
  I t →
  wp I (for_each (fun n => fueled (fun fuel => remove_new_files fuel [n] m.(append_only_files))) APPEND_ONLY_ROOTS)
     (fun _ u => I u ∧ (∀ n r, area n ≠ AAppend → u !! (n :: r) = t !! (n :: r)) ∧ no_new_files u) t.
Proof.
  intros Hi. eapply wp_conseq.
  - apply (wp_for_each I _ (fun rest u => I u ∧ (∀ n, n ∈ rest → area n = AAppend) ∧
      (∀ n r, area n ≠ AAppend → u !! (n :: r) = t !! (n :: r)) ∧
      (∀ n, area n = AAppend → n ∉ rest → clean m.(append_only_files) (below [n]) u))); [|by intros u [? _]|].
    + intros n rest u (Hiu & Hr & Ho & Hc). pose proof Hiu as (Hwu & _ & _). assert (area n = AAppend) as Hn by (apply Hr; by left).
      apply wp_fueled, (wp_remove_new_files I (fun q x => below [n] q ∧ (x = Dir ∨ path_of q ∉ m.(append_only_files))));
        [|done|done|done|by auto|intros c; by apply root_not_file|by apply depth_enough|].
      { apply shrinks_allowed. intros q x [Hq Hx]. by eapply new_files_free. }
      intros v Hwv Hiv Hk Hcl. split_and!; [done|intros a Ha; apply Hr; by right| |].
      * intros a r Ha. rewrite <-Ho by done. destruct (u !! (a :: r)) eqn:E; [|by eapply kept_none]. apply Hk; [done|left].
        intros [Hpre%prefix_cons_inv_1 _]. by subst.
      * intros a Ha Hrest. destruct (decide (a = n)) as [->|Han]; [done|]. eapply clean_kept; [done|]. apply Hc; [done|].
        rewrite elem_of_cons. by intros [?|?].
    + split_and!; [done|by intros n ?%area_append|done|]. intros n Hn%area_append Hnr. done.
  - cbv beta. intros _ u (Hiu & _ & Ho & Hc). split_and!; [done..|]. intros n r c Hn Hf. eapply (Hc n); [done|apply not_elem_of_nil|done|].
    split; [by exists r|]. intros [= ->]. by apply (root_not_file u n c).
Qed.

Lemma wp_reject_relative_symlinks q t : q ≠ [] → I t → wp I (reject_relative_symlinks (path_of q)) (fun _ u => u = t) t.
Proof.
  intros Hq Hi. unfold reject_relative_symlinks. rewrite validate_relative_ok by done. apply wp_bind, wp_returns; [done|].
  apply (wp_for_each I _ (fun _ u => u = t)); [|by intros u ->|done]. intros k _ u ->. apply wp_bind, wp_path_exists; [done|].
  destruct (lookup_node t _) eqn:E; [|by apply wp_returns]. apply wp_reject_symlink; [by rewrite E|done..].
Qed.

Definition compacted_restored t (rest : list pathbuf) u : Prop :=
  I u ∧ (∀ n r, area n ≠ AAppend → u !! (n :: r) = t !! (n :: r)) ∧ no_new_files u ∧
  (∀ p, p ∈ rest → p ∈ m.(compacted_append_only_files)) ∧
  (∀ p, p ∈ m.(compacted_append_only_files) → p ∉ rest → u !! names_of p = t0 !! (compaction_backup ++ names_of p)).

Section compacted.
Context (n a : name) (r : path).
Abbreviation q := (n :: a :: r).
Context (Hn : area n = AAppend) (Hc : path_of q ∈ m.(compacted_append_only_files)).

Lemma compacted_listed : path_of q ∈ m.(append_only_files).
Proof. by apply (v_compacted m t0 Hv) in Hc as (_ & ? & _). Qed.

Lemma compacted_free : ¬ frozen m q.
Proof. cbn [frozen]. rewrite Hn. by intros [_ []]. Qed.

Lemma compacted_not_dir u : I u → u !! q ≠ Some Dir.
Proof. intros Hu Hd%(guarded_legal u); [|done]. cbn [legal] in Hd. rewrite Hn in Hd. by apply (proj1 (proj2 Hd) compacted_listed). Qed.

Lemma parent_below p : p `prefix_of` parent q → below p q.
Proof. intros Hp. split; [etrans; [done|apply parent_prefix]|]. intros <-. by apply (parent_ne q). Qed.

Lemma compacted_above_allowed p : p `prefix_of` parent q → allowed m p Dir.
Proof.
  intros Hp. apply parent_below in Hp as Hb. destruct p as [|b p]; [by left|right]. pose proof Hb as [Hpre _].
  apply prefix_cons_inv_1 in Hpre as ->. assert (path_of (n :: p) ∉ m.(append_only_files)) as Hnot.
  { intros Hin. by apply (v_flat m t0 Hv (n :: p) q Hin compacted_listed). }
  cbn [legal frozen]. rewrite Hn. split_and!; [done|done|done|tauto].
Qed.

Lemma compacted_file_allowed c : allowed m q (File c).
Proof.
  right. split; [|apply compacted_free]. cbn [legal]. rewrite Hn. split_and!; [done|done|].
  intros p Hp Hb. by destruct (v_flat m t0 Hv q p compacted_listed Hp).
Qed.

Lemma compacted_above_not_file u p c : I u → p `prefix_of` parent q → u !! p ≠ Some (File c).
Proof.
  intros Hu Hp Hx. pose proof Hu as (Hw & _ & _). apply parent_below in Hp as Hb. destruct p as [|b p]; [by rewrite (proj1 Hw) in Hx|].
  pose proof Hb as [Hpre _]. apply prefix_cons_inv_1 in Hpre as ->. apply (guarded_legal u) in Hx; [|done]. cbn [legal] in Hx. rewrite Hn in Hx.
  destruct Hx as (_ & _ & Hx). by specialize (Hx q compacted_listed Hb).
Qed.

(** A listed file is on the way to no other. *)
Lemma listed_not_above p : path_of p ∈ m.(append_only_files) → ¬ p `prefix_of` parent q.
Proof. intros Hp Hpre%parent_below. by apply (v_flat m t0 Hv p q Hp compacted_listed). Qed.

Lemma wp_restore_compacted t rest u :
  compacted_restored t (path_of q :: rest) u → wp I (restore_compacted (path_of q)) (fun _ => compacted_restored t rest) u.
Proof.
  intros (Hi & Ho & Hnew & Hr & Hd). pose proof Hi as (Hw & _ & _). unfold restore_compacted. rewrite names_path_of.
  destruct (v_compacted m t0 Hv _ Hc) as (_ & Hl & c & Hb). rewrite names_path_of in Hb.
  apply wp_bind. eapply wp_conseq; [by apply wp_reject_relative_symlinks|]. cbv beta. intros _ ? ->. apply wp_bind.
  apply (wp_remove_file_present I (fun p _ => p = q)); [done..| |done|done|by apply compacted_not_dir|].
  { apply shrinks_allowed. intros p x -> _. apply compacted_free. }
  intros v Hv1 Hiv. pose proof Hiv as (Hwv & _ & _).
  apply (wp_copy_file I (allowed m) _ _ c); [done|done|by apply grows_allowed| |done|done| | | |by apply compacted_not_dir|].
  - rewrite <-Hb. by apply (guarded_journal m).
  - intros p. apply compacted_above_allowed.
  - intros c' _. apply compacted_file_allowed.
  - intros p c'. by apply compacted_above_not_file.
  - intros w Hww Hiw Hcp. split_and!; [done| | |intros p Hp; apply Hr; by right|].
    + intros b s Hbn. rewrite <-Ho by done. rewrite Hcp, !decide_False, Hv1, decide_False; [done|..]; try (by intros [= -> ->]).
      intros [Hpre%parent_below _]. destruct Hpre as [Hpre%prefix_cons_inv_1 _]. by subst.
    + intros b s c' Hbn. rewrite Hcp. case_decide as Hq; [by intros _; rewrite Hq|]. case_decide; [done|]. rewrite Hv1, decide_False by done. by apply Hnew.
    + intros p Hp Hpr. pose proof (v_compacted m t0 Hv p Hp) as (_ & Hpl & _). destruct (append_path p Hpl) as (b & d & s & -> & _).
      rewrite names_path_of. destruct (decide ((b :: d :: s) = q)) as [->|Hne]; [by rewrite Hcp, decide_True|].
      rewrite Hcp, !decide_False, Hv1, decide_False by (try done; intros [? _]; by eapply listed_not_above).
      rewrite <-(names_path_of (b :: d :: s)) at 1. rewrite Hd, names_path_of; [done|done|]. rewrite elem_of_cons. intros [Heq|]; [|done].
      apply Hne. by rewrite <-(names_path_of q), <-Heq, names_path_of.
Qed.
End compacted.

Lemma wp_restore_all_compacted t u :
  I u → (∀ n r, area n ≠ AAppend → u !! (n :: r) = t !! (n :: r)) → no_new_files u →
  wp I (for_each restore_compacted m.(compacted_append_only_files)) (fun _ => phase AAppend t) u.
Proof.
  intros Hiu Ho Hnew. eapply wp_conseq.
  - apply (wp_for_each I _ (compacted_restored t)); [|by intros v [? _]|].
    + intros p rest v Hx. pose proof Hx as (_ & _ & _ & Hr & _). assert (p ∈ m.(compacted_append_only_files)) as Hp by (apply Hr; by left).
      destruct (v_compacted m t0 Hv p Hp) as (_ & Hl & _). destruct (append_path p Hl) as (n & a & r & -> & Hn). by apply wp_restore_compacted.
    + by split_and!.
  - cbv beta. intros _ v (Hiv & Hov & Hnv & _ & Hd). split_and!; [done| |done]. intros n r Hn. cbn [outcome]. rewrite Hn.
    case_bool_decide as Hcp.
    + apply file_at_same. rewrite <-(names_path_of (n :: r)) at 1. rewrite Hd, names_path_of; [done|done|apply not_elem_of_nil].
    + case_bool_decide as Hin.
      * apply file_at_same. destruct Hiv as (_ & _ & Hf). apply Hf. cbn [frozen]. by rewrite Hn.
      * unfold file_at. destruct (v !! (n :: r)) as [[|c]|] eqn:E; [done| |done]. by apply Hnv in E.
Qed.

(** ** All of it *)

Lemma wp_check_compacted p t : p ∈ m.(compacted_append_only_files) → I t → wp I (check_compacted m p) (fun _ u => u = t) t.
Proof.
  intros Hp Hi. destruct (v_compacted m t0 Hv p Hp) as (Hk & Hl & c & Hb). pose proof (v_append m t0 Hv p Hl) as Hr.
  unfold check_append_only in Hr. apply rbind_ok in Hr as ([] & Hr & _). unfold check_compacted. rewrite Hr. cbn [rbind].
  rewrite bool_decide_false, bool_decide_true by (auto; by rewrite Hk). apply wp_bind, wp_returns; [done|].
  assert (t !! (compaction_backup ++ names_of p) = Some (File c)) as Hbt by (rewrite <-Hb; by apply (guarded_journal m)).
  apply wp_bind. apply wp_reject_symlink; [rewrite lookup_node_ne by done; by rewrite Hbt|done|].
  apply wp_bind. eapply wp_reads; [rewrite lookup_node_ne by done; by rewrite Hbt|done|]. by apply wp_returns.
Qed.

Lemma ratchet_backup_active : active `prefix_of` (ratchet_backup m).2.
Proof. unfold ratchet_backup. destruct (ratchet_primary_existed m); by eexists. Qed.

Lemma wp_check_backups t : I t → wp I (check_backups m) (fun _ u => u = t) t.
Proof.
  intros Hi. pose proof Hi as (Hw & _ & _). unfold check_backups. pose proof (v_ratchet m t0 Hv) as Hrb. pose proof (v_sequence m t0 Hv) as Hsb.
  pose proof (ratchet_backup_journal m) as [rb Hr]. pose proof (next_sequence_backup_journal m) as [sb Hs]. pose proof ratchet_backup_active as Ha.
  destruct (ratchet_backup m) as [er r], (next_sequence_backup m) as [es s]. cbn [fst snd] in *. subst r s. apply wp_bind.
  assert (∀ q, t !! (TRANSACTION_DIRECTORY :: q) = t0 !! (TRANSACTION_DIRECTORY :: q)) as Hj by (intros; by apply (guarded_journal m)).
  eapply (wp_conseq _ _ (fun _ u => u = t)).
  - destruct er; [|by apply wp_returns]. destruct (Hrb eq_refl) as [Hd _]. apply wp_bind, wp_path_exists; [done|]. cbn [lookup_node]. rewrite Hj, Hd.
    apply wp_bind, wp_returns; [done|]. apply wp_bind, wp_fueled, wp_collect_relative_files; [done..|by rewrite Hj, Hd|by apply depth_enough|].
    intros l _. by apply wp_returns.
  - intros _ u ->. destruct es; [|by apply wp_returns]. destruct (Hsb eq_refl) as [c Hc]. apply wp_bind, wp_path_exists; [done|].
    cbn [lookup_node]. rewrite Hj, Hc. apply wp_bind, wp_returns; [done|].
    apply wp_bind. apply wp_reject_symlink; [cbn [lookup_node]; by rewrite Hj, Hc|done|].
    apply wp_bind. eapply wp_reads; [cbn [lookup_node]; by rewrite Hj, Hc|done|]. by apply wp_returns.
Qed.
End rollback.
