(* ===== verification/StateAtomicity.v ===== *)
(** Recovery is correct and can be repeated: from a valid journal, or from one
    that a commit or a rollback has closed, [recover] succeeds, gives every file
    its content, and every tree a crash leaves on the way is one from which
    recovery gives the same contents, unless it comes while the cleanup is
    [exposed]. *)

From stdpp Require Import base tactics list numbers strings gmap.
From Stdlib Require Import Strings.Byte.
From S2P Require Import Prelude FileTree FileTreeFacts StateTransaction StateTransactionFacts StateJournal StateRecovery.

(** The cleanup of a journal is exposed to a crash when it has removed a marker
    that closes the journal and [prepared] is still there: the journal looks
    open, but it is no longer whole.  The order in which [remove_dir_all] removes
    the files of a directory is not documented, so this can happen. *)
Definition exposed (done : list fsop) (t : tree) : Prop :=
  is_Some (t !! marker PREPARED_MARKER) ∧
  (Remove (marker COMMITTED_MARKER) ∈ done ∨ Remove (marker ROLLED_BACK_MARKER) ∈ done).

Lemma exposed_app l done t : exposed done t → exposed (l ++ done) t.
Proof. unfold exposed. rewrite !elem_of_app. tauto. Qed.

Abbreviation contents := (path → option bytes).

Definition holds (g : contents) (t : tree) : Prop := ∀ q, state_file q → file_at t q = g q.

(** [recover] only has to remove the journal. *)
Definition closed (t : tree) : Prop :=
  t !! marker PREPARED_MARKER = None ∨ is_Some (t !! marker COMMITTED_MARKER) ∨ is_Some (t !! marker ROLLED_BACK_MARKER).

Definition finished (g : contents) (t : tree) : Prop :=
  wf t ∧ (∀ c, t !! active ≠ Some (File c)) ∧ holds g t ∧ closed t.

Section recovery.
Context `{FileSystemLaws} `{ManifestJson} `{OrderedProfile}.
Implicit Types (g : contents) (t : tree) (m : TransactionManifest).

Definition pending g t : Prop := ∃ m, valid m t ∧ ∀ q, state_file q → outcome m t q = g q.

Definition recoverable g t : Prop := pending g t ∨ finished g t.

(** The state directory after a recovery. *)
Definition recovered g t : Prop := wf t ∧ t !! active = None ∧ holds g t.

(** ** Removing the journal *)

Lemma state_file_journal q t t' :
  (∀ p, area (hd [] p) ≠ AJournal → t' !! p = t !! p) → state_file q → file_at t' q = file_at t q.
Proof. intros Ht Hq. destruct q as [|n r]; [done|]. destruct Hq as [Hn _]. by apply file_at_same, Ht. Qed.

Lemma active_head q : active `prefix_of` q → area (hd [] q) = AJournal.
Proof. by intros [r ->]. Qed.

Lemma crashed_removals done (l : list path) t t' :
  crashed_after done (map Remove l) t t' → ∃ k, done = map Remove (take k l) ∧ ∀ q, t' !! q = if decide (q ∈ take k l) then None else t !! q.
Proof.
  revert done t. induction l as [|p l IH]; intros done t Hc.
  - inversion Hc; subst. by exists 0.
  - cbn in Hc. inversion Hc as [|? ? ? ? Ht|? done' ? ? ? Hl]; subst; [by exists 0|by inversion Ht|]. apply IH in Hl as (k & -> & Hk).
    exists (S k). split; [done|]. intros q. rewrite Hk. cbn [perform take]. destruct (decide (q = p)) as [->|Hq].
    + rewrite lookup_delete_eq, (decide_True (P:=p ∈ p :: _)) by left. by case_decide.
    + rewrite lookup_delete_ne by done. apply decide_ext. rewrite elem_of_cons. tauto.
Qed.

(** Removals that are not exposed keep a journal closed. *)
Lemma closed_removals done (l : list path) t t' :
  closed t → crashed_after done (map Remove l) t t' → ¬ exposed done t' → closed t'.
Proof.
  intros Hcl (k & -> & Hk)%crashed_removals Hx. destruct (t' !! marker PREPARED_MARKER) as [x|] eqn:E; [right|by left].
  assert (∀ n, Remove (marker n) ∉ map Remove (take k l) → t' !! marker n = t !! marker n) as Hsame.
  { intros n Hn. rewrite Hk, decide_False; [done|]. intros Hin. apply Hn, list_elem_of_fmap. by exists (marker n). }
  destruct Hcl as [Hcl|[Hcl|Hcl]].
  - rewrite Hk in E. by case_decide; rewrite ?Hcl in E.
  - left. rewrite Hsame; [done|]. intros Hin. apply Hx. split; [by eexists|by left].
  - right. rewrite Hsame; [done|]. intros Hin. apply Hx. split; [by eexists|by right].
Qed.

Lemma ops_remove_tree p t :
  p ≠ [] → ops (remove_tree_if_present p t) = match t !! p with Some Dir => map Remove (removal_order t p) | _ => [] end.
Proof.
  intros Hp. destruct p as [|n p]; [done|].
  unfold remove_tree_if_present, path_exists, reject_symlink, remove_dir_all, abind, reads, returns, final.
  cbn [answer ops perform_all foldl lookup_node]. destruct (t !! (n :: p)) as [[|c]|] eqn:E; cbn [answer ops negb app foldl]; rewrite ?E; done.
Qed.

Lemma wp_remove_active g t :
  finished g t → wp_except exposed (finished g) (remove_tree_if_present active) (fun _ => recovered g) t.
Proof.
  intros (Hw & Hf & Hg & Hcl).
  assert (wp (fun t' => wf t' ∧ (∀ c, t' !! active ≠ Some (File c)) ∧ holds g t') (remove_tree_if_present active) (fun _ => recovered g) t)
    as (x & Ha & Hq & Hc).
  { apply (wp_remove_tree _ (fun q _ => active `prefix_of` q)); [done|done| |done|done|done|].
    - intros u q x (Hwu & Hfu & Hgu) Hq Hp Hc. split_and!; [by apply wf_delete| |].
      + intros c [_ Hx]%lookup_delete_Some. by apply (Hfu c).
      + intros r Hr. rewrite <-Hgu by done. apply state_file_journal; [|done]. intros p Hpn. apply lookup_delete_ne. intros <-.
        by apply active_head in Hp.
    - intros u Hcut (Hwu & _ & Hgu). split_and!; [done|by rewrite Hcut, decide_True|done]. }
  exists x. split; [done|]. split; [done|]. intros done t' Hd Hx. destruct (Hc t') as (Hw' & Hf' & Hg'); [by eapply crashed_after_crashed|].
  split_and!; [done..|]. rewrite ops_remove_tree in Hd by done.
  destruct (t !! active) as [[|c]|]; [by eapply closed_removals|inversion Hd; by subst..].
Qed.

(** ** Closing the journal *)

Lemma active_dir t m' : valid m' t → t !! active = Some Dir.
Proof.
  intros Hvt. change (lookup_node t active = Some Dir). apply (wf_prefix t active [PREPARED_MARKER] (v_wf m' t Hvt)); [|done].
  apply (v_prepared m' t Hvt).
Qed.

(** Once a closing marker is there, the journal may go. *)
Lemma wp_close n g' (J : tree → Prop) t m' :
  n ∈ [COMMITTED_MARKER; ROLLED_BACK_MARKER] → valid m' t → holds g' t → J t → (∀ u, finished g' u → J u) →
  wp J (write_marker (marker n)) (fun _ => finished g') t.
Proof.
  intros Hn Hvt Ht HJ HJf. pose proof (active_dir t m' Hvt) as Ha.
  assert (t !! marker n = None) as Hnone.
  { apply elem_of_cons in Hn as [->|[->|[]%elem_of_nil]%elem_of_cons]; apply Hvt. }
  assert (∀ c, finished g' (<[marker n := File c]> t)) as Hfin.
  { intros c. split_and!.
    - apply wf_insert; [apply Hvt|done|exact Ha|by rewrite Hnone].
    - intros c'. rewrite lookup_insert_ne by done. by rewrite Ha.
    - intros q Hq. rewrite <-Ht by done. apply state_file_journal; [|done]. intros p Hp. apply lookup_insert_ne. by intros <-.
    - right. apply elem_of_cons in Hn as [->|[->|[]%elem_of_nil]%elem_of_cons]; [left|right]; by rewrite lookup_insert_eq. }
  apply wp_write_new; [exact Ha|exact Hnone|done|intros c _; by apply HJf|done].
Qed.

(** The steps before the cleanup have no crash that is excepted. *)
Ltac under_bind := apply wp_except_bind; [apply exposed_app|].

(** ** Rolling back *)

Section rollback.
Context (g : contents) (m : TransactionManifest) (t0 : tree) (Hv : valid m t0) (Hg : ∀ q, state_file q → outcome m t0 q = g q).

Lemma guarded_pending t : guarded m t0 t → pending g t.
Proof.
  intros Hi. exists m. split; [by eapply valid_guarded|]. intros q Hq. rewrite <-Hg by done. by apply outcome_guarded.
Qed.

Lemma settled_phase a b t t' : a ≠ b → phase m t0 a t t' → settled m t0 b t → settled m t0 b t'.
Proof. intros Hab (_ & _ & Ho) Hs n r Hn. rewrite <-Hs by done. apply file_at_same, Ho. by rewrite Hn. Qed.

Lemma all_settled t t1 t2 t3 t4 :
  phase m t0 ARatchet t t1 → phase m t0 ASequence t1 t2 → phase m t0 ATrust t2 t3 → phase m t0 AAppend t3 t4 → holds g t4.
Proof.
  intros H1' H2' H3' H4' q Hq. rewrite <-Hg by done. destruct q as [|n r]; [done|].
  assert (settled m t0 ARatchet t4) as S1 by (do 3 (eapply settled_phase; [|done|]; [done|]); apply H1').
  assert (settled m t0 ASequence t4) as S2 by (do 2 (eapply settled_phase; [|done|]; [done|]); apply H2').
  assert (settled m t0 ATrust t4) as S3 by (eapply settled_phase; [|done|]; [done|]; apply H3').
  destruct H4' as ((_ & _ & Hf) & S4 & _). destruct (area n) eqn:Ea; [by destruct Hq as [Hq _]|by auto..|].
  cbn [outcome]. rewrite Ea. apply file_at_same, Hf. cbn [frozen]. rewrite Ea. by destruct Hq.
Qed.

Lemma wp_read_manifest_file (J : tree → Prop) (Q : bytes → tree → Prop) t :
  guarded m t0 t → J t → (∀ encoded, parse_manifest encoded = Ok m → Q encoded t) →
  wp J (read_file Io (active ++ [MANIFEST_FILE])) Q t.
Proof.
  intros Hi HJ Hk. destruct (v_manifest m t (valid_guarded m t0 t Hv Hi)) as (encoded & He & Hm).
  eapply wp_read_file; [done..|]. apply Hk. unfold parse_manifest. by rewrite Hm.
Qed.

Lemma wp_rollback_active t : guarded m t0 t → wp_except exposed (recoverable g) rollback_active (fun _ => recovered g) t.
Proof.
  intros Hi. unfold rollback_active.
  assert (∀ {A} (a : action StateError A) Q u, wp (guarded m t0) a Q u → wp (recoverable g) a Q u) as Hup.
  { intros A a Q u. apply wp_mono; [done|]. intros u' Hu. left. by apply guarded_pending. }
  assert (∀ u, guarded m t0 u → recoverable g u) as Hrec by (intros u Hu; left; by apply guarded_pending).
  under_bind. apply wp_read_manifest_file; [done|by auto|]. intros encoded Henc. rewrite Henc. under_bind; apply wp_returns; [by auto|].
  rewrite bool_decide_false by (rewrite (v_version m t0 Hv); auto). under_bind; apply wp_returns; [by auto|].
  assert (try_for check_append_only (append_only_files m) = Ok tt) as ->.
  { apply try_for_ok, Forall_forall. apply (v_append m t0 Hv). }
  under_bind; apply wp_returns; [by auto|]. under_bind. eapply wp_conseq.
  { apply Hup. apply (wp_for_each _ _ (fun rest u => u = t ∧ ∀ p, p ∈ rest → p ∈ m.(compacted_append_only_files))); [|by intros u [-> _]|by split].
    intros p rest u [-> Hr]. eapply wp_conseq; [apply (wp_check_compacted m t0 Hv); [apply Hr; by left|done]|]. cbv beta. intros _ u ->.
    split; [done|]. intros p' Hp'. apply Hr. by right. }
  cbv beta. intros _ u [-> _]. under_bind. eapply wp_conseq; [by apply Hup, wp_check_backups|]. cbv beta. intros _ u ->.
  under_bind. eapply wp_conseq; [by apply Hup, wp_restore_ratchet|]. cbv beta. intros _ t1 P1.
  under_bind. eapply wp_conseq; [apply Hup, wp_restore_next_sequence; [done|apply P1]|]. cbv beta. intros _ t2 P2.
  under_bind. eapply wp_conseq; [apply Hup, wp_restore_trust; [done|apply P2]|]. cbv beta. intros _ t3 P3.
  under_bind. eapply wp_conseq; [apply Hup, wp_remove_all_new_files, P3|]. cbv beta. intros _ u (Hiu & Ho & Hn).
  under_bind. eapply wp_conseq; [by apply Hup, wp_restore_all_compacted|]. cbv beta. intros _ t4 P4.
  under_bind. eapply wp_conseq; [apply (wp_close _ g _ _ m); [right; by left|eapply valid_guarded; [done|apply P4]|by eapply all_settled|apply Hrec, P4|by right]|]. cbv beta. intros _ t5 Hfin.
  apply (wp_except_mono _ (finished g)); [by right|by apply wp_remove_active].
Qed.
End rollback.

(** ** Recovering *)

Lemma wp_has_ordered_fence J m t (Q : bool → tree → Prop) :
  valid m t → J t → Q false t → wp J has_ordered_fence Q t.
Proof.
  intros Hv HJ HQ. eapply wp_reads; [|done..]. destruct (t !! [RATCHET_DIRECTORY; b_str "account.pickle"]) as [x|] eqn:E; [|done].
  assert (unfenced x) as Hx. { apply (v_legal m t Hv) in E. destruct E as [_ E]. by apply E. }
  destruct x as [|c]; [done|]. rewrite bool_decide_false; [done|]. intros ->. by apply Hx.
Qed.

Lemma wp_has_indexed_anchor J m t :
  valid m t → J t → wp J has_indexed_anchor (fun b u => b = false ∧ u = t) t.
Proof.
  intros Hv HJ. unfold has_indexed_anchor. apply wp_bind, (wp_has_ordered_fence _ m); [done..|]. by apply wp_returns.
Qed.

Lemma wp_recover g t : recoverable g t → wp_except exposed (recoverable g) recover (fun _ => recovered g) t.
Proof.
  intros Hr. unfold recover. under_bind; apply wp_path_exists; [done|]. change (lookup_node t active) with (t !! active).
  destruct Hr as [(m & Hv & Hg)|Hf].
  - assert (recoverable g t) as Hr by (left; by exists m). rewrite (active_dir t m Hv). cbn [negb].
    under_bind; apply wp_path_exists; [done|]. change (lookup_node t (marker PREPARED_MARKER)) with (t !! marker PREPARED_MARKER).
    destruct (v_prepared m t Hv) as [x ->]. under_bind; apply wp_path_exists; [done|].
    change (lookup_node t (marker COMMITTED_MARKER)) with (t !! marker COMMITTED_MARKER). rewrite (v_committed m t Hv).
    under_bind; apply wp_path_exists; [done|]. change (lookup_node t (marker ROLLED_BACK_MARKER)) with (t !! marker ROLLED_BACK_MARKER).
    rewrite (v_rolled_back m t Hv). cbn [negb orb]. under_bind; apply (wp_has_ordered_fence _ m); [done..|]. under_bind; apply wp_returns; [done|].
    under_bind. apply (wp_read_manifest_file m t Hv); [by apply valid_guarded_refl|done|]. intros encoded Henc.
    under_bind. eapply wp_conseq; [eapply (wp_has_indexed_anchor _ m); done|]. cbv beta. intros _ ? [-> ->].
    under_bind; apply wp_returns; [done|]. rewrite Henc. under_bind; apply wp_returns; [done|].
    rewrite bool_decide_false by by rewrite (v_version m t Hv). apply (wp_rollback_active g m t Hv Hg). by apply valid_guarded_refl.
  - assert (recoverable g t) as Hr by by right. destruct Hf as (Hw & Ha & Hg & Hc).
    destruct (t !! active) as [[|c]|] eqn:E; cbn [negb]; [|by destruct (Ha c)|by apply wp_except_wp, wp_returns].
    do 3 (under_bind; apply wp_path_exists; [done|]).
    match goal with |- wp_except _ _ (if ?b then _ else _) _ _ => assert (b = true) as -> end.
    { change (lookup_node t (marker PREPARED_MARKER)) with (t !! marker PREPARED_MARKER).
      change (lookup_node t (marker COMMITTED_MARKER)) with (t !! marker COMMITTED_MARKER).
      change (lookup_node t (marker ROLLED_BACK_MARKER)) with (t !! marker ROLLED_BACK_MARKER).
      destruct Hc as [->|[[x ->]|[x ->]]]; cbn; [done|by rewrite orb_true_r|by rewrite !orb_true_r]. }
    apply (wp_except_mono _ (finished g)); [by right|]. apply wp_remove_active. split_and!; [done|by rewrite E|done|done].
Qed.

(** ** Committing *)

(** A crash in [commit] leaves a journal that will be rolled back, or one that
    is closed over the state as it is. *)
Lemma wp_commit g m t :
  valid m t → (∀ q, state_file q → outcome m t q = g q) →
  wp_except exposed (fun u => pending g u ∨ finished (file_at t) u) commit (fun _ => recovered (file_at t)) t.
Proof.
  intros Hv Hg. unfold commit. under_bind. eapply wp_conseq.
  - apply (wp_close _ (file_at t) _ _ m); [by left|done|done|left; by exists m|by right].
  - cbv beta. intros _ u Hu. apply (wp_except_mono _ (finished (file_at t))); [by right|].
    by apply wp_remove_active.
Qed.
End recovery.
