(* ===== verification/StateBegin.v ===== *)
(** Beginning a transaction: [begin] writes a journal that is valid and whose
    outcome is the state as it was, and a crash on the way leaves either no
    open journal or that one. *)

From stdpp Require Import base tactics list numbers strings gmap.
From Stdlib Require Import Strings.Byte.
From S2P Require Import Prelude FileTree FileTreeFacts StateTransaction StateTransactionFacts StateJournal StateRecovery StateAtomicity.

(** What [serde_json] promises of a manifest: it writes one whose names it can
    represent ([json_name]: valid UTF-8), and reads back what it wrote. *)
Class ManifestJsonLaws `{ManifestJson} := {
  json_name : name → Prop;
  to_json_some : ∀ m,
    (∀ p n, p ∈ m.(append_only_files) ∨ p ∈ m.(compacted_append_only_files) → Normal n ∈ p → json_name n) →
    is_Some (to_json m);
  from_to_json : ∀ m b, to_json m = Some b → from_json b = Some m
}.

Section begin.
Context `{FileSystemLaws} `{HJ : ManifestJson} `{!ManifestJsonLaws} `{OrderedProfile}.
Implicit Types (t u : tree).

Definition empty_manifest : TransactionManifest :=
  {| version := MANIFEST_VERSION; ratchet_existed := false; next_sequence_existed := false; append_only_files := [];
     compacted_append_only_files := []; ratchet_primary_existed := None; next_sequence_primary_existed := None;
     trust_primary_prepared := false |}.

(** A state directory of an unordered profile, without a journal. *)
Record profile t : Prop := {
  p_wf : wf t;
  p_legal : ∀ q x, t !! q = Some x → legal empty_manifest q x;
  p_journal : ∀ c, t !! [TRANSACTION_DIRECTORY] ≠ Some (File c);
  p_active : t !! active = None;
  p_names : ∀ n r c, area n = AAppend → t !! (n :: r) = Some (File c) → ∀ k, k ∈ n :: r → json_name k
}.

Context (t0 : tree) (Hp : profile t0).

(** ** Before the marker *)

Definition fresh t : Prop :=
  wf t ∧ t !! marker PREPARED_MARKER = None ∧ (∀ c, t !! active ≠ Some (File c)) ∧
  ∀ q, area (hd [] q) ≠ AJournal → t !! q = t0 !! q.

Definition fresh_region (q : path) (x : node) : Prop :=
  q = [] ∨ (area (hd [] q) = AJournal ∧ q ≠ marker PREPARED_MARKER ∧ (q = active → x = Dir)).

Lemma fresh_grows : grows fresh fresh_region.
Proof.
  intros t q x (Hw & Hm & Ha & Ho) [->|(Hq & Hne & Hx)] Hqn Hd Hdir; [done|]. split_and!; [by apply wf_insert| | |].
  - by rewrite lookup_insert_ne.
  - intros c [[-> ->]|[_ Hc]]%lookup_insert_Some; [by specialize (Hx eq_refl)|by apply (Ha c)].
  - intros r Hr. rewrite lookup_insert_ne; [by apply Ho|]. by intros ->.
Qed.

Lemma fresh_finished t : fresh t → finished (file_at t0) t.
Proof.
  intros (Hw & Hm & Ha & Ho). split_and!; [done|done| |by left]. intros q Hq. by apply state_file_journal.
Qed.

(** The journal while it is drafted: which backups are there. *)
Definition draft (r s : bool) t : Prop :=
  fresh t ∧ t !! backup = Some Dir ∧ (∀ n q, n ≠ BACKUP_DIRECTORY → t !! (active ++ n :: q) = None) ∧
  (∀ q, t !! (backup ++ RATCHET_DIRECTORY :: q) = if r then t0 !! (RATCHET_DIRECTORY :: q) else None) ∧
  (∀ q, t !! (backup ++ NEXT_SEQUENCE_FILE :: q) = if s then t0 !! (NEXT_SEQUENCE_FILE :: q) else None).

Lemma nothing_in_active n q : t0 !! (active ++ n :: q) = None.
Proof. apply (nothing_below t0 active); [apply Hp|done|apply Hp|by eexists]. Qed.

(** The directories on the way to a backup are not files, and may be made. *)
Lemma above_backup_region n q : q `prefix_of` backup ++ [n] → fresh_region q Dir.
Proof.
  intros Hq. destruct q as [|a q]; [by left|right]. split_and!; [|intros Hx; rewrite Hx in Hq|done].
  - by apply prefix_cons_inv_1 in Hq as ->.
  - by do 2 apply prefix_cons_inv_2 in Hq; apply prefix_cons_inv_1 in Hq.
Qed.

Lemma fresh_above_backup t q c : fresh t → t !! backup = Some Dir → q `prefix_of` backup → t !! q ≠ Some (File c).
Proof.
  intros (Hw & _) Hb Hq Hc. apply below_cases in Hq as [<-|(n & r & Hr)]; [congruence|]. rewrite Hr in Hb.
  rewrite (nothing_below_file t q c) in Hb; [done..|]. intros ->. by rewrite (proj1 Hw) in Hc.
Qed.

Lemma fresh_start : fresh t0.
Proof.
  split_and!; [apply Hp|apply (nothing_in_active PREPARED_MARKER [])| |done]. intros c. by rewrite (p_active t0 Hp).
Qed.

Lemma wp_draft_start : wp fresh (create_dir_all (E:=StateError) Io backup) (fun _ => draft false false) t0.
Proof.
  apply (wp_create_dir_all Io fresh fresh_region); [apply Hp|apply fresh_start|apply fresh_grows| | |].
  - intros q Hq. apply (above_backup_region RATCHET_DIRECTORY). by apply prefix_app_r.
  - intros q c Hq Hc. destruct q as [|a [|b q]].
    + by rewrite (proj1 (p_wf t0 Hp)) in Hc.
    + apply prefix_cons_inv_1 in Hq as ->. by apply (p_journal t0 Hp c).
    + apply prefix_cons_inv_1 in Hq as Ha. apply prefix_cons_inv_2, prefix_cons_inv_1 in Hq as Hb. subst.
      assert (t0 !! (active ++ q) = None) as Hx. { apply (nothing_below t0 active); [apply Hp|done|apply Hp|by exists q]. }
      by rewrite (Hc : t0 !! (active ++ q) = Some (File c)) in Hx.
  - intros t Hw Hf Ha. assert (∀ q, ¬ q `prefix_of` backup → t !! q = t0 !! q) as Hsame.
    { intros q Hq. rewrite Ha, decide_False; [done|]. by intros [? _]. }
    split_and!; [done|by rewrite Ha, decide_True| | |].
    + intros n q Hn. rewrite Hsame; [apply nothing_in_active|]. intros Hpre. by do 2 apply prefix_cons_inv_2 in Hpre; apply prefix_cons_inv_1 in Hpre.
    + intros q. rewrite Hsame; [apply (nothing_in_active BACKUP_DIRECTORY (RATCHET_DIRECTORY :: q))|]. by apply not_prefix_below.
    + intros q. rewrite Hsame; [apply (nothing_in_active BACKUP_DIRECTORY (NEXT_SEQUENCE_FILE :: q))|]. by apply not_prefix_below.
Qed.

(** What a copy to a backup leaves alone. *)
Lemma backup_other n q : n ≠ BACKUP_DIRECTORY → ∀ k, ¬ (active ++ n :: q) `prefix_of` (backup ++ [k]) ∧ ¬ (backup ++ [k]) `prefix_of` (active ++ n :: q).
Proof. intros Hn k. split; intros Hq; do 2 apply prefix_cons_inv_2 in Hq; by apply prefix_cons_inv_1 in Hq. Qed.

Lemma wp_draft_ratchet t :
  draft false false t →
  wp fresh (if match lookup_node t ratchet with Some _ => true | None => false end
            then fueled (fun fuel => copy_tree fuel ratchet (backup ++ [RATCHET_DIRECTORY])) else returns (Ok tt))
     (fun _ => draft true false) t.
Proof.
  intros (Hf & Hb & Ho & Hr & Hs). pose proof Hf as (Hw & _ & _ & Hout). assert (∀ q, t !! (RATCHET_DIRECTORY :: q) = t0 !! (RATCHET_DIRECTORY :: q)) as Hrt by (intros; by apply Hout).
  change (lookup_node t ratchet) with (t !! ratchet). destruct (t !! ratchet) as [x|] eqn:E.
  - assert (x = Dir) as ->. { assert (legal empty_manifest ratchet x) as [Hx _]; [|by apply Hx]. apply (p_legal t0 Hp). rewrite <-E. symmetry. apply (Hrt []). }
    apply wp_fueled, wp_copy_tree; [done|done| |done|done|done|by apply heads_apart|intros q _; rewrite <-app_assoc; apply Hr| |by apply (depth_enough t ratchet)|].
    + eapply grows_mono; [|apply fresh_grows]. intros q x [[Hq ->]|(n & r & y & -> & _)]; [by eapply above_backup_region|]. right. by split_and!.
    + intros q c [Hq| ->]%prefix_snoc_cases; [by apply fresh_above_backup|by rewrite Hr].
    + intros u Hwu Hfu Hc. split_and!; [done|rewrite Hc, decide_False, decide_True; [done|by split; [eexists|]|by intros [[? Hx] _]]| | |].
      * intros n q Hn. destruct (backup_other n q Hn RATCHET_DIRECTORY) as [H1' H2']. rewrite Hc, !decide_False; [by apply Ho|by intros [? _]..].
      * intros q. destruct q as [|n q].
        -- rewrite Hc, decide_False, decide_True, <-Hrt; [done|by split|by intros [_ []]].
        -- pose proof (tree_copied_below _ _ _ _ n q Hc) as Hx. rewrite <-app_assoc in Hx. cbn [app] in Hx |- *. rewrite Hx. apply Hrt.
      * intros q. rewrite Hc, !decide_False; [apply Hs|..]; intros [Hpre _]; do 3 apply prefix_cons_inv_2 in Hpre; by apply prefix_cons_inv_1 in Hpre.
  - apply wp_returns; [done|]. split_and!; [done..| |done]. intros q. rewrite Hr, <-Hrt. symmetry. apply (nothing_below t ratchet); [done..|]. by exists q.
Qed.

Lemma sequence_node q x : t0 !! (NEXT_SEQUENCE_FILE :: q) = Some x → q = [] ∧ ∃ c, x = File c.
Proof.
  intros Hq. destruct (t0 !! next_sequence) as [[|c]|] eqn:E.
  - apply (p_legal t0 Hp) in E. by specialize (E eq_refl).
  - destruct q as [|n q]; [split; [done|]; exists c; change (t0 !! next_sequence = Some x) in Hq; congruence|]. change (t0 !! (next_sequence ++ n :: q) = Some x) in Hq.
    rewrite (nothing_below_file t0 next_sequence c) in Hq; [done|apply Hp|done..].
  - rewrite (nothing_below t0 next_sequence) in Hq; [done|apply Hp|done|done|by exists q].
Qed.

Lemma wp_draft_sequence t :
  draft true false t →
  wp fresh (if match lookup_node t next_sequence with Some _ => true | None => false end
            then copy_file next_sequence (backup ++ [NEXT_SEQUENCE_FILE]) else returns (Ok tt))
     (fun _ => draft true true) t.
Proof.
  intros (Hf & Hb & Ho & Hr & Hs). pose proof Hf as (Hw & _ & _ & Hout).
  assert (∀ q, t !! (NEXT_SEQUENCE_FILE :: q) = t0 !! (NEXT_SEQUENCE_FILE :: q)) as Hst by (intros; by apply Hout).
  change (lookup_node t next_sequence) with (t !! next_sequence). destruct (t !! next_sequence) as [x|] eqn:E.
  - destruct (sequence_node [] x) as (_ & c & ->); [by rewrite <-Hst|]. apply (wp_copy_file fresh fresh_region _ _ c); [done|done|apply fresh_grows|done|done|done|..].
    + intros q Hq. apply (above_backup_region NEXT_SEQUENCE_FILE). etrans; [done|apply parent_prefix].
    + intros c' _. right. by split_and!.
    + rewrite parent_snoc. intros q c'. by apply fresh_above_backup.
    + by rewrite Hs.
    + intros u Hwu Hfu Hc. unfold file_copied in Hc. rewrite parent_snoc in Hc. split_and!; [done|by rewrite Hc, decide_False, decide_True| | |].
      * intros n q Hn. destruct (backup_other n q Hn NEXT_SEQUENCE_FILE) as [H1' H2']. rewrite Hc, !decide_False; [by apply Ho| |].
        -- intros [Hx _]. apply H1'. by apply prefix_app_r.
        -- intros Hx. apply H1'. by rewrite Hx.
      * intros q. rewrite Hc, !decide_False; [apply Hr| |done]. intros [Hx _]. by apply (not_prefix_below backup (RATCHET_DIRECTORY :: q)) in Hx.
      * intros [|n q]; [rewrite Hc, decide_True by done; rewrite <-Hst; done|]. rewrite Hc, !decide_False; [rewrite Hs| |done].
        -- destruct (t0 !! _) eqn:Ex; [|done]. by apply sequence_node in Ex as [? _].
        -- intros [Hx _]. by apply (not_prefix_below backup (NEXT_SEQUENCE_FILE :: n :: q)) in Hx.
  - apply wp_returns; [done|]. split_and!; [done..|]. intros q. rewrite Hs, <-Hst. symmetry. apply (nothing_below t next_sequence); [done..|]. by exists q.
Qed.

(** ** The manifest *)

Definition listing (files : list path) : Prop :=
  ∀ q, q ∈ files ↔ ∃ n r c, q = n :: r ∧ area n = AAppend ∧ t0 !! (n :: r) = Some (File c).

Lemma wp_collect_append_only t :
  fresh t →
  wp fresh (collect (fun n => fueled (fun fuel => collect_relative_files fuel [] [n])) APPEND_ONLY_ROOTS)
     (fun files u => u = t ∧ listing files) t.
Proof.
  intros Hf. pose proof Hf as (Hw & _ & _ & Ho). assert (∀ n r, area n = AAppend → t !! (n :: r) = t0 !! (n :: r)) as Hsame.
  { intros n r Hn. apply Ho. cbn. by rewrite Hn. }
  eapply wp_conseq.
  - apply (wp_collect _ _ (fun n bs => listed (fun q _ => strip [] q) t [n] bs)); [done|]. intros n Hn%area_append.
    apply wp_fueled, wp_collect_relative_files; [done|done|done|apply prefix_nil| |by apply depth_enough|by auto].
    intros c Hc. rewrite Hsame in Hc by done. apply (p_legal t0 Hp) in Hc. cbn in Hc. rewrite Hn in Hc. destruct Hc as [Hc _]. by specialize (Hc eq_refl).
  - cbv beta. intros files u [-> (bss & -> & Hb)]. split; [done|]. intros q. rewrite list_elem_of_In, in_concat. split.
    + intros (bs & Hbs & Hin). apply list_elem_of_In in Hbs, Hin. apply list_elem_of_lookup in Hbs as [i Hi].
      destruct (Forall2_lookup_r _ _ _ _ _ Hb Hi) as (n & Hn & Hx). destruct (proj1 (Hx q) Hin) as (r & c & Hr & ->).
      apply list_elem_of_lookup_2, area_append in Hn. exists n, r, c. split_and!; [done..|]. by rewrite <-Hsame.
    + intros (n & r & c & -> & Hn & Hc). apply area_append in Hn as Hroot. apply list_elem_of_lookup in Hroot as [i Hi].
      destruct (Forall2_lookup_l _ _ _ _ _ Hb Hi) as (bs & Hbs & Hx). exists bs. rewrite <-!list_elem_of_In.
      split; [by eapply list_elem_of_lookup_2|]. apply Hx. exists r, c. split; [by rewrite <-Hsame in Hc|done].
Qed.

(** The manifest that [prepare_snapshot] returns. *)
Definition snapshot (m : TransactionManifest) : Prop :=
  ∃ files, listing files ∧
    m = {| version := MANIFEST_VERSION;
           ratchet_existed := match t0 !! ratchet with Some _ => true | None => false end;
           next_sequence_existed := match t0 !! next_sequence with Some _ => true | None => false end;
           append_only_files := map path_of (sort_by_key id files);
           compacted_append_only_files := []; ratchet_primary_existed := None;
           next_sequence_primary_existed := None; trust_primary_prepared := false |}.

Lemma path_of_inj (p q : path) : path_of p = path_of q → p = q.
Proof. intros Heq. by rewrite <-(names_path_of p), Heq, names_path_of. Qed.

Lemma snapshot_files m p :
  snapshot m → p ∈ m.(append_only_files) ↔ ∃ n r c, p = path_of (n :: r) ∧ area n = AAppend ∧ t0 !! (n :: r) = Some (File c).
Proof.
  intros (files & Hl & ->). cbn [append_only_files]. rewrite list_elem_of_fmap. split.
  - intros (q & -> & Hq). rewrite sort_by_key_perm in Hq. apply Hl in Hq as (n & r & c & -> & ? & ?). by exists n, r, c.
  - intros (n & r & c & -> & Hn & Hc). exists (n :: r). split; [done|]. rewrite sort_by_key_perm. apply Hl. by exists n, r, c.
Qed.

Lemma snapshot_listed m n r :
  snapshot m → area n = AAppend → path_of (n :: r) ∈ m.(append_only_files) ↔ ∃ c, t0 !! (n :: r) = Some (File c).
Proof.
  intros Hs Hn. rewrite snapshot_files by done. split.
  - intros (n' & r' & c & [= <- <-]%path_of_inj & _ & Hc). by exists c.
  - intros [c Hc]. by exists n, r, c.
Qed.

Lemma snapshot_json m : snapshot m → ∃ b, to_json m = Some b ∧ from_json b = Some m.
Proof.
  intros Hs. assert (is_Some (to_json m)) as [b Hb].
  { apply to_json_some. intros p k [Hpm|Hpm] Hk.
    - apply snapshot_files in Hpm as (n & r & c & -> & Hn & Hc); [|done]. apply (p_names t0 Hp n r c Hn Hc).
      unfold path_of in Hk. apply list_elem_of_fmap in Hk as (k' & [= ->] & Hk). done.
    - destruct Hs as (files & _ & ->). by apply elem_of_nil in Hpm. }
  exists b. split; [done|]. by apply from_to_json.
Qed.

Lemma wp_prepare_snapshot t :
  draft false false t → wp fresh prepare_snapshot (fun m u => draft true true u ∧ snapshot m) t.
Proof.
  intros Hd. pose proof Hd as (Hf & _). unfold prepare_snapshot. apply wp_bind, wp_path_exists; [done|].
  assert (lookup_node t ratchet = t0 !! ratchet) as Hre by (apply Hf; done).
  apply wp_bind. eapply wp_conseq; [by apply wp_draft_ratchet|]. cbv beta. intros _ t1 Hd1. pose proof Hd1 as (Hf1 & _).
  assert (lookup_node t1 next_sequence = t0 !! next_sequence) as Hse by (apply Hf1; done).
  apply wp_bind, wp_path_exists; [done|].
  apply wp_bind. eapply wp_conseq; [by apply wp_draft_sequence|]. cbv beta. intros _ t2 Hd2. pose proof Hd2 as (Hf2 & _).
  apply wp_bind. eapply wp_conseq; [by apply wp_collect_append_only|]. cbv beta. intros files ? [-> Hl].
  apply wp_returns; [done|]. split; [done|]. exists files. split; [done|]. by rewrite Hre, Hse.
Qed.

(** ** The journal *)

(** The tree with the manifest and the marker. *)
Definition journaled (m : TransactionManifest) u : Prop :=
  wf u ∧ (∀ q, area (hd [] q) ≠ AJournal → u !! q = t0 !! q) ∧ is_Some (u !! marker PREPARED_MARKER) ∧
  u !! marker COMMITTED_MARKER = None ∧ u !! marker ROLLED_BACK_MARKER = None ∧
  (∃ encoded, u !! (active ++ [MANIFEST_FILE]) = Some (File encoded) ∧ from_json encoded = Some m) ∧
  (∀ q, u !! (compaction_backup ++ q) = None) ∧ (∀ q, u !! (primary_backup ++ q) = None) ∧
  (∀ q, u !! (backup ++ RATCHET_DIRECTORY :: q) = t0 !! (RATCHET_DIRECTORY :: q)) ∧
  (∀ q, u !! (backup ++ NEXT_SEQUENCE_FILE :: q) = t0 !! (NEXT_SEQUENCE_FILE :: q)).

Lemma draft_active r s t : draft r s t → lookup_node t active = Some Dir.
Proof.
  intros ((Hw & _) & Hb & _). apply (wf_prefix t active [BACKUP_DIRECTORY] Hw); [|done]. change (is_Some (t !! backup)). by rewrite Hb.
Qed.

Lemma journaled_draft m t encoded c :
  draft true true t → from_json encoded = Some m →
  journaled m (<[marker PREPARED_MARKER := File c]> (<[active ++ [MANIFEST_FILE] := File encoded]> t)).
Proof.
  intros (Hf & Hb & Ho & Hr & Hs) Hm. pose proof Hf as (Hw & Hpre & _ & Hout).
  assert (∀ n q, n ≠ BACKUP_DIRECTORY → t !! (active ++ n :: q) = None) as Hnone by done.
  assert (lookup_node t active = Some Dir) as Ha by by apply draft_active with true true.
  split_and!.
  - apply wf_insert; [|done|rewrite lookup_node_ne, lookup_insert_ne by done; exact Ha|by rewrite lookup_insert_ne, Hpre].
    apply wf_insert; [done|done|exact Ha|]. by rewrite Hnone.
  - intros q Hq. rewrite !lookup_insert_ne by (by intros <-). by apply Hout.
  - by rewrite lookup_insert_eq.
  - rewrite !lookup_insert_ne by done. by apply Hnone.
  - rewrite !lookup_insert_ne by done. by apply Hnone.
  - exists encoded. by rewrite lookup_insert_ne, lookup_insert_eq.
  - intros q. rewrite !lookup_insert_ne by done. by apply (Hnone APPEND_ONLY_COMPACTION_BACKUP_DIRECTORY q).
  - intros q. rewrite !lookup_insert_ne by done. by apply (Hnone PRIMARY_BACKUP_DIRECTORY q).
  - intros q. rewrite !lookup_insert_ne by done. apply Hr.
  - intros q. rewrite !lookup_insert_ne by done. apply Hs.
Qed.

Lemma snapshot_legal m q x : snapshot m → t0 !! q = Some x → legal m q x.
Proof.
  intros Hs Hq. pose proof (p_legal t0 Hp q x Hq) as Hl. destruct q as [|n r]; [done|]. cbn [legal] in *. destruct (area n) eqn:Hn; try done.
  destruct Hl as [Hl _]. split_and!; [done| |].
  - intros [c Hc]%snapshot_listed; [|done..]. congruence.
  - intros p Hpm [[s ->] Hne]. apply snapshot_listed in Hpm as [c Hc]; [|done..]. destruct s as [|a s]; [by rewrite app_nil_r in Hne|].
    destruct x as [|c']; [done|].
    by pose proof (eq_trans (eq_sym Hc) (nothing_below_file t0 (n :: r) c' a s (p_wf t0 Hp) Hq ltac:(done))).
Qed.

Lemma snapshot_flat m p q : snapshot m → path_of p ∈ m.(append_only_files) → path_of q ∈ m.(append_only_files) → ¬ below p q.
Proof.
  intros Hs (n & r & c & ->%path_of_inj & Hn & Hc)%snapshot_files (n' & r' & c' & ->%path_of_inj & _ & Hc')%snapshot_files [Hpre Hne]; [|done..].
  apply below_cases in Hpre as [Hx|(a & s & Hx)]; [done|]. rewrite Hx, (nothing_below_file t0 _ c) in Hc'; [done|apply Hp|done..].
Qed.

Lemma snapshot_checked m p : snapshot m → p ∈ m.(append_only_files) → check_append_only p = Ok tt.
Proof.
  intros Hs (n & r & c & -> & Hn & _)%snapshot_files; [|done]. unfold check_append_only. rewrite validate_relative_ok by done. cbn [rbind path_of map].
  apply fail_if_ok, negb_false_iff, bool_decide_eq_true. by apply area_append.
Qed.

Lemma journaled_valid m u : snapshot m → journaled m u → valid m u.
Proof.
  intros Hs (Hw & Hout & Hpre & Hc & Hrb & Hm & Hcb & _ & Hr & Hsq). pose proof Hs as (files & Hl & Hmf). split; try done.
  - intros q x Hq. destruct (decide (area (hd [] q) = AJournal)) as [Hj|Hj].
    + destruct q as [|n r]; [done|]. cbn [hd] in Hj. cbn [legal]. by rewrite Hj.
    + rewrite Hout in Hq by done. by apply snapshot_legal.
  - by rewrite Hmf.
  - intros p. by apply snapshot_checked.
  - intros n Hn. apply snapshot_files in Hn as (n' & r & c & Heq%path_of_inj & Ha & Hx); [|done]. injection Heq as -> <-.
    apply (p_legal t0 Hp) in Hx. cbn in Hx. rewrite Ha in Hx. destruct Hx as [Hx _]. by specialize (Hx eq_refl).
  - intros p q. by apply snapshot_flat.
  - intros p Hx. rewrite Hmf in Hx. by apply elem_of_nil in Hx.
  - rewrite Hmf. unfold ratchet_backup. cbn [ratchet_primary_existed ratchet_existed fst snd]. rewrite <-app_assoc. setoid_rewrite Hr.
    change (t0 !! [RATCHET_DIRECTORY]) with (t0 !! ratchet). destruct (t0 !! ratchet) as [x|] eqn:E; [|done]. intros _.
    apply (p_legal t0 Hp) in E. destruct E as [E _]. split; [by rewrite E|]. intros y Hy%(p_legal t0 Hp). by apply Hy.
  - rewrite Hmf. unfold next_sequence_backup. cbn [next_sequence_primary_existed next_sequence_existed fst snd]. rewrite Hsq.
    change (t0 !! [NEXT_SEQUENCE_FILE]) with (t0 !! next_sequence). destruct (t0 !! next_sequence) as [x|] eqn:E; [|done]. intros _.
    destruct (sequence_node [] x E) as (_ & c & ->). by exists c.
  - by rewrite Hmf.
  - intros q x. by rewrite Hcb.
Qed.

Lemma journaled_outcome m u q : snapshot m → journaled m u → state_file q → outcome m u q = file_at t0 q.
Proof.
  intros Hs (Hw & Hout & _ & _ & _ & _ & _ & _ & Hr & Hsq). pose proof Hs as (files & Hl & Hmf). destruct q as [|n r]; [done|]. intros [Hj _].
  assert (u !! (n :: r) = t0 !! (n :: r)) as Hsame by by apply Hout. cbn [outcome]. destruct (area n) eqn:Hn; [done|..].
  - rewrite Hmf. unfold ratchet_backup. cbn [ratchet_primary_existed ratchet_existed]. apply area_ratchet in Hn as ->. rewrite <-app_assoc.
    destruct (t0 !! ratchet) as [x|] eqn:E; [apply file_at_same, Hr|]. unfold file_at. rewrite (nothing_below t0 ratchet); [done|apply Hp|done|done|by exists r].
  - rewrite Hmf. unfold next_sequence_backup. cbn [next_sequence_primary_existed next_sequence_existed]. apply area_sequence in Hn as ->.
    destruct (t0 !! (NEXT_SEQUENCE_FILE :: r)) as [x|] eqn:E.
    + destruct (sequence_node r x E) as (-> & c & ->). change (t0 !! next_sequence = Some (File c)) in E. rewrite E. cbn.
      apply file_at_same. apply (Hsq []).
    + unfold file_at at 2. rewrite E. case_bool_decide as Hx; [|by rewrite andb_false_r]. subst r.
      change (t0 !! next_sequence = None) in E. by rewrite E.
  - rewrite Hmf. by apply file_at_same.
  - rewrite (bool_decide_false (_ ∈ compacted_append_only_files m)) by (rewrite Hmf; apply not_elem_of_nil). case_bool_decide as Hin; [by apply file_at_same|].
    unfold file_at. destruct (t0 !! (n :: r)) as [[|c]|] eqn:E; [done| |done]. destruct Hin. apply snapshot_listed; [done..|by exists c].
  - by apply file_at_same.
Qed.

Lemma journaled_pending m u : snapshot m → journaled m u → pending (file_at t0) u.
Proof. intros Hs Hj. exists m. split; [by apply journaled_valid|]. intros q. by apply journaled_outcome. Qed.

(** [begin] leaves the journal of the state; a crash leaves no open journal, or
    this one. *)
Lemma wp_begin root :
  wp (recoverable (file_at t0)) (begin root) (fun _ u => ∃ m, snapshot m ∧ journaled m u) t0.
Proof.
  assert (∀ {A} (a : action StateError A) Q u, wp fresh a Q u → wp (recoverable (file_at t0)) a Q u) as Hup.
  { intros A a Q u. apply wp_mono; [done|]. intros u' Hu. right. by apply fresh_finished. }
  assert (∀ u, fresh u → recoverable (file_at t0) u) as Hrec by (intros u Hu; right; by apply fresh_finished).
  pose proof fresh_start as Hf. unfold begin. apply wp_bind. eapply wp_reads; [|by auto|].
  { instantiate (1 := false). destruct (t0 !! [RATCHET_DIRECTORY; b_str "account.pickle"]) as [x|] eqn:E; [|done].
    assert (unfenced x) as Hx by (apply (p_legal t0 Hp) in E; destruct E as [_ E]; by apply E).
    destruct x as [|c]; [done|]. rewrite bool_decide_false; [done|]. intros ->. by apply Hx. }
  apply wp_bind, wp_returns; [by auto|]. apply wp_bind, wp_path_exists; [by auto|].
  change (lookup_node t0 active) with (t0 !! active). rewrite (p_active t0 Hp). apply wp_bind, wp_returns; [by auto|].
  apply wp_bind. eapply wp_conseq; [apply Hup, wp_draft_start|]. cbv beta. intros _ t Hd.
  apply wp_bind. eapply wp_conseq; [by apply Hup, wp_prepare_snapshot|]. cbv beta. intros m t1 [Hd1 Hs].
  destruct (snapshot_json m Hs) as (encoded & Hj & Hj'). pose proof Hd1 as (Hf1 & _ & Ho & _). pose proof (draft_active _ _ t1 Hd1) as Ha.
  apply wp_bind. eapply (wp_conseq _ _ (fun _ u => u = <[active ++ [MANIFEST_FILE] := File encoded]> t1 ∧ fresh u)).
  { unfold write_manifest. apply wp_bind. rewrite Hj. apply wp_returns; [by auto|].
    apply Hup, (wp_replace_file Io fresh fresh_region); [done|apply fresh_grows|by right|intros n c (r & ->); by right|done|exact Ha|by rewrite Ho|].
    split; [done|]. apply fresh_grows; [done|by right|done|exact Ha|by rewrite Ho]. }
  cbv beta. intros _ u [-> Hfu]. apply wp_bind, wp_write_new; [|apply Hfu|by auto|..].
  - change (<[active ++ [MANIFEST_FILE] := File encoded]> t1 !! active = Some Dir). by rewrite lookup_insert_ne.
  - intros c _. left. apply (journaled_pending m); [done|]. by apply journaled_draft.
  - apply wp_returns; [left; apply (journaled_pending m); [done|]; by apply journaled_draft|]. exists m. split; [done|]. by apply journaled_draft.
Qed.
End begin.
