(* ===== verification/StateWorkspace.v ===== *)
(** The operations of an open transaction:
    [crates/kilogram-state/src/lib.rs], [impl StateTransaction].

    A command registers the append-only files it writes, removes runtime
    records through the journal ([compact_runtime_record]), and lets the files
    of the ratchet, of the sequence number or of the trust store be replaced by
    the records of the vault before it works on them
    ([prepare_ratchet_workspace] and its like); [staged_mutations] lists what
    it changed for the vault to record.  The transaction is passed through as a
    value; an operation that fails leaves it as it was.  A path of the manifest
    that does not stay below the state directory has no node in a [tree]; no
    operation writes one, and [staged_mutations] refuses it. *)

From stdpp Require Import base tactics list numbers strings gmap.
From Stdlib Require Import Strings.Byte.
From S2P Require Import Prelude FileTree StateTransaction.

(** * What a vault read returns *)

Record VaultPrimaryRecord := {
  record_kind : StateRecordKind;
  record_relative_path : bytes;
  record_content : bytes
}.

Record VaultMutableRead := {
  state_root : pathbuf;
  mirror_generation : u64;
  selected_kinds : list StateRecordKind;
  records : list VaultPrimaryRecord
}.

Record StagedStateMutation := {
  mutation_kind : StateRecordKind;
  mutation_relative_path : pathbuf;
  mutation_content : option bytes
}.

(** * Paths *)

(** [PathBuf::from] of a string, and its components. *)
Fixpoint split_path (s : bytes) (part : bytes) : list bytes :=
  match s with
  | [] => [part]
  | b :: s => if Byte.eqb b x2f then part :: split_path s [] else split_path s (part ++ [b])
  end.

Definition pathbuf_from (s : bytes) : pathbuf :=
  (match s with
   | b :: _ => if Byte.eqb b x2f then [RootDir]
               else if bool_decide (hd [] (split_path s []) = b_str ".") then [CurDir] else []
   | [] => []
   end) ++
  omap (fun part =>
      if bool_decide (part = []) || bool_decide (part = b_str ".") then None
      else if bool_decide (part = b_str "..") then Some ParentDir else Some (Normal part))
    (split_path s []).

(** [Vec::dedup]. *)
Fixpoint dedup (l : list pathbuf) : list pathbuf :=
  match l with
  | p :: (q :: _) as rest => if bool_decide (p = q) then dedup rest else p :: dedup rest
  | _ => l
  end.

Section workspace.
Context `{FileSystem} `{ManifestJson}.

Abbreviation act := (action StateError).

(** * Append-only files *)

Definition is_append_only_kind (k : StateRecordKind) : bool :=
  match k with Event | LocalProjection | HistoryRewrap | HistoryRecovery | Runtime => true | _ => false end.

Definition add_write (p : pathbuf) (tx : StateTransaction) : StateTransaction :=
  {| tx_root := tx.(tx_root); ratchet_primary_baseline := tx.(ratchet_primary_baseline);
     sequence_primary_prepared := tx.(sequence_primary_prepared);
     trust_primary_baseline := tx.(trust_primary_baseline);
     append_only_writes := {[ p ]} ∪ tx.(append_only_writes); append_only_removals := tx.(append_only_removals) |}.

Definition add_removal (p : pathbuf) (tx : StateTransaction) : StateTransaction :=
  {| tx_root := tx.(tx_root); ratchet_primary_baseline := tx.(ratchet_primary_baseline);
     sequence_primary_prepared := tx.(sequence_primary_prepared);
     trust_primary_baseline := tx.(trust_primary_baseline);
     append_only_writes := tx.(append_only_writes); append_only_removals := {[ p ]} ∪ tx.(append_only_removals) |}.

(** [StateTransaction::register_append_only_write]. *)
Definition register_append_only_write (tx : StateTransaction) (p : pathbuf) : act StateTransaction :=
  returns (validate_relative p) ;*
  returns (fail_if (negb (is_append_only_kind (state_record_kind_for_path p))) (AppendOnlyWriteKindNotAllowed p)) ;*
  returns (fail_if (bool_decide (p ∈ tx.(append_only_removals))) (AppendOnlyCompactionNotAllowed p)) ;*
  reject_relative_symlinks p ;*
  returns (Ok (add_write p tx)).

(** [StateTransaction::register_append_only_receipt_path]: the path is
    absolute, and canonical since there are no symbolic links. *)
Definition register_append_only_receipt_path (tx : StateTransaction) (p : pathbuf) : act StateTransaction :=
  returns (fail_if (negb (match p with RootDir :: _ => true | _ => false end)) (UnsafeRelativePath p)) ;*
  if bool_decide (tx.(tx_root) = take (length tx.(tx_root)) p) then
    let relative := drop (length tx.(tx_root)) p in
    reject_symlink (names_of relative) ;*
    register_append_only_write tx relative
  else returns (Err (UnsafeRelativePath p)).

Definition with_compacted (l : list pathbuf) (m : TransactionManifest) : TransactionManifest :=
  {| version := m.(version); ratchet_existed := m.(ratchet_existed); next_sequence_existed := m.(next_sequence_existed);
     append_only_files := m.(append_only_files); compacted_append_only_files := l;
     ratchet_primary_existed := m.(ratchet_primary_existed);
     next_sequence_primary_existed := m.(next_sequence_primary_existed);
     trust_primary_prepared := m.(trust_primary_prepared) |}.

(** [StateTransaction::compact_runtime_record]. *)
Definition compact_runtime_record (tx : StateTransaction) (p : pathbuf) : act StateTransaction :=
  returns (validate_relative p) ;*
  returns (fail_if (bool_decide (state_record_kind_for_path p ≠ Runtime)) (AppendOnlyCompactionNotAllowed p)) ;*
  let* m := read_manifest in
  returns (fail_if (negb (bool_decide (p ∈ m.(append_only_files)))) (AppendOnlyCompactionNotAllowed p)) ;*
  if bool_decide (p ∈ tx.(append_only_removals)) then returns (Ok tx) else
  let source := names_of p in
  reject_relative_symlinks p ;*
  let* file := is_file Io source in
  returns (fail_if (negb file) (AppendOnlyCompactionNotAllowed p)) ;*
  copy_file source (compaction_backup ++ source) ;*
  write_manifest (with_compacted (dedup (sort_by_key id (m.(compacted_append_only_files) ++ [p]))) m) ;*
  remove_file_if_present source ;*
  returns (Ok (add_removal p tx)).

(** * Workspaces *)

(** The records of a vault read, by their paths. *)
Fixpoint workspace_baseline (kind : StateRecordKind) (mismatch : StateError) (l : list VaultPrimaryRecord)
    (baseline : gmap path bytes) : result StateError (gmap path bytes) :=
  match l with
  | [] => Ok baseline
  | r :: l =>
      fail_if (bool_decide (r.(record_kind) ≠ kind)) mismatch ;?
      let p := pathbuf_from r.(record_relative_path) in
      validate_relative p ;?
      fail_if (bool_decide (state_record_kind_for_path p ≠ kind)) mismatch ;?
      fail_if (bool_decide (is_Some (baseline !! names_of p))) (VaultDirectWriteDuplicatePath p) ;?
      workspace_baseline kind mismatch l (<[names_of p := r.(record_content)]> baseline)
  end.

(** The checks every workspace makes of the read it is given. *)
Definition check_read (tx : StateTransaction) (read : VaultMutableRead) (prepared : bool) (kind : StateRecordKind)
    (already root_mismatch kind_mismatch : StateError) : result StateError unit :=
  fail_if prepared already ;?
  fail_if (bool_decide (read.(state_root) ≠ tx.(tx_root))) root_mismatch ;?
  fail_if (negb (length read.(selected_kinds) =? 1) || negb (bool_decide (kind ∈ read.(selected_kinds)))) kind_mismatch.

Definition with_ratchet_primary (existed : bool) (m : TransactionManifest) : TransactionManifest :=
  {| version := m.(version); ratchet_existed := m.(ratchet_existed); next_sequence_existed := m.(next_sequence_existed);
     append_only_files := m.(append_only_files); compacted_append_only_files := m.(compacted_append_only_files);
     ratchet_primary_existed := Some existed; next_sequence_primary_existed := m.(next_sequence_primary_existed);
     trust_primary_prepared := m.(trust_primary_prepared) |}.

Definition with_sequence_primary (existed : bool) (m : TransactionManifest) : TransactionManifest :=
  {| version := m.(version); ratchet_existed := m.(ratchet_existed); next_sequence_existed := m.(next_sequence_existed);
     append_only_files := m.(append_only_files); compacted_append_only_files := m.(compacted_append_only_files);
     ratchet_primary_existed := m.(ratchet_primary_existed); next_sequence_primary_existed := Some existed;
     trust_primary_prepared := m.(trust_primary_prepared) |}.

Definition with_trust_primary (m : TransactionManifest) : TransactionManifest :=
  {| version := m.(version); ratchet_existed := m.(ratchet_existed); next_sequence_existed := m.(next_sequence_existed);
     append_only_files := m.(append_only_files); compacted_append_only_files := m.(compacted_append_only_files);
     ratchet_primary_existed := m.(ratchet_primary_existed);
     next_sequence_primary_existed := m.(next_sequence_primary_existed); trust_primary_prepared := true |}.

(** [StateTransaction::prepare_ratchet_workspace]; a record of the ratchet
    directory itself has no place in the backup. *)
Definition prepare_ratchet_workspace (tx : StateTransaction) (read : VaultMutableRead) : act StateTransaction :=
  returns (check_read tx read (bool_decide (is_Some tx.(ratchet_primary_baseline))) Ratchet
             RatchetWorkspaceAlreadyPrepared RatchetWorkspaceRootMismatch RatchetWorkspaceKindMismatch) ;*
  let* baseline := returns (workspace_baseline Ratchet RatchetWorkspaceKindMismatch read.(records) ∅) in
  let* m := read_manifest in
  let b := primary_backup ++ [RATCHET_DIRECTORY] in
  remove_tree_if_present b ;*
  for_each (fun entry =>
      match drop 1 entry.1 with
      | [] => create_dir_all Io primary_backup ;* returns (Err (Io b))
      | relative => write_staged_file (b ++ relative) entry.2
      end) (btree_entries baseline) ;*
  write_manifest (with_ratchet_primary (negb (bool_decide (baseline = ∅))) m) ;*
  remove_tree_if_present ratchet ;*
  for_each (fun entry => write_staged_file entry.1 entry.2) (btree_entries baseline) ;*
  returns (Ok {| tx_root := tx.(tx_root); ratchet_primary_baseline := Some baseline;
                 sequence_primary_prepared := tx.(sequence_primary_prepared);
                 trust_primary_baseline := tx.(trust_primary_baseline);
                 append_only_writes := tx.(append_only_writes);
                 append_only_removals := tx.(append_only_removals) |}).

Definition sequence_content (l : list VaultPrimaryRecord) : result StateError (option bytes) :=
  match l with
  | [] => Ok None
  | [r] =>
      if bool_decide (r.(record_kind) = Sequence) && bool_decide (r.(record_relative_path) = NEXT_SEQUENCE_FILE)
      then Ok (Some r.(record_content)) else Err SequenceWorkspaceKindMismatch
  | _ => Err SequenceWorkspaceKindMismatch
  end.

(** [StateTransaction::prepare_sequence_workspace]. *)
Definition prepare_sequence_workspace (tx : StateTransaction) (read : VaultMutableRead) : act StateTransaction :=
  returns (check_read tx read tx.(sequence_primary_prepared) Sequence
             SequenceWorkspaceAlreadyPrepared SequenceWorkspaceRootMismatch SequenceWorkspaceKindMismatch) ;*
  let* content := returns (sequence_content read.(records)) in
  let* m := read_manifest in
  let b := primary_backup ++ [NEXT_SEQUENCE_FILE] in
  remove_file_if_present b ;*
  match content with Some c => write_staged_file b c | None => returns (Ok tt) end ;*
  write_manifest (with_sequence_primary (bool_decide (is_Some content)) m) ;*
  remove_file_if_present next_sequence ;*
  match content with Some c => write_staged_file next_sequence c | None => returns (Ok tt) end ;*
  returns (Ok {| tx_root := tx.(tx_root); ratchet_primary_baseline := tx.(ratchet_primary_baseline);
                 sequence_primary_prepared := true; trust_primary_baseline := tx.(trust_primary_baseline);
                 append_only_writes := tx.(append_only_writes);
                 append_only_removals := tx.(append_only_removals) |}).

(** [StateTransaction::prepare_trust_workspace_from_baseline]. *)
Definition prepare_trust_workspace_from_baseline (tx : StateTransaction) (baseline : gmap path bytes) : act StateTransaction :=
  remove_tree_if_present trust_backup ;*
  create_dir_all Io trust_backup ;*
  for_each (fun entry => write_staged_file (trust_backup ++ entry.1) entry.2) (btree_entries baseline) ;*
  let* m := read_manifest in
  write_manifest (with_trust_primary m) ;*
  clear_trust_contents ;*
  for_each (fun entry => write_staged_file entry.1 entry.2) (btree_entries baseline) ;*
  returns (Ok {| tx_root := tx.(tx_root); ratchet_primary_baseline := tx.(ratchet_primary_baseline);
                 sequence_primary_prepared := tx.(sequence_primary_prepared);
                 trust_primary_baseline := Some baseline;
                 append_only_writes := tx.(append_only_writes);
                 append_only_removals := tx.(append_only_removals) |}).

(** [StateTransaction::prepare_trust_workspace]. *)
Definition prepare_trust_workspace (tx : StateTransaction) (read : VaultMutableRead) : act StateTransaction :=
  returns (check_read tx read (bool_decide (is_Some tx.(trust_primary_baseline))) Trust
             TrustWorkspaceAlreadyPrepared TrustWorkspaceRootMismatch TrustWorkspaceKindMismatch) ;*
  let* baseline := returns (workspace_baseline Trust TrustWorkspaceKindMismatch read.(records) ∅) in
  prepare_trust_workspace_from_baseline tx baseline.

Definition read_optional_file (p : path) : act (option bytes) :=
  reads (fun t => match lookup_node t p with
                  | Some (File c) => Ok (Some c) | Some Dir => Err (Io p) | None => Ok None end).

Definition collect_trust_contents : act (gmap path bytes) :=
  let* files := collect (fun n =>
      let* content := read_optional_file [n] in
      match content with
      | Some c => reject_symlink [n] ;* returns (Ok [([n], c)])
      | None => returns (Ok [])
      end) TRUST_FILES in
  let* trees := collect (fun n => fueled (fun fuel => collect_tree_contents fuel [n] [])) TRUST_DIRECTORIES in
  returns (Ok (list_to_map (reverse (files ++ trees)))).

(** [StateTransaction::prepare_legacy_trust_workspace]. *)
Definition prepare_legacy_trust_workspace (tx : StateTransaction) : act StateTransaction :=
  returns (fail_if (bool_decide (is_Some tx.(trust_primary_baseline))) TrustWorkspaceAlreadyPrepared) ;*
  let* baseline := collect_trust_contents in
  prepare_trust_workspace_from_baseline tx baseline.

(** * Staged mutations *)

Abbreviation mutations := (gmap pathbuf StagedStateMutation).

Definition insert_staged_mutation (ms : mutations) (x : StagedStateMutation) : result StateError mutations :=
  fail_if (bool_decide (is_Some (ms !! x.(mutation_relative_path))))
    (VaultDirectWriteDuplicatePath x.(mutation_relative_path)) ;?
  Ok (<[x.(mutation_relative_path) := x]> ms).

Fixpoint insert_all (ms : mutations) (l : list StagedStateMutation) : result StateError mutations :=
  match l with
  | [] => Ok ms
  | x :: l => let? ms := insert_staged_mutation ms x in insert_all ms l
  end.

(** The paths of either map whose contents differ, each with what is there
    now. *)
Definition tree_mutations (kind : StateRecordKind) (prefix : path) (current baseline : gmap path bytes)
    : list StagedStateMutation :=
  map (fun q => {| mutation_kind := kind; mutation_relative_path := path_of (prefix ++ q); mutation_content := current !! q |})
    (filter (fun q => current !! q ≠ baseline !! q) (sort_by_key id (elements (dom current ∪ dom baseline)))).

Definition collect_mutable_tree_mutations (current_directory backup_directory : path) (backup_existed : bool)
    (kind : StateRecordKind) (ms : mutations) : act mutations :=
  let* current := tree_contents current_directory current_directory in
  let* baseline := if backup_existed then tree_contents backup_directory backup_directory else returns (Ok ∅) in
  returns (insert_all ms (tree_mutations kind current_directory current baseline)).

Definition collect_primary_tree_mutations (current_directory : path) (baseline : gmap path bytes)
    (kind : StateRecordKind) (ms : mutations) : act mutations :=
  let* current := tree_contents current_directory [] in
  returns (insert_all ms (tree_mutations kind [] current baseline)).

Definition collect_single_file_mutation (current_path backup_path : path) (backup_existed : bool)
    (kind : StateRecordKind) (ms : mutations) : act mutations :=
  let* current := read_optional_file current_path in
  let* baseline := if backup_existed then let* c := read_file Io backup_path in returns (Ok (Some c)) else returns (Ok None) in
  if bool_decide (current = baseline) then returns (Ok ms)
  else returns (insert_staged_mutation ms
         {| mutation_kind := kind; mutation_relative_path := path_of current_path; mutation_content := current |}).

(** A [for] loop that threads the mutations. *)
Fixpoint fold_each {A : Type} (f : mutations → A → act mutations) (l : list A) (ms : mutations) : act mutations :=
  match l with
  | [] => returns (Ok ms)
  | a :: l => let* ms := f ms a in fold_each f l ms
  end.

Definition staged_mutations (tx : StateTransaction) : act (list StagedStateMutation) :=
  let* m := read_manifest in
  let* ms := match tx.(ratchet_primary_baseline) with
             | Some baseline => collect_primary_tree_mutations ratchet baseline Ratchet ∅
             | None => collect_mutable_tree_mutations ratchet (backup ++ [RATCHET_DIRECTORY]) m.(ratchet_existed) Ratchet ∅
             end in
  let* ms := collect_single_file_mutation next_sequence (backup ++ [NEXT_SEQUENCE_FILE]) m.(next_sequence_existed) Sequence ms in
  let* ms := match tx.(trust_primary_baseline) with
             | Some baseline =>
                 let* current := collect_trust_contents in
                 returns (insert_all ms (tree_mutations Trust [] current baseline))
             | None => returns (Ok ms)
             end in
  let compacted : gset pathbuf := list_to_set m.(compacted_append_only_files) in
  returns (fail_if (negb (bool_decide (compacted = tx.(append_only_removals))))
             (AppendOnlyCompactionNotAllowed [Normal (b_str "transaction compaction manifest mismatch")])) ;*
  let* ms := fold_each (fun ms p =>
      returns (validate_relative p) ;*
      let* present := path_exists (names_of p) in
      if bool_decide (p ∈ compacted) then
        returns (fail_if present (AppendOnlyCompactionNotAllowed p)) ;*
        returns (insert_staged_mutation ms
          {| mutation_kind := Runtime; mutation_relative_path := p; mutation_content := None |})
      else
        returns (fail_if (negb present) (AppendOnlyRecordRemoved p)) ;*
        reject_relative_symlinks p ;*
        let* file := is_file Io (names_of p) in
        returns (fail_if (negb file) (AppendOnlyRecordTypeChanged p)) ;*
        returns (Ok ms))
    (btree_keys (list_to_set m.(append_only_files))) ms in
  let* ms := fold_each (fun ms p =>
      reject_relative_symlinks p ;*
      let* file := is_file Io (names_of p) in
      returns (fail_if (negb file) (AppendOnlyRecordTypeChanged p)) ;*
      let* content := read_file Io (names_of p) in
      returns (insert_staged_mutation ms
        {| mutation_kind := state_record_kind_for_path p; mutation_relative_path := p; mutation_content := Some content |}))
    (btree_keys tx.(append_only_writes)) ms in
  returns (Ok (btree_values ms)).
End workspace.
