(* ===== verification/StateCompaction.v ===== *)
(** Removing a runtime record inside a transaction: the record is in the
    journal, and the manifest says so, before it goes, so that at every crash a
    rollback brings it back. *)

From stdpp Require Import base tactics list numbers strings gmap.
From Stdlib Require Import Strings.Byte.
From S2P Require Import Prelude FileTree FileTreeFacts StateTransaction StateTransactionFacts StateJournal StateRecovery StateAtomicity StateBegin StateWorkspace.

Lemma elem_of_dedup (l : list pathbuf) p : p ∈ dedup l ↔ p ∈ l.
Proof.
  induction l as [|a [|b l] IH]; [done..|]. change (dedup (a :: b :: l)) with (if bool_decide (a = b) then dedup (b :: l) else a :: dedup (b :: l)).
  case_bool_decide as Hab; rewrite ?elem_of_cons, IH, ?elem_of_cons; [subst|]; tauto.
Qed.

Section compaction.
Context `{FileSystemLaws} `{HJ : ManifestJson} `{!ManifestJsonLaws}.
Context (g : contents) (m : TransactionManifest) (t : tree) (Hv : valid m t) (Hg : ∀ q, state_file q → outcome m t q = g q).
Implicit Types (u : tree).

Abbreviation cb := compaction_backup.

(** [u] differs from [t] only in the backups of files that are not listed as
    compacted. *)
Definition backing_up u : Prop :=
  wf u ∧ (∀ s, ¬ cb `prefix_of` s → u !! s = t !! s) ∧ (∀ s x, u !! (cb ++ s) = Some x → shadow m s x) ∧
  (∀ p, p ∈ m.(compacted_append_only_files) → u !! (cb ++ names_of p) = t !! (cb ++ names_of p)).

Lemma not_in_cb n s : area n ≠ AJournal → ¬ cb `prefix_of` n :: s.
Proof. intros Hn Hp%prefix_cons_inv_1. by subst. Qed.

Lemma not_in_cb_active n s : n ≠ APPEND_ONLY_COMPACTION_BACKUP_DIRECTORY → ¬ cb `prefix_of` active ++ n :: s.
Proof. intros Hn Hp. do 2 apply prefix_cons_inv_2 in Hp. by apply prefix_cons_inv_1 in Hp. Qed.

Lemma ratchet_backup_other : ∃ k, k ∈ [BACKUP_DIRECTORY; PRIMARY_BACKUP_DIRECTORY] ∧ (ratchet_backup m).2 = active ++ k :: [RATCHET_DIRECTORY].
Proof. unfold ratchet_backup. destruct (ratchet_primary_existed m); eexists; (split; [|reflexivity]); set_solver. Qed.

Lemma next_sequence_backup_other :
  ∃ k, k ∈ [BACKUP_DIRECTORY; PRIMARY_BACKUP_DIRECTORY] ∧ (next_sequence_backup m).2 = active ++ k :: [NEXT_SEQUENCE_FILE].
Proof. unfold next_sequence_backup. destruct (next_sequence_primary_existed m); eexists; (split; [|reflexivity]); set_solver. Qed.

(** What the validity and the outcome of a journal depend on, apart from its
    manifest and the compacted files. *)
Definition same_journal u : Prop :=
  wf u ∧ (∀ n s, area n ≠ AJournal → u !! (n :: s) = t !! (n :: s)) ∧
  (∀ n, n ∈ [PREPARED_MARKER; COMMITTED_MARKER; ROLLED_BACK_MARKER] → u !! marker n = t !! marker n) ∧
  (∀ n s, n ∈ [BACKUP_DIRECTORY; PRIMARY_BACKUP_DIRECTORY] → u !! (active ++ n :: s) = t !! (active ++ n :: s)) ∧
  (∀ s x, u !! (cb ++ s) = Some x → shadow m s x).

Lemma valid_same l u :
  same_journal u →
  (∃ encoded, u !! (active ++ [MANIFEST_FILE]) = Some (File encoded) ∧ from_json encoded = Some (with_compacted l m)) →
  (∀ p, p ∈ l → state_record_kind_for_path p = Runtime ∧ p ∈ m.(append_only_files) ∧ ∃ c, u !! (cb ++ names_of p) = Some (File c)) →
  valid (with_compacted l m) u.
Proof.
  intros (Hw & Ho & Hk & Hb & Hs) Hm Hc. destruct Hv. split; try done.
  - intros q x Hq. destruct q as [|n s]; [done|]. change (legal m (n :: s) x).
    destruct (decide (area n = AJournal)) as [Hj|Hj]; [cbn; by rewrite Hj|]. apply v_legal. by rewrite <-Ho.
  - rewrite Hk; [done|]. set_solver.
  - rewrite Hk; [done|]. set_solver.
  - rewrite Hk; [done|]. set_solver.
  - change (ratchet_backup (with_compacted l m)) with (ratchet_backup m). destruct ratchet_backup_other as (k & Hin & Heq). rewrite Heq in *.
    rewrite <-app_assoc in *. cbn [app] in *. setoid_rewrite Hb; done.
  - change (next_sequence_backup (with_compacted l m)) with (next_sequence_backup m). destruct next_sequence_backup_other as (k & Hin & Heq). rewrite Heq in *.
    setoid_rewrite Hb; done.
  - change (trust_primary_prepared (with_compacted l m)) with (trust_primary_prepared m).
    assert (∀ q, u !! (trust_backup ++ q) = t !! (trust_backup ++ q)) as Ht by (intros q; apply (Hb PRIMARY_BACKUP_DIRECTORY); set_solver).
    assert (u !! trust_backup = t !! trust_backup) as Ht' by (specialize (Ht []); by rewrite app_nil_r in Ht).
    rewrite Ht'. setoid_rewrite Ht. done.
Qed.

Lemma outcome_same l u q :
  same_journal u → state_file q →
  (∀ p, p ∈ m.(compacted_append_only_files) → p ∈ l ∧ u !! (cb ++ names_of p) = t !! (cb ++ names_of p)) →
  (∀ p, p ∈ l → p ∉ m.(compacted_append_only_files) → p ∈ m.(append_only_files) ∧ u !! (cb ++ names_of p) = t !! names_of p) →
  outcome (with_compacted l m) u q = g q.
Proof.
  intros (Hw & Ho & Hk & Hb & Hs) Hq Hold Hnew. rewrite <-Hg by done. destruct q as [|n r]; [done|]. destruct Hq as [Hj _]. cbn [outcome].
  change (ratchet_backup (with_compacted l m)) with (ratchet_backup m). change (next_sequence_backup (with_compacted l m)) with (next_sequence_backup m).
  change (trust_primary_prepared (with_compacted l m)) with (trust_primary_prepared m).
  change (append_only_files (with_compacted l m)) with (append_only_files m).
  change (compacted_append_only_files (with_compacted l m)) with l.
  destruct (area n) eqn:Hn; [done|..].
  - destruct ratchet_backup_other as (k & Hin & Heq). destruct (ratchet_backup m) as [[] b]; [|done]. cbn in Heq. subst b.
    apply file_at_same, (Hb k (RATCHET_DIRECTORY :: r) Hin).
  - destruct next_sequence_backup_other as (k & Hin & Heq). destruct (next_sequence_backup m) as [[] b]; [|done]. cbn in Heq. subst b.
    cbn [andb]. case_bool_decide; [|done]. apply file_at_same, (Hb k [NEXT_SEQUENCE_FILE] Hin).
  - destruct (trust_primary_prepared m); apply file_at_same; [apply (Hb PRIMARY_BACKUP_DIRECTORY); set_solver|apply Ho; by rewrite Hn].
  - specialize (Hold (path_of (n :: r))). specialize (Hnew (path_of (n :: r))). rewrite names_path_of in Hold, Hnew.
    assert (u !! (n :: r) = t !! (n :: r)) as Hsame by (apply Ho; by rewrite Hn).
    destruct (decide (path_of (n :: r) ∈ l)) as [Hl|Hl]; destruct (decide (path_of (n :: r) ∈ compacted_append_only_files m)) as [Hm|Hm].
    + rewrite !bool_decide_true by done. by apply file_at_same, Hold.
    + destruct (Hnew Hl Hm) as [Hin Heq]. rewrite bool_decide_true, bool_decide_false, bool_decide_true by done. by apply file_at_same.
    + by destruct (Hold Hm).
    + rewrite bool_decide_false, (bool_decide_false (_ ∈ compacted_append_only_files m)) by done. case_bool_decide; [|done]. by apply file_at_same.
  - apply file_at_same, Ho. by rewrite Hn.
Qed.

Lemma with_compacted_same : with_compacted m.(compacted_append_only_files) m = m.
Proof. by destruct m. Qed.

Lemma valid_pending u :
  same_journal u → (∃ encoded, u !! (active ++ [MANIFEST_FILE]) = Some (File encoded) ∧ from_json encoded = Some m) →
  (∀ p, p ∈ m.(compacted_append_only_files) → u !! (cb ++ names_of p) = t !! (cb ++ names_of p)) → pending g u.
Proof.
  intros Hs Hm Hc. exists m. split.
  - rewrite <-with_compacted_same. apply valid_same; [done|by rewrite with_compacted_same|]. intros p Hp. rewrite Hc by done. by apply (v_compacted m t Hv).
  - intros q Hq. rewrite <-with_compacted_same. apply outcome_same; [done..|by auto|done].
Qed.

Lemma backing_up_same u : backing_up u → same_journal u.
Proof.
  intros (Hw & Ho & Hs & _). split_and!; [done| | | |done].
  - intros n s Hn. by apply Ho, not_in_cb.
  - intros n Hn. apply Ho, not_in_cb_active. intros ->. revert Hn. by apply (bool_decide_unpack _).
  - intros n s Hn. apply Ho, not_in_cb_active. intros ->. revert Hn. by apply (bool_decide_unpack _).
Qed.

Lemma backing_up_pending u : backing_up u → pending g u.
Proof.
  intros Hb. pose proof (backing_up_same u Hb) as Hs. destruct Hb as (_ & Ho & _ & Hc). apply valid_pending; [done| |done].
  rewrite Ho by by apply not_in_cb_active. apply (v_manifest m t Hv).
Qed.

Lemma backing_up_start : backing_up t.
Proof. split_and!; [apply Hv|done|apply (v_shadow m t Hv)|done]. Qed.

Lemma above_active s : s `prefix_of` active → s ≠ [] → t !! s = Some Dir.
Proof.
  intros Hs Hne. pose proof (active_dir t m Hv) as Ha. apply below_cases in Hs as [<-|(n & r & Hr)]; [done|].
  rewrite <-lookup_node_ne by done. apply (wf_prefix t s (n :: r) (v_wf m t Hv)); [|done]. rewrite <-Hr, lookup_node_ne by done. by rewrite Ha.
Qed.

Definition backup_region (s : path) (x : node) : Prop :=
  (s `prefix_of` active ∧ x = Dir) ∨ ∃ s', s = cb ++ s' ∧ shadow m s' x ∧ path_of s' ∉ m.(compacted_append_only_files).

Lemma compacted_names p : p ∈ m.(compacted_append_only_files) → path_of (names_of p) = p.
Proof.
  intros Hp. destruct (v_compacted m t Hv p Hp) as (_ & Hl & _). destruct (append_path m t Hv p Hl) as (n & a & r & -> & _). by rewrite names_path_of.
Qed.

Lemma backing_up_grows : grows backing_up backup_region.
Proof.
  intros u s x (Hw & Ho & Hs & Hc) [[Hpre ->]|(s' & -> & Hx & Hn)] Hne Hd Hdir.
  - rewrite insert_id; [by split_and!|]. rewrite Ho; [by apply above_active|]. intros Hx%prefix_length. apply prefix_length in Hpre. cbn in *. lia.
  - split_and!; [by apply wf_insert| | |].
    + intros r Hr. rewrite lookup_insert_ne; [by apply Ho|]. intros <-. apply Hr. by apply prefix_app_r.
    + intros r y [[Heq <-]|[_ Hy]]%lookup_insert_Some; [by apply app_inv_head in Heq as <-|by apply Hs].
    + intros p Hp. rewrite lookup_insert_ne; [by apply Hc|]. intros Heq%app_inv_head. subst. apply Hn. by rewrite compacted_names.
Qed.

(** ** One record *)

Context (n a : name) (r : path) (c : bytes) (tx : StateTransaction).
Abbreviation q := (n :: a :: r).
Abbreviation p := (path_of q).
Context (Hn : area n = AAppend) (Hk : state_record_kind_for_path p = Runtime) (Hin : p ∈ m.(append_only_files)).
Context (Hnot : p ∉ m.(compacted_append_only_files)) (Hc : t !! q = Some (File c)) (Htx : p ∉ tx.(append_only_removals)).
Context (Hjson : ∀ p' k, p' ∈ m.(append_only_files) → Normal k ∈ p' → json_name k).

Definition compacted : TransactionManifest :=
  with_compacted (dedup (sort_by_key id (m.(compacted_append_only_files) ++ [p]))) m.

Lemma elem_of_compacted p' : p' ∈ compacted.(compacted_append_only_files) ↔ p' ∈ m.(compacted_append_only_files) ∨ p' = p.
Proof. cbn [compacted with_compacted compacted_append_only_files]. by rewrite elem_of_dedup, sort_by_key_perm, elem_of_app, list_elem_of_singleton. Qed.

Lemma compacted_in_append p' : p' ∈ m.(compacted_append_only_files) → p' ∈ m.(append_only_files).
Proof. intros Hp'. by apply (v_compacted m t Hv) in Hp' as (_ & ? & _). Qed.

Lemma above_shadow s : s `prefix_of` parent q → shadow m s Dir ∧ path_of s ∉ m.(compacted_append_only_files).
Proof.
  intros Hs. apply (parent_below n a r) in Hs. assert (path_of s ∉ m.(append_only_files)) as Hx by (intros Hx; by apply (v_flat m t Hv s q)).
  split; [by split|]. intros Hy. by apply Hx, compacted_in_append.
Qed.

Lemma prefix_cb s s' : s `prefix_of` cb ++ s' → s `prefix_of` active ∨ ∃ s'', s = cb ++ s'' ∧ s'' `prefix_of` s'.
Proof.
  intros Hs. assert (cb `prefix_of` cb ++ s') as Hcb by by apply prefix_app_r.
  destruct (prefix_weak_total s cb _ Hs Hcb) as [[Hx| ->]%(prefix_snoc_cases s active)|[s'' ->]]; [by left|right..].
  - exists []. split; [done|apply prefix_nil].
  - exists s''. split; [done|]. by apply prefix_app_inv in Hs.
Qed.

Lemma wp_backup_record :
  wp (pending g) (copy_file q (cb ++ q)) (fun _ u => backing_up u ∧ u !! (cb ++ q) = Some (File c)) t.
Proof.
  assert (parent (cb ++ q) = cb ++ parent q) as Hpar.
  { destruct (snoc_cases q) as [|(s & k & ->)]; [done|]. by rewrite app_assoc, !parent_snoc. }
  apply (wp_mono backing_up _ _ (fun _ u => backing_up u ∧ u !! (cb ++ q) = Some (File c))); [done|apply backing_up_pending|].
  apply (wp_copy_file backing_up backup_region _ _ c); [apply Hv|apply backing_up_start|apply backing_up_grows|done|done|done|..].
  - rewrite Hpar. intros s [Hs|(s' & -> & Hs)]%prefix_cb; [by left|right]. exists s'. split; [done|by apply above_shadow].
  - intros c' _. right. exists q. split; [done|]. split; [|done]. split; [done|]. intros p' Hp' Hb. by destruct (v_flat m t Hv q p' Hin Hp').
  - rewrite Hpar. intros s c' [Hs|(s' & -> & Hs)]%prefix_cb Hx.
    + destruct (decide (s = [])) as [->|Hne]; [by rewrite (proj1 (v_wf m t Hv)) in Hx|]. by rewrite above_active in Hx.
    + apply (v_shadow m t Hv) in Hx as [_ Hx]. by specialize (Hx q Hin (parent_below n a r s' Hs)).
  - intros Hd. apply (v_shadow m t Hv) in Hd as [Hd _]. by apply Hd in Hin.
  - intros u _ Hu Hcp. split; [done|]. by rewrite Hcp, decide_True.
Qed.

Lemma compacted_valid u encoded :
  backing_up u → u !! (cb ++ q) = Some (File c) → from_json encoded = Some compacted →
  let v := <[active ++ [MANIFEST_FILE] := File encoded]> u in
  valid compacted v ∧ ∀ s, state_file s → outcome compacted v s = g s.
Proof.
  intros Hb Hq He v. pose proof (backing_up_same u Hb) as (Hw & Ho & Hmk & Hbk & Hsh). pose proof Hb as (_ & Hout & _ & Hold).
  assert (lookup_node u active = Some Dir) as Ha by (change (u !! active = Some Dir); rewrite Hout by (intros Hx%prefix_length; cbn in Hx; lia); by apply (active_dir t m)).
  assert (∀ s, v !! (cb ++ s) = u !! (cb ++ s)) as Hcb by (intros s; unfold v; by rewrite lookup_insert_ne).
  assert (same_journal v) as Hsame.
  { unfold v. split_and!.
    - apply wf_insert; [done|done|exact Ha|]. rewrite Hout by by apply not_in_cb_active. destruct (v_manifest m t Hv) as (e & -> & _). done.
    - intros k s Hks. rewrite lookup_insert_ne; [by apply Ho|]. by intros [= <-].
    - intros k Hks. rewrite lookup_insert_ne; [by apply Hmk|]. intros [= <-]. revert Hks. by apply (bool_decide_unpack _).
    - intros k s Hks. rewrite lookup_insert_ne; [by apply Hbk|]. intros [= <- <-]. revert Hks. by apply (bool_decide_unpack _).
    - intros s x. fold v. rewrite Hcb. apply Hsh. }
  split.
  - apply valid_same; [done|exists encoded; unfold v; by rewrite lookup_insert_eq|]. intros p' [Hp'| ->]%elem_of_compacted.
    + rewrite Hcb, Hold by done. by apply (v_compacted m t Hv).
    + rewrite names_path_of, Hcb. split_and!; [done..|by exists c].
  - intros s Hs. apply outcome_same; [done|done| |].
    + intros p' Hp'. split; [by apply elem_of_compacted; left|]. by rewrite Hcb, Hold.
    + intros p' [Hp'| ->]%elem_of_compacted Hnp; [done|]. split; [done|]. by rewrite names_path_of, Hcb, Hq, Hc.
Qed.

(** A temporary file beside the manifest. *)
Lemma backing_up_temporary u k c' :
  backing_up u → is_temporary k → u !! (active ++ [k]) = None → pending g (<[active ++ [k] := File c']> u).
Proof.
  intros Hb Hkt Hnone. pose proof (backing_up_same u Hb) as (Hw & Ho & Hmk & Hbk & Hsh). pose proof Hb as (_ & Hout & _ & Hold).
  assert (lookup_node u active = Some Dir) as Ha by (change (u !! active = Some Dir); rewrite Hout by (intros Hx%prefix_length; cbn in Hx; lia); by apply (active_dir t m)).
  assert (∀ k' s, ¬ is_temporary k' → <[active ++ [k] := File c']> u !! (active ++ k' :: s) = u !! (active ++ k' :: s)) as Hother.
  { intros k' s Hk'. rewrite lookup_insert_ne; [done|]. intros Heq%app_inv_head. injection Heq as <- _. done. }
  assert (∀ l, bool_decide (b_str ".tmp" `prefix_of` l) = false → ¬ is_temporary l) as Hdec by (intros l; apply bool_decide_eq_false_1).
  apply valid_pending.
  - split_and!.
    + apply wf_insert; [done|by destruct active|by rewrite parent_snoc|by rewrite Hnone].
    + intros k' s Hks. rewrite lookup_insert_ne; [by apply Ho|]. by intros [= <-].
    + intros k' Hks. rewrite <-Hmk by done. apply Hother. apply Hdec.
      rewrite !elem_of_cons, elem_of_nil in Hks. by destruct Hks as [->|[->|[->|[]]]].
    + intros k' s Hks. rewrite <-Hbk by done. apply Hother, Hdec. rewrite !elem_of_cons, elem_of_nil in Hks. by destruct Hks as [->|[->|[]]].
    + intros s x Hx. apply Hsh. rewrite <-Hx. symmetry. by apply (Hother APPEND_ONLY_COMPACTION_BACKUP_DIRECTORY s), Hdec.
  - rewrite Hother by by apply Hdec. rewrite Hout by by apply not_in_cb_active. apply (v_manifest m t Hv).
  - intros p' Hp'. rewrite <-Hold by done. by apply (Hother APPEND_ONLY_COMPACTION_BACKUP_DIRECTORY (names_of p')), Hdec.
Qed.

Lemma compacted_json : ∃ b, to_json compacted = Some b ∧ from_json b = Some compacted.
Proof.
  assert (is_Some (to_json compacted)) as [b Hb]; [|exists b; split; [done|by apply from_to_json]].
  apply to_json_some. intros p' k [Hp'|[Hp'| ->]%elem_of_compacted]; apply Hjson; [done|by apply compacted_in_append|done].
Qed.

(** The record goes, the journal has it, and at every crash a rollback gives the
    same contents. *)
Lemma wp_compact_runtime_record :
  wp (pending g) (compact_runtime_record tx p)
     (fun tx' u => tx' = add_removal p tx ∧ u !! q = None ∧ valid compacted u ∧ (∀ s, state_file s → outcome compacted u s = g s) ∧
        ∀ s, u !! (primary_backup ++ s) = t !! (primary_backup ++ s)) t.
Proof.
  assert (pending g t) as Hpend by (by exists m). unfold compact_runtime_record.
  rewrite validate_relative_ok, Hk, bool_decide_false by (done || by intros []). do 2 (apply wp_bind, wp_returns; [done|]).
  destruct (v_manifest m t Hv) as (e & He & Hem). apply wp_bind.
  eapply (wp_conseq _ _ (fun m' u => m' = m ∧ u = t)).
  { unfold read_manifest. apply wp_bind. eapply wp_read_file; [done..|]. unfold parse_manifest. rewrite Hem. apply wp_bind, wp_returns; [done|].
    rewrite bool_decide_false by (rewrite (v_version m t Hv); auto). by apply wp_returns. }
  intros ? ? [-> ->]. rewrite !names_path_of, (bool_decide_true (p ∈ append_only_files m)) by done. apply wp_bind, wp_returns; [done|].
  rewrite bool_decide_false by done. apply wp_bind. eapply wp_conseq.
  { eapply wp_mono; [|intros u Hu; apply (guarded_pending g m t Hv Hg u Hu)|apply (wp_reject_relative_symlinks m t q t); [done|by apply valid_guarded_refl]].
    intros ? u Hu. exact Hu. }
  cbv beta. intros _ ? ->. apply wp_bind. eapply wp_reads; [rewrite lookup_node_ne, Hc by done; reflexivity|done|]. apply wp_bind, wp_returns; [done|].
  apply wp_bind. eapply wp_conseq; [apply wp_backup_record|]. cbv beta. intros _ u [Hb Hq].
  destruct compacted_json as (b & Hb1 & Hb2). destruct (compacted_valid u b Hb Hq Hb2) as [Hcv Hco].
  assert (u !! active = Some Dir) as Ha by (rewrite (proj1 (proj2 Hb)) by (intros Hx%prefix_length; cbn in Hx; lia); by apply (active_dir t m)).
  set (v := <[active ++ [MANIFEST_FILE] := File b]> u) in *.
  apply wp_bind. eapply (wp_conseq _ _ (fun _ w => w = v)).
  { unfold write_manifest. fold compacted. rewrite Hb1. apply wp_bind, wp_returns; [by apply backing_up_pending|].
    apply wp_replace; [exact Ha| |by apply backing_up_pending|by exists compacted|intros k c'; by apply backing_up_temporary|done].
    change (u !! (active ++ [MANIFEST_FILE]) ≠ Some Dir). rewrite (proj1 (proj2 Hb)) by by apply not_in_cb_active. by rewrite He. }
  intros _ ? ->. assert (v !! q = Some (File c)) as Hvq.
  { unfold v. rewrite lookup_insert_ne by (intros [= <-]; by cbn in Hn). rewrite (proj1 (proj2 Hb)); [done|]. apply not_in_cb. by rewrite Hn. }
  apply wp_bind. eapply (wp_mono (guarded compacted v) _ _ (fun _ w => w !! q = None ∧ guarded compacted v w)).
  - intros _ w [Hwq Hw]. apply wp_returns; [by apply (guarded_pending g compacted v)|]. split_and!; [done|done|by eapply valid_guarded| |].
    + intros s Hs. rewrite <-Hco by done. by apply outcome_guarded.
    + intros s. etrans; [by apply (guarded_journal compacted v w)|]. change (v !! (primary_backup ++ s) = t !! (primary_backup ++ s)).
      unfold v. rewrite lookup_insert_ne by done. apply Hb, (not_in_cb_active PRIMARY_BACKUP_DIRECTORY s). done.
  - intros w. by apply (guarded_pending g compacted v).
  - apply (wp_remove_file_present _ (fun s _ => s = q)); [apply Hcv|by apply valid_guarded_refl| |done|done|by rewrite Hvq|].
    + eapply shrinks_mono; [|apply guarded_shrinks]. intros s x -> _. cbn [frozen]. rewrite Hn. intros [_ Hx]. apply Hx, elem_of_compacted. by right.
    + intros w Hw Hgw. split; [by rewrite Hw, decide_True|done].
Qed.
End compaction.
