(* ===== verification/StateWorkspaceFacts.v ===== *)
(** The workspaces of a transaction.

    Each operation fills a backup with the records of the vault, switches the
    manifest to it, and then replaces the files of its area.  A crash leaves a
    journal whose outcome is the old one or, from the manifest on, the one in
    which that area has the records of the vault. *)

From stdpp Require Import base tactics list numbers strings gmap.
From Stdlib Require Import Strings.Byte.
From S2P Require Import Prelude FileTree FileTreeFacts StateTransaction StateTransactionFacts StateJournal StateRecovery StateAtomicity StateBegin StateWorkspace StateCompaction.

(** * Writing a set of files *)

Section entries.
Context `{FileSystemLaws}.
Implicit Types (t u : tree) (l : list (path * bytes)).

(** No file is on the way to another. *)
Definition flat l : Prop := NoDup l.*1 ∧ ∀ q q', q ∈ l.*1 → q' ∈ l.*1 → ¬ below q q'.

(** [q] is on the way to a file. *)
Definition leads l (q : path) : Prop := Exists (below q) l.*1.

Lemma leads_spec l q : leads l q ↔ ∃ q', q' ∈ l.*1 ∧ below q q'.
Proof. apply Exists_exists. Qed.

Definition entries_written l t u : Prop :=
  (∀ q c, (q, c) ∈ l → u !! q = Some (File c)) ∧ (∀ q, q ≠ [] → leads l q → u !! q = Some Dir) ∧
  (∀ q, q ∉ l.*1 → ¬ (q ≠ [] ∧ leads l q) → u !! q = t !! q).

Lemma parent_below_path (q p : path) : p ≠ [] → q `prefix_of` parent p ↔ below q p.
Proof.
  intros Hp. split.
  - intros Hq. split; [etrans; [done|apply parent_prefix]|]. intros ->. by apply (parent_ne q).
  - intros [Hq Hne]. destruct (snoc_cases p) as [|(s & k & ->)]; [done|]. rewrite parent_snoc. apply prefix_snoc_cases in Hq as [| ->]; done.
Qed.

Lemma wp_write_entries (I : tree → Prop) (R : path → node → Prop) l (Q : unit → tree → Prop) t :
  wf t → I t → grows I R → flat l →
  (∀ q c, (q, c) ∈ l → q ≠ [] ∧ (∀ p, below p q → R p Dir) ∧ R q (File c) ∧
     (∀ n c', is_temporary n → R (parent q ++ [n]) (File c')) ∧
     (∀ p c', below p q → t !! p ≠ Some (File c')) ∧ t !! q ≠ Some Dir) →
  (∀ u, wf u → I u → entries_written l t u → Q tt u) →
  wp I (for_each (fun e => write_staged_file e.1 e.2) l) Q t.
Proof.
  intros Hw Hi Hg. revert t Hw Hi. induction l as [|[q c] l IH]; intros t Hw Hi [Hnd Hfl] Hl HQ; cbn [for_each fst snd].
  { apply wp_returns; [done|]. apply HQ; [done..|]. split_and!; [by intros ? ? ?%elem_of_nil| |done].
    intros q _ (q' & Hq' & _)%leads_spec. by apply elem_of_nil in Hq'. }
  cbn in Hnd. apply NoDup_cons in Hnd as [Hnq Hnd]. destruct (Hl q c) as (Hne & Hd & Hf & Ht & Hpf & Hqd); [by left|].
  apply wp_bind, (wp_write_staged_file I R); [done|done|done|done|..|].
  - intros p Hp. by apply Hd, parent_below_path.
  - done.
  - done.
  - intros p c' Hp. by apply Hpf, parent_below_path.
  - done.
  - intros t1 Hw1 Hi1 Hc. assert (∀ p, t1 !! p = if decide (p = q) then Some (File c) else if decide (below p q ∧ p ≠ []) then Some Dir else t !! p) as Ht1.
    { intros p. rewrite Hc. destruct (decide (p = q)); [done|]. apply decide_ext. by rewrite parent_below_path. }
    assert (∀ q' c', (q', c') ∈ l → q' ∈ l.*1) as Hin by (intros q' c' Hx; apply list_elem_of_fmap; by exists (q', c')).
    apply IH; [done|done| | |].
    + split; [done|]. intros a b Ha Hb. apply Hfl; by right.
    + intros q' c' Hq'. destruct (Hl q' c') as (Hne' & Hd' & Hf' & Ht' & Hpf' & Hqd'); [by right|].
      assert (q' ≠ q) as Hqq by (intros ->; by eapply Hnq, Hin). split_and!; [done..| |].
      * intros p c'' Hp. rewrite Ht1. case_decide as Hpq; [|case_decide; [done|by apply Hpf']]. subst p. intros _.
        apply (Hfl q q'); [by left|right; by eapply Hin|done].
      * rewrite Ht1, decide_False by done. case_decide as Hb; [|done]. exfalso. apply (Hfl q' q); [right; by eapply Hin|by left|apply Hb].
    + intros u Hwu Hiu (H1' & H2' & H3'). apply HQ; [done..|]. split_and!.
      * intros q' c' [[= -> ->]|Hx]%elem_of_cons; [|by apply H1']. rewrite H3'; [by rewrite Ht1, decide_True|done|].
        intros [_ (q'' & Hq'' & Hb)%leads_spec]. apply (Hfl q q''); [by left|by right|done].
      * intros p Hp (q' & [->|Hq']%elem_of_cons & Hb)%leads_spec; [|apply H2'; [done|apply leads_spec; by exists q']].
        destruct (Exists_dec (below p) l.*1) as [Hx|Hx]; [by apply H2'|]. rewrite H3'; [|intros Hx'; apply (Hfl p q); [by right|by left|done]|by intros [_ ?]].
        rewrite Ht1, decide_False, decide_True; [done|done|]. intros ->. by destruct Hb.
      * intros p Hp Hnl. cbn in Hp. apply not_elem_of_cons in Hp as [Hpq Hpl]. rewrite H3'; [|done|].
        -- rewrite Ht1, !decide_False; [done| |done]. intros [Hb Hpn]. apply Hnl. split; [done|]. apply leads_spec. exists q. split; [by left|done].
        -- intros [Hpn (q' & Hq' & Hb)%leads_spec]. apply Hnl. split; [done|]. apply leads_spec. exists q'. split; [by right|done].
Qed.
End entries.

(** * The journal while a backup is filled *)

Lemma not_temporary (n : name) : bool_decide (b_str ".tmp" `prefix_of` n) = false → ¬ is_temporary n.
Proof. apply bool_decide_eq_false_1. Qed.

Section filling.
Context `{FileSystemLaws} `{HJ : ManifestJson} `{!ManifestJsonLaws}.
Context (g : contents) (m : TransactionManifest) (t : tree) (Hv : valid m t) (Hg : ∀ q, state_file q → outcome m t q = g q).
Implicit Types (u : tree).

(** A journal with another manifest over the same files is valid when the
    backups that the manifest names are. *)
Lemma valid_from m' u :
  m'.(append_only_files) = m.(append_only_files) → m'.(version) = m.(version) →
  m'.(compacted_append_only_files) = m.(compacted_append_only_files) → wf u →
  (∀ n s, area n ≠ AJournal → u !! (n :: s) = t !! (n :: s)) →
  (∀ n, n ∈ [PREPARED_MARKER; COMMITTED_MARKER; ROLLED_BACK_MARKER] → u !! marker n = t !! marker n) →
  (∀ s, u !! (compaction_backup ++ s) = t !! (compaction_backup ++ s)) →
  (∃ encoded, u !! (active ++ [MANIFEST_FILE]) = Some (File encoded) ∧ from_json encoded = Some m') →
  ((ratchet_backup m').1 = true →
     u !! (ratchet_backup m').2 = Some Dir ∧ ∀ x, u !! ((ratchet_backup m').2 ++ [PICKLE]) = Some x → unfenced x) →
  ((next_sequence_backup m').1 = true → ∃ c, u !! (next_sequence_backup m').2 = Some (File c)) →
  (m'.(trust_primary_prepared) = true →
     u !! trust_backup = Some Dir ∧
     (∀ q c, u !! (trust_backup ++ q) = Some (File c) → ∃ n r, q = n :: r ∧ area n = ATrust) ∧
     (∀ n x, u !! (trust_backup ++ [n]) = Some x → legal m' [n] x)) →
  valid m' u.
Proof.
  intros Ea Ev Ec Hw Ho Hk Hc Hm Hr Hs Ht. assert (∀ q x, legal m q x → legal m' q x) as Hl by (intros q x; unfold legal; by rewrite Ea).
  destruct Hv. split; try done; rewrite ?Ea, ?Ev, ?Ec; try done.
  - intros q x Hq. apply Hl. destruct q as [|n s]; [done|]. destruct (decide (area n = AJournal)) as [Hj|Hj]; [cbn; by rewrite Hj|].
    apply v_legal. by rewrite <-Ho.
  - rewrite Hk; [done|]. by apply (bool_decide_unpack _).
  - rewrite Hk; [done|]. by apply (bool_decide_unpack _).
  - rewrite Hk; [done|]. by apply (bool_decide_unpack _).
  - setoid_rewrite Hc. done.
  - intros q x. rewrite Hc. intros Hx%v_shadow. unfold shadow. by rewrite Ea.
Qed.

(** What a rollback gives, area by area. *)
Lemma outcome_from m' u q g' :
  m'.(append_only_files) = m.(append_only_files) → m'.(compacted_append_only_files) = m.(compacted_append_only_files) →
  (∀ n s, area n ≠ AJournal → u !! (n :: s) = t !! (n :: s)) →
  (∀ s, u !! (compaction_backup ++ s) = t !! (compaction_backup ++ s)) →
  (∀ n r, area n = ARatchet ∨ area n = ASequence ∨ area n = ATrust → outcome m' u (n :: r) = g' (n :: r)) →
  (∀ n r, area n = AAppend ∨ area n = AOther → g' (n :: r) = g (n :: r)) →
  state_file q → outcome m' u q = g' q.
Proof.
  intros Ea Ec Ho Hc Hm Hother Hq. destruct q as [|n r]; [done|]. pose proof Hq as [Hj _]. destruct (area n) eqn:Hn; try (apply Hm; tauto).
  - rewrite Hother, <-Hg by auto. cbn [outcome]. rewrite Hn, Ea, Ec. rewrite (file_at_same u t _ _ (Hc (n :: r))).
    rewrite (file_at_same u t (n :: r) (n :: r)) by (apply Ho; by rewrite Hn). done.
  - rewrite Hother, <-Hg by auto. cbn [outcome]. rewrite Hn. apply file_at_same, Ho. by rewrite Hn.
Qed.

(** ** Filling the backup [X] *)

Context (X : name) (HX : X ∈ [RATCHET_DIRECTORY; NEXT_SEQUENCE_FILE; TRUST_PRIMARY_BACKUP_DIRECTORY]).
(** The manifest does not use it yet. *)
Context (Hunused : (X = RATCHET_DIRECTORY → m.(ratchet_primary_existed) = None) ∧
                   (X = NEXT_SEQUENCE_FILE → m.(next_sequence_primary_existed) = None) ∧
                   (X = TRUST_PRIMARY_BACKUP_DIRECTORY → m.(trust_primary_prepared) = false)).

Definition free (s : path) : Prop :=
  s = primary_backup ∨ (primary_backup ++ [X]) `prefix_of` s ∨ ∃ n, is_temporary n ∧ s = primary_backup ++ [n].

Definition filling u : Prop :=
  wf u ∧ (∀ c, u !! primary_backup ≠ Some (File c)) ∧ ∀ s, ¬ free s → u !! s = t !! s.

Lemma free_primary s : free s → primary_backup `prefix_of` s.
Proof.
  intros [->|[[r ->]|(n & _ & ->)]]; [done|rewrite <-app_assoc|]; by apply prefix_app_r.
Qed.

Lemma not_free_area n s : area n ≠ AJournal → ¬ free (n :: s).
Proof. intros Hn Hf%free_primary%prefix_cons_inv_1. by subst. Qed.

Lemma not_free_active n s : n ≠ PRIMARY_BACKUP_DIRECTORY → ¬ free (active ++ n :: s).
Proof. intros Hn Hf%free_primary. do 2 apply prefix_cons_inv_2 in Hf. by apply prefix_cons_inv_1 in Hf. Qed.

Lemma not_free_other Y s :
  Y ∈ [RATCHET_DIRECTORY; NEXT_SEQUENCE_FILE; TRUST_PRIMARY_BACKUP_DIRECTORY] → Y ≠ X → ¬ free (primary_backup ++ Y :: s).
Proof.
  intros HY HYX [Heq|[[r Hr]|(n & Hn & Heq)]].
  - by apply (cons_ne primary_backup Y s).
  - rewrite <-app_assoc in Hr. apply app_inv_head in Hr. by injection Hr.
  - apply app_inv_head in Heq. injection Heq as -> ->. revert Hn. apply not_temporary.
    rewrite !elem_of_cons, elem_of_nil in HY. by destruct HY as [->|[->|[->|[]]]].
Qed.

(** What does not change while the backup is filled and the manifest written. *)
Definition same_core u : Prop :=
  wf u ∧ (∀ n s, area n ≠ AJournal → u !! (n :: s) = t !! (n :: s)) ∧
  (∀ n, n ∈ [PREPARED_MARKER; COMMITTED_MARKER; ROLLED_BACK_MARKER] → u !! marker n = t !! marker n) ∧
  (∀ s, u !! (compaction_backup ++ s) = t !! (compaction_backup ++ s)) ∧
  (∀ s, u !! (backup ++ s) = t !! (backup ++ s)) ∧
  (∀ Y s, Y ∈ [RATCHET_DIRECTORY; NEXT_SEQUENCE_FILE; TRUST_PRIMARY_BACKUP_DIRECTORY] → Y ≠ X →
     u !! (primary_backup ++ Y :: s) = t !! (primary_backup ++ Y :: s)).

Lemma filling_core u : filling u → same_core u ∧ u !! (active ++ [MANIFEST_FILE]) = t !! (active ++ [MANIFEST_FILE]).
Proof.
  intros (Hw & _ & Hs). split; [|by apply Hs, not_free_active]. split_and!.
  - done.
  - intros n s Hn. by apply Hs, not_free_area.
  - intros n Hn. apply Hs, not_free_active. intros ->. revert Hn. by apply (bool_decide_unpack _).
  - intros s. by apply Hs, not_free_active.
  - intros s. by apply Hs, not_free_active.
  - intros Y s HY HYX. by apply Hs, not_free_other.
Qed.

Lemma core_active u : same_core u → lookup_node u active = Some Dir.
Proof.
  intros (Hw & _ & Hm & _). apply (wf_prefix u active [PREPARED_MARKER] Hw); [|done]. change (is_Some (u !! marker PREPARED_MARKER)).
  rewrite Hm by by apply (bool_decide_unpack _). apply (v_prepared m t Hv).
Qed.

(** A node directly in the journal that is none of its parts. *)
Lemma core_insert u k x :
  same_core u → (u !! (active ++ [k]) = Some Dir → x = Dir) →
  k ∉ [PREPARED_MARKER; COMMITTED_MARKER; ROLLED_BACK_MARKER; APPEND_ONLY_COMPACTION_BACKUP_DIRECTORY; BACKUP_DIRECTORY; PRIMARY_BACKUP_DIRECTORY] →
  same_core (<[active ++ [k] := x]> u).
Proof.
  intros Hc Hx Hk. pose proof (core_active u Hc) as Ha. destruct Hc as (Hw & Ho & Hm & Hcb & Hb & Hp).
  assert (∀ n s, n ∈ [PREPARED_MARKER; COMMITTED_MARKER; ROLLED_BACK_MARKER; APPEND_ONLY_COMPACTION_BACKUP_DIRECTORY; BACKUP_DIRECTORY; PRIMARY_BACKUP_DIRECTORY] →
            <[active ++ [k] := x]> u !! (active ++ n :: s) = u !! (active ++ n :: s)) as Hne.
  { intros n s Hn. apply lookup_insert_ne. intros Heq%app_inv_head. injection Heq as -> _. done. }
  split_and!.
  - apply wf_insert; [done|done|by rewrite parent_snoc|done].
  - intros n s Hn. rewrite lookup_insert_ne; [by apply Ho|]. by intros [= <-].
  - intros n Hn. rewrite <-Hm by done. apply Hne. clear -Hn. set_solver.
  - intros s. rewrite <-Hcb. apply (Hne APPEND_ONLY_COMPACTION_BACKUP_DIRECTORY s). by apply (bool_decide_unpack _).
  - intros s. rewrite <-Hb. apply (Hne BACKUP_DIRECTORY s). by apply (bool_decide_unpack _).
  - intros Y s HY HYX. rewrite <-Hp by done. apply (Hne PRIMARY_BACKUP_DIRECTORY (Y :: s)). by apply (bool_decide_unpack _).
Qed.

(** The backups that the manifest uses. *)
Lemma core_ratchet u s : same_core u → u !! ((ratchet_backup m).2 ++ s) = t !! ((ratchet_backup m).2 ++ s).
Proof.
  intros (_ & _ & _ & _ & Hb & Hp). unfold ratchet_backup. destruct (ratchet_primary_existed m) eqn:E; cbn [snd]; rewrite <-app_assoc; [|apply Hb].
  apply (Hp RATCHET_DIRECTORY s); [by apply (bool_decide_unpack _)|]. intros Heq. by pose proof (proj1 Hunused (eq_sym Heq)).
Qed.

Lemma core_sequence u : same_core u → u !! (next_sequence_backup m).2 = t !! (next_sequence_backup m).2.
Proof.
  intros (_ & _ & _ & _ & Hb & Hp). unfold next_sequence_backup. destruct (next_sequence_primary_existed m) eqn:E; cbn [snd]; [|apply Hb].
  apply (Hp NEXT_SEQUENCE_FILE []); [by apply (bool_decide_unpack _)|]. intros Heq. by pose proof (proj1 (proj2 Hunused) (eq_sym Heq)).
Qed.

Lemma core_trust u s : same_core u → m.(trust_primary_prepared) = true → u !! (trust_backup ++ s) = t !! (trust_backup ++ s).
Proof.
  intros (_ & _ & _ & _ & _ & Hp) Ht. apply (Hp TRUST_PRIMARY_BACKUP_DIRECTORY s); [by apply (bool_decide_unpack _)|]. intros Heq. by rewrite (proj2 (proj2 Hunused) (eq_sym Heq)) in Ht.
Qed.

Lemma core_valid_ratchet u :
  same_core u → (ratchet_backup m).1 = true →
  u !! (ratchet_backup m).2 = Some Dir ∧ ∀ x, u !! ((ratchet_backup m).2 ++ [PICKLE]) = Some x → unfenced x.
Proof.
  intros Hc. pose proof (core_ratchet u [] Hc) as H1'. rewrite !app_nil_r in H1'. rewrite H1', core_ratchet by done. apply (v_ratchet m t Hv).
Qed.

Lemma core_valid_sequence u : same_core u → (next_sequence_backup m).1 = true → ∃ c, u !! (next_sequence_backup m).2 = Some (File c).
Proof. intros Hc. rewrite core_sequence by done. apply (v_sequence m t Hv). Qed.

Lemma core_valid_trust u :
  same_core u → m.(trust_primary_prepared) = true →
  u !! trust_backup = Some Dir ∧
  (∀ q c, u !! (trust_backup ++ q) = Some (File c) → ∃ n r, q = n :: r ∧ area n = ATrust) ∧
  (∀ n x, u !! (trust_backup ++ [n]) = Some x → legal m [n] x).
Proof.
  intros Hc Ht. pose proof (fun s => core_trust u s Hc Ht) as Hs. pose proof (Hs []) as H1'. rewrite !app_nil_r in H1'.
  rewrite H1'. setoid_rewrite Hs. by apply (v_trust m t Hv).
Qed.

Lemma core_outcome_ratchet u n r : same_core u → area n = ARatchet → outcome m u (n :: r) = outcome m t (n :: r).
Proof.
  intros Hc Hn. cbn [outcome]. rewrite Hn. pose proof (core_ratchet u r Hc) as Hr. destruct (ratchet_backup m) as [[] b]; [|done]. by apply file_at_same.
Qed.

Lemma core_outcome_sequence u n r : same_core u → area n = ASequence → outcome m u (n :: r) = outcome m t (n :: r).
Proof.
  intros Hc Hn. cbn [outcome]. rewrite Hn. pose proof (core_sequence u Hc) as Hr. destruct (next_sequence_backup m) as [[] b]; [|done]. cbn [andb].
  case_bool_decide; [|done]. by apply file_at_same.
Qed.

Lemma core_outcome_trust u n r : same_core u → area n = ATrust → outcome m u (n :: r) = outcome m t (n :: r).
Proof.
  intros Hc Hn. cbn [outcome]. rewrite Hn. pose proof (core_trust u (n :: r) Hc) as Hr. destruct (trust_primary_prepared m); [by apply file_at_same, Hr|].
  apply file_at_same. destruct Hc as (_ & Ho & _). apply Ho. by rewrite Hn.
Qed.

Lemma core_pending u :
  same_core u → (∃ encoded, u !! (active ++ [MANIFEST_FILE]) = Some (File encoded) ∧ from_json encoded = Some m) → pending g u.
Proof.
  intros Hc Hm. pose proof Hc as (Hw & Ho & Hmk & Hcb & _). exists m. split.
  - apply valid_from; [done..|by apply core_valid_ratchet|by apply core_valid_sequence|by apply core_valid_trust].
  - intros q Hq. apply outcome_from; try done.
    intros n r [Hn|[Hn|Hn]]; rewrite <-Hg by (split; [by rewrite Hn|intros [_ ?%area_temporary]; congruence]);
      [by apply core_outcome_ratchet|by apply core_outcome_sequence|by apply core_outcome_trust].
Qed.

(** Switching to the manifest [m'], whose outcome is [g']. *)
Lemma wp_switch (g' : contents) m' u :
  same_core u → u !! (active ++ [MANIFEST_FILE]) = t !! (active ++ [MANIFEST_FILE]) → is_Some (to_json m') →
  (∀ e, from_json e = Some m' → pending g' (<[active ++ [MANIFEST_FILE] := File e]> u)) →
  wp (fun w => pending g w ∨ pending g' w) (write_manifest m')
     (fun _ w => ∃ e, from_json e = Some m' ∧ w = <[active ++ [MANIFEST_FILE] := File e]> u) u.
Proof.
  intros Hc Hm [e He] Hg'. destruct (v_manifest m t Hv) as (e0 & He0 & Hm0). rewrite He0 in Hm.
  assert (pending g u) as Hu by (apply core_pending; [done|by exists e0]).
  unfold write_manifest. rewrite He. apply wp_bind, wp_returns; [by left|].
  apply wp_replace; [apply core_active; done| |by left|right; by apply Hg', from_to_json| |exists e; split; [by apply from_to_json|done]].
  - change (u !! (active ++ [MANIFEST_FILE]) ≠ Some Dir). by rewrite Hm.
  - intros n c' Hn Hnone. left. change (parent (active ++ [MANIFEST_FILE])) with active in *. apply core_pending.
    + apply core_insert; [done|by rewrite Hnone|]. intros Hx. rewrite !elem_of_cons, elem_of_nil in Hx. revert Hn.
      destruct Hx as [->|[->|[->|[->|[->|[->|[]]]]]]]; by apply not_temporary.
    + exists e0. rewrite lookup_insert_ne; [done|]. intros Heq%app_inv_head. injection Heq as ->. revert Hn. by apply not_temporary.
Qed.

(** Filling. *)
Definition fill_region (s : path) (x : node) : Prop :=
  ((s `prefix_of` active ∨ s = primary_backup) ∧ x = Dir) ∨ (primary_backup ++ [X]) `prefix_of` s ∨
  ∃ n, is_temporary n ∧ s = primary_backup ++ [n].

Lemma filling_grows : grows filling fill_region.
Proof.
  intros u s x Hf Hs Hne Hd Hdir. assert (Hff := Hf). destruct Hff as (Hw & Hp & Ho).
  assert (free s → (s = primary_backup → x = Dir) → filling (<[s := x]> u)) as Hgo.
  { intros Hfree Hx. split_and!; [by apply wf_insert| |].
    - intros c [[-> ->]|[_ ?]]%lookup_insert_Some; [by specialize (Hx eq_refl)|by apply (Hp c)].
    - intros r Hr. rewrite lookup_insert_ne; [by apply Ho|]. by intros ->. }
  destruct Hs as [[[Hs|Hs] ->]|[Hs|(n & Hn & ->)]].
  - rewrite insert_id; [done|]. rewrite Ho; [by apply (above_active m t Hv)|]. intros Hx%free_primary%prefix_length. apply prefix_length in Hs. cbn in *. lia.
  - apply Hgo; [by left|done].
  - apply Hgo; [by right; left|]. intros ->. by apply not_prefix_below in Hs.
  - apply Hgo; [right; right; by exists n|]. intros Heq. by apply (cons_ne primary_backup n []) in Heq.
Qed.

Lemma filling_start : (∀ c, t !! primary_backup ≠ Some (File c)) → filling t.
Proof. intros Hp. split_and!; [apply Hv|done|done]. Qed.

Lemma filling_pending u : filling u → pending g u.
Proof. intros [Hc Hm]%filling_core. apply core_pending; [done|]. rewrite Hm. apply (v_manifest m t Hv). Qed.
End filling.

(** * The workspaces *)

(** The contents of an area replaced by [h]. *)
Definition override (a : Area) (h g : contents) : contents :=
  fun q => match q with [] => g [] | n :: _ => if decide (area n = a) then h q else g q end.

Lemma override_eq a h g n r : area n = a → override a h g (n :: r) = h (n :: r).
Proof. intros Hn. cbn. by rewrite decide_True. Qed.

Lemma override_ne a h g n r : area n ≠ a → override a h g (n :: r) = g (n :: r).
Proof. intros Hn. cbn. by rewrite decide_False. Qed.

Lemma for_each_map {A B : Type} (f : A → action StateError unit) (f' : B → action StateError unit) (h : A → B) (l : list A) :
  (∀ a, a ∈ l → f a = f' (h a)) → for_each f l = for_each f' (map h l).
Proof.
  induction l as [|a l IH]; intros Hf; [done|]. cbn. rewrite Hf by left. by rewrite IH by (intros b Hb; apply Hf; by right).
Qed.

Lemma elem_of_btree_entries {V} (b : gmap path V) q c : (q, c) ∈ btree_entries b ↔ b !! q = Some c.
Proof. unfold btree_entries. by rewrite sort_by_key_perm, elem_of_map_to_list. Qed.

Lemma btree_entries_keys {V} (b : gmap path V) q : q ∈ (btree_entries b).*1 ↔ is_Some (b !! q).
Proof.
  rewrite list_elem_of_fmap. split.
  - intros ([q' c] & -> & Hc%elem_of_btree_entries). by exists c.
  - intros [c Hc]. exists (q, c). split; [done|by apply elem_of_btree_entries].
Qed.

Lemma btree_entries_NoDup {V} (b : gmap path V) : NoDup (btree_entries b).*1.
Proof. unfold btree_entries. rewrite sort_by_key_perm. apply NoDup_fst_map_to_list. Qed.

(** Records of which none is on the way to another. *)
Definition flat_records (b : gmap path bytes) : Prop := ∀ q q', is_Some (b !! q) → is_Some (b !! q') → ¬ below q q'.

Lemma flat_entries b : flat_records b → flat (btree_entries b).
Proof. intros Hb. split; [apply btree_entries_NoDup|]. intros q q'. rewrite !btree_entries_keys. apply Hb. Qed.

(** The entries below another directory. *)
Definition moved (h : path → path) (b : gmap path bytes) : list (path * bytes) := map (fun e => (h e.1, e.2)) (btree_entries b).

Lemma moved_keys h b q : q ∈ (moved h b).*1 ↔ ∃ s, q = h s ∧ is_Some (b !! s).
Proof.
  unfold moved. rewrite <-list_fmap_compose, list_elem_of_fmap. split.
  - intros ([s c] & -> & Hc%elem_of_btree_entries). exists s. split; [done|by exists c].
  - intros (s & -> & [c Hc]). exists (s, c). split; [done|by apply elem_of_btree_entries].
Qed.

Lemma elem_of_moved h b q c : (q, c) ∈ moved h b ↔ ∃ s, q = h s ∧ b !! s = Some c.
Proof.
  unfold moved. rewrite list_elem_of_fmap. split.
  - intros ([s c'] & [= -> ->] & Hc%elem_of_btree_entries). by exists s.
  - intros (s & -> & Hc). exists (s, c). split; [done|by apply elem_of_btree_entries].
Qed.

Lemma moved_flat h b :
  (∀ s s', is_Some (b !! s) → is_Some (b !! s') → h s = h s' → s = s') →
  (∀ s s', is_Some (b !! s) → is_Some (b !! s') → below (h s) (h s') → below s s') → flat_records b → flat (moved h b).
Proof.
  intros Hi Hb Hf. split.
  - assert (∀ l : list (path * bytes), (∀ e, e ∈ l → is_Some (b !! e.1)) → NoDup l.*1 → NoDup (map (fun e => (h e.1, e.2)) l).*1) as Hgo.
    { induction l as [|[s c] l IH]; intros Hl Hd; [constructor|]. cbn in *. apply NoDup_cons in Hd as [Hn Hd]. apply NoDup_cons. split.
      - intros (e & He & ([s' c'] & -> & Hx)%list_elem_of_fmap)%list_elem_of_fmap. cbn in He. apply Hn, list_elem_of_fmap. exists (s', c').
        split; [|done]. apply (Hi s s'); [apply (Hl (s, c)); by left|apply (Hl (s', c')); by right|done].
      - apply IH; [|done]. intros e He. apply Hl. by right. }
    apply Hgo; [|apply btree_entries_NoDup]. intros [s c] Hs%elem_of_btree_entries. by exists c.
  - intros q q' (s & -> & Hs)%moved_keys (s' & -> & Hs')%moved_keys Hx%Hb; [|done..]. by apply (Hf s s').
Qed.

(** What is below [p] when the records are written there, and nothing else is. *)
Lemma moved_file_at p b t u s :
  entries_written (moved (fun q => p ++ q) b) t u → flat_records b → (t !! (p ++ s) = None ∨ t !! (p ++ s) = Some Dir) → p ≠ [] →
  file_at u (p ++ s) = b !! s.
Proof.
  intros (H1' & H2' & H3') Hf Ht Hp. unfold file_at. destruct (b !! s) as [c|] eqn:E.
  - rewrite (H1' _ c); [done|]. apply elem_of_moved. by exists s.
  - destruct (Exists_dec (below (p ++ s)) (moved (fun q => p ++ q) b).*1) as [Hx|Hx]; [rewrite H2'; [done|by destruct p|done]|].
    rewrite H3'; [by destruct Ht as [-> | ->]| |by intros [_ ?]]. intros (s' & Heq%app_inv_head & Hs')%moved_keys. subst. rewrite E in Hs'. by destruct Hs'.
Qed.

Lemma below_app (p q q' : path) : below (p ++ q) (p ++ q') ↔ below q q'.
Proof.
  unfold below. split; intros [Hpre Hn].
  - split; [by apply prefix_app_inv in Hpre|]. by intros ->.
  - split; [by apply prefix_app|]. by intros ?%app_inv_head.
Qed.

Section workspaces.
Context `{FileSystemLaws} `{HJ : ManifestJson} `{!ManifestJsonLaws}.
Context (g : contents) (m : TransactionManifest) (t : tree) (Hv : valid m t) (Hg : ∀ q, state_file q → outcome m t q = g q).
Context (Hprimary : ∀ c, t !! primary_backup ≠ Some (File c)).
Context (Hjson : ∀ p k, p ∈ m.(append_only_files) → Normal k ∈ p → json_name k).
Implicit Types (u v w : tree) (tx : StateTransaction).

Lemma json_same m' :
  m'.(append_only_files) = m.(append_only_files) → m'.(compacted_append_only_files) = m.(compacted_append_only_files) → is_Some (to_json m').
Proof.
  intros Ea Ec. apply to_json_some. rewrite Ea, Ec. intros p k [Hp|Hp] Hk; [by eapply Hjson|]. apply (v_compacted m t Hv) in Hp as (_ & Hp & _). by eapply Hjson.
Qed.

(** What an operation leaves: a valid journal with the manifest [m'] and the
    outcome [g'], the other backups as they were. *)
Definition switched (X : name) m' (g' : contents) w : Prop :=
  valid m' w ∧ (∀ q, state_file q → outcome m' w q = g' q) ∧ (∀ c, w !! primary_backup ≠ Some (File c)) ∧
  (∀ Y s, Y ∈ [RATCHET_DIRECTORY; NEXT_SEQUENCE_FILE; TRUST_PRIMARY_BACKUP_DIRECTORY] → Y ≠ X →
     w !! (primary_backup ++ Y :: s) = t !! (primary_backup ++ Y :: s)).

(** The end of an operation, which works on the state under the new manifest. *)
Lemma switched_guarded X m' g' v w : switched X m' g' v → guarded m' v w → switched X m' g' w.
Proof.
  intros (Hvv & Ho & Hp & Hy) Hw. split_and!.
  - by eapply valid_guarded.
  - intros q Hq. rewrite <-Ho by done. by apply outcome_guarded.
  - intros c. rewrite (guarded_journal m' v w [ACTIVE_DIRECTORY; PRIMARY_BACKUP_DIRECTORY] Hw : w !! primary_backup = v !! primary_backup). apply Hp.
  - intros Y s HY HYX. rewrite <-Hy by done. apply (guarded_journal m' v w _ Hw).
Qed.

Lemma switched_pending X m' g' w : switched X m' g' w → pending g' w.
Proof. intros (Hvw & Ho & _). by exists m'. Qed.

Lemma wp_under_switched {A} X m' g' v (a : action StateError A) Q u :
  switched X m' g' v → wp (guarded m' v) a Q u → wp (fun w => pending g w ∨ pending g' w) a Q u.
Proof.
  intros Hs. apply wp_mono; [done|]. intros w Hw. right. by eapply switched_pending, switched_guarded.
Qed.

Lemma wp_removed_already {A} (I : tree → Prop) p (k : unit → action StateError A) Q u :
  p ≠ [] → u !! p = None → I u → wp I (k tt) Q u → wp I (abind (remove_tree_if_present p) k) Q u.
Proof.
  intros Hp Hn Hi Hk. apply wp_bind. unfold remove_tree_if_present. apply wp_bind, wp_path_exists; [done|]. rewrite lookup_node_ne, Hn by done. by apply wp_returns.
Qed.

Lemma wp_read_same {A} X u (I : tree → Prop) (k : TransactionManifest → action StateError A) Q :
  filling t X u → I u → wp I (k m) Q u → wp I (abind read_manifest k) Q u.
Proof.
  intros [_ Hm]%filling_core Hi Hk. destruct (v_manifest m t Hv) as (e & He & Hem). apply wp_bind. unfold read_manifest. apply wp_bind.
  eapply wp_read_file; [by rewrite Hm|done..|]. unfold parse_manifest. rewrite Hem. apply wp_bind, wp_returns; [done|].
  rewrite bool_decide_false by (rewrite (v_version m t Hv); auto). by apply wp_returns.
Qed.

(** What is above a backup. *)
Lemma fill_above X s q : s `prefix_of` primary_backup ++ X :: q → s ≠ primary_backup ++ X :: q → fill_region X s Dir.
Proof.
  intros Hs _. destruct (prefix_weak_total s primary_backup (primary_backup ++ X :: q)) as [Hx|Hx]; [done|by apply prefix_app_r| |].
  - apply (prefix_snoc_cases s active) in Hx as [Hx| ->]; left; auto.
  - apply below_cases in Hx as [->|(n & r & ->)]; [left; auto|]. apply prefix_app_inv, prefix_cons_inv_1 in Hs as ->. right; left.
    exists r. by rewrite <-app_assoc.
Qed.

Lemma above_primary u X s c :
  filling t X u → (∀ r, u !! (primary_backup ++ X :: r) ≠ Some (File c)) → ∀ q, s `prefix_of` primary_backup ++ X :: q → u !! s ≠ Some (File c).
Proof.
  intros (Hw & Hp & Ho) Hr q Hs Hx. destruct (prefix_weak_total s primary_backup (primary_backup ++ X :: q)) as [Hy|Hy]; [done|by apply prefix_app_r| |].
  - apply (prefix_snoc_cases s active) in Hy as [Hy| ->]; [|by apply (Hp c)]. destruct (decide (s = [])) as [->|Hne]; [by rewrite (proj1 Hw) in Hx|].
    rewrite Ho in Hx; [by rewrite (above_active m t Hv) in Hx|]. intros Hz%free_primary%prefix_length. apply prefix_length in Hy. cbn in *. lia.
  - apply below_cases in Hy as [->|(n & r & ->)]; [by apply (Hp c)|]. apply prefix_app_inv, prefix_cons_inv_1 in Hs as ->. by apply (Hr r).
Qed.

(** The manifest is written over a filled backup. *)
Lemma switched_manifest X m' g' u e :
  X ∈ [RATCHET_DIRECTORY; NEXT_SEQUENCE_FILE; TRUST_PRIMARY_BACKUP_DIRECTORY] → filling t X u →
  let v := <[active ++ [MANIFEST_FILE] := File e]> u in
  (same_core t X v → v !! (active ++ [MANIFEST_FILE]) = Some (File e) → valid m' v ∧ ∀ q, state_file q → outcome m' v q = g' q) →
  switched X m' g' v.
Proof.
  intros HX Hf v Hm. pose proof Hf as (_ & Hp & _). destruct (filling_core t X u Hf) as [Hc He].
  assert (same_core t X v) as Hcv.
  { apply (core_insert m t Hv); [done| |by apply (bool_decide_unpack _)]. rewrite He. destruct (v_manifest m t Hv) as (e0 & -> & _). done. }
  destruct (Hm Hcv) as [Hvv Ho]; [unfold v; by rewrite lookup_insert_eq|]. split_and!; [done|done| |].
  - intros c. unfold v. rewrite lookup_insert_ne by done. apply Hp.
  - intros Y s HY HYX. by apply Hcv.
Qed.

(** ** The ratchet *)

Section ratchet_workspace.
Context (b : gmap path bytes) (Hunused : m.(ratchet_primary_existed) = None) (Hnone : ∀ s, t !! (primary_backup ++ RATCHET_DIRECTORY :: s) = None).

(** Records that can be the files of a ratchet without a fence. *)
Definition ratchet_records : Prop :=
  flat_records b ∧ ∀ q c, b !! q = Some c → ∃ a s, q = RATCHET_DIRECTORY :: a :: s ∧ (a = PICKLE → s = [] ∧ unfenced (File c)).

Context (Hb : ratchet_records).
Abbreviation R := RATCHET_DIRECTORY.
Abbreviation m' := (with_ratchet_primary (negb (bool_decide (b = ∅))) m).
Abbreviation g' := (override ARatchet (fun q => b !! q) g).
Abbreviation l := (moved (fun q => primary_backup ++ q) b).

Lemma ratchet_in : R ∈ [RATCHET_DIRECTORY; NEXT_SEQUENCE_FILE; TRUST_PRIMARY_BACKUP_DIRECTORY].
Proof. by left. Qed.

Lemma ratchet_moved_flat : flat l.
Proof. apply moved_flat; [intros s s' _ _; apply app_inv_head|intros s s' _ _; apply below_app|apply Hb]. Qed.

Lemma wp_fill_ratchet :
  wp (filling t R) (for_each (fun entry =>
        match drop 1 entry.1 with
        | [] => create_dir_all Io primary_backup ;* returns (Err (Io (primary_backup ++ [R])))
        | relative => write_staged_file ((primary_backup ++ [R]) ++ relative) entry.2
        end) (btree_entries b)) (fun _ u => filling t R u ∧ entries_written l t u) t.
Proof.
  pose proof (filling_start m t Hv R Hprimary) as Hf0.
  erewrite (for_each_map _ (fun e => write_staged_file e.1 e.2) (fun e => (primary_backup ++ e.1, e.2))).
  2:{ intros [q c] Hq%elem_of_btree_entries. destruct Hb as [_ Hr]. destruct (Hr q c Hq) as (a & s & -> & _). cbn [fst snd drop]. by rewrite <-app_assoc. }
  apply (wp_write_entries (filling t R) (fill_region R)); [apply Hv|done|apply (filling_grows m t Hv R)|apply ratchet_moved_flat| |by auto].
  intros q c (s & -> & Hs)%elem_of_moved. destruct Hb as [_ Hr]. destruct (Hr s c Hs) as (a & r & -> & _). split_and!.
  - done.
  - intros p [Hp Hne]. eapply fill_above; [done|by intros ->].
  - right; left. exists (a :: r). by rewrite <-app_assoc.
  - intros n c' Hn. right; left. change (R :: a :: r) with ([R] ++ a :: r). rewrite app_assoc.
    destruct (snoc_cases (a :: r)) as [|(y & k & Heq)]; [done|]. rewrite Heq, app_assoc, parent_snoc, <-!app_assoc. by apply prefix_app, prefix_app_r.
  - intros p c' [Hp _]. eapply (above_primary t R); [done|intros r'; by rewrite Hnone|done].
  - by rewrite Hnone.
Qed.

Lemma ratchet_filled_file u s : entries_written l t u → file_at u (primary_backup ++ R :: s) = b !! (R :: s).
Proof. intros Hw. apply (moved_file_at primary_backup b t); [done|apply Hb|left; apply Hnone|done]. Qed.

Lemma ratchet_switched u e :
  filling t R u → entries_written l t u → from_json e = Some m' → switched R m' g' (<[active ++ [MANIFEST_FILE] := File e]> u).
Proof.
  intros Hf Hw He. set (v := <[active ++ [MANIFEST_FILE] := File e]> u).
  assert (∀ s, v !! (primary_backup ++ s) = u !! (primary_backup ++ s)) as Hvu by (intros s; unfold v; by rewrite lookup_insert_ne).
  pose proof Hw as (Hw1 & Hw2 & Hw3).
  apply switched_manifest; [apply ratchet_in|done|]. fold v. intros Hc Hm. pose proof Hc as (Hwf & Ho & Hmk & Hcb & _).
  assert (m.(trust_primary_prepared) = m'.(trust_primary_prepared)) as Ht by done.
  assert ((R = RATCHET_DIRECTORY → ratchet_primary_existed m = None) ∧ (R = NEXT_SEQUENCE_FILE → next_sequence_primary_existed m = None) ∧
          (R = TRUST_PRIMARY_BACKUP_DIRECTORY → trust_primary_prepared m = false)) as Hun by (split_and!; [done|by intros [=]|by intros [=]]).
  split.
  - apply (valid_from m t Hv); [done..|by exists e| |by apply (core_valid_sequence m t Hv R Hun)|by apply (core_valid_trust m t Hv R Hun)].
    change (ratchet_backup m') with (negb (bool_decide (b = ∅)), primary_backup ++ [R]). cbn [fst snd]. rewrite negb_true_iff, bool_decide_eq_false.
    intros Hne. apply map_choose in Hne as (q & c & Hq). destruct Hb as [Hfl Hr]. split.
    + rewrite Hvu. apply Hw2; [done|]. apply leads_spec. exists (primary_backup ++ q). split; [apply moved_keys; exists q; split; [done|by exists c]|].
      destruct (Hr q c Hq) as (a & s & -> & _). apply below_app, (below_cons [R] a s).
    + intros x. rewrite <-app_assoc, Hvu. change ([R] ++ [PICKLE]) with [R; PICKLE]. intros Hx. destruct (b !! [R; PICKLE]) as [c'|] eqn:Ep.
      * rewrite (Hw1 _ c') in Hx by (apply elem_of_moved; by exists [R; PICKLE]). injection Hx as <-. destruct (Hr _ c' Ep) as (a & s & [= <- <-] & Hun'). by apply Hun'.
      * destruct (Exists_dec (below (primary_backup ++ [R; PICKLE])) l.*1) as [Hl|Hl].
        -- exfalso. apply leads_spec in Hl as (q' & (s' & -> & [c' Hc'])%moved_keys & Hbl%below_app). destruct (Hr s' c' Hc') as (a & r & -> & Hpk).
           destruct Hbl as [Hbl Hbn]. apply prefix_cons_inv_2 in Hbl as Hbl'. apply prefix_cons_inv_1 in Hbl' as <-. destruct (Hpk eq_refl) as [-> _]. done.
        -- rewrite Hw3 in Hx; [by rewrite Hnone in Hx| |by intros [_ ?]]. intros (s' & Heq%app_inv_head & Hs')%moved_keys. subst. rewrite Ep in Hs'. by destruct Hs'.
  - intros q Hq. apply (outcome_from g m t Hg); [done..| | |done].
    + intros n r [Hn|[Hn|Hn]].
      * rewrite override_eq by done. cbn [outcome]. rewrite Hn. change (ratchet_backup m') with (negb (bool_decide (b = ∅)), primary_backup ++ [R]).
        apply area_ratchet in Hn as ->. rewrite <-(ratchet_filled_file u r Hw). case_bool_decide as Hemp; cbn [negb].
        -- rewrite ratchet_filled_file by done. by rewrite Hemp, lookup_empty.
        -- rewrite <-app_assoc. apply file_at_same, Hvu.
      * rewrite override_ne by (by rewrite Hn). rewrite <-Hg by (split; [by rewrite Hn|intros [_ ?%area_temporary]; congruence]).
        etrans; [|by apply (core_outcome_sequence m t R Hun v)]. cbn [outcome]. by rewrite Hn.
      * rewrite override_ne by (by rewrite Hn). rewrite <-Hg by (split; [by rewrite Hn|intros [_ ?%area_temporary]; congruence]).
        etrans; [|by apply (core_outcome_trust m t R Hun v)]. cbn [outcome]. by rewrite Hn.
    + intros n r Hn. apply override_ne. by destruct Hn as [-> | ->].
Qed.

Lemma wp_live_ratchet v u :
  guarded m' v u → (∀ s, u !! (R :: s) = None) →
  wp (guarded m' v) (for_each (fun e => write_staged_file e.1 e.2) (btree_entries b)) (fun _ => guarded m' v) u.
Proof.
  intros Hu Hempty. pose proof Hu as (Hw & _ & _). destruct Hb as [Hfl Hr].
  apply (wp_write_entries (guarded m' v) (allowed m')); [done|done|apply guarded_grows|by apply flat_entries| |done].
  intros q c Hq%elem_of_btree_entries. destruct (Hr q c Hq) as (a & s & -> & Hpk). split_and!.
  - done.
  - intros p [Hp Hne]. destruct p as [|n p]; [by left|right]. apply prefix_cons_inv_1 in Hp as Hn. subst n. split; [|by intros []]. split; [done|]. intros ->.
    apply prefix_cons_inv_2, prefix_cons_inv_1 in Hp as <-. destruct (Hpk eq_refl) as [-> _]. done.
  - right. split; [|by intros []]. split; [done|]. intros [= -> ->]. by apply Hpk.
  - intros n c' Hn. right. destruct (snoc_cases (a :: s)) as [|(y & k & Heq)]; [done|].
    assert (parent (R :: a :: s) = R :: y) as -> by (rewrite Heq; apply (parent_snoc (R :: y))). split; [|by intros []]. split; [by destruct y|].
    intros Hx. exfalso. destruct y as [|y0 y]; [injection Hx as ->; revert Hn; by apply not_temporary|by destruct y].
  - intros p c' [Hp _]. destruct p as [|n p]; [by rewrite (proj1 Hw)|]. apply prefix_cons_inv_1 in Hp as ->. by rewrite Hempty.
  - by rewrite Hempty.
Qed.

(** A crash leaves the old outcome, or the one with the records of the vault. *)
Lemma wp_prepare_ratchet_workspace tx read :
  check_read tx read (bool_decide (is_Some tx.(ratchet_primary_baseline))) Ratchet
    RatchetWorkspaceAlreadyPrepared RatchetWorkspaceRootMismatch RatchetWorkspaceKindMismatch = Ok tt →
  workspace_baseline Ratchet RatchetWorkspaceKindMismatch read.(records) ∅ = Ok b →
  wp (fun w => pending g w ∨ pending g' w) (prepare_ratchet_workspace tx read)
     (fun tx' w => switched R m' g' w ∧ tx'.(ratchet_primary_baseline) = Some b ∧
        tx'.(sequence_primary_prepared) = tx.(sequence_primary_prepared) ∧
        tx'.(trust_primary_baseline) = tx.(trust_primary_baseline) ∧ tx'.(append_only_removals) = tx.(append_only_removals)) t.
Proof.
  intros Hck Hbl. pose proof (filling_start m t Hv R Hprimary) as Hf0.
  assert ((R = RATCHET_DIRECTORY → ratchet_primary_existed m = None) ∧ (R = NEXT_SEQUENCE_FILE → next_sequence_primary_existed m = None) ∧
          (R = TRUST_PRIMARY_BACKUP_DIRECTORY → trust_primary_prepared m = false)) as Hun by (split_and!; [done|by intros [=]|by intros [=]]).
  assert (∀ u, filling t R u → pending g u ∨ pending g' u) as Hfp by (intros u Hu; left; by apply (filling_pending g m t Hv Hg R Hun)).
  unfold prepare_ratchet_workspace. rewrite Hck, Hbl. do 2 (apply wp_bind, wp_returns; [by auto|]). apply (wp_read_same R); [done|by auto|].
  apply wp_removed_already; [done|apply (Hnone [])|by auto|]. apply wp_bind. eapply wp_mono; [|exact Hfp|apply wp_fill_ratchet].
  intros _ u [Hfu Hwr]. destruct (filling_core t R u Hfu) as [Hcu Hmu]. apply wp_bind. eapply wp_conseq.
  { apply (wp_switch g m t Hv Hg R Hun g' m' u Hcu Hmu); [by apply json_same|]. intros e He. by eapply switched_pending, ratchet_switched. }
  cbv beta. intros _ v (e & He & Hve). assert (switched R m' g' v) as Hsw by (subst v; by apply ratchet_switched).
  apply wp_bind. eapply wp_conseq.
  { apply (wp_under_switched R m' g' v _ (fun _ u' => guarded m' v u' ∧ ∀ s, u' !! (R :: s) = None)); [done|].
    pose proof Hsw as (Hvv & _). apply (wp_remove_tree _ (fun q _ => ratchet `prefix_of` q)); [apply Hvv|by apply valid_guarded_refl| |done|done| |].
    - eapply shrinks_mono; [|apply guarded_shrinks]. intros q x [s ->]%below_singleton _. by intros [].
    - intros c. by apply (ratchet_not_file m' v v), valid_guarded_refl.
    - intros u' Hcut Hu'. split; [done|]. intros s. rewrite Hcut, decide_True; [done|]. by exists s. }
  cbv beta. intros _ u' [Hgu Hempty]. apply wp_bind. eapply wp_conseq; [apply (wp_under_switched R m' g' v); [done|by apply wp_live_ratchet]|].
  cbv beta. intros _ w Hgw. assert (switched R m' g' w) as Hsw' by by eapply switched_guarded.
  apply wp_returns; [right; by eapply switched_pending|]. by split_and!.
Qed.
End ratchet_workspace.

(** ** The sequence number *)

Section sequence_workspace.
Context (content : option bytes) (Hunused : m.(next_sequence_primary_existed) = None)
  (Hnone : ∀ s, t !! (primary_backup ++ NEXT_SEQUENCE_FILE :: s) = None).
Abbreviation S := NEXT_SEQUENCE_FILE.
Abbreviation m' := (with_sequence_primary (bool_decide (is_Some content)) m).
Abbreviation g' := (override ASequence (fun q => if decide (q = next_sequence) then content else None) g).

Lemma sequence_unused :
  (S = RATCHET_DIRECTORY → ratchet_primary_existed m = None) ∧ (S = NEXT_SEQUENCE_FILE → next_sequence_primary_existed m = None) ∧
  (S = TRUST_PRIMARY_BACKUP_DIRECTORY → trust_primary_prepared m = false).
Proof. split_and!; [by intros [=]|done|by intros [=]]. Qed.

Lemma wp_fill_sequence :
  wp (filling t S) (match content with Some c => write_staged_file (primary_backup ++ [S]) c | None => returns (Ok tt) end)
     (fun _ u => filling t S u ∧ file_at u (primary_backup ++ [S]) = content) t.
Proof.
  pose proof (filling_start m t Hv S Hprimary) as Hf0. destruct content as [c|].
  - apply (wp_write_staged_file (filling t S) (fill_region S)); [apply Hv|done|apply (filling_grows m t Hv S)|done|..].
    + intros q Hq. rewrite parent_snoc in Hq. eapply (fill_above S q []); [by apply prefix_app_r|]. intros ->. by apply not_prefix_below in Hq.
    + by right; left.
    + intros n c' Hn. right; right. exists n. by rewrite parent_snoc.
    + intros q c' Hq. rewrite parent_snoc in Hq. eapply (above_primary t S); [done|intros r; by rewrite Hnone|]. instantiate (1 := []). by apply prefix_app_r.
    + by rewrite (Hnone []).
    + intros u Hw Hf Hc. split; [done|]. unfold file_at. by rewrite Hc, decide_True.
  - apply wp_returns; [done|]. split; [done|]. unfold file_at. by rewrite (Hnone []).
Qed.

Lemma sequence_switched u e :
  filling t S u → file_at u (primary_backup ++ [S]) = content → from_json e = Some m' →
  switched S m' g' (<[active ++ [MANIFEST_FILE] := File e]> u).
Proof.
  intros Hf Hc He. set (v := <[active ++ [MANIFEST_FILE] := File e]> u).
  assert (file_at v (primary_backup ++ [S]) = content) as Hcv by (rewrite <-Hc; apply file_at_same; unfold v; by rewrite lookup_insert_ne).
  apply switched_manifest; [by apply (bool_decide_unpack _)|done|]. fold v. intros Hco Hm. pose proof Hco as (Hwf & Ho & Hmk & Hcb & _).
  pose proof sequence_unused as Hun. split.
  - apply (valid_from m t Hv); [done..|by exists e|by apply (core_valid_ratchet m t Hv S Hun)| |by apply (core_valid_trust m t Hv S Hun)].
    change (next_sequence_backup m') with (bool_decide (is_Some content), primary_backup ++ [S]). cbn [fst snd]. rewrite bool_decide_eq_true. intros [c Hcc].
    rewrite Hcc in Hcv. unfold file_at in Hcv. exists c. destruct (v !! _) as [[|]|]; congruence.
  - intros q Hq. apply (outcome_from g m t Hg); [done..| | |done].
    + intros n r [Hn|[Hn|Hn]].
      * rewrite override_ne by (by rewrite Hn). rewrite <-Hg by (split; [by rewrite Hn|intros [_ ?%area_temporary]; congruence]).
        etrans; [|by apply (core_outcome_ratchet m t S Hun v)]. cbn [outcome]. by rewrite Hn.
      * rewrite override_eq by done. cbn [outcome]. rewrite Hn. change (next_sequence_backup m') with (bool_decide (is_Some content), primary_backup ++ [S]).
        apply area_sequence in Hn as ->. destruct r as [|a r]; [|rewrite decide_False by done; by rewrite (bool_decide_false (a :: r = [])), andb_false_r].
        rewrite decide_True, (bool_decide_true ([] = [])), andb_true_r by done. rewrite Hcv. destruct content as [c|]; [by rewrite bool_decide_true by by exists c|].
        rewrite bool_decide_false; [done|]. by intros [].
      * rewrite override_ne by (by rewrite Hn). rewrite <-Hg by (split; [by rewrite Hn|intros [_ ?%area_temporary]; congruence]).
        etrans; [|by apply (core_outcome_trust m t S Hun v)]. cbn [outcome]. by rewrite Hn.
    + intros n r Hn. apply override_ne. by destruct Hn as [-> | ->].
Qed.

Lemma wp_live_sequence v u :
  guarded m' v u →
  wp (guarded m' v) (match content with Some c => write_staged_file next_sequence c | None => returns (Ok tt) end) (fun _ => guarded m' v) u.
Proof.
  intros Hu. pose proof Hu as (Hw & _ & _). destruct content as [c|]; [|by apply wp_returns].
  apply (wp_write_staged_file _ (allowed (with_sequence_primary (bool_decide (is_Some (Some c))) m))); [done|done|apply guarded_grows|done|..].
  - intros q Hq. left. by apply prefix_nil_inv in Hq.
  - right. split; [done|intros []].
  - intros n c' Hn. right. change (parent next_sequence ++ [n]) with [n]. cbn. rewrite (area_temporary n Hn). tauto.
  - intros q c' Hq. apply prefix_nil_inv in Hq as ->. by rewrite (proj1 Hw).
  - eapply sequence_not_dir. exact Hu.
  - done.
Qed.

(** A crash leaves the old outcome, or the one with the record of the vault. *)
Lemma wp_prepare_sequence_workspace tx read :
  check_read tx read tx.(sequence_primary_prepared) Sequence
    SequenceWorkspaceAlreadyPrepared SequenceWorkspaceRootMismatch SequenceWorkspaceKindMismatch = Ok tt →
  sequence_content read.(records) = Ok content →
  wp (fun w => pending g w ∨ pending g' w) (prepare_sequence_workspace tx read)
     (fun tx' w => switched S m' g' w ∧ tx'.(ratchet_primary_baseline) = tx.(ratchet_primary_baseline) ∧
        tx'.(sequence_primary_prepared) = true ∧
        tx'.(trust_primary_baseline) = tx.(trust_primary_baseline) ∧ tx'.(append_only_removals) = tx.(append_only_removals)) t.
Proof.
  intros Hck Hbl. pose proof (filling_start m t Hv S Hprimary) as Hf0. pose proof sequence_unused as Hun.
  assert (∀ u, filling t S u → pending g u ∨ pending g' u) as Hfp by (intros u Hu; left; by apply (filling_pending g m t Hv Hg S Hun)).
  unfold prepare_sequence_workspace. rewrite Hck, Hbl. do 2 (apply wp_bind, wp_returns; [by auto|]). apply (wp_read_same S); [done|by auto|].
  apply wp_bind. unfold remove_file_if_present at 1. apply wp_bind, wp_path_exists; [by auto|].
  rewrite lookup_node_ne, (Hnone []) by done. apply wp_returns; [by auto|]. apply wp_bind. eapply wp_mono; [|exact Hfp|apply wp_fill_sequence].
  intros _ u [Hfu Hwr]. destruct (filling_core t S u Hfu) as [Hcu Hmu]. apply wp_bind. eapply wp_conseq.
  { apply (wp_switch g m t Hv Hg S Hun g' m' u Hcu Hmu); [by apply json_same|]. intros e He. by eapply switched_pending, sequence_switched. }
  cbv beta. intros _ v (e & He & Hve). assert (switched S m' g' v) as Hsw by (subst v; by apply sequence_switched).
  apply wp_bind. eapply wp_conseq.
  { apply (wp_under_switched S m' g' v _ (fun _ => guarded m' v)); [done|]. pose proof Hsw as (Hvv & _).
    apply (wp_remove_file_present _ (fun q _ => q = next_sequence)); [apply Hvv|by apply valid_guarded_refl| |done|done| |by auto].
    - eapply shrinks_mono; [|apply guarded_shrinks]. intros q x -> _ [].
    - by apply (sequence_not_dir m' v v), valid_guarded_refl. }
  cbv beta. intros _ u' Hgu. apply wp_bind. eapply wp_conseq; [apply (wp_under_switched S m' g' v); [done|by apply wp_live_sequence]|].
  cbv beta. intros _ w Hgw. assert (switched S m' g' w) as Hsw' by by eapply switched_guarded.
  apply wp_returns; [right; by eapply switched_pending|]. by split_and!.
Qed.
End sequence_workspace.

(** ** The trust files *)

Section trust_workspace.
Context (b : gmap path bytes) (Hunused : m.(trust_primary_prepared) = false)
  (Hnone : ∀ s, t !! (primary_backup ++ TRUST_PRIMARY_BACKUP_DIRECTORY :: s) = None).

(** Records that can be trust files. *)
Definition trust_records : Prop :=
  flat_records b ∧ ∀ q c, b !! q = Some c → ∃ n r, q = n :: r ∧ area n = ATrust ∧ (n ∈ TRUST_FILES → r = []) ∧ (n ∈ TRUST_DIRECTORIES → r ≠ []).

Context (Hb : trust_records).
Abbreviation T := TRUST_PRIMARY_BACKUP_DIRECTORY.
Abbreviation m' := (with_trust_primary m).
Abbreviation g' := (override ATrust (fun q => b !! q) g).
Abbreviation l := (moved (fun q => trust_backup ++ q) b).

Lemma trust_unused :
  (T = RATCHET_DIRECTORY → ratchet_primary_existed m = None) ∧ (T = NEXT_SEQUENCE_FILE → next_sequence_primary_existed m = None) ∧
  (T = TRUST_PRIMARY_BACKUP_DIRECTORY → trust_primary_prepared m = false).
Proof. split_and!; [by intros [=]|by intros [=]|done]. Qed.

Lemma trust_none s : t !! (trust_backup ++ s) = None.
Proof. apply Hnone. Qed.

(** The backup with its records. *)
Definition trust_filled u : Prop :=
  ∃ t1, dirs_added trust_backup t t1 ∧ entries_written l t1 u.

Lemma trust_fill_start t1 s : dirs_added trust_backup t t1 → t1 !! (trust_backup ++ s) = if decide (s = []) then Some Dir else None.
Proof.
  intros Ha. rewrite Ha. destruct s as [|n s]; [rewrite app_nil_r; by rewrite !decide_True|]. rewrite decide_False, trust_none; [done|].
  intros [Hp _]. by apply not_prefix_below in Hp.
Qed.

Lemma wp_fill_trust t1 :
  filling t T t1 → dirs_added trust_backup t t1 →
  wp (filling t T) (for_each (fun entry => write_staged_file (trust_backup ++ entry.1) entry.2) (btree_entries b))
     (fun _ u => filling t T u ∧ trust_filled u) t1.
Proof.
  intros Hf1 Ha. rewrite (for_each_map _ (fun e => write_staged_file e.1 e.2) (fun e => (trust_backup ++ e.1, e.2))) by done.
  pose proof Hf1 as (Hw1 & _). destruct Hb as [Hfl Hr].
  apply (wp_write_entries (filling t T) (fill_region T)); [done|done|apply (filling_grows m t Hv T)| | |].
  - apply moved_flat; [intros s s' _ _; apply app_inv_head|intros s s' _ _; apply below_app|done].
  - intros q c (s & -> & Hs)%elem_of_moved. destruct (Hr s c Hs) as (n & r & -> & _). split_and!.
    + done.
    + intros p [Hp Hne]. apply (fill_above T p (n :: r)); [done|by intros ->].
    + right; left. by apply prefix_app_r.
    + intros k c' Hk. right; left. destruct (snoc_cases (n :: r)) as [|(y & z & Heq)]; [done|]. rewrite Heq, app_assoc, parent_snoc, <-app_assoc. by apply prefix_app_r.
    + intros p c' [Hp _]. apply (above_primary t1 T p c' Hf1) with (n :: r); [|exact Hp]. intros r'. change (primary_backup ++ T :: r') with (trust_backup ++ r').
      rewrite (trust_fill_start t1) by done. by case_decide.
    + rewrite (trust_fill_start t1) by done. done.
  - intros u _ Hfu Hwr. split; [done|]. by exists t1.
Qed.

Lemma trust_filled_file u s : trust_filled u → file_at u (trust_backup ++ s) = b !! s.
Proof.
  intros (t1 & Ha & Hw). apply (moved_file_at trust_backup b t1); [done|apply Hb| |done]. rewrite (trust_fill_start t1) by done. case_decide; auto.
Qed.

Lemma trust_filled_dir u : trust_filled u → u !! trust_backup = Some Dir.
Proof.
  intros (t1 & Ha & _ & Hw2 & Hw3). destruct (Exists_dec (below trust_backup) l.*1) as [Hx|Hx]; [by apply Hw2|].
  rewrite Hw3; [|intros (s & Heq & [c Hc])%moved_keys|by intros [_ ?]].
  - pose proof (trust_fill_start t1 [] Ha) as Hd. by rewrite app_nil_r in Hd.
  - destruct Hb as [_ Hr]. destruct (Hr s c Hc) as (n & r & -> & _). symmetry in Heq. by apply (cons_ne trust_backup n r).
Qed.

(** The names in the backup. *)
Lemma trust_filled_name u n x : trust_filled u → u !! (trust_backup ++ [n]) = Some x → legal m' [n] x.
Proof.
  intros Hf Hx. destruct Hb as [Hfl Hr]. cbn [legal]. destruct (b !! [n]) as [c|] eqn:E.
  - destruct (Hr _ c E) as (n' & r & [= <- <-] & Ha & Hfile & Hdir). rewrite Ha. intros _. pose proof (trust_filled_file u [n] Hf) as Hfa. rewrite E in Hfa.
    unfold file_at in Hfa. rewrite Hx in Hfa. destruct x as [|c']; [done|]. split; [done|]. intros Hd. by apply Hdir in Hd.
  - destruct Hf as (t1 & Ha & _ & Hw2 & Hw3). destruct (Exists_dec (below (trust_backup ++ [n])) l.*1) as [Hy|Hy].
    + rewrite Hw2 in Hx by done. injection Hx as <-. apply leads_spec in Hy as (q & (s & -> & [c Hc])%moved_keys & [Hp Hne]%below_app).
      destruct (Hr s c Hc) as (n' & r & -> & Hn & Hfile & _). apply prefix_cons_inv_1 in Hp as <-. rewrite Hn. intros _. split; [|done].
      intros Hin. rewrite Hfile in Hne by done. done.
    + rewrite Hw3 in Hx; [by rewrite (trust_fill_start t1) in Hx| |by intros [_ ?]]. intros (s & Heq%app_inv_head & Hs)%moved_keys. subst. rewrite E in Hs. by destruct Hs.
Qed.

Lemma trust_switched u e :
  filling t T u → trust_filled u → from_json e = Some m' → switched T m' g' (<[active ++ [MANIFEST_FILE] := File e]> u).
Proof.
  intros Hf Hw He. set (v := <[active ++ [MANIFEST_FILE] := File e]> u).
  assert (∀ s, v !! (trust_backup ++ s) = u !! (trust_backup ++ s)) as Hvu by (intros s; unfold v; by rewrite lookup_insert_ne).
  apply switched_manifest; [by apply (bool_decide_unpack _)|done|]. fold v. intros Hco Hm. pose proof Hco as (Hwf & Ho & Hmk & Hcb & _).
  pose proof trust_unused as Hun. split.
  - apply (valid_from m t Hv); [done..|by exists e|by apply (core_valid_ratchet m t Hv T Hun)|by apply (core_valid_sequence m t Hv T Hun)|].
    intros _. split_and!.
    + rewrite <-(app_nil_r trust_backup), Hvu, app_nil_r. by apply trust_filled_dir.
    + intros q c. rewrite Hvu. intros Hq. pose proof (trust_filled_file u q Hw) as Hfa. unfold file_at in Hfa. rewrite Hq in Hfa. destruct Hb as [_ Hr].
      destruct (Hr q c (eq_sym Hfa)) as (n & r & -> & Hn & _). by exists n, r.
    + intros n x. rewrite Hvu. by apply trust_filled_name.
  - intros q Hq. apply (outcome_from g m t Hg); [done..| | |done].
    + intros n r [Hn|[Hn|Hn]].
      * rewrite override_ne by (by rewrite Hn). rewrite <-Hg by (split; [by rewrite Hn|intros [_ ?%area_temporary]; congruence]).
        etrans; [|by apply (core_outcome_ratchet m t T Hun v)]. cbn [outcome]. by rewrite Hn.
      * rewrite override_ne by (by rewrite Hn). rewrite <-Hg by (split; [by rewrite Hn|intros [_ ?%area_temporary]; congruence]).
        etrans; [|by apply (core_outcome_sequence m t T Hun v)]. cbn [outcome]. by rewrite Hn.
      * rewrite override_eq by done. cbn [outcome]. rewrite Hn. change (trust_primary_prepared m') with true.
        rewrite <-(trust_filled_file u (n :: r) Hw). apply file_at_same, Hvu.
    + intros n r Hn. apply override_ne. by destruct Hn as [-> | ->].
Qed.

Lemma wp_live_trust v u :
  guarded m' v u → (∀ n r, area n = ATrust → u !! (n :: r) = None) →
  wp (guarded m' v) (for_each (fun e => write_staged_file e.1 e.2) (btree_entries b)) (fun _ => guarded m' v) u.
Proof.
  intros Hu Hempty. pose proof Hu as (Hw & _ & _). destruct Hb as [Hfl Hr].
  apply (wp_write_entries (guarded m' v) (allowed m')); [done|done|apply guarded_grows|by apply flat_entries| |done].
  intros q c Hq%elem_of_btree_entries. destruct (Hr q c Hq) as (n & r & -> & Hn & Hfile & Hdir).
  assert (∀ s, ¬ frozen m' (n :: s)) as Hfree by (intros s; by apply trust_free).
  split_and!.
  - done.
  - intros p [Hp Hne]. destruct p as [|k p]; [by left|right]. apply prefix_cons_inv_1 in Hp as Hk. subst k. split; [|done]. cbn [legal]. rewrite Hn. intros ->.
    split; [|done]. intros Hin. rewrite Hfile in Hne by done. done.
  - right. split; [|done]. cbn [legal]. rewrite Hn. intros ->. split; [done|]. intros Hin. by apply Hdir in Hin.
  - intros k c' Hk. right. destruct (snoc_cases r) as [->|(y & z & ->)].
    + change (parent [n] ++ [k]) with [k]. cbn. rewrite (area_temporary k Hk). tauto.
    + change (n :: y ++ [z]) with ((n :: y) ++ [z]). rewrite parent_snoc. split; [|apply Hfree]. cbn [legal app]. rewrite Hn. by destruct y.
  - intros p c' [Hp _]. destruct p as [|k p]; [by rewrite (proj1 Hw)|]. apply prefix_cons_inv_1 in Hp as ->. by rewrite Hempty.
  - by rewrite Hempty.
Qed.

(** A crash leaves the old outcome, or the one with the records. *)
Lemma wp_prepare_trust_workspace_from_baseline tx :
  wp (fun w => pending g w ∨ pending g' w) (prepare_trust_workspace_from_baseline tx b)
     (fun tx' w => switched T m' g' w ∧ tx'.(ratchet_primary_baseline) = tx.(ratchet_primary_baseline) ∧
        tx'.(sequence_primary_prepared) = tx.(sequence_primary_prepared) ∧
        tx'.(trust_primary_baseline) = Some b ∧ tx'.(append_only_removals) = tx.(append_only_removals)) t.
Proof.
  pose proof (filling_start m t Hv T Hprimary) as Hf0. pose proof trust_unused as Hun.
  assert (∀ u, filling t T u → pending g u ∨ pending g' u) as Hfp by (intros u Hu; left; by apply (filling_pending g m t Hv Hg T Hun)).
  unfold prepare_trust_workspace_from_baseline. apply wp_removed_already; [done|apply (trust_none [])|by auto|].
  apply wp_bind. eapply (wp_mono (filling t T) _ _ (fun _ t1 => filling t T t1 ∧ dirs_added trust_backup t t1)); [|exact Hfp|].
  2:{ apply (wp_create_dir_all Io _ (fill_region T)); [apply Hv|done|apply (filling_grows m t Hv T)| | |by auto].
      - intros q Hq. apply (fill_above T q [[]]); [by apply (prefix_app_r _ _ [[]]) in Hq|]. intros ->. apply prefix_length in Hq. cbn in Hq. lia.
      - intros q c Hq. eapply (above_primary t T); [done|intros r; by rewrite Hnone|]. instantiate (1 := []). exact Hq. }
  intros _ t1 [Hf1 Ha]. apply wp_bind. eapply wp_mono; [|exact Hfp|by apply wp_fill_trust].
  intros _ u [Hfu Hwr]. destruct (filling_core t T u Hfu) as [Hcu Hmu]. apply (wp_read_same T); [done|by auto|]. apply wp_bind. eapply wp_conseq.
  { apply (wp_switch g m t Hv Hg T Hun g' m' u Hcu Hmu); [by apply json_same|]. intros e He. by eapply switched_pending, trust_switched. }
  cbv beta. intros _ v (e & He & Hve). assert (switched T m' g' v) as Hsw by (subst v; by apply trust_switched).
  apply wp_bind. eapply wp_conseq.
  { apply (wp_under_switched T m' g' v _ (fun _ => trust_cleared m' v v)); [done|]. pose proof Hsw as (Hvv & _).
    apply wp_clear_trust_contents; [done|by apply valid_guarded_refl]. }
  cbv beta. intros _ u' [Hgu Hempty]. apply wp_bind. eapply wp_conseq.
  { apply (wp_under_switched T m' g' v); [done|]. apply wp_live_trust; [done|]. intros n r Hn. by rewrite Hempty, decide_True. }
  cbv beta. intros _ w Hgw. assert (switched T m' g' w) as Hsw' by by eapply switched_guarded.
  apply wp_returns; [right; by eapply switched_pending|]. by split_and!.
Qed.
End trust_workspace.
End workspaces.
