(* ===== verification/StateSafety.v ===== *)
(** State transactions are atomic: whatever a crash interrupts, and however
    often the recovery after it is interrupted too, the files end as they were
    before the transaction (with the records of the vault where a workspace was
    filled from it) or, if the commit was under way, as the transaction left
    them.  Nothing is assumed of the order in which the journal is removed; the
    crashes that come while its cleanup is [exposed] are excepted, and
    [StateExample] shows one of them that loses a file. *)

From stdpp Require Import base tactics list numbers strings gmap.
From Stdlib Require Import Strings.Byte.
From S2P Require Import Prelude FileTree FileTreeFacts StateTransaction StateTransactionFacts StateJournal StateRecovery StateAtomicity StateBegin StateWorkspace StateCompaction StateWorkspaceFacts.

Section safety.
Context `{FileSystemLaws} `{HJ : ManifestJson} `{!ManifestJsonLaws} `{OrderedProfile}.
Implicit Types (t u : tree) (g : contents) (m : TransactionManifest).

(** * The life of a transaction *)

Definition manifest_of t m : Prop :=
  ∃ encoded, t !! (active ++ [MANIFEST_FILE]) = Some (File encoded) ∧ from_json encoded = Some m.

(** What a command may do to the state while the journal of [m] is open: put a
    file (a torn write puts one too) or a directory, or remove one, where the
    journal lets it. *)
Inductive change m : tree → tree → Prop :=
| change_put t q x :
    q ≠ [] → lookup_node t (parent q) = Some Dir → (t !! q = Some Dir → x = Dir) → legal m q x → ¬ frozen m q →
    change m t (<[q := x]> t)
| change_remove t q x :
    t !! q = Some x → (∀ n, t !! (q ++ [n]) = None) → ¬ frozen m q → change m t (delete q t).

(** The conditions under which a runtime record is compacted. *)
Definition compactable (tx : StateTransaction) m t (q : path) : Prop :=
  state_record_kind_for_path (path_of q) = Runtime ∧ path_of q ∈ m.(append_only_files) ∧
  path_of q ∉ tx.(append_only_removals) ∧ is_Some (file_at t q).

(** A transaction that is under way, begun in [t0], with the contents that a
    rollback gives the files: those of [t0], except where a workspace was filled
    from the vault.  The trust workspaces check the read they are given and go
    through [prepare_trust_workspace_from_baseline]. *)
Inductive transaction (t0 : tree) : contents → StateTransaction → tree → Prop :=
| tx_begin root tx : (begin root t0).(answer) = Ok tx → transaction t0 (file_at t0) tx (final t0 (begin root t0))
| tx_change g tx t u m : transaction t0 g tx t → manifest_of t m → change m t u → transaction t0 g tx u
| tx_compact g tx tx' t m q :
    transaction t0 g tx t → manifest_of t m → compactable tx m t q →
    (compact_runtime_record tx (path_of q) t).(answer) = Ok tx' →
    transaction t0 g tx' (final t (compact_runtime_record tx (path_of q) t))
| tx_ratchet g tx tx' t read b :
    transaction t0 g tx t → workspace_baseline Ratchet RatchetWorkspaceKindMismatch read.(records) ∅ = Ok b →
    ratchet_records b → (prepare_ratchet_workspace tx read t).(answer) = Ok tx' →
    transaction t0 (override ARatchet (fun q => b !! q) g) tx' (final t (prepare_ratchet_workspace tx read t))
| tx_sequence g tx tx' t read content :
    transaction t0 g tx t → sequence_content read.(records) = Ok content →
    (prepare_sequence_workspace tx read t).(answer) = Ok tx' →
    transaction t0 (override ASequence (fun q => if decide (q = next_sequence) then content else None) g) tx'
      (final t (prepare_sequence_workspace tx read t))
| tx_trust g tx tx' t b :
    transaction t0 g tx t → tx.(trust_primary_baseline) = None → trust_records b →
    (prepare_trust_workspace_from_baseline tx b t).(answer) = Ok tx' →
    transaction t0 (override ATrust (fun q => b !! q) g) tx' (final t (prepare_trust_workspace_from_baseline tx b t)).

(** A crash that comes at any point but while the cleanup of the journal is
    exposed. *)
Definition stopped (ops : list fsop) t t' : Prop := ∃ done, crashed_after done ops t t' ∧ ¬ exposed done t'.

(** The trees a crash leaves in the life of a transaction, each with the
    contents that a rollback is to give, before and after the operation that was
    under way; the latter are those of the files as they are when it is the
    commit. *)
Inductive crash (t0 : tree) : contents → contents → tree → Prop :=
| crash_begin root t' : crashed (begin root t0).(ops) t0 t' → crash t0 (file_at t0) (file_at t0) t'
| crash_open g tx t : transaction t0 g tx t → crash t0 g g t
| crash_compact g tx t m q t' :
    transaction t0 g tx t → manifest_of t m → compactable tx m t q →
    crashed (compact_runtime_record tx (path_of q) t).(ops) t t' → crash t0 g g t'
| crash_ratchet g tx tx' t read b t' :
    transaction t0 g tx t → workspace_baseline Ratchet RatchetWorkspaceKindMismatch read.(records) ∅ = Ok b →
    ratchet_records b → (prepare_ratchet_workspace tx read t).(answer) = Ok tx' →
    crashed (prepare_ratchet_workspace tx read t).(ops) t t' →
    crash t0 g (override ARatchet (fun q => b !! q) g) t'
| crash_sequence g tx tx' t read content t' :
    transaction t0 g tx t → sequence_content read.(records) = Ok content →
    (prepare_sequence_workspace tx read t).(answer) = Ok tx' →
    crashed (prepare_sequence_workspace tx read t).(ops) t t' →
    crash t0 g (override ASequence (fun q => if decide (q = next_sequence) then content else None) g) t'
| crash_trust g tx t b t' :
    transaction t0 g tx t → tx.(trust_primary_baseline) = None → trust_records b →
    crashed (prepare_trust_workspace_from_baseline tx b t).(ops) t t' →
    crash t0 g (override ATrust (fun q => b !! q) g) t'
| crash_rollback g tx t t' : transaction t0 g tx t → stopped (rollback_active t).(ops) t t' → crash t0 g g t'
| crash_commit g tx t t' : transaction t0 g tx t → stopped (commit t).(ops) t t' → crash t0 g (file_at t) t'.

(** Recovery after a crash, interrupted any number of times. *)
Inductive recoveries : tree → tree → Prop :=
| recovery_done t : recoveries t (final t (recover t))
| recovery_stopped t t1 t' : stopped (recover t).(ops) t t1 → recoveries t1 t' → recoveries t t'.

(** * An open transaction can be undone *)

(** The backups of the workspaces that are not prepared are empty. *)
Definition unprepared (tx : StateTransaction) m t : Prop :=
  (∀ c, t !! primary_backup ≠ Some (File c)) ∧
  (tx.(ratchet_primary_baseline) = None →
     m.(ratchet_primary_existed) = None ∧ ∀ s, t !! (primary_backup ++ RATCHET_DIRECTORY :: s) = None) ∧
  (tx.(sequence_primary_prepared) = false →
     m.(next_sequence_primary_existed) = None ∧ ∀ s, t !! (primary_backup ++ NEXT_SEQUENCE_FILE :: s) = None) ∧
  (tx.(trust_primary_baseline) = None →
     m.(trust_primary_prepared) = false ∧ ∀ s, t !! (primary_backup ++ TRUST_PRIMARY_BACKUP_DIRECTORY :: s) = None).

Definition opened g (tx : StateTransaction) t : Prop :=
  ∃ m, valid m t ∧ (∀ q, state_file q → outcome m t q = g q) ∧
    (∀ p, p ∈ m.(compacted_append_only_files) → p ∈ tx.(append_only_removals)) ∧
    (∀ p k, p ∈ m.(append_only_files) → Normal k ∈ p → json_name k) ∧ unprepared tx m t.

Lemma change_guarded m t u : valid m t → change m t u → guarded m t u.
Proof.
  intros Hv Hc. pose proof (valid_guarded_refl m t Hv) as Hg. destruct Hc as [t q x Hq Hp Hd Hl Hf|t q x Hx Hc Hf].
  - apply guarded_grows; [done|by right|done..].
  - by eapply guarded_shrinks.
Qed.

Lemma manifest_unique m m' t : valid m t → manifest_of t m' → m' = m.
Proof. intros Hv (e' & He' & Hm'). destruct (v_manifest m t Hv) as (e & He & Hm). congruence. Qed.

Lemma unprepared_same tx m t u :
  (∀ s, u !! (primary_backup ++ s) = t !! (primary_backup ++ s)) → unprepared tx m t → unprepared tx m u.
Proof.
  intros Hs (Hp & Hr & Hq & Ht). pose proof (Hs []) as H0'. rewrite !app_nil_r in H0'. unfold unprepared. rewrite H0'. setoid_rewrite Hs. done.
Qed.

Lemma opened_guarded g tx m t u : opened g tx t → manifest_of t m → guarded m t u → opened g tx u.
Proof.
  intros (m' & Hv & Ho & Hr & Hj & Hu) Hm Hg. apply (manifest_unique m') in Hm as ->; [|done]. exists m'.
  split_and!; [by eapply valid_guarded| |done|done|].
  - intros q Hq. rewrite <-Ho by done. by apply outcome_guarded.
  - eapply unprepared_same; [|done]. intros s. by apply (guarded_journal m' t u).
Qed.

Lemma opened_compact g tx m t q :
  opened g tx t → manifest_of t m → compactable tx m t q →
  wp (pending g) (compact_runtime_record tx (path_of q)) (fun tx' u => opened g tx' u) t.
Proof.
  intros (m' & Hv & Ho & Hr & Hj & Hu) Hm (Hk & Hin & Hnot & [c Hc]). apply (manifest_unique m') in Hm as ->; [|done].
  destruct (append_path m' t Hv _ Hin) as (n & a & r & ->%path_of_inj & Hn).
  assert (t !! (n :: a :: r) = Some (File c)) as Hf by (unfold file_at in Hc; destruct (t !! _) as [[|c']|]; congruence).
  eapply wp_conseq; [apply (wp_compact_runtime_record g m' t Hv Ho n a r c tx); try done; by intros Hx%Hr|].
  cbv beta. intros tx' u (-> & _ & Hvc & Hoc & Hs). exists (compacted m' n a r). split_and!; [done|done| |done|].
  - intros p [Hp| ->]%elem_of_compacted; cbn [add_removal append_only_removals]; [apply elem_of_union_r; by apply Hr|by apply elem_of_union_l, elem_of_singleton].
  - apply (unprepared_same (add_removal (path_of (n :: a :: r)) tx) (compacted m' n a r) t); [done|]. exact Hu.
Qed.

(** A workspace that was switched to the vault. *)
Lemma opened_switched g g' tx tx' m m' t X u :
  m'.(append_only_files) = m.(append_only_files) → m'.(compacted_append_only_files) = m.(compacted_append_only_files) →
  (∀ p, p ∈ m.(compacted_append_only_files) → p ∈ tx.(append_only_removals)) → tx'.(append_only_removals) = tx.(append_only_removals) →
  (∀ p k, p ∈ m.(append_only_files) → Normal k ∈ p → json_name k) → unprepared tx m t →
  (tx'.(ratchet_primary_baseline) = None →
     X ≠ RATCHET_DIRECTORY ∧ tx.(ratchet_primary_baseline) = None ∧ m'.(ratchet_primary_existed) = m.(ratchet_primary_existed)) →
  (tx'.(sequence_primary_prepared) = false →
     X ≠ NEXT_SEQUENCE_FILE ∧ tx.(sequence_primary_prepared) = false ∧ m'.(next_sequence_primary_existed) = m.(next_sequence_primary_existed)) →
  (tx'.(trust_primary_baseline) = None →
     X ≠ TRUST_PRIMARY_BACKUP_DIRECTORY ∧ tx.(trust_primary_baseline) = None ∧ m'.(trust_primary_prepared) = m.(trust_primary_prepared)) →
  switched t X m' g' u → opened g' tx' u.
Proof.
  intros Ea Ec Hr Htx Hj (_ & Hur & Hus & Hut) Hcr Hcs Hct (Hv & Ho & Hp & Hy). exists m'. rewrite Ea, Ec, Htx. split_and!; [done..|].
  split_and!; [done|..].
  - intros (HX & Hn & ->)%Hcr. destruct (Hur Hn) as [He Hs]. split; [done|]. intros s. rewrite Hy; [done|by apply (bool_decide_unpack _)|done].
  - intros (HX & Hn & ->)%Hcs. destruct (Hus Hn) as [He Hs]. split; [done|]. intros s. rewrite Hy; [done|by apply (bool_decide_unpack _)|done].
  - intros (HX & Hn & ->)%Hct. destruct (Hut Hn) as [He Hs]. split; [done|]. intros s. rewrite Hy; [done|by apply (bool_decide_unpack _)|done].
Qed.

Lemma checked_read {A} (r : result StateError unit) (k : action StateError A) t x :
  ((returns r ;* k) t).(answer) = Ok x → r = Ok tt.
Proof. unfold abind, returns, reads. cbn. by destruct r as [[]|]. Qed.

Lemma check_read_ok tx read prepared kind e1 e2 e3 : check_read tx read prepared kind e1 e2 e3 = Ok tt → prepared = false.
Proof. unfold check_read. intros ([] & Hx & _)%rbind_ok. by apply fail_if_ok in Hx. Qed.

Lemma opened_ratchet g tx tx' t read b :
  opened g tx t → workspace_baseline Ratchet RatchetWorkspaceKindMismatch read.(records) ∅ = Ok b → ratchet_records b →
  (prepare_ratchet_workspace tx read t).(answer) = Ok tx' →
  wp (fun w => pending g w ∨ pending (override ARatchet (fun q => b !! q) g) w) (prepare_ratchet_workspace tx read)
     (fun tx' u => opened (override ARatchet (fun q => b !! q) g) tx' u) t.
Proof.
  intros (m & Hv & Ho & Hr & Hj & Hu) Hbl Hb Ha%checked_read. pose proof (check_read_ok _ _ _ _ _ _ _ Ha) as Hn%bool_decide_eq_false.
  rewrite <-eq_None_not_Some in Hn. pose proof Hu as (Hp & Hur & _). destruct (Hur Hn) as [He Hs].
  eapply wp_conseq; [by apply (wp_prepare_ratchet_workspace g m t Hv Ho Hp Hj b)|]. cbv beta. intros tx1 u (Hsw & Hb1 & Hb2 & Hb3 & Hb4).
  eapply (opened_switched g _ tx tx1 m _ t); [| | | | | | | | |exact Hsw]; try done; rewrite ?Hb1, ?Hb2, ?Hb3; done.
Qed.

Lemma opened_sequence g tx tx' t read content :
  opened g tx t → sequence_content read.(records) = Ok content → (prepare_sequence_workspace tx read t).(answer) = Ok tx' →
  let g' := override ASequence (fun q => if decide (q = next_sequence) then content else None) g in
  wp (fun w => pending g w ∨ pending g' w) (prepare_sequence_workspace tx read) (fun tx' u => opened g' tx' u) t.
Proof.
  intros (m & Hv & Ho & Hr & Hj & Hu) Hbl Ha%checked_read g'. pose proof (check_read_ok _ _ _ _ _ _ _ Ha) as Hn.
  pose proof Hu as (Hp & _ & Hus & _). destruct (Hus Hn) as [He Hs].
  eapply wp_conseq; [by apply (wp_prepare_sequence_workspace g m t Hv Ho Hp Hj content)|]. cbv beta. intros tx1 u (Hsw & Hb1 & Hb2 & Hb3 & Hb4).
  eapply (opened_switched g _ tx tx1 m _ t); [| | | | | | | | |exact Hsw]; try done; rewrite ?Hb1, ?Hb2, ?Hb3; done.
Qed.

Lemma opened_trust g tx t b :
  opened g tx t → tx.(trust_primary_baseline) = None → trust_records b →
  wp (fun w => pending g w ∨ pending (override ATrust (fun q => b !! q) g) w) (prepare_trust_workspace_from_baseline tx b)
     (fun tx' u => opened (override ATrust (fun q => b !! q) g) tx' u) t.
Proof.
  intros (m & Hv & Ho & Hr & Hj & Hu) Hn Hb. pose proof Hu as (Hp & _ & _ & Hut). destruct (Hut Hn) as [He Hs].
  eapply wp_conseq; [by apply (wp_prepare_trust_workspace_from_baseline g m t Hv Ho Hp Hj b)|]. cbv beta. intros tx1 u (Hsw & Hb1 & Hb2 & Hb3 & Hb4).
  eapply (opened_switched g _ tx tx1 m _ t); [| | | | | | | | |exact Hsw]; try done; rewrite ?Hb1, ?Hb2, ?Hb3; done.
Qed.

Lemma wp_final {E A} (I : tree → Prop) (a : action E A) (Q : A → tree → Prop) t x :
  wp I a Q t → (a t).(answer) = Ok x → Q x (final t (a t)).
Proof. intros (y & Hy & Hq & _) Hx. congruence. Qed.

Lemma wp_crashed {E A} (I : tree → Prop) (a : action E A) (Q : A → tree → Prop) t t' :
  wp I a Q t → crashed (a t).(ops) t t' → I t'.
Proof. intros (y & _ & _ & Hc). apply Hc. Qed.

Lemma wp_stopped {E A} (I : tree → Prop) (a : action E A) (Q : A → tree → Prop) t t' :
  wp_except exposed I a Q t → stopped (a t).(ops) t t' → I t'.
Proof. intros (y & _ & _ & Hc) (done & Hd & Hx). by eapply Hc. Qed.

Lemma begin_opened t0 root tx : profile t0 → (begin root t0).(answer) = Ok tx → opened (file_at t0) tx (final t0 (begin root t0)).
Proof.
  intros Hp Ha. destruct (wp_begin t0 Hp root) as (tx' & Ha' & (m & Hs & Hj) & _). exists m. split_and!; [by apply (journaled_valid t0)| | | |].
  - intros q. by apply (journaled_outcome t0).
  - intros p Hx. destruct Hs as (files & _ & ->). by apply elem_of_nil in Hx.
  - intros p k (n & r & c & -> & Hn & Hc)%(snapshot_files t0) Hk; [|done]. unfold path_of in Hk.
    apply list_elem_of_fmap in Hk as (k' & [= ->] & Hk). by apply (p_names t0 Hp n r c).
  - destruct Hj as (_ & _ & _ & _ & _ & _ & _ & Hpb & _). destruct Hs as (files & _ & ->). split_and!; [|done..].
    intros c. pose proof (Hpb []) as Hx. rewrite app_nil_r in Hx. by rewrite Hx.
Qed.

(** However long it has worked, the journal of an open transaction is valid and
    its rollback gives every file the content it is to have. *)
Lemma transaction_opened t0 g tx t : profile t0 → transaction t0 g tx t → opened g tx t.
Proof.
  intros Hp Ht. induction Ht as [root tx Ha|g tx t u m _ IH Hm Hc|g tx tx' t m q _ IH Hm Hc Ha|g tx tx' t read b _ IH Hbl Hb Ha
    |g tx tx' t read content _ IH Hbl Ha|g tx tx' t b _ IH Hn Hb Ha].
  - by apply begin_opened.
  - eapply opened_guarded; [done..|]. destruct IH as (m' & Hv & _). apply (manifest_unique m') in Hm as ->; [|done]. by apply change_guarded.
  - apply (wp_final _ _ (fun tx u => opened g tx u) _ _ (opened_compact g tx m t q IH Hm Hc) Ha).
  - apply (wp_final _ _ _ _ _ (opened_ratchet g tx tx' t read b IH Hbl Hb Ha) Ha).
  - apply (wp_final _ _ _ _ _ (opened_sequence g tx tx' t read content IH Hbl Ha) Ha).
  - apply (wp_final _ _ _ _ _ (opened_trust g tx t b IH Hn Hb) Ha).
Qed.

Lemma opened_pending g tx t : opened g tx t → pending g t.
Proof. intros (m & Hv & Ho & _). by exists m. Qed.

(** * Recovery *)

Lemma recoveries_recovered g t t' : recoverable g t → recoveries t t' → recovered g t'.
Proof.
  intros Hr Ht. induction Ht as [t|t t1 t' Hc _ IH].
  - destruct (wp_recover g t Hr) as (x & Hx & Hq & _). done.
  - apply IH. eapply wp_stopped; [by apply wp_recover|done].
Qed.

Lemma crash_recoverable t0 g g' t : profile t0 → crash t0 g g' t → recoverable g t ∨ recoverable g' t.
Proof.
  intros Hp Hc.
  destruct Hc as [root t' Hc|g tx t Ht|g tx t m q t' Ht Hm Hq Hc|g tx tx' t read b t' Ht Hbl Hb Ha Hc|g tx tx' t read content t' Ht Hbl Ha Hc
    |g tx t b t' Ht Hn Hb Hc|g tx t t' Ht Hc|g tx t t' Ht Hc]; try (apply transaction_opened in Ht; [|done]).
  - left. eapply wp_crashed; [by apply wp_begin|done].
  - left; left. by eapply opened_pending.
  - left; left. eapply wp_crashed; [by eapply opened_compact|done].
  - destruct (wp_crashed _ _ _ _ _ (opened_ratchet g tx tx' t read b Ht Hbl Hb Ha) Hc); [left|right]; by left.
  - destruct (wp_crashed _ _ _ _ _ (opened_sequence g tx tx' t read content Ht Hbl Ha) Hc); [left|right]; by left.
  - destruct (wp_crashed _ _ _ _ _ (opened_trust g tx t b Ht Hn Hb) Hc); [left|right]; by left.
  - left. destruct Ht as (m & Hv & Ho & _). eapply wp_stopped; [apply (wp_rollback_active g m t Hv Ho), valid_guarded_refl, Hv|done].
  - destruct Ht as (m & Hv & Ho & _). destruct (wp_stopped _ _ _ _ _ (wp_commit g m t Hv Ho) Hc); [left; by left|right; by right].
Qed.

(** * Theorems *)

(** C3: a transaction is atomic.  Wherever a crash comes in its life (while it is
    begun, while the command works, while a record is compacted or a workspace is
    filled from the vault, in a rollback or in the commit), and however often the
    recoveries that follow are interrupted, all files end with the contents that
    a rollback of the transaction gives, or all of them with those that the
    operation under way was to establish, which are the files as they are when it
    is the commit; and the journal is gone.  The crashes that come while the
    cleanup of a journal is exposed (a marker that closes it is removed and
    [prepared] is not) are excepted, whatever the order of removal is. *)
Theorem transaction_atomic t0 g g' t t' :
  profile t0 → crash t0 g g' t → recoveries t t' → recovered g t' ∨ recovered g' t'.
Proof.
  intros Hp Hc Hr. destruct (crash_recoverable t0 g g' t Hp Hc) as [Hx|Hx]; [left|right]; by eapply recoveries_recovered.
Qed.

(** C6: recovery is restartable.  From a tree that can be recovered, [recover]
    returns, gives every file its content and removes the journal, whatever the
    order of removal is; and every tree that a crash leaves on the way can be
    recovered to the same contents, unless a marker that closes the journal is
    removed and [prepared] is not. *)
Theorem recovery_restartable g t :
  recoverable g t →
  (recover t).(answer) = Ok tt ∧ recovered g (final t (recover t)) ∧
  ∀ done t', crashed_after done (recover t).(ops) t t' → ¬ exposed done t' → recoverable g t'.
Proof. intros Hr. destruct (wp_recover g t Hr) as ([] & Ha & Hq & Hc). done. Qed.

(** C15: a transaction that is under way can be ended either way: [rollback]
    returns and gives every file the content it had before the transaction, or
    the record of the vault where a workspace was filled from it, the compacted
    records included, and [commit] returns and keeps every file as it is; the
    order in which the journal is removed does not matter. *)
Theorem transaction_ends t0 g tx t :
  profile t0 → transaction t0 g tx t →
  ((rollback_active t).(answer) = Ok tt ∧ recovered g (final t (rollback_active t))) ∧
  ((commit t).(answer) = Ok tt ∧ recovered (file_at t) (final t (commit t))).
Proof.
  intros Hp Ht. destruct (transaction_opened t0 g tx t Hp Ht) as (m & Hv & Ho & _). split.
  - destruct (wp_rollback_active g m t Hv Ho t) as ([] & Ha & Hq & _); [by apply valid_guarded_refl|done].
  - destruct (wp_commit g m t Hv Ho) as ([] & Ha & Hq & _). done.
Qed.
End safety.
