(* ===== verification/StateExample.v ===== *)
(** A platform and a profile on which state transactions run: the theorems of
    [StateSafety] at a concrete transaction, a crash in an exposed cleanup, and
    the sequence number that [staged_mutations] misses. *)

From stdpp Require Import base tactics list numbers strings gmap sorting.
From Stdlib Require Import Strings.Byte.
From S2P Require Import Prelude FileTree FileTreeFacts StateTransaction StateTransactionFacts StateJournal StateRecovery StateAtomicity StateBegin StateWorkspace StateCompaction StateWorkspaceFacts StateSafety.

(** * Platforms *)

(** Longer paths first. *)
Definition before (q q' : path) : Prop := length q' ≤ length q.
#[local] Instance before_dec : RelDecision before.
Proof. intros q q'. unfold before. apply _. Defined.
#[local] Instance before_total : Total before.
Proof. intros q q'. unfold before. lia. Qed.
#[local] Instance before_trans : Transitive before.
Proof. intros q q' q''. unfold before. lia. Qed.

Definition deepest_first (t : tree) (p : path) : list path := merge_sort before (subtree t p).

Definition journal_order : FileSystem :=
  {| read_order := fun _ _ l => l; removal_order := deepest_first; directory_len := 4096 |}.

(** The marker [committed] first, when nothing is below it. *)
Definition committed_first (t : tree) (p : path) : list path :=
  let l := deepest_first t p in
  if decide (marker COMMITTED_MARKER ∈ l ∧ Forall (fun q => ¬ below (marker COMMITTED_MARKER) q) l)
  then marker COMMITTED_MARKER :: filter (fun q => q ≠ marker COMMITTED_MARKER) l else l.

Definition readdir_order : FileSystem :=
  {| read_order := fun _ _ l => l; removal_order := committed_first; directory_len := 4096 |}.

Lemma length_below (q q' : path) : q `prefix_of` q' → q ≠ q' → length q < length q'.
Proof. intros [r ->] Hn. destruct r; [by rewrite app_nil_r in Hn|]. rewrite length_app. cbn. lia. Qed.

Lemma sorted_before (l : list path) i j q q' :
  StronglySorted before l → l !! i = Some q → l !! j = Some q' → length q < length q' → j < i.
Proof.
  intros Hs Hi Hj Hr. destruct (decide (j < i)) as [|Hn]; [done|]. assert (i ≠ j) as Hne by (intros ->; rewrite Hi in Hj; injection Hj as ->; lia).
  assert (before q q') as Hb; [|unfold before in Hb; lia].
  eapply (StronglySorted_app_1_elem_of before (take (S i) l) (drop (S i) l)).
  - by rewrite take_drop.
  - apply list_elem_of_lookup. exists i. apply lookup_take_Some. split; [done|lia].
  - apply list_elem_of_lookup. exists (j - S i). rewrite lookup_drop. by replace (S i + (j - S i)) with j by lia.
Qed.

Lemma deepest_first_sorted t p : StronglySorted before (deepest_first t p).
Proof. apply (StronglySorted_merge_sort before). Qed.

Lemma journal_order_laws : @FileSystemLaws journal_order.
Proof.
  split; cbn.
  - done.
  - intros t p. apply merge_sort_Permutation.
  - intros t p i j q q' Hi Hj Hp Hn. eapply sorted_before; [apply deepest_first_sorted|done..|]. by apply length_below.
Qed.

Lemma committed_first_perm t p : committed_first t p ≡ₚ subtree t p.
Proof.
  unfold committed_first. assert (deepest_first t p ≡ₚ subtree t p) as Hperm by apply merge_sort_Permutation.
  case_decide as Hc; [|done]. destruct Hc as [Hin _]. rewrite <-Hperm.
  assert (NoDup (deepest_first t p)) as Hd by (rewrite Hperm; unfold subtree; apply NoDup_filter, NoDup_fst_map_to_list).
  apply NoDup_Permutation; [|done|].
  - apply NoDup_cons. rewrite list_elem_of_filter. split; [by intros [[] _]|by apply NoDup_filter].
  - intros q. rewrite elem_of_cons, list_elem_of_filter. split; [by intros [->|[_ ?]]|]. intros Hq.
    destruct (decide (q = marker COMMITTED_MARKER)); [by left|by right].
Qed.

Lemma sorted_filter (P : path → Prop) `{∀ q, Decision (P q)} (l : list path) :
  StronglySorted before l → StronglySorted before (filter P l).
Proof.
  induction 1 as [|q l Hs IH Hall]; [constructor|]. rewrite filter_cons. case_decide; [|done]. constructor; [done|].
  apply Forall_forall. intros q' [_ Hq']%list_elem_of_filter. rewrite Forall_forall in Hall. by apply Hall.
Qed.

Lemma readdir_order_laws : @FileSystemLaws readdir_order.
Proof.
  split; cbn.
  - done.
  - apply committed_first_perm.
  - intros t p i j q q' Hi Hj Hp Hn. unfold committed_first in *. case_decide as Hc.
    2:{ eapply sorted_before; [apply deepest_first_sorted|done..|]. by apply length_below. }
    destruct Hc as [Hin Hall]. destruct j as [|j], i as [|i]; cbn in *; simplify_eq; [lia| |].
    + exfalso. apply list_elem_of_lookup_2, list_elem_of_filter in Hj as [_ Hj]. rewrite Forall_forall in Hall. by apply (Hall q' Hj).
    + enough (j < i) by lia. eapply (sorted_before (filter _ (deepest_first t p))); [|done..|by apply length_below].
      apply sorted_filter, deepest_first_sorted.
Qed.

(** * The manifest *)

Definition manifest_fields (m : TransactionManifest) :=
  (m.(version), m.(ratchet_existed), m.(next_sequence_existed), m.(append_only_files), m.(compacted_append_only_files),
   m.(ratchet_primary_existed), m.(next_sequence_primary_existed), m.(trust_primary_prepared)).

#[local] Instance manifest_countable : Countable TransactionManifest.
Proof.
  apply (inj_countable' manifest_fields
    (fun '(v, r, n, a, c, rp, np, tp) =>
       {| version := v; ratchet_existed := r; next_sequence_existed := n; append_only_files := a;
          compacted_append_only_files := c; ratchet_primary_existed := rp; next_sequence_primary_existed := np;
          trust_primary_prepared := tp |})).
  by intros [].
Defined.

(** A number as bytes, one for each of its digits. *)
Fixpoint digits (p : positive) : bytes :=
  match p with xH => [] | xO p => x30 :: digits p | xI p => x31 :: digits p end.
Fixpoint number (s : bytes) : positive :=
  match s with [] => xH | x30 :: s => xO (number s) | _ :: s => xI (number s) end.

Lemma number_digits p : number (digits p) = p.
Proof. induction p as [p IH|p IH|]; cbn; by rewrite ?IH. Qed.

Definition plain_json : ManifestJson :=
  {| to_json := fun m => Some (digits (encode m)); from_json := fun s => decode (number s) |}.

Definition plain_json_laws : @ManifestJsonLaws plain_json.
Proof.
  refine {| json_name := fun _ => True |}.
  - intros m _. by eexists.
  - intros m b [= <-]. cbn. by rewrite number_digits, decode_encode.
Defined.

Definition no_ordered_dialogs : OrderedProfile :=
  {| indexed_anchor := fun _ => Ok false; restore_ordered_shadow := returns (Ok tt) |}.

(** * A profile *)

Definition at_ratchet (n : string) : path := [RATCHET_DIRECTORY; b_str n].
Definition at_runtime (n : string) : path := [b_str "runtime"; b_str n].

Definition example_tree : tree :=
  list_to_map [
    (ratchet, Dir); (at_ratchet "session", File (b_str "s4")); (next_sequence, File (b_str "4"));
    ([b_str "runtime"], Dir); (at_runtime "old", File (b_str "record"))].

#[local] Existing Instances plain_json plain_json_laws no_ordered_dialogs.

Lemma example_nodes q x : example_tree !! q = Some x →
  (q, x) ∈ [(ratchet, Dir); (at_ratchet "session", File (b_str "s4")); (next_sequence, File (b_str "4"));
            ([b_str "runtime"], Dir); (at_runtime "old", File (b_str "record"))].
Proof. apply elem_of_list_to_map_2. Qed.

(** Cases on the nodes of the example. *)
Ltac example_cases H :=
  apply example_nodes, list_elem_of_In in H; cbn [In] in H;
  destruct H as [H|[H|[H|[H|[H|[]]]]]]; injection H as <- <-.

Lemma example_profile : profile example_tree.
Proof.
  split.
  - split; [done|]. intros q [x Hq]. by example_cases Hq.
  - intros q x Hq. example_cases Hq; try done.
    + split_and!; [done|intros Hx; by apply elem_of_nil in Hx|by intros p Hx; apply elem_of_nil in Hx].
    + split_and!; [done|intros Hx; by apply elem_of_nil in Hx|intros p Hx; by apply elem_of_nil in Hx].
  - done.
  - done.
  - done.
Qed.

(** * A transaction *)

Definition example_manifest : TransactionManifest :=
  {| version := MANIFEST_VERSION; ratchet_existed := true; next_sequence_existed := true;
     append_only_files := [path_of (at_runtime "old")]; compacted_append_only_files := [];
     ratchet_primary_existed := None; next_sequence_primary_existed := None; trust_primary_prepared := false |}.

Definition example_transaction : StateTransaction :=
  {| tx_root := []; ratchet_primary_baseline := None; sequence_primary_prepared := false;
     trust_primary_baseline := None; append_only_writes := ∅; append_only_removals := ∅ |}.

(** The vault's record of the next sequence number. *)
Definition vault_read (content : bytes) : VaultMutableRead :=
  {| state_root := []; mirror_generation := as_u64 1; selected_kinds := [Sequence];
     records := [{| record_kind := Sequence; record_relative_path := NEXT_SEQUENCE_FILE; record_content := content |}] |}.

Section runs.
Context (fs : FileSystem).

Definition begun : tree := final example_tree (begin [] example_tree).
(** The session has moved on. *)
Definition worked : tree := <[at_ratchet "session" := File (b_str "s5")]> begun.
(** The old runtime record is compacted. *)
Definition compacted_tree : tree := final worked (compact_runtime_record example_transaction (path_of (at_runtime "old")) worked).
(** The sequence number is taken from the vault. *)
Definition compacted_transaction : StateTransaction := add_removal (path_of (at_runtime "old")) example_transaction.
Definition vault_tree : tree := final compacted_tree (prepare_sequence_workspace compacted_transaction (vault_read (b_str "7")) compacted_tree).
(** The commit has written its marker. *)
Definition committed_tree : tree := <[marker COMMITTED_MARKER := File [x31; x0a]]> worked.
End runs.

(** * The theorems at the example *)

Section journal_order.
#[local] Existing Instances journal_order journal_order_laws.

Lemma example_manifest_of : manifest_of (begun journal_order) example_manifest.
Proof. exists (digits (encode example_manifest)). split; vm_compute; reflexivity. Qed.

Lemma example_begun : transaction example_tree (file_at example_tree) example_transaction (begun journal_order).
Proof. apply tx_begin. vm_compute. reflexivity. Qed.

Lemma example_worked : transaction example_tree (file_at example_tree) example_transaction (worked journal_order).
Proof.
  apply (tx_change _ _ _ (begun journal_order) _ example_manifest); [apply example_begun|apply example_manifest_of|].
  apply (change_put _ (begun journal_order) (at_ratchet "session") (File (b_str "s5"))); [done|vm_compute; reflexivity| | |by intros []].
  - intros Hx. exfalso. revert Hx. by vm_compute.
  - split; [done|]. by intros [=].
Qed.

Lemma worked_manifest_of : manifest_of (worked journal_order) example_manifest.
Proof. exists (digits (encode example_manifest)). split; vm_compute; reflexivity. Qed.

Lemma example_compacted :
  transaction example_tree (file_at example_tree) compacted_transaction (compacted_tree journal_order).
Proof.
  apply (tx_compact _ _ example_transaction _ (worked journal_order) example_manifest (at_runtime "old")); [apply example_worked|apply worked_manifest_of| |vm_compute; reflexivity].
  split_and!; [vm_compute; reflexivity|by left|apply not_elem_of_empty|vm_compute; by eexists].
Qed.

(** A crash once [commit] has written its marker: the recovery keeps what the
    transaction did. *)
Lemma transaction_atomic_witness :
  profile example_tree ∧ crash example_tree (file_at example_tree) (file_at (worked journal_order)) (committed_tree journal_order) ∧
  (recovered (file_at example_tree) (final (committed_tree journal_order) (recover (committed_tree journal_order))) ∨
   recovered (file_at (worked journal_order)) (final (committed_tree journal_order) (recover (committed_tree journal_order)))).
Proof.
  assert (crash example_tree (file_at example_tree) (file_at (worked journal_order)) (committed_tree journal_order)) as Hc.
  { eapply crash_commit; [apply example_worked|].
    assert (∃ l, (commit (worked journal_order)).(ops) = Write (marker COMMITTED_MARKER) [x31; x0a] :: l) as [l ->] by (eexists; vm_compute; reflexivity).
    eexists. split; [apply after_op, after_none|]. intros [_ Hx]. rewrite !list_elem_of_singleton in Hx. by destruct Hx. }
  split; [apply example_profile|]. split; [exact Hc|].
  apply (transaction_atomic example_tree (file_at example_tree) (file_at (worked journal_order)) (committed_tree journal_order)); [apply example_profile|exact Hc|constructor].
Defined.

Lemma recovery_restartable_witness :
  recoverable (file_at example_tree) (worked journal_order) ∧
  (recover (worked journal_order)).(answer) = Ok tt ∧ recovered (file_at example_tree) (final (worked journal_order) (recover (worked journal_order))).
Proof.
  assert (recoverable (file_at example_tree) (worked journal_order)) as Hr.
  { left. eapply opened_pending, transaction_opened; [apply example_profile|apply example_worked]. }
  split; [exact Hr|]. destruct (recovery_restartable (file_at example_tree) (worked journal_order) Hr) as (Ha & Hf & _). by split.
Defined.

(** The contents a rollback gives once the sequence number is the vault's. *)
Definition vault_contents : contents :=
  override ASequence (fun q => if decide (q = next_sequence) then Some (b_str "7") else None) (file_at example_tree).

Lemma example_vault : ∃ tx, transaction example_tree vault_contents tx (vault_tree journal_order).
Proof.
  eexists. apply (tx_sequence _ _ compacted_transaction _ (compacted_tree journal_order) (vault_read (b_str "7")));
    [apply example_compacted|done|vm_compute; reflexivity].
Qed.

Lemma transaction_ends_witness :
  (rollback_active (vault_tree journal_order)).(answer) = Ok tt ∧ (commit (vault_tree journal_order)).(answer) = Ok tt ∧
  let t' := final (vault_tree journal_order) (rollback_active (vault_tree journal_order)) in
  file_at t' (at_ratchet "session") = Some (b_str "s4") ∧ file_at t' (at_runtime "old") = Some (b_str "record") ∧
  file_at t' next_sequence = Some (b_str "7").
Proof.
  destruct example_vault as [tx Ht].
  destruct (transaction_ends example_tree vault_contents tx (vault_tree journal_order) example_profile Ht) as ((Ha & _ & _ & Hh) & Hc & _).
  split; [exact Ha|]. split; [exact Hc|]. cbv zeta. split; [|split].
  - rewrite Hh; [vm_compute; reflexivity|]. split; [done|]. by intros [? _].
  - rewrite Hh; [vm_compute; reflexivity|]. split; [done|]. by intros [? _].
  - rewrite Hh; [vm_compute; reflexivity|]. split; [done|]. by intros [_ Hx%area_temporary].
Defined.
End journal_order.

(** * The order of removal *)

Section readdir_order.
#[local] Existing Instances readdir_order readdir_order_laws.

Lemma readdir_worked : transaction example_tree (file_at example_tree) example_transaction (worked readdir_order).
Proof.
  apply (tx_change _ _ _ (begun readdir_order) _ example_manifest);
    [apply tx_begin; vm_compute; reflexivity|exists (digits (encode example_manifest)); split; vm_compute; reflexivity|].
  apply (change_put _ (begun readdir_order) (at_ratchet "session") (File (b_str "s5"))); [done|vm_compute; reflexivity| | |by intros []].
  - intros Hx. exfalso. revert Hx. by vm_compute.
  - split; [done|]. by intros [=].
Qed.

(** The cleanup of the commit has removed its marker and one file of the
    backup. *)
Definition half_removed : tree := delete (backup ++ at_ratchet "session") (delete (marker COMMITTED_MARKER) (committed_tree readdir_order)).

(** C23: a crash while the cleanup of a commit is exposed loses a file, on a platform
    that obeys the laws of [FileSystem].  The directory of the
    journal is removed in the order in which it is listed, and where [committed]
    goes before [prepared] and a crash follows, the recovery takes the
    transaction for one that is to be rolled back and restores what is left of
    its backup: here the session file, which the transaction changed from [s4]
    to [s5], is lost, and the recovery reports success. *)
Theorem cleanup_order_breaks_commit :
  FileSystemLaws ∧
  ∃ tx t, transaction example_tree (file_at example_tree) tx (worked readdir_order) ∧
    crashed (commit (worked readdir_order)).(ops) (worked readdir_order) t ∧ (recover t).(answer) = Ok tt ∧
    file_at (final t (recover t)) (at_ratchet "session") = None ∧
    file_at example_tree (at_ratchet "session") = Some (b_str "s4") ∧
    file_at (worked readdir_order) (at_ratchet "session") = Some (b_str "s5").
Proof.
  split; [apply readdir_order_laws|]. exists example_transaction, half_removed. split_and!; [apply readdir_worked| |vm_compute; reflexivity..].
  assert (∃ l, (commit (worked readdir_order)).(ops) =
    Write (marker COMMITTED_MARKER) [x31; x0a] :: Remove (marker COMMITTED_MARKER) :: Remove (backup ++ at_ratchet "session") :: l) as [l ->]
    by (eexists; vm_compute; reflexivity).
  do 3 apply crash_later. apply crash_now.
Qed.
End readdir_order.

(** * The sequence number *)

Section sequence.
#[local] Existing Instance journal_order.

(** A command that takes its number from the vault: it begins with [shadow] in
    the file, lets the file be replaced by the record of the vault, and writes
    the number after it. *)
Definition advance (shadow vault next : bytes) : result StateError (list StagedStateMutation) :=
  (let* tx := begin [] in
   let* tx := prepare_sequence_workspace tx (vault_read vault) in
   write_file Io next_sequence next ;*
   staged_mutations tx) (<[next_sequence := File shadow]> example_tree) |> answer.

(** A change of the sequence number may be missed.  [staged_mutations] compares
    the file with the backup of the file that was there when the transaction
    began, not with the record of the vault that [prepare_sequence_workspace] put
    there: with the record [4] and the next number [5], the change is reported
    if the file had said [4], and not if it had been made to say [5]. *)
Example sequence_advance_missed :
  advance (b_str "4") (b_str "4") (b_str "5") =
    Ok [{| mutation_kind := Sequence; mutation_relative_path := path_of next_sequence; mutation_content := Some (b_str "5") |}] ∧
  advance (b_str "5") (b_str "4") (b_str "5") = Ok [].
Proof. split; vm_compute; reflexivity. Qed.
End sequence.
